(* ===== verification/_CoqProject ===== *)
-Q . S2P
Prelude.v
RtList.v
Slist.v
RingBuffer.v
Scheduler.v
Object.v
Timer.v
Thread.v
Ipc.v
Objects.v
Mutex.v
Event.v
Mailbox.v
MsgQueue.v
Errno.v
Device.v
SmallMem.v
Alloc.v
Rbb.v
Mempool.v
Dynamic.v
DynPool.v
DataQueue.v
Completion.v
ElecDrv.v
Dlt645.v
Gdw1376.v
WgPhase.v
ElecThread.v
Serial.v
ElecUart.v
Printf.v
KMem.v
Msh.v
Shell.v
