(* ===== verification/Prelude.v ===== *)
(** * Verification of the UCM108E firmware

    The firmware is the RT-Thread kernel (src/rt-thread/src, include) with the
    application of a metering board (src/rt-thread/components/elec_dev): a
    concentrator that talks Q/GDW 1376.2 and DL/T 645 with a power-line
    module over a UART.  The development models the single-core configuration
    of src/rtconfig.h (32 priorities, 32-bit CPU, assertions compiled out).
    Hooks are compiled in ([RT_USING_HOOK]); a hook is a null pointer until an
    application sets it, and the model is that of a system that sets none, in
    which no hook is called.

    ** The parts and how they interact

    The kernel keeps everything on intrusive lists: the scheduler has one
    ready list per priority and a bit map of the non-empty ones; a blocked
    thread is on the suspend list of an IPC object and on the timer list; the
    tick interrupt runs the expired timers, whose callbacks make threads ready
    and call the scheduler.  The application is one thread that polls a UART,
    assembles bytes into frames, parses and dispatches them, and runs the
    detection and report tasks of the concentrator; its nodes come from the
    kernel's heap.  A second thread is the shell on the console: it edits a
    line, splits it and calls commands.

    ** Files

    - Prelude (this file): machine integers as [Z] with their wrap-around
      ([uwrap], [swrap]), bounded buffer access, the state-and-fault monad [M]
      and its weakest preconditions [wp], circular buffers ([ring]), list
      automation.
    - RtList, module [RtList]: rtservice.h, the doubly linked lists at pointer
      level; they refine a family of disjoint sequences.  The other kernel
      files use such sequences, a list per [tlist] name.
    - Slist, module [Slist]: the singly linked lists of rtservice.h.
    - RingBuffer, module [Ring]: ringbuffer.c and ringbuffer.h, with the
      15-bit indices and the mirror bits, refining a bounded byte queue.
    - Scheduler, module [Sched]: scheduler.c, irq.c, [__rt_ffs] of kservice.c.
      [sched] holds the global variables; [hw_switches] records the context
      switches.
    - Object, module [Object]: object.c, names and containers of static
      objects, with the string functions of kservice.c.
    - Timer, module [Tmr]: the timer list of timer.c, ordered by the time
      left in 32-bit arithmetic.
    - Thread, module [Thr]: thread.c, clock.c and the rest of timer.c over the
      state [kernel] = scheduler, timers, objects and tick.
    - Ipc, Mutex, Event, Mailbox, MsgQueue, modules of the same names: ipc.c
      over the state [ipc] = kernel and IPC objects.  An operation that waits
      ends in a rescheduling; what the C function does after it is woken is a
      second definition, [..._resumed].
    - Objects, module [Objects]: what the operations of Object and Thread on
      the registry of objects promise together, a typing of the registry.
    - Errno, module [Errno]: the error number of kservice.c.
    - Device, module [Dev]: device.c.  A driver is an instance of the class
      [DeviceOps]; the laws [DeviceLaws] say that it leaves the reference
      count alone.
    - Alloc, module [Alloc]: the allocator as the class [Allocator] with the
      laws [AllocatorLaws], which SmallMem satisfies, and its clients: aligned
      blocks of kservice.c, ring buffers from the heap.
    - Rbb, module [Rbb]: ringblk_buf.c, blocks inside a ring over Slist.
    - Mempool, module [Mempool]: mempool.c, pools of fixed blocks, the free
      chain in the blocks themselves.
    - Dynamic, module [Dyn]: the functions that take kernel objects from the
      heap and give them back (object.c, ipc.c, timer.c, thread.c), and the
      part of idle.c that frees dead threads; the state [dyn] is [ipc] and an
      allocator.
    - DynPool, module [DynPool]: memory pools and devices from the heap.
    - DataQueue, module [DataQueue]: dataqueue.c, with threads waiting at both
      ends; Completion, module [Completion]: completion.c.
    - ElecDrv, module [Drv]: the reading and writing functions of elec_drv.c
      and what the two assemblers share.  The device behind them is the class
      [RxDevice] with the laws [RxDeviceLaws] (bytes come out in the order
      they arrive, at most as many as asked for), with the instances
      [fifo_device] and, of file Serial, [serial_receiver].
    - Dlt645, module [Dlt], and Gdw1376, module [Gdw]: elec_dlt645.c and
      elec_1376_2.c, encoders, decoders, assemblers with their static
      variables, parsers.
    - WgPhase, module [Wg]: wg_phase.c and elec_cco_api.c, the node list on a
      heap of nodes, reports, upload, module detection, dispatch.
    - ElecThread, module [Elec]: elec_thread.c, registration and the loop that
      composes all of the application.
    - Serial, module [Serial]: serial.c, a driver for Device, over an abstract
      UART (the class [UartOps] with the laws [UartRx] and [UartCtl]) and an
      abstract allocator; a polled serial device is a receiver for ElecDrv.
    - ElecUart, module [ElecUart]: the rest of elec_drv.c, the initialisation
      of the UART over Device and Serial.
    - SmallMem, module [Mem]: mem.c, the configured allocator.
    - KMem, module [KMem]: memory and string functions of kservice.c over one
      list of bytes.
    - Printf, module [Printf]: formatted output of kservice.c, generic in the
      class [Writer] of output devices.
    - Msh, module [Msh]: msh.c, the command interpreter; the command table
      and the commands are parameters, a call is recorded.
    - Shell, module [Shell]: shell.c, the loop of [finsh_thread_entry] one
      character at a time ([shell_key]) with prompt, echo, history and
      completion, over Msh.

    Definitions carry the names of the C functions and globals; state is
    threaded through [M], where [None] is undefined behaviour (a null or
    dangling pointer, an index outside a buffer), so a theorem that code
    returns also says that it does not fault.

    ** What the theorems show

    - Scheduling: after [rt_schedule] the best ready thread runs, and the
      ready queues and their bit map agree; [__rt_ffs] is the lowest bit.
    - Time: the timer list stays ordered across the wrap-around of the tick;
      a check wakes exactly the expired threads and leaves all others that wait
      as they were; a sleep lasts exactly the ticks asked for.
    - IPC: each operation on every branch, errors and timeouts included; every
      history of a mutex refines an owner/level/queue machine, of a semaphore
      conserves its units, of an event set delivers like the sequential
      specification, of mailboxes and message queues refines a bounded
      double-ended queue; resets terminate and wake all.
    - Buffers: the ring buffer refines a byte queue; the forced put is
      characterised where it is right.
    - Registry: every sequence of operations on static kernel objects keeps
      them typed, each in the container of its class, and the questions are
      answered from the typing.
    - Containers of the drivers: every program that uses only its own blocks
      of a ring block buffer sees disjoint blocks inside it; a data queue
      refines a bounded queue of items; a completion follows its three states
      along every history.
    - Shell: the interpreter does what a reference on texts does, and
      arguments arrive as they were written; for every sequence of characters
      that stays within 79 per line the shell refines a reference editor -
      two halves of a line, five different commands - composed with it.
    - Protocols: the decoders accept exactly the frames of a reference layout;
      what the encoders write comes back through assembler, parser and
      decoder however the line cuts it; the assemblers cut any stream into
      exactly its frames.
    - Application: a node report refines a map update; the upload and the
      detection counter have exact bounds; an answer on the line makes the
      loop count the module as found and send its set-up.
    - Memory: [rt_malloc] is first fit; freeing merges and undoes an
      allocation; [rt_realloc] keeps the contents and all other blocks; every
      program that uses only what it holds sees aligned, disjoint blocks inside
      the heap, no call faults, and nothing leaks.  The contents are those of
      the blocks in use: headers are kept apart from the bytes of the blocks.
    - Objects from the heap: creation takes all its blocks or none and reports
      it, and leaves nothing behind when it fails; deletion gives back exactly these blocks, leaves no reference to
      them and wakes every waiting thread with an error; the idle thread frees
      every dead thread.
    - Pools: every program that releases only blocks it was given sees
      distinct blocks inside the pool, aligned like its memory and apart from
      the free chain, with any threads waiting; an aligned block is given back
      exactly as it was taken.
    - Devices: the registry is a finite map on names; the reference count is
      openings, those answered [-RT_ENOSYS] included, less closes modulo 256;
      a session with a serial device reads what a queue of the last [bufsz - 1]
      bytes reads and loses no memory;
      [elec_dev_init] brings the UART up as the protocols expect it.
    - Library: the word-wise copies and fills equal their byte loops, moving
      is right for every overlap, the string search finds the first
      occurrence; formatted output never writes past its buffer and holds the
      beginning of the whole text, and decimal numbers read back.
    - Where the code does not do what it means to do, a theorem says what it
      does: [put_force_same_mirror_loses_all], [mutex_inheritance_lost],
      [event_bad_option_blocks], [pack_645_overruns], [pack_1376_overruns],
      [gdw_short_frame_faults], [send_writes], [corrupt_frame_replays],
      [unhandled_afn_faults], [wg_node_del_faults], [huge_request_wraps],
      [whole_heap_refused], [calloc_product_wraps], [octal_prints_hex],
      [zero_precision_prints_nothing], [kprintf_sends],
      [strnlen_reads_behind], [mp_init_too_small_faults], [mp_create_wraps],
      [serial_reopen_leaks], [serial_tx_repeats_cr], [rbb_alloc_oversize],
      [rbb_queue_overlaps], [rbb_queue_wrong_blocks], [dq_wraps_early],
      [completion_lost], [msh_ten_arguments], [shell_stale_line],
      [shell_position_underflow], [shell_blank_line], [shell_prompt_format].

    ** Bounds and fuel

    Loops of the code that are not structural carry fuel, and running out of
    it is a fault, so every theorem that code returns shows that the fuel is
    enough.  Loops over a list of the kernel take the length of that list
    plus one; the loops of the allocator take the number of headers plus one
    ([chain_fuel]), since a chain visits a header at most once; loops with a
    counter in the code ([for_loop]) take its bound; loops over the bytes of
    the command line take its size plus one ([string_fuel]).  Sizes and tick values
    are at their width: 8, 15, 16 and 32 bits.

    ** Not modelled

    - memheap.c and slab.c (not configured), signal.c, cpu.c (SMP), the entry
      and start of the idle thread, components.c; of kservice.c the console device and [rt_strdup]; the DMA
      and POSIX parts of serial.c (not configured) and the registers of the
      UART.
    - elec_meter_api.c and the meter and controller branches of elec_thread.c,
      which do not compile.
    - Interrupts within an operation.  A step of the model is the code from a
      call to its return or to the point where the thread gives up the CPU, and
      between two steps any sequence of other steps can happen.  Most of these
      pieces run in one section between [rt_hw_interrupt_disable] and
      [rt_hw_interrupt_enable]; some enable interrupts on the way (a message
      queue takes a slot, copies the message and links the slot in several
      sections, an operation that waits enables them between suspending its
      thread and [rt_schedule], the loops of serial.c between two bytes; the
      loops of object.c only hold the scheduler lock).  For those the model has
      the runs in which no interrupt comes in between that touches the same
      object.
    - Hooks that an application sets.
    - The wrap-around of addresses: a block of memory lies below 2^32 as a
      whole, so that a pointer into it plus an offset up to its size does not
      wrap ([rt_vsnprintf] shortens a buffer for which it does).
    - Of shell.c the functions that connect it to the console device and start
      its thread, and the passwords; the expression shell (finsh_*.c), which
      [FINSH_USING_MSH_ONLY] compiles out; the commands of cmd.c, which print
      tables.
    - Work queues, wait queues and pipes, other drivers, C library, file
      systems, network stacks, CPU ports: not used by the configured core, or
      register-level, assembly or vendored code. *)
From stdpp Require Import base list gmap.
From Stdlib Require Import ZArith Lia.

#[global] Open Scope Z_scope.
#[global] Arguments Z.lnot : simpl never.
#[global] Arguments Z.land : simpl never.
#[global] Arguments Z.lor : simpl never.
#[global] Arguments Z.pow : simpl never.

(** ** Machine integers

    A w-bit unsigned C integer is a [Z] kept in range by explicit
    wrap-around at every store; signed conversions use the two's complement
    representation of the compilers the project supports. *)

Definition uwrap (w x : Z) : Z := x mod 2 ^ w.
Definition swrap (w x : Z) : Z :=
  (x + 2 ^ (w - 1)) mod 2 ^ w - 2 ^ (w - 1).

Notation u8 := (uwrap 8).
Notation u15 := (uwrap 15).
Notation u16 := (uwrap 16).
Notation u32 := (uwrap 32).
Notation s8 := (swrap 8).
Notation s16 := (swrap 16).
Notation s32 := (swrap 32).

Definition is_u (w x : Z) : Prop := 0 <= x < 2 ^ w.
Notation is_u8 := (is_u 8).
Notation is_u16 := (is_u 16).
Notation is_u32 := (is_u 32).

Lemma uwrap_range w x : 0 <= w -> is_u w (uwrap w x).
Proof.
  intros Hw. unfold is_u, uwrap. apply Z.mod_pos_bound.
  apply Z.pow_pos_nonneg; lia.
Qed.

Lemma uwrap_small w x : is_u w x -> uwrap w x = x.
Proof. apply Z.mod_small. Qed.

Lemma swrap_small w x :
  0 < w -> - 2 ^ (w - 1) <= x < 2 ^ (w - 1) -> swrap w x = x.
Proof.
  intros Hw Hx. unfold swrap.
  assert (2 ^ w = 2 * 2 ^ (w - 1)) as E.
  { rewrite <- Z.pow_succ_r by lia. f_equal; lia. }
  rewrite Z.mod_small by lia. lia.
Qed.

Lemma uwrap_add_l w x y : uwrap w (uwrap w x + y) = uwrap w (x + y).
Proof. apply Zplus_mod_idemp_l. Qed.

Lemma uwrap_add_r w x y : uwrap w (x + uwrap w y) = uwrap w (x + y).
Proof. apply Zplus_mod_idemp_r. Qed.

Create HintDb c_int.
#[export] Hint Rewrite uwrap_add_l uwrap_add_r : c_int.

(** Arithmetic on small constants of the C types: expose the powers of two
    to [lia]. *)
Ltac c_lia :=
  unfold is_u in *;
  change (2 ^ 8) with 256 in *; change (2 ^ 15) with 32768 in *;
  change (2 ^ 16) with 65536 in *; change (2 ^ 32) with 4294967296 in *;
  change (2 ^ 31) with 2147483648 in *; change (2 ^ 7) with 128 in *;
  lia.

(** Solve the side condition of a wrap that cannot wrap. *)
Ltac nowrap := rewrite !uwrap_small by c_lia.

(** ** Byte buffers

    A C buffer is the list of its cells.  An access outside the buffer is
    undefined behaviour in C and the value [None] here, so a theorem that an
    operation returns [Some _] also says that it stays in bounds. *)

(** [b[i]] *)
Definition rd (b : list Z) (i : Z) : option Z :=
  if (0 <=? i) then b !! Z.to_nat i else None.

(** [b[i] = x] *)
Definition wr (b : list Z) (i x : Z) : option (list Z) :=
  if (0 <=? i) && (i <? Z.of_nat (length b))
  then Some (<[Z.to_nat i := x]> b) else None.

(** The [n] bytes at [&b[off]]. *)
Definition buf_read (b : list Z) (off n : Z) : option (list Z) :=
  if (0 <=? off) && (0 <=? n) && (off + n <=? Z.of_nat (length b))
  then Some (take (Z.to_nat n) (drop (Z.to_nat off) b)) else None.

(** [b] with the cells from [off] on replaced by [src]. *)
Definition splice (b : list Z) (off : nat) (src : list Z) : list Z :=
  take off b ++ src ++ drop (off + length src) b.

(** Overwrite the bytes at [&b[off]] with [src]. *)
Definition buf_write (b : list Z) (off : Z) (src : list Z) : option (list Z) :=
  if (0 <=? off) && (off + Z.of_nat (length src) <=? Z.of_nat (length b))
  then Some (splice b (Z.to_nat off) src)
  else None.

(** [memcpy(&dst[doff], &src[soff], n)] for distinct buffers. *)
Definition memcpy (dst : list Z) (doff : Z) (src : list Z) (soff n : Z)
  : option (list Z) :=
  x ← buf_read src soff n; buf_write dst doff x.

Lemma buf_read_Some b off n :
  0 <= off -> 0 <= n -> off + n <= Z.of_nat (length b) ->
  buf_read b off n = Some (take (Z.to_nat n) (drop (Z.to_nat off) b)).
Proof.
  intros. unfold buf_read.
  rewrite !(proj2 (Z.leb_le _ _)) by lia. done.
Qed.

Lemma buf_write_Some b off src :
  0 <= off -> off + Z.of_nat (length src) <= Z.of_nat (length b) ->
  buf_write b off src = Some (splice b (Z.to_nat off) src).
Proof.
  intros. unfold buf_write.
  rewrite !(proj2 (Z.leb_le _ _)) by lia. done.
Qed.

Lemma memcpy_Some dst doff src soff n :
  0 <= doff -> 0 <= soff -> 0 <= n ->
  soff + n <= Z.of_nat (length src) ->
  doff + n <= Z.of_nat (length dst) ->
  memcpy dst doff src soff n =
  Some (splice dst (Z.to_nat doff)
          (take (Z.to_nat n) (drop (Z.to_nat soff) src))).
Proof.
  intros. unfold memcpy. rewrite buf_read_Some by done. simpl.
  rewrite buf_write_Some; [done | lia |].
  rewrite length_take, length_drop; lia.
Qed.

Lemma land_255 x : Z.land x 0xff = x mod 256.
Proof. apply (Z.land_ones x 8). lia. Qed.

Lemma rd_Some b i :
  0 <= i < Z.of_nat (length b) -> exists x, rd b i = Some x /\ b !! Z.to_nat i = Some x.
Proof.
  intros Hi. unfold rd. rewrite (proj2 (Z.leb_le 0 i)) by lia.
  destruct (lookup_lt_is_Some_2 b (Z.to_nat i)) as [x Hx]; [lia|].
  by exists x.
Qed.

Lemma wr_Some b i x :
  0 <= i < Z.of_nat (length b) -> wr b i x = Some (<[Z.to_nat i := x]> b).
Proof.
  intros Hi. unfold wr.
  rewrite (proj2 (Z.leb_le 0 i)), (proj2 (Z.ltb_lt i _)) by lia. done.
Qed.

(** ** Booleans of the C conditions *)

Ltac bool_cases :=
  repeat match goal with
  | |- context [Z.ltb ?a ?b] => destruct (Z.ltb_spec a b)
  | |- context [Z.leb ?a ?b] => destruct (Z.leb_spec a b)
  | |- context [Z.eqb ?a ?b] => destruct (Z.eqb_spec a b)
  end.

(** ** Pointwise list equality

    Slices, concatenations and updates are compared cell by cell; the index
    arithmetic is left to [lia]. *)

Lemma lookup_app_decide {A} (l1 l2 : list A) (i : nat) :
  (l1 ++ l2) !! i =
  if decide (i < length l1)%nat then l1 !! i else l2 !! (i - length l1)%nat.
Proof.
  case_decide; [by apply lookup_app_l | apply lookup_app_r; lia].
Qed.

Lemma lookup_take_decide {A} (l : list A) (n i : nat) :
  take n l !! i = if decide (i < n)%nat then l !! i else None.
Proof.
  case_decide; [by apply lookup_take_lt | apply lookup_take_ge; lia].
Qed.

Lemma lookup_insert_decide {A} (l : list A) (n i : nat) (x : A) :
  (<[n := x]> l) !! i =
  if decide (i = n /\ (n < length l)%nat) then Some x else l !! i.
Proof.
  case_decide as H.
  - destruct H as [-> H]. by apply list_lookup_insert_eq.
  - destruct (decide (i = n)) as [->|].
    + rewrite list_insert_ge by lia. done.
    + by apply list_lookup_insert_ne.
Qed.

Lemma length_splice b off src :
  (off + length src <= length b)%nat -> length (splice b off src) = length b.
Proof.
  intros. unfold splice. rewrite !length_app, length_take, length_drop. lia.
Qed.

Lemma lookup_splice b off src (i : nat) :
  (off + length src <= length b)%nat ->
  splice b off src !! i =
  if decide (off <= i < off + length src)%nat then src !! (i - off)%nat else b !! i.
Proof.
  intros H. unfold splice.
  rewrite !lookup_app_decide, lookup_take_decide, lookup_drop, !length_take.
  rewrite Nat.min_l by lia.
  repeat case_decide; try lia; try done. f_equal; lia.
Qed.

Lemma take_splice b off src n :
  (off + length src <= n <= length b)%nat ->
  take n (splice b off src) = splice (take n b) off src.
Proof.
  intros H. apply list_eq; intros i.
  rewrite lookup_take_decide, !lookup_splice by (rewrite ?length_take; lia).
  rewrite lookup_take_decide. repeat case_decide; try lia; done.
Qed.

Lemma filter_ne_id {A} `{EqDecision A} (t : A) (xs : list A) : t ∉ xs -> filter (fun x => x <> t) xs = xs.
Proof.
  induction xs as [|x xs IH]; [done|]. intros H. rewrite not_elem_of_cons in H. destruct H as [H1 H2].
  rewrite filter_cons_True by congruence. by rewrite IH.
Qed.

Lemma take_insert_lt {A} (l : list A) (i n : nat) x :
  (i < n)%nat -> take n (<[i := x]> l) = <[i := x]> (take n l).
Proof.
  intros H. apply list_eq; intros j.
  rewrite lookup_take_decide, !lookup_insert_decide, lookup_take_decide, length_take.
  repeat case_decide; try lia; done.
Qed.

Ltac list_lengths :=
  repeat first
    [ rewrite length_app in * | rewrite length_take in * | rewrite length_drop in *
    | rewrite length_insert in * | rewrite length_cons in *
    | rewrite length_nil in * | rewrite length_replicate in * ].

Ltac list_lookups :=
  repeat first
    [ rewrite lookup_app_decide | rewrite lookup_take_decide
    | rewrite lookup_drop | rewrite lookup_insert_decide
    | rewrite lookup_splice by (rewrite ?length_splice by lia; lia)
    | rewrite length_splice by (rewrite ?length_splice by lia; lia)
    | rewrite length_app | rewrite length_take | rewrite length_drop
    | rewrite length_insert ].

Ltac list_leaf :=
  first [ done
        | exfalso; lia
        | f_equal; lia
        | rewrite !lookup_ge_None_2 by (simpl; lia); done ].

(** Lengths must be known to [lia] as plain equations. *)
Ltac list_ext_lia :=
  apply list_eq; intros ?i;
  list_lookups;
  repeat (case_decide; try (exfalso; lia));
  list_leaf.

(** ** Circular buffers *)

Lemma mod_succ_wrap n x : 0 < n -> 0 <= x < n -> (if n <=? x + 1 then 0 else x + 1) = (x + 1) mod n.
Proof.
  intros Hn Hx. destruct (n <=? x + 1) eqn:E.
  - replace (x + 1) with n by lia. by rewrite Z.mod_same by lia.
  - by rewrite Z.mod_small by lia.
Qed.

Lemma mod_shift_inj n a j k :
  0 < n -> 0 <= j < n -> 0 <= k < n -> (a + j) mod n = (a + k) mod n -> j = k.
Proof.
  intros Hn Hj Hk E. assert ((j - k) mod n = 0) as H.
  { replace (j - k) with ((a + j) - (a + k)) by lia. rewrite Zminus_mod, E, Z.sub_diag. apply Zmod_0_l. }
  apply Z.mod_divide in H as [d Hd]; [|lia]. assert (d = 0) by nia. lia.
Qed.

Lemma mod_range n x : 0 < n -> 0 <= x mod n < n.
Proof. intros. by apply Z.mod_pos_bound. Qed.

Section Ring.
Context {A : Type}.
Implicit Types (b q : list A) (x : A).

(** From cell [out] on, going round, the cells of [b] hold [q]. *)
Definition ring (b : list A) (out : Z) (q : list A) : Prop :=
  0 <= out < Z.of_nat (length b) /\ (length q <= length b)%nat /\
  forall j, (j < length q)%nat -> b !! Z.to_nat ((out + Z.of_nat j) mod Z.of_nat (length b)) = q !! j.

Lemma ring_push b out q x :
  ring b out q -> (length q < length b)%nat ->
  ring (<[Z.to_nat ((out + Z.of_nat (length q)) mod Z.of_nat (length b)) := x]> b) out (q ++ [x]).
Proof.
  intros (Ho & _ & Hq) Hl. unfold ring. rewrite length_insert, length_app. simpl.
  assert (forall i, 0 <= (out + i) mod Z.of_nat (length b) < Z.of_nat (length b)) as Hr
    by (intros; apply mod_range; lia).
  split; [lia|]. split; [lia|]. intros j Hj. destruct (decide (j = length q)) as [->|Hn].
  - rewrite list_lookup_insert_eq by (specialize (Hr (Z.of_nat (length q))); lia).
    by rewrite lookup_app_r, Nat.sub_diag by lia.
  - rewrite list_lookup_insert_ne.
    + rewrite lookup_app_l by lia. apply Hq. lia.
    + intros E. apply Z2Nat.inj in E; [|apply Hr..]. apply mod_shift_inj in E; lia.
Qed.

Lemma ring_pop b out x q :
  ring b out (x :: q) ->
  b !! Z.to_nat out = Some x /\ ring b ((out + 1) mod Z.of_nat (length b)) q.
Proof.
  intros (Ho & Hl & Hq). simpl in Hl. split.
  - specialize (Hq O ltac:(simpl; lia)). by rewrite Z.add_0_r, Z.mod_small in Hq by lia.
  - split; [apply mod_range; lia|]. split; [lia|]. intros j Hj.
    specialize (Hq (S j) ltac:(simpl; lia)). simpl in Hq. rewrite <- Hq, Zplus_mod_idemp_l.
    do 3 f_equal. lia.
Qed.
End Ring.

(** ** Stateful code that can fault

    [M S A] is code over the state [S] that returns an [A]; [None] is
    undefined behaviour of the C program (a wild pointer, an index out of
    range).  Proving a weakest precondition therefore proves that the code
    does not fault. *)

Definition M (S A : Type) : Type := S -> option (A * S).

#[export] Instance M_ret S : MRet (M S) := fun A a s => Some (a, s).
#[export] Instance M_bind S : MBind (M S) := fun A B f m s =>
  match m s with Some (a, s') => f a s' | None => None end.

Definition gets {S A} (f : S -> A) : M S A := fun s => Some (f s, s).
Definition modify {S} (f : S -> S) : M S unit := fun s => Some (tt, f s).
Definition fault {S A} : M S A := fun _ => None.
(** The value of an optional pointer, a fault when there is none. *)
Definition deref {S A} (o : option A) : M S A := fun s =>
  match o with Some a => Some (a, s) | None => None end.
Definition when {S} (b : bool) (m : M S unit) : M S unit :=
  if b then m else mret tt.

(** Run code over a part [T] of the state. *)
Definition zoom {S T A} (get : S -> T) (put : T -> S -> S) (m : M T A) : M S A :=
  fun s => match m (get s) with Some (a, t) => Some (a, put t s) | None => None end.

Definition wp {S A} (m : M S A) (s : S) (Q : A -> S -> Prop) : Prop :=
  match m s with Some (a, s') => Q a s' | None => False end.

Section Wp.
Context {S T A B : Type}.

Lemma wp_bind (m : M S A) (f : A -> M S B) s Q :
  wp m s (fun a s' => wp (f a) s' Q) -> wp (m ≫= f) s Q.
Proof. unfold wp, mbind, M_bind. by destruct (m s) as [[a s']|]. Qed.

Lemma wp_bind_inv (m : M S A) (f : A -> M S B) s Q :
  wp (m ≫= f) s Q -> wp m s (fun a s' => wp (f a) s' Q).
Proof. unfold wp, mbind, M_bind. by destruct (m s) as [[a s']|]. Qed.

Lemma wp_ret (a : A) (s : S) (Q : A -> S -> Prop) : Q a s -> wp (mret a) s Q.
Proof. done. Qed.

Lemma wp_gets (f : S -> A) s (Q : A -> S -> Prop) : Q (f s) s -> wp (gets f) s Q.
Proof. done. Qed.

Lemma wp_modify (f : S -> S) s (Q : unit -> S -> Prop) : Q tt (f s) -> wp (modify f) s Q.
Proof. done. Qed.

Lemma wp_deref (o : option A) a (s : S) (Q : A -> S -> Prop) :
  o = Some a -> Q a s -> wp (deref o) s Q.
Proof. by intros ->. Qed.

Lemma wp_mono (m : M S A) s (Q R : A -> S -> Prop) :
  wp m s Q -> (forall a s', Q a s' -> R a s') -> wp m s R.
Proof. unfold wp. destruct (m s) as [[a s']|]; auto. Qed.

Lemma wp_conj (m : M S A) s (Q R : A -> S -> Prop) :
  wp m s Q -> wp m s R -> wp m s (fun a s' => Q a s' /\ R a s').
Proof. unfold wp. destruct (m s) as [[a s']|]; auto. Qed.

Lemma wp_if (b : bool) (m1 m2 : M S A) s Q :
  (b = true -> wp m1 s Q) -> (b = false -> wp m2 s Q) -> wp (if b then m1 else m2) s Q.
Proof. destruct b; auto. Qed.

Lemma wp_when (b : bool) (m : M S unit) s (Q : unit -> S -> Prop) :
  (b = true -> wp m s Q) -> (b = false -> Q tt s) -> wp (when b m) s Q.
Proof. destruct b; [auto|]. intros _ H. by apply H. Qed.

Lemma wp_zoom (get : S -> T) put (m : M T A) s (Q : A -> S -> Prop) :
  wp m (get s) (fun a t => Q a (put t s)) -> wp (zoom get put m) s Q.
Proof. unfold wp, zoom. by destruct (m (get s)) as [[a t]|]. Qed.

Lemma wp_Some (m : M S A) s Q :
  wp m s Q <-> exists a s', m s = Some (a, s') /\ Q a s'.
Proof.
  unfold wp. split.
  - destruct (m s) as [[a s']|]; [eauto|done].
  - by intros (a & s' & -> & H).
Qed.

End Wp.

(** ** What code leaves alone

    [keeps f m]: whenever [m] returns, it has not changed [f] of the state. *)
Definition keeps {S V A} (f : S -> V) (m : M S A) : Prop :=
  forall s a s', m s = Some (a, s') -> f s' = f s.

Section Keeps.
Context {S V : Type} (g : S -> V).

Lemma keeps_bind {A B} (m : M S A) (f : A -> M S B) :
  keeps g m -> (forall a, keeps g (f a)) -> keeps g (m ≫= f).
Proof.
  intros Hm Hf s c s'. unfold mbind, M_bind. destruct (m s) as [[b s1]|] eqn:E; [|done].
  intros E2. rewrite (Hf _ _ _ _ E2). by eapply Hm.
Qed.
Lemma keeps_ret {A} (a : A) : keeps g (mret a).
Proof. by intros s a' s' [= <- <-]. Qed.
Lemma keeps_gets {A} (f : S -> A) : keeps g (gets f).
Proof. by intros s a' s' [= <- <-]. Qed.
Lemma keeps_deref {A} (o : option A) : keeps g (deref o).
Proof. intros s a s'. destruct o; [by intros [= <- <-]|done]. Qed.
Lemma keeps_fault {A} : keeps g (A := A) fault.
Proof. done. Qed.
Lemma keeps_modify f : (forall s, g (f s) = g s) -> keeps g (modify f).
Proof. by intros Hf s a s' [= <- <-]. Qed.
Lemma keeps_zoom {T A} (get : S -> T) put (m : M T A) :
  (forall t s, g (put t s) = g s) -> keeps g (zoom get put m).
Proof. intros Hp s a s'. unfold zoom. destruct (m _) as [[? ?]|]; [by intros [= <- <-]|done]. Qed.

Lemma wp_keeps {A} (m : M S A) s Q :
  keeps g m -> wp m s Q -> wp m s (fun a s' => Q a s' /\ g s' = g s).
Proof. unfold wp. intros Hk. destruct (m s) as [[a s']|] eqn:E; [|done]. intros HQ. split; [done|by eapply Hk]. Qed.
End Keeps.

Ltac keeps_step :=
  first
    [ apply keeps_bind; [|intros ?] | apply keeps_ret | apply keeps_gets | apply keeps_deref
    | apply keeps_fault | apply keeps_modify; done | apply keeps_zoom; done | case_match ].

(** One step of symbolic execution. *)
Ltac wp_step :=
  lazymatch goal with
  | |- wp (mbind _ _) _ _ => apply wp_bind
  | |- wp (mret _) _ _ => apply wp_ret
  | |- wp (gets _) _ _ => apply wp_gets
  | |- wp (modify _) _ _ => apply wp_modify
  | |- wp (zoom _ _ _) _ _ => apply wp_zoom
  end; cbn beta.

Ltac wp_steps := repeat wp_step.
