(* ===== verification/RtList.v ===== *)
(** * The intrusive doubly linked lists of the kernel

    Model of [rt_list_t] and its inline operations in
    [rt-thread/include/rtservice.h], on a heap that maps the address of a node
    to its [next] and [prev] pointers.  [ring h l xs] says that the head [l]
    and the nodes [xs] form the circular list of C; the theorems show that on
    such a list every operation is the sequence operation the other files use
    for the list it works on (append, prepend, insert before a node, remove,
    test for emptiness, length), and that a list that does not contain the
    nodes involved is left alone. *)
From stdpp Require Import base list gmap.
From Stdlib Require Import ZArith Lia.
From S2P Require Import Prelude.

Module RtList.

Notation addr := positive.

Record rt_list_node := mk_node { next : addr; prev : addr }.

Abbreviation heap := (gmap addr rt_list_node).

Definition load (l : addr) : M heap rt_list_node :=
  fun h => n ← h !! l; Some (n, h).

(** [l->next = x] and [l->prev = x]. *)
Definition set_next (l x : addr) : M heap unit :=
  n ← load l; modify (<[l := mk_node x (prev n)]>).
Definition set_prev (l x : addr) : M heap unit :=
  n ← load l; modify (<[l := mk_node (next n) x]>).

Definition rt_list_init (l : addr) : M heap unit :=
  modify (<[l := mk_node l l]>).

Definition rt_list_insert_after (l n : addr) : M heap unit :=
  ln ← load l; set_prev (next ln) n;;
  ln ← load l; set_next n (next ln);;
  set_next l n;;
  set_prev n l.

Definition rt_list_insert_before (l n : addr) : M heap unit :=
  ln ← load l; set_next (prev ln) n;;
  ln ← load l; set_prev n (prev ln);;
  set_prev l n;;
  set_next n l.

Definition rt_list_remove (n : addr) : M heap unit :=
  nn ← load n; set_prev (next nn) (prev nn);;
  nn ← load n; set_next (prev nn) (next nn);;
  set_prev n n;; set_next n n.

Definition rt_list_isempty (l : addr) : M heap bool :=
  ln ← load l; mret (bool_decide (next ln = l)).

(** The loop of [rt_list_len]; [fuel] bounds its iterations. *)
Fixpoint rt_list_len_loop (fuel : nat) (l p : addr) (len : Z) : M heap Z :=
  match fuel with
  | O => fault
  | S fuel =>
      pn ← load p;
      if bool_decide (next pn = l) then mret len
      else rt_list_len_loop fuel l (next pn) (u32 (len + 1))
  end.

Definition rt_list_len (fuel : nat) (l : addr) : M heap Z :=
  rt_list_len_loop fuel l l 0.

(** ** Circular lists *)

Definition nx (h : heap) (a : addr) : option addr := next <$> h !! a.
Definition pv (h : heap) (a : addr) : option addr := prev <$> h !! a.

(** The segment [x -> y0 -> ... -> yn], each link in both directions. *)
Fixpoint links (h : heap) (x : addr) (ys : list addr) : Prop :=
  match ys with
  | [] => True
  | y :: ys => nx h x = Some y /\ pv h y = Some x /\ links h y ys
  end.

(** Head [l] with the nodes [xs]: following [next] from [l] visits [xs] in
    order and comes back to [l]; [prev] goes the other way round. *)
Definition ring (h : heap) (l : addr) (xs : list addr) : Prop :=
  NoDup (l :: xs) /\ links h l (xs ++ [l]).

(** The last node of the segment that starts at [x]. *)
Fixpoint seg_last (x : addr) (ys : list addr) : addr :=
  match ys with [] => x | y :: ys => seg_last y ys end.

(** ** Segments *)

Lemma links_app h x ys zs :
  links h x (ys ++ zs) <-> links h x ys /\ links h (seg_last x ys) zs.
Proof. revert x. induction ys as [|y ys IH]; intros x; simpl; [tauto|]. rewrite IH. tauto. Qed.

Lemma seg_last_in x ys : seg_last x ys ∈ x :: ys.
Proof. revert x. induction ys as [|y ys IH]; intros x; simpl; set_solver. Qed.

Lemma seg_last_in_tail x ys : ys <> [] -> seg_last x ys ∈ ys.
Proof. destruct ys as [|y ys]; [done|]. intros _. apply (seg_last_in y ys). Qed.

Lemma seg_last_app x ys zs : seg_last x (ys ++ zs) = seg_last (seg_last x ys) zs.
Proof. revert x. induction ys as [|y ys IH]; intros x; simpl; auto. Qed.

(** The links of a segment without repetition only depend on the [next] of
    its nodes other than the last, and the [prev] of its nodes other than the
    first. *)
Lemma links_frame h h' x ys :
  links h x ys -> NoDup (x :: ys) ->
  (forall a, a ∈ x :: ys -> a <> seg_last x ys -> nx h' a = nx h a) ->
  (forall a, a ∈ ys -> pv h' a = pv h a) ->
  links h' x ys.
Proof.
  revert x. induction ys as [|y ys IH]; intros x Hl Hd Hn Hp; [done|]. simpl in *.
  destruct Hl as (H1 & H2 & H3). inversion_clear Hd as [|? ? Hx Hd'].
  rewrite Hn, Hp by (try set_solver; intros ->; pose proof (seg_last_in y ys); set_solver).
  split_and!; [done..|]. apply IH; [done|done| |].
  - intros a Ha Hne. apply Hn; set_solver.
  - intros a Ha. apply Hp. set_solver.
Qed.

(** ** Field updates *)

Definition dom_ok (h : heap) (a : addr) : Prop := is_Some (h !! a).

Definition upd {A} (f : addr -> A) (a : addr) (x : A) : addr -> A :=
  fun b => if decide (b = a) then x else f b.

(** Same cells, given [next] and [prev] fields. *)
Definition fields (h h' : heap) (fn fp : addr -> option addr) : Prop :=
  (forall a, nx h' a = fn a) /\ (forall a, pv h' a = fp a) /\
  (forall a, dom_ok h a -> dom_ok h' a).

Lemma wp_set_next l x h Q :
  dom_ok h l ->
  (forall h', fields h h' (upd (nx h) l (Some x)) (pv h) -> Q tt h') ->
  wp (set_next l x) h Q.
Proof.
  intros [n Hn] HQ. unfold set_next, load, wp, mbind, M_bind, option_bind.
  rewrite Hn. apply HQ. unfold fields, nx, pv, upd, dom_ok. split_and!; intros a.
  - case_decide as E; [subst; by rewrite lookup_insert_eq|by rewrite lookup_insert_ne by congruence].
  - destruct (decide (a = l)) as [->|]; [by rewrite lookup_insert_eq, Hn|by rewrite lookup_insert_ne by congruence].
  - intros H. destruct (decide (a = l)) as [->|]; [by rewrite lookup_insert_eq|by rewrite lookup_insert_ne by congruence].
Qed.

Lemma wp_set_prev l x h Q :
  dom_ok h l ->
  (forall h', fields h h' (nx h) (upd (pv h) l (Some x)) -> Q tt h') ->
  wp (set_prev l x) h Q.
Proof.
  intros [n Hn] HQ. unfold set_prev, load, wp, mbind, M_bind, option_bind.
  rewrite Hn. apply HQ. unfold fields, nx, pv, upd, dom_ok. split_and!; intros a.
  - destruct (decide (a = l)) as [->|]; [by rewrite lookup_insert_eq, Hn|by rewrite lookup_insert_ne by congruence].
  - case_decide as E; [subst; by rewrite lookup_insert_eq|by rewrite lookup_insert_ne by congruence].
  - intros H. destruct (decide (a = l)) as [->|]; [by rewrite lookup_insert_eq|by rewrite lookup_insert_ne by congruence].
Qed.

Lemma wp_load l h Q :
  dom_ok h l ->
  (forall n, nx h l = Some (next n) -> pv h l = Some (prev n) -> Q n h) ->
  wp (load l) h Q.
Proof.
  intros [n Hn] HQ. unfold wp, load, mbind, option_bind. rewrite Hn.
  apply HQ; unfold nx, pv; by rewrite Hn.
Qed.

Lemma nx_dom h a b : nx h a = Some b -> dom_ok h a.
Proof. unfold nx, dom_ok. by destruct (h !! a). Qed.
Lemma pv_dom h a b : pv h a = Some b -> dom_ok h a.
Proof. unfold pv, dom_ok. by destruct (h !! a). Qed.

(** Inserting [n] between the neighbours [p] and [q]: the fields the two
    insertion routines leave behind. *)
Definition inserted (h h' : heap) (p n q : addr) : Prop :=
  fields h h' (upd (upd (nx h) p (Some n)) n (Some q))
              (upd (upd (pv h) q (Some n)) n (Some p)).

(** Unlinking [n] from between [p] and [q]. *)
Definition unlinked (h h' : heap) (p n q : addr) : Prop :=
  fields h h' (upd (upd (nx h) p (Some q)) n (Some n))
              (upd (upd (pv h) q (Some p)) n (Some n)).

(** One access of the code; the heap after a store is described by its fields. *)
Ltac heap_step :=
  lazymatch goal with
  | |- wp (mbind _ _) _ _ => apply wp_bind
  | |- wp (load _) _ _ => apply wp_load; [|intros ?n ?E ?E]
  | |- wp (set_next _ _) _ _ => apply wp_set_next; [|intros ?h (?F & ?G & ?D)]
  | |- wp (set_prev _ _) _ _ => apply wp_set_prev; [|intros ?h (?F & ?G & ?D)]
  end.

(** Express every later heap by the first one. *)
Ltac heap_eqs :=
  repeat match goal with
  | H : forall a, nx ?h a = _, H' : context [nx ?h _] |- _ =>
      lazymatch type of H' with forall a, nx h a = _ => fail | _ => rewrite H in H' end
  | H : forall a, pv ?h a = _, H' : context [pv ?h _] |- _ =>
      lazymatch type of H' with forall a, pv h a = _ => fail | _ => rewrite H in H' end
  end.

Ltac fields_tac :=
  unfold inserted, unlinked, fields; split_and!; intros; eauto 10;
  unfold upd in *;
  repeat first
    [ match goal with
      | H : forall a, nx ?h a = _ |- context [nx ?h _] => rewrite H
      | H : forall a, pv ?h a = _ |- context [pv ?h _] => rewrite H
      end
    | case_decide ];
  simplify_eq; try congruence.

Lemma insert_after_spec l n q h Q :
  nx h l = Some q -> dom_ok h q -> dom_ok h n -> l <> n ->
  (forall h', inserted h h' l n q -> Q tt h') ->
  wp (rt_list_insert_after l n) h Q.
Proof.
  intros Hl Hq Hn Hne HQ. pose proof (nx_dom _ _ _ Hl) as Hdl.
  unfold rt_list_insert_after. repeat heap_step; heap_eqs; simplify_eq; eauto 10.
  apply HQ. fields_tac.
Qed.

Lemma insert_before_spec l n p h Q :
  pv h l = Some p -> dom_ok h p -> dom_ok h n -> l <> n ->
  (forall h', inserted h h' p n l -> Q tt h') ->
  wp (rt_list_insert_before l n) h Q.
Proof.
  intros Hl Hq Hn Hne HQ. pose proof (pv_dom _ _ _ Hl) as Hdl.
  unfold rt_list_insert_before. repeat heap_step; heap_eqs; simplify_eq; eauto 10.
  apply HQ. fields_tac.
Qed.

Lemma remove_spec p n q h Q :
  nx h n = Some q -> pv h n = Some p -> dom_ok h p -> dom_ok h q ->
  (p = n <-> q = n) ->
  (forall h', unlinked h h' p n q -> Q tt h') ->
  wp (rt_list_remove n) h Q.
Proof.
  intros Hnq Hnp Hp Hq Hpq HQ. pose proof (nx_dom _ _ _ Hnq) as Hdn.
  unfold rt_list_remove. repeat heap_step; heap_eqs; simplify_eq; eauto 10.
  all: unfold upd in *; repeat case_decide; simplify_eq; eauto 10.
  all: try (apply HQ; fields_tac).
  all: try match goal with H : prev _ = prev _ |- _ => rewrite <- H end; auto; try (apply D; congruence).
Qed.

(** ** Operations on one list *)

Lemma links_same h h' x ys :
  links h x ys ->
  (forall a, a ∈ x :: ys -> nx h' a = nx h a /\ pv h' a = pv h a) ->
  links h' x ys.
Proof.
  revert x. induction ys as [|y ys IH]; intros x; simpl; [done|].
  intros (H1 & H2 & H3) Hs.
  rewrite (proj1 (Hs x ltac:(set_solver))), (proj2 (Hs y ltac:(set_solver))).
  split_and!; [done..|]. apply IH; [done|]. intros a Ha. apply Hs. set_solver.
Qed.

Lemma ring_frame h h' l xs :
  ring h l xs ->
  (forall a, a ∈ l :: xs -> nx h' a = nx h a /\ pv h' a = pv h a) ->
  ring h' l xs.
Proof.
  intros [Hd Hl] Hs. split; [done|]. apply (links_same h); [done|].
  intros a Ha. apply Hs. set_solver.
Qed.

(** The node that follows the segment before [ys]. *)
Definition next_of (l : addr) (ys : list addr) : addr := hd l ys.

Lemma next_of_in l ys : next_of l ys ∈ l :: ys.
Proof. destruct ys; simpl; set_solver. Qed.

(** A list cut in two: the links across the cut and on both sides of it. *)
Lemma links_cut h l xs ys :
  links h l ((xs ++ ys) ++ [l]) <->
  links h l xs /\ nx h (seg_last l xs) = Some (next_of l ys) /\
  pv h (next_of l ys) = Some (seg_last l xs) /\
  links h (next_of l ys) (tail (ys ++ [l])).
Proof.
  rewrite <- app_assoc, links_app. by destruct ys as [|y ys]; simpl.
Qed.

Lemma ring_dom h l xs a : ring h l xs -> a ∈ l :: xs -> dom_ok h a.
Proof.
  intros [_ Hl] Ha. apply list_elem_of_split in Ha as (us & vs & E).
  destruct us as [|u us]; simplify_eq/=.
  - destruct (vs ++ [a]) eqn:E; [by destruct vs|]. simpl in Hl. by eapply nx_dom, Hl.
  - replace (us ++ a :: vs) with ((us ++ [a]) ++ vs) in Hl by (by rewrite <- app_assoc).
    apply links_cut in Hl as (Hl & _). apply links_app in Hl as (_ & Hl).
    simpl in Hl. by eapply pv_dom, Hl.
Qed.

(** The part of the circle from the node after the cut back to the head. *)
Lemma tail_frame h h' l xs ys :
  NoDup (l :: xs ++ ys) ->
  links h (next_of l ys) (tail (ys ++ [l])) ->
  (forall a, a ∈ ys -> nx h' a = nx h a) ->
  (forall a, a ∈ l :: ys -> a <> next_of l ys -> pv h' a = pv h a) ->
  links h' (next_of l ys) (tail (ys ++ [l])).
Proof.
  intros Hd Hl Hn Hp. destruct ys as [|y ys]; [done|]. simpl in *.
  inversion_clear Hd as [|? ? Hx Hd']. apply NoDup_app in Hd' as (Hd1 & Hd2 & Hd3).
  inversion_clear Hd3 as [|? ? Hy Hd4].
  assert (NoDup (y :: ys ++ [l])) as Hnd.
  { constructor; [set_solver|]. apply NoDup_app. split_and!; [done| |apply NoDup_singleton]. set_solver. }
  apply (links_frame h); [done..| |].
  - intros a Ha Hne. rewrite seg_last_app in Hne. simpl in Hne. apply Hn. set_solver.
  - intros a Ha. apply Hp; [set_solver|]. intros ->.
    inversion_clear Hnd. set_solver.
Qed.

Lemma head_frame h h' l xs ys :
  NoDup (l :: xs ++ ys) -> links h l xs ->
  (forall a, a ∈ l :: xs -> a <> seg_last l xs -> nx h' a = nx h a) ->
  (forall a, a ∈ xs -> pv h' a = pv h a) ->
  links h' l xs.
Proof.
  intros Hd Hl. apply (links_frame h); [done|].
  change (l :: xs ++ ys) with ((l :: xs) ++ ys) in Hd. by apply NoDup_app in Hd as (? & _).
Qed.

Lemma seg_last_not_tail l xs ys :
  NoDup (l :: xs ++ ys) -> seg_last l xs ∉ ys.
Proof.
  intros Hd Hin. change (l :: xs ++ ys) with ((l :: xs) ++ ys) in Hd.
  apply NoDup_app in Hd as (_ & Hd & _). by eapply Hd, Hin; apply seg_last_in.
Qed.

Lemma next_of_not_front l xs ys :
  NoDup (l :: xs ++ ys) -> next_of l ys ∉ xs.
Proof.
  intros Hd Hin. inversion_clear Hd as [|? ? Hx Hd'].
  apply NoDup_app in Hd' as (_ & Hd & _).
  pose proof (next_of_in l ys) as Hn. apply elem_of_cons in Hn as [Hn|Hn]; [|by eapply Hd].
  rewrite Hn in Hin. set_solver.
Qed.

Lemma upd_ne {A} (f : addr -> A) a x b : b <> a -> upd f a x b = f b.
Proof. intros. unfold upd. by rewrite decide_False. Qed.
Lemma upd_eq {A} (f : addr -> A) a x : upd f a x a = x.
Proof. unfold upd. by rewrite decide_True. Qed.

Lemma ring_insert h h' l xs ys n :
  ring h l (xs ++ ys) -> n ∉ l :: xs ++ ys ->
  inserted h h' (seg_last l xs) n (next_of l ys) ->
  ring h' l (xs ++ n :: ys).
Proof.
  intros [Hd Hl] Hn (HN & HP & _).
  pose proof (seg_last_in l xs) as Hp. pose proof (next_of_in l ys) as Hq.
  pose proof (seg_last_not_tail _ _ _ Hd) as Hpt. pose proof (next_of_not_front _ _ _ Hd) as Hqf.
  assert (Permutation (l :: xs ++ n :: ys) (n :: l :: xs ++ ys)) as EP.
  { rewrite <- Permutation_middle. apply Permutation_swap. }
  split; [rewrite EP; by constructor|].
  apply links_cut in Hl as (H1 & _ & _ & H2). apply links_cut. simpl. split_and!.
  - apply (head_frame h _ _ _ ys); [done..| |].
    + intros a Ha Hne. rewrite HN, !upd_ne; [done|done|]. set_solver.
    + intros a Ha. rewrite HP, !upd_ne; [done| |]; set_solver.
  - rewrite HN, upd_ne, upd_eq; [done|]. set_solver.
  - by rewrite HP, upd_eq.
  - destruct ys as [|y ys]; simpl in *.
    + rewrite HN, HP, upd_eq, upd_ne, upd_eq by set_solver. done.
    + rewrite HN, HP, upd_eq, upd_ne, upd_eq by set_solver. split_and!; [done..|].
      apply (tail_frame h _ l xs (y :: ys)); [done..| |]; simpl.
      * intros a Ha. rewrite HN, !upd_ne; [done| |]; set_solver.
      * intros a Ha Hne. rewrite HP, !upd_ne; [done|done|]; set_solver.
Qed.

Lemma ring_unlink h h' l xs ys n :
  ring h l (xs ++ n :: ys) ->
  unlinked h h' (seg_last l xs) n (next_of l ys) ->
  ring h' l (xs ++ ys) /\ ring h' n [].
Proof.
  intros [Hd Hl] (HN & HP & _).
  assert (Permutation (l :: xs ++ n :: ys) (n :: l :: xs ++ ys)) as EP.
  { rewrite <- Permutation_middle. apply Permutation_swap. }
  pose proof Hd as Hd'. rewrite EP in Hd'. inversion_clear Hd' as [|? ? Hn Hd2].
  pose proof (seg_last_in l xs) as Hp. pose proof (next_of_in l ys) as Hq.
  pose proof (seg_last_not_tail _ _ _ Hd2) as Hpt. pose proof (next_of_not_front _ _ _ Hd2) as Hqf.
  split.
  - split; [done|]. apply links_cut in Hl as (H1 & _ & _ & H2). apply links_cut. split_and!.
    + apply (head_frame h _ _ _ ys); [done..| |].
      * intros a Ha Hne. rewrite HN, !upd_ne; [done|done|]. set_solver.
      * intros a Ha. rewrite HP, !upd_ne; [done| |]; set_solver.
    + rewrite HN, upd_ne, upd_eq; [done|]. set_solver.
    + rewrite HP, upd_ne, upd_eq; [done|]. set_solver.
    + apply (tail_frame h _ l xs ys); [done| | |].
      * destruct ys; [done|]. by apply H2.
      * intros a Ha. rewrite HN, !upd_ne; [done| |]; set_solver.
      * intros a Ha Hne. rewrite HP, !upd_ne; [done|done|]; set_solver.
  - split; [apply NoDup_singleton|]. simpl. by rewrite HN, HP, !upd_eq.
Qed.

(** ** A heap of lists

    The kernel keeps many such lists (ready queues, wait queues, timer lists,
    object containers) over one set of nodes.  [L] maps the address of each
    list head to the nodes of its list; a detached node is the head of an
    empty list of its own. *)

Abbreviation lists := (gmap addr (list addr)).

Definition rep (h : heap) (L : lists) : Prop :=
  (forall l xs, L !! l = Some xs -> ring h l xs) /\
  (forall l1 xs1 l2 xs2 a, L !! l1 = Some xs1 -> L !! l2 = Some xs2 -> l1 <> l2 ->
     a ∈ l1 :: xs1 -> a ∉ l2 :: xs2).

Inductive list_op :=
| Init (l : addr) | InsertAfter (l n : addr) | InsertBefore (l n : addr) | Remove (n : addr).

Definition run_op (o : list_op) : M heap unit :=
  match o with
  | Init l => rt_list_init l
  | InsertAfter l n => rt_list_insert_after l n
  | InsertBefore l n => rt_list_insert_before l n
  | Remove n => rt_list_remove n
  end.

(** What each operation means on sequences: a detached node goes right after,
    or right before, a node (or the head) of a list; a member leaves its list
    and is detached. *)
Inductive astep (L : lists) : list_op -> lists -> Prop :=
| A_init l :
    (forall k xs, L !! k = Some xs -> l ∉ k :: xs) ->
    astep L (Init l) (<[l := []]> L)
| A_insert_after l xs ys n :
    L !! l = Some (xs ++ ys) -> L !! n = Some [] -> n <> l ->
    astep L (InsertAfter (seg_last l xs) n) (<[l := xs ++ n :: ys]> (delete n L))
| A_insert_before l xs ys n :
    L !! l = Some (xs ++ ys) -> L !! n = Some [] -> n <> l ->
    astep L (InsertBefore (next_of l ys) n) (<[l := xs ++ n :: ys]> (delete n L))
| A_remove l xs ys n :
    L !! l = Some (xs ++ n :: ys) ->
    astep L (Remove n) (<[n := []]> (<[l := xs ++ ys]> L)).

Lemma init_spec l h Q :
  (forall h', fields h h' (upd (nx h) l (Some l)) (upd (pv h) l (Some l)) -> Q tt h') ->
  wp (rt_list_init l) h Q.
Proof.
  intros HQ. apply wp_modify, HQ. unfold fields, nx, pv, upd, dom_ok.
  split_and!; intros a; (destruct (decide (a = l)) as [->|];
    [by rewrite lookup_insert_eq|by rewrite lookup_insert_ne by congruence]).
Qed.

(** The links of a list that a step does not touch. *)
Lemma fields_frame h h' fn fp l xs :
  ring h l xs -> fields h h' fn fp ->
  (forall a, a ∈ l :: xs -> fn a = nx h a /\ fp a = pv h a) -> ring h' l xs.
Proof.
  intros Hr (HN & HP & _) Hs. apply (ring_frame h); [done|].
  intros a Ha. rewrite HN, HP. by apply Hs.
Qed.

Lemma upd2_frame {A} (f : addr -> A) a x b y c :
  c <> a -> c <> b -> upd (upd f a x) b y c = f c.
Proof. intros. by rewrite !upd_ne. Qed.

Lemma rep_insert h h' L l xs ys n :
  rep h L -> L !! l = Some (xs ++ ys) -> L !! n = Some [] -> n <> l ->
  inserted h h' (seg_last l xs) n (next_of l ys) ->
  rep h' (<[l := xs ++ n :: ys]> (delete n L)).
Proof.
  intros [Hr Hd] Hl Hn Hne Hi.
  pose proof (seg_last_in l xs) as Hp. pose proof (next_of_in l ys) as Hq.
  assert (n ∉ l :: xs ++ ys) as Hfresh.
  { intros Hin. by apply (Hd l (xs ++ ys) n [] n Hl Hn); [done|done|set_solver]. }
  split.
  - intros k zs. destruct (decide (k = l)) as [->|Hk].
    + rewrite lookup_insert_eq. intros [= <-]. by eapply ring_insert; eauto.
    + rewrite lookup_insert_ne by done. intros [Hkn Hkz]%lookup_delete_Some.
      eapply fields_frame; [by apply Hr|done|]. intros a Ha.
      assert (a ∉ l :: xs ++ ys) by (eapply (Hd k zs l); eauto).
      assert (a <> n) by (intros ->; eapply (Hd k zs n []); eauto; set_solver).
      split; apply upd2_frame; set_solver.
  - intros k1 z1 k2 z2 a H1 H2 Hk12 Ha Ha2.
    assert (forall k z, <[l:=xs ++ n :: ys]> (delete n L) !! k = Some z -> a ∈ k :: z ->
      exists z', k <> n /\ L !! k = Some z' /\ (a ∈ k :: z' \/ (k = l /\ a = n))) as Hget.
    { intros k z Hz Haz. destruct (decide (k = l)) as [->|Hk].
      - rewrite lookup_insert_eq in Hz. simplify_eq. exists (xs ++ ys). set_solver.
      - rewrite lookup_insert_ne in Hz by done. apply lookup_delete_Some in Hz as [? ?]. naive_solver. }
    destruct (Hget k1 z1 H1 Ha) as (z1' & Hn1 & E1 & C1), (Hget k2 z2 H2 Ha2) as (z2' & Hn2 & E2 & C2).
    destruct C1 as [C1|[Ek Ea]], C2 as [C2|[Ek' Ea']]; [by eapply (Hd k1 z1' k2)| | |congruence].
    + eapply (Hd k1 z1' n []); eauto. set_solver.
    + eapply (Hd k2 z2' n []); eauto. set_solver.
Qed.

Lemma rep_unlink h h' L l xs ys n :
  rep h L -> L !! l = Some (xs ++ n :: ys) ->
  unlinked h h' (seg_last l xs) n (next_of l ys) ->
  rep h' (<[n := []]> (<[l := xs ++ ys]> L)).
Proof.
  intros [Hr Hd] Hl Hi.
  pose proof (seg_last_in l xs) as Hp. pose proof (next_of_in l ys) as Hq.
  destruct (ring_unlink _ _ _ _ _ _ (Hr _ _ Hl) Hi) as [R1 R2].
  assert (n ∉ l :: xs ++ ys) as Hfresh.
  { destruct (Hr _ _ Hl) as [Hnd _].
    assert (Permutation (l :: xs ++ n :: ys) (n :: l :: xs ++ ys)) as EP
      by (rewrite <- Permutation_middle; apply Permutation_swap).
    rewrite EP in Hnd. by inversion_clear Hnd. }
  assert (forall k z, k <> n -> k <> l -> <[n:=[]]> (<[l:=xs ++ ys]> L) !! k = Some z -> L !! k = Some z) as Hget
    by (intros k z ? ? H; by rewrite !lookup_insert_ne in H by done).
  assert (forall k z a, k <> l -> L !! k = Some z -> a ∈ k :: z -> a ∉ l :: xs ++ n :: ys) as Hoff
    by (intros k z a ? ? ?; by apply (Hd k z l)).
  split.
  - intros k zs. destruct (decide (k = n)) as [->|Hkn]; [rewrite lookup_insert_eq; by intros [= <-]|].
    rewrite lookup_insert_ne by done.
    destruct (decide (k = l)) as [->|Hk]; [rewrite lookup_insert_eq; by intros [= <-]|].
    rewrite lookup_insert_ne by done. intros Hz.
    eapply fields_frame; [by apply Hr|done|]. intros a Ha.
    pose proof (Hoff k zs a Hk Hz Ha). split; apply upd2_frame; set_solver.
  - assert (forall k z a, <[n:=[]]> (<[l:=xs ++ ys]> L) !! k = Some z -> a ∈ k :: z ->
      (k = n /\ a = n) \/ (k = l /\ a ∈ l :: xs ++ ys) \/ (k <> n /\ k <> l /\ L !! k = Some z)) as Hcase.
    { intros k z a Hz Ha. destruct (decide (k = n)) as [->|];
        [rewrite lookup_insert_eq in Hz; left; set_solver|].
      rewrite lookup_insert_ne in Hz by done. destruct (decide (k = l)) as [->|];
        [rewrite lookup_insert_eq in Hz; right; left; simplify_eq; set_solver|].
      rewrite lookup_insert_ne in Hz by done. naive_solver. }
    intros k1 z1 k2 z2 a H1 H2 Hk12 Ha1 Ha2.
    pose proof (Hcase _ _ _ H1 Ha1) as C1. pose proof (Hcase _ _ _ H2 Ha2) as C2.
    assert (a = n \/ a ∈ l :: xs ++ ys -> a ∈ l :: xs ++ n :: ys) as Hin
      by (clear; set_solver).
    destruct C1 as [[Ek Ea]|[[Ek A1]|(B1 & B1' & L1)]], C2 as [[Ek' Ea']|[[Ek' A2]|(B2 & B2' & L2)]];
      try congruence; [| | | |by eapply (Hd k1 z1 k2 z2)];
      by first [eapply (Hoff k1 z1 a); [done..|auto] | eapply (Hoff k2 z2 a); [done..|auto]].
Qed.

Lemma rep_init h h' L l :
  rep h L -> (forall k xs, L !! k = Some xs -> l ∉ k :: xs) ->
  fields h h' (upd (nx h) l (Some l)) (upd (pv h) l (Some l)) ->
  rep h' (<[l := []]> L).
Proof.
  intros [Hr Hd] Hf (HN & HP & _). split.
  - intros k zs. destruct (decide (k = l)) as [->|Hk].
    + rewrite lookup_insert_eq. intros [= <-]. split; [apply NoDup_singleton|].
      simpl. by rewrite HN, HP, !upd_eq.
    + rewrite lookup_insert_ne by done. intros Hz. apply (ring_frame h); [by apply Hr|].
      intros a Ha. pose proof (Hf k zs Hz). rewrite HN, HP, !upd_ne by set_solver. done.
  - intros k1 z1 k2 z2 a.
    destruct (decide (k1 = l)) as [->|H1], (decide (k2 = l)) as [->|H2];
      rewrite ?lookup_insert_eq, ?lookup_insert_ne by done; intros E1 E2 Hne Ha; [done| | |exact (Hd k1 z1 k2 z2 a E1 E2 Hne Ha)].
    + simplify_eq. pose proof (Hf _ _ E2). set_solver.
    + simplify_eq. pose proof (Hf _ _ E1). set_solver.
Qed.

(** The neighbours of a cut, as the heap stores them. *)
Lemma ring_cut h l xs ys :
  ring h l (xs ++ ys) ->
  nx h (seg_last l xs) = Some (next_of l ys) /\ pv h (next_of l ys) = Some (seg_last l xs).
Proof. intros [_ Hl]. by apply links_cut in Hl as (_ & ? & ? & _). Qed.

Lemma ring_node h l xs n ys :
  ring h l (xs ++ n :: ys) ->
  nx h n = Some (next_of l ys) /\ pv h n = Some (seg_last l xs).
Proof.
  intros Hr. destruct (ring_cut _ _ _ _ Hr) as [_ H2]. split; [|done].
  replace (xs ++ n :: ys) with ((xs ++ [n]) ++ ys) in Hr by (by rewrite <- app_assoc).
  apply ring_cut in Hr as [H1 _]. by rewrite seg_last_app in H1.
Qed.

Lemma step_refines h L o L' :
  rep h L -> astep L o L' -> wp (run_op o) h (fun _ h' => rep h' L').
Proof.
  intros HR Hs. pose proof HR as [Hr Hd]. destruct Hs as [l Hf|l xs ys n Hl Hn Hne|l xs ys n Hl Hn Hne|l xs ys n Hl]; simpl.
  - apply init_spec. intros h' F. by eapply rep_init.
  - pose proof (ring_dom _ _ _ n (Hr _ _ Hn) ltac:(set_solver)).
    destruct (ring_cut _ _ _ _ (Hr _ _ Hl)) as [H1 H2].
    eapply insert_after_spec; [done|by eapply pv_dom|done| |intros; by eapply rep_insert].
    intros E. pose proof (seg_last_in l xs). eapply (Hd n [] l (xs ++ ys) n); [done..|set_solver|set_solver].
  - pose proof (ring_dom _ _ _ n (Hr _ _ Hn) ltac:(set_solver)).
    destruct (ring_cut _ _ _ _ (Hr _ _ Hl)) as [H1 H2].
    eapply insert_before_spec; [done|by eapply nx_dom|done| |intros; by eapply rep_insert].
    intros E. pose proof (next_of_in l ys). eapply (Hd n [] l (xs ++ ys) n); [done..|set_solver|set_solver].
  - pose proof (Hr _ _ Hl) as Hrl. destruct (ring_node _ _ _ _ _ Hrl) as [H1 H2].
    destruct Hrl as [Hnd Hlk].
    pose proof (seg_last_in l xs). pose proof (next_of_in l ys).
    eapply remove_spec; [done|done| | | |intros; by eapply rep_unlink].
    + apply (ring_dom _ _ _ _ (Hr _ _ Hl)). set_solver.
    + apply (ring_dom _ _ _ _ (Hr _ _ Hl)). set_solver.
    + assert (Permutation (l :: xs ++ n :: ys) (n :: l :: xs ++ ys)) as EP
        by (rewrite <- Permutation_middle; apply Permutation_swap).
      rewrite EP in Hnd. inversion_clear Hnd. split; intros E; exfalso; set_solver.
Qed.

Lemma isempty_spec h l xs :
  ring h l xs -> rt_list_isempty l h = Some (bool_decide (xs = []), h).
Proof.
  intros Hr. destruct (ring_cut h l [] xs Hr) as [H1 _]. simpl in H1.
  unfold nx in H1. unfold rt_list_isempty, load, mbind, M_bind, option_bind.
  destruct (h !! l) as [n|] eqn:E; [|done]. simpl in H1. injection H1 as ->.
  unfold mret, M_ret. do 2 f_equal. apply bool_decide_ext.
  destruct xs as [|x xs]; simpl; [done|]. split; [|done]. intros ->.
  destruct Hr as [Hd _]. inversion_clear Hd. set_solver.
Qed.

Lemma len_loop_spec h l xs ys fuel len :
  ring h l (xs ++ ys) -> (length ys < fuel)%nat ->
  0 <= len -> is_u32 (len + Z.of_nat (length ys)) ->
  rt_list_len_loop fuel l (seg_last l xs) len h = Some (len + Z.of_nat (length ys), h).
Proof.
  revert xs fuel len. induction ys as [|y ys IH]; intros xs fuel len Hr Hf Hlen Hb;
    (destruct fuel as [|fuel]; [simpl in Hf; lia|]);
    pose proof (ring_cut _ _ _ _ Hr) as [H1 _]; unfold nx in H1; simpl;
    unfold load, mbind, M_bind, option_bind;
    destruct (h !! seg_last l xs) as [n|] eqn:E; try done; simpl in H1; injection H1 as ->.
  - rewrite bool_decide_true by done. unfold mret, M_ret. do 2 f_equal. simpl. lia.
  - assert (y <> l) by (intros ->; destruct Hr as [Hd _]; inversion_clear Hd; set_solver).
    simpl in *. rewrite bool_decide_false by done. rewrite uwrap_small by c_lia.
    replace y with (seg_last l (xs ++ [y])) by (by rewrite seg_last_app).
    rewrite IH; [f_equal; f_equal; lia| |lia|lia|].
    + by rewrite <- app_assoc.
    + replace (len + 1 + Z.of_nat (length ys)) with (len + Z.of_nat (S (length ys))) by lia. done.
Qed.

Lemma len_spec h l xs fuel :
  ring h l xs -> (length xs < fuel)%nat -> is_u32 (Z.of_nat (length xs)) ->
  rt_list_len fuel l h = Some (Z.of_nat (length xs), h).
Proof. intros Hr Hf Hb. apply (len_loop_spec h l [] xs fuel 0); auto; lia. Qed.

(** ** Sequences of operations *)

Fixpoint run_ops (os : list list_op) : M heap unit :=
  match os with [] => mret tt | o :: os => run_op o;; run_ops os end.

Inductive asteps : lists -> list list_op -> lists -> Prop :=
| asteps_nil L : asteps L [] L
| asteps_cons L o L1 os L2 : astep L o L1 -> asteps L1 os L2 -> asteps L (o :: os) L2.

(** C35. The pointer code of the kernel's lists implements sequences: started
    on a heap that represents a family of disjoint lists, any sequence of
    [rt_list_init], [rt_list_insert_after], [rt_list_insert_before] and
    [rt_list_remove] calls that is meaningful on sequences runs without
    touching a node that does not exist, and ends in a heap that represents
    the family of sequences obtained by inserting and deleting at those
    positions, every other list being unchanged.  On the result
    [rt_list_isempty] and [rt_list_len] return the emptiness and the length of
    each sequence. *)
Theorem rt_list_ops_refine h L os L' :
  rep h L -> asteps L os L' ->
  wp (run_ops os) h (fun _ h' =>
    rep h' L' /\
    forall l xs fuel, L' !! l = Some xs -> (length xs < fuel)%nat ->
      is_u32 (Z.of_nat (length xs)) ->
      rt_list_isempty l h' = Some (bool_decide (xs = []), h') /\
      rt_list_len fuel l h' = Some (Z.of_nat (length xs), h')).
Proof.
  intros HR Hs. revert h HR. induction Hs as [L|L o L1 os L2 H1 Hs IH]; intros h HR; simpl.
  - apply wp_ret. split; [done|]. intros l xs fuel Hl Hf Hb. destruct HR as [Hr _].
    split; [by apply isempty_spec, Hr|by apply len_spec; [apply Hr|..]].
  - apply wp_bind. eapply wp_mono; [by eapply step_refines|]. auto.
Qed.

(** Two members, a detached node and a removal. *)
Lemma rt_list_ops_refine_witness :
  wp (run_ops [Init 1; Init 2; Init 3; InsertAfter 1 2; InsertBefore 2 3; Remove 2]%positive) ∅
    (fun _ h' => rt_list_len 5 1%positive h' = Some (1, h') /\
                 rt_list_isempty 2%positive h' = Some (true, h')).
Proof.
  assert (rep ∅ ∅) as H0 by (split; intros ? ?; done).
  assert (asteps ∅ [Init 1; Init 2; Init 3; InsertAfter 1 2; InsertBefore 2 3; Remove 2]%positive
            (<[2%positive := []]> (<[1%positive := [3%positive]]>
            (<[1%positive := [3; 2]%positive]> (delete 3%positive
            (<[1%positive := [2%positive]]> (delete 2%positive
            (<[3%positive := []]> (<[2%positive := []]> (<[1%positive := []]> ∅)))))))))) as Hs.
  { repeat eapply asteps_cons; [..|apply asteps_nil].
    1-3: apply A_init; intros k xs Hk;
      repeat (apply lookup_insert_Some in Hk as [[<- <-]|[_ Hk]]; [set_solver|]); done.
    - by apply (A_insert_after _ 1%positive [] []).
    - by apply (A_insert_before _ 1%positive [] [2%positive]).
    - by apply (A_remove _ 1%positive [3%positive] []). }
  eapply wp_mono; [exact (rt_list_ops_refine _ _ _ _ H0 Hs)|].
  intros _ h' [_ H]. split.
  - apply (H 1%positive [3%positive] 5%nat); [reflexivity|simpl; lia|simpl; c_lia].
  - apply (H 2%positive [] 5%nat); [reflexivity|simpl; lia|simpl; c_lia].
Defined.

End RtList.
