(* ===== verification/Slist.v ===== *)
(** * The intrusive singly linked lists of the kernel

    Model of [rt_slist_t] and its inline operations in
    [rt-thread/include/rtservice.h], on a heap that maps a node to its [next]
    pointer, [None] being the null pointer.  [slist h l xs] says that the list
    with the head [l] has the nodes [xs]; the lemmas show that on such a list
    the operations return and are those of sequences.  A loop that follows
    [next] takes at most as many rounds as the heap has nodes. *)
From stdpp Require Import base list gmap fin_map_dom.
From Stdlib Require Import ZArith Lia.
From S2P Require Import Prelude.

Module Slist.

Section Slist.
Context {N : Type} `{Countable N}.

Abbreviation heap := (gmap N (option N)).
Implicit Types (h : heap) (l n x : N) (xs : list N).

Definition get_next (n : N) : M heap (option N) := h ← gets id; deref (h !! n).
Definition set_next (n : N) (v : option N) : M heap unit := get_next n;; modify (<[n := v]>).

Definition rt_slist_init (l : N) : M heap unit := modify (<[l := None]>).

(** [while (node->next) node = node->next;] *)
Fixpoint tail_loop (fuel : nat) (node : N) : M heap N :=
  match fuel with
  | O => fault
  | S fuel =>
      nx ← get_next node;
      match nx with None => mret node | Some n => tail_loop fuel n end
  end.

Definition rt_slist_tail (l : N) : M heap N :=
  h ← gets id; tail_loop (S (size h)) l.

Definition rt_slist_append (l n : N) : M heap unit :=
  node ← rt_slist_tail l;
  set_next node (Some n);;
  modify (<[n := None]>).

Definition rt_slist_insert (l n : N) : M heap unit :=
  nx ← get_next l;
  modify (<[n := nx]>);;
  set_next l (Some n).

Fixpoint len_loop (fuel : nat) (list : option N) (len : Z) : M heap Z :=
  match list with
  | None => mret len
  | Some n =>
      match fuel with
      | O => fault
      | S fuel => nx ← get_next n; len_loop fuel nx (u32 (len + 1))
      end
  end.

Definition rt_slist_len (l : N) : M heap Z :=
  h ← gets id; nx ← get_next l; len_loop (size h) nx 0.

(** [while (node->next && node->next != n) node = node->next;] *)
Fixpoint find_loop (fuel : nat) (n node : N) : M heap N :=
  match fuel with
  | O => fault
  | S fuel =>
      nx ← get_next node;
      match nx with
      | None => mret node
      | Some x => if decide (x = n) then mret node else find_loop fuel n x
      end
  end.

Definition rt_slist_remove (l n : N) : M heap N :=
  h ← gets id;
  node ← find_loop (S (size h)) n l;
  nx ← get_next node;
  match nx with
  | None => mret l
  | Some x => nn ← get_next x; set_next node nn;; mret l
  end.

Definition rt_slist_first (l : N) : M heap (option N) := get_next l.
Definition rt_slist_next (n : N) : M heap (option N) := get_next n.
Definition rt_slist_isempty (l : N) : M heap bool :=
  nx ← get_next l; mret (bool_decide (nx = None)).

(** ** Lists *)

(** Following [next] from [p] visits [xs] and ends. *)
Fixpoint chain h (p : N) (xs : list N) : Prop :=
  match xs with
  | [] => h !! p = Some None
  | x :: xs => h !! p = Some (Some x) /\ chain h x xs
  end.

Definition slist h l xs : Prop := NoDup (l :: xs) /\ chain h l xs.

Definition last_of (p : N) (xs : list N) : N := default p (last xs).

Lemma chain_next h p xs : chain h p xs -> h !! p = Some (head xs).
Proof. destruct xs; simpl; [done|by intros []]. Qed.

Lemma chain_dom h p xs x : chain h p xs -> x ∈ p :: xs -> is_Some (h !! x).
Proof.
  revert p. induction xs as [|y xs IH]; intros p Hc Hx; simpl in Hc.
  - apply list_elem_of_singleton in Hx as ->. by eexists.
  - destruct Hc as [Hp Hc]. apply elem_of_cons in Hx as [->|Hx]; [by eexists|by eapply IH].
Qed.

Lemma slist_size h l xs : slist h l xs -> (length xs < size h)%nat.
Proof.
  intros [Hnd Hc]. rewrite <- (size_dom h).
  assert (list_to_set (l :: xs) ⊆ dom h) as Hs.
  { intros x Hx%elem_of_list_to_set. apply elem_of_dom. by eapply chain_dom. }
  apply subseteq_size in Hs. rewrite size_list_to_set in Hs by done. simpl in Hs. lia.
Qed.

Lemma schain_frame h h' p xs :
  chain h p xs -> (forall x, x ∈ p :: xs -> h' !! x = h !! x) -> chain h' p xs.
Proof.
  revert p. induction xs as [|y xs IH]; intros p Hc Hf; simpl in *.
  - rewrite Hf; [done|set_solver].
  - destruct Hc as [Hp Hc]. split; [rewrite Hf; [done|set_solver]|]. apply IH; [done|]. intros x Hx. apply Hf. set_solver.
Qed.

Lemma wp_get_next n v h (Q : option N -> heap -> Prop) : h !! n = Some v -> Q v h -> wp (get_next n) h Q.
Proof. intros E HQ. unfold get_next. wp_steps. by eapply wp_deref. Qed.
Lemma wp_sset_next n v h (Q : unit -> heap -> Prop) : is_Some (h !! n) -> Q tt (<[n := v]> h) -> wp (set_next n v) h Q.
Proof. intros [w E] HQ. unfold set_next. wp_step. eapply wp_get_next; [done|]. by wp_steps. Qed.

Lemma last_of_in p xs : last_of p xs ∈ p :: xs.
Proof. unfold last_of. destruct (last xs) as [x|] eqn:E; simpl; [|set_solver]. apply last_Some_elem_of in E. set_solver. Qed.

Lemma last_of_cons p x xs : last_of p (x :: xs) = last_of x xs.
Proof. unfold last_of. rewrite last_cons. by destruct (last xs). Qed.

Lemma tail_loop_wp fuel p xs h (Q : N -> heap -> Prop) :
  chain h p xs -> (length xs < fuel)%nat -> Q (last_of p xs) h -> wp (tail_loop fuel p) h Q.
Proof.
  revert p fuel. induction xs as [|x xs IH]; intros p [|fuel] Hc Hf HQ; simpl in *; try lia.
  - wp_step. eapply wp_get_next; [done|]. by wp_steps.
  - destruct Hc as [Hp Hc]. wp_step. eapply wp_get_next; [done|]. apply IH; [done|lia|]. by rewrite <- last_of_cons with (p := p).
Qed.

Lemma wp_slist_tail l xs h (Q : N -> heap -> Prop) :
  slist h l xs -> Q (last_of l xs) h -> wp (rt_slist_tail l) h Q.
Proof.
  intros Hs HQ. pose proof (slist_size _ _ _ Hs). unfold rt_slist_tail. wp_steps.
  eapply tail_loop_wp; [apply Hs|simpl; lia|done].
Qed.

(** Appending cuts nothing off. *)
Lemma chain_append h p xs n :
  chain h p xs -> NoDup (p :: xs ++ [n]) ->
  chain (<[n := None]> (<[last_of p xs := Some n]> h)) p (xs ++ [n]).
Proof.
  revert p. induction xs as [|x xs IH]; intros p Hc Hnd.
  - simpl in *. unfold last_of. simpl. apply NoDup_cons in Hnd as [Hnd _].
    rewrite lookup_insert_ne by set_solver. rewrite !lookup_insert_eq. done.
  - destruct Hc as [Hp Hc]. apply NoDup_cons in Hnd as [Hn Hnd]. rewrite last_of_cons.
    cbn [app chain]. split; [|by apply IH]. pose proof (last_of_in x xs) as Hl.
    rewrite !lookup_insert_ne; [done|..]; intros <-; apply Hn; set_solver.
Qed.

Lemma wp_slist_append l n xs h (Q : unit -> heap -> Prop) :
  slist h l xs -> n ∉ l :: xs ->
  (forall h', slist h' l (xs ++ [n]) ->
     (forall x, x ∉ l :: xs -> x <> n -> h' !! x = h !! x) -> Q tt h') ->
  wp (rt_slist_append l n) h Q.
Proof.
  intros Hs Hn HQ. unfold rt_slist_append. wp_step. eapply wp_slist_tail; [done|].
  destruct Hs as [Hnd Hc]. pose proof (last_of_in l xs) as Hl.
  wp_step. apply wp_sset_next; [by eapply chain_dom|]. wp_step.
  assert (NoDup (l :: xs ++ [n])) as Hnd'.
  { rewrite app_comm_cons, NoDup_app. split_and!; [done| |apply NoDup_singleton].
    intros x Hx ->%list_elem_of_singleton. done. }
  apply HQ.
  - split; [done|]. by apply chain_append.
  - intros x Hx Hxn. rewrite !lookup_insert_ne; [done| |done]. intros <-. by apply Hx.
Qed.

Lemma len_loop_wp fuel p xs len h (Q : Z -> heap -> Prop) :
  chain h p xs -> (length xs <= fuel)%nat -> 0 <= len -> len + Z.of_nat (length xs) < 2 ^ 32 ->
  Q (len + Z.of_nat (length xs)) h -> wp (len_loop fuel (head xs) len) h Q.
Proof.
  revert p fuel len. induction xs as [|x xs IH]; intros p fuel len Hc Hf H0 Hb HQ; simpl in *.
  - destruct fuel; simpl; wp_step; by rewrite Z.add_0_r in HQ.
  - destruct fuel as [|fuel]; [lia|]. destruct Hc as [_ Hc]. simpl. wp_step.
    eapply wp_get_next; [by apply (chain_next _ _ xs)|]. rewrite uwrap_small by c_lia.
    eapply IH; [done|lia|lia|lia|]. by replace (len + 1 + Z.of_nat (length xs)) with (len + Z.of_nat (S (length xs))) by lia.
Qed.

Lemma wp_slist_len l xs h (Q : Z -> heap -> Prop) :
  slist h l xs -> Z.of_nat (length xs) < 2 ^ 32 -> Q (Z.of_nat (length xs)) h -> wp (rt_slist_len l) h Q.
Proof.
  intros Hs Hb HQ. pose proof (slist_size _ _ _ Hs). destruct Hs as [_ Hc]. unfold rt_slist_len. wp_steps.
  eapply wp_get_next; [by apply chain_next|]. eapply len_loop_wp; [done|simpl; lia|lia|lia|done].
Qed.

(** The node in front of [n], or the last one. *)
Fixpoint before (n p : N) (xs : list N) : N :=
  match xs with [] => p | x :: xs => if decide (x = n) then p else before n x xs end.

Lemma find_loop_wp fuel n p xs h (Q : N -> heap -> Prop) :
  chain h p xs -> (length xs < fuel)%nat -> Q (before n p xs) h -> wp (find_loop fuel n p) h Q.
Proof.
  revert p fuel. induction xs as [|x xs IH]; intros p [|fuel] Hc Hf HQ; simpl in *; try lia.
  - wp_step. eapply wp_get_next; [done|]. by wp_steps.
  - destruct Hc as [Hp Hc]. wp_step. eapply wp_get_next; [done|]. simpl. case_decide; [by wp_steps|].
    apply IH; [done|lia|done].
Qed.

(** The chain without [n], whose own [next] stays. *)
Lemma chain_remove h n p xs (Q : N -> heap -> Prop) l :
  chain h p xs -> NoDup (p :: xs) -> n <> p ->
  (forall h', chain h' p (filter (fun x => x <> n) xs) ->
     (forall x, x ∉ p :: xs \/ x = n -> h' !! x = h !! x) -> Q l h') ->
  wp (nx ← get_next (before n p xs);
      match nx with
      | None => mret l
      | Some x => nn ← get_next x; set_next (before n p xs) nn;; mret l
      end) h Q.
Proof.
  revert p Q. induction xs as [|x xs IH]; intros p Q Hc Hnd Hnp HQ.
  - simpl in *. wp_step. eapply wp_get_next; [done|]. cbv iota. wp_step. by apply HQ.
  - destruct Hc as [Hp Hc]. apply NoDup_cons in Hnd as [Hpx Hnd]. simpl. case_decide as Hd.
    + subst x. wp_step. eapply wp_get_next; [done|]. cbv iota. wp_step. eapply wp_get_next; [by apply chain_next|].
      wp_step. apply wp_sset_next; [by eexists|]. wp_step. apply NoDup_cons in Hnd as [Hnx Hnd].
      apply HQ.
      * rewrite filter_cons_False by tauto. rewrite filter_ne_id by done.
        destruct xs as [|y xs]; simpl in *; [apply lookup_insert_eq|]. destruct Hc as [_ Hc].
        split; [apply lookup_insert_eq|]. eapply schain_frame; [done|]. intros z Hz. apply lookup_insert_ne. set_solver.
      * intros z Hz. apply lookup_insert_ne. set_solver.
    + apply IH; [done|done|done|]. intros h' Hc' Hf'. apply HQ; [|intros z Hz; apply Hf'; set_solver].
      rewrite filter_cons_True by done. simpl. split; [|done]. rewrite Hf' by (left; set_solver). done.
Qed.

Lemma wp_slist_remove l n xs h (Q : N -> heap -> Prop) :
  slist h l xs -> n <> l ->
  (forall h', slist h' l (filter (fun x => x <> n) xs) ->
     (forall x, x ∉ l :: xs \/ x = n -> h' !! x = h !! x) -> Q l h') ->
  wp (rt_slist_remove l n) h Q.
Proof.
  intros Hs Hn HQ. pose proof (slist_size _ _ _ Hs). destruct Hs as [Hnd Hc]. unfold rt_slist_remove. wp_steps.
  eapply find_loop_wp; [done|simpl; lia|]. apply chain_remove; [done|done|done|]. intros h' Hc' Hf. apply HQ; [|done].
  split; [|done]. apply NoDup_cons in Hnd as [Hl Hnd]. constructor; [|by apply NoDup_filter].
  intros Hin. apply list_elem_of_filter in Hin as [_ ?]. done.
Qed.

Lemma wp_slist_insert l n xs h (Q : unit -> heap -> Prop) :
  slist h l xs -> n ∉ l :: xs ->
  (forall h', slist h' l (n :: xs) -> (forall x, x <> l -> x <> n -> h' !! x = h !! x) -> Q tt h') ->
  wp (rt_slist_insert l n) h Q.
Proof.
  intros [Hnd Hc] Hn HQ. unfold rt_slist_insert. wp_step. eapply wp_get_next; [by apply chain_next|]. wp_step.
  pose proof (chain_next _ _ _ Hc) as Hh. apply wp_sset_next; [rewrite lookup_insert_ne by set_solver; by eexists|].
  apply HQ.
  - apply NoDup_cons in Hnd as [Hl Hnd]. split; [constructor; [set_solver|constructor; [set_solver|done]]|].
    simpl. split; [apply lookup_insert_eq|]. destruct xs as [|x xs]; simpl in *.
    + rewrite lookup_insert_ne, lookup_insert_eq by set_solver. done.
    + destruct Hc as [_ Hc]. rewrite lookup_insert_ne, lookup_insert_eq by set_solver. split; [done|].
      eapply schain_frame; [done|]. intros y Hy. rewrite !lookup_insert_ne; [done|set_solver..].
  - intros x Hx Hxn. by rewrite !lookup_insert_ne.
Qed.

Lemma wp_slist_first l xs h (Q : option N -> heap -> Prop) :
  slist h l xs -> Q (head xs) h -> wp (rt_slist_first l) h Q.
Proof. intros [_ Hc] HQ. eapply wp_get_next; [by apply chain_next|done]. Qed.

Lemma wp_slist_isempty l xs h (Q : bool -> heap -> Prop) :
  slist h l xs -> Q (bool_decide (xs = [])) h -> wp (rt_slist_isempty l) h Q.
Proof.
  intros [_ Hc] HQ. unfold rt_slist_isempty. wp_step. eapply wp_get_next; [by apply chain_next|]. wp_step.
  by destruct xs; simpl in *.
Qed.

Lemma slist_init l h : slist (<[l := None]> h) l [].
Proof. split; [apply NoDup_singleton|]. simpl. apply lookup_insert_eq. Qed.

(** The nodes of a list, for statements. *)
Fixpoint walk (fuel : nat) h (p : N) : list N :=
  match fuel, h !! p with
  | S fuel, Some (Some x) => x :: walk fuel h x
  | _, _ => []
  end.
Definition nodes_of h (l : N) : list N := walk (size h) h l.

Lemma walk_chain fuel h p xs : chain h p xs -> (length xs <= fuel)%nat -> walk fuel h p = xs.
Proof.
  revert p fuel. induction xs as [|x xs IH]; intros p [|fuel] Hc Hf; simpl in *; try done; try lia.
  - by rewrite Hc.
  - destruct Hc as [-> Hc]. f_equal. apply IH; [done|lia].
Qed.

Lemma nodes_of_slist h l xs : slist h l xs -> nodes_of h l = xs.
Proof. intros Hs. pose proof (slist_size _ _ _ Hs). apply walk_chain; [apply Hs|lia]. Qed.

End Slist.
End Slist.
