(* ===== verification/RingBuffer.v ===== *)
(** * The byte ring buffer of the device-driver layer

    Model of [rt-thread/components/drivers/src/ringbuffer.c] and of
    [struct rt_ringbuffer] in [ipc/ringbuffer.h]: the buffer every serial
    driver of the board receives into.  Bit-fields keep their width
    (15-bit indices, 1-bit mirrors); every [memcpy] is bounds-checked, so a
    [Some _] result also says that the operation stays inside the pool.

    The abstract specification is a bounded byte queue: [contents] is the
    abstraction function and the theorems show that each operation refines
    the queue operation it stands for. *)
From stdpp Require Import base list gmap.
From Stdlib Require Import ZArith Lia.
From S2P Require Import Prelude.

Module Ring.

Record rt_ringbuffer := mk_rb {
  buffer_ptr : list Z;
  read_mirror : bool;     (* rt_uint16_t : 1 *)
  read_index : Z;         (* rt_uint16_t : 15 *)
  write_mirror : bool;
  write_index : Z;
  buffer_size : Z         (* rt_int16_t *)
}.

Inductive rt_ringbuffer_state :=
| RT_RINGBUFFER_EMPTY
| RT_RINGBUFFER_FULL
| RT_RINGBUFFER_HALFFULL.

#[export] Instance rt_ringbuffer_state_eq_dec : EqDecision rt_ringbuffer_state.
Proof. solve_decision. Defined.

Definition RT_ALIGN_SIZE : Z := 4.

Definition RT_ALIGN_DOWN (size align : Z) : Z :=
  Z.land size (Z.lnot (align - 1)).

Definition rt_ringbuffer_status (rb : rt_ringbuffer) : rt_ringbuffer_state :=
  if read_index rb =? write_index rb then
    if eqb (read_mirror rb) (write_mirror rb)
    then RT_RINGBUFFER_EMPTY else RT_RINGBUFFER_FULL
  else RT_RINGBUFFER_HALFFULL.

Definition rt_ringbuffer_init (pool : list Z) (size : Z) : rt_ringbuffer :=
  {| buffer_ptr := pool;
     read_mirror := false; read_index := 0;
     write_mirror := false; write_index := 0;
     buffer_size := s16 (RT_ALIGN_DOWN size RT_ALIGN_SIZE) |}.

Definition rt_ringbuffer_data_len (rb : rt_ringbuffer) : Z :=
  match rt_ringbuffer_status rb with
  | RT_RINGBUFFER_EMPTY => 0
  | RT_RINGBUFFER_FULL => u32 (buffer_size rb)
  | RT_RINGBUFFER_HALFFULL =>
      if read_index rb <? write_index rb
      then u32 (write_index rb - read_index rb)
      else u32 (buffer_size rb - (read_index rb - write_index rb))
  end.

(** The macro [rt_ringbuffer_space_len]: [int16 - rt_size_t], in [rt_size_t]. *)
Definition rt_ringbuffer_space_len (rb : rt_ringbuffer) : Z :=
  u32 (buffer_size rb - rt_ringbuffer_data_len rb).

Definition rt_ringbuffer_get_size (rb : rt_ringbuffer) : Z :=
  u16 (buffer_size rb).

Definition rt_ringbuffer_put (rb : rt_ringbuffer) (ptr : list Z) (length : Z)
  : option (rt_ringbuffer * Z) :=
  let size := u16 (rt_ringbuffer_space_len rb) in
  if size =? 0 then Some (rb, 0) else
  let length := if size <? length then size else length in
  if length <? buffer_size rb - write_index rb then
    b ← memcpy (buffer_ptr rb) (write_index rb) ptr 0 length;
    Some (mk_rb b (read_mirror rb) (read_index rb) (write_mirror rb)
                (u15 (write_index rb + length)) (buffer_size rb), length)
  else
    let room := buffer_size rb - write_index rb in
    b1 ← memcpy (buffer_ptr rb) (write_index rb) ptr 0 room;
    b2 ← memcpy b1 0 ptr room (length - room);
    Some (mk_rb b2 (read_mirror rb) (read_index rb) (negb (write_mirror rb))
                (u15 (length - room)) (buffer_size rb), length).

Definition rt_ringbuffer_put_force (rb : rt_ringbuffer) (ptr : list Z) (length : Z)
  : option (rt_ringbuffer * Z) :=
  let space_length := u16 (rt_ringbuffer_space_len rb) in
  (* ptr is advanced and length cut down to the last buffer_size bytes *)
  let base := if buffer_size rb <? length then length - buffer_size rb else 0 in
  let length := if buffer_size rb <? length then u16 (buffer_size rb) else length in
  if length <? buffer_size rb - write_index rb then
    b ← memcpy (buffer_ptr rb) (write_index rb) ptr base length;
    let wi := u15 (write_index rb + length) in
    let ri := if space_length <? length then wi else read_index rb in
    Some (mk_rb b (read_mirror rb) ri (write_mirror rb) wi (buffer_size rb), length)
  else
    let room := buffer_size rb - write_index rb in
    b1 ← memcpy (buffer_ptr rb) (write_index rb) ptr base room;
    b2 ← memcpy b1 0 ptr (base + room) (length - room);
    let wi := u15 (length - room) in
    if space_length <? length then
      Some (mk_rb b2 (negb (read_mirror rb)) wi (negb (write_mirror rb)) wi
                  (buffer_size rb), length)
    else
      Some (mk_rb b2 (read_mirror rb) (read_index rb) (negb (write_mirror rb)) wi
                  (buffer_size rb), length).

(** [rt_ringbuffer_get] fills the caller's buffer [ptr]; the model returns
    the bytes stored there (one list for the two [memcpy] calls). *)
Definition rt_ringbuffer_get (rb : rt_ringbuffer) (length : Z)
  : option (rt_ringbuffer * list Z * Z) :=
  let size := rt_ringbuffer_data_len rb in
  if size =? 0 then Some (rb, [], 0) else
  let length := if size <? length then u16 size else length in
  if length <? buffer_size rb - read_index rb then
    x ← buf_read (buffer_ptr rb) (read_index rb) length;
    Some (mk_rb (buffer_ptr rb) (read_mirror rb) (u15 (read_index rb + length))
                (write_mirror rb) (write_index rb) (buffer_size rb), x, length)
  else
    let room := buffer_size rb - read_index rb in
    x ← buf_read (buffer_ptr rb) (read_index rb) room;
    y ← buf_read (buffer_ptr rb) 0 (length - room);
    Some (mk_rb (buffer_ptr rb) (negb (read_mirror rb)) (u15 (length - room))
                (write_mirror rb) (write_index rb) (buffer_size rb), x ++ y, length).

(** [rt_ringbuffer_peak] hands out a pointer into the pool: the offset of
    [*ptr], or [None] for [RT_NULL]. *)
Definition rt_ringbuffer_peak (rb : rt_ringbuffer)
  : rt_ringbuffer * option Z * Z :=
  let size := rt_ringbuffer_data_len rb in
  if size =? 0 then (rb, None, 0) else
  if size <? buffer_size rb - read_index rb then
    (mk_rb (buffer_ptr rb) (read_mirror rb) (u15 (read_index rb + size))
           (write_mirror rb) (write_index rb) (buffer_size rb),
     Some (read_index rb), size)
  else
    (mk_rb (buffer_ptr rb) (negb (read_mirror rb)) 0
           (write_mirror rb) (write_index rb) (buffer_size rb),
     Some (read_index rb), buffer_size rb - read_index rb).

Definition rt_ringbuffer_putchar (rb : rt_ringbuffer) (ch : Z)
  : option (rt_ringbuffer * Z) :=
  if rt_ringbuffer_space_len rb =? 0 then Some (rb, 0) else
  b ← wr (buffer_ptr rb) (write_index rb) ch;
  if write_index rb =? buffer_size rb - 1 then
    Some (mk_rb b (read_mirror rb) (read_index rb) (negb (write_mirror rb)) 0
                (buffer_size rb), 1)
  else
    Some (mk_rb b (read_mirror rb) (read_index rb) (write_mirror rb)
                (u15 (write_index rb + 1)) (buffer_size rb), 1).

Definition rt_ringbuffer_putchar_force (rb : rt_ringbuffer) (ch : Z)
  : option (rt_ringbuffer * Z) :=
  let full := bool_decide (rt_ringbuffer_status rb = RT_RINGBUFFER_FULL) in
  b ← wr (buffer_ptr rb) (write_index rb) ch;
  if write_index rb =? buffer_size rb - 1 then
    Some (mk_rb b (if full then negb (read_mirror rb) else read_mirror rb)
                (if full then 0 else read_index rb)
                (negb (write_mirror rb)) 0 (buffer_size rb), 1)
  else
    let wi := u15 (write_index rb + 1) in
    Some (mk_rb b (read_mirror rb) (if full then wi else read_index rb)
                (write_mirror rb) wi (buffer_size rb), 1).

Definition rt_ringbuffer_getchar (rb : rt_ringbuffer)
  : option (rt_ringbuffer * option Z * Z) :=
  if rt_ringbuffer_data_len rb =? 0 then Some (rb, None, 0) else
  c ← rd (buffer_ptr rb) (read_index rb);
  if read_index rb =? buffer_size rb - 1 then
    Some (mk_rb (buffer_ptr rb) (negb (read_mirror rb)) 0
                (write_mirror rb) (write_index rb) (buffer_size rb), Some c, 1)
  else
    Some (mk_rb (buffer_ptr rb) (read_mirror rb) (u15 (read_index rb + 1))
                (write_mirror rb) (write_index rb) (buffer_size rb), Some c, 1).

Definition rt_ringbuffer_reset (rb : rt_ringbuffer) : rt_ringbuffer :=
  mk_rb (buffer_ptr rb) false 0 false 0 (buffer_size rb).

(** ** Abstract queue and representation invariant *)

(** The bytes waiting in the buffer, oldest first. *)
Definition contents (rb : rt_ringbuffer) : list Z :=
  let b := take (Z.to_nat (buffer_size rb)) (buffer_ptr rb) in
  let r := Z.to_nat (read_index rb) in
  let w := Z.to_nat (write_index rb) in
  if eqb (read_mirror rb) (write_mirror rb)
  then drop r (take w b)
  else drop r b ++ take w b.

(** Same mirror: the data lie between the indices.  Other mirror: the writer
    is behind the reader. *)
Record wf (rb : rt_ringbuffer) : Prop := {
  wf_size : 0 < buffer_size rb < 32768;
  wf_pool : buffer_size rb <= Z.of_nat (length (buffer_ptr rb));
  wf_ri : 0 <= read_index rb < buffer_size rb;
  wf_wi : 0 <= write_index rb < buffer_size rb;
  wf_same : read_mirror rb = write_mirror rb -> read_index rb <= write_index rb;
  wf_other : read_mirror rb <> write_mirror rb -> write_index rb <= read_index rb
}.

(** ** Lengths *)

Section Lengths.
Context (rb : rt_ringbuffer) (Hwf : wf rb).

(** The number of stored bytes computed by the code is the length of the
    abstract queue. *)
Lemma data_len_contents :
  rt_ringbuffer_data_len rb = Z.of_nat (length (contents rb)).
Proof using Hwf.
  destruct rb as [b rm ri wm wi s], Hwf as [Hs Hp Hr Hw He Ho].
  unfold rt_ringbuffer_data_len, rt_ringbuffer_status, contents in *; simpl in *.
  destruct (Z.eqb_spec ri wi) as [<-|Hne]; destruct rm, wm; simpl;
    try specialize (He eq_refl); try specialize (Ho ltac:(discriminate));
    list_lengths; try lia; bool_cases; nowrap; lia.
Qed.

Lemma data_len_bound : 0 <= rt_ringbuffer_data_len rb <= buffer_size rb.
Proof using Hwf.
  rewrite data_len_contents.
  destruct rb as [b rm ri wm wi s], Hwf as [Hs Hp Hr Hw He Ho].
  unfold contents in *; simpl in *.
  destruct rm, wm; simpl; try specialize (He eq_refl);
    try specialize (Ho ltac:(discriminate)); list_lengths; lia.
Qed.

Lemma space_len_eq :
  rt_ringbuffer_space_len rb = buffer_size rb - Z.of_nat (length (contents rb)).
Proof using Hwf.
  unfold rt_ringbuffer_space_len. pose proof data_len_bound as Hb.
  rewrite <- data_len_contents. destruct Hwf. nowrap. done.
Qed.

End Lengths.

(** ** The ring as a list of exactly [buffer_size] cells *)

Section Segments.
Context (R : list Z) (r w : nat) (x : list Z).

Lemma seg_same_put :
  (r <= w)%nat -> (w + length x <= length R)%nat ->
  drop r (take (w + length x) (splice R w x)) = drop r (take w R) ++ x.
Proof. intros. list_ext_lia. Qed.

Lemma seg_other_put :
  (w + length x <= r)%nat -> (r <= length R)%nat ->
  drop r (splice R w x) ++ take (w + length x) (splice R w x)
  = (drop r R ++ take w R) ++ x.
Proof. intros. list_ext_lia. Qed.

Lemma seg_wrap_put y :
  (r <= w)%nat -> (w + length x = length R)%nat -> (length y <= r)%nat ->
  drop r (splice (splice R w x) 0 y) ++ take (length y) (splice (splice R w x) 0 y)
  = drop r (take w R) ++ x ++ y.
Proof. intros. list_ext_lia. Qed.

Lemma seg_full_nowrap :
  (w <= r)%nat -> (r < w + length x)%nat -> (w + length x <= length R)%nat ->
  drop (w + length x) (splice R w x) ++ take (w + length x) (splice R w x)
  = drop (w + length x - r) ((drop r R ++ take w R) ++ x).
Proof. intros. list_ext_lia. Qed.

Lemma seg_full_wrap y :
  (w <= r)%nat -> (w + length x = length R)%nat -> (r < length R)%nat ->
  (length y <= w)%nat ->
  drop (length y) (splice (splice R w x) 0 y)
    ++ take (length y) (splice (splice R w x) 0 y)
  = drop (length R - r + length y) ((drop r R ++ take w R) ++ x ++ y).
Proof. intros. list_ext_lia. Qed.

Lemma seg_wrap_char c :
  (r <= w)%nat -> (w + 1 = length R)%nat ->
  drop r (splice R w [c]) ++ take 0 (splice R w [c]) = drop r (take w R) ++ [c].
Proof.
  intros. rewrite take_0, app_nil_r. unfold splice.
  rewrite (drop_ge R) by (simpl; lia). rewrite app_nil_r.
  rewrite drop_app_le; [done|]. rewrite length_take; lia.
Qed.

Lemma seg_full_char c :
  (w + 1 = length R)%nat ->
  drop 0 (splice R w [c]) ++ take 0 (splice R w [c])
  = drop 1 ((drop w R ++ take w R) ++ [c]).
Proof.
  intros. rewrite drop_0, take_0, app_nil_r. unfold splice.
  rewrite (drop_ge R (w + _)) by (simpl; lia). rewrite app_nil_r, <- app_assoc.
  rewrite drop_app_ge by (rewrite length_drop; lia).
  rewrite length_drop. replace (1 - (length R - w))%nat with 0%nat by lia. done.
Qed.

Lemma get_same m : (r + m <= w)%nat -> take m (drop r (take w R)) = take m (drop r R).
Proof. intros. list_ext_lia. Qed.

Lemma drop_same m : drop (r + m) (take w R) = drop m (drop r (take w R)).
Proof. by rewrite drop_drop. Qed.

Lemma get_other m :
  (r + m <= length R)%nat -> take m (drop r R ++ take w R) = take m (drop r R).
Proof. intros. rewrite take_app_le; [done|]. rewrite length_drop; lia. Qed.

Lemma drop_other m :
  (r + m <= length R)%nat ->
  drop (r + m) R ++ take w R = drop m (drop r R ++ take w R).
Proof. intros. rewrite drop_app_le, drop_drop; [done|]. rewrite length_drop; lia. Qed.

Lemma get_wrap m :
  (r <= length R)%nat -> (length R - r <= m <= length R - r + w)%nat ->
  (w <= length R)%nat ->
  take m (drop r R ++ take w R)
  = take (length R - r) (drop r R) ++ take (m - (length R - r)) R.
Proof. intros. list_ext_lia. Qed.

Lemma drop_wrap m :
  (r <= length R)%nat -> (length R - r <= m)%nat ->
  drop (m - (length R - r)) (take w R) = drop m (drop r R ++ take w R).
Proof. intros. list_ext_lia. Qed.

Lemma seg_replace y :
  (w + length x = length R)%nat -> length y = w ->
  drop w (splice (splice R w x) 0 y) ++ take w (splice (splice R w x) 0 y) = x ++ y.
Proof. intros. list_ext_lia. Qed.

End Segments.

(** A ring buffer's operation leaves a buffer that is again well-formed,
    keeps its capacity and holds the bytes [q]. *)
Definition holds (rb : rt_ringbuffer) (size : Z) (q : list Z) : Prop :=
  wf rb /\ buffer_size rb = size /\ contents rb = q.

Lemma wr_splice b i c :
  0 <= i < Z.of_nat (length b) -> wr b i c = Some (splice b (Z.to_nat i) [c]).
Proof.
  intros. rewrite wr_Some by done. f_equal. apply list_eq; intros j.
  rewrite lookup_insert_decide, lookup_splice by (simpl; lia). simpl.
  repeat case_decide; try lia; [|done]. by replace (j - Z.to_nat i)%nat with 0%nat by lia.
Qed.

(** A read inside the ring sees only its first [s] cells. *)
Lemma buf_read_ring b (s : nat) off n :
  0 <= off -> 0 <= n -> off + n <= Z.of_nat s -> (s <= length b)%nat ->
  buf_read b off n = Some (take (Z.to_nat n) (drop (Z.to_nat off) (take s b))).
Proof. intros. rewrite buf_read_Some by lia. f_equal. list_ext_lia. Qed.

Lemma to_nat_succ n : Z.to_nat (Z.of_nat n + 1) = (n + 1)%nat.
Proof. lia. Qed.

(** Replace a non-negative [Z] variable by the natural number it is. *)
Ltac as_nat z :=
  let n := fresh "n" z in
  destruct (Z_of_nat_complete z ltac:(lia)) as [n ->]; rename n into z.

(** Open a well-formed buffer: name its fields and split on the mirrors. *)
Ltac open_rb Hwf :=
  match type of Hwf with
  | wf ?rb =>
      destruct rb as [b rm r wm w s]; destruct Hwf as [Hs Hp Hr Hw He Ho];
      unfold contents, holds in *; simpl in *;
      as_nat r; as_nat w; as_nat s;
      rewrite ?Nat2Z.id in *;
      destruct rm, wm; simpl in *;
      try specialize (He eq_refl); try specialize (Ho ltac:(discriminate));
      list_lengths;
      assert (length (take s b) = s) by (rewrite length_take; lia)
  end.

(** The invariant and the contents of a concrete buffer. *)
Ltac close_rb s :=
  split; [|split; [lia || done|]];
  [ constructor; simpl; intros;
    rewrite ?length_splice by (rewrite ?length_splice by lia; simpl; lia);
    rewrite ?uwrap_small by c_lia; first [lia | congruence]
  | rewrite ?uwrap_small by c_lia; unfold contents; simpl;
    rewrite ?to_nat_succ, <- ?Nat2Z.inj_add, ?Nat2Z.id;
    rewrite ?(take_splice _ _ _ s)
      by (rewrite ?length_splice by (simpl; lia); simpl; lia) ].

(** The pair of [memcpy] calls that wraps around the end of the pool. *)
Lemma memcpy_wrap b ptr (base w room m : nat) :
  (room <= m)%nat -> (base + m <= length ptr)%nat -> (w + room <= length b)%nat ->
  (m - room <= length b)%nat ->
  exists x y b1,
    memcpy b (Z.of_nat w) ptr (Z.of_nat base) (Z.of_nat room) = Some b1 /\
    memcpy b1 0 ptr (Z.of_nat base + Z.of_nat room) (Z.of_nat m - Z.of_nat room)
      = Some (splice (splice b w x) 0 y) /\
    take m (drop base ptr) = x ++ y /\ length x = room /\ length y = (m - room)%nat.
Proof.
  intros. exists (take room (drop base ptr)), (take (m - room) (drop (base + room) ptr)).
  eexists. rewrite memcpy_Some by lia. split; [done|].
  rewrite !Nat2Z.id, memcpy_Some by (rewrite ?length_splice; list_lengths; lia).
  replace (Z.to_nat (Z.of_nat base + Z.of_nat room)) with (base + room)%nat by lia.
  replace (Z.to_nat (Z.of_nat m - Z.of_nat room)) with (m - room)%nat by lia.
  split; [done|]. split; [list_ext_lia|]. list_lengths; lia.
Qed.

Section Refinement.
Context (rb : rt_ringbuffer) (Hwf : wf rb).

Lemma contents_length : Z.of_nat (length (contents rb)) <= buffer_size rb.
Proof using Hwf. rewrite <- data_len_contents by done. by apply data_len_bound. Qed.

Lemma put_refines ptr n :
  0 <= n <= Z.of_nat (length ptr) -> n < 65536 ->
  let m := Z.min n (buffer_size rb - Z.of_nat (length (contents rb))) in
  exists rb', rt_ringbuffer_put rb ptr n = Some (rb', m) /\
    holds rb' (buffer_size rb) (contents rb ++ take (Z.to_nat m) ptr).
Proof using Hwf.
  intros Hn Hn16 m. unfold rt_ringbuffer_put. rewrite space_len_eq by done.
  pose proof contents_length as Hb.
  rewrite (uwrap_small 16) by (destruct Hwf; c_lia).
  set (sp := buffer_size rb - Z.of_nat (length (contents rb))) in *.
  destruct (Z.eqb_spec sp 0) as [E|E].
  { exists rb. subst m. rewrite E, Z.min_r by lia. unfold holds. simpl.
    rewrite app_nil_r. done. }
  assert ((if sp <? n then sp else n) = m) as -> by (subst m; bool_cases; lia).
  assert (0 <= m <= sp /\ m <= n) as Hm by lia. clearbody m.
  as_nat m. rewrite Nat2Z.id. subst sp.
  destruct (Z.ltb_spec (Z.of_nat m) (buffer_size rb - write_index rb)) as [Hnw|Hw'].
  - rewrite memcpy_Some by (destruct Hwf; lia). simpl. rewrite drop_0, Nat2Z.id.
    eexists; split; [done|].
    assert (length (take m ptr) = m) as Hx by (rewrite length_take; lia).
    revert Hx. generalize (take m ptr). intros x Hx.
    open_rb Hwf; close_rb s; rewrite <- Hx;
      first [apply seg_same_put; lia | apply seg_other_put; lia].
  - open_rb Hwf; try lia.
    all: destruct (memcpy_wrap b ptr 0 w (s - w) m)
      as (x & y & b1 & E1 & E2 & Exy & Hx & Hy); try lia.
    all: rewrite Nat2Z.inj_sub in E1, E2 by lia.
    all: change (Z.of_nat 0) with 0 in E1, E2; rewrite Z.add_0_l in E2.
    all: rewrite E1; simpl; rewrite E2; simpl; rewrite drop_0 in Exy; rewrite Exy.
    all: eexists; split; [done|].
    all: close_rb s; rewrite ?Hx, ?Hy; [].
    all: replace (Z.to_nat (Z.of_nat m - (Z.of_nat s - Z.of_nat w)))
           with (length y) by lia.
    all: apply seg_wrap_put; lia.
Qed.

(** Compare with the queue [drop k _] of the specification. *)
Ltac force_case r :=
  match goal with
  | |- _ = drop ?k _ => replace k with 0%nat by lia; rewrite drop_0
  | _ => idtac
  end;
  first [ apply seg_same_put; simpl; lia | apply seg_other_put; simpl; lia
        | apply seg_wrap_put; lia
        | etrans; [apply (seg_full_nowrap _ r); simpl; lia|]; f_equal; lia
        | etrans; [apply (seg_full_wrap _ r); lia|]; f_equal; lia ].

Lemma put_force_fits ptr (n : nat) :
  (n <= length ptr)%nat -> Z.of_nat n <= buffer_size rb ->
  let d := contents rb ++ take n ptr in
  (read_mirror rb <> write_mirror rb \/ Z.of_nat (length d) <= buffer_size rb) ->
  exists rb', rt_ringbuffer_put_force rb ptr (Z.of_nat n) = Some (rb', Z.of_nat n) /\
    holds rb' (buffer_size rb) (drop (length d - Z.to_nat (buffer_size rb)) d).
Proof using Hwf.
  intros Hn Hfit d Hok. unfold rt_ringbuffer_put_force.
  rewrite space_len_eq by done. pose proof contents_length as Hb. cbv zeta.
  rewrite !(uwrap_small 16) by (destruct Hwf; c_lia).
  rewrite (proj2 (Z.ltb_ge (buffer_size rb) _)) by done.
  assert (length (take n ptr) = n) as Hx by (rewrite length_take; lia).
  destruct (Z.ltb_spec (Z.of_nat n) (buffer_size rb - write_index rb)) as [Hnw|Hw'].
  - rewrite memcpy_Some by (destruct Hwf; lia). simpl. rewrite drop_0, Nat2Z.id.
    subst d. revert Hok Hx. generalize (take n ptr). intros x Hok Hx.
    destruct (Z.ltb_spec (buffer_size rb - Z.of_nat (length (contents rb))) (Z.of_nat n));
      eexists; (split; [done|]); open_rb Hwf; destruct Hok as [Hok|Hok];
      try done; try lia; close_rb s; rewrite <- Hx; force_case r.
  - subst d. open_rb Hwf.
    all: destruct (memcpy_wrap b ptr 0 w (s - w) n)
      as (x & y & b1 & E1 & E2 & Exy & Hx1 & Hx2); try lia.
    all: rewrite Nat2Z.inj_sub in E1, E2 by lia.
    all: change (Z.of_nat 0) with 0 in E1, E2.
    all: rewrite E1; simpl; rewrite E2; simpl; rewrite drop_0 in Exy; rewrite Exy.
    all: destruct Hok as [Hok|Hok]; try done.
    all: bool_cases; try lia.
    all: eexists; split; [done|]; close_rb s.
    all: replace (Z.to_nat (Z.of_nat n - (Z.of_nat s - Z.of_nat w)))
           with (length y) by lia.
    all: force_case r.
Qed.

Lemma put_force_big ptr (n : nat) :
  (n <= length ptr)%nat -> Z.of_nat n < 65536 -> buffer_size rb < Z.of_nat n ->
  read_mirror rb <> write_mirror rb ->
  exists rb', rt_ringbuffer_put_force rb ptr (Z.of_nat n) = Some (rb', buffer_size rb) /\
    holds rb' (buffer_size rb)
      (take (Z.to_nat (buffer_size rb)) (drop (n - Z.to_nat (buffer_size rb)) ptr)).
Proof using Hwf.
  intros Hn Hn16 Hbig Hok. unfold rt_ringbuffer_put_force.
  rewrite space_len_eq by done. pose proof contents_length as Hb. cbv zeta.
  rewrite !(uwrap_small 16) by (destruct Hwf; c_lia).
  rewrite (proj2 (Z.ltb_lt (buffer_size rb) _)) by done.
  open_rb Hwf; try done.
  all: destruct (Z.ltb_spec (Z.of_nat s) (Z.of_nat s - Z.of_nat w)); [lia|].
  all: bool_cases; try lia.
  all: destruct (memcpy_wrap b ptr (n - s) w (s - w) s)
      as (x & y & b1 & E1 & E2 & Exy & Hx1 & Hx2); try lia.
  all: rewrite !Nat2Z.inj_sub in E1, E2 by lia.
  all: rewrite E1; simpl; rewrite E2; simpl; rewrite Exy.
  all: eexists; split; [done|]; close_rb s.
  all: replace (Z.to_nat (Z.of_nat s - (Z.of_nat s - Z.of_nat w))) with w by lia.
  all: apply seg_replace; lia.
Qed.

(** Same mirror and too little room: every byte of the buffer is lost. *)
Lemma put_force_loses ptr n :
  0 <= n <= Z.of_nat (length ptr) -> n < 65536 ->
  read_mirror rb = write_mirror rb ->
  buffer_size rb - Z.of_nat (length (contents rb)) < Z.min n (buffer_size rb) ->
  exists rb', rt_ringbuffer_put_force rb ptr n = Some (rb', Z.min n (buffer_size rb)) /\
    holds rb' (buffer_size rb) [].
Proof using Hwf.
  intros Hn Hn16 Hm Hsp. unfold rt_ringbuffer_put_force.
  rewrite space_len_eq by done. pose proof contents_length as Hb. cbv zeta.
  rewrite !(uwrap_small 16) by (destruct Hwf; c_lia).
  set (m := if buffer_size rb <? n then buffer_size rb else n).
  set (base := if buffer_size rb <? n then n - buffer_size rb else 0).
  assert (m = Z.min n (buffer_size rb) /\ 0 <= base /\ base + m = n) as (Em & Hbase & Hbm)
    by (subst m base; destruct Hwf; bool_cases; lia).
  rewrite <- Em in *. assert (m <= buffer_size rb) as Hms by lia.
  clearbody m base. clear Em.
  rewrite (proj2 (Z.ltb_lt _ m)) by done.
  open_rb Hwf; try done.
  all: as_nat m; as_nat base.
  all: destruct (Z.ltb_spec (Z.of_nat m) (Z.of_nat s - Z.of_nat w)); [lia|].
  all: destruct (memcpy_wrap b ptr base w (s - w) m)
      as (x & y & b1 & E1 & E2 & Exy & Hx1 & Hx2); try lia.
  all: rewrite !Nat2Z.inj_sub in E1, E2 by lia.
  all: rewrite E1; simpl; rewrite E2; simpl.
  all: eexists; split; [done|]; close_rb s.
  all: replace (Z.to_nat (Z.of_nat m - (Z.of_nat s - Z.of_nat w))) with (length y) by lia.
  all: list_ext_lia.
Qed.

Lemma get_refines n :
  0 <= n < 65536 ->
  let m := Z.min n (Z.of_nat (length (contents rb))) in
  exists rb',
    rt_ringbuffer_get rb n = Some (rb', take (Z.to_nat m) (contents rb), m) /\
    holds rb' (buffer_size rb) (drop (Z.to_nat m) (contents rb)).
Proof using Hwf.
  intros Hn m. unfold rt_ringbuffer_get. rewrite data_len_contents by done.
  pose proof contents_length as Hb.
  set (len := Z.of_nat (length (contents rb))) in *.
  destruct (Z.eqb_spec len 0) as [E|E].
  { exists rb. subst m. rewrite E, Z.min_r by lia. done. }
  rewrite (uwrap_small 16) by (destruct Hwf; c_lia).
  assert ((if len <? n then len else n) = m) as -> by (subst m; bool_cases; lia).
  assert (0 <= m <= len /\ m <= n) as Hm by lia. clearbody m. subst len.
  as_nat m. rewrite Nat2Z.id.
  destruct (Z.ltb_spec (Z.of_nat m) (buffer_size rb - read_index rb)).
  - open_rb Hwf; rewrite (buf_read_ring b s) by lia; simpl; rewrite !Nat2Z.id;
      eexists; (split;
        [first [rewrite (get_same _ _ w) by lia | rewrite (get_other _ _ w) by lia]; done|]).
    all: close_rb s; first [apply drop_same | apply drop_other]; lia.
  - open_rb Hwf; try lia.
    all: rewrite !(buf_read_ring b s) by lia; simpl.
    all: replace (Z.of_nat s - Z.of_nat r) with (Z.of_nat (s - r)) by lia.
    all: replace (Z.of_nat m - Z.of_nat (s - r)) with (Z.of_nat (m - (s - r))) by lia.
    all: rewrite !Nat2Z.id; change (Z.to_nat 0) with 0%nat; rewrite drop_0.
    all: eexists; split; [rewrite get_wrap, ?H0 by lia; done|].
    all: close_rb s; rewrite <- drop_wrap, ?H0 by lia; done.
Qed.

Ltac char_case r w c :=
  match goal with
  | |- _ = drop ?k _ => replace k with 0%nat by (simpl; lia); rewrite drop_0
  | _ => idtac
  end;
  first [ apply (seg_same_put _ r w [c]); simpl; lia
        | apply (seg_other_put _ r w [c]); simpl; lia
        | apply seg_wrap_char; lia
        | etrans; [apply (seg_full_nowrap _ r w [c]); simpl; lia|]; f_equal; simpl; lia
        | etrans; [apply seg_full_char; lia|];
          f_equal; [simpl; lia|]; repeat f_equal; lia ].

Lemma putchar_full c :
  Z.of_nat (length (contents rb)) = buffer_size rb ->
  rt_ringbuffer_putchar rb c = Some (rb, 0).
Proof using Hwf.
  intros E. unfold rt_ringbuffer_putchar.
  rewrite space_len_eq, E, Z.sub_diag by done. done.
Qed.

Lemma putchar_refines c :
  Z.of_nat (length (contents rb)) < buffer_size rb ->
  exists rb', rt_ringbuffer_putchar rb c = Some (rb', 1) /\
    holds rb' (buffer_size rb) (contents rb ++ [c]).
Proof using Hwf.
  intros Hlt. unfold rt_ringbuffer_putchar. rewrite space_len_eq by done.
  destruct (Z.eqb_spec (buffer_size rb - Z.of_nat (length (contents rb))) 0); [lia|].
  rewrite wr_splice by (destruct Hwf; lia). simpl.
  destruct (Z.eqb_spec (write_index rb) (buffer_size rb - 1)) as [E|E];
    eexists; (split; [done|]).
  all: open_rb Hwf; try lia; close_rb s; char_case r w c.
Qed.

Lemma putchar_force_refines c :
  let d := contents rb ++ [c] in
  exists rb', rt_ringbuffer_putchar_force rb c = Some (rb', 1) /\
    holds rb' (buffer_size rb) (drop (length d - Z.to_nat (buffer_size rb)) d).
Proof using Hwf.
  intros d. unfold rt_ringbuffer_putchar_force.
  rewrite wr_splice by (destruct Hwf; lia). simpl. subst d.
  destruct (Z.eqb_spec (write_index rb) (buffer_size rb - 1)) as [E|E];
    eexists; (split; [done|]); unfold rt_ringbuffer_status;
    destruct (Z.eqb_spec (read_index rb) (write_index rb)) as [E'|E'].
  all: open_rb Hwf; try lia; close_rb s; char_case r w c.
Qed.

Lemma getchar_empty :
  contents rb = [] -> rt_ringbuffer_getchar rb = Some (rb, None, 0).
Proof using Hwf.
  intros E. unfold rt_ringbuffer_getchar. by rewrite data_len_contents, E by done.
Qed.

Lemma getchar_refines c q :
  contents rb = c :: q ->
  exists rb', rt_ringbuffer_getchar rb = Some (rb', Some c, 1) /\
    holds rb' (buffer_size rb) q.
Proof using Hwf.
  intros Hc. unfold rt_ringbuffer_getchar. rewrite data_len_contents, Hc by done.
  assert (rd (buffer_ptr rb) (read_index rb) = Some c) as ->.
  { unfold rd. rewrite (proj2 (Z.leb_le 0 _)) by (destruct Hwf; lia).
    assert (contents rb !! 0%nat = Some c) as H0 by by rewrite Hc.
    clear Hc. open_rb Hwf.
    all: revert H0; rewrite ?lookup_app_decide; list_lengths; try case_decide; try lia.
    all: rewrite lookup_drop, !lookup_take_decide, Nat.add_0_r;
      repeat case_decide; done || lia. }
  simpl. assert (q = drop 1 (contents rb)) as -> by by rewrite Hc.
  assert (length (contents rb) <> 0%nat) as Hne by by rewrite Hc. clear Hc.
  destruct (Z.eqb_spec (read_index rb) (buffer_size rb - 1)) as [E|E];
    eexists; (split; [done|]); open_rb Hwf; try lia; close_rb s.
  all: first [ apply drop_same | apply drop_other; lia | idtac ].
  all: rewrite drop_app_ge by (list_lengths; lia); list_lengths;
    f_equal; lia.
Qed.

Lemma peak_refines :
  exists (k : nat),
    let '(rb', off, n) := rt_ringbuffer_peak rb in
    n = Z.of_nat k /\
    (off = None <-> contents rb = []) /\
    (forall o, off = Some o -> buf_read (buffer_ptr rb) o n = Some (take k (contents rb))) /\
    holds rb' (buffer_size rb) (drop k (contents rb)).
Proof using Hwf.
  unfold rt_ringbuffer_peak. rewrite data_len_contents by done.
  pose proof contents_length as Hb.
  destruct (Z.eqb_spec (Z.of_nat (length (contents rb))) 0) as [E|E].
  { exists 0%nat. assert (contents rb = []) as Hc by (apply nil_length_inv; lia).
    unfold holds. rewrite Hc. done. }
  assert (contents rb <> []) as Hne by (intros Hc; rewrite Hc in E; done).
  destruct (Z.ltb_spec (Z.of_nat (length (contents rb))) (buffer_size rb - read_index rb)).
  - exists (length (contents rb)). split; [done|]. split; [done|].
    rewrite take_ge, drop_ge by lia.
    split; [intros ? [= <-]|]; open_rb Hwf; try lia.
    1,2: rewrite (buf_read_ring b s) by lia; f_equal; list_ext_lia.
    all: close_rb s; list_ext_lia.
  - exists (Z.to_nat (buffer_size rb - read_index rb)).
    split; [destruct Hwf; lia|]. split; [done|].
    split; [intros ? [= <-]|]; open_rb Hwf; try lia.
    1,2: rewrite (buf_read_ring b s) by lia; f_equal; list_ext_lia.
    all: close_rb s; list_ext_lia.
Qed.

Lemma reset_refines : holds (rt_ringbuffer_reset rb) (buffer_size rb) [].
Proof using Hwf. unfold rt_ringbuffer_reset. open_rb Hwf; close_rb s; done. Qed.

End Refinement.

Lemma init_holds pool size :
  4 <= size < 32768 -> size <= Z.of_nat (length pool) ->
  holds (rt_ringbuffer_init pool size) (size - size mod 4) [].
Proof.
  intros Hs Hp. unfold rt_ringbuffer_init, RT_ALIGN_DOWN, RT_ALIGN_SIZE.
  assert (Z.land size (Z.lnot (4 - 1)) = size - size mod 4) as ->.
  { rewrite <- Z.ldiff_land. change (4 - 1) with (Z.ones 2).
    rewrite Z.ldiff_ones_r by lia. rewrite Z.shiftl_mul_pow2, Z.shiftr_div_pow2 by lia.
    change (2 ^ 2) with 4. pose proof (Z.div_mod size 4). lia. }
  pose proof (Z.mod_pos_bound size 4). 
  assert (4 <= size - size mod 4) by (pose proof (Z.div_mod size 4); lia).
  rewrite swrap_small by (try change (2 ^ (16 - 1)) with 32768; lia).
  split; [constructor; simpl; try lia; try done|]. done.
Qed.

(** ** Runs of operations against the bounded queue *)

Inductive rb_op :=
| OpPut (data : list Z) (n : Z)
| OpGet (n : Z)
| OpPutchar (c : Z)
| OpPutcharForce (c : Z)
| OpGetchar
| OpReset.

(** What the caller sees: the bytes handed out and the return value. *)
Definition rb_out : Type := list Z * Z.

Definition rb_step (rb : rt_ringbuffer) (o : rb_op) : option (rt_ringbuffer * rb_out) :=
  match o with
  | OpPut d n => '(rb, r) ← rt_ringbuffer_put rb d n; Some (rb, ([], r))
  | OpGet n => '(rb, x, r) ← rt_ringbuffer_get rb n; Some (rb, (x, r))
  | OpPutchar c => '(rb, r) ← rt_ringbuffer_putchar rb c; Some (rb, ([], r))
  | OpPutcharForce c => '(rb, r) ← rt_ringbuffer_putchar_force rb c; Some (rb, ([], r))
  | OpGetchar => '(rb, x, r) ← rt_ringbuffer_getchar rb;
                 Some (rb, (option_list x, r))
  | OpReset => Some (rt_ringbuffer_reset rb, ([], 0))
  end.

(** The bounded byte queue of capacity [cap]. *)
Definition q_step (cap : Z) (q : list Z) (o : rb_op) : list Z * rb_out :=
  match o with
  | OpPut d n =>
      let m := Z.min n (cap - Z.of_nat (length q)) in
      (q ++ take (Z.to_nat m) d, ([], m))
  | OpGet n =>
      let m := Z.min n (Z.of_nat (length q)) in
      (drop (Z.to_nat m) q, (take (Z.to_nat m) q, m))
  | OpPutchar c =>
      if Z.of_nat (length q) =? cap then (q, ([], 0)) else (q ++ [c], ([], 1))
  | OpPutcharForce c =>
      (drop (length (q ++ [c]) - Z.to_nat cap) (q ++ [c]), ([], 1))
  | OpGetchar =>
      match q with [] => ([], ([], 0)) | c :: q => (q, ([c], 1)) end
  | OpReset => ([], ([], 0))
  end.

Definition rb_op_ok (o : rb_op) : Prop :=
  match o with
  | OpPut d n => 0 <= n <= Z.of_nat (length d) /\ n < 65536
  | OpGet n => 0 <= n < 65536
  | _ => True
  end.

Fixpoint rb_run (rb : rt_ringbuffer) (os : list rb_op)
  : option (rt_ringbuffer * list rb_out) :=
  match os with
  | [] => Some (rb, [])
  | o :: os => '(rb, x) ← rb_step rb o; '(rb, xs) ← rb_run rb os; Some (rb, x :: xs)
  end.

Fixpoint q_run (cap : Z) (q : list Z) (os : list rb_op) : list Z * list rb_out :=
  match os with
  | [] => (q, [])
  | o :: os => let '(q, x) := q_step cap q o in
               let '(q, xs) := q_run cap q os in (q, x :: xs)
  end.

Lemma rb_step_refines rb cap q o :
  holds rb cap q -> rb_op_ok o ->
  exists rb', rb_step rb o = Some (rb', (q_step cap q o).2) /\
              holds rb' cap (q_step cap q o).1.
Proof.
  intros (Hwf & <- & <-) Hok. destruct o as [d n|n|c|c| |]; simpl in *.
  - destruct (put_refines rb Hwf d n) as (rb' & -> & H); [tauto..|]. eauto.
  - destruct (get_refines rb Hwf n) as (rb' & -> & H); [tauto|]. eauto.
  - pose proof (contents_length rb Hwf).
    destruct (Z.eqb_spec (Z.of_nat (length (contents rb))) (buffer_size rb)).
    + rewrite putchar_full by done. by exists rb.
    + destruct (putchar_refines rb Hwf c) as (rb' & -> & H'); [lia|]. eauto.
  - destruct (putchar_force_refines rb Hwf c) as (rb' & -> & H). eauto.
  - destruct (contents rb) as [|c q] eqn:E.
    + rewrite getchar_empty by done. exists rb. split; [done|]. by split_and!.
    + destruct (getchar_refines rb Hwf c q E) as (rb' & -> & H). eauto.
  - eexists; split; [done|]. by apply reset_refines.
Qed.

(** C5. The ring buffer is a bounded FIFO queue: started from
    [rt_ringbuffer_init], any sequence of put, get, putchar, putchar_force,
    getchar and reset stays in bounds, hands out exactly the bytes and return
    values of a queue of [size] rounded down to a multiple of four, and ends
    in a well-formed buffer that holds that queue. *)
Theorem ring_refines_queue pool size ops :
  4 <= size < 32768 -> size <= Z.of_nat (length pool) -> Forall rb_op_ok ops ->
  exists rb,
    rb_run (rt_ringbuffer_init pool size) ops
      = Some (rb, (q_run (size - size mod 4) [] ops).2) /\
    holds rb (size - size mod 4) (q_run (size - size mod 4) [] ops).1.
Proof.
  intros Hs Hp Hops. pose proof (init_holds pool size Hs Hp) as Hh.
  revert Hh. generalize (rt_ringbuffer_init pool size) (size - size mod 4) (@nil Z).
  induction Hops as [|o os Ho Hos IH]; intros rb cap q Hh; simpl; [by exists rb|].
  destruct (rb_step_refines rb cap q o Hh Ho) as (rb1 & -> & Hh1).
  destruct (q_step cap q o) as [q1 x]. simpl in *.
  destruct (IH rb1 cap q1 Hh1) as (rb2 & -> & Hh2).
  destruct (q_run cap q1 os) as [q2 xs]. simpl in *. eauto.
Qed.

Definition demo_ops : list rb_op :=
  [OpPut [1; 2; 3; 4; 5; 6] 6; OpGet 4; OpPut [7; 8; 9; 10; 11; 12; 13] 7;
   OpPutchar 14; OpPutcharForce 15; OpGetchar; OpGet 3].

Lemma ring_refines_queue_witness :
  exists rb,
    rb_run (rt_ringbuffer_init (replicate 10 0) 10) demo_ops
      = Some (rb, [([], 6); ([1; 2; 3; 4], 4); ([], 6); ([], 0); ([], 1); ([6], 1);
                   ([7; 8; 9], 3)]) /\
    holds rb 8 [10; 11; 12; 15].
Proof.
  apply (ring_refines_queue (replicate 10 0) 10 demo_ops).
  - lia.
  - vm_compute; discriminate.
  - unfold demo_ops. repeat constructor; simpl; lia.
Defined.

(** [rt_ringbuffer_put_force] keeps the newest bytes: as long as the
    write does not overrun data of the same mirror, the buffer afterwards
    holds the last [buffer_size] bytes of what it held followed by the new
    bytes. *)
Theorem put_force_keeps_newest rb ptr n :
  wf rb -> 0 <= n <= Z.of_nat (length ptr) -> n < 65536 ->
  let d := contents rb ++ take (Z.to_nat n) ptr in
  (read_mirror rb <> write_mirror rb \/ Z.of_nat (length d) <= buffer_size rb) ->
  exists rb', rt_ringbuffer_put_force rb ptr n = Some (rb', Z.min n (buffer_size rb)) /\
    holds rb' (buffer_size rb) (drop (length d - Z.to_nat (buffer_size rb)) d).
Proof.
  intros Hwf Hn Hn16 d Hok. subst d. as_nat n. rewrite !Nat2Z.id in *.
  destruct (decide (Z.of_nat n <= buffer_size rb)) as [Hfit|Hbig].
  - rewrite Z.min_l by done. apply put_force_fits; [done|lia|done|done].
  - rewrite Z.min_r by lia.
    destruct Hok as [Hok|Hok]; [|exfalso; revert Hok; list_lengths; lia].
    destruct (put_force_big rb Hwf ptr n) as (rb' & -> & Hh); [lia..|done|].
    exists rb'; split; [done|]. revert Hh. unfold holds. intros (? & ? & ->).
    split_and!; [done..|]. destruct Hwf.
    rewrite drop_app_ge by (list_lengths; lia). rewrite take_drop_commute.
    list_lengths; f_equal; [lia|]. f_equal; lia.
Qed.

Lemma put_force_keeps_newest_witness :
  exists rb', rt_ringbuffer_put_force (mk_rb [10; 11; 12; 13] false 2 true 1 4) [20; 21; 22] 3
    = Some (rb', 3) /\ holds rb' 4 [10; 20; 21; 22].
Proof.
  apply (put_force_keeps_newest (mk_rb [10; 11; 12; 13] false 2 true 1 4) [20; 21; 22] 3).
  - constructor; simpl; intros; first [lia | congruence].
  - simpl; lia.
  - lia.
  - left. discriminate.
Defined.

(** The remaining case of [rt_ringbuffer_put_force]: when reader and
    writer are in the same mirror and the new data do not fit, the code flips
    both mirrors, so that the buffer, which should be full, is empty and all
    its bytes, the new ones included, are lost. *)
Theorem put_force_same_mirror_loses_all rb ptr n :
  wf rb -> 0 <= n <= Z.of_nat (length ptr) -> n < 65536 ->
  read_mirror rb = write_mirror rb ->
  buffer_size rb - Z.of_nat (length (contents rb)) < Z.min n (buffer_size rb) ->
  exists rb', rt_ringbuffer_put_force rb ptr n = Some (rb', Z.min n (buffer_size rb)) /\
    rt_ringbuffer_status rb' = RT_RINGBUFFER_EMPTY /\
    holds rb' (buffer_size rb) [].
Proof.
  intros Hwf Hn Hn16 Hm Hsp.
  destruct (put_force_loses rb Hwf ptr n) as (rb' & -> & Hh); [done..|].
  exists rb'. split_and!; [done| |done]. destruct Hh as (Hwf' & _ & Hc).
  pose proof (data_len_contents rb' Hwf') as Hl. rewrite Hc in Hl. simpl in Hl.
  revert Hl. unfold rt_ringbuffer_data_len.
  destruct (rt_ringbuffer_status rb') eqn:E; [done| |].
  all: destruct Hwf'; bool_cases; unfold rt_ringbuffer_status in E;
    rewrite ?uwrap_small by c_lia; try lia.
  all: destruct (Z.eqb_spec (read_index rb') (write_index rb')); try done; lia.
Qed.

Lemma put_force_same_mirror_loses_all_witness :
  exists rb', rt_ringbuffer_put_force (mk_rb [1; 2; 3; 4] false 1 false 3 4) [20; 21; 22] 3
    = Some (rb', 3) /\ rt_ringbuffer_status rb' = RT_RINGBUFFER_EMPTY /\
      holds rb' 4 [].
Proof.
  apply (put_force_same_mirror_loses_all (mk_rb [1; 2; 3; 4] false 1 false 3 4) [20; 21; 22] 3).
  - constructor; simpl; intros; first [lia | congruence].
  - simpl; lia.
  - lia.
  - reflexivity.
  - vm_compute; reflexivity.
Defined.

End Ring.
