(* ===== verification/Scheduler.v ===== *)
(** * The scheduler

    Model of [rt-thread/src/scheduler.c] as it is configured for the board
    (one core, 32 priorities), of the bit scan [__rt_ffs] of [kservice.c] it
    relies on, and of the interrupt nesting counter of [irq.c].

    The state [sched] holds the thread control blocks and the lists their
    [tlist] nodes are on: the ready queue of each priority, the queue of dead
    threads, and the wait queues of the IPC objects.  File RtList shows that
    the pointer code implements these sequences; here [tlist_remove] unlinks a
    node from the list it is on and the insertions fault on a node that is
    still on a list.  Calls of the port layer that switch the CPU context are
    recorded in [hw_switches], newest first; the stack check
    [_rt_scheduler_stack_check] is left out, and the scheduler hook is the null
    pointer it is until an application sets it. *)
From stdpp Require Import base list gmap.
From Stdlib Require Import ZArith Lia.
From S2P Require Import Prelude.

Module Sched.

(** The address of a kernel object. *)
Abbreviation oid := positive.

(** ** Constants of rtdef.h and rtconfig.h *)

Definition RT_EOK : Z := 0.
Definition RT_ERROR : Z := 1.
Definition RT_ETIMEOUT : Z := 2.
Definition RT_EFULL : Z := 3.
Definition RT_EINVAL : Z := 10.

Definition RT_THREAD_PRIORITY_MAX : Z := 32.

Definition RT_THREAD_INIT : Z := 0.
Definition RT_THREAD_READY : Z := 1.
Definition RT_THREAD_SUSPEND : Z := 2.
Definition RT_THREAD_RUNNING : Z := 3.
Definition RT_THREAD_CLOSE : Z := 4.
Definition RT_THREAD_STAT_MASK : Z := 7.
Definition RT_THREAD_STAT_YIELD : Z := 8.

(** ** Data *)

(** The list heads a thread's [tlist] can be linked to: a row of
    [rt_thread_priority_table], [rt_thread_defunct], the [suspend_thread] of
    an IPC object, the [suspend_sender_thread] of a mailbox or message queue. *)
Inductive lhead :=
| LReady (p : Z) | LDefunct | LSusp (o : oid) | LSender (o : oid).

#[export] Instance lhead_eq_dec : EqDecision lhead.
Proof. solve_decision. Defined.

Definition lhead_enc (l : lhead) : Z + unit + oid + oid :=
  match l with
  | LReady p => inl (inl (inl p)) | LDefunct => inl (inl (inr tt))
  | LSusp o => inl (inr o) | LSender o => inr o
  end.
Definition lhead_dec (x : Z + unit + oid + oid) : lhead :=
  match x with
  | inl (inl (inl p)) => LReady p | inl (inl (inr _)) => LDefunct
  | inl (inr o) => LSusp o | inr o => LSender o
  end.
#[export] Instance lhead_countable : Countable lhead.
Proof. by apply (inj_countable' lhead_enc lhead_dec); intros []. Defined.

Inductive hw_switch :=
| Switch_to (to_ : oid)
| Switch (from to_ : oid)
| Switch_interrupt (from to_ : oid).

(** [struct rt_thread], without its object header and list nodes, the saved
    stack pointer and its timer: the header is in the state of the object
    component and the timer in that of the timer component. *)
Record rt_thread := mk_thread {
  entry : Z;
  parameter : Z;
  stack_addr : Z;
  stack_size : Z;
  error : Z;
  stat : Z;
  current_priority : Z;
  init_priority : Z;
  number_mask : Z;
  event_set : Z;
  event_info : Z;
  init_tick : Z;
  remaining_tick : Z;
  cleanup : option Z;
  user_data : Z
}.

Definition set_error (v : Z) (r : rt_thread) : rt_thread :=
  mk_thread (entry r) (parameter r) (stack_addr r) (stack_size r) v (stat r) (current_priority r) (init_priority r) (number_mask r) (event_set r) (event_info r) (init_tick r) (remaining_tick r) (cleanup r) (user_data r).
Definition set_stat (v : Z) (r : rt_thread) : rt_thread :=
  mk_thread (entry r) (parameter r) (stack_addr r) (stack_size r) (error r) v (current_priority r) (init_priority r) (number_mask r) (event_set r) (event_info r) (init_tick r) (remaining_tick r) (cleanup r) (user_data r).
Definition set_current_priority (v : Z) (r : rt_thread) : rt_thread :=
  mk_thread (entry r) (parameter r) (stack_addr r) (stack_size r) (error r) (stat r) v (init_priority r) (number_mask r) (event_set r) (event_info r) (init_tick r) (remaining_tick r) (cleanup r) (user_data r).
Definition set_number_mask (v : Z) (r : rt_thread) : rt_thread :=
  mk_thread (entry r) (parameter r) (stack_addr r) (stack_size r) (error r) (stat r) (current_priority r) (init_priority r) v (event_set r) (event_info r) (init_tick r) (remaining_tick r) (cleanup r) (user_data r).
Definition set_event_set (v : Z) (r : rt_thread) : rt_thread :=
  mk_thread (entry r) (parameter r) (stack_addr r) (stack_size r) (error r) (stat r) (current_priority r) (init_priority r) (number_mask r) v (event_info r) (init_tick r) (remaining_tick r) (cleanup r) (user_data r).
Definition set_event_info (v : Z) (r : rt_thread) : rt_thread :=
  mk_thread (entry r) (parameter r) (stack_addr r) (stack_size r) (error r) (stat r) (current_priority r) (init_priority r) (number_mask r) (event_set r) v (init_tick r) (remaining_tick r) (cleanup r) (user_data r).
Definition set_remaining_tick (v : Z) (r : rt_thread) : rt_thread :=
  mk_thread (entry r) (parameter r) (stack_addr r) (stack_size r) (error r) (stat r) (current_priority r) (init_priority r) (number_mask r) (event_set r) (event_info r) (init_tick r) v (cleanup r) (user_data r).

(** The global variables of scheduler.c and irq.c, and the threads. *)
Record sched := mk_sched {
  threads : gmap oid rt_thread;
  tlists : gmap lhead (list oid);
  rt_thread_ready_priority_group : Z;
  rt_scheduler_lock_nest : Z;
  rt_current_thread : option oid;
  rt_current_priority : Z;
  rt_interrupt_nest : Z;
  hw_switches : list hw_switch
}.

Definition set_threads (v : gmap oid rt_thread) (r : sched) : sched :=
  mk_sched v (tlists r) (rt_thread_ready_priority_group r) (rt_scheduler_lock_nest r) (rt_current_thread r) (rt_current_priority r) (rt_interrupt_nest r) (hw_switches r).
Definition set_tlists (v : gmap lhead (list oid)) (r : sched) : sched :=
  mk_sched (threads r) v (rt_thread_ready_priority_group r) (rt_scheduler_lock_nest r) (rt_current_thread r) (rt_current_priority r) (rt_interrupt_nest r) (hw_switches r).
Definition set_rt_thread_ready_priority_group (v : Z) (r : sched) : sched :=
  mk_sched (threads r) (tlists r) v (rt_scheduler_lock_nest r) (rt_current_thread r) (rt_current_priority r) (rt_interrupt_nest r) (hw_switches r).
Definition set_rt_scheduler_lock_nest (v : Z) (r : sched) : sched :=
  mk_sched (threads r) (tlists r) (rt_thread_ready_priority_group r) v (rt_current_thread r) (rt_current_priority r) (rt_interrupt_nest r) (hw_switches r).
Definition set_rt_current_thread (v : option oid) (r : sched) : sched :=
  mk_sched (threads r) (tlists r) (rt_thread_ready_priority_group r) (rt_scheduler_lock_nest r) v (rt_current_priority r) (rt_interrupt_nest r) (hw_switches r).
Definition set_rt_current_priority (v : Z) (r : sched) : sched :=
  mk_sched (threads r) (tlists r) (rt_thread_ready_priority_group r) (rt_scheduler_lock_nest r) (rt_current_thread r) v (rt_interrupt_nest r) (hw_switches r).
Definition set_rt_interrupt_nest (v : Z) (r : sched) : sched :=
  mk_sched (threads r) (tlists r) (rt_thread_ready_priority_group r) (rt_scheduler_lock_nest r) (rt_current_thread r) (rt_current_priority r) v (hw_switches r).
Definition set_hw_switches (v : list hw_switch) (r : sched) : sched :=
  mk_sched (threads r) (tlists r) (rt_thread_ready_priority_group r) (rt_scheduler_lock_nest r) (rt_current_thread r) (rt_current_priority r) (rt_interrupt_nest r) v.

(** [thread->stat & RT_THREAD_STAT_MASK] *)
Definition stat_of (th : rt_thread) : Z := Z.land (stat th) RT_THREAD_STAT_MASK.

(** [x | (thread->stat & ~RT_THREAD_STAT_MASK)], as stored in [stat]. *)
Definition with_stat (x : Z) (th : rt_thread) : rt_thread :=
  set_stat (u8 (Z.lor x (Z.land (stat th) (Z.lnot RT_THREAD_STAT_MASK)))) th.

(** ** Access to threads and lists *)

Definition get_thread (t : oid) : M sched rt_thread :=
  m ← gets threads; deref (m !! t).

Definition upd_thread (t : oid) (f : rt_thread -> rt_thread) : M sched unit :=
  th ← get_thread t; modify (fun s => set_threads (<[t := f th]> (threads s)) s).

Definition get_list (l : lhead) : M sched (list oid) :=
  m ← gets tlists; deref (m !! l).

Definition set_list (l : lhead) (xs : list oid) : M sched unit :=
  modify (fun s => set_tlists (<[l := xs]> (tlists s)) s).

(** [rt_list_init(&list)] for a thread list. *)
Definition tlist_init (l : lhead) : M sched unit := set_list l [].

(** Whether the node is linked to some list. *)
Definition attached (s : sched) (t : oid) : Prop :=
  map_Exists (fun _ xs => t ∈ xs) (tlists s).
#[export] Instance attached_dec s t : Decision (attached s t).
Proof. unfold attached. apply _. Defined.

(** [rt_list_remove(&thread->tlist)] *)
Definition tlist_remove (t : oid) : M sched unit :=
  modify (fun s => set_tlists (filter (fun x => x <> t) <$> tlists s) s).

Definition detached_or_fault (t : oid) : M sched unit :=
  b ← gets (fun s => bool_decide (attached s t)); if b : bool then fault else mret tt.

(** [rt_list_insert_before(&list, &thread->tlist)]: at the end of the list. *)
Definition tlist_insert_before (l : lhead) (t : oid) : M sched unit :=
  detached_or_fault t;; xs ← get_list l; set_list l (xs ++ [t]).

(** [rt_list_insert_after(&list, &thread->tlist)]: at the front. *)
Definition tlist_insert_after (l : lhead) (t : oid) : M sched unit :=
  detached_or_fault t;; xs ← get_list l; set_list l (t :: xs).

(** ** kservice.c: first set bit *)

Definition __lowest_bit_bitmap : list Z :=
  [0; 0; 1; 0; 2; 0; 1; 0; 3; 0; 1; 0; 2; 0; 1; 0;
   4; 0; 1; 0; 2; 0; 1; 0; 3; 0; 1; 0; 2; 0; 1; 0;
   5; 0; 1; 0; 2; 0; 1; 0; 3; 0; 1; 0; 2; 0; 1; 0;
   4; 0; 1; 0; 2; 0; 1; 0; 3; 0; 1; 0; 2; 0; 1; 0;
   6; 0; 1; 0; 2; 0; 1; 0; 3; 0; 1; 0; 2; 0; 1; 0;
   4; 0; 1; 0; 2; 0; 1; 0; 3; 0; 1; 0; 2; 0; 1; 0;
   5; 0; 1; 0; 2; 0; 1; 0; 3; 0; 1; 0; 2; 0; 1; 0;
   4; 0; 1; 0; 2; 0; 1; 0; 3; 0; 1; 0; 2; 0; 1; 0;
   7; 0; 1; 0; 2; 0; 1; 0; 3; 0; 1; 0; 2; 0; 1; 0;
   4; 0; 1; 0; 2; 0; 1; 0; 3; 0; 1; 0; 2; 0; 1; 0;
   5; 0; 1; 0; 2; 0; 1; 0; 3; 0; 1; 0; 2; 0; 1; 0;
   4; 0; 1; 0; 2; 0; 1; 0; 3; 0; 1; 0; 2; 0; 1; 0;
   6; 0; 1; 0; 2; 0; 1; 0; 3; 0; 1; 0; 2; 0; 1; 0;
   4; 0; 1; 0; 2; 0; 1; 0; 3; 0; 1; 0; 2; 0; 1; 0;
   5; 0; 1; 0; 2; 0; 1; 0; 3; 0; 1; 0; 2; 0; 1; 0;
   4; 0; 1; 0; 2; 0; 1; 0; 3; 0; 1; 0; 2; 0; 1; 0].

Definition __rt_ffs (value : Z) : option Z :=
  if (value =? 0) then Some 0
  else if negb (Z.land value 0xff =? 0) then
    b ← rd __lowest_bit_bitmap (Z.land value 0xff); Some (b + 1)
  else if negb (Z.land value 0xff00 =? 0) then
    b ← rd __lowest_bit_bitmap (Z.shiftr (Z.land value 0xff00) 8); Some (b + 9)
  else if negb (Z.land value 0xff0000 =? 0) then
    b ← rd __lowest_bit_bitmap (Z.shiftr (Z.land value 0xff0000) 16); Some (b + 17)
  else
    b ← rd __lowest_bit_bitmap (Z.shiftr (Z.land value 0xff000000) 24); Some (b + 25).

(** ** scheduler.c *)

(** The list of the priority must not be empty: [list.next] of an empty list
    is the list head, which is not part of a thread. *)
Definition _get_highest_priority_thread : M sched (oid * Z) :=
  g ← gets rt_thread_ready_priority_group;
  n ← deref (__rt_ffs (s32 g));
  let highest_ready_priority := u32 (n - 1) in
  xs ← get_list (LReady highest_ready_priority);
  t ← deref (head xs);
  mret (t, highest_ready_priority).

(** The loop [for (offset = 0; offset < n; offset++) rt_list_init(...)]. *)
Fixpoint init_priority_table (n : nat) (offset : Z) : M sched unit :=
  match n with
  | O => mret tt
  | S n => tlist_init (LReady offset);; init_priority_table n (offset + 1)
  end.

Definition rt_system_scheduler_init : M sched unit :=
  modify (set_rt_scheduler_lock_nest 0);;
  init_priority_table (Z.to_nat RT_THREAD_PRIORITY_MAX) 0;;
  modify (set_rt_thread_ready_priority_group 0);;
  tlist_init LDefunct.

Definition rt_schedule_insert_thread (thread : oid) : M sched unit :=
  cur ← gets rt_current_thread;
  if bool_decide (cur = Some thread) then upd_thread thread (with_stat RT_THREAD_RUNNING)
  else
    upd_thread thread (with_stat RT_THREAD_READY);;
    th ← get_thread thread;
    tlist_insert_before (LReady (current_priority th)) thread;;
    modify (fun s => set_rt_thread_ready_priority_group
                       (Z.lor (rt_thread_ready_priority_group s) (number_mask th)) s).

Definition rt_schedule_remove_thread (thread : oid) : M sched unit :=
  tlist_remove thread;;
  th ← get_thread thread;
  xs ← get_list (LReady (current_priority th));
  when (bool_decide (xs = []))
    (modify (fun s => set_rt_thread_ready_priority_group
               (Z.land (rt_thread_ready_priority_group s) (Z.lnot (number_mask th))) s)).

Definition log_switch (e : hw_switch) : M sched unit :=
  modify (fun s => set_hw_switches (e :: hw_switches s) s).

Definition rt_system_scheduler_start : M sched unit :=
  '(to_thread, _) ← _get_highest_priority_thread;
  modify (set_rt_current_thread (Some to_thread));;
  rt_schedule_remove_thread to_thread;;
  upd_thread to_thread (set_stat RT_THREAD_RUNNING);;
  log_switch (Switch_to to_thread).

(** The thread [rt_schedule] continues with, and whether the running thread
    goes back to the ready queue. *)
Definition schedule_choice (cur : oid) (c : rt_thread) (to_ : oid) (prio : Z) : oid * bool :=
  if stat_of c =? RT_THREAD_RUNNING then
    if current_priority c <? prio then (cur, false)
    else if (current_priority c =? prio) && (Z.land (stat c) RT_THREAD_STAT_YIELD =? 0) then (cur, false)
    else (to_, true)
  else (to_, false).

Definition clear_yield (th : rt_thread) : rt_thread :=
  set_stat (Z.land (stat th) (Z.lnot RT_THREAD_STAT_YIELD)) th.

Definition rt_schedule : M sched unit :=
  lock ← gets rt_scheduler_lock_nest;
  g ← gets rt_thread_ready_priority_group;
  when ((lock =? 0) && negb (g =? 0)) (
    '(highest, highest_ready_priority) ← _get_highest_priority_thread;
    cur ← gets rt_current_thread;
    cur ← deref cur;
    c ← get_thread cur;
    let '(to_thread, need_insert_from_thread) :=
      schedule_choice cur c highest highest_ready_priority in
    when (stat_of c =? RT_THREAD_RUNNING) (upd_thread cur clear_yield);;
    if bool_decide (to_thread <> cur) then
      modify (set_rt_current_priority (u8 highest_ready_priority));;
      modify (set_rt_current_thread (Some to_thread));;
      when need_insert_from_thread (rt_schedule_insert_thread cur);;
      rt_schedule_remove_thread to_thread;;
      upd_thread to_thread (with_stat RT_THREAD_RUNNING);;
      nest ← gets rt_interrupt_nest;
      if nest =? 0 then log_switch (Switch cur to_thread)
      else log_switch (Switch_interrupt cur to_thread)
    else
      rt_schedule_remove_thread cur;;
      upd_thread cur (with_stat RT_THREAD_RUNNING)).

Definition rt_enter_critical : M sched unit :=
  modify (fun s => set_rt_scheduler_lock_nest (s16 (rt_scheduler_lock_nest s + 1)) s).

Definition rt_exit_critical : M sched unit :=
  modify (fun s => set_rt_scheduler_lock_nest (s16 (rt_scheduler_lock_nest s - 1)) s);;
  n ← gets rt_scheduler_lock_nest;
  when (n <=? 0) (
    modify (set_rt_scheduler_lock_nest 0);;
    cur ← gets rt_current_thread;
    when (bool_decide (cur <> None)) rt_schedule).

Definition rt_critical_level : M sched Z :=
  gets (fun s => u16 (rt_scheduler_lock_nest s)).

(** ** irq.c *)

Definition rt_interrupt_enter : M sched unit :=
  modify (fun s => set_rt_interrupt_nest (u8 (rt_interrupt_nest s + 1)) s).

Definition rt_interrupt_leave : M sched unit :=
  modify (fun s => set_rt_interrupt_nest (u8 (rt_interrupt_nest s - 1)) s).

Definition rt_interrupt_get_nest : M sched Z := gets rt_interrupt_nest.

(** [rt_thread_self] of thread.c. *)
Definition rt_thread_self : M sched (option oid) := gets rt_current_thread.

(** ** The bit scan *)

(** [k] is the position of the lowest set bit of [v]. *)
Definition lowest_bit (v k : Z) : Prop :=
  0 <= k /\ Z.testbit v k = true /\ forall j, 0 <= j < k -> Z.testbit v j = false.

Definition zero_below (v n : Z) : Prop := forall j, 0 <= j < n -> Z.testbit v j = false.

Definition lowest_bitb (v k : Z) : bool :=
  (0 <=? k) && (k <? 8) && Z.testbit v k &&
  forallb (fun j => negb (Z.testbit v (Z.of_nat j))) (seq 0 (Z.to_nat k)).

Lemma bitmap_table (b : Z) :
  0 < b < 256 -> exists k, rd __lowest_bit_bitmap b = Some k /\ k < 8 /\ lowest_bit b k.
Proof.
  intros Hb.
  assert (forallb (fun n => match rd __lowest_bit_bitmap (Z.of_nat n) with
            Some k => lowest_bitb (Z.of_nat n) k | None => false end) (seq 1 255) = true) as H
    by (vm_compute; reflexivity).
  rewrite forallb_forall in H. specialize (H (Z.to_nat b)).
  rewrite Z2Nat.id in H by lia. destruct (rd __lowest_bit_bitmap b) as [k|].
  2: { discriminate H. apply in_seq. lia. }
  assert (lowest_bitb b k = true) as Hk by (apply H, in_seq; lia). clear H.
  unfold lowest_bitb in Hk. rewrite !andb_true_iff in Hk. destruct Hk as [[[H1 H2] H3] H4].
  exists k. split; [done|]. split; [lia|]. split; [lia|]. split; [done|].
  intros j Hj. rewrite forallb_forall in H4. specialize (H4 (Z.to_nat j)).
  rewrite Z2Nat.id in H4 by lia. apply negb_true_iff, H4, in_seq. lia.
Qed.

Lemma byte_of v n j :
  0 <= n -> 0 <= j < 8 -> Z.testbit (Z.land (Z.shiftr v n) 0xff) j = Z.testbit v (n + j).
Proof.
  intros Hn Hj. change 0xff with (Z.ones 8). rewrite Z.land_spec, Z.ones_spec_low, andb_true_r by lia.
  rewrite Z.shiftr_spec by lia. f_equal. lia.
Qed.

Lemma byte_range x : 0 <= Z.land x 0xff < 256.
Proof. change 0xff with (Z.ones 8). rewrite Z.land_ones by lia. apply Z.mod_pos_bound. lia. Qed.

Lemma byte_zero v n :
  0 <= n -> zero_below v n -> Z.land (Z.shiftr v n) 0xff = 0 -> zero_below v (n + 8).
Proof.
  intros Hn Hz Hb j Hj. destruct (Z.lt_ge_cases j n); [apply Hz; lia|].
  replace j with (n + (j - n)) by lia. rewrite <- byte_of, Hb by lia. apply Z.bits_0.
Qed.

Lemma byte_scan v n :
  0 <= n -> zero_below v n -> Z.land (Z.shiftr v n) 0xff <> 0 ->
  exists k, rd __lowest_bit_bitmap (Z.land (Z.shiftr v n) 0xff) = Some k /\ k < 8 /\
            lowest_bit v (n + k).
Proof.
  intros Hn Hz Hb. pose proof (byte_range (Z.shiftr v n)).
  destruct (bitmap_table (Z.land (Z.shiftr v n) 0xff)) as (k & Hk & Hk8 & H0 & H1 & H2); [lia|].
  exists k. split; [done|]. split; [done|]. split; [lia|]. split; [by rewrite <- byte_of|].
  intros j Hj. destruct (Z.lt_ge_cases j n); [apply Hz; lia|].
  replace j with (n + (j - n)) by lia. rewrite <- byte_of by lia. apply H2. lia.
Qed.

Lemma s32_testbit v j : 0 <= j < 32 -> Z.testbit (s32 v) j = Z.testbit v j.
Proof.
  intros Hj. rewrite <- (Z.mod_pow2_bits_low (s32 v) 32 j), <- (Z.mod_pow2_bits_low v 32 j) by lia.
  f_equal. unfold swrap. rewrite Zminus_mod_idemp_l. f_equal. lia.
Qed.

Lemma shifted_byte v n m :
  0 <= n -> Z.shiftr m n = 0xff -> Z.shiftr (Z.land v m) n = Z.land (Z.shiftr v n) 0xff.
Proof. intros Hn E. by rewrite Z.shiftr_land, E. Qed.

Lemma masked_zero v n :
  0 <= n -> (Z.land v (Z.shiftl 0xff n) = 0 <-> Z.land (Z.shiftr v n) 0xff = 0).
Proof.
  intros Hn. split; intros H.
  - rewrite <- (shifted_byte v n (Z.shiftl 0xff n)), H, Z.shiftr_0_l; [done|done|].
    by rewrite Z.shiftr_shiftl_l, Z.sub_diag, Z.shiftl_0_r by lia.
  - apply Z.bits_inj_0. intros j. rewrite Z.land_spec.
    destruct (Z.lt_ge_cases j 0); [by rewrite !Z.testbit_neg_r by lia|].
    rewrite Z.shiftl_spec by lia. destruct (Z.lt_ge_cases j n).
    { rewrite (Z.testbit_neg_r 0xff) by lia. apply andb_false_r. }
    change 0xff with (Z.ones 8). destruct (Z.lt_ge_cases (j - n) 8).
    + rewrite <- (Z.bits_0 (j - n)), <- H, byte_of by lia. rewrite Z.ones_spec_low, andb_true_r by lia.
      f_equal. lia.
    + rewrite Z.ones_spec_high by lia. apply andb_false_r.
Qed.

Lemma rt_ffs_spec v :
  is_u32 v ->
  if decide (v = 0) then __rt_ffs (s32 v) = Some 0
  else exists k, __rt_ffs (s32 v) = Some (k + 1) /\ k < 32 /\ lowest_bit v k.
Proof.
  intros Hv. case_decide as E0; [by subst|].
  assert (forall k, 0 <= k < 32 -> lowest_bit (s32 v) k -> lowest_bit v k) as Hlow.
  { intros k Hk (H0 & H1 & H2). split; [done|]. rewrite s32_testbit in H1 by lia. split; [done|].
    intros j Hj. rewrite <- s32_testbit by lia. auto. }
  assert (~ zero_below (s32 v) 32) as Hnz.
  { intros Hz. apply E0, Z.bits_inj_0. intros j. destruct (Z.lt_ge_cases j 0); [by rewrite Z.testbit_neg_r|].
    destruct (Z.lt_ge_cases j 32); [rewrite <- s32_testbit by lia; by apply Hz|].
    rewrite <- (Z.mod_small v (2 ^ 32)) by c_lia. apply Z.mod_pow2_bits_high. lia. }
  revert Hlow Hnz. generalize (s32 v) as w. intros w Hlow Hnz. clear Hv E0.
  unfold __rt_ffs.
  destruct (Z.eqb_spec w 0) as [->|_]; [exfalso; apply Hnz; intros j _; apply Z.bits_0|].
  assert (zero_below w 0) as Z0 by (intros j Hj; lia).
  pose proof (masked_zero w 0 ltac:(lia)) as M0. pose proof (masked_zero w 8 ltac:(lia)) as M1.
  pose proof (masked_zero w 16 ltac:(lia)) as M2. simpl Z.shiftl in M0, M1, M2.
  rewrite (shifted_byte w 8), (shifted_byte w 16), (shifted_byte w 24) by (lia || reflexivity).
  destruct (Z.eqb_spec (Z.land w 0xff) 0) as [B0|B0]; simpl negb; cbv iota.
  2: { destruct (byte_scan w 0) as (k & Hk & H8 & Hl); [lia|done|tauto|].
       rewrite Z.shiftr_0_r in Hk. rewrite Hk. exists k. split; [done|]. split; [lia|].
       apply Hlow; [destruct Hl; lia|done]. }
  pose proof (byte_zero w 0 ltac:(lia) Z0 ltac:(tauto)) as Z1.
  destruct (Z.eqb_spec (Z.land w 0xff00) 0) as [B1|B1]; simpl negb; cbv iota.
  2: { destruct (byte_scan w 8) as (k & Hk & H8 & Hl); [lia|done|tauto|].
       rewrite Hk. exists (8 + k). split; [simpl; f_equal; lia|]. split; [lia|].
       apply Hlow; [destruct Hl; lia|done]. }
  pose proof (byte_zero w 8 ltac:(lia) Z1 ltac:(tauto)) as Z2.
  destruct (Z.eqb_spec (Z.land w 0xff0000) 0) as [B2|B2]; simpl negb; cbv iota.
  2: { destruct (byte_scan w 16) as (k & Hk & H8 & Hl); [lia|done|tauto|].
       rewrite Hk. exists (16 + k). split; [simpl; f_equal; lia|]. split; [lia|].
       apply Hlow; [destruct Hl; lia|done]. }
  pose proof (byte_zero w 16 ltac:(lia) Z2 ltac:(tauto)) as Z3.
  destruct (byte_scan w 24) as (k & Hk & H8 & Hl); [lia|done| |].
  { intros B3. apply Hnz. exact (byte_zero w 24 ltac:(lia) Z3 B3). }
  rewrite Hk. exists (24 + k). split; [simpl; f_equal; lia|]. split; [lia|].
  apply Hlow; [destruct Hl; lia|done].
Qed.

(** ** The invariant of the ready queues *)

(** The nodes of list [l], none when the head is not initialised. *)
Definition members (s : sched) (l : lhead) : list oid := default [] (tlists s !! l).

Definition inl_ (s : sched) (l : lhead) (t : oid) : Prop := t ∈ members s l.

(** The priority attributes of a thread that has been started. *)
Definition prio_ok (th : rt_thread) : Prop :=
  0 <= current_priority th < RT_THREAD_PRIORITY_MAX /\
  number_mask th = 2 ^ current_priority th.

(** What a thread on list [l] looks like. *)
Definition fits (l : lhead) (th : rt_thread) : Prop :=
  match l with
  | LReady p => stat_of th = RT_THREAD_READY /\ current_priority th = p
  | LDefunct => stat_of th = RT_THREAD_CLOSE
  | LSusp _ | LSender _ => stat_of th = RT_THREAD_SUSPEND
  end.

Definition thread_ok (s : sched) (t : oid) (th : rt_thread) : Prop :=
  (forall l, inl_ s l t -> fits l th) /\
  (stat_of th = RT_THREAD_READY -> inl_ s (LReady (current_priority th)) t) /\
  (stat_of th = RT_THREAD_RUNNING -> rt_current_thread s = Some t) /\
  (rt_current_thread s = Some t ->
     stat_of th <> RT_THREAD_READY /\ stat_of th <> RT_THREAD_INIT) /\
  (stat_of th <> RT_THREAD_INIT -> stat_of th <> RT_THREAD_CLOSE -> prio_ok th).

(** The structure of the lists: every row of the table and the defunct list
    exist, no node is on two lists or twice on one, every node is a thread, and
    the bitmap has the bit of exactly the priorities with a ready thread. *)
Record lists_ok (s : sched) : Prop := {
  lo_rows : forall p, 0 <= p < RT_THREAD_PRIORITY_MAX -> is_Some (tlists s !! LReady p);
  lo_only_rows : forall p, is_Some (tlists s !! LReady p) -> 0 <= p < RT_THREAD_PRIORITY_MAX;
  lo_defunct : is_Some (tlists s !! LDefunct);
  lo_nodup : forall l, NoDup (members s l);
  lo_once : forall l l' t, inl_ s l t -> inl_ s l' t -> l = l';
  lo_threads : forall l t, inl_ s l t -> is_Some (threads s !! t);
  lo_current : forall t, rt_current_thread s = Some t -> is_Some (threads s !! t);
  lo_group : is_u32 (rt_thread_ready_priority_group s);
  lo_bits : forall p, 0 <= p < RT_THREAD_PRIORITY_MAX ->
    Z.testbit (rt_thread_ready_priority_group s) p = bool_decide (members s (LReady p) <> [])
}.

(** [inv_but P s]: the invariant, for the threads that do not satisfy [P];
    [sched_inv] is the invariant of every thread. *)
Definition inv_but (P : oid -> Prop) (s : sched) : Prop :=
  lists_ok s /\ forall t th, threads s !! t = Some th -> ~ P t -> thread_ok s t th.

Definition sched_inv (s : sched) : Prop := inv_but (fun _ => False) s.

(** ** Status words *)

Lemma stat_of_with_stat x th :
  Z.land x RT_THREAD_STAT_MASK = x -> stat_of (with_stat x th) = x.
Proof.
  intros Hx. unfold stat_of, with_stat, set_stat, uwrap; simpl.
  rewrite <- Z.land_ones by lia. rewrite <- Z.land_assoc.
  change (Z.land (Z.ones 8) RT_THREAD_STAT_MASK) with RT_THREAD_STAT_MASK.
  rewrite Z.land_lor_distr_l, Hx, <- Z.land_assoc.
  change (Z.land (Z.lnot RT_THREAD_STAT_MASK) RT_THREAD_STAT_MASK) with 0.
  by rewrite Z.land_0_r, Z.lor_0_r.
Qed.

Lemma stat_of_set_stat x th : stat_of (set_stat x th) = Z.land x RT_THREAD_STAT_MASK.
Proof. done. Qed.

Lemma stat_of_clear_yield th : stat_of (clear_yield th) = stat_of th.
Proof. unfold stat_of, clear_yield, set_stat; simpl. by rewrite <- Z.land_assoc. Qed.

(** Contradictory or obvious facts about status values. *)
Ltac stats :=
  unfold RT_THREAD_INIT, RT_THREAD_READY, RT_THREAD_SUSPEND, RT_THREAD_RUNNING,
    RT_THREAD_CLOSE in *; lia.

(** ** Symbolic execution *)

Lemma wp_get_thread t th s Q :
  threads s !! t = Some th -> Q th s -> wp (get_thread t) s Q.
Proof. intros H HQ. unfold get_thread. wp_steps. by eapply wp_deref. Qed.

Lemma wp_upd_thread t f th s (Q : unit -> sched -> Prop) :
  threads s !! t = Some th ->
  Q tt (set_threads (<[t := f th]> (threads s)) s) -> wp (upd_thread t f) s Q.
Proof. intros H HQ. unfold upd_thread. wp_step. eapply wp_get_thread; [done|]. by wp_steps. Qed.

Lemma wp_get_list l xs s Q :
  tlists s !! l = Some xs -> Q xs s -> wp (get_list l) s Q.
Proof. intros H HQ. unfold get_list. wp_steps. by eapply wp_deref. Qed.

(** The state after [rt_list_remove]. *)
Definition unlinked_st (t : oid) (s : sched) : sched :=
  set_tlists (filter (fun x => x <> t) <$> tlists s) s.

(** The state after a thread is linked at the end of a list. *)
Definition appended_st (l : lhead) (t : oid) (s : sched) : sched :=
  set_tlists (<[l := members s l ++ [t]]> (tlists s)) s.

Definition prepended_st (l : lhead) (t : oid) (s : sched) : sched :=
  set_tlists (<[l := t :: members s l]> (tlists s)) s.

Lemma attached_iff s t : attached s t <-> exists l, inl_ s l t.
Proof.
  unfold attached, inl_, members. split.
  - intros (l & xs & Hl & Ht). exists l. by rewrite Hl.
  - intros [l Hl]. destruct (tlists s !! l) as [xs|] eqn:E; [|by apply elem_of_nil in Hl].
    exists l, xs. done.
Qed.

Lemma wp_detached t s (Q : unit -> sched -> Prop) :
  ~ attached s t -> Q tt s -> wp (detached_or_fault t) s Q.
Proof.
  intros H HQ. unfold detached_or_fault. wp_steps.
  by rewrite bool_decide_false.
Qed.

Lemma wp_tlist_insert_before l t s (Q : unit -> sched -> Prop) :
  is_Some (tlists s !! l) -> ~ attached s t -> Q tt (appended_st l t s) ->
  wp (tlist_insert_before l t) s Q.
Proof.
  intros [xs Hl] Ha HQ. unfold tlist_insert_before. wp_step. apply wp_detached; [done|].
  wp_step. eapply wp_get_list; [done|]. unfold set_list. wp_steps.
  unfold appended_st, members in HQ. by rewrite Hl in HQ.
Qed.

Lemma wp_tlist_insert_after l t s (Q : unit -> sched -> Prop) :
  is_Some (tlists s !! l) -> ~ attached s t -> Q tt (prepended_st l t s) ->
  wp (tlist_insert_after l t) s Q.
Proof.
  intros [xs Hl] Ha HQ. unfold tlist_insert_after. wp_step. apply wp_detached; [done|].
  wp_step. eapply wp_get_list; [done|]. unfold set_list. wp_steps.
  unfold prepended_st, members in HQ. by rewrite Hl in HQ.
Qed.

Lemma wp_tlist_remove t s (Q : unit -> sched -> Prop) :
  Q tt (unlinked_st t s) -> wp (tlist_remove t) s Q.
Proof. done. Qed.

Lemma members_unlinked t s l :
  members (unlinked_st t s) l = filter (fun x => x <> t) (members s l).
Proof. unfold members, unlinked_st; simpl. rewrite lookup_fmap. by destruct (tlists s !! l). Qed.

Lemma inl_unlinked t s l x : inl_ (unlinked_st t s) l x <-> inl_ s l x /\ x <> t.
Proof. unfold inl_. rewrite members_unlinked, list_elem_of_filter. tauto. Qed.

Lemma members_appended l t s l' :
  members (appended_st l t s) l' = if decide (l' = l) then members s l ++ [t] else members s l'.
Proof.
  unfold members at 1, appended_st; simpl. case_decide as E.
  - subst. by rewrite lookup_insert_eq.
  - by rewrite lookup_insert_ne by done.
Qed.

Lemma members_prepended l t s l' :
  members (prepended_st l t s) l' = if decide (l' = l) then t :: members s l else members s l'.
Proof.
  unfold members at 1, prepended_st; simpl. case_decide as E.
  - subst. by rewrite lookup_insert_eq.
  - by rewrite lookup_insert_ne by done.
Qed.

(** ** Removal from the ready queue *)

Definition removed_st (t : oid) (th : rt_thread) (s : sched) : sched :=
  let s1 := unlinked_st t s in
  if bool_decide (members s1 (LReady (current_priority th)) = [])
  then set_rt_thread_ready_priority_group
         (Z.land (rt_thread_ready_priority_group s1) (Z.lnot (number_mask th))) s1
  else s1.

Lemma wp_schedule_remove_thread t th s (Q : unit -> sched -> Prop) :
  threads s !! t = Some th -> is_Some (tlists s !! LReady (current_priority th)) ->
  Q tt (removed_st t th s) -> wp (rt_schedule_remove_thread t) s Q.
Proof.
  intros Ht [xs Hl] HQ. unfold rt_schedule_remove_thread. wp_step. apply wp_tlist_remove.
  wp_step. eapply wp_get_thread; [done|]. wp_step.
  eapply (wp_get_list _ (members (unlinked_st t s) (LReady (current_priority th)))).
  { unfold members, unlinked_st; simpl. by rewrite lookup_fmap, Hl. }
  unfold removed_st in HQ. apply wp_when; intros E; rewrite E in HQ; [by wp_steps|done].
Qed.

Lemma removed_threads t th s : threads (removed_st t th s) = threads s.
Proof. unfold removed_st. by case_match. Qed.
Lemma removed_current t th s : rt_current_thread (removed_st t th s) = rt_current_thread s.
Proof. unfold removed_st. by case_match. Qed.
Lemma removed_nest t th s : rt_interrupt_nest (removed_st t th s) = rt_interrupt_nest s.
Proof. unfold removed_st. by case_match. Qed.
Lemma removed_switches t th s : hw_switches (removed_st t th s) = hw_switches s.
Proof. unfold removed_st. by case_match. Qed.
Lemma removed_tlists t th s : tlists (removed_st t th s) = tlists (unlinked_st t s).
Proof. unfold removed_st. by case_match. Qed.
Lemma removed_dom t th s l : is_Some (tlists (removed_st t th s) !! l) <-> is_Some (tlists s !! l).
Proof. rewrite removed_tlists; simpl. by rewrite lookup_fmap, fmap_is_Some. Qed.
Lemma removed_members t th s l :
  members (removed_st t th s) l = filter (fun x => x <> t) (members s l).
Proof. unfold members at 1. rewrite removed_tlists. apply members_unlinked. Qed.
Lemma removed_inl t th s l x : inl_ (removed_st t th s) l x <-> inl_ s l x /\ x <> t.
Proof. unfold inl_. rewrite removed_members, list_elem_of_filter. tauto. Qed.

Lemma removed_not_attached t th s : ~ attached (removed_st t th s) t.
Proof. rewrite attached_iff. intros [l Hl]. by apply removed_inl in Hl as [_ ?]. Qed.

Lemma mask_clear_bit g p q :
  0 <= p -> 0 <= q -> Z.testbit (Z.land g (Z.lnot (2 ^ p))) q = Z.testbit g q && negb (p =? q).
Proof. intros. by rewrite Z.land_spec, Z.lnot_spec, Z.pow2_bits_eqb by lia. Qed.

Lemma mask_set_bit g p q :
  0 <= p -> 0 <= q -> Z.testbit (Z.lor g (2 ^ p)) q = Z.testbit g q || (p =? q).
Proof. intros. by rewrite Z.lor_spec, Z.pow2_bits_eqb by lia. Qed.

Lemma u32_bits g : is_u32 g <-> 0 <= g /\ forall q, 32 <= q -> Z.testbit g q = false.
Proof.
  split.
  - intros Hg. split; [c_lia|]. intros q Hq. destruct (Z.eq_dec g 0) as [->|]; [apply Z.bits_0|].
    apply Z.bits_above_log2; [c_lia|]. apply Z.lt_le_trans with 32; [|done].
    apply Z.log2_lt_pow2; c_lia.
  - intros [H0 Hb]. split; [done|]. destruct (Z.eq_dec g 0) as [->|]; [done|].
    apply Z.log2_lt_pow2; [lia|]. destruct (Z.lt_ge_cases (Z.log2 g) 32) as [|H]; [done|].
    specialize (Hb _ H). rewrite Z.bit_log2 in Hb by lia. done.
Qed.

Lemma mask_clear_u32 g m : is_u32 g -> is_u32 (Z.land g (Z.lnot m)).
Proof.
  rewrite !u32_bits. intros [H0 Hb]. split; [by apply Z.land_nonneg; left|].
  intros q Hq. by rewrite Z.land_spec, Hb.
Qed.

Lemma mask_set_u32 g p : is_u32 g -> 0 <= p < 32 -> is_u32 (Z.lor g (2 ^ p)).
Proof.
  rewrite !u32_bits. intros [H0 Hb] Hp. split; [apply Z.lor_nonneg; split; [done|apply Z.pow_nonneg; lia]|].
  intros q Hq. rewrite mask_set_bit, Hb by lia. simpl. lia.
Qed.

Lemma removed_bits t th s p :
  lists_ok s -> prio_ok th -> (forall q, inl_ s (LReady q) t -> q = current_priority th) ->
  0 <= p < RT_THREAD_PRIORITY_MAX ->
  Z.testbit (rt_thread_ready_priority_group (removed_st t th s)) p =
  bool_decide (members (removed_st t th s) (LReady p) <> []).
Proof.
  intros Hs [Hp Hm] Hq Hp'. rewrite removed_members.
  unfold removed_st. rewrite members_unlinked.
  destruct (decide (p = current_priority th)) as [->|Hne].
  - case_bool_decide as E; simpl.
    + rewrite Hm, mask_clear_bit, Z.eqb_refl, andb_false_r by lia. by rewrite E, bool_decide_false by tauto.
    + rewrite (lo_bits s Hs) by done. apply bool_decide_ext. split; [done|]. intros _ Hn. by rewrite Hn in E.
  - rewrite (filter_ne_id t (members s (LReady p))) by (intros Hin; by apply Hne, Hq).
    case_bool_decide; simpl; [|by apply (lo_bits s Hs)]. rewrite Hm, mask_clear_bit by lia.
    rewrite (lo_bits s Hs), (proj2 (Z.eqb_neq _ _)) by (done || congruence). apply andb_true_r.
Qed.

Lemma removed_lists_ok t th s :
  lists_ok s -> prio_ok th -> (forall q, inl_ s (LReady q) t -> q = current_priority th) ->
  lists_ok (removed_st t th s).
Proof.
  intros Hs Hp Hq. split.
  - intros p H. rewrite removed_tlists; simpl. rewrite lookup_fmap, fmap_is_Some. by apply (lo_rows s).
  - intros p. rewrite removed_tlists; simpl. rewrite lookup_fmap, fmap_is_Some. by apply (lo_only_rows s).
  - rewrite removed_tlists; simpl. rewrite lookup_fmap, fmap_is_Some. by apply (lo_defunct s).
  - intros l. rewrite removed_members. by apply NoDup_filter, (lo_nodup s).
  - intros l l' x [H1 _]%removed_inl [H2 _]%removed_inl. by eapply (lo_once s).
  - intros l x [H _]%removed_inl. rewrite removed_threads. by eapply (lo_threads s).
  - intros x. rewrite removed_current, removed_threads. by apply (lo_current s).
  - unfold removed_st. case_match; simpl; [apply mask_clear_u32|]; apply (lo_group s Hs).
  - intros p. by apply removed_bits.
Qed.

Lemma inv_but_removed P t th s :
  inv_but P s -> threads s !! t = Some th -> prio_ok th ->
  (forall q, inl_ s (LReady q) t -> q = current_priority th) ->
  inv_but (fun x => P x \/ x = t) (removed_st t th s).
Proof.
  intros [Hs Hi] Ht Hp Hq. split; [by apply removed_lists_ok|].
  intros x xh. rewrite removed_threads. intros Hx HP.
  destruct (Hi x xh Hx ltac:(tauto)) as (H1 & H2 & H3 & H4 & H5).
  split_and!; [| |by rewrite removed_current|by rewrite removed_current|done].
  - intros l [Hl _]%removed_inl. by apply H1.
  - intros E. apply removed_inl. split; [by apply H2|tauto].
Qed.

(** ** Changes to a thread that is on no list *)

Lemma inv_but_upd P t th th' s :
  inv_but P s -> threads s !! t = Some th -> P t ->
  inv_but P (set_threads (<[t := th']> (threads s)) s).
Proof.
  intros [Hs Hi] Ht HP. split.
  - destruct Hs. split; try done; simpl; intros.
    + apply lookup_insert_is_Some'. right. eauto.
    + apply lookup_insert_is_Some'. right. eauto.
  - intros x xh Hx Hn. simpl in Hx. rewrite lookup_insert_ne in Hx by naive_solver.
    exact (Hi x xh Hx Hn).
Qed.

Lemma inv_but_mono (P P' : oid -> Prop) s :
  inv_but P s -> (forall x, P x -> P' x) -> inv_but P' s.
Proof. intros [Hs Hi] H. split; [done|]. intros x xh Hx Hn. apply Hi; auto. Qed.

(** A thread that satisfies its part of the invariant need not be excepted. *)
Lemma inv_but_close (P P' : oid -> Prop) t th s :
  inv_but P s -> threads s !! t = Some th -> thread_ok s t th ->
  (forall x, P x -> P' x \/ x = t) -> inv_but P' s.
Proof.
  intros [Hs Hi] Ht Hok HP. split; [done|]. intros x xh Hx Hn.
  destruct (decide (x = t)) as [->|]; [by simplify_eq|]. apply Hi; [done|]. intros Hp.
  by destruct (HP x Hp).
Qed.

(** ** Insertion into the ready queue *)

Definition readied_st (t : oid) (th : rt_thread) (s : sched) : sched :=
  let s1 := set_threads (<[t := with_stat RT_THREAD_READY th]> (threads s)) s in
  let s2 := appended_st (LReady (current_priority th)) t s1 in
  set_rt_thread_ready_priority_group
    (Z.lor (rt_thread_ready_priority_group s) (number_mask th)) s2.

Lemma wp_schedule_insert_thread t th s (Q : unit -> sched -> Prop) :
  threads s !! t = Some th -> rt_current_thread s <> Some t ->
  is_Some (tlists s !! LReady (current_priority th)) -> ~ attached s t ->
  Q tt (readied_st t th s) -> wp (rt_schedule_insert_thread t) s Q.
Proof.
  intros Ht Hc Hl Ha HQ. unfold rt_schedule_insert_thread. wp_steps.
  rewrite bool_decide_false by done. wp_step. eapply wp_upd_thread; [done|].
  wp_step. eapply wp_get_thread; [apply lookup_insert_eq|].
  wp_step. apply wp_tlist_insert_before; [done|done|]. by wp_steps.
Qed.

Lemma wp_schedule_insert_current t th s (Q : unit -> sched -> Prop) :
  threads s !! t = Some th -> rt_current_thread s = Some t ->
  Q tt (set_threads (<[t := with_stat RT_THREAD_RUNNING th]> (threads s)) s) ->
  wp (rt_schedule_insert_thread t) s Q.
Proof.
  intros Ht Hc HQ. unfold rt_schedule_insert_thread. wp_steps.
  rewrite bool_decide_true by done. by eapply wp_upd_thread.
Qed.

Lemma readied_members t th s l :
  members (readied_st t th s) l =
  if decide (l = LReady (current_priority th)) then members s l ++ [t] else members s l.
Proof.
  unfold readied_st. etransitivity; [apply members_appended|]. case_decide as E; [by subst|done].
Qed.

Lemma readied_inl t th s l x :
  inl_ (readied_st t th s) l x <->
  inl_ s l x \/ (x = t /\ l = LReady (current_priority th)).
Proof.
  unfold inl_. rewrite readied_members. case_decide as E.
  - subst. rewrite elem_of_app, list_elem_of_singleton. tauto.
  - tauto.
Qed.

Lemma readied_lists_ok t th s :
  lists_ok s -> threads s !! t = Some th -> prio_ok th -> ~ attached s t ->
  lists_ok (readied_st t th s).
Proof.
  intros Hs Ht [Hp Hm] Ha. rewrite attached_iff in Ha.
  assert (is_Some (tlists s !! LReady (current_priority th))) as Hrow by by apply (lo_rows s).
  split.
  - intros p H. simpl. apply lookup_insert_is_Some'. right. by apply (lo_rows s).
  - intros p. simpl. rewrite lookup_insert_is_Some'. intros [[= <-]|H]; [done|by apply (lo_only_rows s)].
  - simpl. apply lookup_insert_is_Some'. right. by apply (lo_defunct s).
  - intros l. rewrite readied_members. pose proof (lo_nodup s Hs l). case_decide; [|done].
    apply NoDup_app. split_and!; [done| |apply NoDup_singleton].
    intros x Hx ->%list_elem_of_singleton. apply Ha. by exists l.
  - intros l l' x [H1|[-> ->]]%readied_inl [H2|[E ->]]%readied_inl; subst; [by eapply (lo_once s)|..];
      try done; exfalso; apply Ha; eauto.
  - intros l x Hx. simpl. apply lookup_insert_is_Some'.
    apply readied_inl in Hx as [Hx|[-> _]]; [right; by eapply (lo_threads s)|by left].
  - intros x Hx. simpl in *. apply lookup_insert_is_Some'. right. by apply (lo_current s).
  - simpl. rewrite Hm. apply mask_set_u32; [apply (lo_group s Hs)|done].
  - intros p H. rewrite readied_members. simpl. rewrite Hm, mask_set_bit, (lo_bits s Hs p H) by lia.
    case_decide as E.
    + injection E as ->. rewrite Z.eqb_refl, orb_true_r. symmetry. apply bool_decide_eq_true.
      by destruct (members s (LReady (current_priority th))).
    + rewrite (proj2 (Z.eqb_neq _ _)) by congruence. apply orb_false_r.
Qed.

Lemma inv_but_readied (P P' : oid -> Prop) t th s :
  inv_but P s -> threads s !! t = Some th -> prio_ok th -> ~ attached s t ->
  rt_current_thread s <> Some t ->
  (forall x, P x -> P' x \/ x = t) ->
  inv_but P' (readied_st t th s).
Proof.
  intros [Hs Hi] Ht Hp Ha Hc HP. split; [by apply readied_lists_ok|].
  rewrite attached_iff in Ha. intros x xh Hx Hn. simpl in Hx.
  destruct (decide (x = t)) as [->|Hxt].
  - rewrite lookup_insert_eq in Hx. injection Hx as <-.
    assert (stat_of (with_stat RT_THREAD_READY th) = RT_THREAD_READY) as E by by apply stat_of_with_stat.
    unfold thread_ok. rewrite E. split_and!; [| |done|done|done].
    + intros l [Hl|[_ ->]]%readied_inl; [exfalso; by apply Ha; exists l|done].
    + intros _. apply readied_inl. by right.
  - rewrite lookup_insert_ne in Hx by done.
    destruct (Hi x xh Hx) as (H1 & H2 & H3 & H4 & H5); [intros Hpx; by destruct (HP x Hpx)|].
    split_and!; [| |done|done|done].
    + intros l [Hl|[-> _]]%readied_inl; [by apply H1|done].
    + intros E. apply readied_inl. left. by apply H2.
Qed.

(** ** Choosing the next thread *)

(** [t] is the first thread of the best non-empty ready queue. *)
Definition top_ready (s : sched) (t : oid) (p : Z) (rest : list oid) : Prop :=
  0 <= p < RT_THREAD_PRIORITY_MAX /\ members s (LReady p) = t :: rest /\
  forall q, 0 <= q < p -> members s (LReady q) = [].

Lemma wp_get_highest s (Q : oid * Z -> sched -> Prop) :
  lists_ok s -> rt_thread_ready_priority_group s <> 0 ->
  (forall t p rest, top_ready s t p rest -> Q (t, p) s) ->
  wp _get_highest_priority_thread s Q.
Proof.
  intros Hs Hg HQ. unfold _get_highest_priority_thread. wp_steps.
  pose proof (rt_ffs_spec _ (lo_group s Hs)) as Hf. case_decide; [done|].
  destruct Hf as (k & Hk & Hk32 & H0 & H1 & H2). eapply wp_deref; [done|].
  replace (u32 (k + 1 - 1)) with k by (rewrite uwrap_small by c_lia; lia).
  assert (0 <= k < RT_THREAD_PRIORITY_MAX) as Hp by (unfold RT_THREAD_PRIORITY_MAX; lia).
  rewrite (lo_bits s Hs k Hp), bool_decide_eq_true in H1.
  destruct (lo_rows s Hs k Hp) as [xs Hxs]. wp_step. eapply wp_get_list; [done|].
  assert (members s (LReady k) = xs) as E by (unfold members; by rewrite Hxs).
  rewrite E in H1. destruct xs as [|t rest]; [done|].
  wp_step. eapply wp_deref; [done|]. wp_steps. apply (HQ t k rest). split_and!; [lia|lia|done|].
  intros q Hq. specialize (H2 q Hq).
  rewrite (lo_bits s Hs q ltac:(unfold RT_THREAD_PRIORITY_MAX in *; lia)), bool_decide_eq_false in H2.
  by apply dec_stable.
Qed.

Lemma group_zero s :
  lists_ok s -> rt_thread_ready_priority_group s = 0 ->
  forall p, 0 <= p < RT_THREAD_PRIORITY_MAX -> members s (LReady p) = [].
Proof.
  intros Hs Hg p Hp. pose proof (lo_bits s Hs p Hp) as Hb. rewrite Hg, Z.bits_0 in Hb.
  symmetry in Hb. apply bool_decide_eq_false in Hb. by apply dec_stable.
Qed.

(** Making another thread current, when the invariant does not constrain the
    old and the new one. *)
Lemma inv_but_current (P : oid -> Prop) t s :
  inv_but P s -> is_Some (threads s !! t) -> P t ->
  (forall c, rt_current_thread s = Some c -> P c) ->
  inv_but P (set_rt_current_thread (Some t) s).
Proof.
  intros [Hs Hi] Ht HP Hc. split.
  - destruct Hs. split; try done. intros x [= <-]. done.
  - intros x xh Hx Hn. destruct (Hi x xh Hx Hn) as (H1 & H2 & H3 & H4 & H5).
    split_and!; [done|done| | |done].
    + intros E. exfalso. by apply Hn, Hc, H3.
    + intros [= ->]. done.
Qed.

Lemma current_not_attached c th s :
  thread_ok s c th -> rt_current_thread s = Some c -> stat_of th = RT_THREAD_RUNNING -> ~ attached s c.
Proof.
  intros (H1 & _) _ E Ha. apply attached_iff in Ha as [l Hl]. specialize (H1 l Hl).
  destruct l; simpl in H1; stats.
Qed.

(** The invariant only reads the threads, the lists, the bitmap and the
    current thread. *)
Lemma inv_but_ext P s s' :
  inv_but P s -> threads s' = threads s -> tlists s' = tlists s ->
  rt_thread_ready_priority_group s' = rt_thread_ready_priority_group s ->
  rt_current_thread s' = rt_current_thread s -> inv_but P s'.
Proof.
  destruct s, s'; simpl. intros H -> -> -> ->. destruct H as [Hs Hi]. split; [|done].
  destruct Hs. by split.
Qed.

Lemma top_ready_thread s t p rest :
  sched_inv s -> top_ready s t p rest ->
  exists th, threads s !! t = Some th /\ stat_of th = RT_THREAD_READY /\
             current_priority th = p /\ prio_ok th.
Proof.
  intros [Hs Hi] (Hp & Hm & _).
  assert (inl_ s (LReady p) t) as Hin by (unfold inl_; rewrite Hm; set_solver).
  destruct (lo_threads s Hs _ _ Hin) as [th Hth]. exists th. split; [done|].
  destruct (Hi t th Hth) as (H1 & _ & _ & _ & H5); [tauto|].
  destruct (H1 _ Hin) as [E1 E2]. split_and!; [done|done|apply H5; stats].
Qed.

(** The step that puts the running thread back into its ready queue. *)
Lemma requeue_spec (need : bool) c ch t s (Q : unit -> sched -> Prop) :
  sched_inv s -> rt_current_thread s = Some c -> c <> t -> is_Some (threads s !! t) ->
  threads s !! c = Some ch -> need = bool_decide (stat_of ch = RT_THREAD_RUNNING) ->
  (forall s', inv_but (fun x => x = t) s' -> rt_current_thread s' = Some t ->
     (forall l, members s' l =
        if bool_decide (need = true /\ l = LReady (current_priority ch))
        then members s l ++ [c] else members s l) ->
     hw_switches s' = hw_switches s -> rt_interrupt_nest s' = rt_interrupt_nest s ->
     threads s' = (if need then <[c := with_stat RT_THREAD_READY ch]> (threads s) else threads s) ->
     (forall l, is_Some (tlists s' !! l) <-> is_Some (tlists s !! l)) ->
     Q tt s') ->
  wp (when need (rt_schedule_insert_thread c)) (set_rt_current_thread (Some t) s) Q.
Proof.
  intros Hinv Hc Hne Ht Hch -> HQ. pose proof Hinv as [Hs Hi].
  pose proof (Hi c ch Hch ltac:(tauto)) as Hok. pose proof Hok as (H1 & H2 & H3 & H4 & H5).
  assert (inv_but (fun x => x = c \/ x = t) (set_rt_current_thread (Some t) s)) as Hinv1.
  { apply inv_but_current; [by eapply inv_but_mono|done|by right|]. intros x Hx. left. congruence. }
  apply wp_when; intros E; rewrite E in HQ.
  - apply bool_decide_eq_true in E.
    assert (prio_ok ch) as Hpr by (apply H5; stats).
    assert (~ attached (set_rt_current_thread (Some t) s) c) as Hna by by apply (current_not_attached c ch s).
    eapply wp_schedule_insert_thread; [done|by intros [= ]|by apply (lo_rows s Hs), Hpr|done|].
    apply HQ; try done.
    + eapply inv_but_readied; [done|done|done|done|by intros [= ]|naive_solver].
    + intros l. rewrite readied_members. destruct (decide (l = LReady (current_priority ch))) as [E1|E1]; [by rewrite bool_decide_true by done|].
      by rewrite bool_decide_false by naive_solver.
    + intros l. simpl. rewrite lookup_insert_is_Some'. split; [|tauto].
      intros [<-|Hl]; [by apply (lo_rows s Hs), Hpr|done].
  - apply bool_decide_eq_false in E. apply HQ; try done.
    eapply (inv_but_close _ _ c); [done|done| |naive_solver].
    destruct (H4 Hc). split_and!; [done|done|done|by intros [= ]|done].
Qed.

(** The part of [rt_schedule] that switches from [c] to the ready thread [t]. *)
Lemma switch_spec (need : bool) c ch t p rest s (Q : unit -> sched -> Prop) :
  sched_inv s -> rt_current_thread s = Some c -> top_ready s t p rest ->
  threads s !! c = Some ch -> need = bool_decide (stat_of ch = RT_THREAD_RUNNING) -> c <> t ->
  (forall s', sched_inv s' -> rt_current_thread s' = Some t ->
     (forall l, members s' l =
        if bool_decide (need = true /\ l = LReady (current_priority ch))
        then filter (fun x => x <> t) (members s l) ++ [c]
        else filter (fun x => x <> t) (members s l)) ->
     hw_switches s' =
       (if rt_interrupt_nest s =? 0 then Switch c t else Switch_interrupt c t) :: hw_switches s ->
     (forall x, threads s' !! x =
        (fun xh => if decide (x = t) then with_stat RT_THREAD_RUNNING xh
                   else if decide (x = c /\ need = true) then with_stat RT_THREAD_READY xh
                   else xh) <$> threads s !! x) ->
     (forall l, is_Some (tlists s' !! l) <-> is_Some (tlists s !! l)) ->
     Q tt s') ->
  wp (modify (set_rt_current_priority (u8 p));;
      modify (set_rt_current_thread (Some t));;
      when need (rt_schedule_insert_thread c);;
      rt_schedule_remove_thread t;;
      upd_thread t (with_stat RT_THREAD_RUNNING);;
      nest ← gets rt_interrupt_nest;
      if nest =? 0 then log_switch (Switch c t)
      else log_switch (Switch_interrupt c t)) s Q.
Proof.
  intros Hinv Hc Htop Hch Hneed Hne HQ.
  destruct (top_ready_thread _ _ _ _ Hinv Htop) as (th & Hth & Est & Epr & Hpr).
  destruct Htop as (Hp & Hm & _).
  wp_step. wp_step. wp_step. wp_step. wp_step.
  apply (requeue_spec need c ch t); [by apply (inv_but_ext _ s)|done|done|done|done|done|].
  intros s2 Hinv2 Hc2 Hm2 Hhw Hnest Hth2 Hdom2.
  assert (threads s2 !! t = Some th) as Ht2.
  { rewrite Hth2. destruct need; [by rewrite lookup_insert_ne|done]. }
  assert (forall l, inl_ s2 l t -> l = LReady p) as Hl2.
  { intros l. unfold inl_. rewrite Hm2. intros Hin. destruct Hinv as [Hs _].
    apply (lo_once s Hs l (LReady p) t); unfold inl_; [|rewrite Hm; set_solver].
    change (members (set_rt_current_priority (u8 p) s)) with (members s) in Hin.
    case_bool_decide; [set_solver|done]. }
  wp_step. eapply wp_schedule_remove_thread; [done| |].
  { destruct Hinv2 as [Hs2 _]. apply (lo_rows s2 Hs2). by rewrite Epr. }
  wp_step. eapply wp_upd_thread; [by rewrite removed_threads|]. wp_steps.
  assert (inv_but (fun x => x = t) (removed_st t th s2)) as Hinv3.
  { eapply inv_but_mono; [eapply inv_but_removed; [done|done|done|]|naive_solver].
    intros q Hq. apply Hl2 in Hq. congruence. }
  assert (sched_inv (set_threads (<[t:=with_stat RT_THREAD_RUNNING th]> (threads (removed_st t th s2)))
                     (removed_st t th s2))) as Hinv4.
  { eapply (inv_but_close _ _ t);
      [eapply inv_but_upd; [done|by rewrite removed_threads|done]|apply lookup_insert_eq| |naive_solver].
    assert (stat_of (with_stat RT_THREAD_RUNNING th) = RT_THREAD_RUNNING) as E by by apply stat_of_with_stat.
    unfold thread_ok. rewrite E. cbn. rewrite removed_current.
    split_and!; [|stats|done|stats|done].
    intros l Hl. exfalso. apply (removed_not_attached t th s2), attached_iff. by exists l. }
  assert (forall l, members (removed_st t th s2) l =
        if bool_decide (need = true /\ l = LReady (current_priority ch))
        then filter (fun x => x <> t) (members s l) ++ [c]
        else filter (fun x => x <> t) (members s l)) as Hmem.
  { intros l. rewrite removed_members, Hm2. change (members (set_rt_current_priority _ s) l) with (members s l).
    destruct (decide (need = true /\ l = LReady (current_priority ch)));
      [rewrite !bool_decide_true by done|by rewrite !bool_decide_false by done].
    by rewrite filter_app, (filter_ne_id t [c]) by set_solver. }
  assert (rt_interrupt_nest (removed_st t th s2) = rt_interrupt_nest s /\
          hw_switches (removed_st t th s2) = hw_switches s) as [Hn3 Hh3].
  { by rewrite removed_nest, removed_switches, Hnest, Hhw. }
  apply wp_if; intros En; unfold log_switch; wp_steps; cbn in En; rewrite Hn3 in En; rewrite En in HQ;
    (apply HQ; [by eapply (inv_but_ext _ _ _ Hinv4)|by cbn; rewrite removed_current|exact Hmem
               |by cbn; rewrite Hh3| |intros l; simpl; rewrite removed_dom; apply Hdom2]).
  all: intros x; simpl; rewrite removed_threads, Hth2; destruct (decide (x = t)) as [->|Hxt];
    [by rewrite lookup_insert_eq, Hth|rewrite lookup_insert_ne by done].
  all: destruct need, (decide (x = c)) as [->|]; rewrite ?lookup_insert_eq, ?lookup_insert_ne, ?Hch by done;
    try (destruct (threads s !! x) as [xh|] eqn:Ex; [|done]); simpl;
    by first [rewrite decide_True by done|rewrite decide_False by naive_solver].
Qed.


(** Fields the scheduler never writes. *)
Definition same_task (th th' : rt_thread) : Prop :=
  error th' = error th /\ current_priority th' = current_priority th /\
  number_mask th' = number_mask th /\ init_priority th' = init_priority th /\
  event_set th' = event_set th /\ event_info th' = event_info th /\
  init_tick th' = init_tick th /\ remaining_tick th' = remaining_tick th.

Lemma same_task_with_stat x th : same_task th (with_stat x th).
Proof. done. Qed.
Lemma same_task_clear_yield th : same_task th (clear_yield th).
Proof. done. Qed.
Lemma same_task_trans th1 th2 th3 : same_task th1 th2 -> same_task th2 th3 -> same_task th1 th3.
Proof. unfold same_task. intuition congruence. Qed.
Lemma same_task_refl th : same_task th th.
Proof. done. Qed.

(** A change to the fields of a thread the invariant does not look at. *)
Lemma sched_inv_upd_same P t th th' s :
  inv_but P s -> threads s !! t = Some th ->
  stat_of th' = stat_of th -> current_priority th' = current_priority th ->
  number_mask th' = number_mask th ->
  inv_but P (set_threads (<[t := th']> (threads s)) s).
Proof.
  intros [Hs Hi] Ht E1 E2 E3. split.
  - destruct Hs. split; try done; simpl; intros; apply lookup_insert_is_Some'; right; eauto.
  - intros x xh Hx Hn. simpl in Hx. destruct (decide (x = t)) as [->|].
    + rewrite lookup_insert_eq in Hx. injection Hx as <-. pose proof (Hi t th Ht Hn) as (H1 & H2 & H3 & H4 & H5).
      unfold thread_ok, prio_ok. rewrite E1, E2, E3. split_and!; auto.
      intros l Hl. specialize (H1 l Hl). destruct l; simpl in *; rewrite ?E1, ?E2; done.
    + rewrite lookup_insert_ne in Hx by done. exact (Hi x xh Hx Hn).
Qed.

(** The part of [rt_schedule] that lets the running thread continue. *)
Lemma keep_spec c ch s (Q : unit -> sched -> Prop) :
  sched_inv s -> rt_current_thread s = Some c -> threads s !! c = Some ch ->
  stat_of ch = RT_THREAD_RUNNING ->
  (forall s', sched_inv s' -> rt_current_thread s' = Some c ->
     (forall l, members s' l = members s l) -> hw_switches s' = hw_switches s ->
     threads s' = <[c := with_stat RT_THREAD_RUNNING ch]> (threads s) ->
     (forall l, is_Some (tlists s' !! l) <-> is_Some (tlists s !! l)) -> Q tt s') ->
  wp (rt_schedule_remove_thread c;; upd_thread c (with_stat RT_THREAD_RUNNING)) s Q.
Proof.
  intros Hinv Hc Hch Est HQ. pose proof Hinv as [Hs Hi].
  pose proof (Hi c ch Hch ltac:(tauto)) as Hok. pose proof Hok as (H1 & H2 & H3 & H4 & H5).
  assert (prio_ok ch) as Hpr by (apply H5; stats).
  pose proof (current_not_attached c ch s Hok Hc Est) as Hna. rewrite attached_iff in Hna.
  wp_step. eapply wp_schedule_remove_thread; [done|by apply (lo_rows s Hs), Hpr|].
  eapply wp_upd_thread; [by rewrite removed_threads|]. apply HQ.
  - eapply (inv_but_close (fun x => False \/ x = c) _ c).
    + eapply inv_but_upd; [|by rewrite removed_threads|by right].
      eapply inv_but_removed; [done|done|done|]. intros q Hq. exfalso. apply Hna. by exists (LReady q).
    + apply lookup_insert_eq.
    + assert (stat_of (with_stat RT_THREAD_RUNNING ch) = RT_THREAD_RUNNING) as E by by apply stat_of_with_stat.
      unfold thread_ok. rewrite E. simpl. rewrite removed_current. split_and!; [|stats|done|stats|done].
      intros l Hl. exfalso. apply (removed_not_attached c ch s), attached_iff. by exists l.
    + tauto.
  - simpl. by rewrite removed_current.
  - intros l. trans (members (removed_st c ch s) l); [done|]. rewrite removed_members.
    apply filter_ne_id. intros Hin. apply Hna. by exists l.
  - simpl. apply removed_switches.
  - simpl. by rewrite removed_threads.
  - intros l. apply removed_dom.
Qed.

(** [rt_schedule] does not touch the scheduler lock. *)
Lemma schedule_lock_nest : keeps rt_scheduler_lock_nest rt_schedule.
Proof.
  unfold rt_schedule, _get_highest_priority_thread, when, rt_schedule_insert_thread,
    rt_schedule_remove_thread, upd_thread, get_thread, get_list, set_list, tlist_insert_before,
    tlist_remove, log_switch.
  repeat first [keeps_step | progress unfold when, get_list, set_list, upd_thread, get_thread].
Qed.

(** What [rt_schedule] does, from the current thread [c]: nothing when the
    scheduler is locked or no thread is ready; otherwise it compares the
    running thread with the first thread of the best ready queue. *)
Record schedule_post (c : oid) (ch : rt_thread) (s s' : sched) : Prop := {
  sp_idle :
    rt_scheduler_lock_nest s <> 0 \/ rt_thread_ready_priority_group s = 0 -> s' = s;
  sp_choose :
    rt_scheduler_lock_nest s = 0 -> rt_thread_ready_priority_group s <> 0 ->
    exists t p rest, top_ready s t p rest /\ t <> c /\
      if bool_decide (schedule_choice c ch t p = (c, false)) then
        rt_current_thread s' = Some c /\ (forall l, members s' l = members s l) /\
        hw_switches s' = hw_switches s
      else
        rt_current_thread s' = Some t /\
        (forall l, members s' l =
           if bool_decide (stat_of ch = RT_THREAD_RUNNING /\ l = LReady (current_priority ch))
           then filter (fun x => x <> t) (members s l) ++ [c]
           else filter (fun x => x <> t) (members s l)) /\
        hw_switches s' =
          (if rt_interrupt_nest s =? 0 then Switch c t else Switch_interrupt c t) :: hw_switches s;
  sp_threads : forall x xh, threads s !! x = Some xh ->
    exists xh', threads s' !! x = Some xh' /\ same_task xh xh' /\
      (x <> c \/ stat_of xh <> RT_THREAD_RUNNING -> rt_current_thread s' <> Some x -> xh' = xh) /\
      (rt_scheduler_lock_nest s = 0 -> rt_thread_ready_priority_group s <> 0 ->
       rt_current_thread s' = Some x -> stat_of xh' = RT_THREAD_RUNNING);
  sp_dom : forall x, threads s !! x = None -> threads s' !! x = None;
  sp_lists : forall l, is_Some (tlists s' !! l) <-> is_Some (tlists s !! l)
}.

Lemma set_threads_id s : set_threads (threads s) s = s.
Proof. by destruct s. Qed.

Lemma schedule_choice_cases c ch t p :
  (schedule_choice c ch t p = (c, false) /\ stat_of ch = RT_THREAD_RUNNING) \/
  schedule_choice c ch t p = (t, bool_decide (stat_of ch = RT_THREAD_RUNNING)).
Proof.
  unfold schedule_choice. destruct (Z.eqb_spec (stat_of ch) RT_THREAD_RUNNING) as [E|E].
  - rewrite bool_decide_true by done. repeat case_match; tauto.
  - rewrite bool_decide_false by done. tauto.
Qed.

(** The yield request of the running thread is dropped first. *)
Definition unyield (ch : rt_thread) : rt_thread :=
  if stat_of ch =? RT_THREAD_RUNNING then clear_yield ch else ch.

Lemma unyield_same ch : stat_of (unyield ch) = stat_of ch /\ same_task ch (unyield ch).
Proof. unfold unyield. case_match; [|done]. by rewrite stat_of_clear_yield. Qed.

Definition unyield_st (c : oid) (ch : rt_thread) (s : sched) : sched :=
  set_threads (<[c := unyield ch]> (threads s)) s.

Lemma wp_unyield c ch s (Q : unit -> sched -> Prop) :
  threads s !! c = Some ch -> Q tt (unyield_st c ch s) ->
  wp (when (stat_of ch =? RT_THREAD_RUNNING) (upd_thread c clear_yield)) s Q.
Proof.
  intros Hc HQ. unfold unyield_st, unyield in HQ. apply wp_when; intros E; rewrite E in HQ.
  - by eapply wp_upd_thread.
  - by rewrite insert_id, set_threads_id in HQ.
Qed.

Lemma schedule_body_spec c ch t p rest s (Q : unit -> sched -> Prop) :
  sched_inv s -> rt_current_thread s = Some c -> threads s !! c = Some ch ->
  rt_scheduler_lock_nest s = 0 -> rt_thread_ready_priority_group s <> 0 ->
  top_ready s t p rest -> t <> c ->
  (forall s', sched_inv s' -> schedule_post c ch s s' -> Q tt s') ->
  wp (let '(to_thread, need_insert_from_thread) := schedule_choice c ch t p in
    when (stat_of ch =? RT_THREAD_RUNNING) (upd_thread c clear_yield);;
    if bool_decide (to_thread <> c) then
      modify (set_rt_current_priority (u8 p));;
      modify (set_rt_current_thread (Some to_thread));;
      when need_insert_from_thread (rt_schedule_insert_thread c);;
      rt_schedule_remove_thread to_thread;;
      upd_thread to_thread (with_stat RT_THREAD_RUNNING);;
      nest ← gets rt_interrupt_nest;
      if nest =? 0 then log_switch (Switch c to_thread)
      else log_switch (Switch_interrupt c to_thread)
    else
      rt_schedule_remove_thread c;;
      upd_thread c (with_stat RT_THREAD_RUNNING)) s Q.
Proof.
  intros Hinv Hc Hch Hlock Hgrp Htop Hne HQ.
  destruct (unyield_same ch) as [Est' Hsame].
  assert (sched_inv (unyield_st c ch s)) as Hinv0
    by (eapply sched_inv_upd_same; [done..|apply Hsame|apply Hsame]).
  assert (top_ready (unyield_st c ch s) t p rest) as Htop0 by done.
  assert (threads (unyield_st c ch s) !! c = Some (unyield ch)) as Hch0 by apply lookup_insert_eq.
  assert (forall x xh, threads s !! x = Some xh -> exists xh', threads (unyield_st c ch s) !! x = Some xh' /\
            same_task xh xh' /\ (x <> c \/ stat_of xh <> RT_THREAD_RUNNING -> xh' = xh)) as Hs0.
  { intros x xh Hx. destruct (decide (x = c)) as [->|].
    - simplify_eq. exists (unyield ch). split_and!; [done|apply Hsame..|]. intros [?|E]; [done|].
      unfold unyield. by rewrite (proj2 (Z.eqb_neq _ _) E).
    - exists xh. split; [simpl; by rewrite lookup_insert_ne|done]. }
  destruct (schedule_choice_cases c ch t p) as [[Ech Erun]|Ech]; rewrite Ech;
    (wp_step; apply (wp_unyield c ch); [done|]).
  - rewrite bool_decide_false by tauto. eapply keep_spec; [done|done|done|congruence|].
    intros s' Hinv' Hc' Hm' Hhw' Hth' Hdom'. apply HQ; [done|]. split; [tauto| | | |done].
    + intros _ _. exists t, p, rest. split_and!; [apply Htop..|done|]. by rewrite bool_decide_true.
    + intros x xh Hx. destruct (Hs0 x xh Hx) as (x0 & Hx0 & E1 & E2). rewrite Hth'.
      destruct (decide (x = c)) as [->|].
      * rewrite lookup_insert_eq. simplify_eq. eexists. split; [done|]. split; [|split; [done|]].
        -- eapply same_task_trans; [done|apply same_task_with_stat].
        -- intros _ _ _. by apply stat_of_with_stat.
      * rewrite lookup_insert_ne by done. exists x0. split_and!; [done|apply E1..|auto|congruence].
    + intros x Hx. rewrite Hth', lookup_insert_ne by congruence. simpl. by rewrite lookup_insert_ne by congruence.
  - rewrite bool_decide_true by done.
    eapply (switch_spec _ c (unyield ch)); [done|done|done|done|by rewrite Est'|done|].
    intros s' Hinv' Hc' Hm' Hhw' Hth' Hdom'. apply HQ; [done|]. split; [tauto| | | |done].
    + intros _ _. exists t, p, rest. split_and!; [apply Htop..|done|].
      rewrite bool_decide_false by (rewrite Ech; congruence). split_and!; [done| |done].
      intros l. rewrite Hm'. destruct Hsame as (_ & -> & _).
      by rewrite (bool_decide_ext _ _ (and_iff_compat_r _ (bool_decide_eq_true _))).
    + intros x xh Hx. destruct (Hs0 x xh Hx) as (x0 & Hx0 & E1 & E2). eexists.
      split; [rewrite Hth', Hx0; reflexivity|].
      split; [repeat case_decide; try apply E1; by eapply same_task_trans; [|apply same_task_with_stat]|].
      split.
      * intros Hxc Hxt. rewrite !decide_False; [auto| |congruence].
        intros [-> E]. apply bool_decide_eq_true in E. simplify_eq. naive_solver.
      * intros _ _ Hx'. rewrite decide_True by congruence. by apply stat_of_with_stat.
    + intros x Hx. rewrite Hth'. simpl. by rewrite lookup_insert_ne, Hx by congruence.
Qed.

Lemma schedule_spec c ch s (Q : unit -> sched -> Prop) :
  sched_inv s -> rt_current_thread s = Some c -> threads s !! c = Some ch ->
  (forall s', sched_inv s' -> schedule_post c ch s s' -> Q tt s') ->
  wp rt_schedule s Q.
Proof.
  intros Hinv Hc Hch HQ. pose proof Hinv as [Hs Hi]. unfold rt_schedule. wp_steps.
  apply wp_when; intros Hgo.
  2: { apply andb_false_iff in Hgo. rewrite negb_false_iff, Z.eqb_eq, Z.eqb_neq in Hgo.
       apply HQ; [done|]. split; [done|tauto| |done|done]. intros x xh Hx. exists xh. split_and!; [done..|tauto]. }
  apply andb_true_iff in Hgo as [Hlock Hgrp]. rewrite Z.eqb_eq in Hlock.
  rewrite negb_true_iff, Z.eqb_neq in Hgrp.
  wp_step. apply wp_get_highest; [done|done|]. intros t p rest Htop. wp_steps.
  eapply wp_deref; [done|]. wp_step. eapply wp_get_thread; [done|].
  destruct (top_ready_thread _ _ _ _ Hinv Htop) as (th & Hth & Est & Epr & Hpr).
  assert (t <> c) as Hne.
  { intros ->. simplify_eq. destruct (Hi c ch Hch) as (_ & _ & _ & H4 & _); [tauto|]. by destruct (H4 Hc). }
  by eapply schedule_body_spec.
Qed.

(** ** An executable check of the invariant *)

#[export] Instance fits_dec l th : Decision (fits l th).
Proof. unfold fits. destruct l; apply _. Defined.
#[export] Instance prio_ok_dec th : Decision (prio_ok th).
Proof. unfold prio_ok. apply _. Defined.
#[export] Instance inl_dec s l t : Decision (inl_ s l t).
Proof. unfold inl_. apply _. Defined.

Definition thread_check (s : sched) (t : oid) (th : rt_thread) : Prop :=
  map_Forall (fun l xs => t ∈ xs -> fits l th) (tlists s) /\
  (stat_of th = RT_THREAD_READY -> inl_ s (LReady (current_priority th)) t) /\
  (stat_of th = RT_THREAD_RUNNING -> rt_current_thread s = Some t) /\
  (rt_current_thread s = Some t ->
     stat_of th <> RT_THREAD_READY /\ stat_of th <> RT_THREAD_INIT) /\
  (stat_of th <> RT_THREAD_INIT -> stat_of th <> RT_THREAD_CLOSE -> prio_ok th).

Definition row_check (l : lhead) : Prop :=
  match l with LReady p => 0 <= p < RT_THREAD_PRIORITY_MAX | _ => True end.
#[export] Instance row_check_dec l : Decision (row_check l).
Proof. unfold row_check. destruct l; apply _. Defined.

Definition rows : list Z := Z.of_nat <$> seq 0 32.

Definition sched_check (s : sched) : Prop :=
  Forall (fun p => is_Some (tlists s !! LReady p) /\
                   Z.testbit (rt_thread_ready_priority_group s) p =
                   bool_decide (members s (LReady p) <> [])) rows /\
  is_Some (tlists s !! LDefunct) /\
  map_Forall (fun l xs => row_check l /\ NoDup xs /\ Forall (fun x => is_Some (threads s !! x)) xs /\
    map_Forall (fun l' xs' => l = l' \/ Forall (fun x => x ∉ xs') xs) (tlists s)) (tlists s) /\
  match rt_current_thread s with Some t => is_Some (threads s !! t) | None => True end /\
  (0 <= rt_thread_ready_priority_group s < 2 ^ 32) /\
  map_Forall (thread_check s) (threads s).

#[export] Instance thread_check_dec s t th : Decision (thread_check s t th).
Proof. unfold thread_check. apply _. Defined.
#[export] Instance sched_check_dec s : Decision (sched_check s).
Proof. unfold sched_check. destruct (rt_current_thread s); apply _. Defined.

Lemma members_in s l x : inl_ s l x -> exists xs, tlists s !! l = Some xs /\ x ∈ xs.
Proof.
  unfold inl_, members. destruct (tlists s !! l) as [xs|]; simpl; [eauto|].
  by intros ?%elem_of_nil.
Qed.

Lemma sched_check_sound s : sched_check s -> sched_inv s.
Proof.
  intros (Hrows & Hdef & Hlists & Hcur & Hgrp & Hth).
  assert (forall p, 0 <= p < RT_THREAD_PRIORITY_MAX -> p ∈ rows) as Hin.
  { intros p Hp. unfold RT_THREAD_PRIORITY_MAX in Hp. apply list_elem_of_fmap. exists (Z.to_nat p).
    split; [lia|]. apply elem_of_seq. lia. }
  rewrite Forall_forall in Hrows. split; [split|].
  - intros p Hp. apply Hrows, Hin, Hp.
  - intros p [xs Hp]. exact (proj1 (Hlists _ _ Hp)).
  - done.
  - intros l. unfold members. destruct (tlists s !! l) as [xs|] eqn:E; [|apply NoDup_nil_2].
    apply (Hlists _ _ E).
  - intros l l' t (xs & E & Hx)%members_in (xs' & E' & Hx')%members_in.
    destruct (Hlists _ _ E) as (_ & _ & _ & H). destruct (H _ _ E') as [->|HF]; [done|].
    rewrite Forall_forall in HF. exfalso. by eapply HF.
  - intros l t (xs & E & Hx)%members_in. destruct (Hlists _ _ E) as (_ & _ & H & _).
    rewrite Forall_forall in H. auto.
  - intros t Ht. by rewrite Ht in Hcur.
  - done.
  - intros p Hp. apply Hrows, Hin, Hp.
  - intros t th Ht _. destruct (Hth t th Ht) as (H1 & H2). split; [|done].
    intros l (xs & E & Hx)%members_in. by apply (H1 _ _ E).
Qed.

(** A small system: thread 1 runs at priority 10, threads 2 and 3 are ready at
    priorities 5 and 10, thread 4 waits on object 9. *)
Definition demo_thread (st p : Z) : rt_thread :=
  mk_thread 0 0 0 512 0 st p p (2 ^ p) 0 0 10 10 None 0.

Definition empty_lists : gmap lhead (list oid) :=
  <[LDefunct := []]> (list_to_map ((fun p => (LReady p, [])) <$> rows)).

Definition demo_sched : sched :=
  mk_sched
    (<[1%positive := demo_thread RT_THREAD_RUNNING 10]>
    (<[2%positive := demo_thread RT_THREAD_READY 5]>
    (<[3%positive := demo_thread RT_THREAD_READY 10]>
    (<[4%positive := demo_thread RT_THREAD_SUSPEND 8]> ∅))))
    (<[LReady 5 := [2%positive]]> (<[LReady 10 := [3%positive]]>
     (<[LSusp 9 := [4%positive]]> empty_lists)))
    (2 ^ 5 + 2 ^ 10) 0 (Some 1%positive) 10 0 [].

Lemma demo_sched_inv : sched_inv demo_sched.
Proof. apply sched_check_sound, (bool_decide_unpack _). vm_compute. exact I. Qed.

(** ** Theorems *)

Lemma choice_keep c ch t p :
  t <> c -> schedule_choice c ch t p = (c, false) ->
  stat_of ch = RT_THREAD_RUNNING /\ current_priority ch <= p.
Proof.
  unfold schedule_choice. intros Hne E.
  destruct (Z.eqb_spec (stat_of ch) RT_THREAD_RUNNING); [|congruence].
  split; [done|]. destruct (Z.ltb_spec (current_priority ch) p); [lia|].
  destruct (Z.eqb_spec (current_priority ch) p); [lia|]. simpl in E. congruence.
Qed.

Lemma choice_switch c ch t p :
  schedule_choice c ch t p <> (c, false) -> stat_of ch = RT_THREAD_RUNNING ->
  p <= current_priority ch.
Proof.
  unfold schedule_choice. intros E Hr. rewrite Hr, Z.eqb_refl in E.
  destruct (Z.ltb_spec (current_priority ch) p); [done|lia].
Qed.

Lemma top_ready_le s t p rest q x :
  lists_ok s -> top_ready s t p rest -> inl_ s (LReady q) x -> p <= q.
Proof.
  intros Hs (Hp & Hm & Hlow) Hin. destruct (Z.lt_ge_cases q p); [|done].
  assert (0 <= q) as Hq.
  { unfold inl_, members in Hin. destruct (tlists s !! LReady q) eqn:E; [|by apply elem_of_nil in Hin].
    apply (lo_only_rows s Hs q). by rewrite E. }
  unfold inl_ in Hin. rewrite Hlow in Hin by lia. by apply elem_of_nil in Hin.
Qed.

(** The bit scan behind the ready queues finds the lowest set bit: for
    every 32-bit word, [__rt_ffs] stays inside its table and returns 0 for the
    word 0 and otherwise one more than the position of the lowest set bit. *)
Theorem rt_ffs_lowest_bit v :
  is_u32 v ->
  exists r, __rt_ffs (s32 v) = Some r /\
    (v = 0 -> r = 0) /\
    (v <> 0 -> 1 <= r <= 32 /\ Z.testbit v (r - 1) = true /\
       forall j, 0 <= j < r - 1 -> Z.testbit v j = false).
Proof.
  intros Hv. pose proof (rt_ffs_spec v Hv) as H. case_decide as E.
  - exists 0. split; [done|]. split; [done|tauto].
  - destruct H as (k & Hk & Hk32 & H0 & H1 & H2). exists (k + 1).
    replace (k + 1 - 1) with k by lia. split_and!; [done|done|]. intros _. split_and!; [lia|lia|done|done].
Qed.

Lemma rt_ffs_lowest_bit_witness :
  is_u32 0x80010000 /\ __rt_ffs (s32 0x80010000) = Some 17 /\
  exists r, __rt_ffs (s32 0x80010000) = Some r /\ Z.testbit 0x80010000 (r - 1) = true.
Proof.
  split; [c_lia|]. split; [reflexivity|].
  destruct (rt_ffs_lowest_bit 0x80010000) as (r & E & _ & H); [c_lia|].
  exists r. split; [exact E|apply H; lia].
Defined.

(** C1. [rt_schedule] runs the highest-priority thread: in a state where the
    scheduler invariant holds and the scheduler is not locked, when the
    current thread is running or some thread is ready, [rt_schedule] does not
    fault, re-establishes the invariant, leaves a RUNNING current thread, and
    no thread that is READY afterwards has a higher priority (a smaller
    number).  The CPU context is switched exactly when the current thread
    changes, from the old current thread to the new one. *)
Theorem schedule_runs_highest s c ch :
  sched_inv s -> rt_current_thread s = Some c -> threads s !! c = Some ch ->
  rt_scheduler_lock_nest s = 0 ->
  stat_of ch = RT_THREAD_RUNNING \/ rt_thread_ready_priority_group s <> 0 ->
  wp rt_schedule s (fun _ s' =>
    sched_inv s' /\
    exists r rh, rt_current_thread s' = Some r /\ threads s' !! r = Some rh /\
      stat_of rh = RT_THREAD_RUNNING /\
      (forall x xh, threads s' !! x = Some xh -> stat_of xh = RT_THREAD_READY ->
         current_priority rh <= current_priority xh) /\
      hw_switches s' =
        (if decide (r = c) then hw_switches s
         else (if rt_interrupt_nest s =? 0 then Switch c r else Switch_interrupt c r)
              :: hw_switches s)).
Proof.
  intros Hinv Hc Hch Hlock Hrun. apply (schedule_spec c ch); [done..|].
  intros s' Hinv' [Hidle Hchoose Hth _ _]. split; [done|]. pose proof Hinv as [Hs Hi].
  destruct (Hth c ch Hch) as (ch' & Hch' & (Ee & Ep & _) & Hkeep & Hrunning).
  assert (forall x xh, threads s' !! x = Some xh -> stat_of xh = RT_THREAD_READY ->
            inl_ s' (LReady (current_priority xh)) x) as Hrdy.
  { intros x xh Hx Ex. destruct Hinv' as [_ Hi']. destruct (Hi' x xh Hx) as (_ & H2 & _); [tauto|auto]. }
  destruct (decide (rt_thread_ready_priority_group s = 0)) as [Hg|Hg].
  { specialize (Hidle (or_intror Hg)) as ->. exists c, ch. split_and!; [done..|tauto| |].
    - intros x xh Hx Ex. exfalso. pose proof (Hrdy x xh Hx Ex) as Hin. unfold inl_ in Hin.
      destruct (Hi x xh Hx) as (_ & _ & _ & _ & H5); [tauto|].
      rewrite (group_zero s Hs Hg) in Hin; [by apply elem_of_nil in Hin|]. apply H5; stats.
    - by rewrite decide_True. }
  destruct (Hchoose Hlock Hg) as (t & p & rest & Htop & Hne & Hres).
  destruct (top_ready_thread _ _ _ _ Hinv Htop) as (th & Hth0 & Est & Epr & Hpr).
  case_bool_decide as Ech.
  - destruct Hres as (Hc' & Hm' & Hhw). destruct (choice_keep _ _ _ _ Hne Ech) as [Er Hle].
    exists c, ch'. split_and!; [done..|auto| |by rewrite decide_True].
    intros x xh Hx Ex. pose proof (Hrdy x xh Hx Ex) as Hin. unfold inl_ in Hin. rewrite Hm' in Hin.
    pose proof (top_ready_le _ _ _ _ _ _ Hs Htop Hin). lia.
  - destruct Hres as (Hc' & Hm' & Hhw). destruct (Hth t th Hth0) as (th' & Ht' & (_ & Etp & _) & _ & Hrun').
    exists t, th'. split_and!; [done..|auto| |by rewrite decide_False].
    intros x xh Hx Ex. pose proof (Hrdy x xh Hx Ex) as Hin. unfold inl_ in Hin. rewrite Hm' in Hin.
    assert (inl_ s (LReady (current_priority xh)) x \/ (stat_of ch = RT_THREAD_RUNNING /\ current_priority xh = current_priority ch)) as [Hin'|[Er Hp]].
    { case_bool_decide as E; [|apply list_elem_of_filter in Hin; left; apply Hin].
      destruct E as [? [= ?]]. by right. }
    + pose proof (top_ready_le _ _ _ _ _ _ Hs Htop Hin'). lia.
    + pose proof (choice_switch _ _ _ _ Ech Er). lia.
Qed.

Lemma schedule_runs_highest_witness :
  exists s', rt_schedule demo_sched = Some (tt, s') /\ sched_inv s' /\
    rt_current_thread s' = Some 2%positive /\ members s' (LReady 10) = [3; 1]%positive.
Proof.
  assert (wp rt_schedule demo_sched (fun _ s' => sched_inv s')) as H.
  { eapply wp_mono;
      [apply (schedule_runs_highest demo_sched 1%positive (demo_thread RT_THREAD_RUNNING 10));
        [apply demo_sched_inv|reflexivity|reflexivity|reflexivity|left; reflexivity]
      |intros a s' [Hi _]; exact Hi]. }
  apply wp_Some in H as ([] & s' & E & Hi). exists s'. split; [exact E|]. split; [exact Hi|].
  vm_compute in E. injection E as <-. split; reflexivity.
Defined.

End Sched.
