(* ===== verification/Object.v ===== *)
(** * Kernel objects

    Model of [rt-thread/src/object.c]: the header every kernel object starts
    with, and the container that lists the objects of each class.  An object is
    named by a [ref]: its address, or the timer embedded in a thread.  The
    string routines of [kservice.c] that copy and compare object names are
    modelled here too.  [rt_object_init] and [rt_object_find] lock the
    scheduler around their loops and are defined in file Thread, over the state
    of the whole kernel; modules are not configured, and the hooks are the null
    pointers they are until an application sets them. *)
From stdpp Require Import base list gmap.
From Stdlib Require Import ZArith Lia.
From S2P Require Import Prelude Scheduler.

Module Obj.
Import Sched.

Inductive ref := Obj (o : oid) | ThreadTimer (t : oid).

#[export] Instance ref_eq_dec : EqDecision ref.
Proof. solve_decision. Defined.
#[export] Instance ref_countable : Countable ref.
Proof.
  by apply (inj_countable' (fun r => match r with Obj o => inl o | ThreadTimer t => inr t end)
                           (fun x => match x with inl o => Obj o | inr t => ThreadTimer t end)); intros [].
Defined.

(** [enum rt_object_class_type] *)
Inductive rt_object_class_type :=
| RT_Object_Class_Null | RT_Object_Class_Thread | RT_Object_Class_Semaphore
| RT_Object_Class_Mutex | RT_Object_Class_Event | RT_Object_Class_MailBox
| RT_Object_Class_MessageQueue | RT_Object_Class_MemHeap | RT_Object_Class_MemPool
| RT_Object_Class_Device | RT_Object_Class_Timer | RT_Object_Class_Module
| RT_Object_Class_Unknown.

#[export] Instance class_eq_dec : EqDecision rt_object_class_type.
Proof. solve_decision. Defined.

(** The values of the enumeration, and the flag of static objects. *)
Definition class_code (c : rt_object_class_type) : Z :=
  match c with
  | RT_Object_Class_Null => 0 | RT_Object_Class_Thread => 1 | RT_Object_Class_Semaphore => 2
  | RT_Object_Class_Mutex => 3 | RT_Object_Class_Event => 4 | RT_Object_Class_MailBox => 5
  | RT_Object_Class_MessageQueue => 6 | RT_Object_Class_MemHeap => 7
  | RT_Object_Class_MemPool => 8 | RT_Object_Class_Device => 9 | RT_Object_Class_Timer => 10
  | RT_Object_Class_Module => 11 | RT_Object_Class_Unknown => 12
  end.
Definition RT_Object_Class_Static : Z := 0x80.

Definition RT_NAME_MAX : nat := 12.

(** [struct rt_object]; the [flag] byte is kept with the fields of the derived
    structure that uses it. *)
Record rt_object := mk_object { name : list Z; type : Z }.

(** [rt_object_container]: the classes the board is configured with, in the
    order of the table, with the objects of each. *)
Definition container_classes : list rt_object_class_type :=
  [RT_Object_Class_Thread; RT_Object_Class_Semaphore; RT_Object_Class_Mutex;
   RT_Object_Class_Event; RT_Object_Class_MailBox; RT_Object_Class_MessageQueue;
   RT_Object_Class_MemPool; RT_Object_Class_Device; RT_Object_Class_Timer].

Record obj_st := mk_objs {
  headers : gmap ref rt_object;
  containers : list (rt_object_class_type * list ref)
}.

Definition obj_init : obj_st := mk_objs ∅ ((fun c => (c, [])) <$> container_classes).

(** ** kservice.c: names *)

(** The [n] bytes [rt_strncpy] writes; reading past the end of the source is a
    fault. *)
Fixpoint rt_strncpy (src : list Z) (n : nat) : option (list Z) :=
  match n with
  | O => Some []
  | S n' =>
      match src with
      | [] => None
      | c :: src' =>
          if c =? 0 then Some (replicate n 0)
          else r ← rt_strncpy src' n'; Some (c :: r)
      end
  end.

(** The loop of [rt_strncmp], with [__res] in a signed char. *)
Fixpoint rt_strncmp_loop (count : nat) (cs ct : list Z) (res : Z) : option Z :=
  match count with
  | O => Some res
  | S count =>
      match cs, ct with
      | c :: cs', d :: ct' =>
          let res := s8 (c - d) in
          if negb (res =? 0) || (c =? 0) then Some res
          else rt_strncmp_loop count cs' ct' res
      | _, _ => None
      end
  end.

Definition rt_strncmp (cs ct : list Z) (count : nat) : option Z :=
  rt_strncmp_loop count cs ct 0.

(** ** object.c *)

(** The loop over the table: the list of the class, [RT_NULL] when the table
    has no such class. *)
Fixpoint container_of (t : rt_object_class_type) (cs : list (rt_object_class_type * list ref))
  : option (list ref) :=
  match cs with
  | [] => None
  | (c, l) :: cs => if decide (c = t) then Some l else container_of t cs
  end.

Definition rt_object_get_information (t : rt_object_class_type) : M obj_st (option (list ref)) :=
  gets (fun s => container_of t (containers s)).

Definition rt_object_get_length (t : rt_object_class_type) : M obj_st Z :=
  information ← rt_object_get_information t;
  mret (match information with None => 0 | Some l => Z.of_nat (length l) end).

(** The pointers copied to the caller's array. *)
Definition rt_object_get_pointers (t : rt_object_class_type) (maxlen : Z) : M obj_st (list ref) :=
  if maxlen <=? 0 then mret []
  else
    information ← rt_object_get_information t;
    mret (match information with None => [] | Some l => take (Z.to_nat maxlen) l end).

Definition set_container (t : rt_object_class_type) (l : list ref) : M obj_st unit :=
  modify (fun s => mk_objs (headers s)
    ((fun e => if decide (fst e = t) then (t, l) else e) <$> containers s)).

Definition get_header (o : ref) : M obj_st rt_object :=
  h ← gets headers; deref (h !! o).

(** [rt_list_remove(&object->list)] *)
Definition object_unlink (o : ref) : M obj_st unit :=
  modify (fun s => mk_objs (headers s)
    ((fun e => (fst e, filter (fun x => x <> o) (snd e))) <$> containers s)).

Definition object_linked (s : obj_st) (o : ref) : Prop :=
  Exists (fun e => o ∈ snd e) (containers s).
#[export] Instance object_linked_dec s o : Decision (object_linked s o).
Proof. unfold object_linked. apply _. Defined.

(** The statements of [rt_object_init] after the scheduler is unlocked. *)
Definition object_attach (o : ref) (t : rt_object_class_type) (nm : list Z) : M obj_st unit :=
  nm' ← deref (rt_strncpy nm RT_NAME_MAX);
  modify (fun s => mk_objs
    (<[o := mk_object nm' (Z.lor (class_code t) RT_Object_Class_Static)]> (headers s)) (containers s));;
  linked ← gets (fun s => bool_decide (object_linked s o));
  if linked : bool then fault else
  information ← rt_object_get_information t;
  l ← deref information;
  set_container t (o :: l).

Definition rt_object_detach (o : ref) : M obj_st unit :=
  h ← get_header o;
  modify (fun s => mk_objs (<[o := mk_object (name h) 0]> (headers s)) (containers s));;
  object_unlink o.

Definition rt_object_is_systemobject (o : ref) : M obj_st bool :=
  h ← get_header o;
  mret (negb (Z.land (type h) RT_Object_Class_Static =? 0)).

Definition rt_object_get_type (o : ref) : M obj_st Z :=
  h ← get_header o;
  mret (Z.land (type h) (Z.lnot RT_Object_Class_Static)).

(** The search loop of [rt_object_find]. *)
Fixpoint object_search (nm : list Z) (hs : gmap ref rt_object) (l : list ref)
  : option (option ref) :=
  match l with
  | [] => Some None
  | o :: l =>
      h ← hs !! o;
      c ← rt_strncmp (name h) nm RT_NAME_MAX;
      if c =? 0 then Some (Some o) else object_search nm hs l
  end.

(** ** Lemmas *)

Lemma unlinked_not_linked o (cs : list (rt_object_class_type * list ref)) :
  ~ Exists (fun e => o ∈ snd e) ((fun e => (fst e, filter (fun x => x <> o) (snd e))) <$> cs).
Proof.
  rewrite Exists_exists. intros (e & He & Ho). apply list_elem_of_fmap in He as (e' & -> & _). simpl in Ho.
  apply list_elem_of_filter in Ho as [Ho _]. done.
Qed.

(** After [rt_object_detach] the object is on no list. *)
Lemma wp_object_detach o h s (Q : unit -> obj_st -> Prop) :
  headers s !! o = Some h ->
  (forall s', ~ object_linked s' o -> headers s' = <[o := mk_object (name h) 0]> (headers s) ->
     fst <$> containers s' = fst <$> containers s -> Q tt s') ->
  wp (rt_object_detach o) s Q.
Proof.
  intros Hh HQ. unfold rt_object_detach, get_header, object_unlink. wp_steps. eapply wp_deref; [exact Hh|].
  wp_steps. apply HQ; simpl; [apply unlinked_not_linked|done|].
  rewrite <- list_fmap_compose. by apply list_fmap_ext.
Qed.

(** *** Names: [rt_strncmp] compares what [rt_strncpy] keeps *)

Lemma strncpy_idem src n d : rt_strncpy src n = Some d -> rt_strncpy d n = Some d.
Proof.
  revert n d. induction src as [|c src IH]; intros [|n] d; cbn [rt_strncpy]; try done; [by intros [= <-]..|].
  destruct (c =? 0) eqn:Ec.
  - by intros [= <-].
  - destruct (rt_strncpy src n) as [d'|] eqn:E; [|done]. intros [= <-]. simpl. by rewrite Ec, (IH _ _ E).
Qed.

Lemma strncpy_u8 src n d : Forall is_u8 src -> rt_strncpy src n = Some d -> Forall is_u8 d.
Proof.
  intros Hs. revert n d. induction Hs as [|c src Hc Hs IH]; intros [|n] d; cbn [rt_strncpy];
    [by intros [= <-]|done|by intros [= <-]|].
  destruct (c =? 0).
  - intros [= <-]. by apply (Forall_replicate is_u8 (S n)).
  - destruct (rt_strncpy src n) as [d'|] eqn:E; [|done]. intros [= <-]. constructor; [done|by eapply IH].
Qed.

Lemma s8_sub_zero c d : is_u8 c -> is_u8 d -> s8 (c - d) = 0 <-> c = d.
Proof.
  intros Hc Hd. split; [|intros ->; by rewrite Z.sub_diag].
  unfold swrap. change (2 ^ (8 - 1)) with 128. change (2 ^ 8) with 256. intros E.
  assert ((c - d + 128) mod 256 = 128) as E1 by lia.
  pose proof (Z.div_mod (c - d + 128) 256 ltac:(lia)) as E2. rewrite E1 in E2. c_lia.
Qed.

Lemma strncmp_strncpy n cs ct kc kt :
  Forall is_u8 cs -> Forall is_u8 ct -> rt_strncpy cs n = Some kc -> rt_strncpy ct n = Some kt ->
  exists r, rt_strncmp cs ct n = Some r /\ (r = 0 <-> kc = kt).
Proof.
  unfold rt_strncmp. intros Hcs. revert n ct kc kt.
  induction Hcs as [|c cs Hc Hcs IH]; intros [|n] ? kc kt [|d ct Hd Hct]; cbn [rt_strncpy rt_strncmp_loop]; try done.
  1-4: intros [= <-] [= <-]; by exists 0.
  - intros Ec Et.
    destruct (Z.eqb_spec (s8 (c - d)) 0) as [E|E]; simpl.
    + rewrite E. apply (s8_sub_zero c d Hc Hd) in E. subst d. destruct (c =? 0).
      * exists 0. split; [done|]. by simplify_eq.
      * destruct (rt_strncpy cs n) as [kc'|] eqn:E1; [|done]. destruct (rt_strncpy ct n) as [kt'|] eqn:E2; [|done].
        simpl in *. destruct (IH n ct kc' kt' Hct E1 E2) as (r & -> & Hr). exists r. split; [done|].
        rewrite Hr. split; [intros ->; congruence|]. intros ->. congruence.
    + exists (s8 (c - d)). split; [done|]. split; [done|]. intros ->. exfalso. apply E, (s8_sub_zero c d Hc Hd).
      assert (forall z zs k, (if z =? 0 then Some (replicate (S n) 0) else r ← rt_strncpy zs n; Some (z :: r)) = Some k ->
        head k = Some z) as Hh.
      { intros z zs k. destruct (Z.eqb_spec z 0) as [->|]; [by intros [= <-]|].
        destruct (rt_strncpy zs n); [by intros [= <-]|done]. }
      apply Hh in Ec, Et. congruence.
Qed.

(** The search of a list whose objects have proper names. *)
Definition named (hs : gmap ref rt_object) (o : ref) (key : list Z) : Prop :=
  exists h, hs !! o = Some h /\ name h = key.
Definition name_ok (hs : gmap ref rt_object) (o : ref) : Prop :=
  exists h, hs !! o = Some h /\ rt_strncpy (name h) RT_NAME_MAX = Some (name h) /\ Forall is_u8 (name h).

Lemma object_search_spec nm key hs l :
  Forall (name_ok hs) l -> Forall is_u8 nm -> rt_strncpy nm RT_NAME_MAX = Some key ->
  exists r, object_search nm hs l = Some r /\
    match r with
    | Some o => o ∈ l /\ named hs o key
    | None => forall o, o ∈ l -> ~ named hs o key
    end.
Proof.
  intros Hl Hnm Hkey. induction Hl as [|o l (h & Hh & Hn & Hu) Hl IH]; cbn [object_search].
  { exists None. split; [done|]. intros o Ho. by apply elem_of_nil in Ho. }
  rewrite Hh. simpl. destruct (strncmp_strncpy _ _ _ _ _ Hu Hnm Hn Hkey) as (c & Ec & Hc). rewrite Ec. simpl.
  destruct (Z.eqb_spec c 0) as [E|E].
  - exists (Some o). split; [done|]. split; [constructor|]. exists h. split; [done|by apply Hc].
  - destruct IH as (r & Er & IH). exists r. split; [done|]. destruct r as [o'|].
    + destruct IH as [Ho Hk]. split; [by constructor|done].
    + intros o' Ho' (h' & Hh' & Hk). apply elem_of_cons in Ho' as [->|Ho'].
      * apply E, Hc. congruence.
      * apply (IH o' Ho'). by exists h'.
Qed.

Lemma container_of_set t l l0 cs :
  container_of t cs = Some l0 ->
  container_of t ((fun e => if decide (fst e = t) then (t, l) else e) <$> cs) = Some l.
Proof.
  induction cs as [|[c x] cs IH]; [done|]. simpl. destruct (decide (c = t)) as [->|]; simpl.
  - by rewrite decide_True.
  - rewrite decide_False by done. apply IH.
Qed.

Lemma container_of_unlink t o cs :
  container_of t ((fun e => (fst e, filter (fun x => x <> o) (snd e))) <$> cs) =
  filter (fun x => x <> o) <$> container_of t cs.
Proof. induction cs as [|[c x] cs IH]; [done|]. simpl. by destruct (decide (c = t)). Qed.

Lemma container_of_linked t cs hs l o : container_of t cs = Some l -> o ∈ l -> object_linked (mk_objs hs cs) o.
Proof.
  intros Hl Ho. unfold object_linked. simpl. apply Exists_exists. induction cs as [|[c x] cs IH]; [done|].
  simpl in Hl. destruct (decide (c = t)); [|destruct (IH Hl) as (e & He & Hoe); exists e; split; [by constructor|done]].
  simplify_eq. exists (t, l). split; [constructor|done].
Qed.

End Obj.
