(* ===== verification/Timer.v ===== *)
(** * Timers

    Model of the timer lists of [rt-thread/src/timer.c], with one skip-list
    level as configured.  The state holds the timer structures and the lists
    their [row] nodes can be on: the hard list, the soft list, and the local
    lists [rt_timer_check] and [rt_soft_timer_check] move an expired timer to
    while its callback runs (a callback that stops or restarts the timer takes
    it off that list, which is how the check notices).  The operations here
    touch only this state; [rt_timer_start] and the two checks, which also
    reach the scheduler, are in file Thread and use [timer_link] and
    [timer_expire] below.

    The theorems show that the insertion loop keeps the list ordered by the
    time left, oldest first among equals, as long as all pending timeouts lie
    within half the range of the tick counter, across its wrap-around. *)
From stdpp Require Import base list gmap sorting.
From Stdlib Require Import ZArith Lia.
From S2P Require Import Prelude Scheduler Object.

Module Tmr.
Import Sched Obj.

Definition RT_TICK_MAX : Z := 0xffffffff.

Definition RT_TIMER_FLAG_ACTIVATED : Z := 1.
Definition RT_TIMER_FLAG_PERIODIC : Z := 2.
Definition RT_TIMER_FLAG_SOFT_TIMER : Z := 4.

Definition RT_TIMER_CTRL_SET_TIME : Z := 0.
Definition RT_TIMER_CTRL_GET_TIME : Z := 1.
Definition RT_TIMER_CTRL_SET_ONESHOT : Z := 2.
Definition RT_TIMER_CTRL_SET_PERIODIC : Z := 3.
Definition RT_TIMER_CTRL_GET_STATE : Z := 4.

Definition RT_SOFT_TIMER_IDLE : Z := 1.
Definition RT_SOFT_TIMER_BUSY : Z := 0.

(** The timeout function: [rt_thread_timeout] for the timer of a thread, or a
    function of the application. *)
Inductive callback := Thread_timeout | User_timeout (f : Z).

(** [struct rt_timer], with the [flag] of its object header. *)
Record rt_timer := mk_timer {
  flag : Z;
  timeout_func : callback;
  parameter : oid;
  init_tick : Z;
  timeout_tick : Z
}.

Definition set_flag (v : Z) (r : rt_timer) : rt_timer :=
  mk_timer v (timeout_func r) (parameter r) (init_tick r) (timeout_tick r).
Definition set_init_tick (v : Z) (r : rt_timer) : rt_timer :=
  mk_timer (flag r) (timeout_func r) (parameter r) v (timeout_tick r).
Definition set_timeout_tick (v : Z) (r : rt_timer) : rt_timer :=
  mk_timer (flag r) (timeout_func r) (parameter r) (init_tick r) v.

Inductive thead := HTimer | HSoft | HCheck | HSoftCheck.

Record timer_st := mk_timers {
  timers : gmap ref rt_timer;
  rt_timer_list : list ref;
  rt_soft_timer_list : list ref;
  check_list : list ref;
  soft_check_list : list ref;
  soft_timer_status : Z;
  random_nr : Z
}.

Definition set_timers (v : gmap ref rt_timer) (r : timer_st) : timer_st :=
  mk_timers v (rt_timer_list r) (rt_soft_timer_list r) (check_list r) (soft_check_list r) (soft_timer_status r) (random_nr r).
Definition set_rt_timer_list (v : list ref) (r : timer_st) : timer_st :=
  mk_timers (timers r) v (rt_soft_timer_list r) (check_list r) (soft_check_list r) (soft_timer_status r) (random_nr r).
Definition set_rt_soft_timer_list (v : list ref) (r : timer_st) : timer_st :=
  mk_timers (timers r) (rt_timer_list r) v (check_list r) (soft_check_list r) (soft_timer_status r) (random_nr r).
Definition set_check_list (v : list ref) (r : timer_st) : timer_st :=
  mk_timers (timers r) (rt_timer_list r) (rt_soft_timer_list r) v (soft_check_list r) (soft_timer_status r) (random_nr r).
Definition set_soft_check_list (v : list ref) (r : timer_st) : timer_st :=
  mk_timers (timers r) (rt_timer_list r) (rt_soft_timer_list r) (check_list r) v (soft_timer_status r) (random_nr r).
Definition set_soft_timer_status (v : Z) (r : timer_st) : timer_st :=
  mk_timers (timers r) (rt_timer_list r) (rt_soft_timer_list r) (check_list r) (soft_check_list r) v (random_nr r).
Definition set_random_nr (v : Z) (r : timer_st) : timer_st :=
  mk_timers (timers r) (rt_timer_list r) (rt_soft_timer_list r) (check_list r) (soft_check_list r) (soft_timer_status r) v.

Definition row (h : thead) (s : timer_st) : list ref :=
  match h with
  | HTimer => rt_timer_list s | HSoft => rt_soft_timer_list s
  | HCheck => check_list s | HSoftCheck => soft_check_list s
  end.
Definition set_row (h : thead) (l : list ref) (s : timer_st) : timer_st :=
  match h with
  | HTimer => set_rt_timer_list l s | HSoft => set_rt_soft_timer_list l s
  | HCheck => set_check_list l s | HSoftCheck => set_soft_check_list l s
  end.

Definition get_timer (t : ref) : M timer_st rt_timer :=
  m ← gets timers; deref (m !! t).
Definition upd_timer (t : ref) (f : rt_timer -> rt_timer) : M timer_st unit :=
  tm ← get_timer t; modify (fun s => set_timers (<[t := f tm]> (timers s)) s).

Definition has_flag (f : Z) (tm : rt_timer) : bool := negb (Z.land (flag tm) f =? 0).
Definition or_flag (f : Z) (tm : rt_timer) : rt_timer := set_flag (Z.lor (flag tm) f) tm.
Definition clear_flag (f : Z) (tm : rt_timer) : rt_timer :=
  set_flag (Z.land (flag tm) (Z.lnot f)) tm.

(** ** Operations on the lists *)

Definition unlink (t : ref) (l : list ref) : list ref := filter (fun x => x <> t) l.

Definition _rt_timer_remove (t : ref) : M timer_st unit :=
  modify (fun s => mk_timers (timers s) (unlink t (rt_timer_list s))
    (unlink t (rt_soft_timer_list s)) (unlink t (check_list s)) (unlink t (soft_check_list s))
    (soft_timer_status s) (random_nr s)).

Definition timer_attached (s : timer_st) (t : ref) : Prop :=
  t ∈ rt_timer_list s \/ t ∈ rt_soft_timer_list s \/ t ∈ check_list s \/ t ∈ soft_check_list s.
#[export] Instance timer_attached_dec s t : Decision (timer_attached s t).
Proof. unfold timer_attached. apply _. Defined.

(** The fields written by [_rt_timer_init]; it also initialises the [row]
    nodes, which unlinks nothing: the timer must not be on a list. *)
Definition _rt_timer_init (t : ref) (timeout : callback) (param : oid) (time flg : Z)
  : M timer_st unit :=
  att ← gets (fun s => bool_decide (timer_attached s t));
  if att : bool then fault else
  modify (fun s => set_timers
    (<[t := mk_timer (Z.land flg (Z.lnot RT_TIMER_FLAG_ACTIVATED)) timeout param time 0]> (timers s)) s).

Definition rt_timer_list_next_timeout (h : thead) : M timer_st Z :=
  l ← gets (row h);
  match l with
  | [] => mret RT_TICK_MAX
  | t :: _ => tm ← get_timer t; mret (timeout_tick tm)
  end.

Definition rt_timer_next_timeout_tick : M timer_st Z := rt_timer_list_next_timeout HTimer.

Definition rt_timer_stop (t : ref) : M timer_st Z :=
  tm ← get_timer t;
  if negb (has_flag RT_TIMER_FLAG_ACTIVATED tm) then mret (- RT_ERROR)
  else
    _rt_timer_remove t;;
    upd_timer t (clear_flag RT_TIMER_FLAG_ACTIVATED);;
    mret RT_EOK.

(** The value stored through [arg] by the GET commands is the second
    component. *)
Definition rt_timer_control (t : ref) (cmd arg : Z) : M timer_st (Z * Z) :=
  tm ← get_timer t;
  if cmd =? RT_TIMER_CTRL_GET_TIME then mret (RT_EOK, init_tick tm)
  else if cmd =? RT_TIMER_CTRL_SET_TIME then upd_timer t (set_init_tick (u32 arg));; mret (RT_EOK, arg)
  else if cmd =? RT_TIMER_CTRL_SET_ONESHOT then
    upd_timer t (clear_flag RT_TIMER_FLAG_PERIODIC);; mret (RT_EOK, arg)
  else if cmd =? RT_TIMER_CTRL_SET_PERIODIC then
    upd_timer t (or_flag RT_TIMER_FLAG_PERIODIC);; mret (RT_EOK, arg)
  else if cmd =? RT_TIMER_CTRL_GET_STATE then
    mret (RT_EOK, if has_flag RT_TIMER_FLAG_ACTIVATED tm then RT_TIMER_FLAG_ACTIVATED else 0)
  else mret (RT_EOK, arg).

(** The search loop of [rt_timer_start] over the row, and the insertion after
    the node it stops at. *)
Fixpoint timer_insert (tms : gmap ref rt_timer) (t : ref) (tick : Z) (l : list ref)
  : option (list ref) :=
  match l with
  | [] => Some [t]
  | x :: l' =>
      xm ← tms !! x;
      let d := u32 (timeout_tick xm - tick) in
      if d =? 0 then r ← timer_insert tms t tick l'; Some (x :: r)
      else if d <? RT_TICK_MAX / 2 then Some (t :: l)
      else r ← timer_insert tms t tick l'; Some (x :: r)
  end.

(** The critical section of [rt_timer_start] at the tick [now]. *)
Definition timer_link (now : Z) (t : ref) : M timer_st unit :=
  _rt_timer_remove t;;
  upd_timer t (clear_flag RT_TIMER_FLAG_ACTIVATED);;
  upd_timer t (fun tm => set_timeout_tick (u32 (now + init_tick tm)) tm);;
  tm ← get_timer t;
  let h := if has_flag RT_TIMER_FLAG_SOFT_TIMER tm then HSoft else HTimer in
  l ← gets (row h);
  tms ← gets timers;
  l' ← deref (timer_insert tms t (timeout_tick tm) l);
  modify (fun s => set_random_nr (u32 (random_nr s + 1)) s);;
  modify (set_row h l');;
  upd_timer t (or_flag RT_TIMER_FLAG_ACTIVATED).

(** The steps of the two checks that move an expired timer to the local list. *)
Definition timer_expire (tmp : thead) (t : ref) : M timer_st rt_timer :=
  _rt_timer_remove t;;
  tm ← get_timer t;
  when (negb (has_flag RT_TIMER_FLAG_PERIODIC tm)) (upd_timer t (clear_flag RT_TIMER_FLAG_ACTIVATED));;
  l ← gets (row tmp);
  modify (set_row tmp (t :: l));;
  get_timer t.

Definition rt_system_timer_init : M timer_st unit := modify (set_rt_timer_list []).

(** ** Ordering of the lists *)

Definition half_range : Z := RT_TICK_MAX / 2.

(** The time from [b] to the timeout of [x], counted modulo the tick counter. *)
Definition key (tms : gmap ref rt_timer) (b : Z) (x : ref) : Z :=
  match tms !! x with Some xm => u32 (timeout_tick xm - b) | None => 0 end.

(** All timeouts of the list lie within half the counter range after [b]. *)
Definition within (tms : gmap ref rt_timer) (b : Z) (l : list ref) : Prop :=
  forall x, x ∈ l -> is_Some (tms !! x) /\ key tms b x < half_range.

Definition ordered (tms : gmap ref rt_timer) (b : Z) (l : list ref) : Prop :=
  StronglySorted (fun x y => key tms b x <= key tms b y) l.

Lemma key_range tms b x : 0 <= key tms b x.
Proof.
  unfold key. destruct (tms !! x); [|done]. apply (uwrap_range 32). lia.
Qed.

(** The comparison of the insertion loop decides the order of the keys. *)
Lemma tick_diff x y b :
  0 <= u32 (x - b) < half_range -> 0 <= u32 (y - b) < half_range ->
  (u32 (x - y) = 0 <-> u32 (x - b) = u32 (y - b)) /\
  (u32 (x - y) < half_range <-> u32 (y - b) <= u32 (x - b)).
Proof.
  intros Hx Hy.
  assert (u32 (x - y) = u32 (u32 (x - b) - u32 (y - b))) as ->.
  { unfold uwrap. rewrite <- Zminus_mod. f_equal. lia. }
  revert Hx Hy. generalize (u32 (x - b)) (u32 (y - b)). intros kx ky Hx Hy.
  unfold half_range, RT_TICK_MAX in *. change (4294967295 / 2) with 2147483647 in *.
  destruct (Z.le_gt_cases ky kx).
  - rewrite uwrap_small by c_lia. lia.
  - assert (u32 (kx - ky) = kx - ky + 2 ^ 32) as ->.
    { unfold uwrap. symmetry. apply Z.mod_unique_pos with (-1); c_lia. }
    c_lia.
Qed.

Lemma timer_insert_spec tms b t tick l :
  within tms b l -> u32 (tick - b) < half_range ->
  exists pre post, l = pre ++ post /\ timer_insert tms t tick l = Some (pre ++ t :: post) /\
    (forall x, x ∈ pre -> key tms b x <= u32 (tick - b)) /\
    (forall x, head post = Some x -> u32 (tick - b) < key tms b x).
Proof.
  intros Hw Ht. pose proof (uwrap_range 32 (tick - b) ltac:(lia)) as [Hr _].
  induction l as [|x l IH].
  - exists [], []. split_and!; [done|done|set_solver|done].
  - destruct IH as (pre & post & -> & E & Hpre & Hpost); [intros y Hy; apply Hw; set_solver|].
    destruct (Hw x ltac:(set_solver)) as [[xm Hxm] Hk]. pose proof (key_range tms b x) as Hk0.
    assert (key tms b x = u32 (timeout_tick xm - b)) as Ek by (unfold key; by rewrite Hxm).
    destruct (tick_diff (timeout_tick xm) tick b) as [D1 D2]; [lia|lia|].
    simpl. rewrite Hxm. simpl. change (RT_TICK_MAX / 2) with half_range.
    destruct (Z.eqb_spec (u32 (timeout_tick xm - tick)) 0) as [E0|E0];
      [|destruct (Z.ltb_spec (u32 (timeout_tick xm - tick)) half_range) as [E1|E1]].
    + exists (x :: pre), post. rewrite E. split_and!; [done|done| |done].
      intros y [->|Hy]%elem_of_cons; [rewrite Ek; apply D1 in E0; lia|auto].
    + exists [], (x :: pre ++ post). split_and!; [done|done|set_solver|].
      intros y [= <-]. rewrite Ek. destruct (Z.eq_dec (u32 (timeout_tick xm - b)) (u32 (tick - b))); [|lia].
      exfalso. by apply E0, D1.
    + exists (x :: pre), post. rewrite E. split_and!; [done|done| |done].
      intros y [->|Hy]%elem_of_cons; [rewrite Ek; lia|auto].
Qed.

Lemma ordered_app tms b l1 l2 :
  ordered tms b (l1 ++ l2) <->
  ordered tms b l1 /\ ordered tms b l2 /\ forall x y, x ∈ l1 -> y ∈ l2 -> key tms b x <= key tms b y.
Proof.
  unfold ordered. induction l1 as [|a l1 IH]; simpl.
  - split; [intros H; split_and!; [constructor|done|set_solver]|tauto].
  - rewrite !StronglySorted_cons, IH, !Forall_forall. set_solver.
Qed.

(** The list the loop builds is ordered, the new timer last among equals. *)
Lemma ordered_insert tms b t tick pre post :
  ordered tms b (pre ++ post) -> key tms b t = u32 (tick - b) ->
  (forall x, x ∈ pre -> key tms b x <= u32 (tick - b)) ->
  (forall x, head post = Some x -> u32 (tick - b) < key tms b x) ->
  ordered tms b (pre ++ t :: post) /\ (forall x, x ∈ post -> u32 (tick - b) < key tms b x).
Proof.
  intros (H1 & H2 & H3)%ordered_app Hk Hpre Hpost.
  assert (forall x, x ∈ post -> u32 (tick - b) < key tms b x) as Hall.
  { intros x Hx. destruct post as [|y post]; [set_solver|]. specialize (Hpost y eq_refl).
    unfold ordered in H2. rewrite StronglySorted_cons, Forall_forall in H2. destruct H2 as [H2 _].
    apply elem_of_cons in Hx as [->|Hx]; [done|]. specialize (H2 x Hx). lia. }
  split; [|done]. apply ordered_app. split_and!; [done| |].
  - apply StronglySorted_cons. rewrite Forall_forall. split; [|done].
    intros x Hx. rewrite Hk. specialize (Hall x Hx). lia.
  - intros x y Hx [->|Hy]%elem_of_cons; [rewrite Hk; auto|auto].
Qed.

(** ** The structure of the timer lists *)

Definition all_rows (s : timer_st) : list ref :=
  rt_timer_list s ++ rt_soft_timer_list s ++ check_list s ++ soft_check_list s.

Record timers_ok (s : timer_st) : Prop := {
  to_nodup : NoDup (all_rows s);
  to_known : forall t, t ∈ all_rows s -> is_Some (timers s !! t);
  to_hard : forall t tm, timers s !! t = Some tm -> t ∈ rt_timer_list s ->
    has_flag RT_TIMER_FLAG_ACTIVATED tm = true /\ has_flag RT_TIMER_FLAG_SOFT_TIMER tm = false;
  to_soft : forall t tm, timers s !! t = Some tm -> t ∈ rt_soft_timer_list s ->
    has_flag RT_TIMER_FLAG_ACTIVATED tm = true /\ has_flag RT_TIMER_FLAG_SOFT_TIMER tm = true;
  to_active : forall t tm, timers s !! t = Some tm -> has_flag RT_TIMER_FLAG_ACTIVATED tm = true ->
    t ∈ all_rows s
}.

Lemma attached_all_rows s t : timer_attached s t <-> t ∈ all_rows s.
Proof. unfold timer_attached, all_rows. rewrite !elem_of_app. tauto. Qed.

Lemma flag_clear_same f g tm :
  Z.land (Z.lnot f) g = g -> has_flag g (clear_flag f tm) = has_flag g tm.
Proof.
  intros H. unfold has_flag, clear_flag, set_flag; simpl. do 2 f_equal.
  by rewrite <- Z.land_assoc, H.
Qed.
Lemma flag_clear_self f tm : has_flag f (clear_flag f tm) = false.
Proof.
  unfold has_flag, clear_flag, set_flag; simpl. rewrite <- Z.land_assoc, (Z.land_comm (Z.lnot f)), Z.land_lnot_diag.
  by rewrite Z.land_0_r.
Qed.
Lemma flag_or_self f tm : f <> 0 -> has_flag f (or_flag f tm) = true.
Proof.
  intros H. unfold has_flag, or_flag, set_flag; simpl. rewrite Z.land_lor_distr_l, Z.land_diag.
  apply negb_true_iff, Z.eqb_neq. intros E. apply Z.lor_eq_0_iff in E. tauto.
Qed.
Lemma flag_or_same f g tm : Z.land f g = 0 -> has_flag g (or_flag f tm) = has_flag g tm.
Proof.
  intros H. unfold has_flag, or_flag, set_flag; simpl. by rewrite Z.land_lor_distr_l, H, Z.lor_0_r.
Qed.

Lemma wp_get_timer t tm s Q : timers s !! t = Some tm -> Q tm s -> wp (get_timer t) s Q.
Proof. intros H HQ. unfold get_timer. wp_steps. by eapply wp_deref. Qed.

Lemma wp_upd_timer t f tm s (Q : unit -> timer_st -> Prop) :
  timers s !! t = Some tm -> Q tt (set_timers (<[t := f tm]> (timers s)) s) -> wp (upd_timer t f) s Q.
Proof. intros H HQ. unfold upd_timer. wp_step. eapply wp_get_timer; [done|]. by wp_steps. Qed.

(** The state after the node is unlinked. *)
Definition unlinked_t (t : ref) (s : timer_st) : timer_st :=
  mk_timers (timers s) (unlink t (rt_timer_list s))
    (unlink t (rt_soft_timer_list s)) (unlink t (check_list s)) (unlink t (soft_check_list s))
    (soft_timer_status s) (random_nr s).

Lemma elem_of_unlink t l x : x ∈ unlink t l <-> x ∈ l /\ x <> t.
Proof. unfold unlink. rewrite list_elem_of_filter. tauto. Qed.
Lemma unlink_id t l : t ∉ l -> unlink t l = l.
Proof.
  unfold unlink. induction l as [|x l IH]; [done|]. intros H. rewrite not_elem_of_cons in H.
  destruct H as [H1 H2]. rewrite filter_cons_True by congruence. by rewrite IH.
Qed.
Lemma all_rows_unlinked t s : all_rows (unlinked_t t s) = unlink t (all_rows s).
Proof. unfold all_rows, unlink. by rewrite !filter_app. Qed.

(** Clearing the flag of a timer that is taken off its list. *)
Definition stopped_t (t : ref) (tm : rt_timer) (s : timer_st) : timer_st :=
  let s1 := unlinked_t t s in
  set_timers (<[t := clear_flag RT_TIMER_FLAG_ACTIVATED tm]> (timers s1)) s1.

Lemma stopped_ok t tm s :
  timers_ok s -> timers s !! t = Some tm -> timers_ok (stopped_t t tm s).
Proof.
  intros Hs Ht.
  assert (all_rows (stopped_t t tm s) = unlink t (all_rows s)) as Ea by apply all_rows_unlinked.
  assert (forall x xm, timers (stopped_t t tm s) !! x = Some xm -> x <> t -> timers s !! x = Some xm) as Hne.
  { intros x xm Hx Hn. simpl in Hx. by rewrite lookup_insert_ne in Hx. }
  split.
  - rewrite Ea. apply NoDup_filter, (to_nodup s Hs).
  - intros x. rewrite Ea. intros [Hx _]%elem_of_unlink. simpl. apply lookup_insert_is_Some'. right.
    by apply (to_known s Hs).
  - intros x xm Hx [Hin Hn]%elem_of_unlink. by apply (to_hard s Hs x xm); [apply Hne|].
  - intros x xm Hx [Hin Hn]%elem_of_unlink. by apply (to_soft s Hs x xm); [apply Hne|].
  - intros x xm Hx Hf. rewrite Ea. destruct (decide (x = t)) as [->|Hn].
    + simpl in Hx. rewrite lookup_insert_eq in Hx. injection Hx as <-. by rewrite flag_clear_self in Hf.
    + apply elem_of_unlink. split; [|done]. by apply (to_active s Hs x xm); [apply Hne|].
Qed.

(** The state in which a stop leaves the timer. *)
Definition stop_result (t : ref) (tm : rt_timer) (s : timer_st) : timer_st :=
  if has_flag RT_TIMER_FLAG_ACTIVATED tm then stopped_t t tm s else s.

Lemma wp_timer_stop t tm s (Q : Z -> timer_st -> Prop) :
  timers s !! t = Some tm ->
  Q (if has_flag RT_TIMER_FLAG_ACTIVATED tm then RT_EOK else - RT_ERROR) (stop_result t tm s) ->
  wp (rt_timer_stop t) s Q.
Proof.
  intros Ht HQ. unfold rt_timer_stop, stop_result in *. wp_step. eapply wp_get_timer; [done|].
  destruct (has_flag RT_TIMER_FLAG_ACTIVATED tm); simpl; [|by wp_steps].
  unfold _rt_timer_remove. wp_step. wp_step. wp_step. eapply wp_upd_timer; [done|]. by wp_steps.
Qed.

Lemma stop_result_ok t tm s :
  timers_ok s -> timers s !! t = Some tm -> timers_ok (stop_result t tm s).
Proof. intros. unfold stop_result. case_match; [by apply stopped_ok|done]. Qed.

(** A stop changes nothing of the other timers. *)
Lemma stop_result_other t tm s x :
  x <> t -> timers (stop_result t tm s) !! x = timers s !! x.
Proof. intros H. unfold stop_result. case_match; [|done]. simpl. by rewrite lookup_insert_ne. Qed.
Lemma stop_result_self t tm s :
  timers s !! t = Some tm ->
  exists tm', timers (stop_result t tm s) !! t = Some tm' /\
    has_flag RT_TIMER_FLAG_ACTIVATED tm' = false /\
    timeout_func tm' = timeout_func tm /\ parameter tm' = parameter tm /\
    has_flag RT_TIMER_FLAG_PERIODIC tm' = has_flag RT_TIMER_FLAG_PERIODIC tm /\
    has_flag RT_TIMER_FLAG_SOFT_TIMER tm' = has_flag RT_TIMER_FLAG_SOFT_TIMER tm.
Proof.
  intros Ht. unfold stop_result. destruct (has_flag RT_TIMER_FLAG_ACTIVATED tm) eqn:E.
  - exists (clear_flag RT_TIMER_FLAG_ACTIVATED tm). simpl. rewrite lookup_insert_eq. split; [done|].
    rewrite flag_clear_self, !flag_clear_same by done. done.
  - exists tm. done.
Qed.
Lemma stop_result_hard t tm s x :
  timers_ok s -> timers s !! t = Some tm ->
  (x ∈ rt_timer_list (stop_result t tm s) <-> x ∈ rt_timer_list s /\ x <> t).
Proof.
  intros Hs Ht. unfold stop_result. case_match eqn:E; [apply elem_of_unlink|].
  split; [|tauto]. intros Hx. split; [done|]. intros ->.
  destruct (to_hard s Hs t tm Ht Hx). congruence.
Qed.

(** ** Starting a timer *)

Definition started (now : Z) (tm : rt_timer) : rt_timer :=
  or_flag RT_TIMER_FLAG_ACTIVATED
    (set_timeout_tick (u32 (now + init_tick tm)) (clear_flag RT_TIMER_FLAG_ACTIVATED tm)).

Definition home (tm : rt_timer) : thead :=
  if has_flag RT_TIMER_FLAG_SOFT_TIMER tm then HSoft else HTimer.

Lemma timer_insert_known tms t tick l :
  (forall x, x ∈ l -> is_Some (tms !! x)) ->
  exists pre post, l = pre ++ post /\ timer_insert tms t tick l = Some (pre ++ t :: post).
Proof.
  induction l as [|x l IH]; intros Hk; [by exists [], []|].
  destruct IH as (pre & post & -> & E); [intros y Hy; apply Hk; set_solver|].
  destruct (Hk x ltac:(set_solver)) as [xm Hx]. simpl. rewrite Hx. simpl.
  repeat case_match; rewrite ?E; simpl; first [by exists (x :: pre), post|by exists [], (x :: pre ++ post)].
Qed.

(** The timer state after a start that inserted [t] between [pre] and [post]. *)
Definition linked_t (now : Z) (t : ref) (tm : rt_timer) (pre post : list ref) (s : timer_st) : timer_st :=
  set_timers (<[t := started now tm]> (timers s))
    (set_row (home tm) (pre ++ t :: post)
      (set_random_nr (u32 (random_nr s + 1)) (unlinked_t t s))).

(** [rt_timer_start] links the timer into the list its flag selects, at a
    place [pre], [post] the search loop finds, and changes nothing else. *)
Lemma wp_timer_link now t tm pre post s (Q : unit -> timer_st -> Prop) :
  timers s !! t = Some tm ->
  unlink t (row (home tm) s) = pre ++ post ->
  timer_insert (<[t := set_timeout_tick (u32 (now + init_tick tm)) (clear_flag RT_TIMER_FLAG_ACTIVATED tm)]>
                  (timers s)) t (u32 (now + init_tick tm)) (pre ++ post) = Some (pre ++ t :: post) ->
  Q tt (linked_t now t tm pre post s) ->
  wp (timer_link now t) s Q.
Proof.
  intros Ht El Ei HQ. unfold timer_link, _rt_timer_remove. wp_step. wp_step.
  wp_step. eapply wp_upd_timer; [done|]. wp_step. eapply wp_upd_timer; [apply lookup_insert_eq|].
  wp_step. eapply wp_get_timer; [apply lookup_insert_eq|]. wp_steps. simpl. rewrite insert_insert_eq.
  assert (has_flag RT_TIMER_FLAG_SOFT_TIMER (set_timeout_tick (u32 (now + init_tick tm))
            (clear_flag RT_TIMER_FLAG_ACTIVATED tm)) = has_flag RT_TIMER_FLAG_SOFT_TIMER tm) as E.
  { by rewrite <- (flag_clear_same RT_TIMER_FLAG_ACTIVATED _ tm). }
  rewrite E. fold (home tm).
  match goal with |- context [row (home tm) ?x] =>
    assert (row (home tm) x = unlink t (row (home tm) s)) as Er by (unfold home; by case_match) end.
  rewrite Er, El. eapply wp_deref; [exact Ei|]. wp_steps.
  eapply wp_upd_timer; [unfold home; case_match; apply lookup_insert_eq|].
  revert HQ. unfold linked_t, home. case_match; simpl; by rewrite insert_insert_eq.
Qed.

(** The loop never faults on a well-formed list. *)
Lemma link_place now t tm s :
  timers_ok s -> timers s !! t = Some tm ->
  exists pre post, unlink t (row (home tm) s) = pre ++ post /\
  timer_insert (<[t := set_timeout_tick (u32 (now + init_tick tm)) (clear_flag RT_TIMER_FLAG_ACTIVATED tm)]>
                  (timers s)) t (u32 (now + init_tick tm)) (pre ++ post) = Some (pre ++ t :: post).
Proof.
  intros Hs Ht. destruct (timer_insert_known
    (<[t := set_timeout_tick (u32 (now + init_tick tm)) (clear_flag RT_TIMER_FLAG_ACTIVATED tm)]> (timers s))
    t (u32 (now + init_tick tm)) (unlink t (row (home tm) s))) as (pre & post & El & Ei).
  { intros x [Hx Hn]%elem_of_unlink. rewrite lookup_insert_ne by done. apply (to_known s Hs).
    unfold home in Hx. unfold all_rows. case_match; set_solver. }
  exists pre, post. by rewrite <- El at 2.
Qed.

Lemma started_flags now tm :
  has_flag RT_TIMER_FLAG_ACTIVATED (started now tm) = true /\
  has_flag RT_TIMER_FLAG_SOFT_TIMER (started now tm) = has_flag RT_TIMER_FLAG_SOFT_TIMER tm /\
  has_flag RT_TIMER_FLAG_PERIODIC (started now tm) = has_flag RT_TIMER_FLAG_PERIODIC tm.
Proof.
  unfold started. rewrite flag_or_self, !flag_or_same by done.
  rewrite <- (flag_clear_same RT_TIMER_FLAG_ACTIVATED RT_TIMER_FLAG_SOFT_TIMER tm) by done.
  rewrite <- (flag_clear_same RT_TIMER_FLAG_ACTIVATED RT_TIMER_FLAG_PERIODIC tm) by done. done.
Qed.

Lemma linked_rows now t tm pre post s :
  unlink t (row (home tm) s) = pre ++ post ->
  all_rows (linked_t now t tm pre post s) ≡ₚ t :: unlink t (all_rows s).
Proof.
  intros E. rewrite <- all_rows_unlinked. unfold all_rows, linked_t, home in *.
  destruct (has_flag RT_TIMER_FLAG_SOFT_TIMER tm); simpl in *; rewrite E; solve_Permutation.
Qed.

Lemma linked_in now t tm pre post s x :
  unlink t (row (home tm) s) = pre ++ post ->
  x ∈ all_rows (linked_t now t tm pre post s) <-> x = t \/ x ∈ all_rows s.
Proof.
  intros E. rewrite (linked_rows now t tm pre post s E), elem_of_cons, elem_of_unlink.
  destruct (decide (x = t)); tauto.
Qed.

Lemma linked_row_in now t tm pre post s h x :
  unlink t (row (home tm) s) = pre ++ post ->
  x ∈ row h (linked_t now t tm pre post s) -> (x = t /\ h = home tm) \/ (x <> t /\ x ∈ row h s).
Proof.
  intros E Hx. destruct (decide (x = t)) as [->|Hn].
  - left. split; [done|]. unfold linked_t, home in *. destruct (has_flag RT_TIMER_FLAG_SOFT_TIMER tm), h; simpl in *;
      try done; apply elem_of_unlink in Hx as [_ ?]; done.
  - right. split; [done|]. assert (x ∈ pre ++ t :: post -> x ∈ row (home tm) s) as H1.
    { intros H. apply (elem_of_unlink t). rewrite E. set_solver. }
    unfold linked_t, home in *. destruct (has_flag RT_TIMER_FLAG_SOFT_TIMER tm), h; simpl in *;
      auto; by apply elem_of_unlink in Hx as [? _].
Qed.

Lemma linked_ok now t tm pre post s :
  timers_ok s -> timers s !! t = Some tm -> unlink t (row (home tm) s) = pre ++ post ->
  timers_ok (linked_t now t tm pre post s).
Proof.
  intros Hs Ht E. destruct (started_flags now tm) as (F1 & F2 & F3).
  assert (forall x xm, timers (linked_t now t tm pre post s) !! x = Some xm ->
            (x = t /\ xm = started now tm) \/ (x <> t /\ timers s !! x = Some xm)) as Hget.
  { intros x xm Hx. simpl in Hx. apply lookup_insert_Some in Hx. naive_solver. }
  split.
  - rewrite (linked_rows now t tm pre post s E). constructor; [rewrite elem_of_unlink; tauto|].
    apply NoDup_filter, (to_nodup s Hs).
  - intros x Hx%linked_in; [|done]. simpl. apply lookup_insert_is_Some'.
    destruct Hx as [->|Hx]; [by left|right; by apply (to_known s Hs)].
  - intros x xm Hx Hin. apply (linked_row_in now t tm pre post s HTimer x E) in Hin.
    destruct (Hget x xm Hx) as [[-> ->]|[Hn Hx']], Hin as [[? Eh]|[? Hin]]; try done.
    + rewrite F1, F2. split; [done|]. unfold home in Eh. by case_match.
    + by apply (to_hard s Hs x).
  - intros x xm Hx Hin. apply (linked_row_in now t tm pre post s HSoft x E) in Hin.
    destruct (Hget x xm Hx) as [[-> ->]|[Hn Hx']], Hin as [[? Eh]|[? Hin]]; try done.
    + rewrite F1, F2. split; [done|]. unfold home in Eh. by case_match.
    + by apply (to_soft s Hs x).
  - intros x xm Hx Hf. apply linked_in; [done|].
    destruct (Hget x xm Hx) as [[-> ->]|[Hn Hx']]; [by left|right; by apply (to_active s Hs x xm)].
Qed.

Lemma key_insert_ne tms b t tm x : x <> t -> key (<[t := tm]> tms) b x = key tms b x.
Proof. intros H. unfold key. by rewrite lookup_insert_ne. Qed.
Lemma key_insert_eq tms b t tm : key (<[t := tm]> tms) b t = u32 (timeout_tick tm - b).
Proof. unfold key. by rewrite lookup_insert_eq. Qed.

Lemma ordered_ext tms tms' b l :
  (forall x, x ∈ l -> key tms' b x = key tms b x) -> ordered tms b l -> ordered tms' b l.
Proof.
  unfold ordered. induction l as [|x l IH]; intros Hk; [constructor|].
  rewrite !StronglySorted_cons, !Forall_forall. intros [H1 H2]. split; [|apply IH; set_solver].
  intros y Hy. rewrite !Hk by set_solver. auto.
Qed.

Lemma ordered_unlink tms b t l : ordered tms b l -> ordered tms b (unlink t l).
Proof.
  unfold ordered, unlink. induction l as [|x l IH]; [done|]. rewrite StronglySorted_cons. intros [H1 H2].
  rewrite filter_cons. case_decide; [|auto]. apply StronglySorted_cons. split; [|auto].
  rewrite Forall_forall in *. intros y Hy%list_elem_of_filter. apply H1, Hy.
Qed.

(** The list after a start is ordered. *)
Lemma linked_ordered now b t tm pre post s :
  unlink t (row (home tm) s) = pre ++ post ->
  timer_insert (<[t := set_timeout_tick (u32 (now + init_tick tm)) (clear_flag RT_TIMER_FLAG_ACTIVATED tm)]>
                  (timers s)) t (u32 (now + init_tick tm)) (pre ++ post) = Some (pre ++ t :: post) ->
  within (timers s) b (unlink t (row (home tm) s)) ->
  ordered (timers s) b (row (home tm) s) ->
  u32 (u32 (now + init_tick tm) - b) < half_range ->
  ordered (timers (linked_t now t tm pre post s)) b (pre ++ t :: post) /\
  within (timers (linked_t now t tm pre post s)) b (pre ++ t :: post).
Proof.
  intros E Ei Hw Ho Hk.
  pose (tms1 := <[t := set_timeout_tick (u32 (now + init_tick tm)) (clear_flag RT_TIMER_FLAG_ACTIVATED tm)]> (timers s)).
  assert (forall x, key (timers (linked_t now t tm pre post s)) b x = key tms1 b x) as Hkey.
  { intros x. simpl. unfold key, tms1. destruct (decide (x = t)) as [->|];
      [by rewrite !lookup_insert_eq|by rewrite !lookup_insert_ne]. }
  assert (key tms1 b t = u32 (u32 (now + init_tick tm) - b)) as Ekt by apply key_insert_eq.
  assert (forall x, x ∈ pre ++ post -> key tms1 b x = key (timers s) b x) as Hk1.
  { intros x Hx. rewrite <- E in Hx. apply elem_of_unlink in Hx as [_ Hn]. by apply key_insert_ne. }
  destruct (timer_insert_spec tms1 b t (u32 (now + init_tick tm)) (pre ++ post))
    as (pre' & post' & E' & Ei' & Hpre & Hpost); [|done|].
  { intros x Hx. rewrite Hk1 by done. rewrite E in Hw. unfold tms1.
    destruct (Hw x Hx) as [Hs Hkx]. split; [|done]. apply lookup_insert_is_Some'. by right. }
  split.
  - apply (ordered_ext tms1); [intros; apply Hkey|]. fold tms1 in Ei. rewrite Ei in Ei'. injection Ei' as ->.
    apply (ordered_insert tms1 b t (u32 (now + init_tick tm)) pre' post'); [|done..].
    rewrite <- E', <- E. apply (ordered_ext (timers s)); [|by apply ordered_unlink].
    intros x [_ Hn]%elem_of_unlink. by apply key_insert_ne.
  - intros x Hx. rewrite Hkey. simpl. rewrite lookup_insert_is_Some'.
    destruct (decide (x = t)) as [->|Hn]; [rewrite Ekt; auto|].
    assert (x ∈ pre ++ post) as Hx' by set_solver. rewrite Hk1 by done. rewrite E in Hw.
    destruct (Hw x Hx'). auto.
Qed.

(** ** Theorems *)

(** C34. Starting a timer keeps its list in expiry order: when all pending
    timeouts of the list the timer goes to, and its own, lie within half the
    tick range after some instant [b] (whatever the tick counter did in
    between, so across its wrap-around), and the list is ordered by the time
    left from [b], then after the critical section of [rt_timer_start] the list
    is the old one (without an earlier entry of the timer) with the timer
    inserted after every timer that expires no later and before every timer
    that expires later; the timer is active, its timeout is the current tick
    plus its period, and every other timer is unchanged. *)
Theorem timer_start_ordered now b t tm s :
  timers_ok s -> timers s !! t = Some tm ->
  within (timers s) b (unlink t (row (home tm) s)) ->
  ordered (timers s) b (row (home tm) s) ->
  u32 (u32 (now + init_tick tm) - b) < half_range ->
  wp (timer_link now t) s (fun _ s' =>
    timers_ok s' /\
    exists pre post,
      unlink t (row (home tm) s) = pre ++ post /\ row (home tm) s' = pre ++ t :: post /\
      ordered (timers s') b (row (home tm) s') /\
      (forall x, x ∈ pre -> key (timers s') b x <= key (timers s') b t) /\
      (forall x, x ∈ post -> key (timers s') b t < key (timers s') b x) /\
      (exists tm', timers s' !! t = Some tm' /\ timeout_tick tm' = u32 (now + init_tick tm) /\
         has_flag RT_TIMER_FLAG_ACTIVATED tm' = true) /\
      (forall x, x <> t -> timers s' !! x = timers s !! x)).
Proof.
  intros Hs Ht Hw Ho Hk.
  pose (tms1 := <[t := set_timeout_tick (u32 (now + init_tick tm)) (clear_flag RT_TIMER_FLAG_ACTIVATED tm)]> (timers s)).
  destruct (timer_insert_spec tms1 b t (u32 (now + init_tick tm)) (unlink t (row (home tm) s)))
    as (pre & post & E & Ei & Hpre & Hpost); [|done|].
  { intros x Hx. assert (x <> t) by (apply elem_of_unlink in Hx; naive_solver).
    unfold tms1. rewrite key_insert_ne, lookup_insert_ne by done. by apply Hw. }
  apply (wp_timer_link now t tm pre post); [done|done|by rewrite <- E|].
  split; [by apply linked_ok|]. exists pre, post. split; [done|].
  assert (row (home tm) (linked_t now t tm pre post s) = pre ++ t :: post) as Er
    by (unfold linked_t, home; by case_match).
  assert (forall x, key (timers (linked_t now t tm pre post s)) b x = key tms1 b x) as Hkey.
  { intros x. simpl. unfold key, tms1. destruct (decide (x = t)) as [->|];
      [by rewrite !lookup_insert_eq|by rewrite !lookup_insert_ne]. }
  assert (key tms1 b t = u32 (u32 (now + init_tick tm) - b)) as Ekt by apply key_insert_eq.
  destruct (ordered_insert tms1 b t (u32 (now + init_tick tm)) pre post) as [Hord Hpost2]; [|done..|].
  { rewrite <- E. apply (ordered_ext (timers s)); [|by apply ordered_unlink].
    intros x [_ Hn]%elem_of_unlink. by apply key_insert_ne. }
  rewrite Er. split_and!; [done| | | | |].
  - by apply (ordered_ext tms1); [intros; apply Hkey|].
  - intros x Hx. rewrite !Hkey, Ekt. auto.
  - intros x Hx. rewrite !Hkey, Ekt. auto.
  - exists (started now tm). simpl. rewrite lookup_insert_eq. split; [done|].
    split; [done|]. apply started_flags.
  - intros x Hx. simpl. by rewrite lookup_insert_ne.
Qed.

(** Three pending timers around the wrap-around of the counter: the new one
    expires with the second and goes behind it. *)
Definition demo_timer (init timeout : Z) : rt_timer :=
  mk_timer RT_TIMER_FLAG_ACTIVATED (User_timeout 1) 1 init timeout.
Definition demo_timers : timer_st :=
  mk_timers (<[Obj 1 := demo_timer 10 0xfffffffe]> (<[Obj 2 := demo_timer 10 5]>
     (<[Obj 3 := demo_timer 10 9]> (<[Obj 4 := mk_timer 0 (User_timeout 2) 1 8 0]> ∅))))
    [Obj 1; Obj 2; Obj 3] [] [] [] RT_SOFT_TIMER_IDLE 0.

Lemma demo_timers_lookup x xm : timers demo_timers !! x = Some xm ->
  (x = Obj 1 \/ x = Obj 2 \/ x = Obj 3 \/ x = Obj 4).
Proof. intros H. simpl in H. repeat (apply lookup_insert_Some in H as [[<- _]|[_ H]]; [tauto|]). done. Qed.

Lemma demo_timers_ok : timers_ok demo_timers.
Proof.
  split.
  - apply (bool_decide_unpack _). by vm_compute.
  - intros t Ht. apply (bool_decide_unpack _). unfold all_rows in Ht. simpl in Ht.
    set_unfold in Ht. destruct Ht as [->|[->|[->|[]]]]; by vm_compute.
  - intros t tm Ht Hin. simpl in Hin. set_unfold in Hin.
    destruct Hin as [->|[->|[->|[]]]]; vm_compute in Ht; by simplify_eq.
  - intros t tm Ht Hin. by apply elem_of_nil in Hin.
  - intros t tm Ht Hf. destruct (demo_timers_lookup t tm Ht) as [->|[->|[->| ->]]]; unfold all_rows; simpl.
    1-3: set_solver. vm_compute in Ht. by simplify_eq.
Qed.

Lemma timer_start_ordered_witness :
  exists s', timer_link 0xfffffffd (Obj 4) demo_timers = Some (tt, s') /\
    rt_timer_list s' = [Obj 1; Obj 2; Obj 4; Obj 3] /\
    ordered (timers s') 0xfffffffd (rt_timer_list s').
Proof.
  assert (wp (timer_link 0xfffffffd (Obj 4)) demo_timers
            (fun _ s' => ordered (timers s') 0xfffffffd (rt_timer_list s'))) as H.
  { eapply wp_mono; [apply (timer_start_ordered 0xfffffffd 0xfffffffd (Obj 4) (mk_timer 0 (User_timeout 2) 1 8 0))|].
    - apply demo_timers_ok.
    - reflexivity.
    - intros x Hx. vm_compute in Hx. set_unfold in Hx.
      destruct Hx as [->|[->|[->|[]]]]; (split; [by apply (bool_decide_unpack _); vm_compute|by vm_compute]).
    - repeat (constructor; [|repeat (constructor; [vm_compute; congruence|]); constructor]). constructor.
    - by vm_compute.
    - intros a s' (_ & pre & post & _ & _ & Ho & _). exact Ho. }
  apply wp_Some in H as ([] & s' & E & Hi). exists s'. split; [exact E|].
  split; [|exact Hi]. vm_compute in E. injection E as <-. reflexivity.
Defined.

End Tmr.
