(* ===== verification/Thread.v ===== *)
(** * Threads, timers at work, and the system tick

    Model of [rt-thread/src/thread.c], of the operations of [timer.c] that
    reach the scheduler, of [clock.c], and of the parts of [object.c] that lock
    it, over the state [kernel] that joins the scheduler, the timers, the object
    headers and the tick counter.

    [rt_schedule] is a step of the scheduler state; the code a thread executes
    after the call that made it wait runs when it is scheduled again, and is a
    definition of its own (suffix [_resumed]).  Application code the kernel
    calls back (timeout functions, thread cleanup) is a parameter.  The stack
    of a thread and its saved registers are not modelled. *)
From stdpp Require Import base list gmap sorting.
From Stdlib Require Import ZArith Lia.
From S2P Require Import Prelude Scheduler Object Timer.

Module Thr.
Import Sched Obj.

Definition RT_TICK_PER_SECOND : Z := 1000.
Definition RT_WAITING_FOREVER : Z := -1.

Definition RT_THREAD_CTRL_STARTUP : Z := 0.
Definition RT_THREAD_CTRL_CLOSE : Z := 1.
Definition RT_THREAD_CTRL_CHANGE_PRIORITY : Z := 2.

Record kernel := mk_kernel {
  k_sched : sched;
  k_timer : Tmr.timer_st;
  k_obj : obj_st;
  rt_tick : Z
}.

Definition set_k_sched (v : sched) (r : kernel) : kernel :=
  mk_kernel v (k_timer r) (k_obj r) (rt_tick r).
Definition set_k_timer (v : Tmr.timer_st) (r : kernel) : kernel :=
  mk_kernel (k_sched r) v (k_obj r) (rt_tick r).
Definition set_k_obj (v : obj_st) (r : kernel) : kernel :=
  mk_kernel (k_sched r) (k_timer r) v (rt_tick r).
Definition set_rt_tick (v : Z) (r : kernel) : kernel :=
  mk_kernel (k_sched r) (k_timer r) (k_obj r) v.

Definition in_sched {A} (m : M sched A) : M kernel A := zoom k_sched set_k_sched m.
Definition in_timer {A} (m : M Tmr.timer_st A) : M kernel A := zoom k_timer set_k_timer m.
Definition in_obj {A} (m : M obj_st A) : M kernel A := zoom k_obj set_k_obj m.

(** ** object.c, under the scheduler lock *)

Definition rt_object_init (o : ref) (t : rt_object_class_type) (nm : list Z) : M kernel unit :=
  in_sched rt_enter_critical;;
  in_sched rt_exit_critical;;
  in_obj (object_attach o t nm).

Definition rt_object_find (nm : list Z) (t : rt_object_class_type) : M kernel (option ref) :=
  information ← in_obj (rt_object_get_information t);
  match information with
  | None => mret None
  | Some l =>
      in_sched rt_enter_critical;;
      hs ← gets (fun k => headers (k_obj k));
      r ← deref (object_search nm hs l);
      in_sched rt_exit_critical;;
      mret r
  end.

Definition rt_thread_find (nm : list Z) : M kernel (option ref) :=
  rt_object_find nm RT_Object_Class_Thread.

(** ** clock.c: reading and setting the tick *)

Definition rt_tick_get : M kernel Z := gets rt_tick.
Definition rt_tick_set (tick : Z) : M kernel unit := modify (set_rt_tick (u32 tick)).

Definition rt_tick_from_millisecond (ms : Z) : Z :=
  if ms <? 0 then u32 RT_WAITING_FOREVER
  else
    let tick := u32 (RT_TICK_PER_SECOND * Z.quot ms 1000) in
    u32 (tick + Z.quot (RT_TICK_PER_SECOND * Z.rem ms 1000 + 999) 1000).

Definition rt_tick_get_millisecond : M kernel Z :=
  t ← rt_tick_get; mret (u32 (t * (1000 / RT_TICK_PER_SECOND))).

(** ** timer.c: creation and removal of a static timer *)

Definition rt_timer_init (t : ref) (nm : list Z) (timeout : Tmr.callback) (param : oid)
    (time flg : Z) : M kernel unit :=
  rt_object_init t RT_Object_Class_Timer nm;;
  in_timer (Tmr._rt_timer_init t timeout param time flg).

Definition rt_timer_detach (t : ref) : M kernel Z :=
  in_timer (Tmr._rt_timer_remove t);;
  in_timer (Tmr.upd_timer t (Tmr.clear_flag Tmr.RT_TIMER_FLAG_ACTIVATED));;
  in_obj (rt_object_detach t);;
  mret RT_EOK.

(** ** thread.c: suspension and resumption *)

Definition rt_thread_suspend (thread : oid) : M kernel Z :=
  th ← in_sched (get_thread thread);
  let st := stat_of th in
  if negb (st =? RT_THREAD_READY) && negb (st =? RT_THREAD_RUNNING) then mret (- RT_ERROR)
  else
    in_sched (rt_schedule_remove_thread thread);;
    in_sched (upd_thread thread (with_stat RT_THREAD_SUSPEND));;
    in_timer (Tmr.rt_timer_stop (ThreadTimer thread));;
    mret RT_EOK.

Definition rt_thread_resume (thread : oid) : M kernel Z :=
  th ← in_sched (get_thread thread);
  if negb (stat_of th =? RT_THREAD_SUSPEND) then mret (- RT_ERROR)
  else
    in_sched (tlist_remove thread);;
    in_timer (Tmr.rt_timer_stop (ThreadTimer thread));;
    in_sched (rt_schedule_insert_thread thread);;
    mret RT_EOK.

Definition rt_thread_timeout (thread : oid) : M kernel unit :=
  in_sched (upd_thread thread (set_error (- RT_ETIMEOUT)));;
  in_sched (tlist_remove thread);;
  in_sched (rt_schedule_insert_thread thread);;
  in_sched rt_schedule.

(** [1 << priority]; a shift by the width of the type or more is undefined. *)
Definition priority_mask (p : Z) : option Z :=
  if (0 <=? p) && (p <? 32) then Some (Z.shiftl 1 p) else None.

Definition set_priority (thread : oid) (p : Z) : M kernel unit :=
  in_sched (upd_thread thread (set_current_priority p));;
  m ← deref (priority_mask p);
  in_sched (upd_thread thread (set_number_mask m)).

Definition rt_thread_startup (thread : oid) : M kernel Z :=
  th ← in_sched (get_thread thread);
  set_priority thread (init_priority th);;
  in_sched (upd_thread thread (set_stat RT_THREAD_SUSPEND));;
  rt_thread_resume thread;;
  self ← in_sched rt_thread_self;
  when (bool_decide (self <> None)) (in_sched rt_schedule);;
  mret RT_EOK.

(** [rt_thread_control] with [RT_THREAD_CTRL_CHANGE_PRIORITY]. *)
Definition thread_change_priority (thread : oid) (priority : Z) : M kernel unit :=
  th ← in_sched (get_thread thread);
  if stat_of th =? RT_THREAD_READY then
    in_sched (rt_schedule_remove_thread thread);;
    set_priority thread priority;;
    in_sched (rt_schedule_insert_thread thread)
  else set_priority thread priority.

Definition rt_thread_yield : M kernel Z :=
  self ← in_sched rt_thread_self;
  thread ← deref self;
  in_sched (upd_thread thread (fun th => set_remaining_tick (init_tick th) th));;
  in_sched (upd_thread thread (fun th => set_stat (Z.lor (stat th) RT_THREAD_STAT_YIELD) th));;
  in_sched rt_schedule;;
  mret RT_EOK.

(** ** timer.c: starting a timer *)

Section SoftTimerThread.
(** The static thread that runs the callbacks of soft timers. *)
Context (timer_thread : oid).

Definition rt_timer_start (t : ref) : M kernel Z :=
  now ← rt_tick_get;
  in_timer (Tmr.timer_link now t);;
  tm ← in_timer (Tmr.get_timer t);
  status ← in_timer (gets Tmr.soft_timer_status);
  when (Tmr.has_flag Tmr.RT_TIMER_FLAG_SOFT_TIMER tm) (
    th ← in_sched (get_thread timer_thread);
    when ((status =? Tmr.RT_SOFT_TIMER_IDLE) && (stat_of th =? RT_THREAD_SUSPEND)) (
      rt_thread_resume timer_thread;;
      in_sched rt_schedule));;
  mret RT_EOK.

(** ** thread.c: sleeping *)

(** [rt_timer_control(&thread->thread_timer, RT_TIMER_CTRL_SET_TIME, &tick)]
    followed by [rt_timer_start]. *)
Definition start_thread_timer (thread : oid) (tick : Z) : M kernel unit :=
  in_timer (Tmr.rt_timer_control (ThreadTimer thread) Tmr.RT_TIMER_CTRL_SET_TIME tick);;
  rt_timer_start (ThreadTimer thread);;
  mret tt.

(** [rt_thread_sleep] until the thread gives up the processor. *)
Definition rt_thread_sleep (tick : Z) : M kernel oid :=
  self ← in_sched rt_thread_self;
  thread ← deref self;
  rt_thread_suspend thread;;
  start_thread_timer thread tick;;
  in_sched rt_schedule;;
  mret thread.

(** What the thread does when it runs again. *)
Definition rt_thread_sleep_resumed (thread : oid) : M kernel Z :=
  th ← in_sched (get_thread thread);
  when (error th =? - RT_ETIMEOUT) (in_sched (upd_thread thread (set_error RT_EOK)));;
  mret RT_EOK.

Definition rt_thread_delay (tick : Z) : M kernel oid := rt_thread_sleep tick.

(** The thread that waits, if it does, and the new value of [*tick]. *)
Definition rt_thread_delay_until (tick inc_tick : Z) : M kernel (option oid * Z) :=
  self ← in_sched rt_thread_self;
  thread ← deref self;
  cur_tick ← rt_tick_get;
  if u32 (cur_tick - tick) <? inc_tick then
    let tick' := u32 (tick + inc_tick) in
    let left_tick := u32 (tick' - cur_tick) in
    rt_thread_suspend thread;;
    start_thread_timer thread left_tick;;
    in_sched rt_schedule;;
    mret (Some thread, tick')
  else mret (None, cur_tick).

Definition rt_thread_mdelay (ms : Z) : M kernel oid :=
  rt_thread_sleep (rt_tick_from_millisecond ms).

(** ** thread.c: creation and end of a thread *)

Section Callbacks.
(** Application code: timeout functions and the cleanup of a thread. *)
Context (user_timeout : Z -> oid -> M kernel unit).
Context (user_cleanup : Z -> oid -> M kernel unit).

Definition _thread_cleanup_execute (thread : oid) : M kernel unit :=
  th ← in_sched (get_thread thread);
  match cleanup th with Some f => user_cleanup f thread | None => mret tt end.

Definition rt_thread_exit : M kernel unit :=
  self ← in_sched rt_thread_self;
  thread ← deref self;
  _thread_cleanup_execute thread;;
  in_sched (rt_schedule_remove_thread thread);;
  in_sched (upd_thread thread (set_stat RT_THREAD_CLOSE));;
  rt_timer_detach (ThreadTimer thread);;
  sys ← in_obj (rt_object_is_systemobject (Obj thread));
  (if sys : bool then in_obj (rt_object_detach (Obj thread))
   else in_sched (tlist_insert_after LDefunct thread));;
  in_sched rt_schedule.

(** The thread must not be on a list; its stack and saved context are left
    out. *)
Definition _rt_thread_init (thread : oid) (entry_ param stack_start stack_sz : Z)
    (priority tick : Z) : M kernel Z :=
  in_sched (detached_or_fault thread);;
  old ← gets (fun k => threads (k_sched k) !! thread);
  in_sched (modify (fun s => set_threads (<[thread :=
    mk_thread entry_ param stack_start stack_sz RT_EOK RT_THREAD_INIT priority priority 0
      (match old with Some th => event_set th | None => 0 end)
      (match old with Some th => event_info th | None => 0 end)
      tick tick None 0]> (threads s)) s));;
  h ← in_obj (get_header (Obj thread));
  rt_timer_init (ThreadTimer thread) (name h) Tmr.Thread_timeout thread 0 0;;
  mret RT_EOK.

Definition rt_thread_init (thread : oid) (nm : list Z) (entry_ param stack_start stack_sz : Z)
    (priority tick : Z) : M kernel Z :=
  rt_object_init (Obj thread) RT_Object_Class_Thread nm;;
  _rt_thread_init thread entry_ param stack_start stack_sz priority tick.

Definition rt_thread_detach (thread : oid) : M kernel Z :=
  th ← in_sched (get_thread thread);
  if stat_of th =? RT_THREAD_CLOSE then mret RT_EOK
  else
    when (negb (stat_of th =? RT_THREAD_INIT)) (in_sched (rt_schedule_remove_thread thread));;
    _thread_cleanup_execute thread;;
    rt_timer_detach (ThreadTimer thread);;
    in_sched (upd_thread thread (set_stat RT_THREAD_CLOSE));;
    in_obj (rt_object_detach (Obj thread));;
    mret RT_EOK.

Definition rt_thread_delete (thread : oid) : M kernel Z :=
  th ← in_sched (get_thread thread);
  if stat_of th =? RT_THREAD_CLOSE then mret RT_EOK
  else
    when (negb (stat_of th =? RT_THREAD_INIT)) (in_sched (rt_schedule_remove_thread thread));;
    _thread_cleanup_execute thread;;
    rt_timer_detach (ThreadTimer thread);;
    in_sched (upd_thread thread (set_stat RT_THREAD_CLOSE));;
    in_sched (tlist_insert_after LDefunct thread);;
    mret RT_EOK.

Definition rt_thread_control (thread : oid) (cmd arg : Z) : M kernel Z :=
  if cmd =? RT_THREAD_CTRL_CHANGE_PRIORITY then
    thread_change_priority thread (u8 arg);; mret RT_EOK
  else if cmd =? RT_THREAD_CTRL_STARTUP then rt_thread_startup thread
  else if cmd =? RT_THREAD_CTRL_CLOSE then
    sys ← in_obj (rt_object_is_systemobject (Obj thread));
    rt_err ← (if sys : bool then rt_thread_detach thread else rt_thread_delete thread);
    in_sched rt_schedule;;
    mret rt_err
  else mret RT_EOK.

(** ** timer.c: expiry *)

Definition call_timeout (tm : Tmr.rt_timer) : M kernel unit :=
  match Tmr.timeout_func tm with
  | Tmr.Thread_timeout => rt_thread_timeout (Tmr.parameter tm)
  | Tmr.User_timeout f => user_timeout f (Tmr.parameter tm)
  end.

(** After the callback of [t]: nothing when it left the local list by itself,
    otherwise it is taken off it, and started again when it is periodic and
    still active. *)
Definition timer_after_callback (tmp : Tmr.thead) (t : ref) : M kernel unit :=
  l ← in_timer (gets (Tmr.row tmp));
  match l with
  | [] => mret tt
  | _ =>
      in_timer (Tmr._rt_timer_remove t);;
      tm ← in_timer (Tmr.get_timer t);
      when (Tmr.has_flag Tmr.RT_TIMER_FLAG_PERIODIC tm && Tmr.has_flag Tmr.RT_TIMER_FLAG_ACTIVATED tm) (
        in_timer (Tmr.upd_timer t (Tmr.clear_flag Tmr.RT_TIMER_FLAG_ACTIVATED));;
        rt_timer_start t;;
        mret tt)
  end.

(** The loop of [rt_timer_check]; [fuel] bounds the number of callbacks. *)
Fixpoint timer_check_loop (fuel : nat) (current_tick : Z) : M kernel unit :=
  match fuel with
  | O => fault
  | S fuel =>
      l ← in_timer (gets (Tmr.row Tmr.HTimer));
      match l with
      | [] => mret tt
      | t :: _ =>
          tm ← in_timer (Tmr.get_timer t);
          if u32 (current_tick - Tmr.timeout_tick tm) <? Tmr.RT_TICK_MAX / 2 then
            tm ← in_timer (Tmr.timer_expire Tmr.HCheck t);
            call_timeout tm;;
            current_tick ← rt_tick_get;
            timer_after_callback Tmr.HCheck t;;
            timer_check_loop fuel current_tick
          else mret tt
      end
  end.

Definition rt_timer_check (fuel : nat) : M kernel unit :=
  current_tick ← rt_tick_get;
  timer_check_loop fuel current_tick.

(** [rt_soft_timer_check] reads the tick in each round. *)
Fixpoint rt_soft_timer_check (fuel : nat) : M kernel unit :=
  match fuel with
  | O => fault
  | S fuel =>
      l ← in_timer (gets (Tmr.row Tmr.HSoft));
      match l with
      | [] => mret tt
      | t :: _ =>
          tm ← in_timer (Tmr.get_timer t);
          current_tick ← rt_tick_get;
          if u32 (current_tick - Tmr.timeout_tick tm) <? Tmr.RT_TICK_MAX / 2 then
            tm ← in_timer (Tmr.timer_expire Tmr.HSoftCheck t);
            in_timer (modify (Tmr.set_soft_timer_status Tmr.RT_SOFT_TIMER_BUSY));;
            call_timeout tm;;
            in_timer (modify (Tmr.set_soft_timer_status Tmr.RT_SOFT_TIMER_IDLE));;
            timer_after_callback Tmr.HSoftCheck t;;
            rt_soft_timer_check fuel
          else mret tt
      end
  end.

(** One round of the timer thread up to its next [rt_soft_timer_check]; the
    result says whether it gave up the processor on the way. *)
Definition rt_thread_timer_entry : M kernel bool :=
  next_timeout ← in_timer (Tmr.rt_timer_list_next_timeout Tmr.HSoft);
  if next_timeout =? Tmr.RT_TICK_MAX then
    self ← in_sched rt_thread_self;
    thread ← deref self;
    rt_thread_suspend thread;;
    in_sched rt_schedule;;
    mret true
  else
    current_tick ← rt_tick_get;
    if u32 (next_timeout - current_tick) <? Tmr.RT_TICK_MAX / 2 then
      rt_thread_delay (u32 (next_timeout - current_tick));;
      mret true
    else mret false.

Definition rt_system_timer_thread_init (nm : list Z) (entry_ stack_start stack_sz : Z) : M kernel unit :=
  in_timer (modify (Tmr.set_rt_soft_timer_list []));;
  rt_thread_init timer_thread nm entry_ 0 stack_start stack_sz 4 10;;
  rt_thread_startup timer_thread;;
  mret tt.

(** ** clock.c: the tick interrupt *)

Definition rt_tick_increase (fuel : nat) : M kernel unit :=
  modify (fun k => set_rt_tick (u32 (rt_tick k + 1)) k);;
  self ← in_sched rt_thread_self;
  thread ← deref self;
  in_sched (upd_thread thread (fun th => set_remaining_tick (u32 (remaining_tick th - 1)) th));;
  th ← in_sched (get_thread thread);
  when (remaining_tick th =? 0) (
    in_sched (upd_thread thread (fun th => set_remaining_tick (init_tick th) th));;
    in_sched (upd_thread thread (fun th => set_stat (Z.lor (stat th) RT_THREAD_STAT_YIELD) th));;
    in_sched rt_schedule);;
  rt_timer_check fuel.

End Callbacks.
End SoftTimerThread.

(** ** The invariant of the kernel *)

(** The built-in timer of thread [t], as [_rt_thread_init] sets it up. *)
Definition is_thread_timer (t : oid) (tm : Tmr.rt_timer) : Prop :=
  Tmr.timeout_func tm = Tmr.Thread_timeout /\ Tmr.parameter tm = t /\
  Tmr.has_flag Tmr.RT_TIMER_FLAG_PERIODIC tm = false /\
  Tmr.has_flag Tmr.RT_TIMER_FLAG_SOFT_TIMER tm = false.

(** The parts are well formed; every thread has its timer; the timer of a
    thread is pending only while the thread is suspended; other timers call
    application code. *)
Record kinv (k : kernel) : Prop := {
  ki_sched : sched_inv (k_sched k);
  ki_timers : Tmr.timers_ok (k_timer k);
  ki_ttimer : forall t, is_Some (threads (k_sched k) !! t) <->
    exists tm, Tmr.timers (k_timer k) !! ThreadTimer t = Some tm /\ is_thread_timer t tm;
  ki_only : forall t tm, Tmr.timers (k_timer k) !! ThreadTimer t = Some tm -> is_thread_timer t tm;
  ki_wait : forall t th, threads (k_sched k) !! t = Some th ->
    ThreadTimer t ∈ Tmr.rt_timer_list (k_timer k) -> stat_of th = RT_THREAD_SUSPEND;
  ki_user : forall o tm, Tmr.timers (k_timer k) !! Obj o = Some tm ->
    exists f, Tmr.timeout_func tm = Tmr.User_timeout f
}.

Lemma wp_in_sched {A} (m : M sched A) k (Q : A -> kernel -> Prop) :
  wp m (k_sched k) (fun a s => Q a (set_k_sched s k)) -> wp (in_sched m) k Q.
Proof. apply wp_zoom. Qed.
Lemma wp_in_timer {A} (m : M Tmr.timer_st A) k (Q : A -> kernel -> Prop) :
  wp m (k_timer k) (fun a s => Q a (set_k_timer s k)) -> wp (in_timer m) k Q.
Proof. apply wp_zoom. Qed.
Lemma wp_in_obj {A} (m : M obj_st A) k (Q : A -> kernel -> Prop) :
  wp m (k_obj k) (fun a s => Q a (set_k_obj s k)) -> wp (in_obj m) k Q.
Proof. apply wp_zoom. Qed.

Lemma set_k_sched_id k : set_k_sched (k_sched k) k = k.
Proof. by destruct k. Qed.
Lemma set_k_timer_id k : set_k_timer (k_timer k) k = k.
Proof. by destruct k. Qed.

(** The timer of an existing thread. *)
Lemma thread_timer_of k t th :
  kinv k -> threads (k_sched k) !! t = Some th ->
  exists tm, Tmr.timers (k_timer k) !! ThreadTimer t = Some tm /\ is_thread_timer t tm.
Proof. intros Hk Ht. apply (ki_ttimer k Hk). eauto. Qed.

Lemma thread_ok_of k t th :
  kinv k -> threads (k_sched k) !! t = Some th -> thread_ok (k_sched k) t th.
Proof. intros Hk Ht. destruct (ki_sched k Hk) as [_ Hi]. by apply (Hi _ _ Ht); tauto. Qed.

Lemma kinv_lists k : kinv k -> lists_ok (k_sched k).
Proof. intros Hk. apply (ki_sched k Hk). Qed.

(** A step of the scheduler that keeps its invariant, the set of threads, and
    the suspended threads whose timer is pending. *)
Lemma kinv_sched k s' :
  kinv k -> sched_inv s' ->
  (forall t, is_Some (threads s' !! t) <-> is_Some (threads (k_sched k) !! t)) ->
  (forall t th', threads s' !! t = Some th' -> ThreadTimer t ∈ Tmr.rt_timer_list (k_timer k) ->
     stat_of th' = RT_THREAD_SUSPEND) ->
  kinv (set_k_sched s' k).
Proof.
  intros Hk Hs Hd Hw. destruct Hk. split; simpl; try done.
  intros t. by rewrite Hd.
Qed.

(** ** Suspending a thread *)

Definition upd_st (t : oid) (th : rt_thread) (s : sched) : sched :=
  set_threads (<[t := th]> (threads s)) s.

Lemma upd_threads t th s : threads (upd_st t th s) = <[t := th]> (threads s).
Proof. done. Qed.

Definition suspended_s (t : oid) (th : rt_thread) (s : sched) : sched :=
  upd_st t (with_stat RT_THREAD_SUSPEND th) (removed_st t th s).

#[global] Arguments suspended_s : simpl never.

Definition suspended_k (t : oid) (th : rt_thread) (tm : Tmr.rt_timer) (k : kernel) : kernel :=
  set_k_timer (Tmr.stop_result (ThreadTimer t) tm (k_timer k))
    (set_k_sched (suspended_s t th (k_sched k)) k).

Lemma started_prio k t th :
  kinv k -> threads (k_sched k) !! t = Some th ->
  stat_of th <> RT_THREAD_INIT -> stat_of th <> RT_THREAD_CLOSE -> prio_ok th.
Proof. intros Hk Ht. by destruct (thread_ok_of k t th Hk Ht) as (_ & _ & _ & _ & ?). Qed.

Lemma ready_queue_of s t th :
  thread_ok s t th -> forall q, inl_ s (LReady q) t -> q = current_priority th.
Proof. intros (H1 & _) q Hq. destruct (H1 _ Hq) as [_ E]. done. Qed.

Lemma wp_thread_suspend t th tm k (Q : Z -> kernel -> Prop) :
  kinv k -> threads (k_sched k) !! t = Some th ->
  stat_of th = RT_THREAD_READY \/ stat_of th = RT_THREAD_RUNNING ->
  Tmr.timers (k_timer k) !! ThreadTimer t = Some tm ->
  Q RT_EOK (suspended_k t th tm k) ->
  wp (rt_thread_suspend t) k Q.
Proof.
  intros Hk Ht Hst Htm HQ. unfold rt_thread_suspend.
  wp_step. apply wp_in_sched. eapply wp_get_thread; [done|]. rewrite set_k_sched_id.
  assert (negb (stat_of th =? RT_THREAD_READY) && negb (stat_of th =? RT_THREAD_RUNNING) = false) as ->.
  { destruct Hst as [-> | ->]; done. }
  wp_step. apply wp_in_sched. eapply wp_schedule_remove_thread; [done| |].
  { apply (lo_rows _ (kinv_lists k Hk)). apply (started_prio k t th); [done|done|stats|stats]. }
  wp_step. apply wp_in_sched. eapply wp_upd_thread; [simpl; by rewrite removed_threads|].
  wp_step. apply wp_in_timer. eapply Tmr.wp_timer_stop; [done|]. wp_steps. exact HQ.
Qed.

(** A thread in a state other than READY and RUNNING is refused. *)
Lemma wp_thread_suspend_err t th k (Q : Z -> kernel -> Prop) :
  threads (k_sched k) !! t = Some th ->
  stat_of th <> RT_THREAD_READY -> stat_of th <> RT_THREAD_RUNNING ->
  Q (- RT_ERROR) k -> wp (rt_thread_suspend t) k Q.
Proof.
  intros Ht H1 H2 HQ. unfold rt_thread_suspend.
  wp_step. apply wp_in_sched. eapply wp_get_thread; [done|]. rewrite set_k_sched_id.
  rewrite (proj2 (Z.eqb_neq _ _) H1), (proj2 (Z.eqb_neq _ _) H2). by wp_steps.
Qed.

Lemma suspended_members t th s l :
  members (suspended_s t th s) l = filter (fun x => x <> t) (members s l).
Proof. apply removed_members. Qed.

Lemma suspended_threads t th s :
  threads (suspended_s t th s) = <[t := with_stat RT_THREAD_SUSPEND th]> (threads s).
Proof. unfold suspended_s, upd_st. simpl. by rewrite removed_threads. Qed.

Lemma suspended_not_attached t th s : ~ attached (suspended_s t th s) t.
Proof. apply removed_not_attached. Qed.

Lemma suspended_inv t th s :
  sched_inv s -> threads s !! t = Some th -> prio_ok th -> sched_inv (suspended_s t th s).
Proof.
  intros Hinv Ht Hp. pose proof Hinv as [Hs Hi].
  eapply (inv_but_close (fun x => False \/ x = t) _ t (with_stat RT_THREAD_SUSPEND th)).
  - eapply inv_but_upd; [|by rewrite removed_threads|by right].
    eapply inv_but_removed; [done|done|done|]. apply ready_queue_of. by apply (Hi _ _ Ht); tauto.
  - apply lookup_insert_eq.
  - assert (stat_of (with_stat RT_THREAD_SUSPEND th) = RT_THREAD_SUSPEND) as E by by apply stat_of_with_stat.
    unfold thread_ok. rewrite E. split_and!; [|stats|stats|stats|done].
    intros l Hl. exfalso. apply (suspended_not_attached t th s), attached_iff. by exists l.
  - tauto.
Qed.

Lemma insert_dom {A} (m : gmap oid A) t a t' :
  is_Some (m !! t) -> is_Some (<[t := a]> m !! t') <-> is_Some (m !! t').
Proof.
  intros H. rewrite lookup_insert_is_Some'. split; [intros [<-|?]; done|tauto].
Qed.

(** Timers with the same callback and kind. *)
Definition same_timer (tm tm' : Tmr.rt_timer) : Prop :=
  Tmr.timeout_func tm' = Tmr.timeout_func tm /\ Tmr.parameter tm' = Tmr.parameter tm /\
  Tmr.has_flag Tmr.RT_TIMER_FLAG_PERIODIC tm' = Tmr.has_flag Tmr.RT_TIMER_FLAG_PERIODIC tm /\
  Tmr.has_flag Tmr.RT_TIMER_FLAG_SOFT_TIMER tm' = Tmr.has_flag Tmr.RT_TIMER_FLAG_SOFT_TIMER tm.

Lemma same_thread_timer t tm tm' : same_timer tm tm' -> is_thread_timer t tm -> is_thread_timer t tm'.
Proof. unfold same_timer, is_thread_timer. intros (-> & -> & -> & ->). done. Qed.

(** A step of the timer component that keeps its structure and the identity of
    the timers, and leaves only timers of suspended threads pending. *)
Lemma kinv_timers k st' :
  kinv k -> Tmr.timers_ok st' ->
  (forall x, option_Forall2 same_timer (Tmr.timers (k_timer k) !! x) (Tmr.timers st' !! x)) ->
  (forall t th, threads (k_sched k) !! t = Some th -> ThreadTimer t ∈ Tmr.rt_timer_list st' ->
     stat_of th = RT_THREAD_SUSPEND) ->
  kinv (set_k_timer st' k).
Proof.
  intros [H1 H2 H3 H4 H5 H6] Hok Hsame Hw. split; simpl; [done|done| | |done|].
  - intros t. rewrite H3. pose proof (Hsame (ThreadTimer t)) as Ho.
    inversion Ho as [tm tm' HF E1 E2|E1 E2]; [|split; intros (? & ? & _); congruence].
    split; intros (tm2 & ? & Hi); simplify_eq.
    + exists tm'. split; [done|by eapply same_thread_timer].
    + exists tm. split; [done|]. apply H4. done.
  - intros t tm' Ht. pose proof (Hsame (ThreadTimer t)) as Ho. rewrite Ht in Ho.
    inversion Ho as [tm tm2 HF E1 E2|]; simplify_eq. eapply same_thread_timer; [done|by apply H4].
  - intros o tm' Ho'. pose proof (Hsame (Obj o)) as Ho. rewrite Ho' in Ho.
    inversion Ho as [tm tm2 HF E1 E2|]; simplify_eq. destruct HF as (-> & _). by eapply H6.
Qed.

Lemma same_timer_refl tm : same_timer tm tm.
Proof. done. Qed.

Lemma timers_upd_same (m : gmap ref Tmr.rt_timer) t tm tm' x :
  m !! t = Some tm -> same_timer tm tm' -> option_Forall2 same_timer (m !! x) (<[t := tm']> m !! x).
Proof.
  intros Ht Hs. destruct (decide (x = t)) as [->|Hn].
  - rewrite lookup_insert_eq, Ht. by constructor.
  - rewrite lookup_insert_ne by done. destruct (m !! x); constructor. done.
Qed.

Lemma same_timer_clear tm : same_timer tm (Tmr.clear_flag Tmr.RT_TIMER_FLAG_ACTIVATED tm).
Proof. unfold same_timer. rewrite !Tmr.flag_clear_same by done. done. Qed.

Lemma kinv_timer_stop t th tm k :
  kinv k -> threads (k_sched k) !! t = Some th ->
  Tmr.timers (k_timer k) !! ThreadTimer t = Some tm ->
  kinv (set_k_timer (Tmr.stop_result (ThreadTimer t) tm (k_timer k)) k).
Proof.
  intros Hk Ht Htm. apply kinv_timers; [done|by apply Tmr.stop_result_ok; [apply Hk|]| |].
  - intros x. unfold Tmr.stop_result. case_match.
    + by eapply timers_upd_same, same_timer_clear.
    + destruct (Tmr.timers (k_timer k) !! x); constructor. done.
  - intros t' th' Ht' [Hin _]%Tmr.stop_result_hard; [|apply Hk|done]. by apply (ki_wait k Hk t').
Qed.

Lemma kinv_suspended t th tm k :
  kinv k -> threads (k_sched k) !! t = Some th -> prio_ok th ->
  Tmr.timers (k_timer k) !! ThreadTimer t = Some tm ->
  kinv (suspended_k t th tm k).
Proof.
  intros Hk Ht Hp Htm. unfold suspended_k.
  eapply (kinv_timer_stop t (with_stat RT_THREAD_SUSPEND th) tm (set_k_sched (suspended_s t th (k_sched k)) k)).
  - apply kinv_sched; [done|by apply suspended_inv, Hp; [apply Hk|]| |].
    + intros t'. rewrite suspended_threads. apply insert_dom. eauto.
    + intros t' th'. rewrite suspended_threads. intros [[-> <-]|[Hn Ht']]%lookup_insert_Some Hin.
      * by apply stat_of_with_stat.
      * by apply (ki_wait k Hk t').
  - change (threads (suspended_s t th (k_sched k)) !! t = Some (with_stat RT_THREAD_SUSPEND th)). by rewrite suspended_threads, lookup_insert_eq.
  - done.
Qed.

(** ** Resuming a thread *)

Definition resumed_s (t : oid) (th : rt_thread) (s : sched) : sched :=
  if decide (rt_current_thread s = Some t)
  then upd_st t (with_stat RT_THREAD_RUNNING th) (unlinked_st t s)
  else readied_st t th (unlinked_st t s).
#[global] Arguments resumed_s : simpl never.

Definition resumed_k (t : oid) (th : rt_thread) (tm : Tmr.rt_timer) (k : kernel) : kernel :=
  set_k_sched (resumed_s t th (k_sched k))
    (set_k_timer (Tmr.stop_result (ThreadTimer t) tm (k_timer k)) k).

Lemma unlinked_not_attached t s : ~ attached (unlinked_st t s) t.
Proof. rewrite attached_iff. intros [l Hl]. by apply inl_unlinked in Hl as [_ ?]. Qed.

Lemma inv_but_unlinked P t s :
  inv_but P s -> (forall q, ~ inl_ s (LReady q) t) ->
  inv_but (fun x => P x \/ x = t) (unlinked_st t s).
Proof.
  intros [Hs Hi] Hq. split.
  - split; simpl.
    + intros p H. rewrite lookup_fmap, fmap_is_Some. by apply (lo_rows s).
    + intros p. rewrite lookup_fmap, fmap_is_Some. by apply (lo_only_rows s).
    + rewrite lookup_fmap, fmap_is_Some. by apply (lo_defunct s).
    + intros l. rewrite members_unlinked. by apply NoDup_filter, (lo_nodup s).
    + intros l l' x [H1 _]%inl_unlinked [H2 _]%inl_unlinked. by eapply (lo_once s).
    + intros l x [H _]%inl_unlinked. by eapply (lo_threads s).
    + by apply (lo_current s).
    + apply (lo_group s Hs).
    + intros p Hp. rewrite members_unlinked, (lo_bits s Hs p Hp). by rewrite filter_ne_id by apply Hq.
  - intros x xh Hx HP. destruct (Hi x xh Hx ltac:(tauto)) as (H1 & H2 & H3 & H4 & H5).
    split_and!; [| |done..].
    + intros l [Hl _]%inl_unlinked. by apply H1.
    + intros E. apply inl_unlinked. split; [by apply H2|tauto].
Qed.

Lemma suspend_not_ready s t th :
  thread_ok s t th -> stat_of th = RT_THREAD_SUSPEND -> forall q, ~ inl_ s (LReady q) t.
Proof. intros (H1 & _) E q Hq. destruct (H1 _ Hq). stats. Qed.

Lemma resumed_inv t th s :
  sched_inv s -> threads s !! t = Some th -> stat_of th = RT_THREAD_SUSPEND ->
  sched_inv (resumed_s t th s).
Proof.
  intros Hinv Ht Est. pose proof Hinv as [Hs Hi].
  pose proof (Hi t th Ht ltac:(tauto)) as Hok. pose proof Hok as (H1 & H2 & H3 & H4 & H5).
  assert (prio_ok th) as Hpr by (apply H5; stats).
  assert (inv_but (fun x => False \/ x = t) (unlinked_st t s)) as Hu
    by (by eapply inv_but_unlinked, suspend_not_ready).
  unfold resumed_s. case_decide as Ec.
  - eapply (inv_but_close (fun x => False \/ x = t) _ t (with_stat RT_THREAD_RUNNING th)).
    + eapply inv_but_upd; [done|done|by right].
    + apply lookup_insert_eq.
    + assert (stat_of (with_stat RT_THREAD_RUNNING th) = RT_THREAD_RUNNING) as E by by apply stat_of_with_stat.
      unfold thread_ok. rewrite E. split_and!; [|stats|done|stats|done].
      intros l Hl. exfalso. apply (unlinked_not_attached t s), attached_iff. by exists l.
    + tauto.
  - eapply inv_but_readied; [exact Hu|done|done|apply unlinked_not_attached|done|tauto].
Qed.

Lemma resumed_threads t th s :
  threads (resumed_s t th s) =
  <[t := with_stat (if decide (rt_current_thread s = Some t) then RT_THREAD_RUNNING else RT_THREAD_READY) th]>
    (threads s).
Proof. unfold resumed_s. by case_decide. Qed.

Lemma resumed_members t th s l :
  members (resumed_s t th s) l =
  if decide (rt_current_thread s <> Some t /\ l = LReady (current_priority th))
  then filter (fun x => x <> t) (members s l) ++ [t]
  else filter (fun x => x <> t) (members s l).
Proof.
  unfold resumed_s. destruct (decide (rt_current_thread s = Some t)) as [E|E].
  - rewrite decide_False by tauto. apply members_unlinked.
  - rewrite readied_members, members_unlinked. destruct (decide (l = LReady (current_priority th))).
    + by rewrite decide_True.
    + by rewrite decide_False by tauto.
Qed.

Lemma resumed_current t th s : rt_current_thread (resumed_s t th s) = rt_current_thread s.
Proof. unfold resumed_s. by case_decide. Qed.

Lemma kinv_resumed t th tm k :
  kinv k -> threads (k_sched k) !! t = Some th -> stat_of th = RT_THREAD_SUSPEND ->
  Tmr.timers (k_timer k) !! ThreadTimer t = Some tm ->
  kinv (resumed_k t th tm k).
Proof.
  intros Hk Ht Est Htm. unfold resumed_k.
  apply (kinv_sched (set_k_timer (Tmr.stop_result (ThreadTimer t) tm (k_timer k)) k)).
  - by eapply kinv_timer_stop.
  - apply resumed_inv; [apply Hk|done|done].
  - intros t'. rewrite resumed_threads. apply insert_dom. simpl. eauto.
  - intros t' th'. rewrite resumed_threads. intros [[-> <-]|[Hn Ht']]%lookup_insert_Some Hin.
    + apply Tmr.stop_result_hard in Hin as [_ ?]; [done|apply Hk|done].
    + apply Tmr.stop_result_hard in Hin as [Hin _]; [|apply Hk|done]. by apply (ki_wait k Hk t').
Qed.

Lemma wp_sched_insert_resumed t th s (Q : unit -> sched -> Prop) :
  sched_inv s -> threads s !! t = Some th -> stat_of th = RT_THREAD_SUSPEND ->
  Q tt (resumed_s t th s) -> wp (rt_schedule_insert_thread t) (unlinked_st t s) Q.
Proof.
  intros [Hs Hi] Ht Est HQ. unfold resumed_s in HQ.
  destruct (Hi t th Ht) as (_ & _ & _ & _ & H5); [tauto|].
  case_decide as Ec.
  - by eapply wp_schedule_insert_current.
  - eapply wp_schedule_insert_thread; [done|done| |apply unlinked_not_attached|done].
    simpl. rewrite lookup_fmap, fmap_is_Some. apply (lo_rows s Hs), H5; stats.
Qed.

Lemma wp_thread_resume t th tm k (Q : Z -> kernel -> Prop) :
  kinv k -> threads (k_sched k) !! t = Some th -> stat_of th = RT_THREAD_SUSPEND ->
  Tmr.timers (k_timer k) !! ThreadTimer t = Some tm ->
  Q RT_EOK (resumed_k t th tm k) -> wp (rt_thread_resume t) k Q.
Proof.
  intros Hk Ht Est Htm HQ. unfold rt_thread_resume.
  wp_step. apply wp_in_sched. eapply wp_get_thread; [done|]. rewrite set_k_sched_id.
  rewrite Est, Z.eqb_refl. simpl negb. cbv iota.
  wp_step. apply wp_in_sched, wp_tlist_remove.
  wp_step. apply wp_in_timer. eapply Tmr.wp_timer_stop; [done|].
  wp_step. apply wp_in_sched. apply (wp_sched_insert_resumed t th); [apply Hk|done|done|]. wp_steps. exact HQ.
Qed.

Lemma wp_thread_resume_err t th k (Q : Z -> kernel -> Prop) :
  threads (k_sched k) !! t = Some th -> stat_of th <> RT_THREAD_SUSPEND ->
  Q (- RT_ERROR) k -> wp (rt_thread_resume t) k Q.
Proof.
  intros Ht Est HQ. unfold rt_thread_resume.
  wp_step. apply wp_in_sched. eapply wp_get_thread; [done|]. rewrite set_k_sched_id.
  rewrite (proj2 (Z.eqb_neq _ _) Est). by wp_steps.
Qed.

(** ** Scheduling *)

(** The threads the scheduler can choose from: ready or running. *)
Definition runnable (th : rt_thread) : Prop :=
  stat_of th = RT_THREAD_READY \/ stat_of th = RT_THREAD_RUNNING.

Lemma suspended_idle th : stat_of th = RT_THREAD_SUSPEND -> ~ runnable th.
Proof. intros Est [H|H]; stats. Qed.

(** A thread that is not ready or running is not touched by [rt_schedule]. *)
Lemma schedule_suspended c ch s s' x xh :
  sched_inv s -> rt_current_thread s = Some c -> threads s !! c = Some ch ->
  schedule_post c ch s s' ->
  threads s !! x = Some xh -> ~ runnable xh -> threads s' !! x = Some xh.
Proof.
  unfold runnable. intros Hinv Hc Hch [Hidle Hchoose Hth _ _] Hx Est.
  destruct (decide (rt_scheduler_lock_nest s <> 0 \/ rt_thread_ready_priority_group s = 0)) as [Hd|Hd].
  { by rewrite (Hidle Hd). }
  destruct (Hth x xh Hx) as (xh' & Hx' & _ & Hsame & _). rewrite Hx'. f_equal. apply Hsame; [tauto|].
  intros Hcur. destruct Hchoose as (t & p & rest & Htop & Hne & Hres); [lia|tauto|].
  case_bool_decide as Ech.
  - destruct Hres as (Hc' & _). destruct (choice_keep _ _ _ _ Hne Ech) as [Er _]. simplify_eq. tauto.
  - destruct Hres as (Hc' & _). destruct (top_ready_thread _ _ _ _ Hinv Htop) as (th & Hth0 & Est0 & _).
    simplify_eq. tauto.
Qed.

Lemma wp_kernel_schedule c k (Q : unit -> kernel -> Prop) :
  kinv k -> rt_current_thread (k_sched k) = Some c ->
  (forall ch s', threads (k_sched k) !! c = Some ch ->
     kinv (set_k_sched s' k) -> schedule_post c ch (k_sched k) s' -> Q tt (set_k_sched s' k)) ->
  wp (in_sched rt_schedule) k Q.
Proof.
  intros Hk Hc HQ. pose proof (ki_sched k Hk) as Hinv.
  destruct (lo_current _ (kinv_lists k Hk) c Hc) as [ch Hch].
  apply wp_in_sched. apply (schedule_spec c ch); [done..|].
  intros s' Hinv' Hpost. apply (HQ ch); [done| |done]. apply kinv_sched; [done|done| |].
  - intros t. destruct (threads (k_sched k) !! t) as [th|] eqn:E.
    + destruct (sp_threads _ _ _ _ Hpost t th E) as (th' & -> & _). split; eauto.
    + by rewrite (sp_dom _ _ _ _ Hpost t E).
  - intros t th' Ht' Hin. destruct (threads (k_sched k) !! t) as [th|] eqn:E.
    + pose proof (ki_wait k Hk t th E Hin) as Est.
      rewrite (schedule_suspended _ _ _ _ t th Hinv Hc Hch Hpost E (suspended_idle _ Est)) in Ht'. by simplify_eq.
    + rewrite (sp_dom _ _ _ _ Hpost t E) in Ht'. done.
Qed.

(** After [rt_schedule] some thread is still current. *)
Lemma schedule_current c ch s s' :
  rt_current_thread s = Some c -> schedule_post c ch s s' -> exists c', rt_current_thread s' = Some c'.
Proof.
  intros Hc Hpost.
  destruct (decide (rt_scheduler_lock_nest s <> 0 \/ rt_thread_ready_priority_group s = 0)) as [Hd|Hd].
  { rewrite (sp_idle _ _ _ _ Hpost Hd). eauto. }
  destruct (sp_choose _ _ _ _ Hpost) as (t & p & rest & _ & _ & H); [lia|tauto|].
  case_bool_decide; destruct H as (-> & _); eauto.
Qed.

(** ** Timeout of a waiting thread *)

Lemma kinv_upd_same t th th' k :
  kinv k -> threads (k_sched k) !! t = Some th ->
  stat_of th' = stat_of th -> current_priority th' = current_priority th ->
  number_mask th' = number_mask th ->
  kinv (set_k_sched (upd_st t th' (k_sched k)) k).
Proof.
  intros Hk Ht E1 E2 E3. apply kinv_sched; [done|by eapply sched_inv_upd_same; [apply Hk|..]| |].
  - intros x. rewrite upd_threads. apply insert_dom. eauto.
  - intros x xh. rewrite upd_threads. intros [[-> <-]|[Hn Hx]]%lookup_insert_Some Hin; [rewrite E1; by apply (ki_wait k Hk x)|by apply (ki_wait k Hk x)].
Qed.

(** What [rt_thread_timeout] leaves behind before it schedules. *)
Definition timed_out_s (t : oid) (th : rt_thread) (s : sched) : sched :=
  resumed_s t (set_error (- RT_ETIMEOUT) th) (upd_st t (set_error (- RT_ETIMEOUT) th) s).

Lemma wp_thread_timeout c t th k (Q : unit -> kernel -> Prop) :
  kinv k -> rt_current_thread (k_sched k) = Some c ->
  threads (k_sched k) !! t = Some th -> stat_of th = RT_THREAD_SUSPEND ->
  ThreadTimer t ∉ Tmr.rt_timer_list (k_timer k) ->
  (forall ch s', kinv (set_k_sched (timed_out_s t th (k_sched k)) k) ->
     threads (timed_out_s t th (k_sched k)) !! c = Some ch ->
     kinv (set_k_sched s' k) -> schedule_post c ch (timed_out_s t th (k_sched k)) s' ->
     Q tt (set_k_sched s' k)) ->
  wp (rt_thread_timeout t) k Q.
Proof.
  intros Hk Hc Ht Est Hnin HQ. unfold rt_thread_timeout.
  wp_step. apply wp_in_sched. eapply wp_upd_thread; [done|].
  pose proof (kinv_upd_same t th (set_error (- RT_ETIMEOUT) th) k Hk Ht eq_refl eq_refl eq_refl) as Hk1.
  fold (upd_st t (set_error (- RT_ETIMEOUT) th) (k_sched k)).
  wp_step. apply wp_in_sched, wp_tlist_remove.
  assert (threads (upd_st t (set_error (- RT_ETIMEOUT) th) (k_sched k)) !! t = Some (set_error (- RT_ETIMEOUT) th))
    as Ht1 by apply lookup_insert_eq.
  wp_step. apply wp_in_sched.
  apply (wp_sched_insert_resumed t (set_error (- RT_ETIMEOUT) th)); [apply Hk1|done|done|].
  fold (timed_out_s t th (k_sched k)).
  assert (kinv (set_k_sched (timed_out_s t th (k_sched k)) k)) as Hk2.
  { apply kinv_sched; [done|apply resumed_inv; [apply Hk1|done|done]| |].
    - intros x. unfold timed_out_s. rewrite resumed_threads. rewrite insert_dom by (rewrite Ht1; eauto).
      apply insert_dom. eauto.
    - intros x xh. unfold timed_out_s. rewrite resumed_threads.
      intros [[-> <-]|[Hn Hx]]%lookup_insert_Some Hin; [done|].
      simpl in Hx. rewrite lookup_insert_ne in Hx by done. by apply (ki_wait k Hk x). }
  eapply (wp_kernel_schedule c (set_k_sched (timed_out_s t th (k_sched k)) k)); [done| |].
  - simpl. unfold timed_out_s. by rewrite resumed_current.
  - intros ch s' Hch Hk3 Hpost. by apply (HQ ch s').
Qed.

(** A thread that can run keeps being able to run when another is scheduled. *)
Lemma schedule_runnable c ch s s' x xh :
  sched_inv s -> sched_inv s' -> rt_current_thread s = Some c -> threads s !! c = Some ch ->
  schedule_post c ch s s' -> threads s !! x = Some xh -> runnable xh ->
  exists xh', threads s' !! x = Some xh' /\ runnable xh' /\ same_task xh xh'.
Proof.
  intros Hinv Hinv' Hc Hch Hpost Hx Hr.
  destruct (decide (rt_scheduler_lock_nest s <> 0 \/ rt_thread_ready_priority_group s = 0)) as [Hd|Hd].
  { rewrite (sp_idle _ _ _ _ Hpost Hd). exists xh. done. }
  destruct (sp_threads _ _ _ _ Hpost x xh Hx) as (xh' & Hx' & Hsame & Heq & Hrun).
  exists xh'. split; [done|]. split; [|done].
  destruct (decide (rt_current_thread s' = Some x)) as [Hcur|Hcur]; [right; apply Hrun; [lia|tauto|done]|].
  destruct (decide (x <> c \/ stat_of xh <> RT_THREAD_RUNNING)) as [Hn|Hn]; [by rewrite (Heq Hn Hcur)|].
  assert (x = c) as -> by (destruct (decide (x = c)); tauto). simplify_eq.
  assert (stat_of ch = RT_THREAD_RUNNING) as Er by (destruct (decide (stat_of ch = RT_THREAD_RUNNING)); tauto).
  destruct (sp_choose _ _ _ _ Hpost) as (t & p & rest & _ & _ & H); [lia|tauto|].
  case_bool_decide; destruct H as (Hc' & Hm & _); [done|].
  assert (inl_ s' (LReady (current_priority ch)) c) as Hin.
  { unfold inl_. rewrite Hm, bool_decide_true by done. set_solver. }
  destruct Hinv' as [_ Hi']. destruct (Hi' c xh' Hx' ltac:(tauto)) as (H1 & _).
  left. apply (H1 _ Hin).
Qed.

(** ** Expiry of the timers of waiting threads *)

Lemma expire_ok tmp t tm s :
  Tmr.timers_ok s -> Tmr.timers s !! t = Some tm -> t ∈ Tmr.rt_timer_list s ->
  Tmr.has_flag Tmr.RT_TIMER_FLAG_PERIODIC tm = false -> tmp = Tmr.HCheck -> Tmr.check_list s = [] ->
  Tmr.timers_ok (Tmr.set_row tmp [t] (Tmr.stopped_t t tm s)).
Proof.
  intros Hs Ht Hin Hper -> Hc. pose proof (Tmr.stopped_ok t tm s Hs Ht) as Hs1.
  assert (Tmr.all_rows (Tmr.set_row Tmr.HCheck [t] (Tmr.stopped_t t tm s)) ≡ₚ t :: Tmr.all_rows (Tmr.stopped_t t tm s)) as EP.
  { unfold Tmr.all_rows; simpl. rewrite Hc. simpl. solve_Permutation. }
  assert (t ∉ Tmr.all_rows (Tmr.stopped_t t tm s)) as Hnin.
  { assert (Tmr.all_rows (Tmr.stopped_t t tm s) = Tmr.unlink t (Tmr.all_rows s)) as -> by apply Tmr.all_rows_unlinked.
    rewrite Tmr.elem_of_unlink. tauto. }
  split; [rewrite EP; constructor; [done|apply (Tmr.to_nodup _ Hs1)]| | | |].
  - intros x. rewrite EP. intros [->|Hx]%elem_of_cons; [simpl; rewrite lookup_insert_eq; eauto|by apply (Tmr.to_known _ Hs1)].
  - apply (Tmr.to_hard _ Hs1).
  - apply (Tmr.to_soft _ Hs1).
  - intros x xm Hx Hf. rewrite EP. right. by apply (Tmr.to_active _ Hs1 x xm).
Qed.

Lemma wp_timer_expire t tm s (Q : Tmr.rt_timer -> Tmr.timer_st -> Prop) :
  Tmr.timers s !! t = Some tm -> Tmr.has_flag Tmr.RT_TIMER_FLAG_PERIODIC tm = false -> Tmr.check_list s = [] ->
  Q (Tmr.clear_flag Tmr.RT_TIMER_FLAG_ACTIVATED tm) (Tmr.set_row Tmr.HCheck [t] (Tmr.stopped_t t tm s)) ->
  wp (Tmr.timer_expire Tmr.HCheck t) s Q.
Proof.
  intros Ht Hper Hc HQ. unfold Tmr.timer_expire, Tmr._rt_timer_remove.
  wp_step. wp_step. wp_step. eapply Tmr.wp_get_timer; [done|]. rewrite Hper. simpl negb.
  wp_step. eapply Tmr.wp_upd_timer; [done|]. wp_steps. simpl. rewrite Hc. simpl.
  eapply Tmr.wp_get_timer; [simpl; apply lookup_insert_eq|]. unfold Tmr.stopped_t, Tmr.unlinked_t in HQ.
  simpl in HQ. by rewrite Hc in HQ.
Qed.

(** How one state of the kernel follows from another when waiting threads are
    woken: threads not concerned are untouched unless they are runnable, and
    runnable threads stay runnable with their fields. *)
Definition woken_frame (woken : oid -> Prop) (k k' : kernel) : Prop :=
  forall x xh, threads (k_sched k) !! x = Some xh ->
    (~ woken x -> ~ runnable xh -> threads (k_sched k') !! x = Some xh) /\
    (~ woken x -> runnable xh ->
       exists xh', threads (k_sched k') !! x = Some xh' /\ runnable xh' /\ same_task xh xh').

Lemma woken_frame_refl W k : woken_frame W k k.
Proof. intros x xh Hx. split; [done|]. intros _ Hr. exists xh. done. Qed.

Lemma woken_frame_trans (W1 W2 W : oid -> Prop) k1 k2 k3 :
  woken_frame W1 k1 k2 -> woken_frame W2 k2 k3 -> (forall x, W1 x -> W x) -> (forall x, W2 x -> W x) ->
  woken_frame W k1 k3.
Proof.
  intros H1 H2 HW1 HW2 x xh Hx. destruct (H1 x xh Hx) as [Ha Hb]. split; intros Hn Hs.
  - specialize (Ha ltac:(auto) Hs). destruct (H2 x xh Ha) as [Hc _]. apply Hc; auto.
  - destruct (Hb ltac:(auto) Hs) as (x2 & Hx2 & Hr2 & Hs2). destruct (H2 x x2 Hx2) as [_ Hc].
    destruct (Hc ltac:(auto) Hr2) as (x3 & Hx3 & Hr3 & Hs3). exists x3. split_and!; [done|done|by eapply same_task_trans..].
Qed.

Lemma timed_out_threads t th s x :
  threads (timed_out_s t th s) !! x =
  if decide (x = t)
  then Some (with_stat (if decide (rt_current_thread s = Some t) then RT_THREAD_RUNNING else RT_THREAD_READY)
               (set_error (- RT_ETIMEOUT) th))
  else threads s !! x.
Proof.
  unfold timed_out_s. rewrite resumed_threads, upd_threads, insert_insert_eq. destruct (decide (x = t)) as [->|].
  - by rewrite lookup_insert_eq.
  - by rewrite lookup_insert_ne.
Qed.

(** [rt_thread_timeout] makes the thread runnable with the error of a timeout
    and disturbs no other thread. *)
Lemma timeout_spec c t th k (Q : unit -> kernel -> Prop) :
  kinv k -> rt_current_thread (k_sched k) = Some c ->
  threads (k_sched k) !! t = Some th -> stat_of th = RT_THREAD_SUSPEND ->
  ThreadTimer t ∉ Tmr.rt_timer_list (k_timer k) ->
  (forall s', kinv (set_k_sched s' k) -> (exists c', rt_current_thread s' = Some c') ->
     woken_frame (fun x => x = t) k (set_k_sched s' k) ->
     (exists th', threads s' !! t = Some th' /\ runnable th' /\ error th' = - RT_ETIMEOUT) ->
     Q tt (set_k_sched s' k)) ->
  wp (rt_thread_timeout t) k Q.
Proof.
  intros Hk Hc Ht Est Hnin HQ. apply (wp_thread_timeout c t th); [done..|].
  intros ch s' Hk1 Hch Hk' Hpost.
  assert (rt_current_thread (timed_out_s t th (k_sched k)) = Some c) as Hc1
    by (unfold timed_out_s; by rewrite resumed_current).
  apply HQ; [done|by eapply schedule_current| |].
  - intros x xh Hx. split; intros Hn Hxs.
    + eapply (schedule_suspended c ch (timed_out_s t th (k_sched k)) _ x xh); [apply Hk1|done|done|done| |done].
      by rewrite timed_out_threads, decide_False.
    + eapply (schedule_runnable c ch (timed_out_s t th (k_sched k))); [apply Hk1|apply Hk'|done|done|done| |done].
      by rewrite timed_out_threads, decide_False.
  - pose (th1 := with_stat (if decide (rt_current_thread (k_sched k) = Some t) then RT_THREAD_RUNNING else RT_THREAD_READY)
                  (set_error (- RT_ETIMEOUT) th)).
    destruct (schedule_runnable c ch (timed_out_s t th (k_sched k)) s' t th1) as (th' & Ht' & Hr & He & _);
      [apply Hk1|apply Hk'|done|done|done| | |].
    + by rewrite timed_out_threads, decide_True.
    + unfold runnable, th1. case_decide; [right|left]; by apply stat_of_with_stat.
    + exists th'. split_and!; [done|done|]. by rewrite He.
Qed.

Lemma unlinked_ok t tm s :
  Tmr.timers_ok s -> Tmr.timers s !! t = Some tm -> Tmr.has_flag Tmr.RT_TIMER_FLAG_ACTIVATED tm = false ->
  Tmr.timers_ok (Tmr.unlinked_t t s).
Proof.
  intros Hs Ht Hf. pose proof (Tmr.all_rows_unlinked t s) as Ea. split.
  - rewrite Ea. apply NoDup_filter, (Tmr.to_nodup s Hs).
  - intros x. rewrite Ea. intros [Hx _]%Tmr.elem_of_unlink. by apply (Tmr.to_known s Hs).
  - intros x xm Hx [Hin _]%Tmr.elem_of_unlink. by apply (Tmr.to_hard s Hs x).
  - intros x xm Hx [Hin _]%Tmr.elem_of_unlink. by apply (Tmr.to_soft s Hs x).
  - intros x xm Hx Hfx. rewrite Ea. apply Tmr.elem_of_unlink. simpl in Hx.
    split; [by apply (Tmr.to_active s Hs x xm)|]. intros ->. congruence.
Qed.

Section Check.
Context (timer_thread : oid) (user_timeout : Z -> oid -> M kernel unit).

(** One round of the loop of [rt_timer_check] for the timer of a thread. *)
Lemma check_round c t tm th l k (K : Z -> M kernel unit) (Q : unit -> kernel -> Prop) :
  kinv k -> rt_current_thread (k_sched k) = Some c ->
  Tmr.rt_timer_list (k_timer k) = ThreadTimer t :: l -> Tmr.check_list (k_timer k) = [] ->
  Tmr.timers (k_timer k) !! ThreadTimer t = Some tm -> threads (k_sched k) !! t = Some th ->
  (forall k', kinv k' -> (exists c', rt_current_thread (k_sched k') = Some c') ->
     Tmr.rt_timer_list (k_timer k') = l -> Tmr.check_list (k_timer k') = [] ->
     rt_tick k' = rt_tick k ->
     (forall x, x <> ThreadTimer t -> Tmr.timers (k_timer k') !! x = Tmr.timers (k_timer k) !! x) ->
     woken_frame (fun x => x = t) k k' ->
     (exists th', threads (k_sched k') !! t = Some th' /\ runnable th' /\ error th' = - RT_ETIMEOUT) ->
     wp (K (rt_tick k)) k' Q) ->
  wp (tm ← in_timer (Tmr.timer_expire Tmr.HCheck (ThreadTimer t));
      call_timeout user_timeout tm;;
      current_tick ← rt_tick_get;
      timer_after_callback timer_thread Tmr.HCheck (ThreadTimer t);;
      K current_tick) k Q.
Proof.
  intros Hk Hc Hl Hchk Htm Ht HQ. pose proof Hk as [HS HT H3 H4 H5 H6].
  destruct (H4 _ _ Htm) as (Ef & Ep & Eper & Esoft).
  assert (ThreadTimer t ∈ Tmr.rt_timer_list (k_timer k)) as Hin by (rewrite Hl; set_solver).
  pose proof (H5 t th Ht Hin) as Est.
  wp_step. apply wp_in_timer. eapply wp_timer_expire; [done|done|done|].
  set (st1 := Tmr.set_row Tmr.HCheck [ThreadTimer t] (Tmr.stopped_t (ThreadTimer t) tm (k_timer k))).
  assert (ThreadTimer t ∉ l) as Hnl.
  { pose proof (Tmr.to_nodup _ HT) as Hnd. unfold Tmr.all_rows in Hnd. rewrite Hl in Hnd.
    inversion_clear Hnd. set_solver. }
  assert (Tmr.rt_timer_list st1 = l) as Hl1.
  { simpl. rewrite Hl. unfold Tmr.unlink. rewrite filter_cons_False by tauto. by apply Tmr.unlink_id. }
  assert (forall x, x <> ThreadTimer t -> Tmr.timers st1 !! x = Tmr.timers (k_timer k) !! x) as Hoth.
  { intros x Hx. simpl. by rewrite lookup_insert_ne. }
  assert (kinv (set_k_timer st1 k)) as Hk1.
  { apply kinv_timers; [done|by apply expire_ok| |].
    - intros x. by eapply timers_upd_same, same_timer_clear.
    - intros x xh Hx Hxin. apply (H5 x xh Hx). rewrite Hl. rewrite Hl1 in Hxin. set_solver. }
  assert (Tmr.check_list st1 = [ThreadTimer t]) as Hchk1 by done.
  assert (Tmr.timers st1 !! ThreadTimer t = Some (Tmr.clear_flag Tmr.RT_TIMER_FLAG_ACTIVATED tm)) as Htm1
    by apply lookup_insert_eq.
  assert (Tmr.timers_ok (Tmr.unlinked_t (ThreadTimer t) st1)) as Hok2.
  { eapply unlinked_ok; [apply Hk1|exact Htm1|apply Tmr.flag_clear_self]. }
  clearbody st1.
  wp_step. unfold call_timeout. simpl. rewrite Ef, Ep.
  apply (timeout_spec c t th); [done|done|done|done|simpl; by rewrite Hl1|].
  intros s' Hk2 Hc' Hfr Hwk. unfold rt_tick_get. wp_steps.
  unfold timer_after_callback. wp_step. apply wp_in_timer. wp_steps. simpl. rewrite Hchk1.
  wp_step. apply wp_in_timer. unfold Tmr._rt_timer_remove. wp_steps.
  apply wp_in_timer. eapply Tmr.wp_get_timer; [exact Htm1|].
  rewrite Tmr.flag_clear_same by done. rewrite Eper. simpl andb. simpl when. wp_steps.
  change (wp (K (rt_tick k)) (set_k_timer (Tmr.unlinked_t (ThreadTimer t) st1) (set_k_sched s' k)) Q).
  apply HQ; [|done| | |done|done|done|done].
  - apply (kinv_timers (set_k_sched s' (set_k_timer st1 k))); [done|done| |].
    + intros x. simpl. destruct (Tmr.timers st1 !! x); constructor. done.
    + intros x xh Hx [Hxin _]%Tmr.elem_of_unlink. exact (ki_wait _ Hk2 x xh Hx Hxin).
  - simpl. rewrite Hl1. by apply Tmr.unlink_id.
  - simpl. rewrite Hchk1. unfold Tmr.unlink. by rewrite filter_cons_False by tauto.
Qed.

(** Timers of threads, with the timeouts still in the future at tick [now]. *)
Definition pending (now : Z) (tms : gmap ref Tmr.rt_timer) (x : ref) : bool :=
  match tms !! x with
  | Some tm => negb (u32 (now - Tmr.timeout_tick tm) <? Tmr.half_range)
  | None => true
  end.

(** The loop stops at the first timer that has not expired, and the threads of
    the timers before it have been woken. *)
Lemma check_loop_spec fuel c l1 l2 k (Q : unit -> kernel -> Prop) :
  kinv k -> rt_current_thread (k_sched k) = Some c ->
  Tmr.rt_timer_list (k_timer k) = (ThreadTimer <$> l1) ++ l2 -> Tmr.check_list (k_timer k) = [] ->
  (forall t, t ∈ l1 -> pending (rt_tick k) (Tmr.timers (k_timer k)) (ThreadTimer t) = false) ->
  (forall x, head l2 = Some x -> pending (rt_tick k) (Tmr.timers (k_timer k)) x = true) ->
  (length l1 < fuel)%nat ->
  (forall k', kinv k' -> (exists c', rt_current_thread (k_sched k') = Some c') ->
     Tmr.rt_timer_list (k_timer k') = l2 -> Tmr.check_list (k_timer k') = [] -> rt_tick k' = rt_tick k ->
     (forall x, x ∉ ThreadTimer <$> l1 -> Tmr.timers (k_timer k') !! x = Tmr.timers (k_timer k) !! x) ->
     woken_frame (fun x => x ∈ l1) k k' ->
     (forall t, t ∈ l1 -> exists th', threads (k_sched k') !! t = Some th' /\ runnable th' /\
        error th' = - RT_ETIMEOUT) ->
     Q tt k') ->
  wp (timer_check_loop timer_thread user_timeout fuel (rt_tick k)) k Q.
Proof.
  revert fuel c k. induction l1 as [|t l1 IH]; intros fuel c k Hk Hc Hl Hchk Hexp Hpend Hf HQ;
    (destruct fuel as [|fuel]; [simpl in Hf; lia|]); simpl; wp_step; apply wp_in_timer; wp_step; simpl;
    rewrite Hl, set_k_timer_id.
  - assert (Q tt k) as Hend.
    { apply HQ; [done|eauto|done|done|done|done|apply woken_frame_refl|]. intros t Ht. by apply elem_of_nil in Ht. }
    destruct l2 as [|x l2]; [by wp_steps|]. simpl.
    destruct (Tmr.to_known _ (ki_timers k Hk) x) as [xm Hx].
    { unfold Tmr.all_rows. rewrite Hl. set_solver. }
    wp_step. apply wp_in_timer. eapply Tmr.wp_get_timer; [done|]. rewrite set_k_timer_id.
    specialize (Hpend x eq_refl). unfold pending in Hpend. rewrite Hx in Hpend.
    apply negb_true_iff in Hpend. unfold Tmr.half_range in Hpend. rewrite Hpend. by wp_steps.
  - simpl. destruct (Tmr.to_known _ (ki_timers k Hk) (ThreadTimer t)) as [tm Htm].
    { unfold Tmr.all_rows. rewrite Hl. set_solver. }
    wp_step. apply wp_in_timer. eapply Tmr.wp_get_timer; [done|]. rewrite set_k_timer_id.
    pose proof (Hexp t ltac:(set_solver)) as He. unfold pending in He. rewrite Htm in He.
    apply negb_false_iff in He. unfold Tmr.half_range in He. rewrite He.
    destruct (proj2 (ki_ttimer k Hk t)) as [th Ht]; [eexists; split; [done|by apply (ki_only k Hk)]|].
    assert (t ∉ l1) as Hnin.
    { pose proof (Tmr.to_nodup _ (ki_timers k Hk)) as Hnd. unfold Tmr.all_rows in Hnd. rewrite Hl in Hnd.
      simpl in Hnd. inversion_clear Hnd as [|? ? Hn _]. rewrite !elem_of_app, list_elem_of_fmap in Hn. naive_solver. }
    eapply check_round; [done|done|exact Hl|done|done|done|].
    intros k1 Hk1 [c1 Hc1] Hl1 Hchk1 Htick Htms Hfr Hwk. rewrite <- Htick.
    apply (IH fuel c1 k1); [done|done|done|done| | |simpl in Hf; lia|].
    + intros x Hx. unfold pending. rewrite Htms, Htick by congruence. apply Hexp. set_solver.
    + intros x Hx. unfold pending. rewrite Htms, Htick; [by apply Hpend|].
      intros ->. pose proof (Tmr.to_nodup _ (ki_timers k Hk)) as Hnd. unfold Tmr.all_rows in Hnd. rewrite Hl in Hnd.
      simpl in Hnd. inversion_clear Hnd as [|? ? Hn _]. destruct l2; [done|]. simplify_eq/=. set_solver.
    + intros k' Hk' Hc' Hl' Hchk' Htick' Htms' Hfr' Hwk'. apply HQ; [done|done|done|done|congruence| | |].
      * intros x Hx. rewrite Htms', Htms; [done| |]; set_solver.
      * eapply woken_frame_trans; [exact Hfr|exact Hfr'|set_solver|set_solver].
      * intros x [->|Hx]%elem_of_cons; [|by apply Hwk'].
        destruct Hwk as (th1 & Ht1 & Hr1 & He1). destruct (Hfr' t th1 Ht1) as [_ Hrun].
        destruct (Hrun Hnin Hr1) as (th2 & Ht2 & Hr2 & Hs2). exists th2. split_and!; [done|done|].
        destruct Hs2 as (-> & _). done.
Qed.

End Check.

(** An ordered list within the window is cut in two by the current tick. *)
Lemma ordered_cut b now tms l :
  Tmr.within tms b l -> Tmr.ordered tms b l -> u32 (now - b) < Tmr.half_range ->
  exists l1 l2, l = l1 ++ l2 /\ Forall (fun x => pending now tms x = false) l1 /\
    Forall (fun x => pending now tms x = true) l2.
Proof.
  intros Hw Ho Hn. pose proof (uwrap_range 32 (now - b) ltac:(lia)) as [Hn0 _].
  assert (forall x, x ∈ l -> pending now tms x = negb (Tmr.key tms b x <=? u32 (now - b))) as Hp.
  { intros x Hx. destruct (Hw x Hx) as [[xm Hxm] Hk]. unfold pending. rewrite Hxm.
    pose proof (Tmr.key_range tms b x) as Hk0. unfold Tmr.key in *. rewrite Hxm in *.
    destruct (Tmr.tick_diff now (Tmr.timeout_tick xm) b) as [_ D]; [lia|lia|].
    f_equal. destruct (Z.ltb_spec (u32 (now - Tmr.timeout_tick xm)) Tmr.half_range),
      (Z.leb_spec (u32 (Tmr.timeout_tick xm - b)) (u32 (now - b))); try done; exfalso; lia. }
  clear Hw. induction l as [|x l IH]; [by exists [], []|].
  unfold Tmr.ordered in Ho. rewrite StronglySorted_cons, Forall_forall in Ho. destruct Ho as [Hx Ho].
  destruct (pending now tms x) eqn:E.
  - exists [], (x :: l). split; [done|]. split; [constructor|]. constructor; [done|].
    rewrite Forall_forall. intros y Hy. rewrite Hp in E |- * by set_solver. specialize (Hx y Hy).
    apply negb_true_iff, Z.leb_gt. apply negb_true_iff, Z.leb_gt in E. lia.
  - destruct IH as (l1 & l2 & -> & H1 & H2); [done|set_solver|].
    exists (x :: l1), l2. split; [done|]. split; [by constructor|done].
Qed.

Lemma filter_split {A} (P : A -> bool) l1 l2 :
  Forall (fun x => P x = false) l1 -> Forall (fun x => P x = true) l2 ->
  filter (fun x => P x = true) (l1 ++ l2) = l2.
Proof.
  intros H1 H2. rewrite filter_app.
  assert (filter (fun x => P x = true) l1 = []) as ->.
  { induction H1 as [|x l Hx _ IH]; [done|]. rewrite filter_cons_False by congruence. done. }
  simpl. induction H2 as [|x l Hx _ IH]; [done|]. rewrite filter_cons_True by done. by rewrite IH.
Qed.

(** ** Waiting with a timeout *)

(** A change to a timer that keeps its flags. *)
Lemma timers_ok_upd t tm tm' s :
  Tmr.timers_ok s -> Tmr.timers s !! t = Some tm -> Tmr.flag tm' = Tmr.flag tm ->
  Tmr.timers_ok (Tmr.set_timers (<[t := tm']> (Tmr.timers s)) s).
Proof.
  intros Hs Ht Ef.
  assert (forall f, Tmr.has_flag f tm' = Tmr.has_flag f tm) as Hf by (intros f; unfold Tmr.has_flag; by rewrite Ef).
  assert (forall x xm, <[t := tm']> (Tmr.timers s) !! x = Some xm ->
            exists xm0, Tmr.timers s !! x = Some xm0 /\ forall f, Tmr.has_flag f xm = Tmr.has_flag f xm0) as Hget.
  { intros x xm [[-> <-]|[Hn Hx]]%lookup_insert_Some; eauto. }
  split; simpl.
  - apply (Tmr.to_nodup s Hs).
  - intros x Hx. apply lookup_insert_is_Some'. right. by apply (Tmr.to_known s Hs).
  - intros x xm Hx Hin. destruct (Hget x xm Hx) as (xm1 & Hx1 & E). rewrite !E. by apply (Tmr.to_hard s Hs x).
  - intros x xm Hx Hin. destruct (Hget x xm Hx) as (xm1 & Hx1 & E). rewrite !E. by apply (Tmr.to_soft s Hs x).
  - intros x xm Hx Hfx. destruct (Hget x xm Hx) as (xm1 & Hx1 & E). rewrite E in Hfx. by apply (Tmr.to_active s Hs x xm1).
Qed.

Section Sleep.
Context (timer_thread : oid).

Lemma same_timer_started now tm : same_timer tm (Tmr.started now tm).
Proof. unfold same_timer. destruct (Tmr.started_flags now tm) as (_ & -> & ->). done. Qed.

(** The timer state after the timer of thread [t] is set to [tick] and started. *)
Definition armed_t (now tick : Z) (t : oid) (tm : Tmr.rt_timer) (pre post : list ref) (s : Tmr.timer_st)
  : Tmr.timer_st :=
  Tmr.linked_t now (ThreadTimer t) (Tmr.set_init_tick (u32 tick) tm) pre post
    (Tmr.set_timers (<[ThreadTimer t := Tmr.set_init_tick (u32 tick) tm]> (Tmr.timers s)) s).

(** Arming the timer of a suspended thread. *)
Lemma wp_start_thread_timer t th tm tick k (Q : unit -> kernel -> Prop) :
  kinv k -> threads (k_sched k) !! t = Some th -> stat_of th = RT_THREAD_SUSPEND ->
  Tmr.timers (k_timer k) !! ThreadTimer t = Some tm ->
  (forall pre post,
     let st' := armed_t (rt_tick k) tick t tm pre post (k_timer k) in
     Tmr.unlink (ThreadTimer t) (Tmr.rt_timer_list (k_timer k)) = pre ++ post ->
     kinv (set_k_timer st' k) ->
     (forall b, Tmr.within (Tmr.timers (k_timer k)) b (pre ++ post) ->
        Tmr.ordered (Tmr.timers (k_timer k)) b (Tmr.rt_timer_list (k_timer k)) ->
        u32 (u32 (rt_tick k + u32 tick) - b) < Tmr.half_range ->
        Tmr.ordered (Tmr.timers st') b (Tmr.rt_timer_list st') /\
        Tmr.within (Tmr.timers st') b (Tmr.rt_timer_list st')) ->
     Q tt (set_k_timer st' k)) ->
  wp (start_thread_timer timer_thread t tick) k Q.
Proof.
  intros Hk Ht Est Htm HQ. pose proof (ki_only k Hk t tm Htm) as Hit.
  pose proof Hit as (_ & _ & _ & Esoft).
  unfold start_thread_timer. wp_step. apply wp_in_timer. unfold Tmr.rt_timer_control.
  wp_step. eapply Tmr.wp_get_timer; [done|]. simpl. wp_step. eapply Tmr.wp_upd_timer; [done|]. wp_steps.
  set (tm1 := Tmr.set_init_tick (u32 tick) tm).
  set (s1 := Tmr.set_timers (<[ThreadTimer t := tm1]> (Tmr.timers (k_timer k))) (k_timer k)).
  assert (same_timer tm tm1) as Hsame by done.
  assert (Tmr.timers_ok s1) as Hok1 by (eapply timers_ok_upd; [apply Hk|exact Htm|done]).
  assert (Tmr.timers s1 !! ThreadTimer t = Some tm1) as Htm1 by apply lookup_insert_eq.
  assert (Tmr.has_flag Tmr.RT_TIMER_FLAG_SOFT_TIMER tm1 = false) as Esoft1 by exact Esoft.
  assert (Tmr.home tm1 = Tmr.HTimer) as Eh by (unfold Tmr.home; by rewrite Esoft1).
  destruct (Tmr.link_place (rt_tick k) (ThreadTimer t) tm1 s1 Hok1 Htm1) as (pre & post & El & Ei).
  unfold rt_timer_start, rt_tick_get. wp_steps. apply wp_in_timer.
  eapply (Tmr.wp_timer_link (rt_tick k) (ThreadTimer t) tm1 pre post s1); [done|done|done|].
  wp_step. apply wp_in_timer. eapply Tmr.wp_get_timer; [apply lookup_insert_eq|].
  wp_step. apply wp_in_timer. wp_steps.
  destruct (Tmr.started_flags (rt_tick k) tm1) as (_ & -> & _). rewrite Esoft1. simpl when. wp_steps.
  change (Q tt (set_k_timer (armed_t (rt_tick k) tick t tm pre post (k_timer k)) k)).
  assert (armed_t (rt_tick k) tick t tm pre post (k_timer k) =
          Tmr.linked_t (rt_tick k) (ThreadTimer t) tm1 pre post s1) as Ea by done.
  assert (Tmr.rt_timer_list (Tmr.linked_t (rt_tick k) (ThreadTimer t) tm1 pre post s1) = pre ++ ThreadTimer t :: post) as Er.
  { unfold Tmr.linked_t. by rewrite Eh. }
  rewrite Eh in El. apply HQ; [exact El| |].
  - rewrite Ea. apply kinv_timers; [done|by apply Tmr.linked_ok; rewrite ?Eh| |].
    + intros x. simpl. rewrite insert_insert_eq. eapply timers_upd_same; [exact Htm|]. apply (same_timer_started (rt_tick k) tm1).
    + intros x xh Hx. rewrite Er. intros Hin. destruct (decide (x = t)) as [->|Hn]; [by simplify_eq|].
      apply (ki_wait k Hk x xh Hx). apply (Tmr.elem_of_unlink (ThreadTimer t)). simpl in El. rewrite El. set_solver.
  - intros b Hw Ho Hkb. rewrite Ea, Er.
    assert (forall x, Tmr.key (Tmr.timers s1) b x = Tmr.key (Tmr.timers (k_timer k)) b x) as Hkeq.
    { intros x. destruct (decide (x = ThreadTimer t)) as [->|]; [|by apply Tmr.key_insert_ne].
      unfold Tmr.key. by rewrite Htm1, Htm. }
    apply Tmr.linked_ordered; [by rewrite Eh|done| | |done]; rewrite Eh; simpl.
    + simpl in El. rewrite El. intros x Hx. rewrite Hkeq. destruct (Hw x Hx) as [Hs Hkx].
      split; [apply lookup_insert_is_Some'; by right|done].
    + by apply (Tmr.ordered_ext (Tmr.timers (k_timer k))); [intros; apply Hkeq|].
Qed.

(** [rt_thread_sleep] by the running thread [c], up to the call of
    [rt_schedule]: [c] is suspended with its timer armed. *)
Definition asleep_k (tick : Z) (c : oid) (ch : rt_thread) (tm tm1 : Tmr.rt_timer) (pre post : list ref)
    (k : kernel) : kernel :=
  set_k_timer (armed_t (rt_tick k) tick c tm1 pre post (k_timer (suspended_k c ch tm k)))
    (suspended_k c ch tm k).

Lemma asleep_check_list tick c ch tm tm1 pre post k :
  Tmr.check_list (k_timer k) = [] ->
  Tmr.check_list (k_timer (asleep_k tick c ch tm tm1 pre post k)) = [].
Proof.
  intros H. unfold asleep_k, armed_t, Tmr.linked_t, suspended_k, Tmr.stop_result. simpl.
  unfold Tmr.home. repeat case_match; simpl; by rewrite H.
Qed.

Lemma sleep_spec c ch tick k (Q : oid -> kernel -> Prop) :
  kinv k -> rt_current_thread (k_sched k) = Some c -> threads (k_sched k) !! c = Some ch ->
  stat_of ch = RT_THREAD_RUNNING ->
  (forall tm tm1 pre post s',
     let k1 := asleep_k tick c ch tm tm1 pre post k in
     Tmr.timers (k_timer k) !! ThreadTimer c = Some tm ->
     Tmr.timers (k_timer (suspended_k c ch tm k)) !! ThreadTimer c = Some tm1 ->
     Tmr.rt_timer_list (k_timer k) = pre ++ post ->
     kinv k1 -> kinv (set_k_sched s' k1) ->
     schedule_post c (with_stat RT_THREAD_SUSPEND ch) (k_sched k1) s' ->
     (forall b, Tmr.within (Tmr.timers (k_timer k)) b (pre ++ post) ->
        Tmr.ordered (Tmr.timers (k_timer k)) b (pre ++ post) ->
        u32 (u32 (rt_tick k + u32 tick) - b) < Tmr.half_range ->
        Tmr.ordered (Tmr.timers (k_timer k1)) b (Tmr.rt_timer_list (k_timer k1)) /\
        Tmr.within (Tmr.timers (k_timer k1)) b (Tmr.rt_timer_list (k_timer k1))) ->
     Q c (set_k_sched s' k1)) ->
  wp (rt_thread_sleep timer_thread tick) k Q.
Proof.
  intros Hk Hc Hch Est HQ. unfold rt_thread_sleep, rt_thread_self. wp_step. apply wp_in_sched. wp_steps.
  rewrite set_k_sched_id. eapply wp_deref; [done|].
  destruct (thread_timer_of k c ch Hk Hch) as (tm & Htm & Hit).
  assert (prio_ok ch) as Hpr by (apply (started_prio k c ch); [done|done|stats|stats]).
  wp_step. apply (wp_thread_suspend c ch tm); [done|done|by right|done|].
  pose proof (kinv_suspended c ch tm k Hk Hch Hpr Htm) as Hk1.
  assert (threads (k_sched (suspended_k c ch tm k)) !! c = Some (with_stat RT_THREAD_SUSPEND ch)) as Hch1.
  { change (threads (suspended_s c ch (k_sched k)) !! c = Some (with_stat RT_THREAD_SUSPEND ch)).
    by rewrite suspended_threads, lookup_insert_eq. }
  destruct (thread_timer_of _ c _ Hk1 Hch1) as (tm1 & Htm1 & Hit1).
  assert (ThreadTimer c ∉ Tmr.rt_timer_list (k_timer k)) as Hnin.
  { intros Hin. pose proof (ki_wait k Hk c ch Hch Hin). stats. }
  assert (Tmr.rt_timer_list (k_timer (suspended_k c ch tm k)) = Tmr.rt_timer_list (k_timer k)) as Erow.
  { simpl. unfold Tmr.stop_result. case_match; [|done]. simpl. by apply Tmr.unlink_id. }
  wp_step. apply (wp_start_thread_timer c (with_stat RT_THREAD_SUSPEND ch) tm1); [done|done|by apply stat_of_with_stat|done|].
  intros pre post st' El Hk2 Hord. rewrite Erow, Tmr.unlink_id in El by done.
  wp_step. eapply (wp_kernel_schedule c); [done|simpl; by rewrite removed_current|].
  intros ch2 s' Hch2 Hk3 Hpost. wp_steps.
  change (threads (suspended_s c ch (k_sched k)) !! c = Some ch2) in Hch2.
  rewrite suspended_threads, lookup_insert_eq in Hch2. injection Hch2 as <-.
  apply (HQ tm tm1 pre post s'); [done|done|done|done|done|done|].
  intros b Hw Ho Hkb.
  assert (forall x, x ∈ pre ++ post ->
            Tmr.timers (k_timer (suspended_k c ch tm k)) !! x = Tmr.timers (k_timer k) !! x) as Hsame.
  { intros x Hx. apply Tmr.stop_result_other. intros ->. by rewrite El in Hnin. }
  apply Hord; [| |done].
  - intros x Hx. unfold Tmr.key. rewrite Hsame by done. by apply Hw.
  - rewrite Erow, El. apply (Tmr.ordered_ext (Tmr.timers (k_timer k))); [|done].
    intros x Hx. unfold Tmr.key. by rewrite Hsame.
Qed.
End Sleep.

(** ** The system tick *)

Lemma stat_of_or_yield th : stat_of (set_stat (Z.lor (stat th) RT_THREAD_STAT_YIELD) th) = stat_of th.
Proof. unfold stat_of, set_stat; simpl. rewrite Z.land_lor_distr_l. by rewrite Z.lor_0_r. Qed.

(** Timers of waiting threads only, in expiry order after the instant [b]. *)
Record tick_inv (b : Z) (k : kernel) : Prop := {
  ti_kinv : kinv k;
  ti_current : exists c, rt_current_thread (k_sched k) = Some c;
  ti_check : Tmr.check_list (k_timer k) = [];
  ti_threads : exists ts, Tmr.rt_timer_list (k_timer k) = ThreadTimer <$> ts;
  ti_within : Tmr.within (Tmr.timers (k_timer k)) b (Tmr.rt_timer_list (k_timer k));
  ti_ordered : Tmr.ordered (Tmr.timers (k_timer k)) b (Tmr.rt_timer_list (k_timer k))
}.

Lemma tick_next x b : u32 (u32 (x + 1) - b) = u32 (u32 (x - b) + 1).
Proof.
  unfold uwrap. rewrite Zminus_mod_idemp_l, Zplus_mod_idemp_l. f_equal. lia.
Qed.

Section Tick.
Context (timer_thread : oid) (user_timeout : Z -> oid -> M kernel unit).

(** What the tick means for the waiting threads, from [k] to [k']. *)
Definition tick_post (b : Z) (k k' : kernel) : Prop :=
  tick_inv b k' /\
  (length (Tmr.rt_timer_list (k_timer k')) <= length (Tmr.rt_timer_list (k_timer k)))%nat /\
  forall t tm, ThreadTimer t ∈ Tmr.rt_timer_list (k_timer k) ->
    Tmr.timers (k_timer k) !! ThreadTimer t = Some tm ->
    if u32 (rt_tick k' - Tmr.timeout_tick tm) <? Tmr.half_range
    then exists th', threads (k_sched k') !! t = Some th' /\ runnable th' /\ error th' = - RT_ETIMEOUT
    else ThreadTimer t ∈ Tmr.rt_timer_list (k_timer k') /\
         Tmr.timers (k_timer k') !! ThreadTimer t = Some tm.

Lemma timer_check_spec fuel b k (Q : unit -> kernel -> Prop) :
  tick_inv b k -> u32 (rt_tick k - b) < Tmr.half_range ->
  (length (Tmr.rt_timer_list (k_timer k)) < fuel)%nat ->
  (forall k', tick_post b k k' -> rt_tick k' = rt_tick k -> Q tt k') ->
  wp (rt_timer_check timer_thread user_timeout fuel) k Q.
Proof.
  intros [Hk [c Hc] Hchk [ts Hl] Hw Ho] Hnow Hf HQ. rewrite Hl in Hw, Ho, Hf. rewrite length_fmap in Hf.
  destruct (ordered_cut b (rt_tick k) _ _ Hw Ho Hnow) as (r1 & r2 & E & H1 & H2).
  apply fmap_app_inv in E as (l1 & l2 & -> & -> & ->).
  rewrite Forall_fmap, Forall_forall in H1. rewrite Forall_fmap, Forall_forall in H2. simpl in H1, H2.
  unfold rt_timer_check, rt_tick_get. wp_steps. rewrite fmap_app in Hl, Hw, Ho.
  apply (check_loop_spec timer_thread user_timeout fuel c l1 (ThreadTimer <$> l2)); [done|done|done|done|exact H1| | |].
  { intros x Hx. destruct l2 as [|y l2]; [done|]. injection Hx as <-. apply H2. set_solver. }
  { rewrite length_app in Hf. lia. }
  intros k' Hk' Hc' Hl' Hchk' Htick' Htms Hfr Hwk. apply HQ; [|done].
  assert (forall t, t ∈ l2 -> t ∉ l1) as Hdisj.
  { intros t Ht2 Ht1. apply H1 in Ht1. apply H2 in Ht2. simpl in *. congruence. }
  assert (forall x, x ∈ ThreadTimer <$> l2 -> Tmr.timers (k_timer k') !! x = Tmr.timers (k_timer k) !! x) as Hsame.
  { intros x (t & -> & Ht)%list_elem_of_fmap. apply Htms. intros (t' & [= <-] & Ht')%list_elem_of_fmap.
    by apply (Hdisj t). }
  split; [split|split].
  - done.
  - done.
  - done.
  - by exists l2.
  - rewrite Hl'. intros x Hx. unfold Tmr.key. rewrite Hsame by done. apply Hw. set_solver.
  - rewrite Hl'. apply Tmr.ordered_app in Ho as (_ & Ho & _).
    apply (Tmr.ordered_ext (Tmr.timers (k_timer k))); [|done]. intros x Hx. unfold Tmr.key. by rewrite Hsame.
  - rewrite Hl', Hl, length_app. lia.
  - intros t tm Hin Htm. rewrite Htick'. rewrite Hl, <- fmap_app in Hin.
    apply list_elem_of_fmap in Hin as (t' & [= <-] & Ht). apply elem_of_app in Ht as [Ht|Ht].
    + pose proof (H1 t Ht) as Hp. unfold pending in Hp. rewrite Htm in Hp. apply negb_false_iff in Hp. rewrite Hp. auto.
    + pose proof (H2 t Ht) as Hp. unfold pending in Hp. rewrite Htm in Hp. apply negb_true_iff in Hp. rewrite Hp.
      rewrite Hl'. split; [set_solver|]. rewrite Hsame by set_solver. done.
Qed.

(** The time slice of the running thread: the invariant and the timers stay. *)
Lemma slice_spec (K : M kernel unit) k (Q : unit -> kernel -> Prop) :
  kinv k -> (exists c, rt_current_thread (k_sched k) = Some c) ->
  (forall s', kinv (set_k_sched s' k) -> (exists c, rt_current_thread s' = Some c) ->
     wp K (set_k_sched s' k) Q) ->
  wp (self ← in_sched rt_thread_self;
      thread ← deref self;
      in_sched (upd_thread thread (fun th => set_remaining_tick (u32 (remaining_tick th - 1)) th));;
      th ← in_sched (get_thread thread);
      when (remaining_tick th =? 0) (
        in_sched (upd_thread thread (fun th => set_remaining_tick (init_tick th) th));;
        in_sched (upd_thread thread (fun th => set_stat (Z.lor (stat th) RT_THREAD_STAT_YIELD) th));;
        in_sched rt_schedule);;
      K) k Q.
Proof.
  intros Hk [c Hc] HQ. destruct (lo_current _ (kinv_lists k Hk) c Hc) as [ch Hch].
  unfold rt_thread_self. wp_step. apply wp_in_sched. wp_steps. rewrite set_k_sched_id. eapply wp_deref; [done|].
  wp_step. apply wp_in_sched. eapply wp_upd_thread; [done|].
  set (ch1 := set_remaining_tick (u32 (remaining_tick ch - 1)) ch). fold (upd_st c ch1 (k_sched k)).
  pose proof (kinv_upd_same c ch ch1 k Hk Hch eq_refl eq_refl eq_refl) as Hk1.
  wp_step. apply wp_in_sched. eapply wp_get_thread; [apply lookup_insert_eq|].
  wp_step. apply wp_when; intros E; [|by apply (HQ (upd_st c ch1 (k_sched k))); eauto].
  wp_step. apply wp_in_sched. eapply wp_upd_thread; [apply lookup_insert_eq|].
  set (ch2 := set_remaining_tick (init_tick ch1) ch1).
  wp_step. apply wp_in_sched. eapply wp_upd_thread; [apply lookup_insert_eq|].
  set (ch3 := set_stat (Z.lor (stat ch2) RT_THREAD_STAT_YIELD) ch2). simpl. rewrite !insert_insert_eq.
  pose proof (kinv_upd_same c ch ch3 k Hk Hch (stat_of_or_yield ch2) eq_refl eq_refl) as Hk3.
  eapply (wp_kernel_schedule c (set_k_sched (upd_st c ch3 (k_sched k)) k)); [done|done|].
  intros ch' s' Hch' Hk' Hpost. apply HQ; [done|]. by eapply (schedule_current c ch' (upd_st c ch3 (k_sched k)) s').
Qed.

Lemma tick_increase_spec fuel b k (Q : unit -> kernel -> Prop) :
  tick_inv b k -> u32 (u32 (rt_tick k + 1) - b) < Tmr.half_range ->
  (length (Tmr.rt_timer_list (k_timer k)) < fuel)%nat ->
  (forall k', tick_post b k k' -> rt_tick k' = u32 (rt_tick k + 1) -> Q tt k') ->
  wp (rt_tick_increase timer_thread user_timeout fuel) k Q.
Proof.
  intros [Hk Hc Hchk Hl Hw Ho] Hnow Hf HQ. unfold rt_tick_increase. wp_step. wp_step.
  set (k1 := set_rt_tick (u32 (rt_tick k + 1)) k).
  assert (kinv k1) as Hk1 by (destruct Hk; by split).
  apply (slice_spec _ k1); [done|done|]. intros s' Hk2 Hc2.
  apply (timer_check_spec fuel b (set_k_sched s' k1)); [by split|done|done|].
  intros k' [Hinv Hpost] Htick. apply HQ; [|done]. by split.
Qed.

Fixpoint ticks (n : nat) (fuel : nat) : M kernel unit :=
  match n with
  | O => mret tt
  | S n => rt_tick_increase timer_thread user_timeout fuel;; ticks n fuel
  end.

(** A run of [n] ticks: the timer of [t] stays pending until its timeout. *)
Lemma ticks_spec n fuel b t tm k (Q : unit -> kernel -> Prop) :
  tick_inv b k -> 0 <= u32 (rt_tick k - b) ->
  u32 (rt_tick k - b) + Z.of_nat n <= u32 (Tmr.timeout_tick tm - b) ->
  u32 (Tmr.timeout_tick tm - b) < Tmr.half_range -> is_u32 (rt_tick k) ->
  (length (Tmr.rt_timer_list (k_timer k)) < fuel)%nat ->
  ThreadTimer t ∈ Tmr.rt_timer_list (k_timer k) ->
  Tmr.timers (k_timer k) !! ThreadTimer t = Some tm ->
  u32 (rt_tick k - b) < u32 (Tmr.timeout_tick tm - b) ->
  (forall k', tick_inv b k' -> u32 (rt_tick k' - b) = u32 (rt_tick k - b) + Z.of_nat n ->
     (if u32 (rt_tick k - b) + Z.of_nat n <? u32 (Tmr.timeout_tick tm - b)
      then exists th', threads (k_sched k') !! t = Some th' /\ stat_of th' = RT_THREAD_SUSPEND
      else exists th', threads (k_sched k') !! t = Some th' /\ runnable th' /\ error th' = - RT_ETIMEOUT) ->
     Q tt k') ->
  wp (ticks n fuel) k Q.
Proof.
  revert k. induction n as [|n IH]; intros k Hinv H0 Hn Hlim Hu Hf Hin Htm Hlt HQ.
  - simpl. wp_steps. apply HQ; [done|lia|]. rewrite (proj2 (Z.ltb_lt _ _)) by lia.
    destruct Hinv as [Hk _ _ _ _ _]. destruct (proj2 (ki_ttimer k Hk t)) as [th Ht].
    { exists tm. split; [done|by apply (ki_only k Hk)]. }
    exists th. split; [done|]. by apply (ki_wait k Hk t).
  - simpl. wp_step.
    assert (u32 (u32 (rt_tick k + 1) - b) = u32 (rt_tick k - b) + 1) as Estep.
    { rewrite tick_next. rewrite uwrap_small; [done|].
      change Tmr.half_range with 2147483647 in Hlim. c_lia. }
    apply (tick_increase_spec fuel b); [done|lia|done|].
    intros k1 (Hinv1 & Hlen1 & Hpost) Htick1. specialize (Hpost t tm Hin Htm). rewrite Htick1 in Hpost.
    destruct (Tmr.tick_diff (u32 (rt_tick k + 1)) (Tmr.timeout_tick tm) b) as [_ D]; [lia|lia|].
    destruct (Z.ltb_spec (u32 (u32 (rt_tick k + 1) - Tmr.timeout_tick tm)) Tmr.half_range) as [Hx|Hx].
    + assert (n = 0%nat) as -> by lia. simpl. wp_steps. apply HQ; [done|rewrite Htick1; lia|].
      rewrite (proj2 (Z.ltb_ge _ _)) by lia. done.
    + destruct Hpost as [Hin1 Htm1].
      apply IH; [done|rewrite Htick1; lia|rewrite Htick1; lia|done|rewrite Htick1; apply uwrap_range; lia|lia|done|done
                |rewrite Htick1; lia|].
      intros k' Hinv' Ht' Hres. rewrite Htick1, Estep in Ht', Hres. apply HQ; [done|lia|].
      replace (u32 (rt_tick k - b) + Z.of_nat (S n)) with (u32 (rt_tick k - b) + 1 + Z.of_nat n) by lia. done.
Qed.

End Tick.

(** ** An executable check of the invariant *)

#[export] Instance callback_eq_dec : EqDecision Tmr.callback.
Proof. solve_decision. Defined.
#[export] Instance is_thread_timer_dec t tm : Decision (is_thread_timer t tm).
Proof. unfold is_thread_timer. apply _. Defined.

Definition timers_check (s : Tmr.timer_st) : Prop :=
  NoDup (Tmr.all_rows s) /\ Forall (fun t => is_Some (Tmr.timers s !! t)) (Tmr.all_rows s) /\
  map_Forall (fun t tm =>
    (t ∈ Tmr.rt_timer_list s -> Tmr.has_flag Tmr.RT_TIMER_FLAG_ACTIVATED tm = true /\
                                Tmr.has_flag Tmr.RT_TIMER_FLAG_SOFT_TIMER tm = false) /\
    (t ∈ Tmr.rt_soft_timer_list s -> Tmr.has_flag Tmr.RT_TIMER_FLAG_ACTIVATED tm = true /\
                                     Tmr.has_flag Tmr.RT_TIMER_FLAG_SOFT_TIMER tm = true) /\
    (Tmr.has_flag Tmr.RT_TIMER_FLAG_ACTIVATED tm = true -> t ∈ Tmr.all_rows s)) (Tmr.timers s).

Definition timer_known (k : kernel) (r : ref) (tm : Tmr.rt_timer) : Prop :=
  match r with
  | ThreadTimer t => is_Some (threads (k_sched k) !! t) /\ is_thread_timer t tm
  | Obj _ => Tmr.timeout_func tm <> Tmr.Thread_timeout
  end.

Definition kernel_check (k : kernel) : Prop :=
  sched_check (k_sched k) /\ timers_check (k_timer k) /\
  map_Forall (fun t th => is_Some (Tmr.timers (k_timer k) !! ThreadTimer t) /\
    (ThreadTimer t ∈ Tmr.rt_timer_list (k_timer k) -> stat_of th = RT_THREAD_SUSPEND)) (threads (k_sched k)) /\
  map_Forall (timer_known k) (Tmr.timers (k_timer k)).

#[export] Instance timer_known_dec k r tm : Decision (timer_known k r tm).
Proof. destruct r; unfold timer_known; apply _. Defined.
#[export] Instance timers_check_dec s : Decision (timers_check s).
Proof. unfold timers_check. apply _. Defined.
#[export] Instance kernel_check_dec k : Decision (kernel_check k).
Proof. unfold kernel_check. apply _. Defined.

Lemma timers_check_sound s : timers_check s -> Tmr.timers_ok s.
Proof.
  intros (H1 & H2 & H3). rewrite Forall_forall in H2. split; [done|done|..].
  - intros t tm Ht. apply (H3 t tm Ht).
  - intros t tm Ht. apply (H3 t tm Ht).
  - intros t tm Ht. apply (H3 t tm Ht).
Qed.

Lemma kernel_check_sound k : kernel_check k -> kinv k.
Proof.
  intros (H1 & H2 & H3 & H4). split.
  - by apply sched_check_sound.
  - by apply timers_check_sound.
  - intros t. split.
    + intros [th Ht]. destruct (H3 t th Ht) as [[tm Htm] _]. exists tm. split; [done|]. apply (H4 _ _ Htm).
    + intros (tm & Htm & _). apply (H4 _ _ Htm).
  - intros t tm Htm. apply (H4 _ _ Htm).
  - intros t th Ht. apply (H3 t th Ht).
  - intros o tm Htm. specialize (H4 _ _ Htm). simpl in H4. destruct (Tmr.timeout_func tm); [done|eauto].
Qed.

(** The system of [demo_sched], with a clock near its wrap-around: thread 4
    waits for object 9 with a timeout in two ticks, thread 5 sleeps longer. *)
Definition thread_timer (t : oid) (flg init timeout : Z) : Tmr.rt_timer :=
  Tmr.mk_timer flg Tmr.Thread_timeout t init timeout.

Definition demo_kernel : kernel :=
  mk_kernel
    (set_threads (<[5%positive := demo_thread RT_THREAD_SUSPEND 7]> (threads demo_sched)) demo_sched)
    (Tmr.mk_timers
      (<[ThreadTimer 1 := thread_timer 1 0 0 0]> (<[ThreadTimer 2 := thread_timer 2 0 0 0]>
      (<[ThreadTimer 3 := thread_timer 3 0 0 0]> (<[ThreadTimer 4 := thread_timer 4 1 10 0]>
      (<[ThreadTimer 5 := thread_timer 5 1 20 6]> ∅)))))
      [ThreadTimer 4; ThreadTimer 5] [] [] [] Tmr.RT_SOFT_TIMER_IDLE 0)
    obj_init 0xfffffffe.

Lemma demo_kernel_inv : kinv demo_kernel.
Proof. apply kernel_check_sound, (bool_decide_unpack _). vm_compute. exact I. Qed.

Lemma demo_kernel_ordered b : b = 0xfffffffe \/ b = 0 ->
  Tmr.within (Tmr.timers (k_timer demo_kernel)) b (Tmr.rt_timer_list (k_timer demo_kernel)) /\
  Tmr.ordered (Tmr.timers (k_timer demo_kernel)) b (Tmr.rt_timer_list (k_timer demo_kernel)).
Proof.
  intros Hb. split.
  - intros x Hx. simpl in Hx. set_unfold in Hx.
    destruct Hx as [->|[->|[]]], Hb as [->| ->]; (split; [eexists; reflexivity|by vm_compute]).
  - destruct Hb as [->| ->]; repeat (constructor; [|repeat (constructor; [vm_compute; congruence|]); constructor]); constructor.
Qed.

(** ** Theorems *)

(** C33. The tick interrupt wakes exactly the threads whose timeout has come:
    with the kernel invariant, a hard timer list that holds timers of waiting
    threads in expiry order, all within half the counter range after some
    instant (so also across the wrap-around of the counter), and fuel for one
    round per timer, [rt_timer_check] terminates without fault and keeps the
    invariant; the timers left are exactly those whose timeout lies ahead, in
    the same order; each thread whose timer expired is runnable, with the error
    code of a timeout; every other thread that was not ready or running is
    exactly as it was, both those whose timeout lies ahead and those that wait
    without a timeout and so have no timer in the list, and those that could
    run still can. *)
Theorem timer_check_wakes_expired timer_thread user_timeout fuel b c ts k :
  kinv k -> rt_current_thread (k_sched k) = Some c -> Tmr.check_list (k_timer k) = [] ->
  Tmr.rt_timer_list (k_timer k) = ThreadTimer <$> ts ->
  Tmr.within (Tmr.timers (k_timer k)) b (ThreadTimer <$> ts) ->
  Tmr.ordered (Tmr.timers (k_timer k)) b (ThreadTimer <$> ts) ->
  u32 (rt_tick k - b) < Tmr.half_range -> (length ts < fuel)%nat ->
  wp (rt_timer_check timer_thread user_timeout fuel) k (fun _ k' =>
    kinv k' /\ rt_tick k' = rt_tick k /\
    Tmr.rt_timer_list (k_timer k') =
      filter (fun x => pending (rt_tick k) (Tmr.timers (k_timer k)) x = true) (ThreadTimer <$> ts) /\
    (forall t, t ∈ ts ->
       if pending (rt_tick k) (Tmr.timers (k_timer k)) (ThreadTimer t)
       then threads (k_sched k') !! t = threads (k_sched k) !! t
       else exists th', threads (k_sched k') !! t = Some th' /\ runnable th' /\
                        error th' = - RT_ETIMEOUT) /\
    (forall x xh, threads (k_sched k) !! x = Some xh ->
       (x ∈ ts -> pending (rt_tick k) (Tmr.timers (k_timer k)) (ThreadTimer x) = true) ->
       (~ runnable xh -> threads (k_sched k') !! x = Some xh) /\
       (runnable xh ->
          exists xh', threads (k_sched k') !! x = Some xh' /\ runnable xh' /\ same_task xh xh'))).
Proof.
  intros Hk Hc Hchk Hl Hw Ho Hnow Hf.
  destruct (ordered_cut b (rt_tick k) _ _ Hw Ho Hnow) as (r1 & r2 & E & H1 & H2).
  apply fmap_app_inv in E as (l1 & l2 & -> & -> & ->).
  rewrite Forall_fmap, Forall_forall in H1. rewrite Forall_fmap, Forall_forall in H2. simpl in H1, H2.
  unfold rt_timer_check, rt_tick_get. wp_steps.
  rewrite fmap_app in Hl.
  apply (check_loop_spec timer_thread user_timeout fuel c l1 (ThreadTimer <$> l2)); [done|done|done|done|exact H1| | |].
  { intros x Hx. destruct l2 as [|y l2]; [done|]. injection Hx as <-. apply H2. set_solver. }
  { rewrite length_app in Hf. lia. }
  intros k' Hk' Hc' Hl' Hchk' Htick' Htms Hfr Hwk. split; [done|]. split; [done|].
  split; [|split].
  - rewrite Hl', fmap_app, filter_split; [done|by rewrite Forall_fmap, Forall_forall|by rewrite Forall_fmap, Forall_forall].
  - intros t Ht. destruct (pending _ _ (ThreadTimer t)) eqn:Ep.
    + assert (t ∉ l1) as Hn by (intros Hn; apply H1 in Hn; simpl in Hn; congruence).
      destruct (proj2 (ki_ttimer k Hk t)) as [th Hth].
      { destruct (Tmr.to_known _ (ki_timers k Hk) (ThreadTimer t)) as [tm Htm].
        - unfold Tmr.all_rows. rewrite Hl, <- fmap_app. set_solver.
        - exists tm. split; [done|by apply (ki_only k Hk)]. }
      rewrite Hth. apply (Hfr t th Hth); [done|]. apply (suspended_idle th), (ki_wait k Hk t th Hth).
      rewrite Hl, <- fmap_app. set_solver.
    + apply Hwk. apply elem_of_app in Ht as [Ht|Ht]; [done|]. apply H2 in Ht. simpl in Ht. congruence.
  - intros x xh Hx Hn.
    assert (x ∉ l1) as Hx1.
    { intros Hin. specialize (H1 x Hin). rewrite Hn in H1; [done|set_solver]. }
    destruct (Hfr x xh Hx) as [Hs Hr]. by split; [apply Hs|apply Hr].
Qed.

(** One tick after the timeout of thread 4: it is woken, thread 5 is not. *)
Lemma timer_check_wakes_expired_witness :
  let k := set_rt_tick 1 demo_kernel in
  exists k', rt_timer_check 9 (fun _ _ => mret tt) 5 k = Some (tt, k') /\
    Tmr.rt_timer_list (k_timer k') = [ThreadTimer 5] /\ kinv k'.
Proof.
  intros k. destruct (demo_kernel_ordered 0 (or_intror eq_refl)) as [Hw Ho].
  assert (wp (rt_timer_check 9 (fun _ _ => mret tt) 5) k (fun _ k' => kinv k')) as H.
  { eapply wp_mono; [apply (timer_check_wakes_expired 9 (fun _ _ => mret tt) 5 0 1%positive [4; 5]%positive k)|].
    - destruct demo_kernel_inv; by split.
    - reflexivity.
    - reflexivity.
    - reflexivity.
    - exact Hw.
    - exact Ho.
    - by vm_compute.
    - simpl. lia.
    - intros a k' [Hk _]. exact Hk. }
  assert (Tmr.rt_timer_list ∘ k_timer ∘ snd <$> rt_timer_check 9 (fun _ _ => mret tt) 5 k = Some [ThreadTimer 5]) as HC
    by (vm_compute; reflexivity).
  destruct (proj1 (wp_Some _ _ _) H) as ([] & k' & E & Hk). exists k'. split; [exact E|]. split; [|exact Hk].
  rewrite E in HC. by injection HC.
Defined.

(** C2. A sleep lasts exactly as long as asked: from a state with the kernel
    invariant where only waiting threads have timers pending, all within half
    the counter range from now, when the running thread calls
    [rt_thread_sleep(tick)] with [0 < tick < RT_TICK_MAX / 2] and then [n <=
    tick] tick interrupts arrive, nothing faults, the invariant holds, and the
    thread is still suspended when [n < tick] and runnable, with the error code
    of a timeout, when [n = tick].  The tick counter may wrap around on the
    way. *)
Theorem sleep_lasts_exactly timer_thread user_timeout fuel c ch tick n k :
  tick_inv (rt_tick k) k -> is_u32 (rt_tick k) ->
  rt_current_thread (k_sched k) = Some c -> threads (k_sched k) !! c = Some ch ->
  stat_of ch = RT_THREAD_RUNNING ->
  0 < tick < Tmr.half_range -> Z.of_nat n <= tick ->
  (S (length (Tmr.rt_timer_list (k_timer k))) < fuel)%nat ->
  wp (rt_thread_sleep timer_thread tick ≫= fun _ => ticks timer_thread user_timeout n fuel) k (fun _ k' =>
    kinv k' /\
    exists ch', threads (k_sched k') !! c = Some ch' /\
      if Z.of_nat n <? tick then stat_of ch' = RT_THREAD_SUSPEND
      else runnable ch' /\ error ch' = - RT_ETIMEOUT).
Proof.
  intros [Hk Hcur Hchk [ts Hts] Hw Ho] Hu Hc Hch Est Htick Hn Hf.
  wp_step. eapply (sleep_spec timer_thread c ch tick k); [done|done|done|done|].
  intros tm tm1 pre post s' k1 Htm Htm1 El Hk1 Hk2 Hpost Hord.
  assert (rt_tick k1 = rt_tick k) as Et by done.
  assert (Tmr.rt_timer_list (k_timer k1) = pre ++ ThreadTimer c :: post) as El1.
  { unfold k1, asleep_k, armed_t, Tmr.linked_t. simpl.
    destruct (ki_only _ Hk1 c (Tmr.started (rt_tick k) (Tmr.set_init_tick (u32 tick) tm1))) as (_ & _ & _ & Es).
    { simpl. by rewrite lookup_insert_eq. }
    destruct (Tmr.started_flags (rt_tick k) (Tmr.set_init_tick (u32 tick) tm1)) as (_ & E2 & _).
    unfold Tmr.home. by rewrite <- E2, Es. }
  assert (Tmr.timers (k_timer k1) !! ThreadTimer c = Some (Tmr.started (rt_tick k) (Tmr.set_init_tick (u32 tick) tm1))) as Htm2
    by apply lookup_insert_eq.
  change Tmr.half_range with 2147483647 in *.
  assert (u32 (u32 (rt_tick k + u32 tick) - rt_tick k) = tick) as Ekey.
  { rewrite (uwrap_small 32 tick) by c_lia. unfold uwrap. rewrite Zminus_mod_idemp_l.
    replace (rt_tick k + tick - rt_tick k) with tick by lia. apply Z.mod_small. c_lia. }
  rewrite El in Hw, Ho, Hf.
  destruct (Hord (rt_tick k) Hw Ho) as [Ho1 Hw1]; [lia|].
  assert (u32 (rt_tick k - rt_tick k) = 0) as E0 by (by rewrite Z.sub_diag).
  set (due := Tmr.started (rt_tick k) (Tmr.set_init_tick (u32 tick) tm1)) in *.
  assert (u32 (Tmr.timeout_tick due - rt_tick k) = tick) as Edue by exact Ekey.
  assert (rt_current_thread (k_sched k1) = Some c) as Hc1 by (simpl; by rewrite removed_current).
  assert (Tmr.check_list (k_timer k1) = []) as Hchk1 by by apply asleep_check_list.
  clearbody k1.
  apply (ticks_spec timer_thread user_timeout n fuel (rt_tick k) c due (set_k_sched s' k1));
    change (rt_tick (set_k_sched s' k1)) with (rt_tick k1); rewrite ?Et, ?E0, ?Edue;
    [|done|lia|change Tmr.half_range with 2147483647; lia|done| |simpl; rewrite El1; set_solver|done|lia|].
  - split; [done|by eapply (schedule_current c _ (k_sched k1) s')|done| |done|done].
    simpl. rewrite El1. rewrite El in Hts. symmetry in Hts. apply fmap_app_inv in Hts as (l1 & l2 & -> & -> & _).
    exists (l1 ++ c :: l2). by rewrite fmap_app.
  - simpl. rewrite El1. rewrite !length_app in *. simpl. lia.
  - intros k' Hinv' _ Hres. split; [apply Hinv'|]. rewrite Z.add_0_l in Hres. destruct (Z.of_nat n <? tick); [exact Hres|]. destruct Hres as (th2 & H1 & H2 & H3). by exists th2.
Qed.

(** Thread 1 sleeps for five ticks while the counter wraps around. *)
Lemma sleep_lasts_exactly_witness :
  exists k', (rt_thread_sleep 9 5 ≫= fun _ => ticks 9 (fun _ _ => mret tt) 5 9) demo_kernel = Some (tt, k') /\
    rt_tick k' = 3 /\ exists ch', threads (k_sched k') !! 1%positive = Some ch' /\ runnable ch'.
Proof.
  destruct (demo_kernel_ordered 0xfffffffe (or_introl eq_refl)) as [Hw Ho].
  assert (wp (rt_thread_sleep 9 5 ≫= fun _ => ticks 9 (fun _ _ => mret tt) 5 9) demo_kernel
            (fun _ k' => exists ch', threads (k_sched k') !! 1%positive = Some ch' /\ runnable ch')) as H.
  { eapply wp_mono;
      [apply (sleep_lasts_exactly 9 (fun _ _ => mret tt) 9 1%positive (demo_thread RT_THREAD_RUNNING 10) 5 5 demo_kernel)|].
    - split; [apply demo_kernel_inv|by exists 1%positive|reflexivity|by exists [4; 5]%positive|exact Hw|exact Ho].
    - vm_compute. split; congruence.
    - reflexivity.
    - reflexivity.
    - reflexivity.
    - change Tmr.half_range with 2147483647. lia.
    - lia.
    - simpl. lia.
    - intros a k' (_ & ch' & Hch & Hr & _). by exists ch'. }
  assert (rt_tick ∘ snd <$> (rt_thread_sleep 9 5 ≫= fun _ => ticks 9 (fun _ _ => mret tt) 5 9) demo_kernel = Some 3) as HC
    by (vm_compute; reflexivity).
  destruct (proj1 (wp_Some _ _ _) H) as ([] & k' & E & Hk). exists k'. split; [exact E|]. split; [|exact Hk].
  rewrite E in HC. by injection HC.
Defined.

End Thr.
