(* ===== verification/Ipc.v ===== *)
(** * Inter-process communication: objects, wait queues, semaphores

    Model of the parts of [rt-thread/src/ipc.c] the communication objects
    share (the wait queues), of the data of all five kinds of object, and of the
    semaphore.  Mutexes, events, mailboxes and message queues are in files of
    their own.

    A call that may wait is split at its [rt_schedule()]: the first part
    returns [Returned r] when the C function returns without waiting and
    [Waiting l] when the thread has been put on a wait queue, with the local
    variables the rest of the function needs; the rest, which the thread
    executes when it is scheduled again, is the definition with the suffix
    [_resumed].  Objects are initialised statically ([rt_xxx_init]); the
    variants that allocate the object are in file Dynamic. *)
From stdpp Require Import base list gmap sorting.
From Stdlib Require Import ZArith Lia.
From S2P Require Import Prelude Scheduler Object Timer Thread.

Module Ipc.
Import Sched Obj Thr.

Definition RT_IPC_FLAG_FIFO : Z := 0.
Definition RT_IPC_FLAG_PRIO : Z := 1.
Definition RT_IPC_CMD_RESET : Z := 1.

Definition RT_SEM_VALUE_MAX : Z := 0xffff.
Definition RT_MUTEX_VALUE_MAX : Z := 0xffff.
Definition RT_MUTEX_HOLD_MAX : Z := 0xff.
Definition RT_MB_ENTRY_MAX : Z := 0xffff.
Definition RT_MQ_ENTRY_MAX : Z := 0xffff.

(** ** The objects, each with the [flag] of its header *)

Record rt_semaphore := mk_sem {
  sem_flag : Z;
  sem_value : Z
}.

Definition set_sem_value (v : Z) (r : rt_semaphore) : rt_semaphore :=
  mk_sem (sem_flag r) v.

Record rt_mutex := mk_mutex {
  mutex_flag : Z;
  mutex_value : Z;
  original_priority : Z;
  hold : Z;
  owner : option oid
}.

Definition set_mutex_value (v : Z) (r : rt_mutex) : rt_mutex :=
  mk_mutex (mutex_flag r) v (original_priority r) (hold r) (owner r).
Definition set_original_priority (v : Z) (r : rt_mutex) : rt_mutex :=
  mk_mutex (mutex_flag r) (mutex_value r) v (hold r) (owner r).
Definition set_hold (v : Z) (r : rt_mutex) : rt_mutex :=
  mk_mutex (mutex_flag r) (mutex_value r) (original_priority r) v (owner r).
Definition set_owner (v : option oid) (r : rt_mutex) : rt_mutex :=
  mk_mutex (mutex_flag r) (mutex_value r) (original_priority r) (hold r) v.

Record rt_event := mk_event {
  ev_flag : Z;
  ev_set : Z
}.

Definition set_ev_set (v : Z) (r : rt_event) : rt_event :=
  mk_event (ev_flag r) v.

Record rt_mailbox := mk_mb {
  mb_flag : Z;
  msg_pool : list Z;
  mb_size : Z;
  mb_entry : Z;
  in_offset : Z;
  out_offset : Z
}.

Definition set_msg_pool (v : list Z) (r : rt_mailbox) : rt_mailbox :=
  mk_mb (mb_flag r) v (mb_size r) (mb_entry r) (in_offset r) (out_offset r).
Definition set_mb_entry (v : Z) (r : rt_mailbox) : rt_mailbox :=
  mk_mb (mb_flag r) (msg_pool r) (mb_size r) v (in_offset r) (out_offset r).
Definition set_in_offset (v : Z) (r : rt_mailbox) : rt_mailbox :=
  mk_mb (mb_flag r) (msg_pool r) (mb_size r) (mb_entry r) v (out_offset r).
Definition set_out_offset (v : Z) (r : rt_mailbox) : rt_mailbox :=
  mk_mb (mb_flag r) (msg_pool r) (mb_size r) (mb_entry r) (in_offset r) v.

(** A slot of the pool of a message queue: the link of [struct rt_mq_message]
    and the bytes behind it.  A pointer to a slot is its index. *)
Record mq_slot := mk_slot { slot_next : option nat; slot_data : list Z }.

Record rt_messagequeue := mk_mq {
  mq_flag : Z;
  mq_pool : list mq_slot;
  msg_size : Z;
  max_msgs : Z;
  mq_entry : Z;
  msg_queue_head : option nat;
  msg_queue_tail : option nat;
  msg_queue_free : option nat
}.

Definition set_mq_pool (v : list mq_slot) (r : rt_messagequeue) : rt_messagequeue :=
  mk_mq (mq_flag r) v (msg_size r) (max_msgs r) (mq_entry r) (msg_queue_head r) (msg_queue_tail r) (msg_queue_free r).
Definition set_mq_entry (v : Z) (r : rt_messagequeue) : rt_messagequeue :=
  mk_mq (mq_flag r) (mq_pool r) (msg_size r) (max_msgs r) v (msg_queue_head r) (msg_queue_tail r) (msg_queue_free r).
Definition set_msg_queue_head (v : option nat) (r : rt_messagequeue) : rt_messagequeue :=
  mk_mq (mq_flag r) (mq_pool r) (msg_size r) (max_msgs r) (mq_entry r) v (msg_queue_tail r) (msg_queue_free r).
Definition set_msg_queue_tail (v : option nat) (r : rt_messagequeue) : rt_messagequeue :=
  mk_mq (mq_flag r) (mq_pool r) (msg_size r) (max_msgs r) (mq_entry r) (msg_queue_head r) v (msg_queue_free r).
Definition set_msg_queue_free (v : option nat) (r : rt_messagequeue) : rt_messagequeue :=
  mk_mq (mq_flag r) (mq_pool r) (msg_size r) (max_msgs r) (mq_entry r) (msg_queue_head r) (msg_queue_tail r) v.

(** The state of the kernel with its communication objects. *)
Record ipc := mk_ipc {
  i_kernel : kernel;
  sems : gmap oid rt_semaphore;
  mutexes : gmap oid rt_mutex;
  events : gmap oid rt_event;
  mailboxes : gmap oid rt_mailbox;
  mqueues : gmap oid rt_messagequeue
}.

Definition set_i_kernel (v : kernel) (r : ipc) : ipc :=
  mk_ipc v (sems r) (mutexes r) (events r) (mailboxes r) (mqueues r).
Definition set_sems (v : gmap oid rt_semaphore) (r : ipc) : ipc :=
  mk_ipc (i_kernel r) v (mutexes r) (events r) (mailboxes r) (mqueues r).
Definition set_mutexes (v : gmap oid rt_mutex) (r : ipc) : ipc :=
  mk_ipc (i_kernel r) (sems r) v (events r) (mailboxes r) (mqueues r).
Definition set_events (v : gmap oid rt_event) (r : ipc) : ipc :=
  mk_ipc (i_kernel r) (sems r) (mutexes r) v (mailboxes r) (mqueues r).
Definition set_mailboxes (v : gmap oid rt_mailbox) (r : ipc) : ipc :=
  mk_ipc (i_kernel r) (sems r) (mutexes r) (events r) v (mqueues r).
Definition set_mqueues (v : gmap oid rt_messagequeue) (r : ipc) : ipc :=
  mk_ipc (i_kernel r) (sems r) (mutexes r) (events r) (mailboxes r) v.

Definition in_kernel {A} (m : M kernel A) : M ipc A := zoom i_kernel set_i_kernel m.
Abbreviation i_sched i := (k_sched (i_kernel i)).

Inductive outcome (L R : Type) := Returned (r : R) | Waiting (l : L).
Arguments Returned {L R} _.
Arguments Waiting {L R} _.

(** ** Wait queues *)

(** The loop of [rt_ipc_list_suspend] for [RT_IPC_FLAG_PRIO]: in front of the
    first thread of lower priority. *)
Fixpoint prio_insert (ths : gmap oid rt_thread) (t : oid) (p : Z) (l : list oid)
  : option (list oid) :=
  match l with
  | [] => Some [t]
  | x :: l' =>
      xh ← ths !! x;
      if p <? current_priority xh then Some (t :: l)
      else r ← prio_insert ths t p l'; Some (x :: r)
  end.

Definition tlist_insert_prio (l : lhead) (t : oid) : M sched unit :=
  detached_or_fault t;;
  th ← get_thread t;
  xs ← get_list l;
  ths ← gets threads;
  xs' ← deref (prio_insert ths t (current_priority th) xs);
  set_list l xs'.

Definition rt_ipc_object_init (o : oid) : M sched unit := tlist_init (LSusp o).

Definition rt_ipc_list_suspend (l : lhead) (thread : oid) (flag : Z) : M kernel Z :=
  rt_thread_suspend thread;;
  (if flag =? RT_IPC_FLAG_FIFO then in_sched (tlist_insert_before l thread)
   else if flag =? RT_IPC_FLAG_PRIO then in_sched (tlist_insert_prio l thread)
   else mret tt);;
  mret RT_EOK.

Definition rt_ipc_list_resume (l : lhead) : M kernel Z :=
  xs ← in_sched (get_list l);
  thread ← deref (head xs);
  rt_thread_resume thread;;
  mret RT_EOK.

(** The loop wakes the first thread until the list is empty; [fuel] bounds its
    rounds. *)
Fixpoint rt_ipc_list_resume_all (fuel : nat) (l : lhead) : M kernel Z :=
  xs ← in_sched (get_list l);
  match xs with
  | [] => mret RT_EOK
  | thread :: _ =>
      match fuel with
      | O => fault
      | S fuel =>
          in_sched (upd_thread thread (set_error (- RT_ERROR)));;
          rt_thread_resume thread;;
          rt_ipc_list_resume_all fuel l
      end
  end.

Fixpoint highest_priority_loop (ths : gmap oid rt_thread) (l : list oid) (priority : Z) : option Z :=
  match l with
  | [] => Some priority
  | x :: l =>
      xh ← ths !! x;
      highest_priority_loop ths l
        (if priority <? current_priority xh then priority else current_priority xh)
  end.

Definition rt_ipc_get_highest_priority (l : lhead) : M sched Z :=
  xs ← get_list l;
  ths ← gets threads;
  deref (highest_priority_loop ths xs (RT_THREAD_PRIORITY_MAX - 1)).

(** [!rt_list_isempty(&list)] *)
Definition has_waiter (l : lhead) : M ipc bool :=
  xs ← in_kernel (in_sched (get_list l)); mret (bool_decide (xs <> [])).

(** The thread that runs. *)
Definition self : M ipc oid :=
  t ← in_kernel (in_sched rt_thread_self); deref t.

Definition thread_error (thread : oid) : M ipc Z :=
  th ← in_kernel (in_sched (get_thread thread)); mret (error th).
Definition reset_error (thread : oid) (e : Z) : M ipc unit :=
  in_kernel (in_sched (upd_thread thread (set_error e))).

Definition schedule : M ipc unit := in_kernel (in_sched rt_schedule).

(** ** Semaphores *)

Definition get_sem (o : oid) : M ipc rt_semaphore := m ← gets sems; deref (m !! o).
Definition put_sem (o : oid) (s : rt_semaphore) : M ipc unit :=
  modify (fun i => set_sems (<[o := s]> (sems i)) i).

Definition rt_sem_init (o : oid) (nm : list Z) (value flag : Z) : M ipc Z :=
  in_kernel (rt_object_init (Obj o) RT_Object_Class_Semaphore nm);;
  in_kernel (in_sched (rt_ipc_object_init o));;
  put_sem o (mk_sem flag (u16 value));;
  mret RT_EOK.

Definition rt_sem_detach (fuel : nat) (o : oid) : M ipc Z :=
  in_kernel (rt_ipc_list_resume_all fuel (LSusp o));;
  in_kernel (in_obj (rt_object_detach (Obj o)));;
  mret RT_EOK.

Section Wait.
Context (timer_thread : oid).

(** Put the thread on a wait queue, with a timeout when [time > 0], and give up
    the processor. *)
Definition wait_on (l : lhead) (thread : oid) (flag time : Z) : M ipc unit :=
  in_kernel (rt_ipc_list_suspend l thread flag);;
  when (0 <? time) (in_kernel (start_thread_timer timer_thread thread time));;
  schedule.

Definition rt_sem_take (o : oid) (time : Z) : M ipc (outcome oid Z) :=
  sem ← get_sem o;
  if 0 <? sem_value sem then
    put_sem o (set_sem_value (sem_value sem - 1) sem);;
    mret (Returned RT_EOK)
  else if time =? 0 then mret (Returned (- RT_ETIMEOUT))
  else
    thread ← self;
    reset_error thread RT_EOK;;
    wait_on (LSusp o) thread (sem_flag sem) time;;
    mret (Waiting thread).

Definition rt_sem_take_resumed (thread : oid) : M ipc Z :=
  e ← thread_error thread;
  if negb (e =? RT_EOK) then mret e else mret RT_EOK.

Definition rt_sem_trytake (o : oid) : M ipc (outcome oid Z) := rt_sem_take o 0.

Definition rt_sem_release (o : oid) : M ipc Z :=
  sem ← get_sem o;
  waiter ← has_waiter (LSusp o);
  if waiter : bool then
    in_kernel (rt_ipc_list_resume (LSusp o));;
    schedule;;
    mret RT_EOK
  else if sem_value sem <? RT_SEM_VALUE_MAX then
    put_sem o (set_sem_value (sem_value sem + 1) sem);;
    mret RT_EOK
  else mret (- RT_EFULL).

Definition rt_sem_control (fuel : nat) (o : oid) (cmd arg : Z) : M ipc Z :=
  if cmd =? RT_IPC_CMD_RESET then
    in_kernel (rt_ipc_list_resume_all fuel (LSusp o));;
    sem ← get_sem o;
    put_sem o (set_sem_value (u16 arg) sem);;
    schedule;;
    mret RT_EOK
  else mret (- RT_ERROR).

End Wait.

(** ** Queues of suspended threads *)

Definition is_wait (l : lhead) : Prop :=
  match l with LSusp _ | LSender _ => True | _ => False end.

(** The thread [t] is linked between [pre] and [post] on list [l]. *)
Definition placed_st (l : lhead) (t : oid) (pre post : list oid) (s : sched) : sched :=
  set_tlists (<[l := pre ++ t :: post]> (tlists s)) s.

Lemma placed_members l t pre post s l' :
  members (placed_st l t pre post s) l' = if decide (l' = l) then pre ++ t :: post else members s l'.
Proof.
  unfold members at 1, placed_st; simpl. case_decide as E.
  - subst. by rewrite lookup_insert_eq.
  - by rewrite lookup_insert_ne by done.
Qed.

Lemma placed_inl l t pre post s l' x :
  tlists s !! l = Some (pre ++ post) ->
  inl_ (placed_st l t pre post s) l' x <-> inl_ s l' x \/ (x = t /\ l' = l).
Proof.
  intros Hl. unfold inl_. rewrite placed_members. case_decide as E; [|tauto].
  subst. unfold members. rewrite Hl. simpl. set_solver.
Qed.

Lemma placed_inv l t th pre post s :
  sched_inv s -> is_wait l -> tlists s !! l = Some (pre ++ post) ->
  threads s !! t = Some th -> stat_of th = RT_THREAD_SUSPEND -> ~ attached s t ->
  sched_inv (placed_st l t pre post s).
Proof.
  intros [Hs Hi] Hw Hl Ht Est Ha. rewrite attached_iff in Ha.
  assert (members s l = pre ++ post) as Em by (unfold members; by rewrite Hl).
  split.
  - split.
    + intros p H. simpl. apply lookup_insert_is_Some'. right. by apply (lo_rows s).
    + intros p. simpl. rewrite lookup_insert_is_Some'. intros [->|H]; [done|by apply (lo_only_rows s)].
    + simpl. apply lookup_insert_is_Some'. right. by apply (lo_defunct s).
    + intros l'. rewrite placed_members. pose proof (lo_nodup s Hs l') as Hn. case_decide as E; [|done].
      subst. rewrite Em in Hn. rewrite <- Permutation_middle. constructor; [|done].
      intros Hin. apply Ha. exists l. unfold inl_. by rewrite Em.
    + intros l1 l2 x. rewrite !placed_inl by done.
      intros [H1|[-> ->]] [H2|[E ->]]; subst; [by eapply (lo_once s)|exfalso; apply Ha; eauto..|done].
    + intros l' x. rewrite placed_inl by done. intros [Hx|[-> _]]; [by eapply (lo_threads s)|simpl; eauto].
    + intros x Hx. by apply (lo_current s).
    + apply (lo_group s Hs).
    + intros p H. rewrite placed_members, decide_False by (intros E; by destruct l). by apply (lo_bits s).
  - intros x xh Hx _. destruct (Hi x xh Hx ltac:(tauto)) as (H1 & H2 & H3 & H4 & H5).
    split_and!; [| |done..].
    + intros l'. rewrite placed_inl by done. intros [Hl'|[-> ->]]; [by apply H1|].
      simpl in Hx. simplify_eq. by destruct l.
    + intros E. apply placed_inl; [done|]. left. by apply H2.
Qed.

Lemma kinv_placed l t th pre post k :
  kinv k -> is_wait l -> tlists (k_sched k) !! l = Some (pre ++ post) ->
  threads (k_sched k) !! t = Some th -> stat_of th = RT_THREAD_SUSPEND -> ~ attached (k_sched k) t ->
  kinv (set_k_sched (placed_st l t pre post (k_sched k)) k).
Proof.
  intros Hk Hw Hl Ht Est Ha. apply kinv_sched; [done| |done|].
  - by eapply placed_inv; [apply Hk|..].
  - intros x xh Hx Hin. by apply (ki_wait k Hk x).
Qed.

(** Where [rt_ipc_list_suspend] puts a thread of priority [p]: at the end, or
    behind the threads whose priority is at least as good. *)
Definition queue_place (flag p : Z) (ths : gmap oid rt_thread) (xs pre post : list oid) : Prop :=
  xs = pre ++ post /\
  if flag =? RT_IPC_FLAG_FIFO then post = []
  else (forall x xh, x ∈ pre -> ths !! x = Some xh -> current_priority xh <= p) /\
       (forall x xh, head post = Some x -> ths !! x = Some xh -> p < current_priority xh).

Lemma prio_insert_spec ths t p xs :
  (forall x, x ∈ xs -> is_Some (ths !! x)) ->
  exists pre post, prio_insert ths t p xs = Some (pre ++ t :: post) /\
    queue_place RT_IPC_FLAG_PRIO p ths xs pre post.
Proof.
  induction xs as [|x xs IH]; intros Hd.
  - exists [], []. split; [done|]. split; [done|]. split; [|done]. set_solver.
  - destruct (Hd x ltac:(set_solver)) as [xh Hx]. simpl. rewrite Hx. simpl.
    destruct (p <? current_priority xh) eqn:Ep.
    + exists [], (x :: xs). split; [done|]. split; [done|]. split; [set_solver|].
      intros y yh [= <-] Hy. simplify_eq. lia.
    + destruct IH as (pre & post & -> & -> & H1 & H2); [set_solver|].
      exists (x :: pre), post. split; [done|]. split; [done|]. split; [|done].
      intros y yh [->|Hy]%elem_of_cons Hyh; [simplify_eq; lia|by eapply H1].
Qed.

Lemma queue_place_ext flag p ths ths' xs pre post :
  (forall x, x ∈ xs -> ths' !! x = ths !! x) ->
  queue_place flag p ths' xs pre post -> queue_place flag p ths xs pre post.
Proof.
  intros He [-> H]. split; [done|]. destruct (flag =? RT_IPC_FLAG_FIFO); [done|]. destruct H as [H1 H2].
  split; intros x xh Hx Hxh; [eapply H1|eapply H2]; try done; rewrite He; try done; apply elem_of_app; [by left|right].
  destruct post; simplify_eq/=. by left.
Qed.

(** The kernel after thread [t] has been suspended onto queue [l]. *)
Definition queued_k (l : lhead) (t : oid) (th : rt_thread) (tm : Tmr.rt_timer) (pre post : list oid)
    (k : kernel) : kernel :=
  set_k_sched (placed_st l t pre post (k_sched (suspended_k t th tm k))) (suspended_k t th tm k).

Lemma running_not_listed k t th l :
  kinv k -> threads (k_sched k) !! t = Some th -> stat_of th = RT_THREAD_RUNNING ->
  t ∉ members (k_sched k) l.
Proof.
  intros Hk Ht Est Hin. destruct (thread_ok_of k t th Hk Ht) as (H1 & _).
  specialize (H1 l Hin). destruct l; simpl in H1; [destruct H1|..]; stats.
Qed.

Lemma members_Some s l xs : tlists s !! l = Some xs -> members s l = xs.
Proof. unfold members. by intros ->. Qed.

Lemma suspended_lists_id t th s l xs :
  t ∉ xs -> tlists s !! l = Some xs -> tlists (suspended_s t th s) !! l = Some xs.
Proof.
  intros Hn Hl. unfold suspended_s, upd_st. simpl. rewrite removed_tlists. simpl.
  rewrite lookup_fmap, Hl. simpl. by rewrite filter_ne_id.
Qed.

Lemma suspended_k_threads t th tm k :
  threads (k_sched (suspended_k t th tm k)) = <[t := with_stat RT_THREAD_SUSPEND th]> (threads (k_sched k)).
Proof. apply suspended_threads. Qed.

Lemma wp_ipc_list_suspend l t th tm flag xs k (Q : Z -> kernel -> Prop) :
  kinv k -> is_wait l -> tlists (k_sched k) !! l = Some xs ->
  threads (k_sched k) !! t = Some th -> stat_of th = RT_THREAD_RUNNING ->
  flag = RT_IPC_FLAG_FIFO \/ flag = RT_IPC_FLAG_PRIO ->
  Tmr.timers (k_timer k) !! ThreadTimer t = Some tm ->
  (forall pre post, queue_place flag (current_priority th) (threads (k_sched k)) xs pre post ->
     kinv (queued_k l t th tm pre post k) -> Q RT_EOK (queued_k l t th tm pre post k)) ->
  wp (rt_ipc_list_suspend l t flag) k Q.
Proof.
  intros Hk Hw Hl Ht Est Hf Htm HQ. unfold rt_ipc_list_suspend.
  assert (prio_ok th) as Hpr by (apply (started_prio k t th); [done|done|stats|stats]).
  wp_step. apply (wp_thread_suspend t th tm); [done|done|by right|done|].
  pose proof (kinv_suspended t th tm k Hk Ht Hpr Htm) as Hk1.
  pose proof (running_not_listed k t th l Hk Ht Est) as Hni. rewrite (members_Some _ _ _ Hl) in Hni.
  assert (tlists (k_sched (suspended_k t th tm k)) !! l = Some xs) as Hl1 by by apply suspended_lists_id.
  assert (threads (k_sched (suspended_k t th tm k)) !! t = Some (with_stat RT_THREAD_SUSPEND th)) as Ht1.
  { by rewrite suspended_k_threads, lookup_insert_eq. }
  assert (~ attached (k_sched (suspended_k t th tm k)) t) as Ha1 by apply suspended_not_attached.
  assert (stat_of (with_stat RT_THREAD_SUSPEND th) = RT_THREAD_SUSPEND) as Es by by apply stat_of_with_stat.
  assert (forall x, x ∈ xs -> threads (k_sched (suspended_k t th tm k)) !! x = threads (k_sched k) !! x) as Hsame.
  { intros x Hx. rewrite suspended_k_threads, lookup_insert_ne; [done|]. by intros ->. }
  destruct Hf as [-> | ->]; simpl; wp_step; apply wp_in_sched.
  - apply wp_tlist_insert_before; [by rewrite Hl1|done|]. wp_steps.
    unfold appended_st. rewrite (members_Some _ _ _ Hl1).
    apply (HQ xs []); [by split; rewrite ?app_nil_r|].
    eapply kinv_placed; rewrite ?app_nil_r; done.
  - unfold tlist_insert_prio. wp_step. apply wp_detached; [done|]. wp_step.
    eapply wp_get_thread; [done|]. wp_step. eapply wp_get_list; [done|]. wp_step. wp_step. wp_step.
    destruct (prio_insert_spec (threads (k_sched (suspended_k t th tm k))) t (current_priority th) xs)
      as (pre & post & Ep & E & H1 & H2).
    { intros x Hx. eapply (lo_threads _ (kinv_lists _ Hk1)). unfold inl_. by rewrite (members_Some _ _ _ Hl1). }
    eapply wp_deref; [exact Ep|]. unfold set_list. wp_steps. apply HQ.
    + split; [done|]. subst xs. split; intros x xh Hx Hxh; [eapply H1|eapply H2]; try done;
        rewrite Hsame; try done; apply elem_of_app; [by left|right]. by destruct post; simplify_eq/=; left.
    + subst xs. eapply kinv_placed; done.
Qed.

(** ** Scheduling does not touch the wait queues *)

Definition same_waits (s s' : sched) : Prop :=
  forall l, is_wait l -> tlists s' !! l = tlists s !! l.

Lemma same_waits_of s s' :
  (forall l, is_Some (tlists s' !! l) <-> is_Some (tlists s !! l)) ->
  (forall l, is_wait l -> members s' l = members s l) -> same_waits s s'.
Proof.
  intros Hd Hm l Hl. specialize (Hd l). specialize (Hm l Hl). unfold members in Hm.
  destruct (tlists s' !! l) as [x|], (tlists s !! l) as [y|]; simpl in Hm; subst; try done.
  - destruct Hd as [Hd _]. by destruct Hd.
  - destruct Hd as [_ Hd]. by destruct Hd.
Qed.

Lemma schedule_waits c ch s s' :
  sched_inv s -> schedule_post c ch s s' -> threads s !! c = Some ch -> same_waits s s'.
Proof.
  intros Hinv Hpost Hch. apply same_waits_of; [apply (sp_lists _ _ _ _ Hpost)|]. intros l Hl.
  destruct (decide (rt_scheduler_lock_nest s <> 0 \/ rt_thread_ready_priority_group s = 0)) as [Hd|Hd].
  { by rewrite (sp_idle _ _ _ _ Hpost Hd). }
  destruct (sp_choose _ _ _ _ Hpost) as (t & p & rest & Htop & _ & H); [lia|tauto|].
  case_bool_decide; destruct H as (_ & H & _); [apply H|].
  rewrite H, bool_decide_false by (intros [_ ->]; done).
  apply filter_ne_id. intros Hin. pose proof Hinv as [_ Hi].
  destruct (top_ready_thread _ _ _ _ Hinv Htop) as (th & Hth & Est & _).
  destruct (Hi t th Hth ltac:(tauto)) as (H1 & _). specialize (H1 l Hin). destruct l; simpl in H1; try done; stats.
Qed.

(** What a call of [rt_schedule] means for the kernel [k]. *)
Definition scheduled (k : kernel) (s' : sched) : Prop :=
  kinv (set_k_sched s' k) /\ (exists c', rt_current_thread s' = Some c') /\
  woken_frame (fun _ => False) k (set_k_sched s' k) /\ same_waits (k_sched k) s'.

Lemma wp_scheduled c k (Q : unit -> kernel -> Prop) :
  kinv k -> rt_current_thread (k_sched k) = Some c ->
  (forall s', scheduled k s' -> Q tt (set_k_sched s' k)) -> wp (in_sched rt_schedule) k Q.
Proof.
  intros Hk Hc HQ. apply (wp_kernel_schedule c); [done|done|]. intros ch s' Hch Hk' Hpost.
  apply HQ. split_and!; [done|by eapply schedule_current| |by eapply schedule_waits; [apply Hk|..]].
  intros x xh Hx. split; intros _ Hs.
  - by eapply schedule_suspended; [apply Hk|..].
  - by eapply schedule_runnable; [apply Hk|apply Hk'|..].
Qed.

Lemma wp_in_kernel {A} (m : M kernel A) i (Q : A -> ipc -> Prop) :
  wp m (i_kernel i) (fun a k => Q a (set_i_kernel k i)) -> wp (in_kernel m) i Q.
Proof. apply wp_zoom. Qed.

Lemma set_i_kernel_id i : set_i_kernel (i_kernel i) i = i.
Proof. by destruct i. Qed.

Lemma wp_schedule c i (Q : unit -> ipc -> Prop) :
  kinv (i_kernel i) -> rt_current_thread (i_sched i) = Some c ->
  (forall s', scheduled (i_kernel i) s' -> Q tt (set_i_kernel (set_k_sched s' (i_kernel i)) i)) ->
  wp schedule i Q.
Proof. intros. apply wp_in_kernel. by apply (wp_scheduled c). Qed.

(** ** Waiting on a queue *)

(** From [k] to [k'] thread [c] has been put on queue [l], which is now [q],
    with its timer set to expire after [time] ticks when [time] is positive. *)
Record waits (l : lhead) (c : oid) (ch : rt_thread) (q : list oid) (time : Z) (k k' : kernel) : Prop := {
  w_inv : kinv k';
  w_current : exists c', rt_current_thread (k_sched k') = Some c';
  w_queue : tlists (k_sched k') !! l = Some q;
  w_lists : forall l', is_wait l' -> l' <> l -> tlists (k_sched k') !! l' = tlists (k_sched k) !! l';
  w_self : threads (k_sched k') !! c = Some (with_stat RT_THREAD_SUSPEND ch);
  w_frame : woken_frame (fun x => x = c) k k';
  w_tick : rt_tick k' = rt_tick k;
  w_timer : exists tm, Tmr.timers (k_timer k') !! ThreadTimer c = Some tm /\
    (0 < time -> ThreadTimer c ∈ Tmr.rt_timer_list (k_timer k') /\
                 Tmr.timeout_tick tm = u32 (rt_tick k + u32 time)) /\
    (time <= 0 -> ThreadTimer c ∉ Tmr.rt_timer_list (k_timer k'))
}.

Lemma queued_threads l t th tm pre post k x :
  threads (k_sched (queued_k l t th tm pre post k)) !! x =
  if decide (x = t) then Some (with_stat RT_THREAD_SUSPEND th) else threads (k_sched k) !! x.
Proof.
  change (threads (k_sched (suspended_k t th tm k)) !! x =
    if decide (x = t) then Some (with_stat RT_THREAD_SUSPEND th) else threads (k_sched k) !! x).
  rewrite suspended_k_threads. case_decide as E; [subst; by rewrite lookup_insert_eq|by rewrite lookup_insert_ne].
Qed.

Lemma queued_lists l t th tm pre post k l' :
  kinv k -> threads (k_sched k) !! t = Some th -> stat_of th = RT_THREAD_RUNNING ->
  tlists (k_sched (queued_k l t th tm pre post k)) !! l' =
  if decide (l' = l) then Some (pre ++ t :: post) else tlists (k_sched k) !! l'.
Proof.
  intros Hk Ht Est. unfold queued_k, placed_st. simpl. case_decide as E; [subst; by rewrite lookup_insert_eq|].
  rewrite lookup_insert_ne by done. destruct (tlists (k_sched k) !! l') as [xs|] eqn:El.
  - apply suspended_lists_id; [|done]. rewrite <- (members_Some _ _ _ El). by apply (running_not_listed k t th).
  - unfold suspended_s, upd_st. simpl. rewrite removed_tlists. simpl. by rewrite lookup_fmap, El.
Qed.

Lemma queued_current l t th tm pre post k :
  rt_current_thread (k_sched (queued_k l t th tm pre post k)) = rt_current_thread (k_sched k).
Proof. unfold queued_k, suspended_k, suspended_s, upd_st. simpl. apply removed_current. Qed.

Lemma frame_queued l t th tm pre post k : woken_frame (fun x => x = t) k (queued_k l t th tm pre post k).
Proof.
  intros x xh Hx. split; intros Hn Hs.
  - by rewrite queued_threads, decide_False.
  - exists xh. by rewrite queued_threads, decide_False.
Qed.

Lemma armed_hard now tick t tm pre post s :
  Tmr.has_flag Tmr.RT_TIMER_FLAG_SOFT_TIMER tm = false ->
  Tmr.rt_timer_list (armed_t now tick t tm pre post s) = pre ++ ThreadTimer t :: post.
Proof.
  intros E. unfold armed_t, Tmr.linked_t.
  assert (Tmr.home (Tmr.set_init_tick (u32 tick) tm) = Tmr.HTimer) as ->; [|done].
  unfold Tmr.home. change (Tmr.has_flag Tmr.RT_TIMER_FLAG_SOFT_TIMER (Tmr.set_init_tick (u32 tick) tm))
    with (Tmr.has_flag Tmr.RT_TIMER_FLAG_SOFT_TIMER tm). by rewrite E.
Qed.

Section Waiting.
Context (timer_thread : oid).

(** The timer part of [wait_on], for a thread that has just been queued. *)
Lemma wp_arm l c ch tm pre post time i (Q : unit -> ipc -> Prop) :
  kinv (i_kernel i) -> threads (i_sched i) !! c = Some ch -> stat_of ch = RT_THREAD_RUNNING ->
  Tmr.timers (k_timer (i_kernel i)) !! ThreadTimer c = Some tm ->
  let k1 := queued_k l c ch tm pre post (i_kernel i) in
  kinv k1 ->
  (forall st', kinv (set_k_timer st' k1) ->
     (exists tm', Tmr.timers st' !! ThreadTimer c = Some tm' /\
        (0 < time -> ThreadTimer c ∈ Tmr.rt_timer_list st' /\
                     Tmr.timeout_tick tm' = u32 (rt_tick (i_kernel i) + u32 time)) /\
        (time <= 0 -> ThreadTimer c ∉ Tmr.rt_timer_list st')) ->
     Q tt (set_i_kernel (set_k_timer st' k1) i)) ->
  wp (when (0 <? time) (in_kernel (start_thread_timer timer_thread c time))) (set_i_kernel k1 i) Q.
Proof.
  intros Hk Hc Est Htm k1 Hk1 HQ.
  assert (threads (k_sched k1) !! c = Some (with_stat RT_THREAD_SUSPEND ch)) as Hc1
    by (unfold k1; by rewrite queued_threads, decide_True).
  assert (stat_of (with_stat RT_THREAD_SUSPEND ch) = RT_THREAD_SUSPEND) as Es by by apply stat_of_with_stat.
  destruct (thread_timer_of k1 c _ Hk1 Hc1) as (tm1 & Htm1 & Hit1).
  apply wp_when; intros Et.
  - apply wp_in_kernel. simpl. apply (wp_start_thread_timer timer_thread c _ tm1 _ k1 _ Hk1 Hc1 Es Htm1).
    intros pre' post' st' Hun Hk2 _. apply HQ; [done|].
    eexists. split; [apply lookup_insert_eq|]. split; [|lia]. intros _. split.
    + unfold st'. rewrite armed_hard by apply Hit1. set_solver.
    + done.
  - rewrite <- (set_k_timer_id k1). apply HQ; [by rewrite set_k_timer_id|].
    exists tm1. split_and!; [done|lia|]. intros _ Hin.
    apply (Tmr.stop_result_hard (ThreadTimer c) tm) in Hin; [|apply Hk|done]. by destruct Hin.
Qed.

(** The rest of a wait, once the thread is on the queue. *)
Lemma wait_rest_spec l c ch tm pre post time i (Q : unit -> ipc -> Prop) :
  kinv (i_kernel i) -> is_wait l ->
  rt_current_thread (i_sched i) = Some c -> threads (i_sched i) !! c = Some ch ->
  stat_of ch = RT_THREAD_RUNNING -> Tmr.timers (k_timer (i_kernel i)) !! ThreadTimer c = Some tm ->
  kinv (queued_k l c ch tm pre post (i_kernel i)) ->
  (forall k', waits l c ch (pre ++ c :: post) time (i_kernel i) k' -> Q tt (set_i_kernel k' i)) ->
  wp (when (0 <? time) (in_kernel (start_thread_timer timer_thread c time));; schedule)
    (set_i_kernel (queued_k l c ch tm pre post (i_kernel i)) i) Q.
Proof.
  intros Hk Hw Hcur Hc Est Htm Hk1 HQ. wp_step.
  apply (wp_arm l c ch tm pre post time i); [done..|]. intros st' Hk2 Htimer.
  set (k1 := queued_k l c ch tm pre post (i_kernel i)) in *.
  apply (wp_schedule c (set_i_kernel (set_k_timer st' k1) i)).
  { done. }
  { change (rt_current_thread (k_sched k1) = Some c). unfold k1. by rewrite queued_current. }
  intros s' (Hk3 & Hcur' & Hfr & Hsw). apply HQ.
  assert (woken_frame (fun x => x = c) (i_kernel i) (set_k_sched s' (set_k_timer st' k1))) as Hfr'.
  { eapply (woken_frame_trans (fun x => x = c) (fun _ => False)); [apply frame_queued|exact Hfr|done|done]. }
  assert (threads (k_sched k1) !! c = Some (with_stat RT_THREAD_SUSPEND ch)) as Hc1
    by (unfold k1; by rewrite queued_threads, decide_True).
  split; simpl; [done|done| | | |done|done|done].
  - rewrite (Hsw l Hw). change (tlists (k_sched k1) !! l = Some (pre ++ c :: post)). unfold k1.
    by rewrite (queued_lists l c ch), decide_True.
  - intros l' Hl' Hn. rewrite (Hsw l' Hl'). change (tlists (k_sched k1) !! l' = tlists (i_sched i) !! l').
    unfold k1. by rewrite (queued_lists l c ch), decide_False.
  - apply (Hfr c _ Hc1); [tauto|by apply suspended_idle, stat_of_with_stat].
Qed.

Lemma wait_on_spec l c ch flag time xs i (Q : unit -> ipc -> Prop) :
  kinv (i_kernel i) -> is_wait l -> tlists (i_sched i) !! l = Some xs ->
  rt_current_thread (i_sched i) = Some c -> threads (i_sched i) !! c = Some ch ->
  stat_of ch = RT_THREAD_RUNNING -> flag = RT_IPC_FLAG_FIFO \/ flag = RT_IPC_FLAG_PRIO ->
  (forall pre post k', queue_place flag (current_priority ch) (threads (i_sched i)) xs pre post ->
     waits l c ch (pre ++ c :: post) time (i_kernel i) k' -> Q tt (set_i_kernel k' i)) ->
  wp (wait_on timer_thread l c flag time) i Q.
Proof.
  intros Hk Hw Hl Hcur Hc Est Hf HQ. unfold wait_on.
  destruct (thread_timer_of _ c ch Hk Hc) as (tm & Htm & Hit).
  wp_step. apply wp_in_kernel. apply (wp_ipc_list_suspend l c ch tm flag xs); [done..|].
  intros pre post Hp Hk1. apply wait_rest_spec; [done..|]. intros k'. by apply HQ.
Qed.

End Waiting.

(** ** Waking the first thread of a queue *)

(** From [k] to [k'] thread [w], the first of queue [l], has become able to
    run and has left the queue; its fields are as in [wh]. *)
Record wakes (l : lhead) (w : oid) (wh : rt_thread) (ws : list oid) (k k' : kernel) : Prop := {
  wk_inv : kinv k';
  wk_current : exists c', rt_current_thread (k_sched k') = Some c';
  wk_queue : tlists (k_sched k') !! l = Some ws;
  wk_lists : forall l', is_wait l' -> l' <> l -> tlists (k_sched k') !! l' = tlists (k_sched k) !! l';
  wk_self : exists wh', threads (k_sched k') !! w = Some wh' /\ runnable wh' /\ same_task wh wh';
  wk_frame : woken_frame (fun x => x = w) k k';
  wk_tick : rt_tick k' = rt_tick k
}.

Lemma waiter_suspended k l t :
  kinv k -> is_wait l -> t ∈ members (k_sched k) l ->
  exists th, threads (k_sched k) !! t = Some th /\ stat_of th = RT_THREAD_SUSPEND.
Proof.
  intros Hk Hw Hin. destruct (lo_threads _ (kinv_lists k Hk) l t Hin) as [th Hth].
  exists th. split; [done|]. destruct (thread_ok_of k t th Hk Hth) as (H1 & _).
  specialize (H1 l Hin). by destruct l.
Qed.

Lemma waiter_of k l t xs :
  kinv k -> is_wait l -> tlists (k_sched k) !! l = Some xs -> t ∈ xs ->
  exists th, threads (k_sched k) !! t = Some th /\ stat_of th = RT_THREAD_SUSPEND.
Proof. intros Hk Hw Hl Hin. apply (waiter_suspended k l); [done..|]. by rewrite (members_Some _ _ _ Hl). Qed.

Lemma resumed_lists t th s l xs :
  is_wait l -> tlists s !! l = Some xs ->
  tlists (resumed_s t th s) !! l = Some (filter (fun x => x <> t) xs).
Proof.
  intros Hw Hl. unfold resumed_s. case_decide; simpl.
  - by rewrite lookup_fmap, Hl.
  - rewrite lookup_insert_ne by (by destruct l). by rewrite lookup_fmap, Hl.
Qed.

Lemma resumed_lists_other t th s l l' xs :
  sched_inv s -> is_wait l' -> l' <> l -> tlists s !! l = Some xs -> t ∈ xs ->
  tlists (resumed_s t th s) !! l' = tlists s !! l'.
Proof.
  intros [Hs _] Hw Hn Hl Hin. destruct (tlists s !! l') as [ys|] eqn:E.
  - rewrite (resumed_lists t th s l' ys Hw E). f_equal. apply filter_ne_id. intros Hy. apply Hn.
    eapply (lo_once s Hs); unfold inl_; [rewrite (members_Some _ _ _ E)|rewrite (members_Some _ _ _ Hl)]; done.
  - unfold resumed_s. case_decide; simpl.
    + by rewrite lookup_fmap, E.
    + rewrite lookup_insert_ne by (by destruct l'). by rewrite lookup_fmap, E.
Qed.

Lemma queue_nodup k l xs : kinv k -> tlists (k_sched k) !! l = Some xs -> NoDup xs.
Proof. intros Hk Hl. rewrite <- (members_Some _ _ _ Hl). apply (lo_nodup _ (kinv_lists k Hk)). Qed.

Lemma resumed_wakes l w wh tm ws c k :
  kinv k -> is_wait l -> tlists (k_sched k) !! l = Some (w :: ws) ->
  rt_current_thread (k_sched k) = Some c ->
  threads (k_sched k) !! w = Some wh -> stat_of wh = RT_THREAD_SUSPEND ->
  Tmr.timers (k_timer k) !! ThreadTimer w = Some tm ->
  wakes l w wh ws k (resumed_k w wh tm k).
Proof.
  intros Hk Hw Hl Hc Hwh Est Htm.
  pose proof (queue_nodup k l _ Hk Hl) as [Hni _]%NoDup_cons.
  pose proof (kinv_resumed w wh tm k Hk Hwh Est Htm) as Hk'.
  split; [done|exists c; simpl; by rewrite resumed_current| | | | |done].
  - simpl. rewrite (resumed_lists _ _ _ _ _ Hw Hl). rewrite filter_cons_False by tauto. by rewrite filter_ne_id.
  - intros l' Hw' Hn. simpl. eapply resumed_lists_other; [apply Hk|done|done|done|set_solver].
  - eexists. simpl. rewrite resumed_threads, lookup_insert_eq. split; [done|]. split; [|done].
    unfold runnable. case_decide; [right|left]; by apply stat_of_with_stat.
  - intros x xh Hx. split; intros Hn Hs; simpl; rewrite resumed_threads, lookup_insert_ne by done; [done|].
    by exists xh.
Qed.

Lemma wp_ipc_list_resume l w ws c k (Q : Z -> kernel -> Prop) :
  kinv k -> is_wait l -> tlists (k_sched k) !! l = Some (w :: ws) ->
  rt_current_thread (k_sched k) = Some c ->
  (forall wh k', threads (k_sched k) !! w = Some wh -> stat_of wh = RT_THREAD_SUSPEND ->
     wakes l w wh ws k k' -> rt_current_thread (k_sched k') = Some c -> Q RT_EOK k') ->
  wp (rt_ipc_list_resume l) k Q.
Proof.
  intros Hk Hw Hl Hc HQ. unfold rt_ipc_list_resume. wp_step. apply wp_in_sched. eapply wp_get_list; [done|].
  rewrite set_k_sched_id. wp_step. eapply wp_deref; [done|].
  destruct (waiter_of k l w _ Hk Hw Hl ltac:(set_solver)) as (wh & Hwh & Est).
  destruct (thread_timer_of k w wh Hk Hwh) as (tm & Htm & _).
  wp_step. apply (wp_thread_resume w wh tm); [done..|]. wp_steps.
  apply (HQ wh); [done|done|by eapply resumed_wakes|]. simpl. by rewrite resumed_current.
Qed.

(** Scheduling afterwards keeps the description. *)
Lemma wakes_scheduled l w wh ws k k' s' :
  is_wait l -> wakes l w wh ws k k' -> scheduled k' s' -> wakes l w wh ws k (set_k_sched s' k').
Proof.
  intros Hw [Hk Hc Hl Ho (wh' & Hwh & Hr & Hs) Hf Ht] (Hk' & Hc' & Hf' & Hsw).
  split; [done|done| | | | |done].
  - simpl. by rewrite (Hsw l Hw).
  - intros l' Hw' Hn. simpl. rewrite (Hsw l' Hw'). by apply Ho.
  - destruct (Hf' w wh' Hwh) as [_ H]. destruct (H ltac:(tauto) Hr) as (wh2 & ? & ? & ?).
    exists wh2. split_and!; [done|done|by eapply same_task_trans..].
  - by eapply (woken_frame_trans _ (fun _ => False)).
Qed.

(** ** Waking every thread of a queue *)

(** Every thread of [xs] can run, with the error [RT_ERROR] of a cancelled wait. *)
Record cancels (l : lhead) (xs : list oid) (k k' : kernel) : Prop := {
  cn_inv : kinv k';
  cn_current : exists c', rt_current_thread (k_sched k') = Some c';
  cn_queue : tlists (k_sched k') !! l = Some [];
  cn_lists : forall l', is_wait l' -> l' <> l -> tlists (k_sched k') !! l' = tlists (k_sched k) !! l';
  cn_woken : forall x, x ∈ xs -> exists xh', threads (k_sched k') !! x = Some xh' /\
    runnable xh' /\ error xh' = - RT_ERROR;
  cn_frame : woken_frame (fun x => x ∈ xs) k k';
  cn_tick : rt_tick k' = rt_tick k;
  cn_obj : k_obj k' = k_obj k
}.

Lemma frame_upd t th th' k :
  threads (k_sched k) !! t = Some th ->
  woken_frame (fun x => x = t) k (set_k_sched (upd_st t th' (k_sched k)) k).
Proof.
  intros Ht x xh Hx. split; intros Hn Hs; simpl; rewrite lookup_insert_ne by done; [done|by exists xh].
Qed.

Lemma resume_all_spec fuel l xs c k (Q : Z -> kernel -> Prop) :
  kinv k -> is_wait l -> tlists (k_sched k) !! l = Some xs ->
  rt_current_thread (k_sched k) = Some c -> (length xs <= fuel)%nat ->
  (forall k', cancels l xs k k' -> rt_current_thread (k_sched k') = Some c -> Q RT_EOK k') ->
  wp (rt_ipc_list_resume_all fuel l) k Q.
Proof.
  revert xs k Q. induction fuel as [|fuel IH]; intros xs k Q Hk Hw Hl Hc Hf HQ.
  - destruct xs; [|simpl in Hf; lia]. simpl. wp_step. apply wp_in_sched. eapply wp_get_list; [done|].
    rewrite set_k_sched_id. wp_step. apply HQ; [|done].
    split; [done|eauto|done|done|set_solver|apply woken_frame_refl|done|done].
  - simpl. wp_step. apply wp_in_sched. eapply wp_get_list; [done|]. rewrite set_k_sched_id.
    destruct xs as [|x xs].
    { wp_step. apply HQ; [|done]. split; [done|eauto|done|done|set_solver|apply woken_frame_refl|done|done]. }
    destruct (waiter_of k l x _ Hk Hw Hl ltac:(set_solver)) as (xh & Hxh & Est).
    destruct (thread_timer_of k x xh Hk Hxh) as (tm & Htm & _).
    wp_step. apply wp_in_sched. eapply wp_upd_thread; [done|]. fold (upd_st x (set_error (- RT_ERROR) xh) (k_sched k)).
    pose proof (kinv_upd_same x xh (set_error (- RT_ERROR) xh) k Hk Hxh eq_refl eq_refl eq_refl) as Hk1.
    set (k1 := set_k_sched (upd_st x (set_error (- RT_ERROR) xh) (k_sched k)) k) in *.
    assert (threads (k_sched k1) !! x = Some (set_error (- RT_ERROR) xh)) as Hx1 by apply lookup_insert_eq.
    wp_step. apply (wp_thread_resume x (set_error (- RT_ERROR) xh) tm); [done..|].
    pose proof (resumed_wakes l x (set_error (- RT_ERROR) xh) tm xs c k1 Hk1 Hw Hl Hc Hx1 Est Htm) as HW.
    set (k2 := resumed_k x (set_error (- RT_ERROR) xh) tm k1) in *.
    destruct HW as [Hk2 _ Hq2 Ho2 (xh2 & Hx2 & Hr2 & He2 & _) Hf2 Ht2].
    apply (IH xs k2); [done|done|done|unfold k2; simpl; by rewrite resumed_current|simpl in Hf; lia|].
    intros k' [Hk' Hcur' Hq' Ho' Hwk' Hf' Ht' Hob'] Hc'. apply HQ; [|done].
    assert (x ∉ xs) as Hni by by apply (queue_nodup k l _ Hk), NoDup_cons in Hl as [? _].
    split; [done|done|done| | | |by rewrite Ht'|by rewrite Hob'].
    + intros l' Hw' Hn. rewrite Ho' by done. by apply Ho2.
    + intros y [->|Hy]%elem_of_cons; [|by apply Hwk'].
      destruct (Hf' x xh2 Hx2) as [_ H]. destruct (H Hni Hr2) as (xh3 & H3 & Hr3 & He3 & _).
      exists xh3. by rewrite He3, He2.
    + eapply (woken_frame_trans (fun y => y = x) (fun y => y ∈ xs)); [|exact Hf'|set_solver..].
      eapply (woken_frame_trans (fun y => y = x) (fun y => y = x)); [by eapply frame_upd|exact Hf2|done..].
Qed.

(** The threads that still wait are not touched and the woken ones can run
    after another scheduling. *)
Lemma cancels_scheduled l xs k k' s' :
  is_wait l -> cancels l xs k k' -> scheduled k' s' -> cancels l xs k (set_k_sched s' k').
Proof.
  intros Hw [Hk Hc Hl Ho Hwk Hf Ht Hob] (Hk' & Hc' & Hf' & Hsw).
  split; [done|done| | | | |done|done].
  - simpl. by rewrite (Hsw l Hw).
  - intros l' Hw' Hn. simpl. rewrite (Hsw l' Hw'). by apply Ho.
  - intros x Hx. destruct (Hwk x Hx) as (xh & Hxh & Hr & He).
    destruct (Hf' x xh Hxh) as [_ H]. destruct (H ltac:(tauto) Hr) as (xh2 & ? & ? & He2 & _).
    exists xh2. by rewrite He2.
  - by eapply (woken_frame_trans _ (fun _ => False)).
Qed.

(** ** Semaphores *)

(** The error code a thread will find when it runs again. *)
Definition has_error (s : sched) (e : Z) (t : oid) : Prop :=
  exists th, threads s !! t = Some th /\ error th = e.

(** Semaphore [o] has value [v] and the waiting threads [q]: nobody waits while
    units are left, and no waiting thread has been given an error. *)
Record sem_inv (o : oid) (v : Z) (q : list oid) (i : ipc) : Prop := {
  si_kernel : kinv (i_kernel i);
  si_current : exists c, rt_current_thread (i_sched i) = Some c;
  si_sem : exists flag, sems i !! o = Some (mk_sem flag v) /\
    (flag = RT_IPC_FLAG_FIFO \/ flag = RT_IPC_FLAG_PRIO);
  si_queue : tlists (i_sched i) !! LSusp o = Some q;
  si_range : 0 <= v <= RT_SEM_VALUE_MAX;
  si_idle : 0 < v -> q = [];
  si_errors : forall t, t ∈ q -> has_error (i_sched i) RT_EOK t
}.

(** The thread [c] that runs. *)
Definition runs (i : ipc) (c : oid) (ch : rt_thread) : Prop :=
  rt_current_thread (i_sched i) = Some c /\ threads (i_sched i) !! c = Some ch /\
  stat_of ch = RT_THREAD_RUNNING.

Lemma wp_get_sem o sem i (Q : rt_semaphore -> ipc -> Prop) :
  sems i !! o = Some sem -> Q sem i -> wp (get_sem o) i Q.
Proof. intros H HQ. unfold get_sem. wp_steps. by eapply wp_deref. Qed.

Lemma wp_self c i (Q : oid -> ipc -> Prop) :
  rt_current_thread (i_sched i) = Some c -> Q c i -> wp self i Q.
Proof.
  intros Hc HQ. unfold self. wp_step. apply wp_in_kernel, wp_in_sched. unfold rt_thread_self. wp_steps.
  rewrite set_k_sched_id, set_i_kernel_id. by eapply wp_deref.
Qed.

Lemma wp_has_waiter l xs i (Q : bool -> ipc -> Prop) :
  tlists (i_sched i) !! l = Some xs -> Q (bool_decide (xs <> [])) i -> wp (has_waiter l) i Q.
Proof.
  intros Hl HQ. unfold has_waiter. wp_step. apply wp_in_kernel, wp_in_sched. eapply wp_get_list; [done|].
  wp_steps. by rewrite set_k_sched_id, set_i_kernel_id.
Qed.

(** The state after [thread->error = e]. *)
Definition error_i (t : oid) (th : rt_thread) (e : Z) (i : ipc) : ipc :=
  set_i_kernel (set_k_sched (upd_st t (set_error e th) (i_sched i)) (i_kernel i)) i.

Lemma wp_reset_error t th e i (Q : unit -> ipc -> Prop) :
  threads (i_sched i) !! t = Some th -> Q tt (error_i t th e i) -> wp (reset_error t e) i Q.
Proof. intros Ht HQ. apply wp_in_kernel, wp_in_sched. by eapply wp_upd_thread. Qed.

Lemma wp_thread_error t th i (Q : Z -> ipc -> Prop) :
  threads (i_sched i) !! t = Some th -> Q (error th) i -> wp (thread_error t) i Q.
Proof.
  intros Ht HQ. unfold thread_error. wp_step. apply wp_in_kernel, wp_in_sched. eapply wp_get_thread; [done|].
  wp_steps. by rewrite set_k_sched_id, set_i_kernel_id.
Qed.

Lemma error_kinv t th e i :
  kinv (i_kernel i) -> threads (i_sched i) !! t = Some th -> kinv (i_kernel (error_i t th e i)).
Proof. intros Hk Ht. by apply (kinv_upd_same t th). Qed.

Lemma error_runs c ch e i : runs i c ch -> runs (error_i c ch e i) c (set_error e ch).
Proof. intros (H1 & H2 & H3). split_and!; [done|apply lookup_insert_eq|done]. Qed.

Lemma frame_error (W : oid -> Prop) s s' e (q : list oid) k k' :
  woken_frame W k k' -> k_sched k = s -> k_sched k' = s' ->
  (forall t, t ∈ q -> has_error s e t) ->
  (forall t, t ∈ q -> ~ W t /\ exists th, threads s !! t = Some th /\ stat_of th = RT_THREAD_SUSPEND) ->
  forall t, t ∈ q -> has_error s' e t.
Proof.
  intros Hf <- <- He Hq t Ht. destruct (He t Ht) as (th & Hth & E). destruct (Hq t Ht) as (Hn & th' & Hth' & Hs).
  simplify_eq. destruct (Hf t th Hth) as [H _]. exists th. auto using suspended_idle.
Qed.

Lemma waits_cleared l c ch e q time i k' :
  threads (i_sched i) !! c = Some ch ->
  waits l c (set_error e ch) q time (i_kernel (error_i c ch e i)) k' ->
  waits l c (set_error e ch) q time (i_kernel i) k'.
Proof.
  intros Hc [W1 W2 W3 W4 W5 W6 W7 W8]. split; try done.
  eapply (woken_frame_trans (fun x => x = c) (fun x => x = c)); [|exact W6|done|done].
  by eapply frame_upd.
Qed.

(** Waiting after [thread->error = RT_EOK]. *)
Lemma wp_wait_cleared timer_thread l c ch flag time xs i (Q : unit -> ipc -> Prop) :
  kinv (i_kernel i) -> is_wait l -> tlists (i_sched i) !! l = Some xs -> runs i c ch ->
  flag = RT_IPC_FLAG_FIFO \/ flag = RT_IPC_FLAG_PRIO ->
  (forall pre post k',
     queue_place flag (current_priority ch) (threads (i_sched i)) xs pre post ->
     waits l c (set_error RT_EOK ch) (pre ++ c :: post) time (i_kernel i) k' ->
     Q tt (set_i_kernel k' i)) ->
  wp (wait_on timer_thread l c flag time) (error_i c ch RT_EOK i) Q.
Proof.
  intros Hk Hw Hl Hr Hf HQ. pose proof Hr as (Hcur & Hc & Est).
  destruct (error_runs c ch RT_EOK i Hr) as (Hcur1 & Hc1 & Est1).
  apply (wait_on_spec timer_thread l c (set_error RT_EOK ch) flag time xs); [by apply error_kinv|done..|].
  intros pre post k' Hp Hwt. apply (HQ pre post).
  - destruct Hp as [-> Hp]. split; [done|]. destruct (flag =? RT_IPC_FLAG_FIFO); [done|].
    pose proof (running_not_listed _ c ch l Hk Hc Est) as Hni. rewrite (members_Some _ _ _ Hl) in Hni.
    assert (forall x, x ∈ pre ++ post -> threads (i_sched (error_i c ch RT_EOK i)) !! x = threads (i_sched i) !! x) as Hsame.
    { intros x Hx. apply lookup_insert_ne. by intros ->. }
    destruct Hp as [H1 H2]. split; intros x xh Hx Hxh; [eapply H1|eapply H2]; try done;
      (rewrite Hsame; [done|]); apply elem_of_app; [by left|right]. destruct post; simplify_eq/=. by left.
  - by apply waits_cleared.
Qed.

(** [thread->error = e] and waiting: the combination every blocking call uses. *)
Lemma wp_error_wait timer_thread l c ch flag time xs i (Q : unit -> ipc -> Prop) :
  kinv (i_kernel i) -> is_wait l -> tlists (i_sched i) !! l = Some xs -> runs i c ch ->
  flag = RT_IPC_FLAG_FIFO \/ flag = RT_IPC_FLAG_PRIO ->
  (forall pre post k',
     queue_place flag (current_priority ch) (threads (i_sched i)) xs pre post ->
     waits l c (set_error RT_EOK ch) (pre ++ c :: post) time (i_kernel i) k' ->
     Q tt (set_i_kernel k' i)) ->
  wp (reset_error c RT_EOK) i (fun _ i1 => wp (wait_on timer_thread l c flag time) i1 Q).
Proof.
  intros Hk Hw Hl Hr Hf HQ. eapply wp_reset_error; [apply Hr|]. by apply (wp_wait_cleared timer_thread l c ch flag time xs).
Qed.

Lemma waits_errors l c ch q0 pre post time k k' :
  kinv k -> is_wait l -> tlists (k_sched k) !! l = Some q0 -> q0 = pre ++ post ->
  threads (k_sched k) !! c = Some ch -> stat_of ch = RT_THREAD_RUNNING ->
  waits l c (set_error RT_EOK ch) (pre ++ c :: post) time k k' ->
  (forall t, t ∈ q0 -> has_error (k_sched k) RT_EOK t) ->
  forall t, t ∈ pre ++ c :: post -> has_error (k_sched k') RT_EOK t.
Proof.
  intros Hk Hw Hl -> Hc Est Hwt He t Ht. destruct (decide (t = c)) as [->|Hn].
  { exists (with_stat RT_THREAD_SUSPEND (set_error RT_EOK ch)). split; [apply Hwt|done]. }
  eapply (frame_error (fun x => x = c) _ _ RT_EOK (pre ++ post) k k'); [apply Hwt|done..| |set_solver].
  intros x Hx. split; [|by eapply waiter_of].
  intros ->. apply (running_not_listed k c ch l); [done..|]. by rewrite (members_Some _ _ _ Hl).
Qed.

Section Semaphore.
Context (timer_thread : oid).

(** The three outcomes of [rt_sem_take]. *)
Definition sem_take_post (o : oid) (v time : Z) (q : list oid) (c : oid) (ch : rt_thread) (i : ipc)
    (out : outcome oid Z) (i' : ipc) : Prop :=
  match out with
  | Returned r =>
      i_kernel i' = i_kernel i /\
      if 0 <? v then r = RT_EOK /\ sem_inv o (v - 1) q i'
      else r = - RT_ETIMEOUT /\ time = 0 /\ i' = i
  | Waiting t =>
      t = c /\ v = 0 /\ time <> 0 /\
      exists flag pre post, sem_inv o 0 (pre ++ c :: post) i' /\
        sems i !! o = Some (mk_sem flag v) /\
        queue_place flag (current_priority ch) (threads (i_sched i)) q pre post /\
        waits (LSusp o) c (set_error RT_EOK ch) (pre ++ c :: post) time (i_kernel i) (i_kernel i')
  end.

Lemma sem_take_wp o v q time c ch i :
  sem_inv o v q i -> runs i c ch ->
  wp (rt_sem_take timer_thread o time) i (sem_take_post o v time q c ch i).
Proof.
  intros Hi Hr. pose proof Hi as [Hk Hcur (flag & Hsem & Hf) Hq Hv Hidle He].
  unfold rt_sem_take. wp_step. eapply wp_get_sem; [done|]. simpl sem_value. simpl sem_flag.
  destruct (0 <? v) eqn:Ev.
  - unfold put_sem. wp_steps. unfold sem_take_post. rewrite Ev. split; [done|]. split; [done|].
    split; simpl; [done|done| |done|lia|intros ?; apply Hidle; lia|done].
    exists flag. by rewrite lookup_insert_eq.
  - assert (v = 0) as -> by lia. destruct (time =? 0) eqn:Et.
    { wp_steps. unfold sem_take_post. rewrite Ev. split_and!; [done|done|lia|done]. }
    pose proof Hr as (Hc & Hch & Est).
    wp_step. apply (wp_self c); [done|]. wp_step.
    eapply wp_mono; [|intros ? ? H; apply wp_bind; exact H].
    eapply wp_error_wait; [exact Hk|done|exact Hq|exact Hr|exact Hf|].
    intros pre post k' Hp Hwt. wp_steps.
    split_and!; [done|done|lia|]. exists flag, pre, post. split_and!; [|done|done|done].
    split; simpl; [apply Hwt|apply Hwt|by exists flag|apply Hwt|lia|lia|].
    eapply (waits_errors (LSusp o)); [exact Hk|done|exact Hq|apply Hp|exact Hch|exact Est|exact Hwt|done].
Qed.

(** The two ways [rt_sem_release] can go. *)
Definition sem_release_post (o : oid) (v : Z) (q : list oid) (i : ipc) (r : Z) (i' : ipc) : Prop :=
  match q with
  | [] => if v <? RT_SEM_VALUE_MAX then r = RT_EOK /\ sem_inv o (v + 1) [] i' /\ i_kernel i' = i_kernel i
          else r = - RT_EFULL /\ i' = i
  | w :: ws => r = RT_EOK /\ sem_inv o v ws i' /\
      exists wh, threads (i_sched i) !! w = Some wh /\
                 wakes (LSusp o) w wh ws (i_kernel i) (i_kernel i')
  end.

Lemma wakes_errors l w wh ws k k' :
  kinv k -> is_wait l -> tlists (k_sched k) !! l = Some (w :: ws) -> wakes l w wh ws k k' ->
  (forall t, t ∈ w :: ws -> has_error (k_sched k) RT_EOK t) ->
  forall t, t ∈ ws -> has_error (k_sched k') RT_EOK t.
Proof.
  intros Hk Hw Hl Hwk He t Ht. pose proof (queue_nodup k l _ Hk Hl) as [Hni _]%NoDup_cons.
  eapply (frame_error (fun x => x = w) _ _ RT_EOK ws k k'); [apply Hwk|done..| | |done].
  - intros x Hx. apply He. set_solver.
  - intros x Hx. split; [by intros ->|]. eapply waiter_of; [done..|set_solver].
Qed.

Lemma sem_release_wp o v q i :
  sem_inv o v q i -> wp (rt_sem_release o) i (sem_release_post o v q i).
Proof.
  intros Hi. pose proof Hi as [Hk (c & Hcur) (flag & Hsem & Hf) Hq Hv Hidle He].
  unfold rt_sem_release. wp_step. eapply wp_get_sem; [done|].
  wp_step. eapply wp_has_waiter; [done|]. destruct q as [|w ws]; simpl.
  - destruct (v <? RT_SEM_VALUE_MAX) eqn:Ev; unfold put_sem; wp_steps; unfold sem_release_post; rewrite ?Ev; [|done].
    split_and!; [done| |done]. split; simpl; [done|eauto| |done|lia|done|done].
    exists flag. by rewrite lookup_insert_eq.
  - wp_step. apply wp_in_kernel. eapply (wp_ipc_list_resume (LSusp o) w ws c); [done..|].
    intros wh k' Hwh Est Hwk Hc'. wp_step. apply (wp_schedule c); [apply Hwk|done|].
    intros s' Hs'. wp_steps. pose proof (wakes_scheduled (LSusp o) _ _ _ _ _ _ I Hwk Hs') as Hwk'.
    split; [done|]. split; [|by exists wh].
    split; simpl; [apply Hwk'|apply Hwk'|by exists flag|apply Hwk'|done|by intros ?%Hidle|].
    exact (wakes_errors (LSusp o) w wh ws _ _ Hk I Hq Hwk' He).
Qed.

End Semaphore.

(** ** A timeout removes a thread from the queue it waits on *)

Lemma scheduled_of c ch k s' :
  kinv k -> rt_current_thread (k_sched k) = Some c -> threads (k_sched k) !! c = Some ch ->
  kinv (set_k_sched s' k) -> schedule_post c ch (k_sched k) s' -> scheduled k s'.
Proof.
  intros Hk Hc Hch Hk' Hpost.
  split_and!; [done|by eapply schedule_current| |by eapply schedule_waits; [apply Hk|..]].
  intros x xh Hx. split; intros _ Hs.
  - by eapply schedule_suspended; [apply Hk|..].
  - by eapply schedule_runnable; [apply Hk|apply Hk'|..].
Qed.

Record expires (l : lhead) (t : oid) (xs : list oid) (k k' : kernel) : Prop := {
  ex_inv : kinv k';
  ex_current : exists c', rt_current_thread (k_sched k') = Some c';
  ex_queue : tlists (k_sched k') !! l = Some (filter (fun x => x <> t) xs);
  ex_self : exists th', threads (k_sched k') !! t = Some th' /\ runnable th' /\ error th' = - RT_ETIMEOUT;
  ex_frame : woken_frame (fun x => x = t) k k'
}.

Lemma timeout_expires l t xs c k (Q : unit -> kernel -> Prop) :
  kinv k -> is_wait l -> tlists (k_sched k) !! l = Some xs -> t ∈ xs ->
  rt_current_thread (k_sched k) = Some c -> ThreadTimer t ∉ Tmr.rt_timer_list (k_timer k) ->
  (forall k', expires l t xs k k' -> Q tt k') -> wp (rt_thread_timeout t) k Q.
Proof.
  intros Hk Hw Hl Hin Hc Hnt HQ.
  destruct (waiter_of k l t xs Hk Hw Hl Hin) as (th & Hth & Est).
  apply (wp_thread_timeout c t th); [done..|]. intros ch s' Hk1 Hch Hk' Hpost.
  pose proof (scheduled_of c ch (set_k_sched (timed_out_s t th (k_sched k)) k) s' Hk1) as Hs.
  destruct Hs as (_ & Hc' & Hf & Hsw); [unfold timed_out_s; simpl; by rewrite resumed_current|done|done|done|].
  apply HQ. split; [done|done| | |].
  - simpl. rewrite (Hsw l Hw). by apply resumed_lists.
  - pose proof (timed_out_threads t th (k_sched k) t) as E. rewrite decide_True in E by done.
    destruct (Hf t _ E) as [_ H]. destruct H as (th' & Ht' & Hr & He & _); [tauto| |].
    { unfold runnable. case_decide; [right|left]; by apply stat_of_with_stat. }
    exists th'. by rewrite He.
  - intros x xh Hx. split; intros Hn Hst;
      (destruct (Hf x xh) as [H1 H2]; [by simpl; rewrite timed_out_threads, decide_False|]); auto.
Qed.

(** ** Histories of a semaphore *)

Inductive sem_event := Took | Queued | Refused | Released | Full | Expired | Rescheduled.

#[export] Instance sem_event_eq_dec : EqDecision sem_event.
Proof. solve_decision. Defined.

(** The steps that concern semaphore [o]: calls of the running thread, the
    timeout of a waiting thread, and scheduling. *)
Inductive sem_step (timer_thread o : oid) (i : ipc) : sem_event -> ipc -> Prop :=
| step_took time c ch i' : runs i c ch ->
    rt_sem_take timer_thread o time i = Some (Returned RT_EOK, i') -> sem_step timer_thread o i Took i'
| step_queued time c ch t i' : runs i c ch ->
    rt_sem_take timer_thread o time i = Some (Waiting t, i') -> sem_step timer_thread o i Queued i'
| step_refused time c ch i' : runs i c ch ->
    rt_sem_take timer_thread o time i = Some (Returned (- RT_ETIMEOUT), i') ->
    sem_step timer_thread o i Refused i'
| step_released i' : rt_sem_release o i = Some (RT_EOK, i') -> sem_step timer_thread o i Released i'
| step_full i' : rt_sem_release o i = Some (- RT_EFULL, i') -> sem_step timer_thread o i Full i'
| step_expired t xs i' : tlists (i_sched i) !! LSusp o = Some xs -> t ∈ xs ->
    ThreadTimer t ∉ Tmr.rt_timer_list (k_timer (i_kernel i)) ->
    in_kernel (rt_thread_timeout t) i = Some (tt, i') -> sem_step timer_thread o i Expired i'
| step_scheduled i' : schedule i = Some (tt, i') -> sem_step timer_thread o i Rescheduled i'.

Inductive sem_steps (timer_thread o : oid) : ipc -> list sem_event -> ipc -> Prop :=
| steps_nil i : sem_steps timer_thread o i [] i
| steps_cons i e i1 es i2 : sem_step timer_thread o i e i1 -> sem_steps timer_thread o i1 es i2 ->
    sem_steps timer_thread o i (e :: es) i2.

(** What an event adds to (value - number of waiting threads). *)
Definition sem_delta (e : sem_event) : Z :=
  match e with Released | Expired => 1 | Took | Queued => -1 | _ => 0 end.

Fixpoint sem_balance (es : list sem_event) : Z :=
  match es with [] => 0 | e :: es => sem_delta e + sem_balance es end.

Lemma wp_run {S A} (m : M S A) s Q a s' : wp m s Q -> m s = Some (a, s') -> Q a s'.
Proof. unfold wp. by intros H E; rewrite E in H. Qed.

Lemma filter_ne_length (t : oid) (xs : list oid) :
  NoDup xs -> t ∈ xs -> length xs = S (length (filter (fun x => x <> t) xs)).
Proof.
  intros Hn Hin. apply list_elem_of_split in Hin as (l1 & l2 & ->).
  apply NoDup_app in Hn as (_ & H1 & [H2 _]%NoDup_cons).
  assert (t ∉ l1) by (intros H; apply (H1 t H); set_solver).
  rewrite filter_app, filter_cons_False, !filter_ne_id by tauto. rewrite !length_app. simpl. lia.
Qed.

Lemma frame_sem o v q i k' :
  sem_inv o v q i -> kinv k' -> (exists c, rt_current_thread (k_sched k') = Some c) ->
  forall q' (W : oid -> Prop), tlists (k_sched k') !! LSusp o = Some q' ->
  (forall t, t ∈ q' -> t ∈ q /\ ~ W t) -> (q = [] -> q' = []) ->
  woken_frame W (i_kernel i) k' -> sem_inv o v q' (set_i_kernel k' i).
Proof.
  intros [Hk Hcur Hsem Hq Hv Hidle He] Hk' Hc' q' W Hq' Hsub Hnil Hf.
  split; simpl; [done|done|done|done|done|auto|].
  eapply (frame_error W (i_sched i) _ RT_EOK q' (i_kernel i) k'); [done..| |].
  - intros t Ht. apply He, Hsub, Ht.
  - intros t Ht. destruct (Hsub t Ht). split; [done|]. by eapply (waiter_of _ (LSusp o)).
Qed.

Lemma sem_step_inv timer_thread o v q i e i' :
  sem_inv o v q i -> sem_step timer_thread o i e i' ->
  exists v' q', sem_inv o v' q' i' /\
    v' - Z.of_nat (length q') = v - Z.of_nat (length q) + sem_delta e.
Proof.
  intros Hi Hs. pose proof Hi as [Hk (c0 & Hc0) _ Hq Hv Hidle _]. destruct Hs as
    [time c ch i' Hr E|time c ch t i' Hr E|time c ch i' Hr E|i' E|i' E|t xs i' Hl Hin Hnt E|i' E]; simpl.
  - pose proof (wp_run _ _ _ _ _ (sem_take_wp timer_thread o v q time c ch i Hi Hr) E) as [_ H].
    destruct (0 <? v) eqn:Ev; destruct H as [H1 H2]; [|done]. exists (v - 1), q. split; [done|lia].
  - destruct (wp_run _ _ _ _ _ (sem_take_wp timer_thread o v q time c ch i Hi Hr) E)
      as (-> & -> & _ & flag & pre & post & H1 & _ & [-> _] & _).
    exists 0, (pre ++ c :: post). split; [done|]. rewrite !length_app. simpl. lia.
  - pose proof (wp_run _ _ _ _ _ (sem_take_wp timer_thread o v q time c ch i Hi Hr) E) as [_ H].
    destruct (0 <? v) eqn:Ev; destruct H as [H1 H2]; [done|]. destruct H2 as [_ ->]. exists v, q. split; [done|lia].
  - pose proof (wp_run _ _ _ _ _ (sem_release_wp o v q i Hi) E) as H. unfold sem_release_post in H.
    destruct q as [|w ws]; [destruct (v <? RT_SEM_VALUE_MAX)|].
    + destruct H as (_ & H & _). exists (v + 1), []. split; [done|lia].
    + by destruct H.
    + destruct H as (_ & H & _). exists v, ws. split; [done|simpl; lia].
  - pose proof (wp_run _ _ _ _ _ (sem_release_wp o v q i Hi) E) as H. unfold sem_release_post in H.
    destruct q as [|w ws]; [destruct (v <? RT_SEM_VALUE_MAX)|]; destruct H as [H1 H2]; [done| |done].
    subst i'. exists v, []. split; [done|lia].
  - simplify_eq. assert (wp (in_kernel (rt_thread_timeout t)) i
      (fun _ i' => exists k', expires (LSusp o) t xs (i_kernel i) k' /\ i' = set_i_kernel k' i)) as H.
    { apply wp_in_kernel. apply (timeout_expires (LSusp o) t xs c0); [done..|]. eauto. }
    destruct (wp_run _ _ _ _ _ H E) as (k' & [H1 H2 H3 H4 H5] & ->).
    exists v, (filter (fun x => x <> t) xs). split.
    + eapply (frame_sem o v xs i k' Hi H1 H2 _ (fun x => x = t)); [done| | |done].
      * intros x [? ?]%list_elem_of_filter. done.
      * by intros ->.
    + rewrite (filter_ne_length t xs); [lia|eapply queue_nodup; [exact Hk|exact Hl]|done].
  - assert (wp schedule i (fun _ i' => exists s', scheduled (i_kernel i) s' /\
        i' = set_i_kernel (set_k_sched s' (i_kernel i)) i)) as H.
    { apply (wp_schedule c0); [done..|]. eauto. }
    destruct (wp_run _ _ _ _ _ H E) as (s' & (H1 & H2 & H3 & H4) & ->).
    exists v, q. split; [|lia]. eapply (frame_sem o v q i _ Hi H1 H2 _ (fun _ => False)); [|tauto|done|done].
    simpl. by rewrite (H4 (LSusp o) I).
Qed.

(** ** Initialising objects *)

Lemma sched_inv_lock n s : sched_inv s -> sched_inv (set_rt_scheduler_lock_nest n s).
Proof. intros [[] Hi]. split; [split; done|]. intros t th Ht Hn. exact (Hi t th Ht Hn). Qed.

Lemma kinv_lock n k : kinv k -> kinv (set_k_sched (set_rt_scheduler_lock_nest n (k_sched k)) k).
Proof.
  intros Hk. apply kinv_sched; [done|by apply sched_inv_lock, Hk|done|]. intros t th Ht Hin. by apply (ki_wait k Hk t).
Qed.

Lemma lock_nest_back s n : set_rt_scheduler_lock_nest (rt_scheduler_lock_nest s) (set_rt_scheduler_lock_nest n s) = s.
Proof. by destruct s. Qed.

Lemma wp_in_sched_inv {A} (m : M sched A) k (Q : A -> kernel -> Prop) :
  wp (in_sched m) k Q -> wp m (k_sched k) (fun a s => Q a (set_k_sched s k)).
Proof. unfold wp, in_sched, zoom. by destruct (m (k_sched k)) as [[a s]|]. Qed.

(** Locking and unlocking the scheduler: at most a rescheduling. *)
Lemma wp_critical_section c k (Q : unit -> kernel -> Prop) :
  kinv k -> rt_current_thread (k_sched k) = Some c -> 0 <= rt_scheduler_lock_nest (k_sched k) < 32767 ->
  Q tt k ->
  (forall s', scheduled k s' -> rt_scheduler_lock_nest s' = rt_scheduler_lock_nest (k_sched k) ->
     Q tt (set_k_sched s' k)) ->
  wp (in_sched rt_enter_critical;; in_sched rt_exit_critical) k Q.
Proof.
  intros Hk Hc Hn HQ1 HQ2. wp_step. apply wp_in_sched. unfold rt_enter_critical. wp_step.
  set (n := rt_scheduler_lock_nest (k_sched k)) in *.
  apply wp_in_sched. unfold rt_exit_critical. wp_step. wp_step. wp_step. wp_step. simpl.
  assert (s16 (s16 (n + 1) - 1) = n) as E.
  { rewrite (swrap_small 16 (n + 1)) by lia. replace (n + 1 - 1) with n by lia. apply swrap_small; lia. }
  fold n. rewrite E. apply wp_when; intros En.
  - assert (n = 0) as E0 by lia. wp_step. wp_step. wp_step. wp_step. cbn [rt_current_thread set_rt_scheduler_lock_nest].
    change (rt_current_thread (k_sched k)) with (rt_current_thread (k_sched k)). rewrite Hc. simpl.
    match goal with |- wp _ ?s _ => replace s with (k_sched k) end.
    + eapply wp_mono; [eapply wp_keeps; [apply schedule_lock_nest|
        apply (wp_in_sched_inv rt_schedule k (fun _ k' => exists s', k' = set_k_sched s' k /\ scheduled k s'))]|].
      * apply (wp_scheduled c); [done|done|]. eauto.
      * intros [] s1 ((s' & E1 & Hs') & Hl). injection E1 as ->. by apply HQ2.
    + unfold n in E0. destruct (k_sched k). simpl in *. by subst.
  - match goal with |- Q tt ?x => replace x with k; [done|] end. unfold n. by destruct k as [[]].
Qed.

Lemma kinv_obj st k : kinv k -> kinv (set_k_obj st k).
Proof. intros []. by split. Qed.

(** The object table after [object_attach]. *)
Definition attached_obj (o : ref) (cls : rt_object_class_type) (nm' : list Z) (l : list ref) (st : obj_st) : obj_st :=
  mk_objs (<[o := mk_object nm' (Z.lor (class_code cls) RT_Object_Class_Static)]> (headers st))
    ((fun e => if decide (fst e = cls) then (cls, o :: l) else e) <$> containers st).

(** [k'] is [k] after at most a rescheduling. *)
Definition rescheduled (k : kernel) (s' : sched) : Prop :=
  (scheduled k s' \/ s' = k_sched k) /\ rt_scheduler_lock_nest s' = rt_scheduler_lock_nest (k_sched k).

Lemma wp_critical c k (Q : unit -> kernel -> Prop) :
  kinv k -> rt_current_thread (k_sched k) = Some c -> 0 <= rt_scheduler_lock_nest (k_sched k) < 32767 ->
  (forall s', rescheduled k s' -> kinv (set_k_sched s' k) -> Q tt (set_k_sched s' k)) ->
  wp (in_sched rt_enter_critical;; in_sched rt_exit_critical) k Q.
Proof.
  intros Hk Hc Hn HQ. apply (wp_critical_section c); [done|done|done| |].
  - rewrite <- (set_k_sched_id k). apply HQ; [split; [by right|done]|by rewrite set_k_sched_id].
  - intros s' Hs Hl. apply HQ; [split; [by left|done]|apply Hs].
Qed.

(** [rt_object_init] for a new object of a class with a container. *)
Lemma wp_object_init_at o cls nm nm' l c k (Q : unit -> kernel -> Prop) :
  kinv k -> rt_current_thread (k_sched k) = Some c -> 0 <= rt_scheduler_lock_nest (k_sched k) < 32767 ->
  rt_strncpy nm RT_NAME_MAX = Some nm' -> ~ object_linked (k_obj k) o ->
  container_of cls (containers (k_obj k)) = Some l ->
  (forall s', rescheduled k s' -> kinv (set_k_sched s' k) ->
     Q tt (set_k_obj (attached_obj o cls nm' l (k_obj k)) (set_k_sched s' k))) ->
  wp (rt_object_init o cls nm) k Q.
Proof.
  intros Hk Hc Hn Hnm Hnl Hl HQ. unfold rt_object_init.
  assert (wp (in_sched rt_enter_critical;; in_sched rt_exit_critical) k
    (fun _ k' => wp (in_obj (object_attach o cls nm)) k' Q)) as Hcs.
  { apply (wp_critical c); [done..|]. intros s' Hs Hk'. apply wp_in_obj. unfold object_attach.
    wp_step. eapply wp_deref; [done|].
    wp_step. wp_step. wp_step. wp_step. rewrite bool_decide_false by done. wp_step. unfold rt_object_get_information. wp_step.
    wp_step. eapply wp_deref; [done|]. unfold set_container. wp_steps. by apply HQ. }
  wp_step. unfold wp, mbind, M_bind in Hcs |- *. destruct (in_sched rt_enter_critical k) as [[[] k1]|]; [|done].
  destruct (in_sched rt_exit_critical k1) as [[[] k2]|]; done.
Qed.

Lemma wp_object_init o cls nm c k (Q : unit -> kernel -> Prop) :
  kinv k -> rt_current_thread (k_sched k) = Some c -> 0 <= rt_scheduler_lock_nest (k_sched k) < 32767 ->
  is_Some (rt_strncpy nm RT_NAME_MAX) -> ~ object_linked (k_obj k) o ->
  is_Some (container_of cls (containers (k_obj k))) ->
  (forall s' st', scheduled k s' \/ s' = k_sched k -> kinv (set_k_obj st' (set_k_sched s' k)) ->
     Q tt (set_k_obj st' (set_k_sched s' k))) ->
  wp (rt_object_init o cls nm) k Q.
Proof.
  intros Hk Hc Hn [nm' Hnm] Hnl [l Hl] HQ. apply (wp_object_init_at o cls nm nm' l c); try done.
  intros s' [Hs _] Hk'. apply HQ; [done|]. by apply kinv_obj.
Qed.

(** [rt_object_find] returns what the search of the list finds. *)
Lemma wp_object_find nm cls l r c k (Q : option ref -> kernel -> Prop) :
  kinv k -> rt_current_thread (k_sched k) = Some c -> 0 <= rt_scheduler_lock_nest (k_sched k) < 32767 ->
  container_of cls (containers (k_obj k)) = Some l ->
  object_search nm (headers (k_obj k)) l = Some r ->
  (forall s', rescheduled k s' -> kinv (set_k_sched s' k) -> Q r (set_k_sched s' k)) ->
  wp (rt_object_find nm cls) k Q.
Proof.
  intros Hk Hc Hn Hl Hr HQ. unfold rt_object_find, rt_object_get_information. wp_step.
  apply wp_in_obj. wp_step. rewrite Hl.
  assert (wp (in_sched rt_enter_critical;; in_sched rt_exit_critical) k (fun _ k' => Q r k')) as Hcs
    by (by apply (wp_critical c)).
  replace (set_k_obj (k_obj k) k) with k by (by destruct k). wp_step.
  apply wp_bind_inv in Hcs. apply wp_in_sched. apply wp_in_sched_inv in Hcs. unfold rt_enter_critical in *.
  wp_steps. apply (wp_deref _ r); [done|]. wp_step.
  eapply wp_mono; [exact Hcs|]. intros [] k' HQ'. by wp_steps.
Qed.

(** Other heads for the same lists. *)
Lemma kinv_tlists ls k :
  kinv k -> (forall l, default [] (ls !! l) = members (k_sched k) l) ->
  (forall l, ~ is_wait l -> ls !! l = tlists (k_sched k) !! l) ->
  kinv (set_k_sched (set_tlists ls (k_sched k)) k).
Proof.
  intros Hk Hmem Hrow. set (s' := set_tlists ls (k_sched k)).
  change (forall l, members s' l = members (k_sched k) l) in Hmem.
  assert (forall l' t, inl_ s' l' t <-> inl_ (k_sched k) l' t) as Hin by (intros l' t; unfold inl_; by rewrite Hmem).
  pose proof (kinv_lists k Hk) as Hs. pose proof (ki_sched k Hk) as [_ Hi].
  apply kinv_sched; [done| |done|intros t th Ht Hx; by apply (ki_wait k Hk t)].
  split.
  - split.
    + intros p H. simpl. rewrite Hrow by (by intros []). by apply (lo_rows _ Hs).
    + intros p. simpl. rewrite Hrow by (by intros []). apply (lo_only_rows _ Hs).
    + simpl. rewrite Hrow by (by intros []). apply (lo_defunct _ Hs).
    + intros l'. rewrite Hmem. apply (lo_nodup _ Hs).
    + intros l1 l2 x. rewrite !Hin. apply (lo_once _ Hs).
    + intros l' x. rewrite Hin. apply (lo_threads _ Hs).
    + apply (lo_current _ Hs).
    + apply (lo_group _ Hs).
    + intros p H. rewrite Hmem. by apply (lo_bits _ Hs).
  - intros t th Ht Hn. destruct (Hi t th Ht Hn) as (H1 & H2 & H3 & H4 & H5).
    split_and!; [|by rewrite Hin|done..]. intros l'. rewrite Hin. apply H1.
Qed.

(** An empty list head. *)
Lemma kinv_list_init l k :
  kinv k -> is_wait l -> members (k_sched k) l = [] ->
  kinv (set_k_sched (set_tlists (<[l := []]> (tlists (k_sched k))) (k_sched k)) k).
Proof.
  intros Hk Hw Hm. apply kinv_tlists; [done| |].
  - intros l'. destruct (decide (l' = l)) as [->|]; [by rewrite lookup_insert_eq, Hm|by rewrite lookup_insert_ne].
  - intros l' Hl'. apply lookup_insert_ne. congruence.
Qed.

Lemma wp_list_init l k (Q : unit -> kernel -> Prop) :
  kinv k -> is_wait l -> members (k_sched k) l = [] ->
  (forall s', kinv (set_k_sched s' k) -> tlists s' = <[l := []]> (tlists (k_sched k)) ->
     threads s' = threads (k_sched k) -> rt_current_thread s' = rt_current_thread (k_sched k) ->
     Q tt (set_k_sched s' k)) ->
  wp (in_sched (tlist_init l)) k Q.
Proof.
  intros Hk Hw Hm HQ. apply wp_in_sched. unfold tlist_init, set_list. wp_step. apply HQ; [|done..].
  by apply kinv_list_init.
Qed.

(** ** A system with one object of each kind *)

Definition demo_ipc : ipc :=
  mk_ipc
    (set_k_sched (set_tlists (<[LSusp 10 := []]> (<[LSusp 11 := []]> (<[LSusp 12 := []]> (<[LSender 12 := []]>
       (<[LSusp 13 := []]> (<[LSender 13 := []]> (tlists (k_sched demo_kernel)))))))) (k_sched demo_kernel))
       demo_kernel)
    (<[9%positive := mk_sem RT_IPC_FLAG_FIFO 0]> ∅)
    (<[10%positive := mk_mutex RT_IPC_FLAG_PRIO 1 0xff 0 None]> ∅)
    (<[11%positive := mk_event RT_IPC_FLAG_FIFO 0]> ∅)
    (<[12%positive := mk_mb RT_IPC_FLAG_FIFO [0; 0] 2 0 0 0]> ∅)
    ∅.

Lemma demo_ipc_kinv : kinv (i_kernel demo_ipc).
Proof. apply kernel_check_sound, (bool_decide_unpack _). vm_compute. exact I. Qed.

Lemma demo_sem_inv : sem_inv 9 0 [4%positive] demo_ipc.
Proof.
  split; [apply demo_ipc_kinv|by exists 1%positive|exists RT_IPC_FLAG_FIFO; split; [done|by left]|done|done|done|].
  intros t ->%list_elem_of_singleton. by eexists.
Qed.

Lemma demo_runs : runs demo_ipc 1 (demo_thread RT_THREAD_RUNNING 10).
Proof. done. Qed.

(** ** Theorems *)

(** C7. Units of a semaphore are neither lost nor invented: along every
    sequence of takes by running threads, releases, timeouts of waiting threads
    and reschedulings, (value - number of waiting threads) grows by one with
    each successful release and each timeout and falls by one with each take
    that succeeds or waits, and by nothing else; the value stays a 16-bit
    number, threads wait only while it is 0, and the kernel invariant holds. *)
Theorem sem_conservation timer_thread o v q i es i' :
  sem_inv o v q i -> sem_steps timer_thread o i es i' ->
  exists v' q', sem_inv o v' q' i' /\
    v' - Z.of_nat (length q') = v - Z.of_nat (length q) + sem_balance es.
Proof.
  intros Hi Hs. revert v q Hi. induction Hs as [i|i e i1 es i2 Hstep Hs IH]; intros v q Hi.
  - exists v, q. split; [done|simpl; lia].
  - destruct (sem_step_inv _ _ _ _ _ _ _ Hi Hstep) as (v1 & q1 & Hi1 & E1).
    destruct (IH v1 q1 Hi1) as (v2 & q2 & Hi2 & E2). exists v2, q2. split; [done|]. simpl. lia.
Qed.

(** Thread 4 waits for semaphore 9; the running thread releases it. *)
Lemma sem_conservation_witness :
  exists i' v' q', sem_steps 99 9 demo_ipc [Released] i' /\ sem_inv 9 v' q' i' /\
    v' - Z.of_nat (length q') = 0.
Proof.
  destruct (rt_sem_release 9 demo_ipc) as [[r i']|] eqn:E.
  2: { exfalso. assert (bool_decide (is_Some (rt_sem_release 9 demo_ipc)) = true) as H by (vm_compute; reflexivity).
       rewrite E in H. discriminate H. }
  assert (fst <$> rt_sem_release 9 demo_ipc = Some RT_EOK) as HC by (vm_compute; reflexivity).
  rewrite E in HC. injection HC as ->.
  assert (sem_steps 99 9 demo_ipc [Released] i') as Hs.
  { eapply steps_cons; [by apply step_released|constructor]. }
  destruct (sem_conservation 99 9 0 [4%positive] demo_ipc [Released] i' demo_sem_inv Hs) as (v' & q' & Hi & Hb).
  exists i', v', q'. split_and!; [exact Hs|exact Hi|exact Hb].
Defined.

(** [rt_sem_take] by the running thread does not fault and does one of
    three things: with a unit left it takes it and returns [RT_EOK] at once,
    changing nothing else; without one and with a timeout of 0 it returns
    [-RT_ETIMEOUT] and changes nothing; otherwise the thread is suspended on the
    semaphore's queue (at the end for a FIFO semaphore, behind the waiting
    threads of the same or better priority for a priority semaphore), its error
    code cleared, its timer armed for [tick + time] exactly when [time] is
    positive, all other wait queues and waiting threads untouched. *)
Theorem sem_take_spec timer_thread o v q time c ch i :
  sem_inv o v q i -> runs i c ch ->
  wp (rt_sem_take timer_thread o time) i (fun out i' =>
    if 0 <? v then out = Returned RT_EOK /\ sem_inv o (v - 1) [] i' /\ i_kernel i' = i_kernel i
    else if time =? 0 then out = Returned (- RT_ETIMEOUT) /\ i' = i
    else out = Waiting c /\
      exists flag pre post,
        sems i !! o = Some (mk_sem flag v) /\
        queue_place flag (current_priority ch) (threads (i_sched i)) q pre post /\
        sem_inv o 0 (pre ++ c :: post) i' /\
        waits (LSusp o) c (set_error RT_EOK ch) (pre ++ c :: post) time (i_kernel i) (i_kernel i')).
Proof.
  intros Hi Hr. eapply wp_mono; [by eapply sem_take_wp|]. intros out i' Hp.
  pose proof (si_idle _ _ _ _ Hi) as Hidle. pose proof (si_range _ _ _ _ Hi) as Hv.
  destruct out as [r|t]; simpl in Hp.
  - destruct Hp as [Hk Hp]. destruct (0 <? v) eqn:Ev.
    + destruct Hp as [-> Hi']. rewrite Hidle in Hi' by lia. done.
    + destruct Hp as (-> & -> & ->). done.
  - destruct Hp as (-> & -> & Ht & flag & pre & post & H1 & H2 & H3 & H4).
    assert ((time =? 0) = false) as -> by lia. simpl. split; [done|]. exists flag, pre, post.
    split; [done|]. split; [exact H3|]. by split.
Qed.

(** Thread 1 waits behind thread 4. *)
Lemma sem_take_spec_witness :
  exists i', rt_sem_take 99 9 5 demo_ipc = Some (Waiting 1%positive, i') /\
    exists pre post, sem_inv 9 0 (pre ++ 1%positive :: post) i'.
Proof.
  destruct (proj1 (wp_Some _ _ _) (sem_take_spec 99 9 0 [4%positive] 5 1 _ demo_ipc demo_sem_inv demo_runs))
    as (out & i' & E & -> & flag & pre & post & _ & _ & H & _).
  exists i'. split; [exact E|]. by exists pre, post.
Defined.

(** [rt_sem_release] hands a unit to the thread that has waited longest
    (or has the best priority): the first thread of the queue leaves it, becomes
    able to run, and its [rt_sem_take] returns [RT_EOK] when it runs again; the
    value and the other waiting threads do not change.  With nobody waiting the
    value grows by one, or, at its maximum, the call returns [-RT_EFULL] and
    changes nothing. *)
Theorem sem_release_spec o v q i :
  sem_inv o v q i ->
  wp (rt_sem_release o) i (fun r i' =>
    match q with
    | [] => if v <? RT_SEM_VALUE_MAX then r = RT_EOK /\ sem_inv o (v + 1) [] i' /\ i_kernel i' = i_kernel i
            else r = - RT_EFULL /\ i' = i
    | w :: ws => r = RT_EOK /\ sem_inv o v ws i' /\
        (exists wh', threads (i_sched i') !! w = Some wh' /\ runnable wh') /\
        wp (rt_sem_take_resumed w) i' (fun e _ => e = RT_EOK) /\
        woken_frame (fun x => x = w) (i_kernel i) (i_kernel i')
    end).
Proof.
  intros Hi. eapply wp_mono; [by apply sem_release_wp|]. intros r i' Hp. unfold sem_release_post in Hp.
  destruct q as [|w ws]; [done|]. destruct Hp as (-> & Hi' & wh & Hwh & Hwk).
  destruct (wk_self _ _ _ _ _ _ Hwk) as (wh' & Hwh' & Hr & He & _).
  split_and!; [done|done|by exists wh'| |apply Hwk].
  destruct (si_errors _ _ _ _ Hi w) as (wh2 & Hwh2 & E2); [set_solver|]. simplify_eq.
  unfold rt_sem_take_resumed. wp_step. eapply wp_thread_error; [done|]. rewrite He, E2. by wp_steps.
Qed.

Lemma sem_release_spec_witness :
  exists i', rt_sem_release 9 demo_ipc = Some (RT_EOK, i') /\ sem_inv 9 0 [] i' /\
    exists i'', rt_sem_take_resumed 4 i' = Some (RT_EOK, i'').
Proof.
  destruct (proj1 (wp_Some _ _ _) (sem_release_spec 9 0 [4%positive] demo_ipc demo_sem_inv))
    as (r & i' & E & -> & H1 & _ & H2 & _).
  exists i'. split; [exact E|]. split; [exact H1|].
  destruct (proj1 (wp_Some _ _ _) H2) as (e & i'' & E2 & ->). by exists i''.
Defined.

(** Resetting a semaphore cancels every wait: with fuel for one round per
    waiting thread, [rt_sem_control(RT_IPC_CMD_RESET)] terminates without
    fault, the queue is empty, the value is the argument as a 16-bit number,
    every thread that waited can run and its [rt_sem_take] will return
    [-RT_ERROR], and no other waiting thread is touched. *)
Theorem sem_reset_cancels fuel o v q arg i :
  sem_inv o v q i -> (length q <= fuel)%nat ->
  wp (rt_sem_control fuel o RT_IPC_CMD_RESET arg) i (fun r i' =>
    r = RT_EOK /\ sem_inv o (u16 arg) [] i' /\
    (forall t, t ∈ q -> exists th', threads (i_sched i') !! t = Some th' /\ runnable th') /\
    (forall t, t ∈ q -> wp (rt_sem_take_resumed t) i' (fun e _ => e = - RT_ERROR)) /\
    woken_frame (fun t => t ∈ q) (i_kernel i) (i_kernel i')).
Proof.
  intros Hi Hf. pose proof Hi as [Hk (c & Hcur) (flag & Hsem & Hfl) Hq Hv Hidle He].
  unfold rt_sem_control. simpl. wp_step. apply wp_in_kernel.
  apply (resume_all_spec fuel (LSusp o) q c); [done..|]. intros k' Hcn Hc'.
  wp_step. eapply wp_get_sem; [done|]. unfold put_sem. wp_step. wp_step. wp_step.
  apply (wp_schedule c); [apply Hcn|done|]. intros s' Hs'. wp_steps.
  pose proof (cancels_scheduled (LSusp o) q _ k' s' I Hcn Hs') as Hcn'.
  split; [done|]. split.
  { split; simpl; [apply Hcn'|apply Hcn'| |apply Hcn'|pose proof (uwrap_range 16 arg ltac:(lia)) as []; unfold RT_SEM_VALUE_MAX; c_lia|done|set_solver].
    exists flag. by rewrite lookup_insert_eq. }
  split_and!; [| |apply Hcn'].
  - intros t Ht. destruct (cn_woken _ _ _ _ Hcn' t Ht) as (th & H1 & H2 & _). by exists th.
  - intros t Ht. destruct (cn_woken _ _ _ _ Hcn' t Ht) as (th & H1 & H2 & E).
    unfold rt_sem_take_resumed. wp_step. eapply wp_thread_error; [done|]. rewrite E. by wp_steps.
Qed.

Lemma sem_reset_cancels_witness :
  exists i', rt_sem_control 3 9 RT_IPC_CMD_RESET 2 demo_ipc = Some (RT_EOK, i') /\ sem_inv 9 2 [] i'.
Proof.
  destruct (proj1 (wp_Some _ _ _) (sem_reset_cancels 3 9 0 [4%positive] 2 demo_ipc demo_sem_inv ltac:(simpl; lia)))
    as (r & i' & E & -> & H & _).
  exists i'. split; [exact E|]. exact H.
Defined.

End Ipc.
