(* ===== verification/Objects.v ===== *)
(** * The object registry of all classes

    The client's view of [rt-thread/src/object.c] for static objects: a
    typing gives each registered object its class and name, [typed] says that
    headers and containers agree with it, and every operation keeps it.
    The operations themselves are in files Object and Thread. *)
From stdpp Require Import base list gmap.
From Stdlib Require Import ZArith Lia.
From S2P Require Import Prelude Scheduler Object Thread Ipc.

Module Objects.
Import Sched Obj Thr Ipc.

(** A typing: the class of a registered object and the twelve bytes of its name. *)
Abbreviation typing := (gmap ref (rt_object_class_type * list Z)).

Definition key_ok (key : list Z) : Prop := rt_strncpy key RT_NAME_MAX = Some key /\ Forall is_u8 key.

Record typed (g : typing) (st : obj_st) : Prop := {
  ty_classes : fst <$> containers st = container_classes;
  ty_members c l : container_of c (containers st) = Some l ->
    NoDup l /\ forall o, o ∈ l <-> exists key, g !! o = Some (c, key);
  ty_headers o c key : g !! o = Some (c, key) ->
    c ∈ container_classes /\ key_ok key /\
    headers st !! o = Some (mk_object key (Z.lor (class_code c) RT_Object_Class_Static))
}.

(** ** Operations and what they promise *)

Inductive obj_op :=
| OpInit (o : ref) (c : rt_object_class_type) (nm : list Z)
| OpDetach (o : ref)
| OpFind (nm : list Z) (c : rt_object_class_type)
| OpLength (c : rt_object_class_type)
| OpPointers (c : rt_object_class_type) (maxlen : Z)
| OpType (o : ref)
| OpSystem (o : ref).

Inductive obj_res :=
| Done | Found (o : option ref) | Count (n : Z) | Pointers (l : list ref) | Code (c : Z) | System (b : bool).

Definition run_op (op : obj_op) : M kernel obj_res :=
  match op with
  | OpInit o c nm => rt_object_init o c nm;; mret Done
  | OpDetach o => in_obj (rt_object_detach o);; mret Done
  | OpFind nm c => r ← rt_object_find nm c; mret (Found r)
  | OpLength c => n ← in_obj (rt_object_get_length c); mret (Count n)
  | OpPointers c maxlen => l ← in_obj (rt_object_get_pointers c maxlen); mret (Pointers l)
  | OpType o => c ← in_obj (rt_object_get_type o); mret (Code c)
  | OpSystem o => b ← in_obj (rt_object_is_systemobject o); mret (System b)
  end.

Fixpoint run_ops (ops : list obj_op) : M kernel (list obj_res) :=
  match ops with
  | [] => mret []
  | op :: ops => r ← run_op op; rs ← run_ops ops; mret (r :: rs)
  end.

(** A name is a byte string that ends within what [rt_strncpy] reads. *)
Definition name_good (nm : list Z) : Prop := Forall is_u8 nm /\ is_Some (rt_strncpy nm RT_NAME_MAX).
Definition key_of (nm : list Z) : list Z := default [] (rt_strncpy nm RT_NAME_MAX).

(** What a caller has to see to. *)
Definition allowed (g : typing) (op : obj_op) : Prop :=
  match op with
  | OpInit o c nm => g !! o = None /\ c ∈ container_classes /\ name_good nm
  | OpFind nm c => name_good nm
  | OpDetach o | OpType o | OpSystem o => is_Some (g !! o)
  | OpLength _ | OpPointers _ _ => True
  end.

Definition retype (g : typing) (op : obj_op) : typing :=
  match op with
  | OpInit o c nm => <[o := (c, key_of nm)]> g
  | OpDetach o => delete o g
  | _ => g
  end.

(** The objects of a class. *)
Definition of_class (g : typing) (c : rt_object_class_type) (l : list ref) : Prop :=
  NoDup l /\ forall o, o ∈ l <-> exists key, g !! o = Some (c, key).

Definition answers (g : typing) (op : obj_op) (r : obj_res) : Prop :=
  match op, r with
  | OpInit _ _ _, Done | OpDetach _, Done => True
  | OpFind nm c, Found (Some o) => g !! o = Some (c, key_of nm)
  | OpFind nm c, Found None => forall o, g !! o <> Some (c, key_of nm)
  | OpLength c, Count n => exists l, of_class g c l /\ n = Z.of_nat (length l)
  | OpPointers c maxlen, Pointers l => exists rest, of_class g c (l ++ rest) /\
      (Z.of_nat (length l) <= Z.max 0 maxlen) /\ (rest <> [] -> Z.of_nat (length l) = Z.max 0 maxlen)
  | OpType o, Code n => exists c key, g !! o = Some (c, key) /\ n = class_code c
  | OpSystem _, System b => b = true
  | _, _ => False
  end.

(** The calls of a program, each allowed where it happens. *)
Fixpoint all_allowed (g : typing) (ops : list obj_op) : Prop :=
  match ops with [] => True | op :: ops => allowed g op /\ all_allowed (retype g op) ops end.
Fixpoint all_answer (g : typing) (ops : list obj_op) (rs : list obj_res) : Prop :=
  match ops, rs with
  | [], [] => True
  | op :: ops, r :: rs => answers g op r /\ all_answer (retype g op) ops rs
  | _, _ => False
  end.

(** ** Containers *)

Lemma container_classes_NoDup : NoDup container_classes.
Proof. apply (bool_decide_unpack _). vm_compute. exact I. Qed.

Lemma container_of_in c cs : c ∈ fst <$> cs -> exists l, container_of c cs = Some l.
Proof.
  induction cs as [|[d x] cs IH]; [by intros ?%elem_of_nil|]. simpl. intros H.
  destruct (decide (d = c)) as [->|]; [by exists x|]. apply IH. by apply elem_of_cons in H as [->|].
Qed.

Lemma container_of_None c cs : c ∉ fst <$> cs -> container_of c cs = None.
Proof.
  induction cs as [|[d x] cs IH]; [done|]. simpl. intros [Hne H]%not_elem_of_cons. rewrite decide_False by done. by apply IH.
Qed.

Lemma linked_class st o : NoDup (fst <$> containers st) -> object_linked st o ->
  exists c l, container_of c (containers st) = Some l /\ o ∈ l.
Proof.
  unfold object_linked. induction (containers st) as [|[c l] cs IH]; intros Hnd Hl; [by apply Exists_nil in Hl|].
  simpl in Hnd. apply NoDup_cons in Hnd as [Hc Hnd]. apply Exists_cons in Hl as [Ho|Hl].
  - exists c, l. simpl. by rewrite decide_True.
  - destruct (IH Hnd Hl) as (d & x & Hd & Hx). exists d, x. split; [|done]. simpl. rewrite decide_False; [done|].
    intros <-. by rewrite container_of_None in Hd.
Qed.

Lemma set_classes (c : rt_object_class_type) (l : list ref) (cs : list (rt_object_class_type * list ref)) :
  fst <$> ((fun e : rt_object_class_type * list ref => if decide (fst e = c) then (c, l) else e) <$> cs) = fst <$> cs.
Proof.
  rewrite <- list_fmap_compose. apply list_fmap_ext. intros _ [d x] _. simpl. by destruct (decide (d = c)) as [->|].
Qed.

Lemma unlink_classes (o : ref) (cs : list (rt_object_class_type * list ref)) :
  fst <$> ((fun e => (fst e, filter (fun x => x <> o) (snd e))) <$> cs) = fst <$> cs.
Proof. rewrite <- list_fmap_compose. by apply list_fmap_ext. Qed.

Lemma container_of_set_ne t d l (cs : list (rt_object_class_type * list ref)) : t <> d ->
  container_of d ((fun e : rt_object_class_type * list ref => if decide (fst e = t) then (t, l) else e) <$> cs) = container_of d cs.
Proof.
  intros Hne. induction cs as [|[c x] cs IH]; [done|]. simpl. destruct (decide (c = t)) as [->|]; simpl.
  - rewrite !(decide_False (P := t = d)) by done. exact IH.
  - destruct (decide (c = d)); [done|]. exact IH.
Qed.

(** ** The typing of the registry *)

Lemma typed_linked g st o : typed g st -> object_linked st o -> is_Some (g !! o).
Proof.
  intros [H1 H2 _] Hl. apply linked_class in Hl as (c & l & Hc & Ho); [|rewrite H1; apply container_classes_NoDup].
  apply (proj2 (H2 c l Hc)) in Ho as [key Ho]. by exists (c, key).
Qed.

Lemma typed_container g st c : typed g st -> c ∈ container_classes -> exists l, container_of c (containers st) = Some l.
Proof. intros [H1 _ _] Hc. apply container_of_in. by rewrite H1. Qed.

Lemma typed_init g st o c nm l :
  typed g st -> g !! o = None -> c ∈ container_classes -> name_good nm -> container_of c (containers st) = Some l ->
  typed (<[o := (c, key_of nm)]> g) (attached_obj o c (key_of nm) l st).
Proof.
  intros [H1 H2 H3] Hg Hc [Hu [key Hkey]] Hl. unfold key_of. rewrite Hkey. simpl.
  assert (key_ok key) as Hok by (split; [by eapply strncpy_idem|by eapply strncpy_u8]).
  split; [simpl; by rewrite set_classes| |].
  - intros d x Hx. simpl in Hx. destruct (decide (d = c)) as [->|Hdc].
    + rewrite (container_of_set c (o :: l) l) in Hx by done. injection Hx as <-. destruct (H2 c l Hl) as [Hnd Hin].
      split; [constructor; [|done]; rewrite Hin; intros [k Hk]; by simplify_eq|].
      intros y. rewrite elem_of_cons, Hin. setoid_rewrite lookup_insert_Some. naive_solver.
    + rewrite container_of_set_ne in Hx by done. destruct (H2 d x Hx) as [Hnd Hin]. split; [done|].
      intros y. rewrite Hin. setoid_rewrite lookup_insert_Some. naive_solver.
  - intros y d k. rewrite lookup_insert_Some. intros [[<- [= <- <-]]|[Hne Hy]]; simpl.
    + split; [done|]. split; [done|]. by rewrite lookup_insert_eq.
    + rewrite lookup_insert_ne by done. by apply H3.
Qed.

Lemma typed_detach g st o h :
  typed g st ->
  typed (delete o g) (mk_objs (<[o := h]> (headers st)) ((fun e => (fst e, filter (fun x => x <> o) (snd e))) <$> containers st)).
Proof.
  intros [H1 H2 H3]. split; [simpl; by rewrite unlink_classes| |].
  - intros d x Hx. simpl in Hx. rewrite container_of_unlink in Hx. destruct (container_of d (containers st)) as [l|] eqn:El; [|done].
    injection Hx as <-. destruct (H2 d l El) as [Hnd Hin]. split; [by apply NoDup_filter|].
    intros y. rewrite list_elem_of_filter, Hin. setoid_rewrite lookup_delete_Some. naive_solver.
  - intros y d k. rewrite lookup_delete_Some. intros [Hne Hy]. simpl. rewrite lookup_insert_ne by done. by apply H3.
Qed.

Lemma typed_search g st c l nm :
  typed g st -> container_of c (containers st) = Some l -> name_good nm ->
  exists r, object_search nm (headers st) l = Some r /\ answers g (OpFind nm c) (Found r).
Proof.
  intros [H1 H2 H3] Hl [Hu [key Hkey]]. unfold answers, key_of. rewrite Hkey. simpl. destruct (H2 c l Hl) as [_ Hin].
  assert (Forall (name_ok (headers st)) l) as Hn.
  { apply Forall_forall. intros o Ho. apply Hin in Ho as [k Ho]. destruct (H3 _ _ _ Ho) as (_ & [? ?] & Hh). by eexists. }
  destruct (object_search_spec nm key _ l Hn Hu Hkey) as (r & E & Hr). exists r. split; [done|]. destruct r as [o|].
  - destruct Hr as [Ho (h & Hh & <-)]. apply Hin in Ho as [k Ho]. destruct (H3 _ _ _ Ho) as (_ & _ & Hh').
    rewrite Hh in Hh'. by injection Hh' as ->.
  - intros o Ho. destruct (H3 _ _ _ Ho) as (_ & _ & Hh). apply (Hr o); [apply Hin; by exists key|]. by eexists.
Qed.

(** The class [rt_object_get_type] answers, for a header as [rt_object_init]
    leaves it. *)
Lemma class_of_type c :
  Z.land (Z.lor (class_code c) RT_Object_Class_Static) (Z.lnot RT_Object_Class_Static) = class_code c.
Proof. by destruct c. Qed.
Lemma static_type c : (Z.land (Z.lor (class_code c) RT_Object_Class_Static) RT_Object_Class_Static =? 0) = false.
Proof. by destruct c. Qed.

(** ** Operations *)

Record reg_sys (g : typing) (k : kernel) : Prop := {
  rs_kinv : kinv k;
  rs_current : exists c, rt_current_thread (k_sched k) = Some c;
  rs_lock : 0 <= rt_scheduler_lock_nest (k_sched k) < 32767;
  rs_typed : typed g (k_obj k)
}.

Lemma reg_rescheduled g g' k s' st :
  reg_sys g k -> rescheduled k s' -> kinv (set_k_sched s' k) -> typed g' st -> reg_sys g' (set_k_obj st (set_k_sched s' k)).
Proof.
  intros [Hk [c Hc] Hn _] [Hs Hl] Hk' Ht. split; simpl; [by apply kinv_obj| |by rewrite Hl|done].
  destruct Hs as [(_ & Hc' & _)| ->]; [done|by exists c].
Qed.

Lemma reg_same g k s' :
  reg_sys g k -> rescheduled k s' -> kinv (set_k_sched s' k) -> reg_sys g (set_k_sched s' k).
Proof. intros Hr Hs Hk. apply (reg_rescheduled g g k s' (k_obj k)); [done..|apply Hr]. Qed.

Lemma reg_here g k st g' : reg_sys g k -> typed g' st -> reg_sys g' (set_k_obj st k).
Proof. intros [H1 H2 H3 _] Ht. split; simpl; [by apply kinv_obj|done|done|done]. Qed.

Lemma set_k_obj_id k : set_k_obj (k_obj k) k = k.
Proof. by destruct k. Qed.

(** A question changes nothing. *)
Lemma wp_question {A} (m : M obj_st A) (f : A -> obj_res) g k op :
  reg_sys g k -> retype g op = g -> wp m (k_obj k) (fun a st => st = k_obj k /\ answers g op (f a)) ->
  wp (a ← in_obj m; mret (f a)) k (fun r k' => answers g op r /\ reg_sys (retype g op) k').
Proof.
  intros Hr Hg Hm. wp_step. apply wp_in_obj. eapply wp_mono; [exact Hm|]. intros a st [-> Ha]. wp_step. by rewrite Hg, set_k_obj_id.
Qed.

Lemma class_members g st c : typed g st -> of_class g c (default [] (container_of c (containers st))).
Proof.
  intros Ht. destruct (container_of c (containers st)) as [l|] eqn:El; [by apply (ty_members _ _ Ht)|]. simpl.
  split; [constructor|]. intros o. rewrite elem_of_nil. split; [done|]. intros [key Hk].
  destruct (ty_headers _ _ Ht _ _ _ Hk) as (Hc & _). destruct (typed_container _ _ _ Ht Hc) as [l Hl]. congruence.
Qed.

Lemma wp_get_pointers g st c maxlen : typed g st ->
  wp (rt_object_get_pointers c maxlen) st (fun l st' => st' = st /\ answers g (OpPointers c maxlen) (Pointers l)).
Proof.
  intros Ht. pose proof (class_members g st c Ht) as Hm. unfold rt_object_get_pointers, rt_object_get_information.
  destruct (Z.leb_spec maxlen 0).
  - wp_steps. split; [done|]. eexists. split; [exact Hm|]. simpl. lia.
  - wp_steps. split; [done|]. simpl. destruct (container_of c (containers st)) as [l|]; simpl in Hm.
    + exists (drop (Z.to_nat maxlen) l). rewrite take_drop. split; [done|]. rewrite length_take. split; [lia|].
      intros Hne. assert (Z.to_nat maxlen < length l)%nat; [|lia].
      destruct (decide (Z.to_nat maxlen < length l)%nat); [done|]. by rewrite drop_ge in Hne by lia.
    + exists []. split; [done|]. split; [simpl; lia|done].
Qed.

Lemma op_answers g op k : reg_sys g k -> allowed g op ->
  wp (run_op op) k (fun r k' => answers g op r /\ reg_sys (retype g op) k').
Proof.
  intros Hr Ha. pose proof Hr as [Hk [c0 Hc0] Hn Ht]. pose proof Ht as [H1 H2 H3].
  destruct op as [o c nm|o|nm c|c|c maxlen|o|o]; cbn [run_op].
  - destruct Ha as (Hg & Hc & Hnm). destruct (typed_container _ _ _ Ht Hc) as [l Hl]. pose proof Hnm as [_ [key Hkey]].
    wp_step. apply (wp_object_init_at o c nm (key_of nm) l c0); [done|done|done|by unfold key_of; rewrite Hkey| |done|].
    { intros Hlk. apply (typed_linked g) in Hlk; [|done]. rewrite Hg in Hlk. by destruct Hlk. }
    intros s' Hs' Hk'. wp_step. split; [done|]. apply (reg_rescheduled g); [done..|]. by apply typed_init.
  - destruct Ha as [[c key] Hg]. destruct (H3 _ _ _ Hg) as (_ & _ & Hh). wp_step. apply wp_in_obj.
    unfold rt_object_detach, get_header, object_unlink. wp_steps. eapply wp_deref; [exact Hh|]. wp_steps. simpl.
    split; [done|]. apply (reg_here g); [done|]. by apply typed_detach.
  - wp_step. destruct (container_of c (containers (k_obj k))) as [l|] eqn:El.
    + destruct (typed_search g _ c l nm Ht El Ha) as (r & E & Hans).
      eapply (wp_object_find nm c l r c0); [done..|]. intros s' Hs' Hk'. wp_step. split; [done|]. by apply reg_same.
    + unfold rt_object_find, rt_object_get_information. wp_step. apply wp_in_obj. wp_step. rewrite El, set_k_obj_id. wp_steps.
      split; [|done]. simpl. intros o Ho. destruct (H3 _ _ _ Ho) as (Hc & _).
      destruct (typed_container _ _ _ Ht Hc) as [l Hl]. by rewrite El in Hl.
  - apply (wp_question (rt_object_get_length c) Count); [done|done|].
    unfold rt_object_get_length, rt_object_get_information. wp_steps. split; [done|]. pose proof (class_members g _ c Ht) as Hm.
    eexists. split; [exact Hm|]. by destruct (container_of c (containers (k_obj k))).
  - apply (wp_question (rt_object_get_pointers c maxlen) Pointers); [done|done|]. by apply wp_get_pointers.
  - destruct Ha as [[c key] Hg]. destruct (H3 _ _ _ Hg) as (_ & _ & Hh).
    apply (wp_question (rt_object_get_type o) Code); [done|done|]. unfold rt_object_get_type, get_header. wp_steps.
    eapply wp_deref; [exact Hh|]. wp_steps. split; [done|]. exists c, key. split; [done|]. apply class_of_type.
  - destruct Ha as [[c key] Hg]. destruct (H3 _ _ _ Hg) as (_ & _ & Hh).
    apply (wp_question (rt_object_is_systemobject o) System); [done|done|]. unfold rt_object_is_systemobject, get_header. wp_steps.
    eapply wp_deref; [exact Hh|]. wp_steps. split; [done|]. simpl. by rewrite static_type.
Qed.

(** C20. The registry is typed: along every sequence of initialisations of new
    objects, detachments, searches and questions, for all classes of kernel
    objects, no call faults and the headers and containers stay in agreement
    with a typing: an object is in the container of its class and in no other,
    once, its header carries this class, the static flag and a proper
    name.  The answers follow the typing: a search finds an object of the class with
    this name, up to twelve bytes, or there is none; length and pointers
    are those of the objects of the class; the type is the class the
    object was initialised with. *)
Theorem objects_typed ops g k : reg_sys g k -> all_allowed g ops ->
  wp (run_ops ops) k (fun rs k' => all_answer g ops rs /\ reg_sys (foldl retype g ops) k').
Proof.
  revert g k. induction ops as [|op ops IH]; intros g k Hr; cbn [all_allowed run_ops].
  - intros _. by wp_step.
  - intros [Ha Hrest]. wp_step. eapply wp_mono; [by apply op_answers|]. intros r k1 [Hans Hr1].
    wp_step. eapply wp_mono; [by apply IH|]. intros rs k2 [Hall Hr2]. wp_step. by split.
Qed.

(** ** A concrete run *)

Definition sem1 : list Z := [115; 101; 109; 49; 0].
Definition demo_ops : list obj_op :=
  [OpInit (Obj 7) RT_Object_Class_Semaphore sem1; OpInit (Obj 8) RT_Object_Class_Mutex sem1;
   OpInit (ThreadTimer 7) RT_Object_Class_Timer sem1; OpFind sem1 RT_Object_Class_Semaphore;
   OpDetach (Obj 7); OpFind sem1 RT_Object_Class_Semaphore; OpType (Obj 8); OpLength RT_Object_Class_Timer].

Lemma demo_reg_sys : reg_sys ∅ (i_kernel demo_ipc).
Proof.
  split; [exact demo_ipc_kinv|by eexists|done|]. split; [reflexivity| |].
  - intros c l Hl. assert (l = []) as -> by (destruct c; vm_compute in Hl; congruence).
    split; [constructor|]. intros o. rewrite elem_of_nil. split; [done|]. intros [key Hk]. by rewrite lookup_empty in Hk.
  - intros o c key Hk. by rewrite lookup_empty in Hk.
Qed.

Lemma objects_typed_witness :
  exists k', run_ops demo_ops (i_kernel demo_ipc) =
    Some ([Done; Done; Done; Found (Some (Obj 7)); Done; Found None; Code 3; Count 1], k') /\
    exists g, reg_sys g k' /\ g !! Obj 8 = Some (RT_Object_Class_Mutex, key_of sem1).
Proof.
  assert (all_allowed ∅ demo_ops) as Ha.
  { assert (name_good sem1) as Hn.
    { split; [repeat constructor; vm_compute; congruence|by eexists]. }
    cbn [all_allowed demo_ops allowed retype]. split_and!; try done; try (vm_compute; eexists; reflexivity);
      apply (bool_decide_unpack _); vm_compute; exact I. }
  destruct (proj1 (wp_Some _ _ _) (objects_typed demo_ops ∅ (i_kernel demo_ipc) demo_reg_sys Ha)) as (rs & k' & E & _ & Hr).
  exists k'. split.
  - assert (fst <$> run_ops demo_ops (i_kernel demo_ipc) =
      Some [Done; Done; Done; Found (Some (Obj 7)); Done; Found None; Code 3; Count 1]) as E' by (vm_compute; reflexivity).
    rewrite E in E' |- *. injection E' as ->. reflexivity.
  - eexists. split; [exact Hr|]. reflexivity.
Defined.

End Objects.
