(* ===== verification/Mutex.v ===== *)
(** * Mutexes

    Model of the mutex of [rt-thread/src/ipc.c]: recursive locking, hand-over
    to the first waiting thread, and the priority inheritance done when a
    thread blocks and undone when the mutex is released.  The calls of
    [rt_thread_control(RT_THREAD_CTRL_CHANGE_PRIORITY)] are
    [thread_change_priority] of file Thread. *)
From stdpp Require Import base list gmap sorting.
From Stdlib Require Import ZArith Lia.
From S2P Require Import Prelude Scheduler Object Timer Thread Ipc.

Module Mutex.
Import Sched Obj Thr Ipc.

Definition get_mutex (o : oid) : M ipc rt_mutex := m ← gets mutexes; deref (m !! o).
Definition put_mutex (o : oid) (m : rt_mutex) : M ipc unit :=
  modify (fun i => set_mutexes (<[o := m]> (mutexes i)) i).

Definition priority_of (t : oid) : M ipc Z :=
  th ← in_kernel (in_sched (get_thread t)); mret (current_priority th).

Definition change_priority (t : oid) (p : Z) : M ipc unit :=
  in_kernel (thread_change_priority t p).

Definition rt_mutex_init (o : oid) (nm : list Z) (flag : Z) : M ipc Z :=
  in_kernel (rt_object_init (Obj o) RT_Object_Class_Mutex nm);;
  in_kernel (in_sched (rt_ipc_object_init o));;
  put_mutex o (mk_mutex flag 1 0xff 0 None);;
  mret RT_EOK.

Definition rt_mutex_detach (fuel : nat) (o : oid) : M ipc Z :=
  in_kernel (rt_ipc_list_resume_all fuel (LSusp o));;
  in_kernel (in_obj (rt_object_detach (Obj o)));;
  mret RT_EOK.

Section Take.
Context (timer_thread : oid).

Definition rt_mutex_take (o : oid) (time : Z) : M ipc (outcome oid Z) :=
  thread ← self;
  reset_error thread RT_EOK;;
  mutex ← get_mutex o;
  if bool_decide (owner mutex = Some thread) then
    if hold mutex <? RT_MUTEX_HOLD_MAX then
      put_mutex o (set_hold (hold mutex + 1) mutex);; mret (Returned RT_EOK)
    else mret (Returned (- RT_EFULL))
  else if 0 <? mutex_value mutex then
    prio ← priority_of thread;
    let mutex1 := set_original_priority prio (set_owner (Some thread)
                    (set_mutex_value (mutex_value mutex - 1) mutex)) in
    put_mutex o mutex1;;
    if hold mutex1 <? RT_MUTEX_HOLD_MAX then
      put_mutex o (set_hold (hold mutex1 + 1) mutex1);; mret (Returned RT_EOK)
    else mret (Returned (- RT_EFULL))
  else if time =? 0 then
    reset_error thread (- RT_ETIMEOUT);;
    mret (Returned (- RT_ETIMEOUT))
  else
    prio ← priority_of thread;
    own ← deref (owner mutex);
    oprio ← priority_of own;
    when (prio <? oprio) (change_priority own prio);;
    wait_on timer_thread (LSusp o) thread (mutex_flag mutex) time;;
    mret (Waiting thread).

Definition rt_mutex_take_resumed (thread : oid) : M ipc Z :=
  e ← thread_error thread;
  if negb (e =? RT_EOK) then mret e else mret RT_EOK.

End Take.

(** The part of [rt_mutex_release] after the last [hold] is given back: hand
    the mutex to the first waiting thread, or free it.  The boolean is
    [need_schedule]; the mutex is read again after each call. *)
Definition mutex_hand_over (o : oid) : M ipc (Z * bool) :=
  waiter ← has_waiter (LSusp o);
  mutex ← get_mutex o;
  if waiter : bool then
    xs ← in_kernel (in_sched (get_list (LSusp o)));
    thread ← deref (head xs);
    prio ← priority_of thread;
    put_mutex o (set_original_priority prio (set_owner (Some thread) mutex));;
    max_priority_in_queue ← in_kernel (in_sched (rt_ipc_get_highest_priority (LSusp o)));
    when ((mutex_flag mutex =? RT_IPC_FLAG_FIFO) && negb (prio =? u8 max_priority_in_queue))
      (change_priority thread (u8 max_priority_in_queue));;
    mutex ← get_mutex o;
    if hold mutex <? RT_MUTEX_HOLD_MAX then
      put_mutex o (set_hold (hold mutex + 1) mutex);;
      in_kernel (rt_ipc_list_resume (LSusp o));;
      mret (RT_EOK, true)
    else mret (- RT_EFULL, false)
  else if mutex_value mutex <? RT_MUTEX_VALUE_MAX then
    put_mutex o (set_original_priority 0xff (set_owner None
                   (set_mutex_value (mutex_value mutex + 1) mutex)));;
    mret (RT_EOK, false)
  else mret (- RT_EFULL, false).

Definition rt_mutex_release (o : oid) : M ipc Z :=
  thread ← self;
  mutex ← get_mutex o;
  if bool_decide (owner mutex <> Some thread) then
    reset_error thread (- RT_ERROR);;
    mret (- RT_ERROR)
  else
    let mutex1 := set_hold (u8 (hold mutex - 1)) mutex in
    put_mutex o mutex1;;
    '(r, need_schedule) ←
      (if hold mutex1 =? 0 then
         oprio ← priority_of thread;
         when (negb (original_priority mutex1 =? oprio)) (change_priority thread (original_priority mutex1));;
         mutex_hand_over o
       else mret (RT_EOK, false));
    when need_schedule schedule;;
    mret r.

Definition rt_mutex_control (o : oid) (cmd arg : Z) : M ipc Z := mret (- RT_ERROR).

(** ** Changing the priority of a thread *)

(** [th'] is [th] with priority [p]. *)
Definition reprioritised (p : Z) (th th' : rt_thread) : Prop :=
  stat_of th' = stat_of th /\ current_priority th' = p /\ number_mask th' = 2 ^ p /\
  error th' = error th /\ init_priority th' = init_priority th /\
  event_set th' = event_set th /\ event_info th' = event_info th /\
  init_tick th' = init_tick th /\ remaining_tick th' = remaining_tick th.

Definition prio_th (p : Z) (th : rt_thread) : rt_thread :=
  set_number_mask (2 ^ p) (set_current_priority p th).

Lemma wp_set_priority t th p k (Q : unit -> kernel -> Prop) :
  threads (k_sched k) !! t = Some th -> 0 <= p < RT_THREAD_PRIORITY_MAX ->
  Q tt (set_k_sched (upd_st t (prio_th p th) (k_sched k)) k) -> wp (set_priority t p) k Q.
Proof.
  intros Ht Hp HQ. unfold set_priority. wp_step. apply wp_in_sched. eapply wp_upd_thread; [done|].
  wp_step. eapply (wp_deref _ (2 ^ p)).
  { unfold priority_mask, RT_THREAD_PRIORITY_MAX in *. rewrite Z.shiftl_1_l.
    destruct (0 <=? p) eqn:?, (p <? 32) eqn:?; simpl; try done; lia. }
  apply wp_in_sched. eapply wp_upd_thread; [apply lookup_insert_eq|]. simpl. rewrite insert_insert_eq. exact HQ.
Qed.

Lemma reprio_idle_inv t th p s :
  sched_inv s -> threads s !! t = Some th -> stat_of th <> RT_THREAD_READY ->
  0 <= p < RT_THREAD_PRIORITY_MAX -> sched_inv (upd_st t (prio_th p th) s).
Proof.
  intros [Hs Hi] Ht Hn Hp. split.
  - destruct Hs. split; try done; simpl; intros; apply lookup_insert_is_Some'; right; eauto.
  - intros x xh Hx _. simpl in Hx. destruct (decide (x = t)) as [->|].
    + rewrite lookup_insert_eq in Hx. injection Hx as <-.
      destruct (Hi t th Ht ltac:(tauto)) as (H1 & H2 & H3 & H4 & H5).
      assert (stat_of (prio_th p th) = stat_of th) as E by done.
      unfold thread_ok. rewrite E. split_and!; [|done|done|done|done].
      intros l Hl. specialize (H1 l Hl). destruct l; simpl in *; [tauto|done..].
    + rewrite lookup_insert_ne in Hx by done. apply (Hi x xh Hx). tauto.
Qed.

Lemma reprio_ready_inv t th p s :
  sched_inv s -> threads s !! t = Some th -> stat_of th = RT_THREAD_READY ->
  0 <= p < RT_THREAD_PRIORITY_MAX ->
  sched_inv (readied_st t (prio_th p th) (upd_st t (prio_th p th) (removed_st t th s))).
Proof.
  intros Hinv Ht Est Hp. pose proof Hinv as [Hs Hi].
  pose proof (Hi t th Ht ltac:(tauto)) as Hok. pose proof Hok as (H1 & H2 & H3 & H4 & H5).
  eapply (inv_but_readied (fun x => False \/ x = t)).
  - eapply inv_but_upd; [|by rewrite removed_threads|by right].
    eapply inv_but_removed; [done|done|apply H5; stats|by apply ready_queue_of].
  - apply lookup_insert_eq.
  - done.
  - apply removed_not_attached.
  - simpl. rewrite removed_current. intros Hc. by destruct (H4 Hc).
  - tauto.
Qed.

(** What [thread_change_priority] does to the kernel. *)
Record reprio (t : oid) (th : rt_thread) (p : Z) (k : kernel) (s' : sched) : Prop := {
  rp_inv : kinv (set_k_sched s' k);
  rp_current : rt_current_thread s' = rt_current_thread (k_sched k);
  rp_self : exists th', threads s' !! t = Some th' /\ reprioritised p th th';
  rp_other : forall x, x <> t -> threads s' !! x = threads (k_sched k) !! x;
  rp_waits : same_waits (k_sched k) s'
}.

Lemma ready_not_waiting k t th l :
  kinv k -> threads (k_sched k) !! t = Some th -> stat_of th <> RT_THREAD_SUSPEND -> is_wait l ->
  t ∉ members (k_sched k) l.
Proof.
  intros Hk Ht Est Hw Hin. destruct (thread_ok_of k t th Hk Ht) as (H1 & _).
  specialize (H1 l Hin). by destruct l.
Qed.

Lemma change_priority_spec t th p k (Q : unit -> kernel -> Prop) :
  kinv k -> threads (k_sched k) !! t = Some th -> 0 <= p < RT_THREAD_PRIORITY_MAX ->
  (forall s', reprio t th p k s' -> Q tt (set_k_sched s' k)) ->
  wp (thread_change_priority t p) k Q.
Proof.
  intros Hk Ht Hp HQ. unfold thread_change_priority. wp_step. apply wp_in_sched. eapply wp_get_thread; [done|].
  rewrite set_k_sched_id. destruct (stat_of th =? RT_THREAD_READY) eqn:Est.
  - assert (stat_of th = RT_THREAD_READY) as E by lia. wp_step. apply wp_in_sched.
    eapply wp_schedule_remove_thread; [done| |].
    { apply (lo_rows _ (kinv_lists k Hk)), (started_prio k t th); [done|done|stats|stats]. }
    wp_step. apply (wp_set_priority t th); [simpl; by rewrite removed_threads|done|].
    pose proof (reprio_ready_inv t th p (k_sched k) (ki_sched k Hk) Ht E Hp) as Hinv.
    destruct (thread_ok_of k t th Hk Ht) as (_ & _ & _ & H4 & _).
    apply wp_in_sched. eapply wp_schedule_insert_thread; [apply lookup_insert_eq| | | |].
    + simpl. rewrite removed_current. intros Hc. by destruct (H4 Hc).
    + simpl. apply removed_dom. by apply (lo_rows _ (kinv_lists k Hk)).
    + apply removed_not_attached.
    + set (s' := readied_st t (prio_th p th) (upd_st t (prio_th p th) (removed_st t th (k_sched k)))) in *.
      assert (threads s' = <[t := with_stat RT_THREAD_READY (prio_th p th)]> (threads (k_sched k))) as Eth.
      { unfold s', readied_st. simpl. by rewrite removed_threads, insert_insert_eq. }
      apply (HQ s'). split.
      * apply kinv_sched; [done|done| |].
        -- intros x. rewrite Eth. apply insert_dom. eauto.
        -- intros x xh. rewrite Eth. intros [[-> <-]|[Hn Hx]]%lookup_insert_Some Hin; [|by apply (ki_wait k Hk x)].
           pose proof (ki_wait k Hk _ th Ht Hin). stats.
      * unfold s'. simpl. apply removed_current.
      * rewrite Eth, lookup_insert_eq. eexists. split; [done|].
        split; [rewrite E; by apply stat_of_with_stat|done].
      * intros x Hx. by rewrite Eth, lookup_insert_ne.
      * apply same_waits_of.
        -- intros l. unfold s', readied_st. simpl. rewrite lookup_insert_is_Some'. rewrite removed_dom.
           split; [|by right]. intros [<-|?]; [|done]. by apply (lo_rows _ (kinv_lists k Hk)).
        -- intros l Hl. unfold s'. rewrite readied_members, decide_False by (intros ->; done).
           trans (members (removed_st t th (k_sched k)) l); [done|]. rewrite removed_members.
           apply filter_ne_id. apply (ready_not_waiting k t th); [done|done|stats|done].
  - assert (stat_of th <> RT_THREAD_READY) as E by lia. apply (wp_set_priority t th); [done|done|].
    apply HQ. split; [|done| | |done].
    + apply kinv_sched; [done|by apply reprio_idle_inv; [apply Hk|..]| |].
      * intros x. apply insert_dom. eauto.
      * intros x xh. rewrite upd_threads. intros [[-> <-]|[Hn Hx]]%lookup_insert_Some Hin;
          [by apply (ki_wait k Hk x th)|by apply (ki_wait k Hk x)].
    + eexists. split; [apply lookup_insert_eq|]. done.
    + intros x Hx. simpl. by rewrite lookup_insert_ne.
Qed.

(** ** The abstract state of a mutex *)

Inductive mstate := Free | Held (own : oid) (n : Z) (q : list oid).

Definition waiters (st : mstate) : list oid :=
  match st with Free => [] | Held _ _ q => q end.

(** A started thread that has not ended. *)
Definition alive (th : rt_thread) : Prop := runnable th \/ stat_of th = RT_THREAD_SUSPEND.

Definition mutex_fields (st : mstate) (m : rt_mutex) : Prop :=
  match st with
  | Free => mutex_value m = 1 /\ owner m = None /\ hold m = 0
  | Held w n q => mutex_value m = 0 /\ owner m = Some w /\ hold m = n /\
      1 <= n <= RT_MUTEX_HOLD_MAX /\ 0 <= original_priority m < RT_THREAD_PRIORITY_MAX
  end.

Definition owner_ok (st : mstate) (s : sched) : Prop :=
  match st with
  | Free => True
  | Held w n q => w ∉ q /\ exists wh, threads s !! w = Some wh /\ alive wh
  end.

Record mutex_inv (o : oid) (st : mstate) (i : ipc) : Prop := {
  mi_kernel : kinv (i_kernel i);
  mi_current : exists c, rt_current_thread (i_sched i) = Some c;
  mi_mutex : exists m, mutexes i !! o = Some m /\ mutex_fields st m /\
    (mutex_flag m = RT_IPC_FLAG_FIFO \/ mutex_flag m = RT_IPC_FLAG_PRIO);
  mi_queue : tlists (i_sched i) !! LSusp o = Some (waiters st);
  mi_owner : owner_ok st (i_sched i);
  mi_errors : forall t, t ∈ waiters st -> has_error (i_sched i) RT_EOK t
}.

Lemma wp_get_mutex o m i (Q : rt_mutex -> ipc -> Prop) :
  mutexes i !! o = Some m -> Q m i -> wp (get_mutex o) i Q.
Proof. intros H HQ. unfold get_mutex. wp_steps. by eapply wp_deref. Qed.

Lemma wp_priority_of t th i (Q : Z -> ipc -> Prop) :
  threads (i_sched i) !! t = Some th -> Q (current_priority th) i -> wp (priority_of t) i Q.
Proof.
  intros Ht HQ. unfold priority_of. wp_step. apply wp_in_kernel, wp_in_sched. eapply wp_get_thread; [done|].
  wp_steps. by rewrite set_k_sched_id, set_i_kernel_id.
Qed.

Lemma alive_prio k t th : kinv k -> threads (k_sched k) !! t = Some th -> alive th -> prio_ok th.
Proof. intros Hk Ht [[E|E]|E]; apply (started_prio k t th); try done; stats. Qed.

Lemma runs_alive i c ch : runs i c ch -> alive ch.
Proof. intros (_ & _ & E). left. by right. Qed.

(** A change of the kernel that keeps the queue of the mutex and the threads on
    it. *)
Lemma mutex_inv_kernel o st st' i k' m' :
  mutex_inv o st i -> kinv k' -> (exists c, rt_current_thread (k_sched k') = Some c) ->
  tlists (k_sched k') !! LSusp o = Some (waiters st') ->
  mutex_fields st' m' -> (exists m, mutexes i !! o = Some m /\ mutex_flag m' = mutex_flag m) ->
  owner_ok st' (k_sched k') ->
  (forall t, t ∈ waiters st' -> has_error (k_sched k') RT_EOK t) ->
  mutex_inv o st' (set_mutexes (<[o := m']> (mutexes i)) (set_i_kernel k' i)).
Proof.
  intros [_ _ (m & Hm & _ & Hf) _ _ _] Hk' Hc' Hq' Hm' (m2 & Hm2 & Ef) Ho' He'. simplify_eq.
  split; simpl; [done|done| |done|done|done].
  exists m'. rewrite lookup_insert_eq, Ef. done.
Qed.

Lemma mutex_inv_kernel' o st st' i k' :
  mutex_inv o st i -> kinv k' -> (exists c, rt_current_thread (k_sched k') = Some c) ->
  tlists (k_sched k') !! LSusp o = Some (waiters st') ->
  (forall m, mutex_fields st m -> mutex_fields st' m) -> owner_ok st' (k_sched k') ->
  (forall t, t ∈ waiters st' -> has_error (k_sched k') RT_EOK t) ->
  mutex_inv o st' (set_i_kernel k' i).
Proof.
  intros [_ _ (m & Hm & Hfi & Hf) _ _ _] Hk' Hc' Hq' Hm' Ho' He'.
  split; simpl; [done|done| |done|done|done]. exists m. split_and!; [done|by apply Hm'|done].
Qed.

(** Clearing the error of the running thread. *)
Lemma not_queued o st i c ch : mutex_inv o st i -> runs i c ch -> c ∉ waiters st.
Proof.
  intros Hi (_ & Hc & Est). rewrite <- (members_Some _ _ _ (mi_queue _ _ _ Hi)).
  apply (running_not_listed _ c ch); [apply Hi|done|done].
Qed.

Lemma mutex_error_inv o st i c ch e :
  mutex_inv o st i -> runs i c ch -> mutex_inv o st (error_i c ch e i).
Proof.
  intros Hi Hr. pose proof (not_queued o st i c ch Hi Hr) as Hnq. pose proof Hr as (Hcur & Hc & Est).
  apply (mutex_inv_kernel' o st); [done|by apply error_kinv; [apply Hi|]|exists c; apply Hcur|apply Hi|done| |].
  - pose proof (mi_owner _ _ _ Hi) as Ho. destruct st as [|w n q]; [done|]. destruct Ho as [Hn (wh & Hw & Ha)].
    split; [done|]. destruct (decide (w = c)) as [->|Hwc].
    + eexists. split; [apply lookup_insert_eq|]. left. right. exact Est.
    + exists wh. simpl. by rewrite lookup_insert_ne.
  - intros t Ht. destruct (mi_errors _ _ _ Hi t Ht) as (th & Hth & E). exists th. simpl.
    rewrite lookup_insert_ne; [done|]. by intros ->.
Qed.

(** Changing the priority of a thread that does not wait for the mutex. *)
Lemma mutex_reprio_inv o st i t th p s' :
  mutex_inv o st i -> threads (i_sched i) !! t = Some th -> reprio t th p (i_kernel i) s' ->
  mutex_inv o st (set_i_kernel (set_k_sched s' (i_kernel i)) i).
Proof.
  intros Hi Ht [R1 R2 (th' & Hth' & Est & _ & _ & Ee & _) R4 R5].
  apply (mutex_inv_kernel' o st); [done|done| | |done| |]; simpl.
  - rewrite R2. apply Hi.
  - rewrite (R5 (LSusp o) I). apply Hi.
  - pose proof (mi_owner _ _ _ Hi) as Ho. destruct st as [|w n q]; [done|]. destruct Ho as [Hn (wh & Hw & Ha)].
    split; [done|]. destruct (decide (w = t)) as [->|].
    + simplify_eq. exists th'. split; [done|]. unfold alive, runnable in *. by rewrite Est.
    + exists wh. by rewrite R4.
  - intros x Hx. destruct (mi_errors _ _ _ Hi x Hx) as (xh & Hxh & E). destruct (decide (x = t)) as [->|].
    + simplify_eq. exists th'. by rewrite Ee.
    + exists xh. by rewrite R4.
Qed.

Lemma wp_change_priority t th p i (Q : unit -> ipc -> Prop) :
  kinv (i_kernel i) -> threads (i_sched i) !! t = Some th -> 0 <= p < RT_THREAD_PRIORITY_MAX ->
  (forall s', reprio t th p (i_kernel i) s' -> Q tt (set_i_kernel (set_k_sched s' (i_kernel i)) i)) ->
  wp (change_priority t p) i Q.
Proof. intros. apply wp_in_kernel. by apply (change_priority_spec t th). Qed.

(** ** Taking a mutex *)

(** The owner [w] has at least the priority [p] of a thread it blocks, and no
    more than the better of [p] and its own priority [p0]. *)
Definition inherits (s : sched) (w : oid) (p0 p : Z) : Prop :=
  exists wh, threads s !! w = Some wh /\ current_priority wh = Z.min p0 p.

Definition mutex_take_post (o : oid) (st : mstate) (time : Z) (c : oid) (ch : rt_thread) (i : ipc)
    (out : outcome oid Z) (i' : ipc) : Prop :=
  match st with
  | Free => out = Returned RT_EOK /\ mutex_inv o (Held c 1 []) i'
  | Held w n q =>
      if bool_decide (w = c) then
        if n <? RT_MUTEX_HOLD_MAX then out = Returned RT_EOK /\ mutex_inv o (Held c (n + 1) q) i'
        else out = Returned (- RT_EFULL) /\ mutex_inv o st i'
      else if time =? 0 then out = Returned (- RT_ETIMEOUT) /\ mutex_inv o st i'
      else out = Waiting c /\
        exists m wh pre post, mutexes i !! o = Some m /\ threads (i_sched i) !! w = Some wh /\
          queue_place (mutex_flag m) (current_priority ch) (threads (i_sched i)) q pre post /\
          mutex_inv o (Held w n (pre ++ c :: post)) i' /\
          inherits (i_sched i') w (current_priority wh) (current_priority ch) /\
          exists ch', threads (i_sched i') !! c = Some ch' /\ stat_of ch' = RT_THREAD_SUSPEND
  end.

Lemma frame_alive W k k' t th :
  woken_frame W k k' -> ~ W t -> threads (k_sched k) !! t = Some th -> alive th ->
  exists th', threads (k_sched k') !! t = Some th' /\ alive th' /\ same_task th th'.
Proof.
  intros Hf Hn Ht [Hr|Hs]; destruct (Hf t th Ht) as [H1 H2].
  - destruct (H2 Hn Hr) as (th' & ? & ? & ?). exists th'. split_and!; [done|by left|done..].
  - exists th. split_and!; [by apply H1, suspended_idle|by right|done..].
Qed.

Lemma put_mutex_twice o a b i :
  set_mutexes (<[o := a]> (mutexes (set_mutexes (<[o := b]> (mutexes i)) i))) (set_mutexes (<[o := b]> (mutexes i)) i) =
  set_mutexes (<[o := a]> (mutexes i)) i.
Proof. unfold set_mutexes. simpl. by rewrite insert_insert_eq. Qed.

Section TakeSpec.
Context (timer_thread : oid).

(** The part of a blocking take after the inheritance. *)
Lemma mutex_block_wp o w n q time c ch p m i (Q : unit -> ipc -> Prop) :
  mutex_inv o (Held w n q) i -> runs i c ch -> error ch = RT_EOK -> w <> c ->
  mutexes i !! o = Some m -> inherits (i_sched i) w p (current_priority ch) ->
  (forall pre post i', queue_place (mutex_flag m) (current_priority ch) (threads (i_sched i)) q pre post ->
     mutex_inv o (Held w n (pre ++ c :: post)) i' -> inherits (i_sched i') w p (current_priority ch) ->
     (exists ch', threads (i_sched i') !! c = Some ch' /\ stat_of ch' = RT_THREAD_SUSPEND) -> Q tt i') ->
  wp (wait_on timer_thread (LSusp o) c (mutex_flag m) time) i Q.
Proof.
  intros Hi Hr He Hwc Hm (wh & Hwh & Ep) HQ. pose proof Hr as (Hcur & Hc & Est).
  pose proof (not_queued _ _ _ _ _ Hi Hr) as Hnq. simpl in Hnq.
  destruct (mi_mutex _ _ _ Hi) as (m2 & Hm2 & Hfi & Hfl). simplify_eq.
  pose proof (mi_queue _ _ _ Hi) as Hq. simpl in Hq.
  destruct (mi_owner _ _ _ Hi) as [Hnw (wh2 & Hwh2 & Ha)]. simplify_eq.
  apply (wait_on_spec timer_thread (LSusp o) c ch (mutex_flag m) time q); [apply Hi|done..|].
  intros pre post k' Hp Hwt.
  destruct (frame_alive (fun x => x = c) _ k' w wh (w_frame _ _ _ _ _ _ _ Hwt) Hwc Hwh Ha) as (wh' & Hwh' & Ha' & _ & Ep' & _).
  apply (HQ pre post); [exact Hp| | |].
  - apply (mutex_inv_kernel' o (Held w n q)); [done|apply Hwt|apply Hwt|apply Hwt|done| |].
    + split; [|by exists wh']. destruct Hp as [-> _]. set_solver.
    + simpl. intros t Ht. destruct (decide (t = c)) as [->|Hn].
      { exists (with_stat RT_THREAD_SUSPEND ch). split; [apply Hwt|done]. }
      eapply (frame_error (fun x => x = c) _ _ RT_EOK q (i_kernel i) k'); [apply Hwt|done|done|apply Hi| |].
      * intros x Hx. split; [by intros ->|]. by eapply (waiter_of _ (LSusp o)); [apply Hi|..].
      * destruct Hp as [-> _]. set_solver.
  - exists wh'. split; [done|]. simpl. congruence.
  - exists (with_stat RT_THREAD_SUSPEND ch). split; [apply Hwt|by apply stat_of_with_stat].
Qed.

Lemma mutex_take_wp o st time c ch i :
  mutex_inv o st i -> runs i c ch ->
  wp (rt_mutex_take timer_thread o time) i (mutex_take_post o st time c ch i).
Proof.
  intros Hi Hr. pose proof Hr as (Hcur & Hc & Est). unfold rt_mutex_take.
  wp_step. apply (wp_self c); [done|]. wp_step. eapply wp_reset_error; [done|].
  pose proof (mutex_error_inv o st i c ch RT_EOK Hi Hr) as Hi1. pose proof (error_runs c ch RT_EOK i Hr) as Hr1.
  pose proof Hr1 as (Hcur1 & Hc1 & Est1).
  assert (forall x, x <> c -> threads (i_sched (error_i c ch RT_EOK i)) !! x = threads (i_sched i) !! x) as Hother
    by (intros x Hx; by apply lookup_insert_ne).
  assert (mutexes (error_i c ch RT_EOK i) = mutexes i) as Emi by done.
  set (i1 := error_i c ch RT_EOK i) in *. clearbody i1.
  destruct (mi_mutex _ _ _ Hi1) as (m & Hm & Hfi & Hfl).
  pose proof (not_queued _ _ _ _ _ Hi1 Hr1) as Hnq.
  assert (prio_ok ch) as Hpr by (eapply alive_prio; [apply Hi|exact Hc|by eapply runs_alive]).
  wp_step. eapply wp_get_mutex; [done|]. destruct st as [|w n q]; simpl in Hfi.
  - destruct Hfi as (Ev & Eo & Eh). rewrite Eo, Ev. simpl.
    wp_step. eapply wp_priority_of; [done|]. unfold put_mutex. wp_step. wp_step. rewrite Eh. simpl. wp_steps.
    split; [done|]. rewrite put_mutex_twice. rewrite <- (set_i_kernel_id i1) at 2.
    eapply (mutex_inv_kernel o Free); [done|apply Hi1|apply Hi1|apply Hi1| |by exists m| |simpl; set_solver].
    + simpl. split_and!; [done|done|done|lia|done|apply Hpr|apply Hpr].
    + split; [set_solver|]. eexists. split; [exact Hc1|by eapply runs_alive].
  - destruct Hfi as (Ev & Eo & Eh & Hn & Hop). rewrite Eo, Ev, Eh. unfold mutex_take_post. case_bool_decide as Ew.
    + injection Ew as ->. rewrite bool_decide_true by done. destruct (n <? RT_MUTEX_HOLD_MAX) eqn:En; [|by wp_steps].
      unfold put_mutex. wp_steps. split; [done|]. rewrite <- (set_i_kernel_id i1) at 2.
      eapply (mutex_inv_kernel o (Held c n q)); [done|apply Hi1|apply Hi1|apply Hi1| |by exists m|apply Hi1|apply Hi1].
      simpl. unfold RT_MUTEX_HOLD_MAX in *. split_and!; try done; lia.
    + rewrite bool_decide_false by congruence. simpl. destruct (time =? 0) eqn:Et.
      { wp_step. eapply wp_reset_error; [done|]. wp_steps. split; [done|]. by apply mutex_error_inv. }
      assert (w <> c) as Hwc by congruence.
      destruct (mi_owner _ _ _ Hi1) as [Hnw (wh & Hwh & Ha)].
      pose proof (alive_prio _ _ _ (mi_kernel _ _ _ Hi1) Hwh Ha) as Hpw.
      wp_step. eapply wp_priority_of; [done|]. wp_step. eapply wp_deref; [done|]. wp_step. eapply wp_priority_of; [done|].
      assert (forall x, x ∈ q -> x <> c) as Hqc by (intros x Hx ->; done).
      simpl (current_priority (set_error RT_EOK ch)).
      wp_step. apply wp_when; intros Ep.
      * eapply wp_change_priority; [apply Hi1|exact Hwh|apply Hpr|]. intros s' Hrp.
        pose proof (mutex_reprio_inv o _ i1 w wh _ s' Hi1 Hwh Hrp) as Hi2.
        assert (runs (set_i_kernel (set_k_sched s' (i_kernel i1)) i1) c (set_error RT_EOK ch)) as Hr2.
        { split_and!; [simpl; rewrite (rp_current _ _ _ _ _ Hrp); done|simpl; by rewrite (rp_other _ _ _ _ _ Hrp)|done]. }
        wp_step. eapply (mutex_block_wp o w n q time c (set_error RT_EOK ch) (current_priority wh) m); [exact Hi2|exact Hr2|done|done|exact Hm| |].
        { destruct (rp_self _ _ _ _ _ Hrp) as (wh' & Hwh' & _ & E & _). exists wh'. split; [done|]. simpl. lia. }
        intros pre post i' Hp Hi' Hin Hs. wp_steps. split; [done|]. exists m, wh, pre, post.
        split; [by rewrite <- Emi|]. split; [by rewrite <- Hother|]. split; [|done].
        eapply queue_place_ext; [|exact Hp]. intros x Hx. simpl. rewrite (rp_other _ _ _ _ _ Hrp), Hother; [done|by apply Hqc|].
        by intros ->.
      * wp_step. eapply (mutex_block_wp o w n q time c (set_error RT_EOK ch) (current_priority wh) m); [exact Hi1|exact Hr1|done|done|exact Hm| |].
        { exists wh. split; [done|]. simpl. lia. }
        intros pre post i' Hp Hi' Hin Hs. wp_steps. split; [done|]. exists m, wh, pre, post.
        split; [by rewrite <- Emi|]. split; [by rewrite <- Hother|]. split; [|done].
        eapply queue_place_ext; [|exact Hp]. intros x Hx. apply Hother, Hqc, Hx.
Qed.

End TakeSpec.

(** ** Releasing a mutex *)

Lemma highest_loop_spec ths xs p :
  (forall x, x ∈ xs -> is_Some (ths !! x)) ->
  exists r, highest_priority_loop ths xs p = Some r /\ r <= p /\
    (forall x xh, x ∈ xs -> ths !! x = Some xh -> r <= current_priority xh) /\
    (r = p \/ exists x xh, x ∈ xs /\ ths !! x = Some xh /\ r = current_priority xh).
Proof.
  revert p. induction xs as [|x xs IH]; intros p Hd.
  - exists p. split_and!; [done|lia|set_solver|by left].
  - destruct (Hd x ltac:(set_solver)) as [xh Hx]. simpl. rewrite Hx. simpl.
    destruct (IH (if p <? current_priority xh then p else current_priority xh)) as (r & E & Hr & Hall & Hmem); [set_solver|].
    exists r. split; [done|]. destruct (p <? current_priority xh) eqn:Ep.
    + split; [lia|]. split.
      * intros y yh [->|Hy]%elem_of_cons Hyh; [simplify_eq; lia|by eapply Hall].
      * destruct Hmem as [->|(y & yh & Hy & H)]; [by left|right]. exists y, yh. split; [set_solver|done].
    + split; [lia|]. split.
      * intros y yh [->|Hy]%elem_of_cons Hyh; [simplify_eq; lia|by eapply Hall].
      * right. destruct Hmem as [->|(y & yh & Hy & H)]; [exists x, xh|exists y, yh]; (split; [set_solver|done]).
Qed.

(** The best priority among the waiting threads. *)
Lemma wp_highest_priority l xs k (Q : Z -> sched -> Prop) :
  kinv k -> is_wait l -> tlists (k_sched k) !! l = Some xs -> xs <> [] ->
  (forall r, 0 <= r < RT_THREAD_PRIORITY_MAX ->
     (forall x xh, x ∈ xs -> threads (k_sched k) !! x = Some xh -> r <= current_priority xh) -> Q r (k_sched k)) ->
  wp (rt_ipc_get_highest_priority l) (k_sched k) Q.
Proof.
  intros Hk Hw Hl Hne HQ. unfold rt_ipc_get_highest_priority. wp_step. eapply wp_get_list; [done|]. wp_steps.
  destruct (highest_loop_spec (threads (k_sched k)) xs (RT_THREAD_PRIORITY_MAX - 1)) as (r & E & Hr & Hall & Hmem).
  { intros x Hx. destruct (waiter_of k l x xs Hk Hw Hl Hx) as (xh & -> & _). eauto. }
  eapply wp_deref; [done|]. apply HQ; [|done]. unfold RT_THREAD_PRIORITY_MAX in *.
  destruct Hmem as [->|(x & xh & Hx & Hxh & ->)]; [lia|].
  destruct (waiter_of k l x xs Hk Hw Hl Hx) as (xh2 & Hxh2 & Es). simplify_eq.
  destruct (alive_prio k x xh Hk Hxh ltac:(by right)) as [? _]. unfold RT_THREAD_PRIORITY_MAX in *. lia.
Qed.

(** After the last [hold] is given back: nobody holds the mutex yet. *)
Record giving (o c : oid) (ch : rt_thread) (q : list oid) (m : rt_mutex) (i : ipc) : Prop := {
  gv_kernel : kinv (i_kernel i);
  gv_runs : runs i c ch;
  gv_mutex : mutexes i !! o = Some m;
  gv_fields : mutex_value m = 0 /\ hold m = 0 /\
    (mutex_flag m = RT_IPC_FLAG_FIFO \/ mutex_flag m = RT_IPC_FLAG_PRIO);
  gv_queue : tlists (i_sched i) !! LSusp o = Some q;
  gv_errors : forall t, t ∈ q -> has_error (i_sched i) RT_EOK t
}.

(** The mutex has been given to [w]; its priority is the best of the queue of a
    FIFO mutex. *)
Definition given (o c : oid) (ch : rt_thread) (m : rt_mutex) (w : oid) (ws : list oid) (i' : ipc) : Prop :=
  mutex_inv o (Held w 1 ws) i' /\
  (exists ch', threads (i_sched i') !! c = Some ch' /\ runnable ch' /\
     current_priority ch' = current_priority ch) /\
  exists wh', threads (i_sched i') !! w = Some wh' /\ runnable wh' /\ error wh' = RT_EOK /\
    (mutex_flag m = RT_IPC_FLAG_FIFO -> forall y yh, y ∈ ws -> threads (i_sched i') !! y = Some yh ->
       current_priority wh' <= current_priority yh).

Lemma resume_gives o c ch w ws m1 m i (Q : Z -> ipc -> Prop) :
  kinv (i_kernel i) -> runs i c ch -> mutexes i !! o = Some m1 -> mutex_flag m1 = mutex_flag m ->
  mutex_fields (Held w 1 ws) m1 -> (mutex_flag m = RT_IPC_FLAG_FIFO \/ mutex_flag m = RT_IPC_FLAG_PRIO) ->
  tlists (i_sched i) !! LSusp o = Some (w :: ws) ->
  (forall t, t ∈ w :: ws -> has_error (i_sched i) RT_EOK t) ->
  (mutex_flag m = RT_IPC_FLAG_FIFO -> forall wh y yh, threads (i_sched i) !! w = Some wh -> y ∈ ws ->
     threads (i_sched i) !! y = Some yh -> current_priority wh <= current_priority yh) ->
  (forall i', given o c ch m w ws i' -> rt_current_thread (i_sched i') = Some c -> Q RT_EOK i') ->
  wp (in_kernel (rt_ipc_list_resume (LSusp o))) i Q.
Proof.
  intros Hk Hr Hm Efl Hfi Hfl Hq He Hbest HQ. pose proof Hr as (Hcur & Hc & Est).
  apply wp_in_kernel. apply (wp_ipc_list_resume (LSusp o) w ws c); [done..|].
  intros wh k' Hwh Es Hwk Hc'. apply HQ; [|done].
  destruct (wk_self _ _ _ _ _ _ Hwk) as (wh' & Hwh' & Hrw & Hst). pose proof Hst as (Eerr & Epr & _).
  pose proof (queue_nodup _ _ _ Hk Hq) as [Hni _]%NoDup_cons.
  assert (c ∉ w :: ws) as Hcq.
  { rewrite <- (members_Some _ _ _ Hq). by apply (running_not_listed _ c ch). }
  split; [|split].
  - split; simpl; [apply Hwk|apply Hwk|exists m1; rewrite Efl; done|apply Hwk| |].
    + split; [done|]. exists wh'. split; [done|by left].
    + exact (wakes_errors (LSusp o) w wh ws _ _ Hk I Hq Hwk He).
  - destruct (wk_frame _ _ _ _ _ _ Hwk c ch Hc) as [_ H]. destruct H as (ch' & ? & ? & _ & ? & _); [set_solver|by right|].
    by exists ch'.
  - exists wh'. split; [done|]. split; [done|]. destruct (He w ltac:(set_solver)) as (wh2 & Hwh2 & E2). simplify_eq.
    split; [congruence|]. intros Ef y yh Hy Hyh. rewrite Epr.
    destruct (waiter_of _ (LSusp o) y _ Hk I Hq ltac:(set_solver)) as (yh2 & Hyh2 & Ey).
    destruct (wk_frame _ _ _ _ _ _ Hwk y yh2 Hyh2) as [H _]. specialize (H ltac:(intros ->; done) (suspended_idle _ Ey)). simpl in Hyh.
    simplify_eq. by eapply Hbest.
Qed.

Lemma hand_over_wp o c ch q m i (Q : Z * bool -> ipc -> Prop) :
  giving o c ch q m i ->
  (forall i', match q with
     | [] => mutex_inv o Free i' /\ i_kernel i' = i_kernel i -> Q (RT_EOK, false) i'
     | w :: ws => given o c ch m w ws i' -> rt_current_thread (i_sched i') = Some c -> Q (RT_EOK, true) i'
     end) ->
  wp (mutex_hand_over o) i Q.
Proof.
  intros [Hk Hr Hm (Ev & Eh & Hfl) Hq He] HQ. pose proof Hr as (Hcur & Hc & Est). unfold mutex_hand_over.
  wp_step. eapply wp_has_waiter; [done|]. wp_step. eapply wp_get_mutex; [done|].
  destruct q as [|w ws]; simpl.
  - rewrite Ev. simpl. unfold put_mutex. wp_steps. apply HQ. split; [|done].
    split; simpl; [done|by exists c| |done|done|set_solver]. eexists. rewrite lookup_insert_eq. done.
  - wp_step. apply wp_in_kernel, wp_in_sched. eapply wp_get_list; [done|]. rewrite set_k_sched_id, set_i_kernel_id.
    wp_step. eapply wp_deref; [done|]. destruct (waiter_of _ (LSusp o) w _ Hk I Hq ltac:(set_solver)) as (wh & Hwh & Ew).
    pose proof (alive_prio _ _ _ Hk Hwh ltac:(by right)) as [Hpw _].
    wp_step. eapply wp_priority_of; [done|]. unfold put_mutex. wp_step. wp_step. wp_step. apply wp_in_kernel, wp_in_sched.
    set (m1 := set_original_priority (current_priority wh) (set_owner (Some w) m)).
    set (i1 := set_mutexes (<[o := m1]> (mutexes i)) i).
    apply (wp_highest_priority (LSusp o) (w :: ws) (i_kernel i)); [done..|]. intros r Hrr Hall.
    change (k_sched (i_kernel i)) with (k_sched (i_kernel i1)). rewrite set_k_sched_id, set_i_kernel_id.
    assert (u8 r = r) as -> by (apply uwrap_small; unfold RT_THREAD_PRIORITY_MAX in Hrr; c_lia).
    assert (mutex_fields (Held w 1 ws) (set_hold 1 m1)) as Hfi1.
    { split_and!; simpl; try done; unfold RT_MUTEX_HOLD_MAX; lia. }
    assert (c <> w) as Hcw.
    { intros ->. simplify_eq. stats. }
    wp_step. apply wp_when; intros Eb.
    + apply andb_true_iff in Eb as [Ef Enp]. eapply wp_change_priority; [done|exact Hwh|exact Hrr|].
      intros s' Hrp. wp_step. eapply wp_get_mutex; [apply lookup_insert_eq|].
      change (hold m1) with (hold m). rewrite Eh. simpl. wp_step. wp_step. wp_step.
      destruct (rp_self _ _ _ _ _ Hrp) as (wh1 & Hwh1 & R1 & R2 & R3 & R4 & _).
      eapply (resume_gives o c ch w ws (set_hold 1 m1) m).
      * apply Hrp.
      * split_and!; [simpl; by rewrite (rp_current _ _ _ _ _ Hrp)|simpl; by rewrite (rp_other _ _ _ _ _ Hrp)|done].
      * simpl. by rewrite insert_insert_eq, lookup_insert_eq.
      * done.
      * done.
      * done.
      * simpl. by rewrite (rp_waits _ _ _ _ _ Hrp (LSusp o) I).
      * intros t Ht. destruct (He t Ht) as (th & Hth & E). destruct (decide (t = w)) as [->|].
        -- simplify_eq. exists wh1. split; [done|]. congruence.
        -- exists th. simpl. by rewrite (rp_other _ _ _ _ _ Hrp).
      * intros _ wh2 y yh Hwh2 Hy Hyh. simpl in Hwh2, Hyh. simplify_eq.
        assert (y <> w) by (intros ->; by apply (queue_nodup _ _ _ Hk), NoDup_cons in Hq as [? _]).
        rewrite (rp_other _ _ _ _ _ Hrp) in Hyh by done. apply (Hall y); [set_solver|done].
      * intros i' Hg Hc'. wp_steps. by apply HQ.
    + wp_step. eapply wp_get_mutex; [apply lookup_insert_eq|].
      change (hold m1) with (hold m). rewrite Eh. simpl. wp_step. wp_step. wp_step.
      eapply (resume_gives o c ch w ws (set_hold 1 m1) m); try done.
      * simpl. by rewrite insert_insert_eq, lookup_insert_eq.
      * intros Ef wh2 y yh Hwh2 Hy Hyh. simpl in Hwh2, Hyh. simplify_eq.
        rewrite Ef in Eb. simpl in Eb. assert (current_priority wh = r) as -> by (destruct (current_priority wh =? r) eqn:?; [lia|done]).
        apply (Hall y); [set_solver|done].
Qed.

(** A change of the kernel in which only threads of [W] are woken. *)
Lemma mutex_inv_frame o st i k' q' (W : oid -> Prop) :
  mutex_inv o st i -> kinv k' -> (exists c, rt_current_thread (k_sched k') = Some c) ->
  tlists (k_sched k') !! LSusp o = Some q' -> (forall t, t ∈ q' -> t ∈ waiters st /\ ~ W t) ->
  woken_frame W (i_kernel i) k' ->
  match st with Free => q' = [] | Held w n q => ~ W w end ->
  mutex_inv o (match st with Free => Free | Held w n q => Held w n q' end) (set_i_kernel k' i).
Proof.
  intros Hi Hk' Hc' Hq' Hsub Hf Hst. pose proof Hi as [Hk _ _ Hq Ho He].
  assert (forall t, t ∈ q' -> has_error (k_sched k') RT_EOK t) as He'.
  { eapply (frame_error W (i_sched i) _ RT_EOK q' (i_kernel i) k'); [done..| |].
    - intros t Ht. apply He, Hsub, Ht.
    - intros t Ht. destruct (Hsub t Ht). split; [done|]. by eapply (waiter_of _ (LSusp o)). }
  destruct st as [|w n q].
  - subst q'. by apply (mutex_inv_kernel' o Free).
  - apply (mutex_inv_kernel' o (Held w n q)); try done.
    destruct Ho as [Hn (wh & Hwh & Ha)]. split; [intros Hin; by apply Hn, Hsub|].
    destruct (frame_alive W _ k' w wh Hf Hst Hwh Ha) as (wh' & ? & ? & _). by exists wh'.
Qed.

Lemma mutex_scheduled o st i s' :
  mutex_inv o st i -> scheduled (i_kernel i) s' ->
  mutex_inv o st (set_i_kernel (set_k_sched s' (i_kernel i)) i).
Proof.
  intros Hi (H1 & H2 & H3 & H4).
  pose proof (mutex_inv_frame o st i (set_k_sched s' (i_kernel i)) (waiters st) (fun _ => False) Hi H1 H2) as H.
  assert (mutex_inv o (match st with Free => Free | Held w n q => Held w n (waiters st) end)
            (set_i_kernel (set_k_sched s' (i_kernel i)) i)) as Hx; [|by destruct st].
  apply H; [|tauto|done|destruct st; [done|tauto]]. simpl. rewrite (H4 (LSusp o) I). apply Hi.
Qed.

Definition mutex_release_post (o : oid) (st : mstate) (c : oid) (i : ipc) (r : Z) (i' : ipc) : Prop :=
  match st with
  | Free => r = - RT_ERROR /\ mutex_inv o Free i'
  | Held w n q =>
      if bool_decide (w <> c) then r = - RT_ERROR /\ mutex_inv o st i'
      else if 1 <? n then r = RT_EOK /\ mutex_inv o (Held c (n - 1) q) i' /\ i_kernel i' = i_kernel i
      else r = RT_EOK /\ exists m, mutexes i !! o = Some m /\
        (exists ch', threads (i_sched i') !! c = Some ch' /\ runnable ch' /\
           current_priority ch' = original_priority m) /\
        match q with
        | [] => mutex_inv o Free i'
        | x :: ws => mutex_inv o (Held x 1 ws) i' /\
            exists xh', threads (i_sched i') !! x = Some xh' /\ runnable xh' /\ error xh' = RT_EOK /\
              (mutex_flag m = RT_IPC_FLAG_FIFO -> forall y yh, y ∈ ws ->
                 threads (i_sched i') !! y = Some yh -> current_priority xh' <= current_priority yh)
        end
  end.

Lemma given_scheduled o c ch m w ws i s' :
  given o c ch m w ws i -> scheduled (i_kernel i) s' ->
  given o c ch m w ws (set_i_kernel (set_k_sched s' (i_kernel i)) i).
Proof.
  intros (Hi & (ch' & Hc & Hr & Ep) & wh & Hwh & Hrw & Ee & Hb) Hs. pose proof Hs as (H1 & H2 & H3 & H4).
  split; [by apply mutex_scheduled|].
  assert (forall x xh, threads (i_sched i) !! x = Some xh -> runnable xh ->
    exists xh', threads s' !! x = Some xh' /\ runnable xh' /\ same_task xh xh') as Hf.
  { intros x xh Hx Hrx. by apply (H3 x xh Hx); [tauto|]. }
  split.
  - destruct (Hf c ch' Hc Hr) as (ch2 & ? & ? & _ & E & _). exists ch2. split_and!; [done|done|congruence].
  - destruct (Hf w wh Hwh Hrw) as (wh2 & ? & ? & E1 & E2 & _). exists wh2. split_and!; [done|done|congruence|].
    intros Ef y yh Hy Hyh. rewrite E2.
    destruct (waiter_of _ (LSusp o) y _ (mi_kernel _ _ _ Hi) I (mi_queue _ _ _ Hi) Hy) as (yh2 & Hyh2 & Ey).
    destruct (H3 y yh2 Hyh2) as [Hsame _]. specialize (Hsame ltac:(tauto) (suspended_idle _ Ey)). simpl in *. simplify_eq.
    by eapply Hb.
Qed.

Lemma giving_of o c ch n q m i :
  mutex_inv o (Held c n q) i -> runs i c ch -> mutexes i !! o = Some m ->
  giving o c ch q (set_hold 0 m) (set_mutexes (<[o := set_hold 0 m]> (mutexes i)) i).
Proof.
  intros Hi Hr Hm. destruct (mi_mutex _ _ _ Hi) as (m2 & Hm2 & (Ev & Eo & Eh & Hn & Hop) & Hfl). simplify_eq.
  split; [apply Hi|done|apply lookup_insert_eq|done|apply Hi|apply Hi].
Qed.

Lemma giving_reprio o c ch q m i p s' :
  giving o c ch q m i -> reprio c ch p (i_kernel i) s' ->
  exists ch', giving o c ch' q m (set_i_kernel (set_k_sched s' (i_kernel i)) i) /\ current_priority ch' = p.
Proof.
  intros [Hk Hr Hm Hfi Hq He] Hrp. pose proof Hr as (Hcur & Hc & Est).
  destruct (rp_self _ _ _ _ _ Hrp) as (ch' & Hc' & R1 & R2 & _). exists ch'. split; [|done].
  split; simpl; [apply Hrp| |done|done|by rewrite (rp_waits _ _ _ _ _ Hrp (LSusp o) I)|].
  - split_and!; [simpl; by rewrite (rp_current _ _ _ _ _ Hrp)|done|congruence].
  - intros t Ht. destruct (He t Ht) as (th & Hth & E). exists th. rewrite (rp_other _ _ _ _ _ Hrp); [done|].
    intros ->. apply (running_not_listed _ c ch (LSusp o) Hk Hc Est). by rewrite (members_Some _ _ _ Hq).
Qed.

Lemma mutex_release_wp o st c ch i :
  mutex_inv o st i -> runs i c ch ->
  wp (rt_mutex_release o) i (mutex_release_post o st c i).
Proof.
  intros Hi Hr. pose proof Hr as (Hcur & Hc & Est). unfold rt_mutex_release.
  wp_step. apply (wp_self c); [done|]. destruct (mi_mutex _ _ _ Hi) as (m & Hm & Hfi & Hfl).
  wp_step. eapply wp_get_mutex; [done|]. destruct st as [|w n q].
  { destruct Hfi as (_ & -> & _). rewrite bool_decide_true by done. wp_step. eapply wp_reset_error; [done|].
    wp_steps. split; [done|]. by apply mutex_error_inv. }
  pose proof Hfi as (Ev & Eo & Eh & Hn & Hop). rewrite Eo. unfold mutex_release_post.
  destruct (decide (w = c)) as [->|Hwc].
  2: { rewrite !bool_decide_true by congruence. wp_step. eapply wp_reset_error; [done|].
       wp_steps. split; [done|]. by apply mutex_error_inv. }
  rewrite !bool_decide_false by tauto. unfold RT_MUTEX_HOLD_MAX in *.
  assert (u8 (hold m - 1) = n - 1) as -> by (rewrite Eh; apply uwrap_small; c_lia).
  unfold put_mutex. wp_step. wp_step. cbn [hold set_hold].
  destruct (1 <? n) eqn:E1.
  { assert ((n - 1 =? 0) = false) as -> by lia. wp_steps. simpl. split; [done|]. split; [|done].
    rewrite <- (set_i_kernel_id i) at 2.
    eapply (mutex_inv_kernel o (Held c n q)); [done|apply Hi|apply Hi|apply Hi| |by exists m|apply Hi|apply Hi].
    split_and!; simpl; try done; unfold RT_MUTEX_HOLD_MAX; lia. }
  assert (n = 1) as -> by lia. change (1 - 1) with 0. simpl (0 =? 0). cbv iota.
  pose proof (giving_of o c ch 1 q m i Hi Hr Hm) as Hg.
  set (i1 := set_mutexes (<[o := set_hold 0 m]> (mutexes i)) i) in *.
  change (original_priority (set_hold 0 m)) with (original_priority m).
  assert (forall ch1 i2, giving o c ch1 q (set_hold 0 m) i2 -> current_priority ch1 = original_priority m ->
    wp (mutex_hand_over o) i2 (fun a s => wp (let '(r, need) := a in when need schedule;; mret r) s
      (fun r i' => r = RT_EOK /\ exists m0, mutexes i !! o = Some m0 /\
        (exists ch', threads (i_sched i') !! c = Some ch' /\ runnable ch' /\
           current_priority ch' = original_priority m0) /\
        match q with
        | [] => mutex_inv o Free i'
        | x :: ws => mutex_inv o (Held x 1 ws) i' /\
            exists xh', threads (i_sched i') !! x = Some xh' /\ runnable xh' /\ error xh' = RT_EOK /\
              (mutex_flag m0 = RT_IPC_FLAG_FIFO -> forall y yh, y ∈ ws ->
                 threads (i_sched i') !! y = Some yh -> current_priority xh' <= current_priority yh)
        end))) as Htail.
  { intros ch1 i2 Hg2 Ep. eapply hand_over_wp; [exact Hg2|]. intros i'. destruct q as [|x ws].
    - intros [Hi' Ek]. simpl. wp_steps. split; [done|]. exists m. split; [done|]. split; [|done].
      exists ch1. rewrite Ek. destruct (gv_runs _ _ _ _ _ _ Hg2) as (_ & H1 & H2). split_and!; [done|by right|done].
    - intros Hgv Hcur'. simpl. wp_step. apply (wp_schedule c); [apply Hgv|done|]. intros s' Hs'. wp_steps.
      destruct (given_scheduled _ _ _ _ _ _ _ _ Hgv Hs') as (G1 & (ch' & G2 & G3 & G4) & G5).
      split; [done|]. exists m. split; [done|]. split; [|by split]. exists ch'. split_and!; [done|done|congruence]. }
  wp_step. wp_step. eapply wp_priority_of; [exact Hc|]. wp_step. apply wp_when; intros Eb.
  - eapply wp_change_priority; [apply Hi|exact Hc|done|]. intros s' Hrp.
    destruct (giving_reprio o c ch q _ i1 _ s' Hg Hrp) as (ch1 & Hg2 & Ep). by apply (Htail ch1).
  - apply (Htail ch); [done|]. destruct (original_priority m =? current_priority ch) eqn:?; [lia|done].
Qed.

(** ** Histories of a mutex *)

Inductive mevent := Lock (t : oid) | Block (t : oid) | Unlock (t : oid) | Denied (t : oid)
  | Expire (t : oid) | Resched.

(** What a mutex promises: the transitions of its abstract state. *)
Inductive abs_step : mstate -> mevent -> mstate -> Prop :=
| abs_lock t : abs_step Free (Lock t) (Held t 1 [])
| abs_relock t n q : n < RT_MUTEX_HOLD_MAX -> abs_step (Held t n q) (Lock t) (Held t (n + 1) q)
| abs_block t w n pre post : w <> t -> t ∉ pre ++ post ->
    abs_step (Held w n (pre ++ post)) (Block t) (Held w n (pre ++ t :: post))
| abs_unlock t n q : 1 < n -> abs_step (Held t n q) (Unlock t) (Held t (n - 1) q)
| abs_free t : abs_step (Held t 1 []) (Unlock t) Free
| abs_pass t w ws : abs_step (Held t 1 (w :: ws)) (Unlock t) (Held w 1 ws)
| abs_denied t st : abs_step st (Denied t) st
| abs_expire t w n q : t ∈ q -> abs_step (Held w n q) (Expire t) (Held w n (filter (fun x => x <> t) q))
| abs_resched st : abs_step st Resched st.

Inductive abs_steps : mstate -> list mevent -> mstate -> Prop :=
| abs_nil st : abs_steps st [] st
| abs_cons st e st1 es st2 : abs_step st e st1 -> abs_steps st1 es st2 -> abs_steps st (e :: es) st2.

Section History.
Context (timer_thread o : oid).

(** The event a call of [rt_mutex_take] by thread [c] is, from its result. *)
Definition take_event (c : oid) (out : outcome oid Z) : mevent :=
  match out with
  | Returned r => if r =? RT_EOK then Lock c else Denied c
  | Waiting _ => Block c
  end.

(** Calls of the running thread, timeouts of waiting threads, scheduling. *)
Inductive mutex_step (i : ipc) : mevent -> ipc -> Prop :=
| mstep_take time c ch out i' : runs i c ch ->
    rt_mutex_take timer_thread o time i = Some (out, i') -> mutex_step i (take_event c out) i'
| mstep_release c ch r i' : runs i c ch -> rt_mutex_release o i = Some (r, i') ->
    mutex_step i (if r =? RT_EOK then Unlock c else Denied c) i'
| mstep_expire t xs i' : tlists (i_sched i) !! LSusp o = Some xs -> t ∈ xs ->
    ThreadTimer t ∉ Tmr.rt_timer_list (k_timer (i_kernel i)) ->
    in_kernel (rt_thread_timeout t) i = Some (tt, i') -> mutex_step i (Expire t) i'
| mstep_resched i' : schedule i = Some (tt, i') -> mutex_step i Resched i'.

Inductive mutex_steps : ipc -> list mevent -> ipc -> Prop :=
| msteps_nil i : mutex_steps i [] i
| msteps_cons i e i1 es i2 : mutex_step i e i1 -> mutex_steps i1 es i2 -> mutex_steps i (e :: es) i2.

Lemma take_simulates st time c ch out i i' :
  mutex_inv o st i -> runs i c ch -> rt_mutex_take timer_thread o time i = Some (out, i') ->
  exists st', mutex_inv o st' i' /\ abs_step st (take_event c out) st'.
Proof.
  intros Hi Hr E. pose proof (wp_run _ _ _ _ _ (mutex_take_wp timer_thread o st time c ch i Hi Hr) E) as H.
  pose proof (not_queued _ _ _ _ _ Hi Hr) as Hnq.
  destruct st as [|w n q]; simpl in H; [destruct H as [-> H]; eexists; split; [exact H|constructor]|].
  destruct (decide (w = c)) as [->|Hwc].
  - rewrite bool_decide_true in H by done. destruct (n <? RT_MUTEX_HOLD_MAX) eqn:En; destruct H as [-> H];
      (eexists; split; [exact H|constructor]). lia.
  - rewrite bool_decide_false in H by done. destruct (time =? 0); [destruct H as [-> H]; eexists; split; [exact H|constructor]|].
    destruct H as (-> & m & wh & pre & post & _ & _ & [-> _] & H & _). eexists. split; [exact H|]. by constructor.
Qed.

Lemma release_simulates st c ch r i i' :
  mutex_inv o st i -> runs i c ch -> rt_mutex_release o i = Some (r, i') ->
  exists st', mutex_inv o st' i' /\ abs_step st (if r =? RT_EOK then Unlock c else Denied c) st'.
Proof.
  intros Hi Hr E. pose proof (wp_run _ _ _ _ _ (mutex_release_wp o st c ch i Hi Hr) E) as H.
  destruct st as [|w n q]; simpl in H; [destruct H as [-> H]; eexists; split; [exact H|constructor]|].
  destruct (decide (w = c)) as [->|Hwc].
  2: { rewrite bool_decide_true in H by done. destruct H as [-> H]. eexists. split; [exact H|constructor]. }
  rewrite bool_decide_false in H by tauto. destruct (1 <? n) eqn:En.
  - destruct H as (-> & H & _). eexists. split; [exact H|]. constructor. lia.
  - destruct (mi_mutex _ _ _ Hi) as (m0 & _ & (_ & _ & _ & Hn & _) & _). assert (n = 1) as -> by lia.
    destruct H as (-> & m & _ & _ & H). destruct q as [|x ws]; [|destruct H as [H _]];
      (eexists; split; [exact H|constructor]).
Qed.

Lemma mutex_step_simulates st i e i' :
  mutex_inv o st i -> mutex_step i e i' -> exists st', mutex_inv o st' i' /\ abs_step st e st'.
Proof.
  intros Hi Hs. destruct (mi_current _ _ _ Hi) as (c0 & Hc0). pose proof (mi_kernel _ _ _ Hi) as Hk.
  destruct Hs as [time c ch out i' Hr E|c ch r i' Hr E|t xs i' Hl Hin Hnt E|i' E].
  - by eapply take_simulates.
  - by eapply release_simulates.
  - assert (wp (in_kernel (rt_thread_timeout t)) i
      (fun _ i' => exists k', expires (LSusp o) t xs (i_kernel i) k' /\ i' = set_i_kernel k' i)) as H.
    { apply wp_in_kernel. apply (timeout_expires (LSusp o) t xs c0); [done..|]. eauto. }
    destruct (wp_run _ _ _ _ _ H E) as (k' & [H1 H2 H3 H4 H5] & ->).
    pose proof (mi_queue _ _ _ Hi) as Hq. rewrite Hq in Hl. injection Hl as <-.
    pose proof (mi_owner _ _ _ Hi) as Ho.
    destruct st as [|w n q]; simpl in Hin; [by apply elem_of_nil in Hin|].
    exists (Held w n (filter (fun x => x <> t) q)). split; [|by constructor].
    apply (mutex_inv_frame o (Held w n q) i k' _ (fun x => x = t)); try done.
    + intros x [? ?]%list_elem_of_filter. done.
    + destruct Ho as [Hn _]. by intros ->.
  - assert (wp schedule i (fun _ i' => exists s', scheduled (i_kernel i) s' /\
        i' = set_i_kernel (set_k_sched s' (i_kernel i)) i)) as H.
    { apply (wp_schedule c0); [done..|]. eauto. }
    destruct (wp_run _ _ _ _ _ H E) as (s' & Hs & ->). exists st. split; [by apply mutex_scheduled|constructor].
Qed.

End History.

(** ** Examples *)

Lemma demo_mutex_inv : mutex_inv 10 Free demo_ipc.
Proof.
  split; [apply demo_ipc_kinv|exists 1%positive; reflexivity| |vm_compute; reflexivity|exact I|].
  - exists (mk_mutex RT_IPC_FLAG_PRIO 1 0xff 0 None). split; [vm_compute; reflexivity|]. split; [|by right].
    split_and!; reflexivity.
  - intros t Ht. by apply elem_of_nil in Ht.
Qed.

(** Thread 1 of priority 20 runs; thread 2 (priority 5) sleeps; thread 3
    (priority 10) sleeps; mutexes 21 and 22 are free. *)
Definition inversion_start : ipc :=
  mk_ipc
    (mk_kernel
      (mk_sched
        (<[1%positive := demo_thread RT_THREAD_RUNNING 20]>
        (<[2%positive := demo_thread RT_THREAD_SUSPEND 5]>
        (<[3%positive := demo_thread RT_THREAD_SUSPEND 10]> ∅)))
        (<[LSusp 21 := []]> (<[LSusp 22 := []]> empty_lists))
        0 0 (Some 1%positive) 20 0 [])
      (Tmr.mk_timers
        (<[ThreadTimer 1 := thread_timer 1 0 0 0]> (<[ThreadTimer 2 := thread_timer 2 0 0 0]>
        (<[ThreadTimer 3 := thread_timer 3 0 0 0]> ∅)))
        [] [] [] [] Tmr.RT_SOFT_TIMER_IDLE 0)
      obj_init 0)
    ∅
    (<[21%positive := mk_mutex RT_IPC_FLAG_PRIO 1 0xff 0 None]>
    (<[22%positive := mk_mutex RT_IPC_FLAG_PRIO 1 0xff 0 None]> ∅)) ∅ ∅ ∅.

Definition wake (t : oid) : M ipc unit := in_kernel (rt_thread_resume t);; schedule.

(** Thread 1 takes both mutexes; thread 2 wakes up and blocks on mutex 21;
    thread 1 releases mutex 22; thread 3 wakes up. *)
Definition inversion_run : M ipc unit :=
  rt_mutex_take 99 21 RT_WAITING_FOREVER;;
  rt_mutex_take 99 22 RT_WAITING_FOREVER;;
  wake 2;;
  rt_mutex_take 99 21 RT_WAITING_FOREVER;;
  rt_mutex_release 22;;
  wake 3.

(** ** Theorems *)

(** C4. The mutex refines its abstract state machine: along every sequence of
    takes and releases by running threads, timeouts of waiting threads and
    reschedulings, the concrete state follows a run of the machine [abs_step]
    with the same events.  So the mutex has one owner at a time, only the owner
    unlocks it, a thread that locks it again adds a level, the last unlock
    passes it to the first waiting thread or frees it, and every failed call
    leaves it as it was; the kernel invariant holds throughout. *)
Theorem mutex_refines timer_thread o st i es i' :
  mutex_inv o st i -> mutex_steps timer_thread o i es i' ->
  exists st', mutex_inv o st' i' /\ abs_steps st es st'.
Proof.
  intros Hi Hs. revert st Hi. induction Hs as [i|i e i1 es i2 Hstep Hs IH]; intros st Hi.
  - exists st. split; [done|constructor].
  - destruct (mutex_step_simulates _ _ _ _ _ _ Hi Hstep) as (st1 & Hi1 & E1).
    destruct (IH st1 Hi1) as (st2 & Hi2 & E2). exists st2. split; [done|by econstructor].
Qed.

Lemma mutex_refines_witness :
  exists i' st', mutex_steps 99 10 demo_ipc [Lock 1%positive] i' /\ mutex_inv 10 st' i' /\
    abs_steps Free [Lock 1%positive] st'.
Proof.
  destruct (rt_mutex_take 99 10 0 demo_ipc) as [[out i']|] eqn:E.
  2: { exfalso. assert (bool_decide (is_Some (rt_mutex_take 99 10 0 demo_ipc)) = true) as H by (vm_compute; reflexivity).
       rewrite E in H. discriminate H. }
  assert (take_event 1 ∘ fst <$> rt_mutex_take 99 10 0 demo_ipc = Some (Lock 1%positive)) as HC by (vm_compute; reflexivity).
  rewrite E in HC. injection HC as HC.
  assert (mutex_steps 99 10 demo_ipc [Lock 1%positive] i') as Hs.
  { rewrite <- HC. eapply msteps_cons; [|constructor]. eapply mstep_take; [exact demo_runs|exact E]. }
  destruct (mutex_refines 99 10 Free demo_ipc [Lock 1%positive] i' demo_mutex_inv Hs) as (st' & H1 & H2).
  exists i', st'. split_and!; [exact Hs|exact H1|exact H2].
Defined.

(** C39. [rt_mutex_take] on every branch, without fault: a free mutex is taken;
    the owner adds a level, up to 255, then gets [-RT_EFULL]; another thread
    gets [-RT_ETIMEOUT] when it does not wait, or is suspended on the queue at
    its place, and then the owner runs at the better of its own and the
    blocked thread's priority (priority inheritance). *)
Theorem mutex_take_spec timer_thread o st time c ch i :
  mutex_inv o st i -> runs i c ch ->
  wp (rt_mutex_take timer_thread o time) i (fun out i' =>
    match st with
    | Free => out = Returned RT_EOK /\ mutex_inv o (Held c 1 []) i'
    | Held w n q =>
        if bool_decide (w = c) then
          if n <? RT_MUTEX_HOLD_MAX then out = Returned RT_EOK /\ mutex_inv o (Held c (n + 1) q) i'
          else out = Returned (- RT_EFULL) /\ mutex_inv o st i'
        else if time =? 0 then out = Returned (- RT_ETIMEOUT) /\ mutex_inv o st i'
        else out = Waiting c /\
          exists m wh pre post, mutexes i !! o = Some m /\ threads (i_sched i) !! w = Some wh /\
            queue_place (mutex_flag m) (current_priority ch) (threads (i_sched i)) q pre post /\
            mutex_inv o (Held w n (pre ++ c :: post)) i' /\
            inherits (i_sched i') w (current_priority wh) (current_priority ch) /\
            exists ch', threads (i_sched i') !! c = Some ch' /\ stat_of ch' = RT_THREAD_SUSPEND
    end).
Proof. intros Hi Hr. exact (mutex_take_wp timer_thread o st time c ch i Hi Hr). Qed.

Lemma mutex_take_spec_witness :
  exists i', rt_mutex_take 99 10 0 demo_ipc = Some (Returned RT_EOK, i') /\ mutex_inv 10 (Held 1 1 []) i'.
Proof.
  destruct (proj1 (wp_Some _ _ _) (mutex_take_spec 99 10 Free 0 1 _ demo_ipc demo_mutex_inv demo_runs))
    as (out & i' & E & -> & H).
  exists i'. split; [exact E|exact H].
Defined.

(** C40. [rt_mutex_release] on every branch, without fault: a thread that does
    not own the mutex gets [-RT_ERROR]; the owner gives back one level; with the
    last level it returns to the priority it had when it took the mutex, and
    the mutex becomes free or belongs to the first waiting thread, which can
    run and whose [rt_mutex_take] returns [RT_EOK]; for a FIFO mutex the new
    owner has at least the priority of every thread that still waits. *)
Theorem mutex_release_spec o st c ch i :
  mutex_inv o st i -> runs i c ch ->
  wp (rt_mutex_release o) i (fun r i' =>
    match st with
    | Free => r = - RT_ERROR /\ mutex_inv o Free i'
    | Held w n q =>
        if bool_decide (w <> c) then r = - RT_ERROR /\ mutex_inv o st i'
        else if 1 <? n then r = RT_EOK /\ mutex_inv o (Held c (n - 1) q) i' /\ i_kernel i' = i_kernel i
        else r = RT_EOK /\ exists m, mutexes i !! o = Some m /\
          (exists ch', threads (i_sched i') !! c = Some ch' /\ runnable ch' /\
             current_priority ch' = original_priority m) /\
          match q with
          | [] => mutex_inv o Free i'
          | x :: ws => mutex_inv o (Held x 1 ws) i' /\
              wp (rt_mutex_take_resumed x) i' (fun e _ => e = RT_EOK) /\
              exists xh', threads (i_sched i') !! x = Some xh' /\ runnable xh' /\
                (mutex_flag m = RT_IPC_FLAG_FIFO -> forall y yh, y ∈ ws ->
                   threads (i_sched i') !! y = Some yh -> current_priority xh' <= current_priority yh)
          end
    end).
Proof.
  intros Hi Hr. eapply wp_mono; [exact (mutex_release_wp o st c ch i Hi Hr)|]. intros r i' H.
  destruct st as [|w n q]; [done|]. unfold mutex_release_post in H. case_bool_decide; [done|].
  destruct (1 <? n); [done|]. destruct H as (-> & m & Hm & Hc & H). split; [done|]. exists m.
  split; [done|]. split; [done|]. destruct q as [|x ws]; [done|].
  destruct H as (H1 & xh & H2 & H3 & H4 & H5). split; [done|]. split; [|by exists xh].
  unfold rt_mutex_take_resumed. wp_step. eapply wp_thread_error; [done|]. rewrite H4. by wp_steps.
Qed.

Lemma mutex_release_spec_witness :
  exists i', rt_mutex_release 10 demo_ipc = Some (- RT_ERROR, i') /\ mutex_inv 10 Free i'.
Proof.
  destruct (proj1 (wp_Some _ _ _) (mutex_release_spec 10 Free 1 _ demo_ipc demo_mutex_inv demo_runs))
    as (r & i' & E & -> & H).
  exists i'. split; [exact E|exact H].
Defined.

(** Priority inheritance is lost when a thread holds two mutexes: thread 1
    (priority 20) holds mutexes 21 and 22, thread 2 (priority 5) waits for
    mutex 21, and releasing mutex 22 sets thread 1 back to priority 20 although
    it still blocks thread 2; a thread 3 of priority 10 that wakes up then runs
    before thread 1, so before thread 2. *)
Theorem mutex_inheritance_lost :
  wp inversion_run inversion_start (fun _ i =>
    rt_current_thread (i_sched i) = Some 3%positive /\
    tlists (i_sched i) !! LSusp 21 = Some [2%positive] /\
    (owner <$> mutexes i !! 21%positive) = Some (Some 1%positive) /\
    (current_priority <$> threads (i_sched i) !! 1%positive) = Some 20 /\
    (current_priority <$> threads (i_sched i) !! 2%positive) = Some 5 /\
    (current_priority <$> threads (i_sched i) !! 3%positive) = Some 10).
Proof. vm_compute. split_and!; reflexivity. Qed.

End Mutex.
