(* ===== verification/Event.v ===== *)
(** * Event sets

    Model of the event object of [rt-thread/src/ipc.c].  A received set is
    written through the pointer [recved] only when it is not null; the model
    returns it as an option, [Some] where the C code would write.  The assertion
    of [rt_event_recv] that the option has AND or OR is compiled out on the
    board, so such a call waits with an option [rt_event_send] rejects. *)
From stdpp Require Import base list gmap sorting.
From Stdlib Require Import ZArith Lia.
From S2P Require Import Prelude Scheduler Object Timer Thread Ipc.

Module Event.
Import Sched Obj Thr Ipc.

Definition RT_EVENT_FLAG_AND : Z := 0x01.
Definition RT_EVENT_FLAG_OR : Z := 0x02.
Definition RT_EVENT_FLAG_CLEAR : Z := 0x04.

Definition get_event (o : oid) : M ipc rt_event := m ← gets events; deref (m !! o).
Definition put_event (o : oid) (e : rt_event) : M ipc unit :=
  modify (fun i => set_events (<[o := e]> (events i)) i).

Definition get_th (t : oid) : M ipc rt_thread := in_kernel (in_sched (get_thread t)).
Definition upd_th (t : oid) (f : rt_thread -> rt_thread) : M ipc unit :=
  in_kernel (in_sched (upd_thread t f)).

(** [info & flag], as a condition. *)
Definition flagged (info flag : Z) : bool := negb (Z.land info flag =? 0).

Definition rt_event_init (o : oid) (nm : list Z) (flag : Z) : M ipc Z :=
  in_kernel (rt_object_init (Obj o) RT_Object_Class_Event nm);;
  in_kernel (in_sched (rt_ipc_object_init o));;
  put_event o (mk_event flag 0);;
  mret RT_EOK.

Definition rt_event_detach (fuel : nat) (o : oid) : M ipc Z :=
  in_kernel (rt_ipc_list_resume_all fuel (LSusp o));;
  in_kernel (in_obj (rt_object_detach (Obj o)));;
  mret RT_EOK.

(** The condition is satisfied: clear the event, resume the thread. *)
Definition event_wake (o thread : oid) : M ipc unit :=
  th ← get_th thread;
  event ← get_event o;
  when (flagged (event_info th) RT_EVENT_FLAG_CLEAR)
    (put_event o (set_ev_set (Z.land (ev_set event) (Z.lnot (event_set th))) event));;
  in_kernel (rt_thread_resume thread);;
  mret tt.

(** The loop over the waiting threads.  The next node is read before a thread
    is resumed and resuming unlinks only that thread, so the loop visits the
    threads of the queue as it was at the start. *)
Fixpoint event_send_loop (o : oid) (xs : list oid) (need_schedule : bool) : M ipc (Z * bool) :=
  match xs with
  | [] => mret (RT_EOK, need_schedule)
  | thread :: xs =>
      th ← get_th thread;
      event ← get_event o;
      if flagged (event_info th) RT_EVENT_FLAG_AND then
        if Z.land (event_set th) (ev_set event) =? event_set th then
          event_wake o thread;; event_send_loop o xs true
        else event_send_loop o xs need_schedule
      else if flagged (event_info th) RT_EVENT_FLAG_OR then
        if negb (Z.land (event_set th) (ev_set event) =? 0) then
          upd_th thread (set_event_set (Z.land (event_set th) (ev_set event)));;
          event_wake o thread;; event_send_loop o xs true
        else event_send_loop o xs need_schedule
      else mret (- RT_EINVAL, false)
  end.

Definition rt_event_send (o : oid) (set : Z) : M ipc Z :=
  if set =? 0 then mret (- RT_ERROR)
  else
    event ← get_event o;
    put_event o (set_ev_set (Z.lor (ev_set event) set) event);;
    xs ← in_kernel (in_sched (get_list (LSusp o)));
    '(r, need_schedule) ← event_send_loop o xs false;
    when need_schedule schedule;;
    mret r.

(** Whether a set of events satisfies what a thread asks for. *)
Definition event_ready (option set have : Z) : bool :=
  if flagged option RT_EVENT_FLAG_AND then Z.land have set =? set
  else if flagged option RT_EVENT_FLAG_OR then negb (Z.land have set =? 0)
  else false.

Section Recv.
Context (timer_thread : oid).

Definition rt_event_recv (o : oid) (set option timeout : Z) : M ipc (outcome oid (Z * Datatypes.option Z)) :=
  if set =? 0 then mret (Returned (- RT_ERROR, None))
  else
    thread ← self;
    reset_error thread RT_EOK;;
    event ← get_event o;
    if event_ready option set (ev_set event) then
      let recved := Z.land (ev_set event) set in
      upd_th thread (fun th => set_event_info option (set_event_set recved th));;
      when (flagged option RT_EVENT_FLAG_CLEAR)
        (put_event o (set_ev_set (Z.land (ev_set event) (Z.lnot set)) event));;
      e ← thread_error thread;
      mret (Returned (e, Some recved))
    else if timeout =? 0 then
      reset_error thread (- RT_ETIMEOUT);;
      mret (Returned (- RT_ETIMEOUT, None))
    else
      upd_th thread (fun th => set_event_info option (set_event_set set th));;
      wait_on timer_thread (LSusp o) thread (ev_flag event) timeout;;
      mret (Waiting thread).

Definition rt_event_recv_resumed (thread : oid) : M ipc (Z * Datatypes.option Z) :=
  e ← thread_error thread;
  if negb (e =? RT_EOK) then mret (e, None)
  else
    th ← get_th thread;
    mret (error th, Some (event_set th)).

End Recv.

Definition rt_event_control (fuel : nat) (o : oid) (cmd arg : Z) : M ipc Z :=
  if cmd =? RT_IPC_CMD_RESET then
    in_kernel (rt_ipc_list_resume_all fuel (LSusp o));;
    event ← get_event o;
    put_event o (set_ev_set 0 event);;
    schedule;;
    mret RT_EOK
  else mret (- RT_ERROR).

(** ** What an event object promises *)

(** Serve the waiting threads [xs] in order from the set [set]: the set left,
    the threads served with the events each receives, the threads that go on
    waiting. *)
Fixpoint deliver (ths : gmap oid rt_thread) (set : Z) (xs : list oid) : Z * list (oid * Z) * list oid :=
  match xs with
  | [] => (set, [], [])
  | x :: xs =>
      match ths !! x with
      | None => deliver ths set xs
      | Some th =>
          if event_ready (event_info th) (event_set th) set then
            let got := Z.land (event_set th) set in
            let set' := if flagged (event_info th) RT_EVENT_FLAG_CLEAR then Z.land set (Z.lnot got) else set in
            let '(s, woken, rest) := deliver ths set' xs in (s, (x, got) :: woken, rest)
          else let '(s, woken, rest) := deliver ths set xs in (s, woken, x :: rest)
      end
  end.

(** A thread that waits with a valid option and without an error. *)
Definition asks (s : sched) (t : oid) : Prop :=
  exists th, threads s !! t = Some th /\ error th = RT_EOK /\
    (flagged (event_info th) RT_EVENT_FLAG_AND = true \/ flagged (event_info th) RT_EVENT_FLAG_OR = true).

(** The events asked for are not all there (AND) or none is there (OR). *)
Definition unserved (s : sched) (set : Z) (t : oid) : Prop :=
  exists th, threads s !! t = Some th /\ event_ready (event_info th) (event_set th) set = false.

Record event_inv (o : oid) (set : Z) (q : list oid) (i : ipc) : Prop := {
  ei_kernel : kinv (i_kernel i);
  ei_current : exists c, rt_current_thread (i_sched i) = Some c;
  ei_event : exists flag, events i !! o = Some (mk_event flag set) /\
    (flag = RT_IPC_FLAG_FIFO \/ flag = RT_IPC_FLAG_PRIO);
  ei_queue : tlists (i_sched i) !! LSusp o = Some q;
  ei_asks : forall t, t ∈ q -> asks (i_sched i) t;
  ei_quiet : forall t, t ∈ q -> unserved (i_sched i) set t
}.

Lemma event_ready_mono option es set set' :
  Z.land set set' = set' -> event_ready option es set = false -> event_ready option es set' = false.
Proof.
  intros Hsub H. unfold event_ready in *. destruct (flagged option RT_EVENT_FLAG_AND).
  - apply Z.eqb_neq. apply Z.eqb_neq in H. intros E. apply H.
    assert (Z.land set es = Z.land set (Z.land set' es)) as -> by (by rewrite E).
    rewrite Z.land_assoc, Hsub. exact E.
  - destruct (flagged option RT_EVENT_FLAG_OR); [|done].
    apply negb_false_iff, Z.eqb_eq. apply negb_false_iff, Z.eqb_eq in H.
    rewrite <- Hsub, (Z.land_comm set set'), <- Z.land_assoc, H. apply Z.land_0_r.
Qed.

Lemma land_sub_trans a b c : Z.land a b = b -> Z.land b c = c -> Z.land a c = c.
Proof. intros H1 H2. by rewrite <- H2, Z.land_assoc, H1. Qed.

(** Serving only removes events. *)
Lemma deliver_sub ths set xs set' w l : deliver ths set xs = (set', w, l) -> Z.land set set' = set'.
Proof.
  revert set set' w l. induction xs as [|x xs IH]; intros set set' w l; simpl.
  - intros [= <- _ _]. apply Z.land_diag.
  - destruct (ths !! x) as [th|]; [|apply IH].
    destruct (event_ready (event_info th) (event_set th) set).
    + destruct (flagged (event_info th) RT_EVENT_FLAG_CLEAR).
      * destruct (deliver ths (Z.land set (Z.lnot (Z.land (event_set th) set))) xs) as [[s w0] l0] eqn:E.
        intros [= <- _ _]. eapply land_sub_trans; [|by eapply IH].
        by rewrite Z.land_assoc, Z.land_diag.
      * destruct (deliver ths set xs) as [[s w0] l0] eqn:E. intros [= <- _ _]. by eapply IH.
    + destruct (deliver ths set xs) as [[s w0] l0] eqn:E. intros [= <- _ _]. by eapply IH.
Qed.

(** The threads left are not satisfied by the set left: no wake-up is lost. *)
Lemma deliver_left ths set xs set' w l t :
  deliver ths set xs = (set', w, l) -> t ∈ l ->
  t ∈ xs /\ exists th, ths !! t = Some th /\ event_ready (event_info th) (event_set th) set' = false.
Proof.
  revert set set' w l. induction xs as [|x xs IH]; intros set set' w l; simpl.
  - intros [= _ _ <-] Ht. by apply elem_of_nil in Ht.
  - destruct (ths !! x) as [th|] eqn:Ex.
    2: { intros E Ht. destruct (IH _ _ _ _ E Ht). split; [set_solver|done]. }
    destruct (event_ready (event_info th) (event_set th) set) eqn:Er.
    + destruct (deliver ths _ xs) as [[s w0] l0] eqn:E. intros [= <- <- <-] Ht.
      destruct (IH _ _ _ _ E Ht). split; [set_solver|done].
    + destruct (deliver ths set xs) as [[s w0] l0] eqn:E. intros [= <- <- <-] [->|Ht]%elem_of_cons.
      * split; [set_solver|]. exists th. split; [done|]. eapply event_ready_mono; [|done]. by eapply deliver_sub.
      * destruct (IH _ _ _ _ E Ht). split; [set_solver|done].
Qed.

Lemma deliver_ext ths ths' set xs :
  (forall x, x ∈ xs -> ths' !! x = ths !! x) -> deliver ths' set xs = deliver ths set xs.
Proof.
  revert set. induction xs as [|x xs IH]; intros set He; [done|]. simpl. rewrite He by set_solver.
  assert (forall s, deliver ths' s xs = deliver ths s xs) as H by (intros s; apply IH; set_solver).
  destruct (ths !! x); rewrite ?H; done.
Qed.

(** ** Waking a thread anywhere in a queue *)

Lemma resumed_wakes_any l w wh tm pre post c k :
  kinv k -> is_wait l -> tlists (k_sched k) !! l = Some (pre ++ w :: post) ->
  rt_current_thread (k_sched k) = Some c ->
  threads (k_sched k) !! w = Some wh -> stat_of wh = RT_THREAD_SUSPEND ->
  Tmr.timers (k_timer k) !! ThreadTimer w = Some tm ->
  wakes l w wh (pre ++ post) k (resumed_k w wh tm k).
Proof.
  intros Hk Hw Hl Hc Hwh Est Htm.
  pose proof (queue_nodup k l _ Hk Hl) as Hnd. rewrite <- Permutation_middle in Hnd.
  apply NoDup_cons in Hnd as [Hni _]. apply not_elem_of_app in Hni as [Hn1 Hn2].
  pose proof (kinv_resumed w wh tm k Hk Hwh Est Htm) as Hk'.
  split; [done|exists c; simpl; by rewrite resumed_current| | | | |done].
  - simpl. rewrite (resumed_lists _ _ _ _ _ Hw Hl).
    by rewrite filter_app, filter_cons_False, !filter_ne_id by tauto.
  - intros l' Hw' Hn. simpl. eapply resumed_lists_other; [apply Hk|done|done|done|set_solver].
  - eexists. simpl. rewrite resumed_threads, lookup_insert_eq. split; [done|]. split; [|done].
    unfold runnable. case_decide; [right|left]; by apply stat_of_with_stat.
  - intros x xh Hx. split; intros Hn Hs; simpl; rewrite resumed_threads, lookup_insert_ne by done; [done|].
    by exists xh.
Qed.

Lemma wp_get_th t th i (Q : rt_thread -> ipc -> Prop) :
  threads (i_sched i) !! t = Some th -> Q th i -> wp (get_th t) i Q.
Proof.
  intros Ht HQ. apply wp_in_kernel, wp_in_sched. eapply wp_get_thread; [done|].
  by rewrite set_k_sched_id, set_i_kernel_id.
Qed.

Lemma wp_upd_th t f th i (Q : unit -> ipc -> Prop) :
  threads (i_sched i) !! t = Some th ->
  Q tt (set_i_kernel (set_k_sched (upd_st t (f th) (i_sched i)) (i_kernel i)) i) -> wp (upd_th t f) i Q.
Proof. intros Ht HQ. apply wp_in_kernel, wp_in_sched. by eapply wp_upd_thread. Qed.

Lemma wp_get_event o e i (Q : rt_event -> ipc -> Prop) :
  events i !! o = Some e -> Q e i -> wp (get_event o) i Q.
Proof. intros H HQ. unfold get_event. wp_steps. by eapply wp_deref. Qed.

(** [event_wake] for a thread whose [event_set] is what it receives. *)
Lemma event_wake_wp o c t th flag set pre post i (Q : unit -> ipc -> Prop) :
  kinv (i_kernel i) -> rt_current_thread (i_sched i) = Some c ->
  tlists (i_sched i) !! LSusp o = Some (pre ++ t :: post) ->
  threads (i_sched i) !! t = Some th -> stat_of th = RT_THREAD_SUSPEND ->
  events i !! o = Some (mk_event flag set) ->
  (forall i', wakes (LSusp o) t th (pre ++ post) (i_kernel i) (i_kernel i') ->
     rt_current_thread (i_sched i') = Some c ->
     events i' !! o = Some (mk_event flag
       (if flagged (event_info th) RT_EVENT_FLAG_CLEAR then Z.land set (Z.lnot (event_set th)) else set)) ->
     Q tt i') ->
  wp (event_wake o t) i Q.
Proof.
  intros Hk Hc Hl Ht Est He HQ. unfold event_wake.
  destruct (thread_timer_of _ t th Hk Ht) as (tm & Htm & _).
  wp_step. eapply wp_get_th; [done|]. wp_step. eapply wp_get_event; [done|]. wp_step.
  pose proof (resumed_wakes_any (LSusp o) t th tm pre post c _ Hk I Hl Hc Ht Est Htm) as Hwk.
  apply wp_when; intros Ef; unfold put_event; wp_steps; apply wp_in_kernel;
    (apply (wp_thread_resume t th tm); [done..|]); wp_steps; rewrite Ef in HQ; apply HQ; simpl;
    try done; try (by rewrite resumed_current).
  by rewrite lookup_insert_eq.
Qed.

(** ** Sending *)

(** [t] can run and its [rt_event_recv] will return the events [got]. *)
Definition received (s : sched) (t : oid) (got : Z) : Prop :=
  exists th, threads s !! t = Some th /\ runnable th /\ error th = RT_EOK /\ event_set th = got.

(** From [k] to [i'] the threads of [woken] have been served. *)
Record served (o c : oid) (flag set : Z) (woken : list (oid * Z)) (q : list oid) (k : kernel) (i' : ipc) : Prop := {
  sv_inv : kinv (i_kernel i');
  sv_current : rt_current_thread (i_sched i') = Some c;
  sv_event : events i' !! o = Some (mk_event flag set);
  sv_queue : tlists (i_sched i') !! LSusp o = Some q;
  sv_woken : forall t got, (t, got) ∈ woken -> received (i_sched i') t got;
  sv_frame : woken_frame (fun t => t ∈ woken.*1) k (i_kernel i')
}.

Lemma asks_frame (W : oid -> Prop) k k' l q t :
  kinv k -> is_wait l -> tlists (k_sched k) !! l = Some q -> woken_frame W k k' ->
  t ∈ q -> ~ W t -> threads (k_sched k') !! t = threads (k_sched k) !! t.
Proof.
  intros Hk Hw Hl Hf Ht Hn. destruct (waiter_of k l t q Hk Hw Hl Ht) as (th & Hth & Est).
  destruct (Hf t th Hth) as [H _]. by rewrite (H Hn (suspended_idle _ Est)).
Qed.

Lemma asks_same s s' t : threads s' !! t = threads s !! t -> asks s t -> asks s' t.
Proof. unfold asks. by intros ->. Qed.

(** Waking one thread, then serving the rest. *)
Lemma served_step o c flag set woken pre post rest t th got i i1 i' :
  kinv (i_kernel i) -> tlists (i_sched i) !! LSusp o = Some (pre ++ t :: post) ->
  wakes (LSusp o) t th (pre ++ post) (i_kernel i) (i_kernel i1) ->
  error th = RT_EOK -> event_set th = got ->
  (forall x, x ∈ woken.*1 -> x ∈ post) ->
  served o c flag set woken rest (i_kernel i1) i' ->
  served o c flag set ((t, got) :: woken) rest (i_kernel i) i'.
Proof.
  intros Hk Hl Hwk Ee Eg Hsub [S1 S2 S3 S4 S5 S6].
  pose proof (queue_nodup _ _ _ Hk Hl) as Hnd. rewrite <- Permutation_middle in Hnd.
  apply NoDup_cons in Hnd as [Hni _]. apply not_elem_of_app in Hni as [_ Hn2].
  split; [done|done|done|done| |].
  - intros x g [[= -> ->]|Hx]%elem_of_cons; [|by apply S5].
    destruct (wk_self _ _ _ _ _ _ Hwk) as (th1 & Hth1 & Hr1 & E1).
    destruct (S6 t th1 Hth1) as [_ H]. destruct (H ltac:(intros Hin; by apply Hn2, Hsub) Hr1) as (th2 & Hth2 & Hr2 & E2).
    pose proof (same_task_trans _ _ _ E1 E2) as (Er & _ & _ & _ & Es & _).
    exists th2. split_and!; [done|done|congruence|congruence].
  - eapply (woken_frame_trans (fun x => x = t) (fun x => x ∈ woken.*1)); [apply Hwk|exact S6|set_solver..].
Qed.

Lemma served_upd o c flag set woken rest t th th' i i' :
  threads (i_sched i) !! t = Some th -> t ∈ woken.*1 ->
  served o c flag set woken rest (set_k_sched (upd_st t th' (i_sched i)) (i_kernel i)) i' ->
  served o c flag set woken rest (i_kernel i) i'.
Proof.
  intros Ht Hin [S1 S2 S3 S4 S5 S6]. split; [done..|].
  eapply (woken_frame_trans (fun x => x = t)); [by eapply frame_upd|exact S6|by intros x ->|done].
Qed.

Lemma deliver_woken ths set xs set' w l :
  deliver ths set xs = (set', w, l) -> forall t, t ∈ w.*1 -> t ∈ xs.
Proof.
  revert set set' w l. induction xs as [|x xs IH]; intros set set' w l; simpl.
  - intros [= _ <- _] t Ht. by apply elem_of_nil in Ht.
  - destruct (ths !! x) as [th|]; [|intros E t Ht; right; by eapply IH].
    destruct (event_ready _ _ set); (destruct (deliver ths _ xs) as [[s w0] l0] eqn:E); intros [= <- <- <-] t Ht.
    + apply elem_of_cons in Ht as [->|Ht]; [by left|right; by eapply IH].
    + right. by eapply IH.
Qed.

(** What the loop over the threads [xs] does. *)
Definition loop_serves (o c : oid) (flag : Z) (xs : list oid) : Prop :=
  forall set pre need i (Q : Z * bool -> ipc -> Prop),
  kinv (i_kernel i) -> rt_current_thread (i_sched i) = Some c ->
  events i !! o = Some (mk_event flag set) ->
  tlists (i_sched i) !! LSusp o = Some (pre ++ xs) ->
  (forall t, t ∈ xs -> asks (i_sched i) t) ->
  (forall i' set' woken rest, deliver (threads (i_sched i)) set xs = (set', woken, rest) ->
     served o c flag set' woken (pre ++ rest) (i_kernel i) i' ->
     Q (RT_EOK, need || bool_decide (woken <> [])) i') ->
  wp (event_send_loop o xs need) i Q.

(** The rest of the loop after [x] has been woken with [got]; [i0] is [i] with
    [got] stored in the thread. *)
Lemma wake_then_loop o c flag x xs set pre need i i0 th th0 got (Q : Z * bool -> ipc -> Prop) :
  loop_serves o c flag xs ->
  (forall t, t ∈ xs -> asks (i_sched i) t) -> threads (i_sched i) !! x = Some th ->
  (forall i' set' woken rest, deliver (threads (i_sched i)) set (x :: xs) = (set', woken, rest) ->
     served o c flag set' woken (pre ++ rest) (i_kernel i) i' ->
     Q (RT_EOK, need || bool_decide (woken <> [])) i') ->
  Z.land (event_set th) set = got -> event_ready (event_info th) (event_set th) set = true ->
  kinv (i_kernel i0) -> rt_current_thread (i_sched i0) = Some c ->
  events i0 !! o = Some (mk_event flag set) ->
  tlists (i_sched i0) !! LSusp o = Some (pre ++ x :: xs) ->
  threads (i_sched i0) !! x = Some th0 -> stat_of th0 = RT_THREAD_SUSPEND ->
  error th0 = RT_EOK -> event_set th0 = got -> event_info th0 = event_info th ->
  (forall y, y ∈ xs -> threads (i_sched i0) !! y = threads (i_sched i) !! y) ->
  (forall set' woken rest i', served o c flag set' woken (pre ++ rest) (i_kernel i0) i' -> x ∈ woken.*1 ->
     served o c flag set' woken (pre ++ rest) (i_kernel i) i') ->
  wp (event_wake o x;; event_send_loop o xs true) i0 Q.
Proof.
  intros IH Ha Hth HQ Egot Er Hk0 Hc0 He0 Hl0 Hth0 Est0 Ee0 Es0 Ei0 Hsame Hback.
  wp_step. eapply (event_wake_wp o c x th0 flag set pre xs); [done..|].
  intros i1 Hwk Hc1 He1. rewrite Ei0, Es0 in He1.
  pose proof (queue_nodup _ _ _ Hk0 Hl0) as Hnd. rewrite <- Permutation_middle in Hnd.
  apply NoDup_cons in Hnd as [Hni _]. apply not_elem_of_app in Hni as [_ Hn2].
  assert (forall y, y ∈ xs -> threads (i_sched i1) !! y = threads (i_sched i) !! y) as Hsame1.
  { intros y Hy. rewrite <- Hsame by done.
    eapply (asks_frame (fun z => z = x) (i_kernel i0) (i_kernel i1) (LSusp o)); [done|done|exact Hl0|apply Hwk|set_solver|].
    by intros ->. }
  eapply (IH _ pre true i1); [apply Hwk|exact Hc1|exact He1|apply Hwk| |].
  { intros t Ht. eapply asks_same; [by apply Hsame1|]. by apply Ha. }
  intros i' set' woken rest Ed Hsv.
  assert (Q (RT_EOK, need || bool_decide ((x, got) :: woken <> [])) i') as HQ'.
  { apply (HQ i' set' ((x, got) :: woken) rest).
    - simpl. rewrite Hth, Er, Egot. rewrite (deliver_ext (threads (i_sched i))) in Ed by done. by rewrite Ed.
    - apply Hback; [|simpl; set_solver]. eapply (served_step o c flag set' woken pre xs _ x th0 got i0 i1); try done.
      by eapply deliver_woken. }
  by rewrite bool_decide_true, orb_true_r in HQ' by done.
Qed.

Lemma event_loop_wp o c flag xs : loop_serves o c flag xs.
Proof.
  induction xs as [|x xs IH]; intros set pre need i Q Hk Hc He Hl Ha HQ.
  { simpl. wp_step. rewrite <- (orb_false_r need). apply (HQ i set [] []); [done|].
    split; [done|done|done|done|set_solver|apply woken_frame_refl]. }
  simpl event_send_loop. destruct (Ha x ltac:(set_solver)) as (th & Hth & Ee & Hao).
  destruct (waiter_of _ (LSusp o) x _ Hk I Hl ltac:(set_solver)) as (th2 & Hth2 & Est). simplify_eq.
  wp_step. eapply wp_get_th; [done|]. wp_step. eapply wp_get_event; [done|]. cbn [ev_set].
  assert (forall t, t ∈ xs -> asks (i_sched i) t) as Ha' by (intros t Ht; apply Ha; set_solver).
  pose proof (fun i0 th0 got => wake_then_loop o c flag x xs set pre need i i0 th th0 got Q IH Ha' Hth HQ) as Hwake.
  assert (event_ready (event_info th) (event_set th) set = false ->
          wp (event_send_loop o xs need) i Q) as Hskip.
  { intros Er. eapply (IH set (pre ++ [x]) need i); [done|done|done|by rewrite <- app_assoc|done|].
    intros i' set' woken rest Ed Hsv. apply (HQ i' set' woken (x :: rest)).
    - simpl. by rewrite Hth, Er, Ed.
    - by rewrite <- app_assoc in Hsv. }
  destruct (flagged (event_info th) RT_EVENT_FLAG_AND) eqn:Eand.
  - destruct (Z.land (event_set th) set =? event_set th) eqn:Eb.
    + apply Z.eqb_eq in Eb. eapply (Hwake i th (event_set th)); try done.
      unfold event_ready. rewrite Eand. apply Z.eqb_eq. by rewrite Z.land_comm.
    + apply Hskip. unfold event_ready. rewrite Eand. by rewrite Z.land_comm.
  - destruct Hao as [?|Eor]; [done|]. rewrite Eor.
    destruct (negb (Z.land (event_set th) set =? 0)) eqn:Eb.
    + wp_step. eapply wp_upd_th; [done|].
      set (th1 := set_event_set (Z.land (event_set th) set) th).
      eapply (Hwake (set_i_kernel (set_k_sched (upd_st x th1 (i_sched i)) (i_kernel i)) i) th1
                (Z.land (event_set th) set)); try done.
      * unfold event_ready. rewrite Eand, Eor. by rewrite Z.land_comm.
      * by apply (kinv_upd_same x th).
      * apply lookup_insert_eq.
      * intros y Hy. apply lookup_insert_ne. intros ->. pose proof (queue_nodup _ _ _ Hk Hl) as Hnd.
        rewrite <- Permutation_middle in Hnd. apply NoDup_cons in Hnd as [Hni _]. set_solver.
      * intros set' woken rest i' Hsv Hin. eapply served_upd; [exact Hth|exact Hin|exact Hsv].
    + apply Hskip. unfold event_ready. rewrite Eand, Eor. by rewrite Z.land_comm.
Qed.

Lemma received_scheduled k s' t got :
  scheduled k s' -> received (k_sched k) t got -> received s' t got.
Proof.
  intros (_ & _ & Hf & _) (th & Hth & Hr & Ee & Es). destruct (Hf t th Hth) as [_ H].
  destruct (H ltac:(tauto) Hr) as (th' & ? & ? & E1 & _ & _ & _ & E2 & _).
  exists th'. split_and!; [done|done|congruence|congruence].
Qed.

Lemma served_scheduled o c flag set woken q k i s' :
  served o c flag set woken q k i -> scheduled (i_kernel i) s' ->
  let i' := set_i_kernel (set_k_sched s' (i_kernel i)) i in
  kinv (i_kernel i') /\ (exists c', rt_current_thread (i_sched i') = Some c') /\
  events i' !! o = Some (mk_event flag set) /\ tlists (i_sched i') !! LSusp o = Some q /\
  (forall t got, (t, got) ∈ woken -> received (i_sched i') t got) /\
  woken_frame (fun t => t ∈ woken.*1) k (i_kernel i').
Proof.
  intros [S1 S2 S3 S4 S5 S6] Hs. pose proof Hs as (H1 & H2 & H3 & H4). split_and!; simpl; try done.
  - by rewrite (H4 (LSusp o) I).
  - intros t got Ht. eapply received_scheduled; [exact Hs|by apply S5].
  - by eapply (woken_frame_trans _ (fun _ => False)).
Qed.

Lemma event_send_wp o set q ev i :
  event_inv o set q i -> ev <> 0 ->
  wp (rt_event_send o ev) i (fun r i' =>
    let '(set', woken, rest) := deliver (threads (i_sched i)) (Z.lor set ev) q in
    r = RT_EOK /\ event_inv o set' rest i' /\
    (forall t got, (t, got) ∈ woken -> received (i_sched i') t got) /\
    woken_frame (fun t => t ∈ woken.*1) (i_kernel i) (i_kernel i')).
Proof.
  intros Hi Hev. pose proof Hi as [Hk (c & Hc) (flag & He & Hfl) Hq Ha Hqu].
  destruct (deliver (threads (i_sched i)) (Z.lor set ev) q) as [[set' woken] rest] eqn:Ed.
  unfold rt_event_send. rewrite (proj2 (Z.eqb_neq ev 0) Hev). wp_step. eapply wp_get_event; [done|].
  unfold put_event. wp_step. wp_step. wp_step. apply wp_in_kernel, wp_in_sched. eapply wp_get_list; [done|].
  rewrite set_k_sched_id, set_i_kernel_id. wp_step.
  eapply (event_loop_wp o c flag q (Z.lor set ev) []); [done|done|simpl; by rewrite lookup_insert_eq|done|done|].
  intros i1 set1 woken1 rest1 Ed1 Hsv. simpl in Ed1. rewrite Ed in Ed1. injection Ed1 as <- <- <-. simpl in Hsv.
  assert (forall i', kinv (i_kernel i') /\ (exists c', rt_current_thread (i_sched i') = Some c') /\
    events i' !! o = Some (mk_event flag set') /\ tlists (i_sched i') !! LSusp o = Some rest /\
    (forall t got, (t, got) ∈ woken -> received (i_sched i') t got) /\
    woken_frame (fun t => t ∈ woken.*1) (i_kernel i) (i_kernel i') ->
    RT_EOK = RT_EOK /\ event_inv o set' rest i' /\
    (forall t got, (t, got) ∈ woken -> received (i_sched i') t got) /\
    woken_frame (fun t => t ∈ woken.*1) (i_kernel i) (i_kernel i')) as Hend.
  { intros i' (H1 & H2 & H3 & H4 & H5 & H6). split_and!; [done| |done|done].
    assert (forall t, t ∈ rest -> t ∈ q /\ threads (i_sched i') !! t = threads (i_sched i) !! t) as Hsame.
    { intros t Ht. destruct (deliver_left _ _ _ _ _ _ t Ed Ht) as [Hin _]. split; [done|].
      eapply (asks_frame (fun x => x ∈ woken.*1) (i_kernel i) (i_kernel i') (LSusp o)); [done|done|exact Hq|done|done|].
      intros Hw. apply list_elem_of_fmap in Hw as ([t' g] & -> & Hw). destruct (H5 _ _ Hw) as (th & Hth & Hr & _).
      destruct (waiter_of _ (LSusp o) t' rest H1 I H4 Ht) as (th2 & Hth2 & E2). simpl in *. simplify_eq.
      destruct Hr; stats. }
    split; [done|done|by exists flag|done| |].
    - intros t Ht. destruct (Hsame t Ht) as [Hin E]. eapply asks_same; [exact E|by apply Ha].
    - intros t Ht. destruct (Hsame t Ht) as [_ E]. destruct (deliver_left _ _ _ _ _ _ t Ed Ht) as [_ (th & Hth & Er)].
      exists th. by rewrite E. }
  simpl. wp_step. apply wp_when; intros Eb.
  - eapply (wp_schedule c); [apply Hsv|apply Hsv|]. intros s' Hs'. wp_steps. apply Hend. by eapply served_scheduled.
  - wp_steps. apply Hend. split_and!; try apply Hsv. exists c. apply Hsv.
Qed.

(** ** Receiving *)

Lemma event_quiet_sub o set set' q i e' :
  event_inv o set q i -> Z.land set set' = set' -> events i !! o = Some e' ->
  event_inv o set' q (set_events (<[o := set_ev_set set' e']> (events i)) i).
Proof.
  intros [H1 H2 (flag & H3 & Hf) H4 H5 H6] Hsub He. simplify_eq. split; simpl; [done|done| |done|done|].
  - exists flag. by rewrite lookup_insert_eq.
  - intros t Ht. destruct (H6 t Ht) as (th & Hth & Er). exists th. split; [done|]. by eapply event_ready_mono.
Qed.

(** A change of the running thread, which waits for nothing. *)
Lemma event_inv_upd o set q i c ch ch' :
  event_inv o set q i -> runs i c ch -> stat_of ch' = stat_of ch ->
  current_priority ch' = current_priority ch -> number_mask ch' = number_mask ch ->
  event_inv o set q (set_i_kernel (set_k_sched (upd_st c ch' (i_sched i)) (i_kernel i)) i).
Proof.
  intros [H1 H2 H3 H4 H5 H6] (Hcur & Hc & Est) E1 E2 E3.
  assert (forall t, t ∈ q -> threads (upd_st c ch' (i_sched i)) !! t = threads (i_sched i) !! t) as Hsame.
  { intros t Ht. apply lookup_insert_ne. intros ->. eapply (running_not_listed _ _ _ (LSusp o) H1 Hc Est).
    by rewrite (members_Some _ _ _ H4). }
  split; simpl; [by apply (kinv_upd_same c ch)|done|done|done| |].
  - intros t Ht. eapply asks_same; [by apply Hsame|by apply H5].
  - intros t Ht. destruct (H6 t Ht) as (th & Hth & E). exists th. by rewrite Hsame.
Qed.

Definition demo_event : ipc :=
  set_events (<[9%positive := mk_event RT_IPC_FLAG_FIFO 1]> (events demo_ipc))
    (set_i_kernel (set_k_sched
       (upd_st 4 (set_event_set 6 (set_event_info 6 (demo_thread RT_THREAD_SUSPEND 8))) (k_sched (i_kernel demo_ipc)))
       (i_kernel demo_ipc)) demo_ipc).

Lemma demo_event_inv : event_inv 9 1 [4%positive] demo_event.
Proof.
  split.
  - apply kernel_check_sound, (bool_decide_unpack _). vm_compute. exact I.
  - exists 1%positive. reflexivity.
  - exists RT_IPC_FLAG_FIFO. split; [vm_compute; reflexivity|by left].
  - vm_compute. reflexivity.
  - intros t ->%list_elem_of_singleton. eexists. split; [vm_compute; reflexivity|]. split; [reflexivity|by right].
  - intros t ->%list_elem_of_singleton. eexists. split; [vm_compute; reflexivity|reflexivity].
Qed.

Lemma demo_event_runs : runs demo_event 1 (demo_thread RT_THREAD_RUNNING 10).
Proof. split_and!; vm_compute; reflexivity. Qed.

Section RecvSpec.
Context (timer_thread : oid).

Lemma event_wait_wp o set q i c ch flag timeout (Q : unit -> ipc -> Prop) :
  event_inv o set q i -> runs i c ch -> events i !! o = Some (mk_event flag set) ->
  error ch = RT_EOK ->
  (flagged (event_info ch) RT_EVENT_FLAG_AND = true \/ flagged (event_info ch) RT_EVENT_FLAG_OR = true) ->
  event_ready (event_info ch) (event_set ch) set = false ->
  (forall pre post k', queue_place flag (current_priority ch) (threads (i_sched i)) q pre post ->
     event_inv o set (pre ++ c :: post) (set_i_kernel k' i) ->
     waits (LSusp o) c ch (pre ++ c :: post) timeout (i_kernel i) k' -> Q tt (set_i_kernel k' i)) ->
  wp (wait_on timer_thread (LSusp o) c flag timeout) i Q.
Proof.
  intros [H1 H2 (flag2 & H3 & Hf) H4 H5 H6] (Hcur & Hc & Est) He Ee Hao Er HQ.
  rewrite He in H3. injection H3 as <-.
  apply (wait_on_spec timer_thread (LSusp o) c ch flag timeout q); [done..|].
  intros pre post k' Hp Hwt. apply (HQ pre post); [done| |done].
  assert (forall t, t ∈ pre ++ c :: post -> t <> c -> t ∈ q /\ threads (k_sched k') !! t = threads (i_sched i) !! t) as Hsame.
  { intros t Ht Hn. destruct Hp as [-> _]. assert (t ∈ pre ++ post) as Hin by set_solver. split; [done|].
    eapply (asks_frame (fun x => x = c) (i_kernel i) k' (LSusp o)); [done|done|exact H4|apply Hwt|done|done]. }
  split; simpl; [apply Hwt|apply Hwt|by exists flag|apply Hwt| |].
  - intros t Ht. destruct (decide (t = c)) as [->|Hn].
    + exists (with_stat RT_THREAD_SUSPEND ch). split; [apply Hwt|]. by split.
    + destruct (Hsame t Ht Hn) as [Hin E]. eapply asks_same; [exact E|by apply H5].
  - intros t Ht. destruct (decide (t = c)) as [->|Hn].
    + exists (with_stat RT_THREAD_SUSPEND ch). split; [apply Hwt|done].
    + destruct (Hsame t Ht Hn) as [Hin E]. destruct (H6 t Hin) as (th & Hth & Et). exists th. by rewrite E.
Qed.

Lemma event_recv_wp o set q want option timeout c ch i :
  event_inv o set q i -> runs i c ch -> want <> 0 ->
  (flagged option RT_EVENT_FLAG_AND = true \/ flagged option RT_EVENT_FLAG_OR = true) ->
  wp (rt_event_recv timer_thread o want option timeout) i (fun out i' =>
    if event_ready option want set then
      out = Returned (RT_EOK, Some (Z.land set want)) /\
      event_inv o (if flagged option RT_EVENT_FLAG_CLEAR then Z.land set (Z.lnot want) else set) q i'
    else if timeout =? 0 then out = Returned (- RT_ETIMEOUT, None) /\ event_inv o set q i'
    else out = Waiting c /\ exists flag pre post, events i !! o = Some (mk_event flag set) /\
      queue_place flag (current_priority ch) (threads (i_sched i)) q pre post /\
      event_inv o set (pre ++ c :: post) i').
Proof.
  intros Hi Hr Hw Hao. unfold rt_event_recv. rewrite (proj2 (Z.eqb_neq want 0) Hw).
  pose proof Hr as (Hcur & Hc & Est). wp_step. apply (wp_self c); [done|].
  wp_step. eapply wp_reset_error; [done|].
  pose proof (event_inv_upd o set q i c ch (set_error RT_EOK ch) Hi Hr eq_refl eq_refl eq_refl) as Hi1.
  pose proof (error_runs c ch RT_EOK i Hr) as Hr1. fold (error_i c ch RT_EOK i) in Hi1.
  assert (forall x, x ∈ q -> threads (i_sched (error_i c ch RT_EOK i)) !! x = threads (i_sched i) !! x) as Hsame.
  { intros x Hx. apply lookup_insert_ne. intros ->.
    eapply (running_not_listed _ _ _ (LSusp o) (ei_kernel _ _ _ _ Hi) Hc Est). by rewrite (members_Some _ _ _ (ei_queue _ _ _ _ Hi)). }
  destruct (ei_event _ _ _ _ Hi) as (flag & Hev & Hfl).
  assert (events (error_i c ch RT_EOK i) !! o = Some (mk_event flag set)) as Hev1 by done.
  set (i1 := error_i c ch RT_EOK i) in *. clearbody i1. pose proof Hr1 as (Hcur1 & Hc1 & Est1).
  wp_step. eapply wp_get_event; [done|]. cbn [ev_set ev_flag].
  destruct (event_ready option want set) eqn:Er.
  - wp_step. eapply wp_upd_th; [done|].
    pose proof (event_inv_upd o set q i1 c _ (set_event_info option (set_event_set (Z.land set want) (set_error RT_EOK ch)))
                  Hi1 Hr1 eq_refl eq_refl eq_refl) as Hi2.
    set (i2 := set_i_kernel _ _) in *. wp_step. apply wp_when; intros Ef.
    + unfold put_event. wp_step. wp_step. eapply wp_thread_error; [apply lookup_insert_eq|]. wp_steps.
      split; [done|]. rewrite Ef. apply (event_quiet_sub o set _ q i2 (mk_event flag set)); [done| |done].
      by rewrite Z.land_assoc, Z.land_diag.
    + wp_step. eapply wp_thread_error; [apply lookup_insert_eq|]. wp_steps. split; [done|]. by rewrite Ef.
  - destruct (timeout =? 0).
    { wp_step. eapply wp_reset_error; [done|]. wp_steps. split; [done|].
      exact (event_inv_upd o set q i1 c _ (set_error (- RT_ETIMEOUT) (set_error RT_EOK ch)) Hi1 Hr1 eq_refl eq_refl eq_refl). }
    wp_step. eapply wp_upd_th; [done|].
    pose proof (event_inv_upd o set q i1 c _ (set_event_info option (set_event_set want (set_error RT_EOK ch)))
                  Hi1 Hr1 eq_refl eq_refl eq_refl) as Hi2.
    set (ch2 := set_event_info option (set_event_set want (set_error RT_EOK ch))) in *.
    set (i2 := set_i_kernel _ _) in *. wp_step.
    eapply (event_wait_wp o set q i2 c ch2 flag timeout); [done| |done|done|done|done|].
    { split_and!; [done|apply lookup_insert_eq|done]. }
    intros pre post k' Hp Hi' _. wp_steps. split; [done|]. exists flag, pre, post. split; [done|]. split; [|done].
    eapply queue_place_ext; [|exact Hp]. intros x Hx. rewrite <- Hsame by done. apply lookup_insert_ne. intros ->.
    eapply (running_not_listed _ _ _ (LSusp o) (ei_kernel _ _ _ _ Hi1) Hc1 Est1). by rewrite (members_Some _ _ _ (ei_queue _ _ _ _ Hi1)).
Qed.

End RecvSpec.

(** ** Theorems *)

(** C8. [rt_event_send] serves the waiting threads exactly as [deliver] says:
    in queue order, each thread whose AND or OR condition the events present
    satisfy is woken, receives those events ([rt_event_recv] returns [RT_EOK]
    with them) and, with the CLEAR option, takes them away from the threads
    behind it; the others keep waiting, and the events left satisfy none of
    them ([event_inv]): no wake-up is lost. *)
Theorem event_send_delivers o set q ev i :
  event_inv o set q i -> ev <> 0 ->
  wp (rt_event_send o ev) i (fun r i' =>
    let '(set', woken, rest) := deliver (threads (i_sched i)) (Z.lor set ev) q in
    r = RT_EOK /\ event_inv o set' rest i' /\
    (forall t got, (t, got) ∈ woken -> wp (rt_event_recv_resumed t) i' (fun x _ => x = (RT_EOK, Some got))) /\
    woken_frame (fun t => t ∈ woken.*1) (i_kernel i) (i_kernel i')).
Proof.
  intros Hi Hev. eapply wp_mono; [by apply event_send_wp|]. intros r i'.
  destruct (deliver _ _ q) as [[set' woken] rest]. intros (-> & H1 & H2 & H3). split_and!; try done.
  intros t got Ht. destruct (H2 t got Ht) as (th & Hth & _ & Ee & Es).
  unfold rt_event_recv_resumed. wp_step. eapply wp_thread_error; [done|]. rewrite Ee. simpl.
  wp_step. eapply wp_get_th; [done|]. wp_steps. by rewrite Ee, Es.
Qed.

(** Thread 4 asks for events 2 or 4 and clears them. *)
Lemma event_send_delivers_witness :
  exists i', rt_event_send 9 2 demo_event = Some (RT_EOK, i') /\ event_inv 9 1 [] i' /\
    exists i'', rt_event_recv_resumed 4 i' = Some ((RT_EOK, Some 2), i'').
Proof.
  destruct (proj1 (wp_Some _ _ _) (event_send_delivers 9 1 [4%positive] 2 demo_event demo_event_inv ltac:(lia)))
    as (r & i' & E & H).
  assert (deliver (threads (i_sched demo_event)) (Z.lor 1 2) [4%positive] = (1, [(4%positive, 2)], [])) as Ed
    by (vm_compute; reflexivity).
  rewrite Ed in H. destruct H as (-> & H1 & H2 & _). exists i'. split; [exact E|]. split; [exact H1|].
  destruct (proj1 (wp_Some _ _ _) (H2 4%positive 2 ltac:(set_solver))) as (x & i'' & E2 & ->). by exists i''.
Defined.

(** [rt_event_recv] by the running thread, with a non-empty set and an
    AND or OR option: when the events present satisfy the condition it returns
    them at once and, with CLEAR, removes the whole set asked for; otherwise it
    returns [-RT_ETIMEOUT] without waiting, or the thread waits at its place in
    the queue.  Nothing faults, and never does a thread wait whose condition
    the events present satisfy. *)
Theorem event_recv_spec timer_thread o set q want option timeout c ch i :
  event_inv o set q i -> runs i c ch -> want <> 0 ->
  (flagged option RT_EVENT_FLAG_AND = true \/ flagged option RT_EVENT_FLAG_OR = true) ->
  wp (rt_event_recv timer_thread o want option timeout) i (fun out i' =>
    if event_ready option want set then
      out = Returned (RT_EOK, Some (Z.land set want)) /\
      event_inv o (if flagged option RT_EVENT_FLAG_CLEAR then Z.land set (Z.lnot want) else set) q i'
    else if timeout =? 0 then out = Returned (- RT_ETIMEOUT, None) /\ event_inv o set q i'
    else out = Waiting c /\ exists flag pre post, events i !! o = Some (mk_event flag set) /\
      queue_place flag (current_priority ch) (threads (i_sched i)) q pre post /\
      event_inv o set (pre ++ c :: post) i').
Proof. apply event_recv_wp. Qed.

Lemma event_recv_spec_witness :
  exists i', rt_event_recv 99 9 3 (RT_EVENT_FLAG_OR + RT_EVENT_FLAG_CLEAR) 0 demo_event =
    Some (Returned (RT_EOK, Some 1), i') /\ event_inv 9 0 [4%positive] i'.
Proof.
  destruct (proj1 (wp_Some _ _ _)
    (event_recv_spec 99 9 1 [4%positive] 3 (RT_EVENT_FLAG_OR + RT_EVENT_FLAG_CLEAR) 0 1 _ demo_event
       demo_event_inv demo_event_runs ltac:(lia) ltac:(by right))) as (out & i' & E & -> & H).
  exists i'. split; [exact E|exact H].
Defined.

(** A receiver without AND and OR makes the event object useless for the
    threads behind it: thread 1 waits with option 0 (the assertion that forbids
    it is compiled out), thread 2 waits for event 1, and [rt_event_send] of
    event 1 by thread 3 returns [-RT_EINVAL] at thread 1, so thread 2 keeps
    waiting although its event is set. *)
Theorem event_bad_option_blocks :
  wp (rt_event_recv 99 11 1 0 RT_WAITING_FOREVER;;
      rt_event_recv 99 11 1 RT_EVENT_FLAG_OR RT_WAITING_FOREVER;;
      rt_event_send 11 1) demo_ipc (fun r i =>
    r = - RT_EINVAL /\ tlists (i_sched i) !! LSusp 11 = Some [1%positive; 2%positive] /\
    (ev_set <$> events i !! 11%positive) = Some 1 /\
    rt_current_thread (i_sched i) = Some 3%positive).
Proof. vm_compute. split_and!; reflexivity. Qed.

End Event.
