(* ===== verification/Mailbox.v ===== *)
(** * Mailboxes

    Model of the mailbox of [rt-thread/src/ipc.c]: a circular buffer of words
    with a queue of waiting receivers ([suspend_thread], [LSusp]) and one of
    waiting senders ([suspend_sender_thread], [LSender]).

    [rt_mb_send_wait] and [rt_mb_recv] wait in a loop; one round of the loop,
    with the code after it, is [mb_send_round] and [mb_recv_round].  A thread
    that waits keeps its local variables in [mb_wait]; the code from the return
    of [rt_schedule] to the next round is [rt_mb_send_wait_resumed] and
    [rt_mb_recv_resumed]. *)
From stdpp Require Import base list gmap sorting.
From Stdlib Require Import ZArith Lia.
From S2P Require Import Prelude Scheduler Object Timer Thread Ipc.

Module Mailbox.
Import Sched Obj Thr Ipc.

Definition get_mb (o : oid) : M ipc rt_mailbox := m ← gets mailboxes; deref (m !! o).
Definition put_mb (o : oid) (mb : rt_mailbox) : M ipc unit :=
  modify (fun i => set_mailboxes (<[o := mb]> (mailboxes i)) i).

Definition rt_mb_init (o : oid) (nm : list Z) (msgpool : list Z) (size flag : Z) : M ipc Z :=
  in_kernel (rt_object_init (Obj o) RT_Object_Class_MailBox nm);;
  in_kernel (in_sched (rt_ipc_object_init o));;
  put_mb o (mk_mb flag msgpool (u16 size) 0 0 0);;
  in_kernel (in_sched (tlist_init (LSender o)));;
  mret RT_EOK.

Definition rt_mb_detach (fuel : nat) (o : oid) : M ipc Z :=
  in_kernel (rt_ipc_list_resume_all fuel (LSusp o));;
  in_kernel (rt_ipc_list_resume_all fuel (LSender o));;
  in_kernel (in_obj (rt_object_detach (Obj o)));;
  mret RT_EOK.

(** [++offset; if (offset >= size) offset = 0;] *)
Definition mb_next (size offset : Z) : Z :=
  let offset := u16 (offset + 1) in if size <=? offset then 0 else offset.

(** Wake the first thread of a queue, if any, and schedule. *)
Definition resume_one (l : lhead) : M ipc unit :=
  waiter ← has_waiter l;
  when waiter (in_kernel (rt_ipc_list_resume l);; schedule).

(** The local variables of a thread that waits. *)
Record mb_wait := mk_mb_wait {
  mw_thread : oid;
  mw_timeout : Z;
  mw_tick_delta : Z
}.

(** The timeout that is left after waiting: [timeout] is signed and the
    difference of the ticks is not. *)
Definition left_timeout (timeout tick_delta now : Z) : Z :=
  if 0 <? timeout then
    let timeout := s32 (timeout - u32 (now - tick_delta)) in
    if timeout <? 0 then 0 else timeout
  else timeout.

Section Wait.
Context (timer_thread : oid).

(** [rt_mb_send_wait], from the test of the loop on. *)
Definition mb_send_round (o : oid) (thread : option oid) (value timeout : Z) : M ipc (outcome mb_wait Z) :=
  mb ← get_mb o;
  if mb_entry mb =? mb_size mb then
    thread ← deref thread;
    reset_error thread RT_EOK;;
    if timeout =? 0 then mret (Returned (- RT_EFULL))
    else
      tick_delta ← in_kernel rt_tick_get;
      wait_on timer_thread (LSender o) thread (mb_flag mb) timeout;;
      mret (Waiting (mk_mb_wait thread timeout tick_delta))
  else
    pool ← deref (wr (msg_pool mb) (in_offset mb) value);
    let mb := set_in_offset (mb_next (mb_size mb) (in_offset mb)) (set_msg_pool pool mb) in
    put_mb o mb;;
    if mb_entry mb <? RT_MB_ENTRY_MAX then
      put_mb o (set_mb_entry (mb_entry mb + 1) mb);;
      resume_one (LSusp o);;
      mret (Returned RT_EOK)
    else mret (Returned (- RT_EFULL)).

Definition rt_mb_send_wait (o : oid) (value timeout : Z) : M ipc (outcome mb_wait Z) :=
  thread ← in_kernel (in_sched rt_thread_self);
  mb ← get_mb o;
  if (mb_entry mb =? mb_size mb) && (timeout =? 0) then mret (Returned (- RT_EFULL))
  else mb_send_round o thread value timeout.

Definition rt_mb_send_wait_resumed (o : oid) (w : mb_wait) (value : Z) : M ipc (outcome mb_wait Z) :=
  e ← thread_error (mw_thread w);
  if negb (e =? RT_EOK) then mret (Returned e)
  else
    now ← in_kernel rt_tick_get;
    mb_send_round o (Some (mw_thread w)) value (left_timeout (mw_timeout w) (mw_tick_delta w) now).

Definition rt_mb_send (o : oid) (value : Z) : M ipc (outcome mb_wait Z) := rt_mb_send_wait o value 0.

Definition rt_mb_urgent (o : oid) (value : Z) : M ipc Z :=
  mb ← get_mb o;
  if mb_entry mb =? mb_size mb then mret (- RT_EFULL)
  else
    let out := if 0 <? out_offset mb then out_offset mb - 1 else u16 (mb_size mb - 1) in
    pool ← deref (wr (msg_pool mb) out value);
    put_mb o (set_mb_entry (u16 (mb_entry mb + 1)) (set_msg_pool pool (set_out_offset out mb)));;
    resume_one (LSusp o);;
    mret RT_EOK.

(** [rt_mb_recv], from the test of the loop on; the value is what is written to
    [*value]. *)
Definition mb_recv_round (o : oid) (thread : option oid) (timeout : Z)
  : M ipc (outcome mb_wait (Z * option Z)) :=
  mb ← get_mb o;
  if mb_entry mb =? 0 then
    thread ← deref thread;
    reset_error thread RT_EOK;;
    if timeout =? 0 then
      reset_error thread (- RT_ETIMEOUT);;
      mret (Returned (- RT_ETIMEOUT, None))
    else
      tick_delta ← in_kernel rt_tick_get;
      wait_on timer_thread (LSusp o) thread (mb_flag mb) timeout;;
      mret (Waiting (mk_mb_wait thread timeout tick_delta))
  else
    value ← deref (rd (msg_pool mb) (out_offset mb));
    let mb := set_out_offset (mb_next (mb_size mb) (out_offset mb)) mb in
    put_mb o (if 0 <? mb_entry mb then set_mb_entry (mb_entry mb - 1) mb else mb);;
    resume_one (LSender o);;
    mret (Returned (RT_EOK, Some value)).

Definition rt_mb_recv (o : oid) (timeout : Z) : M ipc (outcome mb_wait (Z * option Z)) :=
  thread ← in_kernel (in_sched rt_thread_self);
  mb ← get_mb o;
  if (mb_entry mb =? 0) && (timeout =? 0) then mret (Returned (- RT_ETIMEOUT, None))
  else mb_recv_round o thread timeout.

Definition rt_mb_recv_resumed (o : oid) (w : mb_wait) : M ipc (outcome mb_wait (Z * option Z)) :=
  e ← thread_error (mw_thread w);
  if negb (e =? RT_EOK) then mret (Returned (e, None))
  else
    now ← in_kernel rt_tick_get;
    mb_recv_round o (Some (mw_thread w)) (left_timeout (mw_timeout w) (mw_tick_delta w) now).

End Wait.

Definition rt_mb_control (fuel : nat) (o : oid) (cmd arg : Z) : M ipc Z :=
  if cmd =? RT_IPC_CMD_RESET then
    in_kernel (rt_ipc_list_resume_all fuel (LSusp o));;
    in_kernel (rt_ipc_list_resume_all fuel (LSender o));;
    mb ← get_mb o;
    put_mb o (set_out_offset 0 (set_in_offset 0 (set_mb_entry 0 mb)));;
    schedule;;
    mret RT_EOK
  else mret (- RT_ERROR).

(** ** The circular buffer *)

(** Where the [j]-th message is. *)
Definition slot (mb : rt_mailbox) (j : nat) : nat :=
  Z.to_nat ((out_offset mb + Z.of_nat j) mod mb_size mb).

(** The mailbox holds the messages [msgs], oldest first. *)
Record mb_ok (mb : rt_mailbox) (msgs : list Z) : Prop := {
  mo_size : 0 < mb_size mb <= RT_MB_ENTRY_MAX;
  mo_pool : Z.of_nat (length (msg_pool mb)) = mb_size mb;
  mo_out : 0 <= out_offset mb < mb_size mb;
  mo_in : in_offset mb = (out_offset mb + mb_entry mb) mod mb_size mb;
  mo_entry : mb_entry mb = Z.of_nat (length msgs);
  mo_room : mb_entry mb <= mb_size mb;
  mo_msgs : forall j, (j < length msgs)%nat -> msg_pool mb !! slot mb j = msgs !! j
}.

Lemma mb_next_mod mb msgs x :
  mb_ok mb msgs -> 0 <= x < mb_size mb -> mb_next (mb_size mb) x = (x + 1) mod mb_size mb.
Proof.
  intros H Hx. pose proof (mo_size _ _ H) as Hs. unfold RT_MB_ENTRY_MAX in Hs. unfold mb_next.
  rewrite uwrap_small by c_lia. apply mod_succ_wrap; lia.
Qed.

Lemma mb_ok_push mb msgs v :
  mb_ok mb msgs -> mb_entry mb <> mb_size mb ->
  exists pool, wr (msg_pool mb) (in_offset mb) v = Some pool /\
    mb_ok (set_mb_entry (mb_entry mb + 1)
             (set_in_offset (mb_next (mb_size mb) (in_offset mb)) (set_msg_pool pool mb))) (msgs ++ [v]).
Proof.
  intros H Hne. pose proof H as [Hs Hp Ho Hi He Hr Hm].
  pose proof (mod_range (mb_size mb) (out_offset mb + mb_entry mb) ltac:(lia)) as Hin. rewrite <- Hi in Hin.
  exists (<[Z.to_nat (in_offset mb) := v]> (msg_pool mb)). split; [apply wr_Some; lia|].
  split; simpl; [done|by rewrite length_insert|done| |rewrite length_app; simpl; lia|lia|].
  - rewrite (mb_next_mod mb msgs) by done. rewrite Hi, Zplus_mod_idemp_l. f_equal. lia.
  - intros j Hj. rewrite length_app in Hj. simpl in Hj. unfold slot. simpl. fold (slot mb j).
    destruct (decide (j = length msgs)) as [->|Hn].
    + assert (slot mb (length msgs) = Z.to_nat (in_offset mb)) as -> by (unfold slot; by rewrite <- He, Hi).
      rewrite list_lookup_insert_eq by lia. by rewrite lookup_app_r, Nat.sub_diag by lia.
    + rewrite list_lookup_insert_ne; [|].
      * rewrite lookup_app_l by lia. apply Hm. lia.
      * unfold slot. intros E. apply Z2Nat.inj in E; [|lia|apply mod_range; lia]. rewrite Hi in E.
        apply mod_shift_inj in E; lia.
Qed.

Lemma mb_ok_urgent mb msgs v :
  mb_ok mb msgs -> mb_entry mb <> mb_size mb ->
  let out := if 0 <? out_offset mb then out_offset mb - 1 else u16 (mb_size mb - 1) in
  exists pool, wr (msg_pool mb) out v = Some pool /\
    mb_ok (set_mb_entry (u16 (mb_entry mb + 1)) (set_msg_pool pool (set_out_offset out mb))) (v :: msgs).
Proof.
  intros H Hne out. pose proof H as [Hs Hp Ho Hi He Hr Hm]. unfold RT_MB_ENTRY_MAX in *.
  assert (out = (out_offset mb - 1) mod mb_size mb /\ 0 <= out < mb_size mb) as [Eo Hout].
  { unfold out. destruct (0 <? out_offset mb) eqn:E; [rewrite Z.mod_small by lia; lia|].
    rewrite uwrap_small by c_lia. replace (out_offset mb - 1) with (mb_size mb - 1 + (-1) * mb_size mb) by lia.
    rewrite Z_mod_plus_full, Z.mod_small by lia. lia. }
  clearbody out. exists (<[Z.to_nat out := v]> (msg_pool mb)). split; [apply wr_Some; lia|].
  rewrite uwrap_small by c_lia.
  split; unfold RT_MB_ENTRY_MAX; simpl; [done|by rewrite length_insert|done| |lia|lia|].
  - rewrite Hi, Eo, Zplus_mod_idemp_l. f_equal. lia.
  - intros j Hj. unfold slot. simpl. destruct j as [|j].
    + rewrite Z.add_0_r, Z.mod_small by lia. by rewrite list_lookup_insert_eq by lia.
    + assert ((out + Z.of_nat (S j)) mod mb_size mb = (out_offset mb + Z.of_nat j) mod mb_size mb) as E.
      { rewrite Eo, Zplus_mod_idemp_l. f_equal. lia. }
      simpl. rewrite list_lookup_insert_ne; [rewrite E; apply Hm; simpl in Hj; lia|].
      intros E2. apply Z2Nat.inj in E2; [|lia|apply mod_range; lia].
      rewrite <- (Z.mod_small out (mb_size mb)) in E2 at 1 by lia. rewrite <- (Z.add_0_r out) in E2 at 1.
      apply mod_shift_inj in E2; simpl in Hj; lia.
Qed.

Lemma mb_ok_pop mb v msgs :
  mb_ok mb (v :: msgs) ->
  rd (msg_pool mb) (out_offset mb) = Some v /\ (0 <? mb_entry mb) = true /\
  mb_ok (set_mb_entry (mb_entry mb - 1)
           (set_out_offset (mb_next (mb_size mb) (out_offset mb)) mb)) msgs.
Proof.
  intros H. pose proof H as [Hs Hp Ho Hi He Hr Hm]. simpl in He.
  pose proof (Hm 0%nat ltac:(simpl; lia)) as H0. unfold slot in H0. rewrite Z.add_0_r, Z.mod_small in H0 by lia. simpl in H0.
  split_and!.
  - unfold rd. destruct (0 <=? out_offset mb) eqn:?; [done|lia].
  - lia.
  - rewrite (mb_next_mod mb (v :: msgs)) by done. split; simpl; [done|done|apply mod_range; lia| |lia|lia|].
    + rewrite Hi, Zplus_mod_idemp_l. f_equal. lia.
    + intros j Hj. specialize (Hm (S j) ltac:(simpl; lia)). simpl in Hm. rewrite <- Hm. unfold slot. simpl.
      rewrite Zplus_mod_idemp_l. do 3 f_equal. lia.
Qed.

(** ** Waking one thread of a queue *)

(** From [k] to [k'] the first thread of queue [l], if any, has been woken. *)
Record wakes_first (l : lhead) (q : list oid) (k k' : kernel) : Prop := {
  wf_inv : kinv k';
  wf_current : exists c', rt_current_thread (k_sched k') = Some c';
  wf_queue : tlists (k_sched k') !! l = Some (tail q);
  wf_lists : forall l', is_wait l' -> l' <> l -> tlists (k_sched k') !! l' = tlists (k_sched k) !! l';
  wf_self : forall w wh, head q = Some w -> threads (k_sched k) !! w = Some wh ->
    exists wh', threads (k_sched k') !! w = Some wh' /\ runnable wh' /\ same_task wh wh';
  wf_frame : woken_frame (fun x => head q = Some x) k k';
  wf_tick : rt_tick k' = rt_tick k
}.

Lemma resume_one_wp l q i (Q : unit -> ipc -> Prop) :
  kinv (i_kernel i) -> (exists c, rt_current_thread (i_sched i) = Some c) -> is_wait l ->
  tlists (i_sched i) !! l = Some q ->
  (forall k', wakes_first l q (i_kernel i) k' -> Q tt (set_i_kernel k' i)) ->
  wp (resume_one l) i Q.
Proof.
  intros Hk (c & Hc) Hw Hl HQ. unfold resume_one. wp_step. eapply wp_has_waiter; [done|].
  destruct q as [|w ws]; simpl.
  - wp_step. rewrite <- (set_i_kernel_id i). apply HQ.
    split; [done|by exists c|done|done|done|apply woken_frame_refl|done].
  - wp_step. apply wp_in_kernel. eapply (wp_ipc_list_resume l w ws c); [done..|].
    intros wh k' Hwh Est Hwk Hc'. apply (wp_schedule c); [apply Hwk|done|]. intros s' Hs'. apply HQ.
    pose proof (wakes_scheduled l w wh ws _ k' s' Hw Hwk Hs') as [W1 W2 W3 W4 W5 W6 W7].
    split; try done.
    + intros w' wh' [= <-] Hwh'. simplify_eq. exact W5.
    + intros x xh Hx. destruct (W6 x xh Hx) as [F1 F2]. split; intros Hn; [apply F1|apply F2]; intros ->; by apply Hn.
Qed.

(** A queue whose threads wait without an error keeps that. *)
Definition calm (s : sched) (q : list oid) : Prop := forall t, t ∈ q -> has_error s RT_EOK t.

Lemma calm_frame (W : oid -> Prop) l q q' k k' :
  kinv k -> is_wait l -> tlists (k_sched k) !! l = Some q -> woken_frame W k k' ->
  (forall t, t ∈ q' -> t ∈ q /\ ~ W t) -> calm (k_sched k) q -> calm (k_sched k') q'.
Proof.
  intros Hk Hw Hl Hf Hsub Hc t0 Ht0.
  apply (frame_error W (k_sched k) (k_sched k') RT_EOK q' k k'); [done|done|done| | |exact Ht0].
  - intros t Ht. apply Hc, Hsub, Ht.
  - intros t Ht. destruct (Hsub t Ht). split; [done|]. by eapply waiter_of.
Qed.

Lemma queues_disjoint k l l' q q' t :
  kinv k -> tlists (k_sched k) !! l = Some q -> tlists (k_sched k) !! l' = Some q' -> l <> l' ->
  t ∈ q -> t ∈ q' -> False.
Proof.
  intros Hk H1 H2 Hn Ht Ht'. apply Hn. eapply (lo_once _ (kinv_lists k Hk) _ _ t); unfold inl_;
    [by rewrite (members_Some _ _ _ H1)|by rewrite (members_Some _ _ _ H2)].
Qed.

Lemma calm_wakes_first l l' q q' k k' :
  kinv k -> is_wait l -> is_wait l' -> tlists (k_sched k) !! l = Some q -> tlists (k_sched k) !! l' = Some q' ->
  l <> l' -> wakes_first l q k k' -> calm (k_sched k) q -> calm (k_sched k) q' ->
  calm (k_sched k') (tail q) /\ calm (k_sched k') q'.
Proof.
  intros Hk Hw Hw' H1 H2 Hn Hwf Hc Hc'. split.
  - eapply (calm_frame _ l q (tail q)); [done|done|exact H1|apply Hwf| |done].
    intros t Ht. destruct q as [|w ws]; simpl in *; [by apply elem_of_nil in Ht|]. split; [by right|].
    intros [= <-]. apply (queue_nodup _ _ _ Hk), NoDup_cons in H1 as [? _]. done.
  - eapply (calm_frame _ l' q' q'); [done|done|exact H2|apply Hwf| |done].
    intros t Ht. split; [done|]. intros Eh. eapply (queues_disjoint k l l' q q' t); try done.
    destruct q; simplify_eq/=. by left.
Qed.

(** ** The invariant of a mailbox *)

Record mb_inv (o : oid) (n : Z) (msgs : list Z) (rs ss : list oid) (i : ipc) : Prop := {
  mb_kernel : kinv (i_kernel i);
  mb_current : exists c, rt_current_thread (i_sched i) = Some c;
  mb_box : exists mb, mailboxes i !! o = Some mb /\ mb_ok mb msgs /\ mb_size mb = n /\
    (mb_flag mb = RT_IPC_FLAG_FIFO \/ mb_flag mb = RT_IPC_FLAG_PRIO);
  mb_receivers : tlists (i_sched i) !! LSusp o = Some rs;
  mb_senders : tlists (i_sched i) !! LSender o = Some ss;
  mb_calm_r : calm (i_sched i) rs;
  mb_calm_s : calm (i_sched i) ss
}.

Lemma wp_get_mb o mb i (Q : rt_mailbox -> ipc -> Prop) :
  mailboxes i !! o = Some mb -> Q mb i -> wp (get_mb o) i Q.
Proof. intros H HQ. unfold get_mb. wp_steps. by eapply wp_deref. Qed.

Lemma wp_thread_self i (Q : option oid -> ipc -> Prop) :
  Q (rt_current_thread (i_sched i)) i -> wp (in_kernel (in_sched rt_thread_self)) i Q.
Proof.
  intros HQ. apply wp_in_kernel, wp_in_sched. unfold rt_thread_self. wp_steps.
  by rewrite set_k_sched_id, set_i_kernel_id.
Qed.

Lemma wp_tick i (Q : Z -> ipc -> Prop) : Q (rt_tick (i_kernel i)) i -> wp (in_kernel rt_tick_get) i Q.
Proof. intros HQ. apply wp_in_kernel. unfold rt_tick_get. wp_steps. by rewrite set_i_kernel_id. Qed.

(** A new content of the mailbox and one thread woken. *)
Lemma mb_update o n msgs msgs' rs ss i mb mb' l q k' :
  mb_inv o n msgs rs ss i -> mailboxes i !! o = Some mb -> mb_ok mb' msgs' -> mb_flag mb' = mb_flag mb -> mb_size mb' = mb_size mb ->
  (l = LSusp o /\ q = rs) \/ (l = LSender o /\ q = ss) ->
  wakes_first l q (i_kernel i) k' ->
  mb_inv o n msgs' (if decide (l = LSusp o) then tail rs else rs) (if decide (l = LSender o) then tail ss else ss)
    (set_i_kernel k' (set_mailboxes (<[o := mb']> (mailboxes i)) i)).
Proof.
  intros [H1 H2 (mb0 & H3 & _ & Hsz & Hfl) H4 H5 H6 H7] Hmb Hok Ef Es Hl Hwf. simplify_eq.
  destruct Hl as [[-> ->]|[-> ->]].
  - rewrite decide_True, decide_False by done.
    destruct (calm_wakes_first (LSusp o) (LSender o) rs ss _ k' H1 I I H4 H5 ltac:(done) Hwf H6 H7) as [C1 C2].
    split; simpl; [apply Hwf|apply Hwf| |apply Hwf|by rewrite (wf_lists _ _ _ _ Hwf (LSender o) I)|done|done].
    exists mb'. rewrite lookup_insert_eq, Ef, Es. done.
  - rewrite decide_False, decide_True by done.
    destruct (calm_wakes_first (LSender o) (LSusp o) ss rs _ k' H1 I I H5 H4 ltac:(done) Hwf H7 H6) as [C1 C2].
    split; simpl; [apply Hwf|apply Hwf| |by rewrite (wf_lists _ _ _ _ Hwf (LSusp o) I)|apply Hwf|done|done].
    exists mb'. rewrite lookup_insert_eq, Ef, Es. done.
Qed.

(** The running thread waits on one of the two queues. *)
Lemma calm_waits l c ch q0 pre post time k k' :
  kinv k -> is_wait l -> tlists (k_sched k) !! l = Some q0 -> q0 = pre ++ post ->
  threads (k_sched k) !! c = Some ch -> stat_of ch = RT_THREAD_RUNNING ->
  waits l c (set_error RT_EOK ch) (pre ++ c :: post) time k k' ->
  calm (k_sched k) q0 -> calm (k_sched k') (pre ++ c :: post).
Proof.
  intros Hk Hw Hl -> Hc Est Hwt Hcm t Ht.
  by apply (waits_errors l c ch (pre ++ post) pre post time k k').
Qed.

Lemma calm_waits_other l l' c ch ch' q q' time k k' :
  kinv k -> is_wait l' -> tlists (k_sched k) !! l' = Some q' -> threads (k_sched k) !! c = Some ch ->
  stat_of ch = RT_THREAD_RUNNING -> waits l c ch' q time k k' -> calm (k_sched k) q' -> calm (k_sched k') q'.
Proof.
  intros Hk Hw Hl Hc Est Hwt Hcm. eapply (calm_frame (fun x => x = c) l' q'); [done|done|exact Hl|apply Hwt| |done].
  intros t Ht. split; [done|]. intros ->. eapply (running_not_listed k c ch l'); [done..|]. by rewrite (members_Some _ _ _ Hl).
Qed.

Section Specs.
Context (timer_thread : oid).

Definition mb_full (mb : rt_mailbox) (msgs : list Z) : bool := Z.of_nat (length msgs) =? mb_size mb.

(** The first thread of [q] has been woken and its wait ends without an error. *)
Definition first_woken (q : list oid) (i' : ipc) : Prop :=
  forall w, head q = Some w -> exists wh, threads (i_sched i') !! w = Some wh /\ runnable wh /\ error wh = RT_EOK.

Lemma first_woken_of l q k k' i' :
  kinv k -> is_wait l -> tlists (k_sched k) !! l = Some q -> calm (k_sched k) q ->
  wakes_first l q k k' -> i_kernel i' = k' -> first_woken q i'.
Proof.
  intros Hk Hw Hl Hcm Hwf <- w Hh. destruct (Hcm w) as (wh & Hwh & Ee); [destruct q; simplify_eq/=; by left|].
  destruct (wf_self _ _ _ _ Hwf w wh Hh Hwh) as (wh' & ? & ? & E & _). exists wh'. split_and!; [done|done|congruence].
Qed.

Definition send_post (o : oid) (n : Z) (msgs : list Z) (rs ss : list oid) (mb : rt_mailbox) (value timeout : Z) (i : ipc)
    (out : outcome mb_wait Z) (i' : ipc) : Prop :=
  if mb_full mb msgs then
    exists c ch pre post, out = Waiting (mk_mb_wait c timeout (rt_tick (i_kernel i))) /\ runs i c ch /\
      queue_place (mb_flag mb) (current_priority ch) (threads (i_sched i)) ss pre post /\
      mb_inv o n msgs rs (pre ++ c :: post) i'
  else out = Returned RT_EOK /\ mb_inv o n (msgs ++ [value]) (tail rs) ss i' /\ first_woken rs i'.

Lemma mb_send_round_wp o n msgs rs ss mb value timeout i :
  mb_inv o n msgs rs ss i -> mailboxes i !! o = Some mb ->
  (mb_full mb msgs = true -> timeout <> 0 /\ exists c ch, runs i c ch) ->
  wp (mb_send_round timer_thread o (rt_current_thread (i_sched i)) value timeout) i
    (send_post o n msgs rs ss mb value timeout i).
Proof.
  intros Hi Hmb Hfull. pose proof Hi as [H1 H2 (mb0 & H3 & Hok & Hsz & Hfl) H4 H5 H6 H7]. simplify_eq.
  unfold mb_send_round. wp_step. eapply wp_get_mb; [done|].
  unfold send_post, mb_full in *. rewrite <- (mo_entry _ _ Hok) in *. destruct (mb_entry mb =? mb_size mb) eqn:Ef.
  - destruct (Hfull eq_refl) as (Ht & c & ch & Hr). pose proof Hr as (Hcur & Hc & Est). rewrite Hcur.
    wp_step. eapply wp_deref; [done|]. wp_step. eapply wp_reset_error; [done|].
    rewrite (proj2 (Z.eqb_neq timeout 0) Ht). wp_step. apply wp_tick. wp_step.
    eapply wp_wait_cleared; [exact H1|exact I|exact H5|exact Hr|done|]. intros pre post k' Hp Hwt. wp_steps.
    exists c, ch, pre, post. split; [done|]. split; [done|]. split; [exact Hp|].
    split; simpl; [apply Hwt|apply Hwt|by exists mb|by rewrite (w_lists _ _ _ _ _ _ _ Hwt (LSusp o) I)|apply Hwt| |].
    + eapply (calm_waits_other (LSender o) (LSusp o)); [exact H1|done|exact H4|exact Hc|exact Est|exact Hwt|done].
    + eapply (calm_waits (LSender o)); [exact H1|done|exact H5|apply Hp|exact Hc|exact Est|exact Hwt|done].
  - destruct (mb_ok_push mb msgs value Hok ltac:(lia)) as (pool & Ew & Hok').
    wp_step. eapply wp_deref; [exact Ew|]. unfold put_mb. wp_step. wp_step.
    pose proof (mo_room _ _ Hok). pose proof (mo_size _ _ Hok).
    assert ((mb_entry mb <? RT_MB_ENTRY_MAX) = true) as E by lia. cbn [mb_entry set_in_offset set_msg_pool].
    rewrite E. wp_step. wp_step. wp_step. eapply resume_one_wp; [exact H1|exact H2|exact I|exact H4|].
    intros k' Hwf. wp_steps. split; [done|]. split; [|by eapply (first_woken_of (LSusp o))].
    pose proof (mb_update o _ msgs _ rs ss i mb _ (LSusp o) rs k' Hi Hmb Hok' eq_refl eq_refl (or_introl (conj eq_refl eq_refl)) Hwf) as Hu.
    rewrite decide_True, decide_False in Hu by done. unfold set_mailboxes in *. simpl in *. rewrite insert_insert_eq. exact Hu.
Qed.

Lemma mb_send_wp o n msgs rs ss mb value timeout i :
  mb_inv o n msgs rs ss i -> mailboxes i !! o = Some mb ->
  (mb_full mb msgs = true -> timeout <> 0 -> exists c ch, runs i c ch) ->
  wp (rt_mb_send_wait timer_thread o value timeout) i (fun out i' =>
    if mb_full mb msgs && (timeout =? 0) then out = Returned (- RT_EFULL) /\ i' = i
    else send_post o n msgs rs ss mb value timeout i out i').
Proof.
  intros Hi Hmb Hr. unfold rt_mb_send_wait. wp_step. apply wp_thread_self. wp_step. eapply wp_get_mb; [done|].
  destruct (mb_box _ _ _ _ _ _ Hi) as (mb0 & H3 & Hok & _). simplify_eq.
  assert ((mb_entry mb =? mb_size mb) = mb_full mb msgs) as Ef by (unfold mb_full; by rewrite <- (mo_entry _ _ Hok)).
  rewrite Ef. destruct (mb_full mb msgs && (timeout =? 0)) eqn:E; [by wp_steps|].
  apply mb_send_round_wp; [done|done|]. intros Hf. rewrite Hf in E. simpl in E.
  split; [lia|]. apply Hr; [done|lia].
Qed.

Lemma mb_urgent_wp o n msgs rs ss mb value i :
  mb_inv o n msgs rs ss i -> mailboxes i !! o = Some mb ->
  wp (rt_mb_urgent o value) i (fun r i' =>
    if mb_full mb msgs then r = - RT_EFULL /\ i' = i
    else r = RT_EOK /\ mb_inv o n (value :: msgs) (tail rs) ss i' /\ first_woken rs i').
Proof.
  intros Hi Hmb. pose proof Hi as [H1 H2 (mb0 & H3 & Hok & Hsz & Hfl) H4 H5 H6 H7]. simplify_eq.
  unfold rt_mb_urgent. wp_step. eapply wp_get_mb; [done|]. unfold mb_full. rewrite <- (mo_entry _ _ Hok).
  destruct (mb_entry mb =? mb_size mb) eqn:Ef; [by wp_steps|].
  destruct (mb_ok_urgent mb msgs value Hok ltac:(lia)) as (pool & Ew & Hok').
  wp_step. eapply wp_deref; [exact Ew|]. unfold put_mb. wp_step. wp_step. wp_step.
  eapply resume_one_wp; [exact H1|exact H2|exact I|exact H4|].
  intros k' Hwf. wp_steps. split; [done|]. split; [|by eapply (first_woken_of (LSusp o))].
  pose proof (mb_update o _ msgs _ rs ss i mb _ (LSusp o) rs k' Hi Hmb Hok' eq_refl eq_refl (or_introl (conj eq_refl eq_refl)) Hwf) as Hu.
  by rewrite decide_True, decide_False in Hu by done.
Qed.

Definition recv_post (o : oid) (n : Z) (msgs : list Z) (rs ss : list oid) (mb : rt_mailbox) (timeout : Z) (i : ipc)
    (out : outcome mb_wait (Z * option Z)) (i' : ipc) : Prop :=
  match msgs with
  | [] => exists c ch pre post, out = Waiting (mk_mb_wait c timeout (rt_tick (i_kernel i))) /\ runs i c ch /\
      queue_place (mb_flag mb) (current_priority ch) (threads (i_sched i)) rs pre post /\
      mb_inv o n [] (pre ++ c :: post) ss i'
  | v :: msgs => out = Returned (RT_EOK, Some v) /\ mb_inv o n msgs rs (tail ss) i' /\ first_woken ss i'
  end.

Lemma mb_recv_round_wp o n msgs rs ss mb timeout i :
  mb_inv o n msgs rs ss i -> mailboxes i !! o = Some mb ->
  (msgs = [] -> timeout <> 0 /\ exists c ch, runs i c ch) ->
  wp (mb_recv_round timer_thread o (rt_current_thread (i_sched i)) timeout) i
    (recv_post o n msgs rs ss mb timeout i).
Proof.
  intros Hi Hmb Hempty. pose proof Hi as [H1 H2 (mb0 & H3 & Hok & Hsz & Hfl) H4 H5 H6 H7]. simplify_eq.
  unfold mb_recv_round. wp_step. eapply wp_get_mb; [done|].
  pose proof (mo_entry _ _ Hok) as Ee. destruct msgs as [|v msgs].
  - rewrite Ee. simpl. destruct (Hempty eq_refl) as (Ht & c & ch & Hr). pose proof Hr as (Hcur & Hc & Est). rewrite Hcur.
    wp_step. eapply wp_deref; [done|]. wp_step. eapply wp_reset_error; [done|].
    rewrite (proj2 (Z.eqb_neq timeout 0) Ht). wp_step. apply wp_tick. wp_step.
    eapply wp_wait_cleared; [exact H1|exact I|exact H4|exact Hr|done|]. intros pre post k' Hp Hwt. wp_steps.
    exists c, ch, pre, post. split; [done|]. split; [done|]. split; [exact Hp|].
    split; simpl; [apply Hwt|apply Hwt|by exists mb|apply Hwt|by rewrite (w_lists _ _ _ _ _ _ _ Hwt (LSender o) I)| |].
    + eapply (calm_waits (LSusp o)); [exact H1|done|exact H4|apply Hp|exact Hc|exact Est|exact Hwt|done].
    + eapply (calm_waits_other (LSusp o) (LSender o)); [exact H1|done|exact H5|exact Hc|exact Est|exact Hwt|done].
  - destruct (mb_ok_pop mb v msgs Hok) as (Er & Ep & Hok'). simpl in Ee.
    assert ((mb_entry mb =? 0) = false) as -> by lia. wp_step. eapply wp_deref; [exact Er|].
    unfold put_mb. wp_step. wp_step. cbn [mb_entry set_out_offset]. rewrite Ep. wp_step.
    eapply resume_one_wp; [exact H1|exact H2|exact I|exact H5|].
    intros k' Hwf. wp_steps. split; [done|]. split; [|by eapply (first_woken_of (LSender o))].
    pose proof (mb_update o _ _ _ rs ss i mb _ (LSender o) ss k' Hi Hmb Hok' eq_refl eq_refl (or_intror (conj eq_refl eq_refl)) Hwf) as Hu.
    by rewrite decide_False, decide_True in Hu by done.
Qed.

Lemma mb_recv_wp o n msgs rs ss mb timeout i :
  mb_inv o n msgs rs ss i -> mailboxes i !! o = Some mb ->
  (msgs = [] -> timeout <> 0 -> exists c ch, runs i c ch) ->
  wp (rt_mb_recv timer_thread o timeout) i (fun out i' =>
    if bool_decide (msgs = []) && (timeout =? 0) then out = Returned (- RT_ETIMEOUT, None) /\ i' = i
    else recv_post o n msgs rs ss mb timeout i out i').
Proof.
  intros Hi Hmb Hr. unfold rt_mb_recv. wp_step. apply wp_thread_self. wp_step. eapply wp_get_mb; [done|].
  destruct (mb_box _ _ _ _ _ _ Hi) as (mb0 & H3 & Hok & _). simplify_eq.
  assert ((mb_entry mb =? 0) = bool_decide (msgs = [])) as Ef.
  { rewrite (mo_entry _ _ Hok). by destruct msgs. }
  rewrite Ef. destruct (bool_decide (msgs = []) && (timeout =? 0)) eqn:E; [by wp_steps|].
  apply mb_recv_round_wp; [done|done|]. intros ->. simpl in E. split; [lia|]. apply Hr; [done|lia].
Qed.
End Specs.

(** ** A mailbox as a bounded queue *)

Inductive mb_op := MSend (v : Z) | MUrgent (v : Z) | MRecv.
Inductive mb_out := OSent | OFull | OGot (v : Z) | OEmpty | OOther.

(** The non-blocking calls and their results. *)
Definition mb_exec (timer_thread o : oid) (op : mb_op) : M ipc mb_out :=
  match op with
  | MSend v =>
      r ← rt_mb_send timer_thread o v;
      mret (match r with Returned r => if r =? RT_EOK then OSent else if r =? - RT_EFULL then OFull else OOther
            | _ => OOther end)
  | MUrgent v =>
      r ← rt_mb_urgent o v;
      mret (if r =? RT_EOK then OSent else if r =? - RT_EFULL then OFull else OOther)
  | MRecv =>
      r ← rt_mb_recv timer_thread o 0;
      mret (match r with Returned (_, Some v) => OGot v | Returned (_, None) => OEmpty | _ => OOther end)
  end.

Fixpoint mb_run (timer_thread o : oid) (ops : list mb_op) : M ipc (list mb_out) :=
  match ops with
  | [] => mret []
  | op :: ops => out ← mb_exec timer_thread o op; outs ← mb_run timer_thread o ops; mret (out :: outs)
  end.

(** A double-ended queue of at most [n] messages. *)
Definition deque_step (n : Z) (q : list Z) (op : mb_op) : mb_out * list Z :=
  match op with
  | MSend v => if Z.of_nat (length q) =? n then (OFull, q) else (OSent, q ++ [v])
  | MUrgent v => if Z.of_nat (length q) =? n then (OFull, q) else (OSent, v :: q)
  | MRecv => match q with [] => (OEmpty, []) | v :: q => (OGot v, q) end
  end.

Fixpoint deque_run (n : Z) (q : list Z) (ops : list mb_op) : list mb_out * list Z :=
  match ops with
  | [] => ([], q)
  | op :: ops =>
      let '(out, q) := deque_step n q op in
      let '(outs, q) := deque_run n q ops in (out :: outs, q)
  end.

Lemma mb_exec_wp timer_thread o n msgs rs ss op i :
  mb_inv o n msgs rs ss i ->
  wp (mb_exec timer_thread o op) i (fun out i' =>
    exists msgs' rs' ss', deque_step n msgs op = (out, msgs') /\ mb_inv o n msgs' rs' ss' i').
Proof.
  intros Hi. destruct (mb_box _ _ _ _ _ _ Hi) as (mb & Hmb & Hok & Hsz & _).
  destruct op as [v|v|]; simpl.
  - wp_step. unfold rt_mb_send. eapply wp_mono; [eapply mb_send_wp; [done|done|lia]|]. simpl. rewrite andb_true_r.
    unfold send_post, mb_full. rewrite Hsz. intros out i' H. destruct (Z.of_nat (length msgs) =? n).
    + destruct H as [-> ->]. wp_steps. by exists msgs, rs, ss.
    + destruct H as (-> & H & _). wp_steps. by exists (msgs ++ [v]), (tail rs), ss.
  - wp_step. eapply wp_mono; [by eapply mb_urgent_wp|]. unfold mb_full. rewrite Hsz. intros r i' H.
    destruct (Z.of_nat (length msgs) =? n).
    + destruct H as [-> ->]. wp_steps. by exists msgs, rs, ss.
    + destruct H as (-> & H & _). wp_steps. by exists (v :: msgs), (tail rs), ss.
  - wp_step. eapply wp_mono; [eapply mb_recv_wp; [done|done|done]|]. simpl. rewrite andb_true_r.
    intros out i' H. destruct msgs as [|v msgs]; simpl in H.
    + destruct H as [-> ->]. wp_steps. by exists [], rs, ss.
    + destruct H as (-> & H & _). wp_steps. by exists msgs, rs, (tail ss).
Qed.

Definition demo_mb : rt_mailbox := mk_mb RT_IPC_FLAG_FIFO [0; 0] 2 0 0 0.

Lemma demo_mb_inv : mb_inv 12 2 [] [] [] demo_ipc.
Proof.
  split.
  - apply demo_ipc_kinv.
  - exists 1%positive. reflexivity.
  - exists demo_mb. split; [vm_compute; reflexivity|]. split; [|split; [done|by left]].
    split; try done. intros j Hj. simpl in Hj. lia.
  - vm_compute. reflexivity.
  - vm_compute. reflexivity.
  - intros t Ht. by apply elem_of_nil in Ht.
  - intros t Ht. by apply elem_of_nil in Ht.
Qed.

(** ** Theorems *)

(** C11. A mailbox is a bounded queue: any sequence of non-blocking
    [rt_mb_send], [rt_mb_urgent] and [rt_mb_recv] calls, with any threads
    waiting at either end, gives exactly the results of a double-ended queue of
    the mailbox's size (send appends, urgent puts in front, receive takes the
    front; full and empty are reported and change nothing), without fault and
    with every index in the pool, and keeps the kernel invariant. *)
Theorem mb_refines_deque timer_thread o n msgs rs ss ops i :
  mb_inv o n msgs rs ss i ->
  wp (mb_run timer_thread o ops) i (fun outs i' =>
    exists msgs' rs' ss', deque_run n msgs ops = (outs, msgs') /\ mb_inv o n msgs' rs' ss' i').
Proof.
  revert msgs rs ss i. induction ops as [|op ops IH]; intros msgs rs ss i Hi; simpl.
  - wp_steps. by exists msgs, rs, ss.
  - wp_step. eapply wp_mono; [by eapply mb_exec_wp|]. intros out i1 (msgs1 & rs1 & ss1 & E1 & Hi1).
    wp_step. eapply wp_mono; [by eapply IH|]. intros outs i2 (msgs2 & rs2 & ss2 & E2 & Hi2).
    wp_steps. exists msgs2, rs2, ss2. rewrite E1, E2. done.
Qed.

Lemma mb_refines_deque_witness :
  exists i' rs' ss', mb_run 99 12 [MSend 7; MUrgent 8; MSend 9; MRecv; MRecv; MRecv] demo_ipc =
    Some ([OSent; OSent; OFull; OGot 8; OGot 7; OEmpty], i') /\ mb_inv 12 2 [] rs' ss' i'.
Proof.
  destruct (proj1 (wp_Some _ _ _)
    (mb_refines_deque 99 12 2 [] [] [] [MSend 7; MUrgent 8; MSend 9; MRecv; MRecv; MRecv] demo_ipc demo_mb_inv))
    as (outs & i' & E & msgs' & rs' & ss' & Ed & H).
  simpl in Ed. injection Ed as <- <-. exists i', rs', ss'. split; [exact E|exact H].
Defined.

(** [rt_mb_send_wait] with any timeout: on a full mailbox it returns
    [-RT_EFULL] at once when it must not wait, and otherwise suspends the
    running thread at its place among the waiting senders, keeping the messages;
    else it appends the message and wakes the receiver that is first in the
    queue, whose wait ends without an error. *)
Theorem mb_send_spec timer_thread o n msgs rs ss mb value timeout i :
  mb_inv o n msgs rs ss i -> mailboxes i !! o = Some mb ->
  (Z.of_nat (length msgs) = n -> timeout <> 0 -> exists c ch, runs i c ch) ->
  wp (rt_mb_send_wait timer_thread o value timeout) i (fun out i' =>
    if Z.of_nat (length msgs) =? n then
      if timeout =? 0 then out = Returned (- RT_EFULL) /\ i' = i
      else exists c ch pre post, out = Waiting (mk_mb_wait c timeout (rt_tick (i_kernel i))) /\ runs i c ch /\
        queue_place (mb_flag mb) (current_priority ch) (threads (i_sched i)) ss pre post /\
        mb_inv o n msgs rs (pre ++ c :: post) i'
    else out = Returned RT_EOK /\ mb_inv o n (msgs ++ [value]) (tail rs) ss i' /\
      forall w, head rs = Some w ->
        exists wh, threads (i_sched i') !! w = Some wh /\ runnable wh /\ error wh = RT_EOK).
Proof.
  intros Hi Hmb Hr. destruct (mb_box _ _ _ _ _ _ Hi) as (mb0 & Hmb0 & _ & Hsz & _). simplify_eq.
  eapply wp_mono; [apply (mb_send_wp timer_thread o _ msgs rs ss mb value timeout i Hi Hmb)|].
  - intros Hf. apply Hr. unfold mb_full in Hf. lia.
  - unfold send_post, mb_full. intros out i' H. destruct (Z.of_nat (length msgs) =? mb_size mb); simpl in H; [|done].
    by destruct (timeout =? 0).
Qed.

Lemma mb_send_spec_witness :
  exists i', rt_mb_send_wait 99 12 5 10 demo_ipc = Some (Returned RT_EOK, i') /\ mb_inv 12 2 [5] [] [] i'.
Proof.
  destruct (proj1 (wp_Some _ _ _) (mb_send_spec 99 12 2 [] [] [] demo_mb 5 10 demo_ipc demo_mb_inv
    ltac:(vm_compute; reflexivity) ltac:(simpl; lia))) as (out & i' & E & -> & H & _).
  exists i'. split; [exact E|exact H].
Defined.

(** [rt_mb_recv] with any timeout: on an empty mailbox it returns
    [-RT_ETIMEOUT] at once when it must not wait, and otherwise suspends the
    running thread at its place among the waiting receivers; else it returns
    the oldest message and wakes the sender that is first in the queue. *)
Theorem mb_recv_spec timer_thread o n msgs rs ss mb timeout i :
  mb_inv o n msgs rs ss i -> mailboxes i !! o = Some mb ->
  (msgs = [] -> timeout <> 0 -> exists c ch, runs i c ch) ->
  wp (rt_mb_recv timer_thread o timeout) i (fun out i' =>
    match msgs with
    | [] =>
        if timeout =? 0 then out = Returned (- RT_ETIMEOUT, None) /\ i' = i
        else exists c ch pre post, out = Waiting (mk_mb_wait c timeout (rt_tick (i_kernel i))) /\ runs i c ch /\
          queue_place (mb_flag mb) (current_priority ch) (threads (i_sched i)) rs pre post /\
          mb_inv o n [] (pre ++ c :: post) ss i'
    | v :: msgs => out = Returned (RT_EOK, Some v) /\ mb_inv o n msgs rs (tail ss) i' /\
        forall w, head ss = Some w ->
          exists wh, threads (i_sched i') !! w = Some wh /\ runnable wh /\ error wh = RT_EOK
    end).
Proof.
  intros Hi Hmb Hr. eapply wp_mono; [by apply (mb_recv_wp timer_thread o n msgs rs ss mb timeout i Hi Hmb)|].
  unfold recv_post. intros out i' H. destruct msgs; simpl in H; [|done]. by destruct (timeout =? 0).
Qed.

(** The running thread waits for a message. *)
Lemma mb_recv_spec_witness :
  exists i' w, rt_mb_recv 99 12 10 demo_ipc = Some (Waiting w, i') /\ mw_thread w = 1%positive.
Proof.
  destruct (proj1 (wp_Some _ _ _) (mb_recv_spec 99 12 2 [] [] [] demo_mb 10 demo_ipc demo_mb_inv
    ltac:(vm_compute; reflexivity) ltac:(intros _ _; exists 1%positive, (demo_thread RT_THREAD_RUNNING 10); exact demo_runs)))
    as (out & i' & E & c & ch & pre & post & -> & Hr & _).
  exists i', (mk_mb_wait c 10 (rt_tick (i_kernel demo_ipc))). split; [exact E|].
  destruct Hr as (Hcur & _). simpl in *. congruence.
Defined.

(** The timeout of a wait that is resumed early shrinks by exactly the time
    that has passed and never becomes negative: for a positive 32-bit signed
    timeout and fewer than 2^31 ticks elapsed, also across the wrap-around of
    the tick counter, what is left is [max 0 (timeout - elapsed)]; a wait
    without timeout stays one. *)
Theorem left_timeout_exact timeout start elapsed :
  - 2 ^ 31 <= timeout < 2 ^ 31 -> is_u32 start -> 0 <= elapsed < 2 ^ 31 ->
  left_timeout timeout start (u32 (start + elapsed)) =
  if 0 <? timeout then Z.max 0 (timeout - elapsed) else timeout.
Proof.
  intros Ht Hs He. unfold left_timeout. destruct (0 <? timeout) eqn:E; [|done].
  assert (u32 (u32 (start + elapsed) - start) = elapsed) as ->.
  { unfold uwrap. rewrite Zminus_mod_idemp_l. replace (start + elapsed - start) with elapsed by lia.
    apply Z.mod_small. lia. }
  rewrite swrap_small by lia. destruct (timeout - elapsed <? 0) eqn:E2; lia.
Qed.

Lemma left_timeout_exact_witness : left_timeout 10 (2 ^ 32 - 2) (u32 (2 ^ 32 - 2 + 4)) = 6.
Proof. rewrite (left_timeout_exact 10 (2 ^ 32 - 2) 4); [reflexivity|lia|split; lia|lia]. Defined.

End Mailbox.
