(* ===== verification/MsgQueue.v ===== *)
(** * Message queues

    Model of the message queue of [rt-thread/src/ipc.c].  The pool is an array
    of slots, each a link ([struct rt_mq_message]) followed by [msg_size]
    bytes; a pointer to a slot is its index.  The queue and the free slots are
    two linked lists through the same slots.  The code that waits has the shape
    of the mailbox's and shares its definitions. *)
From stdpp Require Import base list gmap sorting.
From Stdlib Require Import ZArith Lia.
From S2P Require Import Prelude Scheduler Object Timer Thread Ipc Mailbox.

Module MsgQueue.
Import Sched Obj Thr Ipc Mailbox.

Definition RT_ALIGN_SIZE : Z := 4.
Definition RT_ALIGN (size align : Z) : Z := Z.land (size + align - 1) (Z.lnot (align - 1)).
Definition sizeof_rt_mq_message : Z := 4.

Definition get_mq (o : oid) : M ipc rt_messagequeue := m ← gets mqueues; deref (m !! o).
Definition put_mq (o : oid) (mq : rt_messagequeue) : M ipc unit :=
  modify (fun i => set_mqueues (<[o := mq]> (mqueues i)) i).

(** [msg->next = next], for the slot [msg]. *)
Definition set_next (pool : list mq_slot) (msg : nat) (next : option nat) : option (list mq_slot) :=
  s ← pool !! msg; Some (<[msg := mk_slot next (slot_data s)]> pool).

(** The loop that puts every slot on the free list. *)
Fixpoint mq_free_all (n temp : nat) (pool : list mq_slot) (free : option nat)
  : option (list mq_slot * option nat) :=
  match n with
  | O => Some (pool, free)
  | S n => pool ← set_next pool temp free; mq_free_all n (S temp) pool (Some temp)
  end.

(** [msgpool] is the memory of the pool, cut into slots. *)
Definition rt_mq_init (o : oid) (nm : list Z) (msgpool : list mq_slot) (msg_size_ pool_size flag : Z) : M ipc Z :=
  in_kernel (rt_object_init (Obj o) RT_Object_Class_MessageQueue nm);;
  in_kernel (in_sched (rt_ipc_object_init o));;
  let msg_size := u16 (RT_ALIGN msg_size_ RT_ALIGN_SIZE) in
  let max_msgs := u16 (pool_size / (msg_size + sizeof_rt_mq_message)) in
  '(pool, free) ← deref (mq_free_all (Z.to_nat max_msgs) 0 msgpool None);
  put_mq o (mk_mq flag pool msg_size max_msgs 0 None None free);;
  in_kernel (in_sched (tlist_init (LSender o)));;
  mret RT_EOK.

Definition rt_mq_detach (fuel : nat) (o : oid) : M ipc Z :=
  in_kernel (rt_ipc_list_resume_all fuel (LSusp o));;
  in_kernel (rt_ipc_list_resume_all fuel (LSender o));;
  in_kernel (in_obj (rt_object_detach (Obj o)));;
  mret RT_EOK.

(** The message [msg] is copied and linked at the end. *)
Definition mq_append (mq : rt_messagequeue) (msg : nat) (buffer : list Z) (size : Z) : option rt_messagequeue :=
  s ← mq_pool mq !! msg;
  let mq := set_msg_queue_free (slot_next s) mq in
  data ← memcpy (slot_data s) 0 buffer 0 size;
  let pool := <[msg := mk_slot None data]> (mq_pool mq) in
  pool ← match msg_queue_tail mq with Some tl => set_next pool tl (Some msg) | None => Some pool end;
  let mq := set_msg_queue_tail (Some msg) (set_mq_pool pool mq) in
  Some (match msg_queue_head mq with None => set_msg_queue_head (Some msg) mq | Some _ => mq end).

(** The message is copied and linked at the beginning. *)
Definition mq_prepend (mq : rt_messagequeue) (msg : nat) (buffer : list Z) (size : Z) : option rt_messagequeue :=
  s ← mq_pool mq !! msg;
  let mq := set_msg_queue_free (slot_next s) mq in
  data ← memcpy (slot_data s) 0 buffer 0 size;
  let pool := <[msg := mk_slot (msg_queue_head mq) data]> (mq_pool mq) in
  let mq := set_msg_queue_head (Some msg) (set_mq_pool pool mq) in
  Some (match msg_queue_tail mq with None => set_msg_queue_tail (Some msg) mq | Some _ => mq end).

(** [mq->entry++] with its check, and waking a receiver. *)
Definition mq_count (o : oid) (mq : rt_messagequeue) : M ipc Z :=
  put_mq o mq;;
  if mq_entry mq <? RT_MQ_ENTRY_MAX then
    put_mq o (set_mq_entry (mq_entry mq + 1) mq);;
    resume_one (LSusp o);;
    mret RT_EOK
  else mret (- RT_EFULL).

(** The first message leaves the queue. *)
Definition mq_unlink (mq : rt_messagequeue) (msg : nat) : option rt_messagequeue :=
  s ← mq_pool mq !! msg;
  let mq := set_msg_queue_head (slot_next s) mq in
  Some (if bool_decide (msg_queue_tail mq = Some msg) then set_msg_queue_tail None mq else mq).

(** The slot goes to the free list. *)
Definition mq_release (mq : rt_messagequeue) (msg : nat) : option rt_messagequeue :=
  pool ← set_next (mq_pool mq) msg (msg_queue_free mq);
  Some (set_msg_queue_free (Some msg) (set_mq_pool pool mq)).

Section Wait.
Context (timer_thread : oid).

(** [rt_mq_send_wait], from the test of the loop on. *)
Definition mq_send_round (o : oid) (thread : option oid) (buffer : list Z) (size timeout : Z)
  : M ipc (outcome mb_wait Z) :=
  mq ← get_mq o;
  match msg_queue_free mq with
  | None =>
      thread ← deref thread;
      reset_error thread RT_EOK;;
      if timeout =? 0 then mret (Returned (- RT_EFULL))
      else
        tick_delta ← in_kernel rt_tick_get;
        wait_on timer_thread (LSender o) thread (mq_flag mq) timeout;;
        mret (Waiting (mk_mb_wait thread timeout tick_delta))
  | Some msg =>
      mq ← deref (mq_append mq msg buffer size);
      r ← mq_count o mq;
      mret (Returned r)
  end.

Definition rt_mq_send_wait (o : oid) (buffer : list Z) (size timeout : Z) : M ipc (outcome mb_wait Z) :=
  mq ← get_mq o;
  if msg_size mq <? size then mret (Returned (- RT_ERROR))
  else
    thread ← in_kernel (in_sched rt_thread_self);
    if bool_decide (msg_queue_free mq = None) && (timeout =? 0) then mret (Returned (- RT_EFULL))
    else mq_send_round o thread buffer size timeout.

Definition rt_mq_send_wait_resumed (o : oid) (w : mb_wait) (buffer : list Z) (size : Z)
  : M ipc (outcome mb_wait Z) :=
  e ← thread_error (mw_thread w);
  if negb (e =? RT_EOK) then mret (Returned e)
  else
    now ← in_kernel rt_tick_get;
    mq_send_round o (Some (mw_thread w)) buffer size (left_timeout (mw_timeout w) (mw_tick_delta w) now).

Definition rt_mq_send (o : oid) (buffer : list Z) (size : Z) : M ipc (outcome mb_wait Z) :=
  rt_mq_send_wait o buffer size 0.

Definition rt_mq_urgent (o : oid) (buffer : list Z) (size : Z) : M ipc Z :=
  mq ← get_mq o;
  if msg_size mq <? size then mret (- RT_ERROR)
  else
    match msg_queue_free mq with
    | None => mret (- RT_EFULL)
    | Some msg =>
        mq ← deref (mq_prepend mq msg buffer size);
        mq_count o mq
    end.

(** [rt_mq_recv], from the test of the loop on; the bytes are what is copied to
    [buffer]. *)
Definition mq_recv_round (o : oid) (thread : option oid) (size timeout : Z)
  : M ipc (outcome mb_wait (Z * option (list Z))) :=
  mq ← get_mq o;
  if mq_entry mq =? 0 then
    thread ← deref thread;
    reset_error thread RT_EOK;;
    if timeout =? 0 then
      reset_error thread (- RT_ETIMEOUT);;
      mret (Returned (- RT_ETIMEOUT, None))
    else
      tick_delta ← in_kernel rt_tick_get;
      wait_on timer_thread (LSusp o) thread (mq_flag mq) timeout;;
      mret (Waiting (mk_mb_wait thread timeout tick_delta))
  else
    msg ← deref (msg_queue_head mq);
    mq ← deref (mq_unlink mq msg);
    let mq := if 0 <? mq_entry mq then set_mq_entry (mq_entry mq - 1) mq else mq in
    s ← deref (mq_pool mq !! msg);
    bytes ← deref (buf_read (slot_data s) 0 (if msg_size mq <? size then msg_size mq else size));
    mq ← deref (mq_release mq msg);
    put_mq o mq;;
    resume_one (LSender o);;
    mret (Returned (RT_EOK, Some bytes)).

Definition rt_mq_recv (o : oid) (size timeout : Z) : M ipc (outcome mb_wait (Z * option (list Z))) :=
  thread ← in_kernel (in_sched rt_thread_self);
  mq ← get_mq o;
  if (mq_entry mq =? 0) && (timeout =? 0) then mret (Returned (- RT_ETIMEOUT, None))
  else mq_recv_round o thread size timeout.

Definition rt_mq_recv_resumed (o : oid) (w : mb_wait) (size : Z)
  : M ipc (outcome mb_wait (Z * option (list Z))) :=
  e ← thread_error (mw_thread w);
  if negb (e =? RT_EOK) then mret (Returned (e, None))
  else
    now ← in_kernel rt_tick_get;
    mq_recv_round o (Some (mw_thread w)) size (left_timeout (mw_timeout w) (mw_tick_delta w) now).

End Wait.

(** The loop of the reset: every message goes to the free list; [fuel] bounds
    its rounds. *)
Fixpoint mq_drain (fuel : nat) (mq : rt_messagequeue) : option rt_messagequeue :=
  match msg_queue_head mq with
  | None => Some mq
  | Some msg =>
      match fuel with
      | O => None
      | S fuel => mq ← mq_unlink mq msg; mq ← mq_release mq msg; mq_drain fuel mq
      end
  end.

Definition rt_mq_control (fuel : nat) (o : oid) (cmd arg : Z) : M ipc Z :=
  if cmd =? RT_IPC_CMD_RESET then
    in_kernel (rt_ipc_list_resume_all fuel (LSusp o));;
    in_kernel (rt_ipc_list_resume_all fuel (LSender o));;
    mq ← get_mq o;
    mq ← deref (mq_drain fuel mq);
    put_mq o (set_mq_entry 0 mq);;
    schedule;;
    mret RT_EOK
  else mret (- RT_ERROR).

(** ** The two linked lists of a message queue *)

(** The slots [xs] are linked in this order from the pointer [p] on. *)
Fixpoint chain (pool : list mq_slot) (p : option nat) (xs : list nat) : Prop :=
  match xs with
  | [] => p = None
  | x :: xs => p = Some x /\ exists s, pool !! x = Some s /\ chain pool (slot_next s) xs
  end.

Lemma chain_ext pool pool' p xs :
  (forall x, x ∈ xs -> pool' !! x = pool !! x) -> chain pool p xs -> chain pool' p xs.
Proof.
  revert p. induction xs as [|x xs IH]; intros p He; [done|]. intros (-> & s & Hs & Hc). split; [done|].
  exists s. rewrite He by set_solver. split; [done|]. apply IH; [set_solver|done].
Qed.

(** Linking a slot behind the last one. *)
Lemma chain_snoc pool p xs tl m st :
  chain pool p (xs ++ [tl]) -> NoDup (xs ++ [tl]) -> m ∉ xs ++ [tl] ->
  pool !! tl = Some st -> (exists sm, pool !! m = Some sm /\ slot_next sm = None) ->
  chain (<[tl := mk_slot (Some m) (slot_data st)]> pool) p ((xs ++ [tl]) ++ [m]).
Proof.
  revert p. induction xs as [|x xs IH]; intros p Hc Hnd Hm Ht (sm & Hsm & Hn).
  - destruct Hc as (-> & s & Hs & Hc). simpl. split; [done|]. eexists.
    rewrite list_lookup_insert_eq by (by eapply lookup_lt_Some). split; [done|]. simpl. split; [done|].
    exists sm. rewrite list_lookup_insert_ne by set_solver. done.
  - destruct Hc as (-> & s & Hs & Hc). simpl in Hnd. apply NoDup_cons in Hnd as [Hx Hnd]. simpl. split; [done|].
    exists s. rewrite list_lookup_insert_ne by set_solver. split; [done|].
    apply IH; [done|done|set_solver|done|by exists sm].
Qed.

Definition data_of (pool : list mq_slot) (x : nat) : list Z :=
  match pool !! x with Some s => slot_data s | None => [] end.

(** The queue holds the slots [used], the rest are [free]; the message in a slot
    is its [msg_size] bytes. *)
Record mq_ok (mq : rt_messagequeue) (used free : list nat) : Prop := {
  qo_used : chain (mq_pool mq) (msg_queue_head mq) used;
  qo_free : chain (mq_pool mq) (msg_queue_free mq) free;
  qo_tail : msg_queue_tail mq = last used;
  qo_nodup : NoDup (used ++ free);
  qo_entry : mq_entry mq = Z.of_nat (length used);
  qo_total : Z.of_nat (length used + length free) = max_msgs mq;
  qo_max : max_msgs mq <= RT_MQ_ENTRY_MAX;
  qo_size : 0 <= msg_size mq;
  qo_data : forall x, x ∈ used ++ free -> Z.of_nat (length (data_of (mq_pool mq) x)) = msg_size mq
}.

Definition contents (mq : rt_messagequeue) (used : list nat) : list (list Z) := data_of (mq_pool mq) <$> used.

Lemma data_of_insert pool x s y :
  (x < length pool)%nat -> data_of (<[x := s]> pool) y = if decide (y = x) then slot_data s else data_of pool y.
Proof.
  intros Hx. unfold data_of. case_decide as E; [subst; by rewrite list_lookup_insert_eq|by rewrite list_lookup_insert_ne].
Qed.

Lemma data_of_next pool x s nx y :
  pool !! x = Some s -> data_of (<[x := mk_slot nx (slot_data s)]> pool) y = data_of pool y.
Proof.
  intros Hx. rewrite data_of_insert by (by eapply lookup_lt_Some). case_decide as E; [|done].
  subst. unfold data_of. by rewrite Hx.
Qed.

Lemma chain_head pool p x xs : chain pool p (x :: xs) ->
  p = Some x /\ exists s, pool !! x = Some s /\ chain pool (slot_next s) xs.
Proof. done. Qed.

Lemma memcpy_prefix data buffer size :
  0 <= size -> (Z.to_nat size <= length data)%nat -> (Z.to_nat size <= length buffer)%nat ->
  exists d, memcpy data 0 buffer 0 size = Some d /\ length d = length data /\
    take (Z.to_nat size) d = take (Z.to_nat size) buffer.
Proof.
  intros H0 H1 H2. rewrite memcpy_Some by lia. eexists. split; [done|]. split.
  - rewrite length_splice; [done|]. rewrite ?length_take, ?length_drop. lia.
  - unfold splice. simpl. rewrite take_app_le; [|rewrite length_take, ?length_drop; lia].
    rewrite take_take. f_equal. lia.
Qed.

Lemma contents_ext pool pool' (xs : list nat) :
  (forall x, x ∈ xs -> data_of pool' x = data_of pool x) -> data_of pool' <$> xs = data_of pool <$> xs.
Proof. intros H. apply list_fmap_ext. intros i x Hx. apply H. by eapply list_elem_of_lookup_2. Qed.

(** What an operation on the queue leaves alone. *)
Definition same_shape (mq mq' : rt_messagequeue) : Prop :=
  mq_flag mq' = mq_flag mq /\ msg_size mq' = msg_size mq /\ max_msgs mq' = max_msgs mq /\ mq_entry mq' = mq_entry mq.

Lemma mq_append_ok mq used m free buffer size :
  mq_ok mq used (m :: free) -> 0 <= size <= msg_size mq -> (Z.to_nat size <= length buffer)%nat ->
  exists mq' d, mq_append mq m buffer size = Some mq' /\ same_shape mq mq' /\
    mq_ok (set_mq_entry (mq_entry mq' + 1) mq') (used ++ [m]) free /\
    contents mq' (used ++ [m]) = contents mq used ++ [d] /\
    Z.of_nat (length d) = msg_size mq /\ take (Z.to_nat size) d = take (Z.to_nat size) buffer.
Proof.
  intros [Hu Hf Htl Hnd He Htot Hmax Hsz Hd] Hsize Hbuf.
  destruct Hf as (Efree & s & Hs & Hf).
  pose proof (Hd m ltac:(set_solver)) as Hdm. unfold data_of in Hdm. rewrite Hs in Hdm.
  destruct (memcpy_prefix (slot_data s) buffer size) as (d & Ec & Hld & Hpre); [lia|lia|done|].
  pose proof (lookup_lt_Some _ _ _ Hs) as Hlt.
  assert (m ∉ used /\ m ∉ free) as [Hmu Hmf].
  { rewrite <- Permutation_middle in Hnd. apply NoDup_cons in Hnd as [Hni _]. set_solver. }
  set (pool1 := <[m := mk_slot None d]> (mq_pool mq)).
  assert (forall x, x <> m -> pool1 !! x = mq_pool mq !! x) as Hp1 by (intros x Hx; unfold pool1; by rewrite list_lookup_insert_ne).
  assert (pool1 !! m = Some (mk_slot None d)) as Hpm by (unfold pool1; by rewrite list_lookup_insert_eq).
  assert (forall x, data_of pool1 x = if decide (x = m) then d else data_of (mq_pool mq) x) as Hdata
    by (intros x; unfold pool1; by rewrite data_of_insert).
  unfold mq_append. rewrite Hs. simpl. rewrite Ec. simpl. fold pool1. rewrite Htl.
  assert (exists pool2, match last used with Some tl => set_next pool1 tl (Some m) | None => Some pool1 end = Some pool2 /\
    (forall x, data_of pool2 x = data_of pool1 x) /\
    chain pool2 (match used with [] => Some m | _ => msg_queue_head mq end) (used ++ [m]) /\ chain pool2 (slot_next s) free)
    as (pool2 & E2 & Hdata2 & Hcu & Hcf).
  { destruct (last used) as [tl|] eqn:El.
    - apply last_Some in El as [xs ->]. unfold set_next. rewrite Hp1 by set_solver.
      destruct (mq_pool mq !! tl) as [st|] eqn:Et.
      2: { exfalso. clear -Hu Et. revert Hu. generalize (msg_queue_head mq). induction xs as [|x xs IH]; intros p.
           - intros (_ & s & Hs & _). simpl in *. congruence.
           - intros (_ & s & _ & Hc). by apply (IH (slot_next s)). }
      eexists. split; [simpl; done|]. split; [|split].
      + intros x. apply data_of_next. by rewrite Hp1 by set_solver.
      + destruct (xs ++ [tl]) as [|y ys] eqn:Ex; [by destruct xs|]. rewrite <- Ex in *.
        eapply chain_snoc; [|by apply NoDup_app in Hnd as [? _]|done|by rewrite Hp1 by set_solver|by exists (mk_slot None d)].
        eapply chain_ext; [|exact Hu]. intros x Hx. apply Hp1. by intros ->.
      + eapply chain_ext; [|exact Hf]. intros x Hx. apply NoDup_app in Hnd as (_ & Hdis & _).
        rewrite list_lookup_insert_ne; [apply Hp1; by intros ->|]. intros ->. apply (Hdis x); set_solver.
    - apply last_None in El as ->. exists pool1. split; [done|]. split; [done|]. split.
      + simpl. split; [done|]. by exists (mk_slot None d).
      + eapply chain_ext; [|exact Hf]. intros x Hx. apply Hp1. by intros ->. }
  rewrite E2. simpl.
  assert ((match msg_queue_head mq with
           | Some _ => set_msg_queue_tail (Some m) (set_mq_pool pool2 (set_msg_queue_free (slot_next s) mq))
           | None => set_msg_queue_head (Some m) (set_msg_queue_tail (Some m) (set_mq_pool pool2 (set_msg_queue_free (slot_next s) mq)))
           end) = mk_mq (mq_flag mq) pool2 (msg_size mq) (max_msgs mq) (mq_entry mq)
                    (match used with [] => Some m | _ => msg_queue_head mq end) (Some m) (slot_next s)) as Em.
  { destruct used as [|u us]; simpl in Hu.
    - by rewrite Hu.
    - destruct Hu as (E & _). unfold set_msg_queue_tail, set_mq_pool, set_msg_queue_free. simpl. by rewrite E. }
  rewrite Em. eexists _, d. split; [done|]. split; [done|]. split; [|split; [|split; [lia|done]]].
  - split; simpl; [done|done|by rewrite last_snoc| |rewrite length_app; simpl; lia|rewrite length_app; simpl in *; lia|done|done|].
    + by rewrite <- app_assoc.
    + intros x Hx. rewrite Hdata2, Hdata. case_decide; [lia|]. apply Hd. set_solver.
  - unfold contents. simpl. rewrite fmap_app. simpl. f_equal.
    + apply contents_ext. intros x Hx. rewrite Hdata2, Hdata, decide_False; [done|]. by intros ->.
    + by rewrite Hdata2, Hdata, decide_True.
Qed.

Lemma mq_prepend_ok mq used m free buffer size :
  mq_ok mq used (m :: free) -> 0 <= size <= msg_size mq -> (Z.to_nat size <= length buffer)%nat ->
  exists mq' d, mq_prepend mq m buffer size = Some mq' /\ same_shape mq mq' /\
    mq_ok (set_mq_entry (mq_entry mq' + 1) mq') (m :: used) free /\
    contents mq' (m :: used) = d :: contents mq used /\
    Z.of_nat (length d) = msg_size mq /\ take (Z.to_nat size) d = take (Z.to_nat size) buffer.
Proof.
  intros [Hu Hf Htl Hnd He Htot Hmax Hsz Hd] Hsize Hbuf.
  destruct Hf as (Efree & s & Hs & Hf).
  pose proof (Hd m ltac:(set_solver)) as Hdm. unfold data_of in Hdm. rewrite Hs in Hdm.
  destruct (memcpy_prefix (slot_data s) buffer size) as (d & Ec & Hld & Hpre); [lia|lia|done|].
  pose proof (lookup_lt_Some _ _ _ Hs) as Hlt.
  rewrite <- Permutation_middle in Hnd. pose proof Hnd as [Hni _]%NoDup_cons.
  unfold mq_prepend. rewrite Hs. simpl. rewrite Ec. simpl.
  set (pool1 := <[m := mk_slot (msg_queue_head mq) d]> (mq_pool mq)).
  assert (forall x, x <> m -> pool1 !! x = mq_pool mq !! x) as Hp1 by (intros x Hx; unfold pool1; by rewrite list_lookup_insert_ne).
  assert (forall x, data_of pool1 x = if decide (x = m) then d else data_of (mq_pool mq) x) as Hdata
    by (intros x; unfold pool1; by rewrite data_of_insert).
  assert ((match msg_queue_tail mq with
           | Some _ => set_msg_queue_head (Some m) (set_mq_pool pool1 (set_msg_queue_free (slot_next s) mq))
           | None => set_msg_queue_tail (Some m) (set_msg_queue_head (Some m) (set_mq_pool pool1 (set_msg_queue_free (slot_next s) mq)))
           end) = mk_mq (mq_flag mq) pool1 (msg_size mq) (max_msgs mq) (mq_entry mq)
                    (Some m) (last (m :: used)) (slot_next s)) as Em.
  { unfold set_msg_queue_tail, set_msg_queue_head, set_mq_pool, set_msg_queue_free. simpl. rewrite Htl.
    destruct used as [|u us]; [done|]. change (last (m :: u :: us)) with (last (u :: us)). destruct (last (u :: us)) eqn:El; [done|]. by apply last_None in El. }
  rewrite Em. eexists _, d. split; [done|]. split; [done|]. split; [|split; [|split; [lia|done]]].
  - split; simpl; [|eapply chain_ext; [|exact Hf]; intros x Hx; apply Hp1; set_solver|done|done|lia|simpl in *; lia|done|done|].
    + split; [done|]. eexists. unfold pool1. rewrite list_lookup_insert_eq by done. split; [done|]. simpl. fold pool1.
      eapply chain_ext; [|exact Hu]. intros x Hx. apply Hp1. set_solver.
    + intros x Hx. rewrite Hdata. case_decide; [lia|]. apply Hd. set_solver.
  - unfold contents. simpl. f_equal.
    + by rewrite Hdata, decide_True.
    + apply contents_ext. intros x Hx. rewrite Hdata, decide_False; [done|]. set_solver.
Qed.

(** The first message leaves the queue and its slot becomes free. *)
Lemma mq_unlink_ok mq m used free :
  mq_ok mq (m :: used) free ->
  exists mq1, mq_unlink mq m = Some mq1 /\ same_shape mq mq1 /\ mq_pool mq1 = mq_pool mq /\
    msg_queue_free mq1 = msg_queue_free mq /\ chain (mq_pool mq) (msg_queue_head mq1) used /\
    msg_queue_tail mq1 = last used.
Proof.
  intros [Hu Hf Htl Hnd He Htot Hmax Hsz Hd]. destruct Hu as (Eh & s & Hs & Hc).
  unfold mq_unlink. rewrite Hs. simpl. eexists. split; [done|].
  case_bool_decide as E; simpl in E; rewrite Htl in E; (split; [done|]); (split; [done|]); (split; [done|]); (split; [done|]).
  - simpl. destruct used as [|u us]; [done|]. exfalso. apply last_Some in E as [xs E].
    apply NoDup_app in Hnd as [Hnd _]. destruct xs as [|x xs]; [done|]. injection E as -> E. rewrite E in Hnd.
    apply NoDup_cons in Hnd as [Hni _]. set_solver.
  - simpl. rewrite Htl. by destruct used.
Qed.

Lemma mq_pop_ok mq m used free :
  mq_ok mq (m :: used) free ->
  exists mq1 mq2, mq_unlink mq m = Some mq1 /\ same_shape mq mq1 /\ mq_pool mq1 = mq_pool mq /\
    mq_release (set_mq_entry (mq_entry mq - 1) mq1) m = Some mq2 /\
    mq_ok mq2 used (m :: free) /\ mq_flag mq2 = mq_flag mq /\ msg_size mq2 = msg_size mq /\
    max_msgs mq2 = max_msgs mq /\ contents mq2 used = contents mq used.
Proof.
  intros H. pose proof H as [Hu Hf Htl Hnd He Htot Hmax Hsz Hd].
  destruct (mq_unlink_ok mq m used free H) as (mq1 & E1 & (S1 & S2 & S3 & S4) & Hp & Hfr & Hc & Ht).
  destruct Hu as (Eh & s & Hs & _). simpl in Hnd. pose proof Hnd as [Hni Hnd']%NoDup_cons.
  eexists mq1, _. split; [done|]. split; [done|]. split; [done|].
  unfold mq_release, set_next. simpl. rewrite Hp, Hs. simpl. rewrite Hfr. split; [done|].
  assert (forall x, x <> m -> <[m := mk_slot (msg_queue_free mq) (slot_data s)]> (mq_pool mq) !! x = mq_pool mq !! x) as Hsame
    by (intros x Hx; by rewrite list_lookup_insert_ne).
  split; [|split; [done|split; [done|split; [done|]]]].
  - split; simpl; [|split; [done|]|done| |simpl in He; lia|simpl in *; lia|lia|lia|].
    + eapply chain_ext; [|exact Hc]. intros x Hx. apply Hsame. set_solver.
    + eexists. rewrite list_lookup_insert_eq by (by eapply lookup_lt_Some). split; [done|]. simpl.
      eapply chain_ext; [|exact Hf]. intros x Hx. apply Hsame. set_solver.
    + rewrite <- Permutation_middle. done.
    + intros x Hx. rewrite data_of_next by done. rewrite S2. apply Hd. set_solver.
  - unfold contents. simpl. apply contents_ext. intros x Hx. by rewrite data_of_next.
Qed.

(** Reset: every message goes to the free list. *)
Lemma mq_drain_ok fuel mq used free :
  mq_ok mq used free -> (length used <= fuel)%nat ->
  exists mq' free', mq_drain fuel mq = Some mq' /\ mq_ok (set_mq_entry 0 mq') [] free' /\
    mq_flag mq' = mq_flag mq /\ msg_size mq' = msg_size mq /\ max_msgs mq' = max_msgs mq.
Proof.
  intros H0. assert (mq_ok (set_mq_entry (Z.of_nat (length used)) mq) used free) as H.
  { destruct H0 as [Hu Hf Htl Hnd He Htot Hmax Hsz Hd]. split; done. }
  clear H0. revert fuel mq free H. induction used as [|m used IH]; intros fuel mq free H Hf.
  - pose proof H as [Hu Hfr Htl Hnd He Htot Hmax Hsz Hd]. simpl in Hu. exists mq, free.
    split; [|done]. destruct fuel; simpl; by rewrite Hu.
  - destruct fuel as [|fuel]; [simpl in Hf; lia|]. pose proof (qo_used _ _ _ H) as (Eh & _). simpl in Eh. simpl. rewrite Eh.
    destruct (mq_pop_ok _ m used free H) as (mq1 & mq2 & E1 & (S1 & S2 & S3 & S4) & Hp & E2 & Hok & F1 & F2 & F3 & _).
    assert (exists mq3, mq_unlink mq m = Some mq3 /\ exists mq4, mq_release mq3 m = Some mq4 /\
      mq_ok (set_mq_entry (Z.of_nat (length used)) mq4) used (m :: free) /\
      mq_flag mq4 = mq_flag mq /\ msg_size mq4 = msg_size mq /\ max_msgs mq4 = max_msgs mq) as (mq3 & E3 & mq4 & E4 & Hok4 & G1 & G2 & G3).
    { unfold mq_unlink in E1 |- *. simpl in E1. destruct (mq_pool mq !! m) as [s|] eqn:Es; [|done]. simpl in E1 |- *.
      eexists. split; [done|]. injection E1 as <-. unfold mq_release, set_next in E2 |- *. simpl in E2 |- *.
      case_bool_decide; simpl in *; rewrite Es in E2 |- *; simpl in *; injection E2 as <-;
        (eexists; split; [done|]); (split; [|done]); pose proof (qo_entry _ _ _ Hok) as Ee; simpl in Ee;
        destruct Hok; split; simpl in *; done. }
    rewrite E3. simpl. rewrite E4. simpl.
    destruct (IH fuel mq4 (m :: free) Hok4 ltac:(simpl in Hf; lia)) as (mq' & free' & E' & Hok' & K1 & K2 & K3).
    exists mq', free'. split; [done|]. split; [done|]. split_and!; congruence.
Qed.

(** ** The invariant of a message queue *)

(** The queue holds the messages [msgs] of [sz] bytes each and has room for [n];
    [rs] wait for a message and [ss] for room. *)
Record mq_inv (o : oid) (sz n : Z) (msgs : list (list Z)) (rs ss : list oid) (i : ipc) : Prop := {
  mq_kernel : kinv (i_kernel i);
  mq_current : exists c, rt_current_thread (i_sched i) = Some c;
  mq_box : exists mq used free, mqueues i !! o = Some mq /\ mq_ok mq used free /\ contents mq used = msgs /\
    msg_size mq = sz /\ max_msgs mq = n /\ (mq_flag mq = RT_IPC_FLAG_FIFO \/ mq_flag mq = RT_IPC_FLAG_PRIO);
  mq_receivers : tlists (i_sched i) !! LSusp o = Some rs;
  mq_senders : tlists (i_sched i) !! LSender o = Some ss;
  mq_calm_r : calm (i_sched i) rs;
  mq_calm_s : calm (i_sched i) ss
}.

Lemma wp_get_mq o mq i (Q : rt_messagequeue -> ipc -> Prop) :
  mqueues i !! o = Some mq -> Q mq i -> wp (get_mq o) i Q.
Proof. intros H HQ. unfold get_mq. wp_steps. by eapply wp_deref. Qed.

(** The queue is full exactly when no slot is free. *)
Lemma mq_full_iff mq used free :
  mq_ok mq used free -> (Z.of_nat (length used) =? max_msgs mq) = bool_decide (msg_queue_free mq = None).
Proof.
  intros H. pose proof (qo_total _ _ _ H) as Ht. pose proof (qo_free _ _ _ H) as Hf. destruct free as [|m free].
  - simpl in Hf. rewrite bool_decide_true by done. simpl in Ht. lia.
  - destruct Hf as (-> & _). rewrite bool_decide_false by done. simpl in Ht. lia.
Qed.

(** A new content and one thread woken. *)
Lemma mq_update o sz n msgs msgs' rs ss i mq mq' used' free' l q k' :
  mq_inv o sz n msgs rs ss i -> mqueues i !! o = Some mq -> mq_ok mq' used' free' -> contents mq' used' = msgs' ->
  mq_flag mq' = mq_flag mq -> msg_size mq' = msg_size mq -> max_msgs mq' = max_msgs mq ->
  (l = LSusp o /\ q = rs) \/ (l = LSender o /\ q = ss) ->
  wakes_first l q (i_kernel i) k' ->
  mq_inv o sz n msgs' (if decide (l = LSusp o) then tail rs else rs) (if decide (l = LSender o) then tail ss else ss)
    (set_i_kernel k' (set_mqueues (<[o := mq']> (mqueues i)) i)).
Proof.
  intros [H1 H2 (mq0 & u0 & f0 & H3 & _ & _ & Hsz & Hmx & Hfl) H4 H5 H6 H7] Hmq Hok Hct E1 E2 E3 Hl Hwf. simplify_eq.
  destruct Hl as [[-> ->]|[-> ->]].
  - rewrite decide_True, decide_False by done.
    destruct (calm_wakes_first (LSusp o) (LSender o) rs ss _ k' H1 I I H4 H5 ltac:(done) Hwf H6 H7) as [C1 C2].
    split; simpl; [apply Hwf|apply Hwf| |apply Hwf|by rewrite (wf_lists _ _ _ _ Hwf (LSender o) I)|done|done].
    exists mq', used', free'. rewrite lookup_insert_eq, E1, E2, E3. done.
  - rewrite decide_False, decide_True by done.
    destruct (calm_wakes_first (LSender o) (LSusp o) ss rs _ k' H1 I I H5 H4 ltac:(done) Hwf H7 H6) as [C1 C2].
    split; simpl; [apply Hwf|apply Hwf| |by rewrite (wf_lists _ _ _ _ Hwf (LSusp o) I)|apply Hwf|done|done].
    exists mq', used', free'. rewrite lookup_insert_eq, E1, E2, E3. done.
Qed.

(** A message [d] whose first [size] bytes are those of [buffer]. *)
Definition carries (sz : Z) (buffer : list Z) (size : Z) (d : list Z) : Prop :=
  Z.of_nat (length d) = sz /\ take (Z.to_nat size) d = take (Z.to_nat size) buffer.

Lemma mq_count_wp o sz n msgs msgs' rs ss i mq mq' used' free' (Q : Z -> ipc -> Prop) :
  mq_inv o sz n msgs rs ss i -> mqueues i !! o = Some mq -> same_shape mq mq' ->
  mq_ok (set_mq_entry (mq_entry mq' + 1) mq') used' free' -> contents mq' used' = msgs' ->
  (forall i', mq_inv o sz n msgs' (tail rs) ss i' -> first_woken rs i' -> Q RT_EOK i') ->
  wp (mq_count o mq') i Q.
Proof.
  intros Hi Hmq (S1 & S2 & S3 & S4) Hok Hct HQ. pose proof Hi as [H1 H2 _ H4 H5 H6 H7].
  unfold mq_count, put_mq. wp_step. wp_step.
  assert ((mq_entry mq' <? RT_MQ_ENTRY_MAX) = true) as ->.
  { pose proof (qo_entry _ _ _ Hok). pose proof (qo_total _ _ _ Hok). pose proof (qo_max _ _ _ Hok). simpl in *. lia. }
  wp_step. wp_step. wp_step. eapply resume_one_wp; [exact H1|exact H2|exact I|exact H4|].
  intros k' Hwf. wp_steps. apply HQ; [|by eapply (first_woken_of (LSusp o))].
  pose proof (mq_update o sz n msgs msgs' rs ss i mq _ used' free' (LSusp o) rs k' Hi Hmq Hok Hct S1 S2 S3
    (or_introl (conj eq_refl eq_refl)) Hwf) as Hu.
  rewrite decide_True, decide_False in Hu by done. unfold set_mqueues in *. simpl in *. rewrite insert_insert_eq. exact Hu.
Qed.

Section Specs.
Context (timer_thread : oid).

Lemma mq_send_wp o sz n msgs rs ss mq buffer size timeout i :
  mq_inv o sz n msgs rs ss i -> mqueues i !! o = Some mq -> 0 <= size -> (Z.to_nat size <= length buffer)%nat ->
  (Z.of_nat (length msgs) = n -> timeout <> 0 -> exists c ch, runs i c ch) ->
  wp (rt_mq_send_wait timer_thread o buffer size timeout) i (fun out i' =>
    if sz <? size then out = Returned (- RT_ERROR) /\ i' = i
    else if Z.of_nat (length msgs) =? n then
      if timeout =? 0 then out = Returned (- RT_EFULL) /\ i' = i
      else exists c ch pre post, out = Waiting (mk_mb_wait c timeout (rt_tick (i_kernel i))) /\ runs i c ch /\
        queue_place (mq_flag mq) (current_priority ch) (threads (i_sched i)) ss pre post /\
        mq_inv o sz n msgs rs (pre ++ c :: post) i'
    else out = Returned RT_EOK /\ first_woken rs i' /\
      exists d, carries sz buffer size d /\ mq_inv o sz n (msgs ++ [d]) (tail rs) ss i').
Proof.
  intros Hi Hmq Hs0 Hbuf Hr. pose proof Hi as [H1 H2 (mq0 & used & free & H3 & Hok & Hct & Hsz & Hmx & Hfl) H4 H5 H6 H7].
  rewrite Hmq in H3. injection H3 as <-. unfold rt_mq_send_wait. wp_step. eapply wp_get_mq; [done|]. rewrite Hsz.
  destruct (sz <? size) eqn:Es; [by wp_steps|]. wp_step. apply wp_thread_self.
  assert (Z.of_nat (length msgs) =? n = bool_decide (msg_queue_free mq = None)) as Efull.
  { rewrite <- (mq_full_iff mq used free Hok), <- Hct, Hmx. unfold contents. by rewrite length_fmap. }
  rewrite <- Efull. destruct (Z.of_nat (length msgs) =? n) eqn:Ef.
  - destruct (timeout =? 0) eqn:Et; [by wp_steps|]. simpl. unfold mq_send_round. wp_step. eapply wp_get_mq; [done|].
    symmetry in Efull. apply bool_decide_eq_true in Efull. rewrite Efull.
    destruct Hr as (c & ch & Hr); [lia|lia|]. pose proof Hr as (Hcur & Hc & Est). rewrite Hcur.
    wp_step. eapply wp_deref; [done|]. wp_step. eapply wp_reset_error; [done|]. rewrite Et. wp_step. apply wp_tick. wp_step.
    eapply wp_wait_cleared; [exact H1|exact I|exact H5|exact Hr|done|]. intros pre post k' Hp Hwt. wp_steps.
    exists c, ch, pre, post. split; [done|]. split; [done|]. split; [exact Hp|].
    split; simpl; [apply Hwt|apply Hwt|by exists mq, used, free|by rewrite (w_lists _ _ _ _ _ _ _ Hwt (LSusp o) I)|apply Hwt| |].
    + eapply (calm_waits_other (LSender o) (LSusp o)); [exact H1|done|exact H4|exact Hc|exact Est|exact Hwt|done].
    + eapply (calm_waits (LSender o)); [exact H1|done|exact H5|apply Hp|exact Hc|exact Est|exact Hwt|done].
  - simpl. unfold mq_send_round. wp_step. eapply wp_get_mq; [done|].
    pose proof (qo_free _ _ _ Hok) as Hfc. destruct free as [|m free].
    { simpl in Hfc. rewrite Hfc in Efull. by rewrite bool_decide_true in Efull by done. }
    destruct Hfc as (-> & _).
    destruct (mq_append_ok mq used m free buffer size Hok) as (mq' & d & Ea & Hsh & Hok' & Hct' & Hld & Hpre); [lia|done|].
    wp_step. eapply wp_deref; [exact Ea|]. wp_step.
    eapply (mq_count_wp o sz n msgs (msgs ++ [d])); [exact Hi|exact Hmq|exact Hsh|exact Hok'|by rewrite Hct', Hct|].
    intros i' Hi' Hfw. wp_steps. split; [done|]. split; [done|]. exists d. split; [split; [lia|done]|done].
Qed.

Lemma mq_urgent_wp o sz n msgs rs ss buffer size i :
  mq_inv o sz n msgs rs ss i -> 0 <= size -> (Z.to_nat size <= length buffer)%nat ->
  wp (rt_mq_urgent o buffer size) i (fun r i' =>
    if sz <? size then r = - RT_ERROR /\ i' = i
    else if Z.of_nat (length msgs) =? n then r = - RT_EFULL /\ i' = i
    else r = RT_EOK /\ first_woken rs i' /\
      exists d, carries sz buffer size d /\ mq_inv o sz n (d :: msgs) (tail rs) ss i').
Proof.
  intros Hi Hs0 Hbuf. pose proof Hi as [H1 H2 (mq & used & free & Hmq & Hok & Hct & Hsz & Hmx & Hfl) H4 H5 H6 H7].
  unfold rt_mq_urgent. wp_step. eapply wp_get_mq; [done|]. rewrite Hsz.
  destruct (sz <? size) eqn:Es; [by wp_steps|].
  assert (Z.of_nat (length msgs) =? n = bool_decide (msg_queue_free mq = None)) as Efull.
  { rewrite <- (mq_full_iff mq used free Hok), <- Hct, Hmx. unfold contents. by rewrite length_fmap. }
  rewrite Efull. pose proof (qo_free _ _ _ Hok) as Hfc. destruct free as [|m free].
  { simpl in Hfc. rewrite Hfc. rewrite bool_decide_true by done. by wp_steps. }
  destruct Hfc as (-> & _). rewrite bool_decide_false by done.
  destruct (mq_prepend_ok mq used m free buffer size Hok) as (mq' & d & Ea & Hsh & Hok' & Hct' & Hld & Hpre); [lia|done|].
  wp_step. eapply wp_deref; [exact Ea|].
  eapply (mq_count_wp o sz n msgs (d :: msgs)); [exact Hi|exact Hmq|exact Hsh|exact Hok'|by rewrite Hct', Hct|].
  intros i' Hi' Hfw. split; [done|]. split; [done|]. exists d. split; [split; [lia|done]|done].
Qed.

Lemma mq_recv_wp o sz n msgs rs ss mq size timeout i :
  mq_inv o sz n msgs rs ss i -> mqueues i !! o = Some mq -> 0 <= size ->
  (msgs = [] -> timeout <> 0 -> exists c ch, runs i c ch) ->
  wp (rt_mq_recv timer_thread o size timeout) i (fun out i' =>
    match msgs with
    | [] =>
        if timeout =? 0 then out = Returned (- RT_ETIMEOUT, None) /\ i' = i
        else exists c ch pre post, out = Waiting (mk_mb_wait c timeout (rt_tick (i_kernel i))) /\ runs i c ch /\
          queue_place (mq_flag mq) (current_priority ch) (threads (i_sched i)) rs pre post /\
          mq_inv o sz n [] (pre ++ c :: post) ss i'
    | d :: msgs => out = Returned (RT_EOK, Some (take (Z.to_nat (Z.min size sz)) d)) /\
        mq_inv o sz n msgs rs (tail ss) i' /\ first_woken ss i'
    end).
Proof.
  intros Hi Hmq Hs0 Hr. pose proof Hi as [H1 H2 (mq0 & used & free & H3 & Hok & Hct & Hsz & Hmx & Hfl) H4 H5 H6 H7].
  rewrite Hmq in H3. injection H3 as <-. unfold rt_mq_recv. wp_step. apply wp_thread_self. wp_step. eapply wp_get_mq; [done|].
  pose proof (qo_entry _ _ _ Hok) as Ee. destruct used as [|m used]; simpl in Hct; subst msgs.
  - rewrite Ee. simpl. destruct (timeout =? 0) eqn:Et; [by wp_steps|]. unfold mq_recv_round. wp_step.
    eapply wp_get_mq; [done|]. rewrite Ee. simpl. destruct Hr as (c & ch & Hr); [done|lia|].
    pose proof Hr as (Hcur & Hc & Est). rewrite Hcur.
    wp_step. eapply wp_deref; [done|]. wp_step. eapply wp_reset_error; [done|]. rewrite Et. wp_step. apply wp_tick. wp_step.
    eapply wp_wait_cleared; [exact H1|exact I|exact H4|exact Hr|done|]. intros pre post k' Hp Hwt. wp_steps.
    exists c, ch, pre, post. split; [done|]. split; [done|]. split; [exact Hp|].
    split; simpl; [apply Hwt|apply Hwt|by exists mq, [], free|apply Hwt|by rewrite (w_lists _ _ _ _ _ _ _ Hwt (LSender o) I)| |].
    + eapply (calm_waits (LSusp o)); [exact H1|done|exact H4|apply Hp|exact Hc|exact Est|exact Hwt|done].
    + eapply (calm_waits_other (LSusp o) (LSender o)); [exact H1|done|exact H5|exact Hc|exact Est|exact Hwt|done].
  - simpl in Ee. assert ((mq_entry mq =? 0) = false) as E0 by lia. rewrite E0. simpl. unfold mq_recv_round.
    wp_step. eapply wp_get_mq; [done|]. rewrite E0.
    destruct (mq_pop_ok mq m used free Hok) as (mq1 & mq2 & E1 & (S1 & S2 & S3 & S4) & Hp & E2 & Hok2 & F1 & F2 & F3 & Hct2).
    pose proof (qo_used _ _ _ Hok) as (Eh & s & Hs & _).
    wp_step. eapply wp_deref; [exact Eh|]. wp_step. eapply wp_deref; [exact E1|]. rewrite S4.
    assert ((0 <? mq_entry mq) = true) as -> by lia. wp_step. eapply wp_deref; [simpl; rewrite Hp; exact Hs|].
    pose proof (qo_data _ _ _ Hok m ltac:(set_solver)) as Hd. unfold data_of in Hd. rewrite Hs in Hd.
    pose proof (qo_size _ _ _ Hok) as Hsz0. cbn [msg_size set_mq_entry]. rewrite S2, Hsz.
    assert ((if sz <? size then sz else size) = Z.min size sz) as -> by (destruct (sz <? size) eqn:?; lia).
    wp_step. eapply wp_deref; [apply buf_read_Some; lia|]. simpl (drop _ _).
    wp_step. eapply wp_deref; [exact E2|]. unfold put_mq. wp_step. wp_step. wp_step.
    eapply resume_one_wp; [exact H1|exact H2|exact I|exact H5|].
    intros k' Hwf. wp_steps. split.
    { unfold contents. simpl. unfold data_of. by rewrite Hs. }
    split; [|by eapply (first_woken_of (LSender o))].
    pose proof (mq_update o sz n _ (contents mq used) rs ss i mq mq2 used (m :: free) (LSender o) ss k' Hi Hmq Hok2 Hct2 F1 F2 F3
      (or_intror (conj eq_refl eq_refl)) Hwf) as Hu.
    rewrite decide_False, decide_True in Hu by done. exact Hu.
Qed.

End Specs.

(** ** Initialisation *)

Lemma mq_free_all_ok (n temp : nat) pool free xs :
  (temp + n <= length pool)%nat -> chain pool free xs -> (forall x, x ∈ xs -> (x < temp)%nat) -> NoDup xs ->
  exists pool' free' ys, mq_free_all n temp pool free = Some (pool', free') /\
    chain pool' free' ys /\ NoDup ys /\ length ys = (n + length xs)%nat /\
    (forall x, x ∈ ys -> (x < temp + n)%nat) /\ (forall x, data_of pool' x = data_of pool x).
Proof.
  revert temp pool free xs. induction n as [|n IH]; intros temp pool free xs Hlen Hc Hlt Hnd.
  - exists pool, free, xs. split_and!; try done. intros x Hx. specialize (Hlt x Hx). lia.
  - simpl. destruct (lookup_lt_is_Some_2 pool temp ltac:(lia)) as [s Hs].
    unfold set_next. rewrite Hs. simpl.
    destruct (IH (S temp) (<[temp := mk_slot free (slot_data s)]> pool) (Some temp) (temp :: xs))
      as (pool' & free' & ys & E & Hc' & Hnd' & Hl' & Hlt' & Hd').
    + rewrite length_insert. lia.
    + split; [done|]. eexists. rewrite list_lookup_insert_eq by lia. split; [done|]. simpl.
      eapply chain_ext; [|exact Hc]. intros x Hx. specialize (Hlt x Hx). by rewrite list_lookup_insert_ne by lia.
    + intros x [->|Hx]%elem_of_cons; [lia|]. specialize (Hlt x Hx). lia.
    + constructor; [|done]. intros Hin. specialize (Hlt _ Hin). lia.
    + exists pool', free', ys. simpl in Hl'. split_and!; try done; [lia| |].
      * intros x Hx. specialize (Hlt' x Hx). lia.
      * intros x. rewrite Hd'. by apply data_of_next.
Qed.

(** The pool memory, cut into slots of the aligned message size. *)
Definition pool_fits (msgpool : list mq_slot) (sz n : Z) : Prop :=
  Z.of_nat (length msgpool) = n /\ forall s, s ∈ msgpool -> Z.of_nat (length (slot_data s)) = sz.

Lemma mq_free_all_empty msgpool flag sz n :
  pool_fits msgpool sz n -> 0 <= sz -> n <= RT_MQ_ENTRY_MAX ->
  exists pool free ys, mq_free_all (Z.to_nat n) 0 msgpool None = Some (pool, free) /\
    mq_ok (mk_mq flag pool sz n 0 None None free) [] ys.
Proof.
  intros [Hn Hd] Hsz Hmax.
  destruct (mq_free_all_ok (Z.to_nat n) 0 msgpool None []) as (pool & free & ys & E & Hc & Hnd & Hl & Hlt & Hdt);
    [lia|done|set_solver|constructor|].
  exists pool, free, ys. split; [done|]. split; simpl; try done; [simpl in Hl; lia|].
  intros x Hx. specialize (Hlt x Hx). rewrite Hdt. unfold data_of.
  destruct (lookup_lt_is_Some_2 msgpool x ltac:(lia)) as [s Hs]. rewrite Hs. apply Hd. by eapply list_elem_of_lookup_2.
Qed.

(** ** A message queue as a bounded queue *)

Inductive mq_op := QSend (b : list Z) | QUrgent (b : list Z) | QRecv.
Inductive mq_out := QSent | QFull | QGot (b : list Z) | QEmpty | QOther.

(** Non-blocking calls with messages of the full size [sz]. *)
Definition mq_exec (timer_thread o : oid) (sz : Z) (op : mq_op) : M ipc mq_out :=
  match op with
  | QSend b =>
      r ← rt_mq_send timer_thread o b sz;
      mret (match r with Returned r => if r =? RT_EOK then QSent else if r =? - RT_EFULL then QFull else QOther
            | _ => QOther end)
  | QUrgent b =>
      r ← rt_mq_urgent o b sz;
      mret (if r =? RT_EOK then QSent else if r =? - RT_EFULL then QFull else QOther)
  | QRecv =>
      r ← rt_mq_recv timer_thread o sz 0;
      mret (match r with Returned (_, Some b) => QGot b | Returned (_, None) => QEmpty | _ => QOther end)
  end.

Fixpoint mq_run (timer_thread o : oid) (sz : Z) (ops : list mq_op) : M ipc (list mq_out) :=
  match ops with
  | [] => mret []
  | op :: ops => out ← mq_exec timer_thread o sz op; outs ← mq_run timer_thread o sz ops; mret (out :: outs)
  end.

Definition mdeque_step (n : Z) (q : list (list Z)) (op : mq_op) : mq_out * list (list Z) :=
  match op with
  | QSend b => if Z.of_nat (length q) =? n then (QFull, q) else (QSent, q ++ [b])
  | QUrgent b => if Z.of_nat (length q) =? n then (QFull, q) else (QSent, b :: q)
  | QRecv => match q with [] => (QEmpty, []) | b :: q => (QGot b, q) end
  end.

Fixpoint mdeque_run (n : Z) (q : list (list Z)) (ops : list mq_op) : list mq_out * list (list Z) :=
  match ops with
  | [] => ([], q)
  | op :: ops =>
      let '(out, q) := mdeque_step n q op in
      let '(outs, q) := mdeque_run n q ops in (out :: outs, q)
  end.

Definition full_size (sz : Z) (op : mq_op) : Prop :=
  match op with QSend b | QUrgent b => Z.of_nat (length b) = sz | QRecv => True end.

Lemma carries_full sz b d : Z.of_nat (length b) = sz -> carries sz b sz d -> d = b.
Proof. intros Hb [Hd E]. rewrite !take_ge in E by lia. done. Qed.

Lemma mq_message_size o sz n msgs rs ss i d : mq_inv o sz n msgs rs ss i -> d ∈ msgs -> Z.of_nat (length d) = sz.
Proof.
  intros Hi Hd. destruct (mq_box _ _ _ _ _ _ _ Hi) as (mq & used & free & _ & Hok & <- & <- & _).
  apply list_elem_of_fmap in Hd as (x & -> & Hx). apply (qo_data _ _ _ Hok). set_solver.
Qed.

Lemma mq_exec_wp timer_thread o sz n msgs rs ss op i :
  mq_inv o sz n msgs rs ss i -> full_size sz op -> 0 <= sz ->
  wp (mq_exec timer_thread o sz op) i (fun out i' =>
    exists msgs' rs' ss', mdeque_step n msgs op = (out, msgs') /\ mq_inv o sz n msgs' rs' ss' i').
Proof.
  intros Hi Hf Hsz. destruct (mq_box _ _ _ _ _ _ _ Hi) as (mq & used & free & Hmq & _).
  destruct op as [b|b|]; simpl in *.
  - wp_step. unfold rt_mq_send. eapply wp_mono; [eapply mq_send_wp; [done|done|lia|lia|lia]|].
    rewrite Z.ltb_irrefl. simpl. intros out i' H. destruct (Z.of_nat (length msgs) =? n).
    + destruct H as [-> ->]. wp_steps. by exists msgs, rs, ss.
    + destruct H as (-> & _ & d & Hc & H). apply carries_full in Hc as ->; [|done]. wp_steps. by exists (msgs ++ [b]), (tail rs), ss.
  - wp_step. eapply wp_mono; [eapply mq_urgent_wp; [done|lia|lia]|]. rewrite Z.ltb_irrefl. intros r i' H.
    destruct (Z.of_nat (length msgs) =? n).
    + destruct H as [-> ->]. wp_steps. by exists msgs, rs, ss.
    + destruct H as (-> & _ & d & Hc & H). apply carries_full in Hc as ->; [|done]. wp_steps. by exists (b :: msgs), (tail rs), ss.
  - wp_step. eapply wp_mono; [eapply mq_recv_wp; [done|done|done|done]|]. intros out i' H. destruct msgs as [|d msgs]; simpl in H.
    + destruct H as [-> ->]. wp_steps. by exists [], rs, ss.
    + destruct H as (-> & H & _). wp_steps. exists msgs, rs, (tail ss). split; [|done].
      pose proof (mq_message_size _ _ _ _ _ _ _ d Hi ltac:(set_solver)). by rewrite take_ge by lia.
Qed.

(** The system of [demo_ipc] with an empty message queue of two messages. *)
Definition demo_mq : rt_messagequeue :=
  mk_mq RT_IPC_FLAG_FIFO [mk_slot None [0; 0; 0; 0]; mk_slot (Some 0%nat) [0; 0; 0; 0]] 4 2 0 None None (Some 1%nat).

Definition demo_mq_ipc : ipc := set_mqueues (<[13%positive := demo_mq]> ∅) demo_ipc.

Lemma demo_mq_inv : mq_inv 13 4 2 [] [] [] demo_mq_ipc.
Proof.
  split.
  - apply demo_ipc_kinv.
  - exists 1%positive. reflexivity.
  - exists demo_mq, [], [1; 0]%nat. split; [vm_compute; reflexivity|]. split; [|split; [done|split; [done|split; [done|by left]]]].
    split; simpl; try done.
    + split; [done|]. eexists. split; [done|]. simpl. split; [done|]. by eexists.
    + repeat constructor; set_solver.
    + intros x Hx. set_unfold in Hx. destruct Hx as [->|[->|[]]]; done.
  - vm_compute. reflexivity.
  - vm_compute. reflexivity.
  - intros t Ht. by apply elem_of_nil in Ht.
  - intros t Ht. by apply elem_of_nil in Ht.
Qed.

(** ** Theorems *)

(** C10. A message queue is a bounded queue: any sequence of non-blocking
    [rt_mq_send], [rt_mq_urgent] and [rt_mq_recv] calls with messages of the
    full size, with any threads waiting at either end, gives exactly the
    results of a double-ended queue of [max_msgs] messages; no slot is lost,
    shared or used twice, every link stays in the pool, and the kernel
    invariant is kept. *)
Theorem mq_refines_deque timer_thread o sz n msgs rs ss ops i :
  mq_inv o sz n msgs rs ss i -> Forall (full_size sz) ops ->
  wp (mq_run timer_thread o sz ops) i (fun outs i' =>
    exists msgs' rs' ss', mdeque_run n msgs ops = (outs, msgs') /\ mq_inv o sz n msgs' rs' ss' i').
Proof.
  intros Hi Hf. assert (0 <= sz) as Hsz.
  { destruct (mq_box _ _ _ _ _ _ _ Hi) as (mq & used & free & _ & Hok & _ & <- & _). apply Hok. }
  revert msgs rs ss i Hi. induction Hf as [|op ops Hop Hf IH]; intros msgs rs ss i Hi; simpl.
  - wp_steps. by exists msgs, rs, ss.
  - wp_step. eapply wp_mono; [by eapply mq_exec_wp|]. intros out i1 (msgs1 & rs1 & ss1 & E1 & Hi1).
    wp_step. eapply wp_mono; [by eapply IH|]. intros outs i2 (msgs2 & rs2 & ss2 & E2 & Hi2).
    wp_steps. exists msgs2, rs2, ss2. rewrite E1, E2. done.
Qed.

Lemma mq_refines_deque_witness :
  exists i' rs' ss', mq_run 99 13 4 [QSend [1; 2; 3; 4]; QUrgent [5; 6; 7; 8]; QSend [9; 9; 9; 9]; QRecv; QRecv; QRecv] demo_mq_ipc =
    Some ([QSent; QSent; QFull; QGot [5; 6; 7; 8]; QGot [1; 2; 3; 4]; QEmpty], i') /\ mq_inv 13 4 2 [] rs' ss' i'.
Proof.
  destruct (proj1 (wp_Some _ _ _)
    (mq_refines_deque 99 13 4 2 [] [] []
       [QSend [1; 2; 3; 4]; QUrgent [5; 6; 7; 8]; QSend [9; 9; 9; 9]; QRecv; QRecv; QRecv] demo_mq_ipc demo_mq_inv
       ltac:(repeat constructor))) as (outs & i' & E & msgs' & rs' & ss' & Ed & H).
  simpl in Ed. injection Ed as <- <-. exists i', rs', ss'. split; [exact E|exact H].
Defined.

(** [rt_mq_send_wait] with any size and timeout: a message larger than
    [msg_size] is refused with [-RT_ERROR]; on a full queue the call returns
    [-RT_EFULL] or the running thread waits at its place among the senders;
    else a message that starts with the [size] bytes of the buffer is at the
    end of the queue and the first waiting receiver is woken. *)
Theorem mq_send_spec timer_thread o sz n msgs rs ss mq buffer size timeout i :
  mq_inv o sz n msgs rs ss i -> mqueues i !! o = Some mq -> 0 <= size -> (Z.to_nat size <= length buffer)%nat ->
  (Z.of_nat (length msgs) = n -> timeout <> 0 -> exists c ch, runs i c ch) ->
  wp (rt_mq_send_wait timer_thread o buffer size timeout) i (fun out i' =>
    if sz <? size then out = Returned (- RT_ERROR) /\ i' = i
    else if Z.of_nat (length msgs) =? n then
      if timeout =? 0 then out = Returned (- RT_EFULL) /\ i' = i
      else exists c ch pre post, out = Waiting (mk_mb_wait c timeout (rt_tick (i_kernel i))) /\ runs i c ch /\
        queue_place (mq_flag mq) (current_priority ch) (threads (i_sched i)) ss pre post /\
        mq_inv o sz n msgs rs (pre ++ c :: post) i'
    else out = Returned RT_EOK /\
      (forall w, head rs = Some w ->
         exists wh, threads (i_sched i') !! w = Some wh /\ runnable wh /\ error wh = RT_EOK) /\
      exists d, Z.of_nat (length d) = sz /\ take (Z.to_nat size) d = take (Z.to_nat size) buffer /\
        mq_inv o sz n (msgs ++ [d]) (tail rs) ss i').
Proof.
  intros Hi Hmq Hs Hb Hr. eapply wp_mono; [by apply (mq_send_wp timer_thread o sz n msgs rs ss mq buffer size timeout i)|].
  intros out i' H. destruct (sz <? size); [done|]. destruct (Z.of_nat (length msgs) =? n); [done|].
  destruct H as (-> & Hf & d & [Hc1 Hc2] & H). split; [done|]. split; [exact Hf|]. by exists d.
Qed.

Lemma mq_send_spec_witness :
  exists i' d, rt_mq_send_wait 99 13 [1; 2; 3] 3 10 demo_mq_ipc = Some (Returned RT_EOK, i') /\
    take 3 d = [1; 2; 3] /\ mq_inv 13 4 2 [d] [] [] i'.
Proof.
  destruct (proj1 (wp_Some _ _ _) (mq_send_spec 99 13 4 2 [] [] [] demo_mq [1; 2; 3] 3 10 demo_mq_ipc demo_mq_inv
    ltac:(vm_compute; reflexivity) ltac:(lia) ltac:(simpl; lia) ltac:(simpl; lia)))
    as (out & i' & E & -> & _ & d & _ & H1 & H2).
  exists i', d. split; [exact E|]. split; [exact H1|exact H2].
Defined.

(** [rt_mq_init] gives an empty queue: for a new object (its list heads not
    in use, its name a terminated or long enough string) and a pool cut into as
    many slots of the aligned message size as [pool_size] allows, it does not
    fault, links every slot, once, into the free list, and leaves a queue with
    no message, no waiting thread and room for all slots; the kernel invariant
    is kept. *)
Theorem mq_init_empty o nm msgpool msg_size_ pool_size flag c i :
  let k := i_kernel i in
  let sz := u16 (RT_ALIGN msg_size_ RT_ALIGN_SIZE) in
  let n := u16 (pool_size / (sz + sizeof_rt_mq_message)) in
  kinv k -> rt_current_thread (k_sched k) = Some c -> 0 <= rt_scheduler_lock_nest (k_sched k) < 32767 ->
  is_Some (rt_strncpy nm RT_NAME_MAX) -> ~ object_linked (k_obj k) (Obj o) ->
  is_Some (container_of RT_Object_Class_MessageQueue (containers (k_obj k))) ->
  members (k_sched k) (LSusp o) = [] -> members (k_sched k) (LSender o) = [] ->
  (flag = RT_IPC_FLAG_FIFO \/ flag = RT_IPC_FLAG_PRIO) -> pool_fits msgpool sz n ->
  wp (rt_mq_init o nm msgpool msg_size_ pool_size flag) i (fun r i' => r = RT_EOK /\ mq_inv o sz n [] [] [] i').
Proof.
  intros k sz n Hk Hc Hlk Hnm Hnl Hcl Hm1 Hm2 Hfl Hp.
  assert (0 <= sz /\ n <= RT_MQ_ENTRY_MAX) as [Hsz Hn].
  { split; [apply uwrap_range; lia|].
    pose proof (uwrap_range 16 (pool_size / (sz + sizeof_rt_mq_message)) ltac:(lia)) as [_ H].
    change (n < 65536) in H. unfold RT_MQ_ENTRY_MAX. lia. }
  destruct (mq_free_all_empty msgpool flag sz n Hp Hsz Hn) as (pool & free & ys & E & Hok).
  unfold rt_mq_init. fold sz n. wp_step. apply wp_in_kernel. eapply (wp_object_init (Obj o)); try done.
  intros s' st' Hs' Hk1.
  assert ((exists c', rt_current_thread s' = Some c') /\ forall l, is_wait l -> members s' l = members (k_sched k) l) as [Hc' Hmem].
  { destruct Hs' as [(_ & H1 & _ & H2)| ->]; [|split; [by exists c|done]]. split; [done|]. intros l Hl. unfold members. by rewrite H2. }
  unfold rt_ipc_object_init. wp_step. apply wp_in_kernel.
  eapply (wp_list_init (LSusp o)); [exact Hk1|done|by rewrite <- Hm1; apply Hmem|]. intros s1 Hk2 T1 _ C1.
  wp_step. eapply wp_deref; [exact E|]. unfold put_mq. wp_step. wp_step. wp_step. apply wp_in_kernel.
  eapply (wp_list_init (LSender o)); [exact Hk2|done| |].
  { unfold members. simpl. rewrite T1, lookup_insert_ne by done. change (members s' (LSender o) = []). by rewrite Hmem. }
  intros s2 Hk3 T2 _ C2. wp_steps. split; [done|].
  split; simpl; [exact Hk3| | | | |intros t Ht; by apply elem_of_nil in Ht..].
  - simpl in C1, C2. rewrite C2, C1. exact Hc'.
  - eexists _, [], ys. rewrite lookup_insert_eq. split; [done|]. done.
  - simpl in T1, T2. rewrite T2, lookup_insert_ne, T1 by done. apply lookup_insert_eq.
  - simpl in T2. rewrite T2. apply lookup_insert_eq.
Qed.

Lemma mq_init_empty_witness :
  exists i', rt_mq_init 13 [109; 113; 0] [mk_slot None [0; 0; 0; 0]; mk_slot None [0; 0; 0; 0]] 3 16 RT_IPC_FLAG_PRIO demo_ipc =
    Some (RT_EOK, i') /\ mq_inv 13 4 2 [] [] [] i'.
Proof.
  destruct (proj1 (wp_Some _ _ _) (mq_init_empty 13 [109; 113; 0] [mk_slot None [0; 0; 0; 0]; mk_slot None [0; 0; 0; 0]]
    3 16 RT_IPC_FLAG_PRIO 1 demo_ipc demo_ipc_kinv eq_refl ltac:(simpl; lia) ltac:(eexists; reflexivity)
    ltac:(apply (bool_decide_unpack _); vm_compute; exact I) ltac:(eexists; reflexivity)
    ltac:(vm_compute; reflexivity) ltac:(vm_compute; reflexivity) ltac:(by right)
    ltac:(split; [reflexivity|]; intros s Hs; set_unfold in Hs; destruct Hs as [->|[->|[]]]; reflexivity)))
    as (r & i' & E & -> & H).
  exists i'. split; [exact E|exact H].
Defined.

(** Resetting a message queue: with fuel for one round per waiting thread
    and per message, [rt_mq_control(RT_IPC_CMD_RESET)] terminates without
    fault, the queue is empty with every slot free again, nobody waits, and
    every thread that waited can run with the error [-RT_ERROR]. *)
Theorem mq_reset_empties fuel o sz n msgs rs ss arg i :
  mq_inv o sz n msgs rs ss i -> (length rs + length ss + length msgs <= fuel)%nat ->
  wp (rt_mq_control fuel o RT_IPC_CMD_RESET arg) i (fun r i' =>
    r = RT_EOK /\ mq_inv o sz n [] [] [] i' /\
    forall t, t ∈ rs ++ ss -> exists th, threads (i_sched i') !! t = Some th /\ runnable th /\ error th = - RT_ERROR).
Proof.
  intros Hi Hf. pose proof Hi as [H1 (c & H2) (mq & used & free & H3 & Hok & Hct & Hsz & Hmx & Hfl) H4 H5 H6 H7].
  unfold rt_mq_control. simpl. wp_step. apply wp_in_kernel.
  apply (resume_all_spec fuel (LSusp o) rs c); [done..|lia|]. intros k1 Hc1 Hcur1. wp_step. apply wp_in_kernel.
  pose proof (cn_lists _ _ _ _ Hc1 (LSender o) I ltac:(done)) as HL. rewrite H5 in HL.
  apply (resume_all_spec fuel (LSender o) ss c); [apply Hc1|done|exact HL|done|lia|]. intros k2 Hc2 Hcur2.
  wp_step. eapply wp_get_mq; [exact H3|]. wp_step.
  destruct (mq_drain_ok fuel mq used free Hok) as (mq' & free' & Ed & Hok' & F1 & F2 & F3).
  { rewrite <- Hct in Hf. unfold contents in Hf. rewrite length_fmap in Hf. lia. }
  eapply wp_deref; [exact Ed|]. unfold put_mq. wp_step. wp_step. wp_step.
  apply (wp_schedule c); [apply Hc2|exact Hcur2|]. intros s' Hs'. pose proof Hs' as (K1 & K2 & K3 & K4). wp_steps.
  split; [done|]. split.
  - split; simpl; [done|done| | | |intros t Ht; by apply elem_of_nil in Ht..].
    + eexists _, [], free'. rewrite lookup_insert_eq. split; [done|]. split; [exact Hok'|]. split; [done|].
      simpl. rewrite F1, F2, F3. done.
    + rewrite (K4 (LSusp o) I). simpl. rewrite (cn_lists _ _ _ _ Hc2 (LSusp o) I) by done. apply Hc1.
    + rewrite (K4 (LSender o) I). apply Hc2.
  - assert (forall t th, threads (k_sched k2) !! t = Some th -> runnable th -> error th = - RT_ERROR ->
      exists th', threads s' !! t = Some th' /\ runnable th' /\ error th' = - RT_ERROR) as Hkeep.
    { intros t th Ht Hr Ee. destruct (K3 t th Ht) as [_ H]. destruct (H ltac:(tauto) Hr) as (th' & ? & ? & E & _).
      exists th'. by rewrite E. }
    intros t [Ht|Ht]%elem_of_app.
    + destruct (cn_woken _ _ _ _ Hc1 t Ht) as (th & Hth & Hr & Ee).
      destruct (cn_frame _ _ _ _ Hc2 t th Hth) as [_ H]. destruct H as (th2 & Hth2 & Hr2 & E2 & _); [|done|].
      * intros Hts. eapply (queues_disjoint (i_kernel i) (LSusp o) (LSender o) rs ss t); done.
      * eapply Hkeep; [exact Hth2|done|congruence].
    + destruct (cn_woken _ _ _ _ Hc2 t Ht) as (th & Hth & Hr & Ee). by eapply Hkeep.
Qed.

Lemma mq_reset_empties_witness :
  exists i', rt_mq_control 2 13 RT_IPC_CMD_RESET 0 demo_mq_ipc = Some (RT_EOK, i') /\ mq_inv 13 4 2 [] [] [] i'.
Proof.
  destruct (proj1 (wp_Some _ _ _) (mq_reset_empties 2 13 4 2 [] [] [] 0 demo_mq_ipc demo_mq_inv ltac:(simpl; lia)))
    as (r & i' & E & -> & H & _).
  exists i'. split; [exact E|exact H].
Defined.

End MsgQueue.
