(* ===== verification/Errno.v ===== *)
(** * The error number

    Model of [rt_get_errno] and [rt_set_errno] of [rt-thread/src/kservice.c]:
    the error number is the field [error] of the running thread, and the
    static variable [__rt_errno] in an interrupt and before the first thread
    runs.  The state is the kernel with that variable. *)
From stdpp Require Import base list gmap.
From Stdlib Require Import ZArith Lia.
From S2P Require Import Prelude Scheduler Object Timer Thread Ipc.

Module Errno.
Import Sched Obj Thr Ipc.

(** The second component is [__rt_errno]. *)
Notation errno_st := (ipc * Z)%type.
Definition in_fst {A} (m : M ipc A) : M errno_st A := zoom fst (fun i s => (i, snd s)) m.

Definition rt_get_errno : M errno_st Z :=
  nest ← gets (fun s => rt_interrupt_nest (i_sched (fst s)));
  if negb (nest =? 0) then gets snd else
  tid ← gets (fun s => rt_current_thread (i_sched (fst s)));
  match tid with
  | None => gets snd
  | Some tid => in_fst (thread_error tid)
  end.

Definition rt_set_errno (error : Z) : M errno_st unit :=
  nest ← gets (fun s => rt_interrupt_nest (i_sched (fst s)));
  if negb (nest =? 0) then modify (fun s => (fst s, error)) else
  tid ← gets (fun s => rt_current_thread (i_sched (fst s)));
  match tid with
  | None => modify (fun s => (fst s, error))
  | Some tid => in_fst (reset_error tid error)
  end.

Lemma wp_in_fst {A} (m : M ipc A) s (Q : A -> errno_st -> Prop) :
  wp m (fst s) (fun a i => Q a (i, snd s)) -> wp (in_fst m) s Q.
Proof. exact (wp_zoom fst (fun i s => (i, snd s)) m s Q). Qed.

(** The kernel after [rt_set_errno]: the running thread has the error, or
    nothing has changed. *)
Definition errno_kernel (e : Z) (i i' : ipc) : Prop :=
  i' = i \/ exists c ch, rt_current_thread (i_sched i) = Some c /\ threads (i_sched i) !! c = Some ch /\
    i' = error_i c ch e i.

Lemma wp_set_errno e s (Q : unit -> errno_st -> Prop) :
  kinv (i_kernel (fst s)) ->
  (forall s', errno_kernel e (fst s) (fst s') -> wp rt_get_errno s' (fun r _ => r = e) -> Q tt s') ->
  wp (rt_set_errno e) s Q.
Proof.
  intros Hk HQ. destruct s as [i v]. unfold rt_set_errno. wp_step. wp_step. simpl in *.
  destruct (rt_interrupt_nest (i_sched i) =? 0) eqn:En; simpl.
  - wp_steps. simpl. destruct (rt_current_thread (i_sched i)) as [c|] eqn:Ec.
    + destruct (lo_current _ (kinv_lists _ Hk) c Ec) as [ch Hc].
      apply wp_in_fst. eapply wp_reset_error; [exact Hc|]. apply HQ; [by right; exists c, ch|].
      unfold rt_get_errno. wp_steps. simpl. rewrite En. simpl. wp_steps. simpl. rewrite Ec.
      apply wp_in_fst. eapply wp_thread_error; [apply lookup_insert_eq|done].
    + wp_steps. apply HQ; [by left|]. unfold rt_get_errno. wp_steps. simpl. rewrite En. simpl. wp_steps.
      simpl. rewrite Ec. by wp_steps.
  - wp_steps. apply HQ; [by left|]. unfold rt_get_errno. wp_steps. simpl. rewrite En. simpl. by wp_steps.
Qed.

(** What [rt_set_errno] stores, [rt_get_errno] returns next, in a thread, in
    an interrupt and before the first thread; no other thread, no queue and
    no timer changes. *)
Theorem errno_roundtrip e s :
  kinv (i_kernel (fst s)) ->
  wp (rt_set_errno e) s (fun _ s' =>
    wp rt_get_errno s' (fun r _ => r = e) /\ kinv (i_kernel (fst s')) /\
    (forall t, Some t <> rt_current_thread (i_sched (fst s)) ->
       threads (i_sched (fst s')) !! t = threads (i_sched (fst s)) !! t) /\
    tlists (i_sched (fst s')) = tlists (i_sched (fst s))).
Proof.
  intros Hk. apply wp_set_errno; [done|]. intros s' Hs Hg. split; [done|].
  destruct Hs as [->|(c & ch & Hc & Hch & ->)]; [done|].
  split_and!; [by apply error_kinv| |done]. intros t Hn. apply lookup_insert_ne. congruence.
Qed.

Lemma errno_roundtrip_witness :
  exists s', rt_set_errno (-5) (demo_ipc, 0) = Some (tt, s') /\ wp rt_get_errno s' (fun r _ => r = -5).
Proof.
  destruct (proj1 (wp_Some _ _ _) (errno_roundtrip (-5) (demo_ipc, 0) demo_ipc_kinv)) as ([] & s' & E & H & _).
  exists s'. split; [exact E|exact H].
Defined.

End Errno.
