(* ===== verification/Device.v ===== *)
(** * Devices

    Model of [rt-thread/src/device.c]: registration, opening, closing and the
    calls through the function pointers of a device.  A driver is an instance
    of the class [DeviceOps]: its state embeds the [struct rt_device], and
    each function pointer may be null.  Reading and writing set the error
    number, so they run over the driver and the kernel; [device_write] may
    wait, with the local variables in [dev_wait].

    The reference count has 8 bits and the assertion against its overflow is
    compiled out: the theorems say what it counts. *)
From stdpp Require Import base list gmap.
From Stdlib Require Import ZArith Lia.
From S2P Require Import Prelude Scheduler Object Timer Thread Ipc Errno.

Module Dev.
Import Sched Obj Thr Ipc Errno.

Definition RT_ENOSYS : Z := 6.
Definition RT_EBUSY : Z := 7.
Definition RT_EIO : Z := 8.

Definition RT_DEVICE_FLAG_RDWR : Z := 0x003.
Definition RT_DEVICE_FLAG_STANDALONE : Z := 0x008.
Definition RT_DEVICE_FLAG_ACTIVATED : Z := 0x010.
Definition RT_DEVICE_FLAG_SUSPENDED : Z := 0x020.
Definition RT_DEVICE_FLAG_STREAM : Z := 0x040.
Definition RT_DEVICE_FLAG_INT_RX : Z := 0x100.
Definition RT_DEVICE_FLAG_DMA_RX : Z := 0x200.
Definition RT_DEVICE_FLAG_INT_TX : Z := 0x400.
Definition RT_DEVICE_FLAG_DMA_TX : Z := 0x800.
Definition RT_DEVICE_OFLAG_CLOSE : Z := 0x000.
Definition RT_DEVICE_OFLAG_OPEN : Z := 0x008.
Definition RT_DEVICE_OFLAG_MASK : Z := 0xf0f.
Definition RT_DEVICE_CTRL_RESUME : Z := 0x01.
Definition RT_DEVICE_CTRL_SUSPEND : Z := 0x02.
Definition RT_DEVICE_CTRL_CONFIG : Z := 0x03.
Definition RT_DEVICE_CTRL_CLOSE : Z := 0x04.
Definition RT_DEVICE_CTRL_SET_INT : Z := 0x10.
Definition RT_DEVICE_CTRL_CLR_INT : Z := 0x11.

(** [x & b] as a condition *)
Definition has (x b : Z) : bool := negb (Z.land x b =? 0).

(** [struct rt_device]; a callback is the address of a function. *)
Record rt_device := mk_dev {
  dev_flag : Z;               (* rt_uint16_t *)
  open_flag : Z;              (* rt_uint16_t *)
  ref_count : Z;              (* rt_uint8_t *)
  rx_indicate : option Z;
  tx_complete : option Z
}.

Definition set_dev_flag v d := mk_dev v (open_flag d) (ref_count d) (rx_indicate d) (tx_complete d).
Definition set_open_flag v d := mk_dev (dev_flag d) v (ref_count d) (rx_indicate d) (tx_complete d).
Definition set_ref_count v d := mk_dev (dev_flag d) (open_flag d) v (rx_indicate d) (tx_complete d).
Definition set_rx_ind v d := mk_dev (dev_flag d) (open_flag d) (ref_count d) v (tx_complete d).
Definition set_tx_done v d := mk_dev (dev_flag d) (open_flag d) (ref_count d) (rx_indicate d) v.

(** The function pointers of a device and its place in the driver's state;
    [None] is a null pointer. *)
Class DeviceOps (S : Type) := {
  dev_arg : Type;
  dev_wait : Type;
  parent : S -> rt_device;
  set_parent : rt_device -> S -> S;
  device_init : option (M S Z);
  device_open : option (Z -> M S Z);
  device_close : option (M S Z);
  device_read : option (Z -> Z -> M S (list Z));    (* the bytes stored in the buffer *)
  device_write : option (Z -> list Z -> M S (outcome dev_wait Z));
  device_control : option (Z -> dev_arg -> M S Z)
}.

Section Device.
Context {S : Type} {OP : DeviceOps S}.

Notation dev_st := (S * errno_st)%type.
Definition in_drv {A} (m : M S A) : M dev_st A := zoom fst (fun a s => (a, snd s)) m.
Definition in_sys {A} (m : M errno_st A) : M dev_st A := zoom snd (fun e s => (fst s, e)) m.
Definition in_dev_kernel {A} (m : M kernel A) : M dev_st A := in_sys (in_fst (in_kernel m)).

Definition upd_dev (f : rt_device -> rt_device) : M S unit :=
  modify (fun s => set_parent (f (parent s)) s).

Definition rt_device_find (nm : list Z) : M dev_st (option ref) :=
  in_dev_kernel (rt_object_find nm RT_Object_Class_Device).

(** [dev] names the driver's device object, [None] is the null pointer. *)
Definition rt_device_register (dev : option oid) (nm : list Z) (flags : Z) : M dev_st Z :=
  match dev with
  | None => mret (- RT_ERROR)
  | Some dev =>
      found ← rt_device_find nm;
      if bool_decide (is_Some found) then mret (- RT_ERROR) else
      in_dev_kernel (rt_object_init (Obj dev) RT_Object_Class_Device nm);;
      in_drv (upd_dev (fun d => set_open_flag 0 (set_ref_count 0 (set_dev_flag (u16 flags) d))));;
      mret RT_EOK
  end.

Definition rt_device_unregister (dev : oid) : M dev_st Z :=
  in_dev_kernel (in_obj (rt_object_detach (Obj dev)));;
  mret RT_EOK.

Definition rt_device_init : M S Z :=
  match device_init with
  | None => mret RT_EOK
  | Some f =>
      d ← gets parent;
      if negb (has (dev_flag d) RT_DEVICE_FLAG_ACTIVATED) then
        result ← f;
        when (result =? RT_EOK)
          (upd_dev (fun d => set_dev_flag (Z.lor (dev_flag d) RT_DEVICE_FLAG_ACTIVATED) d));;
        mret result
      else mret RT_EOK
  end.

(** The first part of [rt_device_open]: initialise the device if need be. *)
Definition open_activate : M S Z :=
  d ← gets parent;
  if negb (has (dev_flag d) RT_DEVICE_FLAG_ACTIVATED) then
    result ← match device_init with Some f => f | None => mret RT_EOK end;
    if negb (result =? RT_EOK) then mret result
    else
      upd_dev (fun d => set_dev_flag (Z.lor (dev_flag d) RT_DEVICE_FLAG_ACTIVATED) d);;
      mret RT_EOK
  else mret RT_EOK.

Definition rt_device_open (oflag : Z) : M S Z :=
  result ← open_activate;
  if negb (result =? RT_EOK) then mret result else
  d ← gets parent;
  if has (dev_flag d) RT_DEVICE_FLAG_STANDALONE && has (open_flag d) RT_DEVICE_OFLAG_OPEN
  then mret (- RT_EBUSY)
  else
    result ← match device_open with
             | Some f => f oflag
             | None =>
                 upd_dev (set_open_flag (Z.land oflag RT_DEVICE_OFLAG_MASK));; mret RT_EOK
             end;
    when ((result =? RT_EOK) || (result =? - RT_ENOSYS))
      (upd_dev (fun d => set_open_flag (Z.lor (open_flag d) RT_DEVICE_OFLAG_OPEN) d);;
       upd_dev (fun d => set_ref_count (u8 (ref_count d + 1)) d));;
    mret result.

Definition rt_device_close : M S Z :=
  d ← gets parent;
  if ref_count d =? 0 then mret (- RT_ERROR) else
  upd_dev (fun d => set_ref_count (u8 (ref_count d - 1)) d);;
  d ← gets parent;
  if negb (ref_count d =? 0) then mret RT_EOK else
  result ← match device_close with Some f => f | None => mret RT_EOK end;
  when ((result =? RT_EOK) || (result =? - RT_ENOSYS))
    (upd_dev (set_open_flag RT_DEVICE_OFLAG_CLOSE));;
  mret result.

Definition rt_device_read (pos size : Z) : M dev_st (list Z) :=
  d ← in_drv (gets parent);
  if ref_count d =? 0 then in_sys (rt_set_errno (- RT_ERROR));; mret [] else
  match device_read with
  | Some f => in_drv (f pos size)
  | None => in_sys (rt_set_errno (- RT_ENOSYS));; mret []
  end.

Definition rt_device_write (pos : Z) (buffer : list Z) : M dev_st (outcome dev_wait Z) :=
  d ← in_drv (gets parent);
  if ref_count d =? 0 then in_sys (rt_set_errno (- RT_ERROR));; mret (Returned 0) else
  match device_write with
  | Some f => in_drv (f pos buffer)
  | None => in_sys (rt_set_errno (- RT_ENOSYS));; mret (Returned 0)
  end.

Definition rt_device_control (cmd : Z) (arg : dev_arg) : M S Z :=
  match device_control with
  | Some f => f cmd arg
  | None => mret (- RT_ENOSYS)
  end.

Definition rt_device_set_rx_indicate (rx_ind : option Z) : M S Z :=
  upd_dev (set_rx_ind rx_ind);; mret RT_EOK.

Definition rt_device_set_tx_complete (tx_done : option Z) : M S Z :=
  upd_dev (set_tx_done tx_done);; mret RT_EOK.

End Device.

(** What device.c relies on: the embedded device is a field of the driver's
    state, and the driver leaves the reference count alone. *)
Class DeviceLaws (S : Type) {OP : DeviceOps S} := {
  parent_set d s : parent (set_parent d s) = d;
  init_count f s r s' : device_init = Some f -> f s = Some (r, s') ->
    ref_count (parent s') = ref_count (parent s);
  open_count f oflag s r s' : device_open = Some f -> f oflag s = Some (r, s') ->
    ref_count (parent s') = ref_count (parent s);
  close_count f s r s' : device_close = Some f -> f s = Some (r, s') ->
    ref_count (parent s') = ref_count (parent s);
  control_count f cmd arg s r s' : device_control = Some f -> f cmd arg s = Some (r, s') ->
    ref_count (parent s') = ref_count (parent s);
  read_count f pos size s bs s' : device_read = Some f -> f pos size s = Some (bs, s') ->
    ref_count (parent s') = ref_count (parent s);
  write_count f pos buffer s r s' : device_write = Some f -> f pos buffer s = Some (r, s') ->
    ref_count (parent s') = ref_count (parent s)
}.

Section Laws.
Context {S : Type} {OP : DeviceOps S} {DL : DeviceLaws S}.

(** Partial correctness: what holds of a result if there is one. *)
Definition run_post {A} (m : M S A) (s : S) (Q : A -> S -> Prop) : Prop :=
  forall a s', m s = Some (a, s') -> Q a s'.

Lemma run_bind {A B} (m : M S A) (f : A -> M S B) s Q :
  run_post m s (fun a s' => run_post (f a) s' Q) -> run_post (m ≫= f) s Q.
Proof.
  intros H b s'. unfold mbind, M_bind. destruct (m s) as [[a s1]|] eqn:E; [|done]. by apply H.
Qed.
Lemma run_ret {A} (a : A) s (Q : A -> S -> Prop) : Q a s -> run_post (mret a) s Q.
Proof. by intros H a' s' [= <- <-]. Qed.
Lemma run_gets {A} (f : S -> A) s (Q : A -> S -> Prop) : Q (f s) s -> run_post (gets f) s Q.
Proof. by intros H a' s' [= <- <-]. Qed.
Lemma run_upd f s (Q : unit -> S -> Prop) : Q tt (set_parent (f (parent s)) s) -> run_post (upd_dev f) s Q.
Proof. by intros H a' s' [= <- <-]. Qed.

Notation count s := (ref_count (parent s)).

Lemma activate_count s : run_post open_activate s (fun _ s' => count s' = count s).
Proof.
  unfold open_activate. apply run_bind, run_gets. destruct (negb _); [|by apply run_ret].
  apply run_bind. intros r s1 E.
  assert (count s1 = count s) as E1.
  { destruct device_init as [f|] eqn:Ef; [by eapply init_count|by injection E as <- <-]. }
  destruct (negb _); [by apply run_ret|]. apply run_bind, run_upd, run_ret. by rewrite parent_set.
Qed.

(** Whether [rt_device_open] with result [r] in state [s] counts as an opening:
    it succeeded, or the device is initialised but its opening is not
    supported.  An initialisation that fails with [-RT_ENOSYS] does not
    count. *)
Definition counted (s : S) (r : Z) : bool :=
  (r =? RT_EOK) ||
  ((r =? - RT_ENOSYS) && match open_activate s with Some (r1, _) => r1 =? RT_EOK | None => false end).

(** [rt_device_open] counts these, modulo 256. *)
Lemma device_open_count oflag s : run_post (rt_device_open oflag) s (fun r s' =>
  count s' = if counted s r then u8 (count s + 1) else count s).
Proof.
  unfold rt_device_open. apply run_bind. intros r1 s1 E1. pose proof (activate_count _ _ _ E1) as Hc1.
  unfold counted. rewrite E1. destruct (Z.eqb_spec r1 RT_EOK) as [->|Hr1]; simpl.
  - apply run_bind, run_gets. destruct (_ && _); [by apply run_ret|].
    apply run_bind. intros r s2 E2.
    assert (count s2 = count s) as Hc.
    { rewrite <- Hc1. destruct device_open as [f|] eqn:Ef; [by eapply open_count|].
      revert r s2 E2. refine (run_bind _ _ _ (fun _ s2 => count s2 = count s1) _).
      apply run_upd, run_ret. by rewrite parent_set. }
    apply run_bind. destruct (_ || _) eqn:Er; simpl.
    + apply run_bind, run_upd, run_upd, run_ret. rewrite andb_true_r, Er, !parent_set. simpl. by rewrite Hc.
    + apply run_ret, run_ret. by rewrite andb_true_r, Er.
  - apply run_ret. by rewrite (proj2 (Z.eqb_neq _ _) Hr1), andb_false_r.
Qed.

(** [rt_device_close] with nothing open refuses; otherwise it counts down. *)
Lemma device_close_count s : run_post rt_device_close s (fun r s' =>
  if count s =? 0 then r = - RT_ERROR /\ s' = s else count s' = u8 (count s - 1)).
Proof.
  unfold rt_device_close. apply run_bind, run_gets. destruct (count s =? 0); [by apply run_ret|].
  apply run_bind, run_upd, run_bind, run_gets. rewrite !parent_set. simpl.
  destruct (u8 (count s - 1) =? 0) eqn:E0; simpl; [|apply run_ret; by rewrite parent_set].
  apply run_bind. intros r s1 E1.
  assert (count s1 = u8 (count s - 1)) as Hc.
  { destruct device_close as [f|] eqn:Ef.
    - apply (close_count _ _ _ _ Ef) in E1. by rewrite parent_set in E1.
    - injection E1 as <- <-. by rewrite parent_set. }
  apply run_bind. destruct (_ || _); simpl; [apply run_upd, run_ret|by apply run_ret, run_ret].
  by rewrite parent_set.
Qed.

Lemma device_init_count s : run_post rt_device_init s (fun _ s' => count s' = count s).
Proof.
  unfold rt_device_init. destruct device_init as [f|] eqn:Ef; [|by apply run_ret].
  apply run_bind, run_gets. destruct (negb _); [|by apply run_ret].
  apply run_bind. intros r s1 E1. apply (init_count _ _ _ _ Ef) in E1. rewrite <- E1.
  apply run_bind. destruct (r =? RT_EOK); simpl; [apply run_upd, run_ret; by rewrite parent_set|by apply run_ret, run_ret].
Qed.

(** A call that only sets the error number, or that of a function of the driver. *)
Lemma sys_drv_count {B} (m : M S B) (s : S) (e : errno_st) b s' e' :
  (forall s1, m s = Some (b, s1) -> count s1 = count s) ->
  in_drv m (s, e) = Some (b, (s', e')) -> count s' = count s.
Proof.
  intros Hm. unfold in_drv, zoom. simpl. destruct (m s) as [[b1 s1]|]; [|done].
  intros [= -> -> _]. by apply Hm.
Qed.

Lemma errno_drv_count {B} x (b : B) (s : S) (e : errno_st) b' s' e' :
  (in_sys (rt_set_errno x);; mret b) (s, e) = Some (b', (s', e')) -> s' = s.
Proof.
  unfold in_sys, zoom, mbind, M_bind. simpl. destruct (rt_set_errno x e) as [[[] e1]|]; [|done].
  by intros [= _ <- _].
Qed.

Lemma device_read_count pos size s e bs s' e' :
  rt_device_read pos size (s, e) = Some (bs, (s', e')) -> count s' = count s.
Proof.
  unfold rt_device_read, in_drv at 1, zoom, mbind at 1, M_bind at 1, gets. simpl.
  destruct (count s =? 0); [by intros ->%errno_drv_count|].
  destruct device_read as [f|] eqn:Ef; [|by intros ->%errno_drv_count].
  apply sys_drv_count. intros s1. by apply read_count.
Qed.

Lemma device_write_count pos buffer s e r s' e' :
  rt_device_write pos buffer (s, e) = Some (r, (s', e')) -> count s' = count s.
Proof.
  unfold rt_device_write, in_drv at 1, zoom, mbind at 1, M_bind at 1, gets. simpl.
  destruct (count s =? 0); [by intros ->%errno_drv_count|].
  destruct device_write as [f|] eqn:Ef; [|by intros ->%errno_drv_count].
  apply sys_drv_count. intros s1. by apply write_count.
Qed.

(** The calls of device.c on a device that may follow each other in any order,
    with what each adds to the number of openings. *)
Inductive dev_step (s : S) : Z -> S -> Prop :=
| ds_init r s' : rt_device_init s = Some (r, s') -> dev_step s 0 s'
| ds_open oflag r s' : rt_device_open oflag s = Some (r, s') ->
    dev_step s (if counted s r then 1 else 0) s'
| ds_close r s' : rt_device_close s = Some (r, s') -> dev_step s (if count s =? 0 then 0 else -1) s'
| ds_read pos size e bs s' e' : rt_device_read pos size (s, e) = Some (bs, (s', e')) -> dev_step s 0 s'
| ds_write pos buffer e r s' e' : rt_device_write pos buffer (s, e) = Some (r, (s', e')) -> dev_step s 0 s'
| ds_control cmd arg r s' : rt_device_control cmd arg s = Some (r, s') -> dev_step s 0 s'
| ds_rx_indicate f r s' : rt_device_set_rx_indicate f s = Some (r, s') -> dev_step s 0 s'
| ds_tx_complete f r s' : rt_device_set_tx_complete f s = Some (r, s') -> dev_step s 0 s'.

(** Histories of a device; the number is that of counted openings less that of
    the closes that were not refused. *)
Inductive dev_history (s0 : S) : Z -> S -> Prop :=
| dh_start : dev_history s0 0 s0
| dh_step n s d s' : dev_history s0 n s -> dev_step s d s' -> dev_history s0 (n + d) s'.

Lemma step_count s d s' : is_u8 (count s) -> dev_step s d s' -> count s' = u8 (count s + d).
Proof.
  intros Hu. assert (count s = u8 (count s + 0)) as H0 by (rewrite Z.add_0_r; symmetry; by apply uwrap_small).
  destruct 1 as [r s' E|oflag r s' E|r s' E|pos size e bs s' e' E|pos buf e r s' e' E|cmd arg r s' E|f r s' E|f r s' E].
  - rewrite <- H0. by apply device_init_count in E.
  - apply device_open_count in E. destruct (counted s r); congruence.
  - apply device_close_count in E. destruct (count s =? 0); [destruct E as [_ ->]; congruence|done].
  - rewrite <- H0. by apply device_read_count in E.
  - rewrite <- H0. by apply device_write_count in E.
  - rewrite <- H0. revert E. unfold rt_device_control. destruct device_control as [f|] eqn:Ef.
    + by apply control_count.
    + by intros [= <- <-].
  - rewrite <- H0. injection E as <- <-. by rewrite parent_set.
  - rewrite <- H0. injection E as <- <-. by rewrite parent_set.
Qed.

Lemma history_count s0 n s : is_u8 (count s0) -> dev_history s0 n s -> count s = u8 (count s0 + n).
Proof.
  intros H0. induction 1 as [|n s d s' _ IH E].
  - rewrite Z.add_0_r. symmetry. by apply uwrap_small.
  - apply step_count in E; [|rewrite IH; by apply uwrap_range].
    rewrite E, IH, uwrap_add_l. f_equal. lia.
Qed.

Lemma wp_read_refused pos size s e (Q : list Z -> S * errno_st -> Prop) :
  kinv (i_kernel (fst e)) -> count s = 0 ->
  (forall e', wp rt_get_errno e' (fun r _ => r = - RT_ERROR) -> Q [] (s, e')) ->
  wp (rt_device_read pos size) (s, e) Q.
Proof.
  intros Hk Hc HQ. unfold rt_device_read, in_drv, in_sys. wp_steps. simpl. rewrite Hc. simpl. wp_steps.
  apply wp_set_errno; [exact Hk|]. intros e' _ Hg. wp_steps. by apply HQ.
Qed.

(** C25. The reference count of a device is the number of its openings less
    that of the closes, modulo 256, along every history of calls of device.c on
    a driver that leaves it alone.  An opening counts when it succeeds, and also
    when it returns [-RT_ENOSYS] from a device that is initialised ([counted]);
    one that fails otherwise does not, and neither does a close that is refused.
    Whenever the number is 0 modulo 256, closing is refused with [-RT_ERROR] and
    reading returns nothing and sets the error number to [-RT_ERROR] - also
    after 256 openings without a close. *)
Theorem device_count_mod_256 s0 n s e pos size :
  count s0 = 0 -> dev_history s0 n s -> kinv (i_kernel (fst e)) ->
  count s = u8 n /\
  (u8 n = 0 ->
   rt_device_close s = Some (- RT_ERROR, s) /\
   wp (rt_device_read pos size) (s, e) (fun bs st =>
     bs = [] /\ fst st = s /\ wp rt_get_errno (snd st) (fun x _ => x = - RT_ERROR))).
Proof.
  intros H0 Hh Hk. pose proof (history_count s0 n s ltac:(rewrite H0; done) Hh) as Hc.
  rewrite H0, Z.add_0_l in Hc. split; [done|]. intros Hn. rewrite Hn in Hc. split.
  - unfold rt_device_close, mbind, M_bind, gets. by rewrite Hc.
  - apply wp_read_refused; [done|done|]. by intros e' Hg.
Qed.

End Laws.
(** ** The registry of devices is a finite map *)

(** The devices registered, by the twelve bytes kept of their names. *)
Record reg_ok (st : obj_st) (m : gmap (list Z) ref) : Prop := {
  rg_list : exists l, container_of RT_Object_Class_Device (containers st) = Some l /\
    Forall (name_ok (headers st)) l /\
    forall key o, m !! key = Some o <-> o ∈ l /\ named (headers st) o key
}.

Record sys_ok (e : errno_st) (m : gmap (list Z) ref) : Prop := {
  so_kinv : kinv (i_kernel (fst e));
  so_current : exists c, rt_current_thread (i_sched (fst e)) = Some c;
  so_lock : 0 <= rt_scheduler_lock_nest (i_sched (fst e)) < 32767;
  so_reg : reg_ok (k_obj (i_kernel (fst e))) m
}.

(** A name and the twelve bytes that are kept of it. *)
Definition name_key (nm key : list Z) : Prop :=
  Forall is_u8 nm /\ rt_strncpy nm RT_NAME_MAX = Some key.

Lemma reg_search st m nm key l :
  reg_ok st m -> name_key nm key -> container_of RT_Object_Class_Device (containers st) = Some l ->
  object_search nm (headers st) l = Some (m !! key).
Proof.
  intros [(l' & Hl' & Hn & Hm)] [Hu Hk] Hl. rewrite Hl in Hl'. injection Hl' as <-.
  destruct (object_search_spec nm key (headers st) l Hn Hu Hk) as (r & -> & Hr). f_equal. symmetry.
  destruct r as [o|]; [by apply Hm|]. apply eq_None_not_Some. intros [o Ho]. apply Hm in Ho as [Ho Hk'].
  by apply (Hr o).
Qed.

Lemma rescheduled_ok (i : ipc) v s' m :
  sys_ok (i, v) m -> rescheduled (i_kernel i) s' -> kinv (set_k_sched s' (i_kernel i)) ->
  sys_ok (set_i_kernel (set_k_sched s' (i_kernel i)) i, v) m.
Proof.
  intros [Hk [c Hc] Hn Hr] [Hs Hl] Hk'. simpl in *. split; simpl; [done| |by rewrite Hl|done].
  destruct Hs as [(_ & Hc' & _)| ->]; [done|by exists c].
Qed.

Lemma reg_attach st m o nm key l :
  reg_ok st m -> name_key nm key -> m !! key = None -> ~ object_linked st o ->
  container_of RT_Object_Class_Device (containers st) = Some l ->
  reg_ok (attached_obj o RT_Object_Class_Device key l st) (<[key := o]> m).
Proof.
  intros [(l' & Hl' & Hn & Hm)] [Hu Hk] Hnone Hnl Hl. rewrite Hl in Hl'. injection Hl' as <-.
  assert (o ∉ l) as Hol.
  { intros Ho. apply Hnl. destruct st as [hs cs]. by eapply container_of_linked. }
  assert (forall x, x ∈ l -> headers (attached_obj o RT_Object_Class_Device key l st) !! x = headers st !! x) as Hx.
  { intros x Hx. simpl. apply lookup_insert_ne. intros ->. done. }
  split. exists (o :: l). split; [by eapply container_of_set|]. split.
  - constructor.
    + eexists. split; [apply lookup_insert_eq|]. split; [by eapply strncpy_idem|by eapply strncpy_u8].
    + apply Forall_forall. intros x Hxl. rewrite Forall_forall in Hn. destruct (Hn x Hxl) as (h & Hh & Hrest).
      exists h. by rewrite Hx.
  - intros key' x. unfold named. rewrite lookup_insert_Some, elem_of_cons, Hm. split.
    + intros [[<- <-]|(Hne & Hxl & Hnx)].
      * split; [by left|]. eexists. split; [apply lookup_insert_eq|done].
      * split; [by right|]. rewrite Hx by done. done.
    + intros [[->|Hxl] (h & Hh & <-)].
      * left. simpl in Hh. rewrite lookup_insert_eq in Hh. by injection Hh as <-.
      * right. rewrite Hx in Hh by done. split; [|split; [done|by exists h]]. intros ->.
        rewrite (proj2 (Hm (name h) x)) in Hnone; [done|]. split; [done|by exists h].
Qed.

Lemma reg_detach st m o key h :
  reg_ok st m -> m !! key = Some o -> headers st !! o = Some h ->
  reg_ok (mk_objs (<[o := mk_object (name h) 0]> (headers st))
            ((fun e => (fst e, filter (fun x => x <> o) (snd e))) <$> containers st)) (delete key m).
Proof.
  intros [(l & Hl & Hn & Hm)] Hko Hh. split. exists (filter (fun x => x <> o) l). simpl.
  split; [by rewrite container_of_unlink, Hl|]. split.
  - apply Forall_forall. intros x Hx. apply list_elem_of_filter in Hx as [Hxo Hxl]. rewrite Forall_forall in Hn.
    destruct (Hn x Hxl) as (h' & Hh' & Hrest). exists h'. by rewrite lookup_insert_ne.
  - intros key' x. rewrite lookup_delete_Some, Hm, list_elem_of_filter. unfold named. split.
    + intros (Hne & Hxl & h' & Hh' & Hkey). assert (x <> o).
      { intros ->. apply Hne. apply Hm in Hko as (_ & h2 & Hh2 & <-). congruence. }
      split; [done|]. exists h'. by rewrite lookup_insert_ne.
    + intros ([Hxo Hxl] & h' & Hh' & Hkey). rewrite lookup_insert_ne in Hh' by done.
      split; [|split; [done|by exists h']]. intros ->.
      rewrite (proj2 (Hm key' x)) in Hko; [by injection Hko|]. split; [done|by exists h'].
Qed.

Section Registry.
Context {S : Type} {OP : DeviceOps S}.

Lemma wp_in_dev_kernel {B} (m : M kernel B) (s : S) (i : ipc) v (Q : B -> S * errno_st -> Prop) :
  wp m (i_kernel i) (fun b k => Q b (s, (set_i_kernel k i, v))) -> wp (in_dev_kernel m) (s, (i, v)) Q.
Proof.
  intros W. unfold in_dev_kernel, in_sys. wp_steps. apply wp_in_fst. by apply wp_in_kernel.
Qed.

Lemma wp_device_find nm key m (s : S) e (Q : option ref -> S * errno_st -> Prop) :
  sys_ok e m -> name_key nm key ->
  (forall e', sys_ok e' m -> k_obj (i_kernel (fst e')) = k_obj (i_kernel (fst e)) -> Q (m !! key) (s, e')) ->
  wp (rt_device_find nm) (s, e) Q.
Proof.
  intros Hs Hk HQ. destruct e as [i v]. pose proof Hs as [Hki [c Hc] Hn Hr]. pose proof Hr as [(l & Hl & _)].
  apply wp_in_dev_kernel. eapply (wp_object_find nm _ l _ c); [done..|by eapply reg_search|].
  intros s' Hs' Hk'. apply HQ; [by apply rescheduled_ok|done].
Qed.

Lemma wp_device_register nm key m (s : S) e dev flags :
  sys_ok e m -> name_key nm key -> ~ object_linked (k_obj (i_kernel (fst e))) (Obj dev) ->
  wp (rt_device_register (Some dev) nm flags) (s, e) (fun r st =>
    match m !! key with
    | Some _ => r = - RT_ERROR /\ fst st = s /\ sys_ok (snd st) m
    | None => r = RT_EOK /\ sys_ok (snd st) (<[key := Obj dev]> m) /\
        fst st = set_parent (mk_dev (u16 flags) 0 0 (rx_indicate (parent s)) (tx_complete (parent s))) s
    end).
Proof.
  intros Hs Hk Hnl. unfold rt_device_register. wp_step. eapply wp_device_find; [done..|]. intros [i v] Hs' Eo.
  destruct (m !! key) as [o|] eqn:Em.
  - rewrite bool_decide_true by (by exists o). by wp_steps.
  - rewrite bool_decide_false by (by intros []). wp_step. apply wp_in_dev_kernel.
    pose proof Hs' as [Hki [c Hc] Hn Hr]. pose proof Hr as [(l & Hl & _)]. simpl in Eo.
    eapply (wp_object_init_at _ _ _ key l c); [done|done|done|apply Hk|by rewrite Eo|done|].
    intros s1 Hs1 Hk1. unfold in_drv, upd_dev. wp_steps. simpl. split; [done|]. split; [|done].
    destruct (rescheduled_ok _ _ _ _ Hs' Hs1 Hk1) as [H1 H2 H3 H4]. split; simpl in *; [by apply kinv_obj|done|done|].
    apply (reg_attach _ _ _ nm); [done|done|done|by rewrite Eo|done].
Qed.

(** C21. The registry of devices is a map from names, of which the first twelve
    bytes count, to devices: [rt_device_find] looks a name up;
    [rt_device_register] refuses a name in use with [-RT_ERROR] and no change,
    and otherwise adds the device, closed, with the given flags;
    [rt_device_unregister] takes it out again.  A rescheduling at the end of
    the critical section changes none of this. *)
Theorem device_registry nm key m (s : S) e dev flags :
  sys_ok e m -> name_key nm key ->
  wp (rt_device_find nm) (s, e) (fun r st => r = m !! key /\ fst st = s /\ sys_ok (snd st) m) /\
  (~ object_linked (k_obj (i_kernel (fst e))) (Obj dev) ->
   wp (rt_device_register (Some dev) nm flags) (s, e) (fun r st =>
     match m !! key with
     | Some _ => r = - RT_ERROR /\ fst st = s /\ sys_ok (snd st) m
     | None => r = RT_EOK /\ sys_ok (snd st) (<[key := Obj dev]> m) /\
         fst st = set_parent (mk_dev (u16 flags) 0 0 (rx_indicate (parent s)) (tx_complete (parent s))) s
     end)) /\
  (m !! key = Some (Obj dev) ->
   wp (rt_device_unregister dev) (s, e) (fun r st =>
     r = RT_EOK /\ fst st = s /\ sys_ok (snd st) (delete key m))).
Proof.
  intros Hs Hk. split; [|split].
  - by eapply wp_device_find.
  - intros Hnl. by apply wp_device_register.
  - intros Hm. destruct e as [i v]. destruct Hs as [H1 H2 H3 H4]. pose proof H4 as [(l & Hl & _ & Hmm)].
    apply Hmm in Hm as Hin. destruct Hin as (_ & h & Hh & Hkey).
    unfold rt_device_unregister. wp_step. apply wp_in_dev_kernel, wp_in_obj.
    unfold rt_object_detach, get_header, object_unlink. wp_steps. apply (wp_deref _ h); [done|]. wp_steps.
    simpl. split; [done|]. split; [done|]. split; simpl in *; [by apply kinv_obj|done|done|].
    by apply (reg_detach _ m (Obj dev) key h).
Qed.
End Registry.

(** ** Concrete runs *)

(** A device all of whose function pointers are null. *)
#[export] Instance null_driver : DeviceOps rt_device := {|
  dev_arg := unit;
  dev_wait := unit;
  parent := id;
  set_parent := fun d _ => d;
  device_init := None;
  device_open := None;
  device_close := None;
  device_read := None;
  device_write := None;
  device_control := None
|}.

#[export] Instance null_driver_laws : DeviceLaws rt_device.
Proof. split; done. Qed.

Definition demo_dev : rt_device := mk_dev RT_DEVICE_FLAG_RDWR 0 0 None None.

(** A driver whose device cannot be opened: [-RT_ENOSYS] counts all the same. *)
Definition nosys_driver : DeviceOps rt_device := {|
  dev_arg := unit;
  dev_wait := unit;
  parent := id;
  set_parent := fun d _ => d;
  device_init := None;
  device_open := Some (fun _ => mret (- RT_ENOSYS));
  device_close := None;
  device_read := None;
  device_write := None;
  device_control := None
|}.

Lemma nosys_driver_laws : @DeviceLaws rt_device nosys_driver.
Proof. split; try done. by intros f oflag s r s' [= <-] [= _ ->]. Qed.

Lemma demo_opens n : dev_history (OP := nosys_driver) (mk_dev 0x13 0xb 0 None None) (Z.of_nat n)
  (mk_dev 0x13 0xb (u8 (Z.of_nat n)) None None).
Proof.
  induction n as [|n IH]; [constructor|]. rewrite Nat2Z.inj_succ. unfold Z.succ.
  eapply (dh_step _ _ _ 1); [exact IH|].
  apply (ds_open (OP := nosys_driver) (mk_dev 0x13 0xb (u8 (Z.of_nat n)) None None) 0x3 (- RT_ENOSYS)).
  unfold rt_device_open, open_activate.
  cbv [mbind M_bind gets parent nosys_driver id dev_flag open_flag has]. simpl.
  rewrite uwrap_add_l. reflexivity.
Qed.

(** 256 openings, each answered [-RT_ENOSYS], and the device is closed. *)
Lemma device_count_mod_256_witness :
  rt_device_close (OP := nosys_driver) (mk_dev 0x13 0xb 0 None None) = Some (- RT_ERROR, mk_dev 0x13 0xb 0 None None).
Proof.
  destruct (device_count_mod_256 (OP := nosys_driver) (DL := nosys_driver_laws) (mk_dev 0x13 0xb 0 None None) 256 _
    (demo_ipc, 0) 0 1 eq_refl (demo_opens 256) demo_ipc_kinv) as [_ H].
  exact (proj1 (H eq_refl)).
Defined.

Definition demo_name : list Z := [117; 97; 114; 116; 49; 0].
Definition demo_key : list Z := [117; 97; 114; 116; 49; 0; 0; 0; 0; 0; 0; 0].

Lemma demo_sys_ok : sys_ok (demo_ipc, 0) ∅.
Proof.
  split; [exact demo_ipc_kinv|by eexists|done|].
  split. exists []. split; [reflexivity|]. split; [constructor|]. intros key o. rewrite lookup_empty.
  split; [done|]. by intros [?%elem_of_nil _].
Qed.

Lemma device_registry_witness :
  exists st, rt_device_register (Some 7%positive) demo_name RT_DEVICE_FLAG_RDWR (demo_dev, (demo_ipc, 0)) = Some (RT_EOK, st) /\
    sys_ok (snd st) {[ demo_key := Obj 7 ]}.
Proof.
  destruct (device_registry demo_name demo_key ∅ demo_dev (demo_ipc, 0) 7 RT_DEVICE_FLAG_RDWR demo_sys_ok
    ltac:(split; [repeat constructor; vm_compute; congruence|reflexivity])) as (_ & H & _).
  assert (~ object_linked (k_obj (i_kernel demo_ipc)) (Obj 7)) as Hn by (apply (bool_decide_unpack _); vm_compute; exact I).
  specialize (H Hn). apply wp_Some in H as (r & st & E & Hr). rewrite lookup_empty in Hr.
  destruct Hr as (-> & Hs & _). exists st. split; [exact E|exact Hs].
Defined.

End Dev.
