(* ===== verification/SmallMem.v ===== *)
(** * The small-memory heap

    Model of [rt-thread/src/mem.c], the allocator the board configures
    ([RT_USING_SMALL_MEM], 32-bit, statistics on, no memory trace).  The heap
    is a chain of blocks, each behind a [struct heap_mem] of 12 bytes; the
    model keeps the headers in a map from their offset to [heap_ptr] and the
    bytes of the users' blocks in [cells].  In C a header that a split writes
    overwrites bytes that belong to no block in use any more: a write to the
    map does not show in [cells], so [cells] stands for the memory only at the
    bytes of the blocks in use, and the theorems on the contents speak of
    those.  Pointers to headers are offsets,
    the pointers handed to users are addresses; 0 is the null pointer.
    Reading a header where there is none is a fault.  [rt_size_t] arithmetic
    is 32-bit with its wrap-around.

    The abstract heap is the list of the blocks' sizes with a used mark.
    [heap_inv] relates the two; the theorems show that allocation is first
    fit on that list, that freeing merges with the free neighbours, that the
    statistics are exact, and that freeing what was just allocated restores
    the blocks and the contents of those in use. *)
From stdpp Require Import base list gmap.
From Stdlib Require Import ZArith Lia.
From S2P Require Import Prelude.

Module Mem.

Definition HEAP_MAGIC : Z := 0x1ea0.
Definition MIN_SIZE : Z := 12.
Definition RT_ALIGN_SIZE : Z := 4.

Definition RT_ALIGN (size align : Z) : Z :=
  Z.land (u32 (size + align - 1)) (Z.lnot (align - 1)).
Definition RT_ALIGN_DOWN (size align : Z) : Z :=
  Z.land size (Z.lnot (align - 1)).

Definition MIN_SIZE_ALIGNED : Z := RT_ALIGN MIN_SIZE RT_ALIGN_SIZE.
(** [sizeof(struct heap_mem)] is 2 + 2 + 4 + 4 bytes. *)
Definition SIZEOF_STRUCT_MEM : Z := RT_ALIGN 12 RT_ALIGN_SIZE.

Record heap_mem := mk_mem {
  magic : Z;           (* rt_uint16_t *)
  used : Z;            (* rt_uint16_t *)
  next : Z;            (* rt_size_t *)
  prev : Z             (* rt_size_t *)
}.

Record heap := mk_heap {
  headers : gmap Z heap_mem;
  cells : Z -> Z;              (* by offset *)
  heap_ptr : Z;                (* address *)
  heap_end : Z;                (* offset *)
  lfree : Z;                   (* offset *)
  mem_size_aligned : Z;
  used_mem : Z;
  max_mem : Z;
  heap_sem : Z                 (* value of the semaphore *)
}.

Definition set_headers h s :=
  mk_heap h (cells s) (heap_ptr s) (heap_end s) (lfree s) (mem_size_aligned s) (used_mem s)
    (max_mem s) (heap_sem s).
Definition set_cells c s :=
  mk_heap (headers s) c (heap_ptr s) (heap_end s) (lfree s) (mem_size_aligned s) (used_mem s)
    (max_mem s) (heap_sem s).
Definition set_lfree x s :=
  mk_heap (headers s) (cells s) (heap_ptr s) (heap_end s) x (mem_size_aligned s) (used_mem s)
    (max_mem s) (heap_sem s).
Definition set_stats u m s :=
  mk_heap (headers s) (cells s) (heap_ptr s) (heap_end s) (lfree s) (mem_size_aligned s) u m
    (heap_sem s).
Definition set_sem x s :=
  mk_heap (headers s) (cells s) (heap_ptr s) (heap_end s) (lfree s) (mem_size_aligned s)
    (used_mem s) (max_mem s) x.

Definition get_mem (o : Z) : M heap heap_mem := fun s =>
  match headers s !! o with Some m => Some (m, s) | None => None end.
Definition put_mem (o : Z) (m : heap_mem) : M heap unit :=
  modify (fun s => set_headers (<[o := m]> (headers s)) s).
(** A store to a field of the header at offset [o]. *)
Definition set_used (o x : Z) : M heap unit :=
  m ← get_mem o; put_mem o (mk_mem (magic m) x (next m) (prev m)).
Definition set_next (o x : Z) : M heap unit :=
  m ← get_mem o; put_mem o (mk_mem (magic m) (used m) x (prev m)).
Definition set_prev (o x : Z) : M heap unit :=
  m ← get_mem o; put_mem o (mk_mem (magic m) (used m) (next m) x).
Definition set_magic (o : Z) : M heap unit :=
  m ← get_mem o; put_mem o (mk_mem HEAP_MAGIC (used m) (next m) (prev m)).

(** The heap's semaphore: taking it when another thread holds it would wait;
    the model has one caller and no value for that case. *)
Definition sem_take : M heap unit := fun s =>
  if 0 <? heap_sem s then Some (tt, set_sem (heap_sem s - 1) s) else None.
Definition sem_release : M heap unit := modify (fun s => set_sem (heap_sem s + 1) s).

Definition plug_holes (mem : Z) : M heap unit :=
  m ← get_mem mem;
  let nmem := next m in
  n ← get_mem nmem;
  hend ← gets heap_end;
  when (negb (mem =? nmem) && (used n =? 0) && negb (nmem =? hend))
    (lf ← gets lfree;
     when (lf =? nmem) (modify (set_lfree mem));;
     set_next mem (next n);;
     set_prev (next n) mem);;
  m ← get_mem mem;
  let pmem := prev m in
  p ← get_mem pmem;
  when (negb (pmem =? mem) && (used p =? 0))
    (lf ← gets lfree;
     when (lf =? mem) (modify (set_lfree pmem));;
     set_next pmem (next m);;
     set_prev (next m) pmem).

Definition rt_system_heap_init (begin_addr end_addr : Z) : M heap unit :=
  let begin_align := RT_ALIGN begin_addr RT_ALIGN_SIZE in
  let end_align := RT_ALIGN_DOWN end_addr RT_ALIGN_SIZE in
  if (2 * SIZEOF_STRUCT_MEM <? end_align) &&
     (begin_align <=? u32 (end_align - 2 * SIZEOF_STRUCT_MEM)) then
    let size := u32 (end_align - begin_align - 2 * SIZEOF_STRUCT_MEM) in
    let e := u32 (size + SIZEOF_STRUCT_MEM) in
    modify (fun s => mk_heap (<[e := mk_mem HEAP_MAGIC 1 e e]>
                                (<[0 := mk_mem HEAP_MAGIC 0 e 0]> (headers s)))
                       (cells s) begin_align e 0 size (used_mem s) (max_mem s) 1)
  else mret tt.

(** [while (lfree->used && lfree != heap_end) lfree = next] *)
Fixpoint lfree_loop (fuel : nat) : M heap unit :=
  match fuel with
  | O => fault
  | S fuel =>
      lf ← gets lfree;
      m ← get_mem lf;
      hend ← gets heap_end;
      if negb (used m =? 0) && negb (lf =? hend)
      then modify (set_lfree (next m));; lfree_loop fuel
      else mret tt
  end.

(** The loops visit each header of the chain at most once. *)
Definition chain_fuel (s : heap) : nat := S (size (headers s)).

(** The block found: split it or take it whole. *)
Definition take_block (ptr size : Z) (mem : heap_mem) : M heap unit :=
  ms ← gets mem_size_aligned;
  if u32 (size + SIZEOF_STRUCT_MEM + MIN_SIZE_ALIGNED) <=?
     u32 (next mem - u32 (ptr + SIZEOF_STRUCT_MEM)) then
    let ptr2 := u32 (ptr + SIZEOF_STRUCT_MEM + size) in
    put_mem ptr2 (mk_mem HEAP_MAGIC 0 (next mem) ptr);;
    set_next ptr ptr2;;
    set_used ptr 1;;
    when (negb (next mem =? u32 (ms + SIZEOF_STRUCT_MEM))) (set_prev (next mem) ptr2);;
    modify (fun s =>
      let u := u32 (used_mem s + (size + SIZEOF_STRUCT_MEM)) in
      set_stats u (if max_mem s <? u then u else max_mem s) s)
  else
    set_used ptr 1;;
    modify (fun s =>
      let u := u32 (used_mem s + u32 (next mem - ptr)) in
      set_stats u (if max_mem s <? u then u else max_mem s) s).

(** The search from [ptr]; the result is the address for the user or 0. *)
Fixpoint malloc_loop (fuel : nat) (ptr size : Z) : M heap Z :=
  match fuel with
  | O => fault
  | S fuel =>
      ms ← gets mem_size_aligned;
      if ptr <? u32 (ms - size) then
        mem ← get_mem ptr;
        if (used mem =? 0) && (size <=? u32 (next mem - u32 (ptr + SIZEOF_STRUCT_MEM))) then
          take_block ptr size mem;;
          set_magic ptr;;
          lf ← gets lfree;
          fuel' ← gets chain_fuel;
          when (ptr =? lf) (lfree_loop fuel');;
          sem_release;;
          base ← gets heap_ptr;
          mret (u32 (base + ptr + SIZEOF_STRUCT_MEM))
        else malloc_loop fuel (next mem) size
      else
        sem_release;; mret 0
  end.

Definition rt_malloc (size : Z) : M heap Z :=
  if size =? 0 then mret 0 else
  let size := RT_ALIGN size RT_ALIGN_SIZE in
  ms ← gets mem_size_aligned;
  if ms <? size then mret 0 else
  let size := if size <? MIN_SIZE_ALIGNED then MIN_SIZE_ALIGNED else size in
  sem_take;;
  ptr ← gets lfree;
  fuel ← gets chain_fuel;
  malloc_loop fuel ptr size.

(** [rmem] lies in the heap. *)
Definition in_heap (rmem : Z) : M heap bool :=
  base ← gets heap_ptr;
  hend ← gets heap_end;
  mret ((base <=? rmem) && (rmem <? base + hend)).

Definition rt_free (rmem : Z) : M heap unit :=
  if rmem =? 0 then mret tt else
  ok ← in_heap rmem;
  if negb ok then mret tt else
  base ← gets heap_ptr;
  let mem := rmem - SIZEOF_STRUCT_MEM - base in
  sem_take;;
  set_used mem 0;;
  set_magic mem;;
  lf ← gets lfree;
  when (mem <? lf) (modify (set_lfree mem));;
  m ← get_mem mem;
  modify (fun s => set_stats (u32 (used_mem s - u32 (next m - mem))) (max_mem s) s);;
  plug_holes mem;;
  sem_release.

(** [rt_memcpy] and [rt_memset] on the users' bytes, by offset. *)
Definition copy_cells (dst src n : Z) (c : Z -> Z) : Z -> Z := fun a =>
  if (dst <=? a) && (a <? dst + n) then c (src + (a - dst)) else c a.
Definition fill_cells (dst n x : Z) (c : Z -> Z) : Z -> Z := fun a =>
  if (dst <=? a) && (a <? dst + n) then x else c a.

Definition rt_realloc (rmem newsize : Z) : M heap Z :=
  let newsize := RT_ALIGN newsize RT_ALIGN_SIZE in
  ms ← gets mem_size_aligned;
  if ms <? newsize then mret 0 else
  if newsize =? 0 then rt_free rmem;; mret 0 else
  if rmem =? 0 then rt_malloc newsize else
  sem_take;;
  ok ← in_heap rmem;
  if negb ok then sem_release;; mret rmem else
  base ← gets heap_ptr;
  let ptr := rmem - SIZEOF_STRUCT_MEM - base in
  mem ← get_mem ptr;
  let size := u32 (next mem - ptr - SIZEOF_STRUCT_MEM) in
  if size =? newsize then sem_release;; mret rmem else
  if u32 (newsize + SIZEOF_STRUCT_MEM + MIN_SIZE) <? size then
    modify (fun s => set_stats (u32 (used_mem s - u32 (size - newsize))) (max_mem s) s);;
    let ptr2 := u32 (ptr + SIZEOF_STRUCT_MEM + newsize) in
    put_mem ptr2 (mk_mem HEAP_MAGIC 0 (next mem) ptr);;
    set_next ptr ptr2;;
    when (negb (next mem =? u32 (ms + SIZEOF_STRUCT_MEM))) (set_prev (next mem) ptr2);;
    lf ← gets lfree;
    when (ptr2 <? lf) (modify (set_lfree ptr2));;
    plug_holes ptr2;;
    sem_release;;
    mret rmem
  else
    sem_release;;
    nmem ← rt_malloc newsize;
    when (negb (nmem =? 0))
      (modify (fun s => set_cells
         (copy_cells (nmem - base) (rmem - base) (if size <? newsize then size else newsize)
            (cells s)) s);;
       rt_free rmem);;
    mret nmem.

Definition rt_calloc (count size : Z) : M heap Z :=
  p ← rt_malloc (u32 (count * size));
  base ← gets heap_ptr;
  when (negb (p =? 0))
    (modify (fun s => set_cells (fill_cells (p - base) (u32 (count * size)) 0 (cells s)) s));;
  mret p.

Definition rt_memory_info (s : heap) : Z * Z * Z :=
  (mem_size_aligned s, used_mem s, max_mem s).

(** ** The chain of blocks

    A block is its size with the header, and whether it is used.
    [chain h o p bs o' p']: the headers [h] link the blocks [bs] from offset
    [o], whose predecessor is [p], up to offset [o'], whose predecessor is
    [p']. *)

Notation block := (Z * bool)%type.

Fixpoint chain (h : gmap Z heap_mem) (o p : Z) (bs : list block) (o' p' : Z) : Prop :=
  match bs with
  | [] => o = o' /\ p = p'
  | (sz, u) :: bs =>
      16 <= sz /\ sz mod 4 = 0 /\
      h !! o = Some (mk_mem HEAP_MAGIC (if u then 1 else 0) (o + sz) p) /\
      chain h (o + sz) o bs o' p'
  end.

Definition extent (bs : list block) : Z := foldr (fun b n => b.1 + n) 0 bs.
Definition used_sum (bs : list block) : Z :=
  foldr (fun b n => (if (b.2 : bool) then b.1 else 0) + n) 0 bs.

(** The offset of the first free block, the end if there is none. *)
Fixpoint first_free (o : Z) (bs : list block) : Z :=
  match bs with
  | [] => o
  | (sz, u) :: bs => if (u : bool) then first_free (o + sz) bs else o
  end.

(** No free block behind a free block. *)
Fixpoint merged (bs : list block) : Prop :=
  match bs with
  | [] => True
  | (_, u) :: bs => (u = true \/ match bs with (_, false) :: _ => False | _ => True end) /\ merged bs
  end.

Lemma chain_app h o p l1 l2 o' p' :
  chain h o p (l1 ++ l2) o' p' <-> exists om pm, chain h o p l1 om pm /\ chain h om pm l2 o' p'.
Proof.
  revert o p. induction l1 as [|[sz u] l1 IH]; intros o p; simpl.
  - split; [by exists o, p|]. by intros (om & pm & (-> & ->) & H).
  - rewrite IH. naive_solver.
Qed.

Lemma chain_extent h o p bs o' p' : chain h o p bs o' p' -> o' = o + extent bs.
Proof.
  revert o p. induction bs as [|[sz u] bs IH]; intros o p; simpl.
  - intros [-> _]. unfold extent. simpl. lia.
  - intros (_ & _ & _ & H). rewrite (IH _ _ H). unfold extent. simpl. lia.
Qed.

Lemma chain_sizes h o p bs o' p' :
  chain h o p bs o' p' -> Forall (fun b => 16 <= b.1 /\ b.1 mod 4 = 0) bs.
Proof.
  revert o p. induction bs as [|[sz u] bs IH]; intros o p; simpl; [by constructor|].
  intros (H1 & H2 & _ & H). constructor; [done|]. by eapply IH.
Qed.

Lemma extent_nonneg bs : Forall (fun b => 16 <= b.1 /\ b.1 mod 4 = 0) bs -> 0 <= extent bs.
Proof. induction 1 as [|[sz u] bs [H _] _ IH]; unfold extent in *; simpl in *; lia. Qed.

Lemma extent_app l1 l2 : extent (l1 ++ l2) = extent l1 + extent l2.
Proof. induction l1 as [|b l1 IH]; unfold extent in *; simpl; lia. Qed.

Lemma used_sum_app l1 l2 : used_sum (l1 ++ l2) = used_sum l1 + used_sum l2.
Proof. induction l1 as [|b l1 IH]; unfold used_sum in *; simpl; lia. Qed.

Lemma used_sum_bounds bs :
  Forall (fun b => 16 <= b.1 /\ b.1 mod 4 = 0) bs -> 0 <= used_sum bs <= extent bs.
Proof.
  induction 1 as [|[sz u] bs [H _] _ IH]; unfold used_sum, extent in *; simpl in *; [lia|].
  destruct u; lia.
Qed.

Lemma extent_mod bs :
  Forall (fun b => 16 <= b.1 /\ b.1 mod 4 = 0) bs -> extent bs mod 4 = 0.
Proof.
  induction 1 as [|[sz u] bs [_ H] _ IH]; unfold extent in *; simpl in *; [done|].
  rewrite Zplus_mod, H, IH. done.
Qed.

(** A segment depends only on the headers inside it. *)
Lemma chain_frame h h' o p bs o' p' :
  chain h o p bs o' p' -> (forall k, o <= k < o' -> h' !! k = h !! k) -> chain h' o p bs o' p'.
Proof.
  revert o p. induction bs as [|[sz u] bs IH]; intros o p Hc Hk; simpl in *; [done|].
  destruct Hc as (H1 & H2 & H3 & H4). pose proof (chain_extent _ _ _ _ _ _ H4).
  pose proof (extent_nonneg _ (chain_sizes _ _ _ _ _ _ H4)).
  split_and!; [done|done|rewrite Hk; [done|lia]|]. apply IH; [done|]. intros k Hk'. apply Hk. lia.
Qed.

(** The first header of a segment gets another predecessor. *)
Lemma chain_reprev h o p q sz u bs o' p' m :
  chain h o p ((sz, u) :: bs) o' p' -> h !! o = Some m ->
  chain (<[o := mk_mem (magic m) (used m) (next m) q]> h) o q ((sz, u) :: bs) o' p'.
Proof.
  intros (H1 & H2 & H3 & H4) Hm. rewrite Hm in H3. injection H3 as ->. simpl.
  split_and!; [done|done|apply lookup_insert_eq|].
  eapply chain_frame; [done|]. intros k Hk. apply lookup_insert_ne. lia.
Qed.

(** Every block contributes a header: the loops have enough fuel. *)
Lemma chain_offsets h o p bs o' p' :
  chain h o p bs o' p' ->
  exists X : gset Z, size X = length bs /\ X ⊆ dom h /\ forall k, k ∈ X -> o <= k < o'.
Proof.
  revert o p. induction bs as [|[sz u] bs IH]; intros o p; simpl.
  - intros _. exists ∅. split_and!; [apply size_empty|set_solver|set_solver].
  - intros (H1 & _ & H3 & H4). destruct (IH _ _ H4) as (X & Hs & HX & Hk).
    pose proof (chain_extent _ _ _ _ _ _ H4).
    pose proof (extent_nonneg _ (chain_sizes _ _ _ _ _ _ H4)).
    exists ({[o]} ∪ X). split_and!.
    + rewrite size_union, size_singleton, Hs; [done|]. intros k Hk1 Hk2.
      apply Hk in Hk2. set_solver by lia.
    + apply elem_of_dom_2 in H3. set_solver.
    + intros k [->%elem_of_singleton|Hk']%elem_of_union; [lia|]. apply Hk in Hk'. lia.
Qed.

Lemma chain_length h o p bs o' p' :
  chain h o p bs o' p' -> (length bs <= size h)%nat.
Proof.
  intros (X & Hs & HX & _)%chain_offsets. rewrite <- Hs, <- size_dom. by apply subseteq_size.
Qed.

Lemma chain_det h o p bs o1 p1 o2 p2 :
  chain h o p bs o1 p1 -> chain h o p bs o2 p2 -> p1 = p2.
Proof.
  revert o p. induction bs as [|[sz u] bs IH]; intros o p; simpl; [naive_solver congruence|].
  intros (_ & _ & _ & H) (_ & _ & _ & H'). by eapply IH.
Qed.

(** The whole chain, with the header behind it. *)
Definition heap_chain (h : gmap Z heap_mem) (bs : list block) (he : Z) : Prop :=
  exists pe me, chain h 0 0 bs he pe /\ h !! he = Some me /\ used me = 1 /\ next me = he.

Lemma heap_chain_sizes h bs he :
  heap_chain h bs he -> Forall (fun b => 16 <= b.1 /\ b.1 mod 4 = 0) bs.
Proof. intros (pe & me & H & _). by eapply chain_sizes. Qed.

Lemma heap_chain_extent h bs he : heap_chain h bs he -> extent bs = he.
Proof. intros (pe & me & H & _). apply chain_extent in H. lia. Qed.

Lemma heap_chain_split h pre mid post he :
  heap_chain h (pre ++ mid ++ post) he ->
  exists p q m, chain h 0 0 pre (extent pre) p /\
    chain h (extent pre) p mid (extent pre + extent mid) q /\
    h !! (extent pre + extent mid) = Some m /\ (post <> [] -> prev m = q).
Proof.
  intros (pe & me & H & He & _).
  apply chain_app in H as (o1 & p1 & H1 & H). apply chain_app in H as (o2 & p2 & H2 & H3).
  pose proof (chain_extent _ _ _ _ _ _ H1). pose proof (chain_extent _ _ _ _ _ _ H2).
  replace (extent pre) with o1 by lia. replace (o1 + extent mid) with o2 by lia.
  destruct post as [|[sz u] post].
  - destruct H3 as [-> ->]. exists p1, pe, me. done.
  - destruct H3 as (_ & _ & H3 & _). exists p1, p2, (mk_mem HEAP_MAGIC (if u then 1 else 0) (o2 + sz) p2).
    done.
Qed.

(** Replace the blocks [mid] by [mid'], which take the same place: the
    headers may change inside that place, and the one behind it gets the new
    predecessor. *)
Lemma heap_chain_edit h h' pre mid mid' post he p q m :
  heap_chain h (pre ++ mid ++ post) he ->
  chain h 0 0 pre (extent pre) p ->
  chain h' (extent pre) p mid' (extent pre + extent mid) q ->
  h !! (extent pre + extent mid) = Some m ->
  (exists x, h' !! (extent pre + extent mid) = Some (mk_mem (magic m) (used m) (next m) x) /\
             (x = q \/ post = [])) ->
  (forall k, k < extent pre \/ extent pre + extent mid < k -> h' !! k = h !! k) ->
  heap_chain h' (pre ++ mid' ++ post) he.
Proof.
  intros (pe & me & H & He & Hu & Hn) Hp Hm Hm0 (x & Hx & Hxq) Hf.
  apply chain_app in H as (o1 & p1 & H1 & H). apply chain_app in H as (o2 & p2 & H2 & H3).
  pose proof (chain_extent _ _ _ _ _ _ H1). pose proof (chain_extent _ _ _ _ _ _ H2).
  pose proof (chain_det _ _ _ _ _ _ _ _ H1 Hp) as ->.
  replace (extent pre) with o1 in * by lia. replace (o1 + extent mid) with o2 in * by lia.
  assert (chain h' 0 0 pre o1 p) as Hpre.
  { eapply chain_frame; [exact H1|]. intros k Hk. apply Hf. lia. }
  assert (exists me', h' !! he = Some me' /\ used me' = 1 /\ next me' = he) as (me' & He' & Hu' & Hn').
  { destruct (decide (he = o2)) as [->|Hne].
    - eexists. split; [exact Hx|]. simpl. rewrite He in Hm0. by injection Hm0 as ->.
    - exists me. split; [|done]. rewrite Hf; [done|]. pose proof (chain_extent _ _ _ _ _ _ H3).
      pose proof (extent_nonneg _ (chain_sizes _ _ _ _ _ _ H3)). lia. }
  destruct post as [|[sz u] post].
  - destruct H3 as [-> ->]. exists q, me'. split; [|done]. rewrite app_nil_r, chain_app. by exists o1, p.
  - destruct Hxq as [->|]; [|done]. exists pe, me'. split; [|done].
    rewrite chain_app. exists o1, p. split; [done|]. rewrite chain_app. exists o2, q. split; [done|].
    destruct H3 as (Hs1 & Hs2 & Hl & H3). rewrite Hm0 in Hl. injection Hl as ->.
    simpl. split_and!; [done|done|exact Hx|].
    eapply chain_frame; [exact H3|]. intros k Hk. apply Hf. lia.
Qed.

(** ** The abstract heap *)

(** Put a block before the others, merged with the first if both are free. *)
Definition join (b : block) (l : list block) : list block :=
  match b, l with
  | (s1, false), (s2, false) :: l' => (s1 + s2, false) :: l'
  | _, _ => b :: l
  end.
Definition coalesce (bs : list block) : list block := foldr join [] bs.

Definition head_used (bs : list block) : Prop :=
  match bs with (_, false) :: _ => False | _ => True end.

Lemma join_used sz l : join (sz, true) l = (sz, true) :: l.
Proof. done. Qed.

Lemma join_head sz l : head_used l -> join (sz, false) l = (sz, false) :: l.
Proof. by destruct l as [|[s []] l]. Qed.

Lemma merged_cons sz u bs :
  merged ((sz, u) :: bs) <-> (u = true \/ head_used bs) /\ merged bs.
Proof. done. Qed.

Lemma coalesce_merged bs : merged (coalesce bs).
Proof.
  induction bs as [|[sz u] bs IH]; [done|]. simpl.
  destruct u; [split; [by left|done]|].
  destruct (coalesce bs) as [|[s []] l]; simpl in *; [naive_solver|naive_solver|].
  destruct IH as [[?|?] ?]; [done|]. by split; [right|].
Qed.

Lemma coalesce_id bs : merged bs -> coalesce bs = bs.
Proof.
  induction bs as [|[sz u] bs IH]; [done|]. intros [H1 H2]. simpl. rewrite (IH H2).
  destruct u; [done|]. apply join_head. destruct H1 as [|H1]; [done|]. exact H1.
Qed.

Lemma coalesce_app l1 l2 : coalesce (l1 ++ l2) = foldr join (coalesce l2) l1.
Proof. apply foldr_app. Qed.

Lemma join_extent b l : extent (join b l) = b.1 + extent l.
Proof. destruct b as [s []], l as [|[s' []] l]; unfold extent; simpl; lia. Qed.

Lemma join_used_sum b l : used_sum (join b l) = (if (b.2 : bool) then b.1 else 0) + used_sum l.
Proof. destruct b as [s []], l as [|[s' []] l]; unfold used_sum; simpl; lia. Qed.

Lemma coalesce_used_sum bs : used_sum (coalesce bs) = used_sum bs.
Proof. induction bs as [|b bs IH]; [done|]. simpl. rewrite join_used_sum, IH. done. Qed.

Lemma coalesce_extent bs : extent (coalesce bs) = extent bs.
Proof. induction bs as [|b bs IH]; [done|]. simpl. rewrite join_extent, IH. done. Qed.

Lemma coalesce_first_free o bs : first_free o (coalesce bs) = first_free o bs.
Proof.
  revert o. induction bs as [|[sz u] bs IH]; intros o; [done|]. simpl.
  destruct u; [apply IH|].
  by destruct (coalesce bs) as [|[s []] l].
Qed.

Lemma coalesce_nonempty bs : bs <> [] -> coalesce bs <> [].
Proof.
  destruct bs as [|[sz u] bs]; [done|]. intros _. simpl.
  by destruct u, (coalesce bs) as [|[s []] l].
Qed.

Lemma first_free_app o l1 l2 :
  first_free o (l1 ++ l2) =
  if existsb (fun b => negb b.2) l1 then first_free o l1 else first_free (o + extent l1) l2.
Proof.
  revert o. induction l1 as [|[sz u] l1 IH]; intros o; simpl.
  - f_equal. unfold extent. simpl. lia.
  - destruct u; simpl; [|done]. rewrite IH. unfold extent at 2. simpl.
    by rewrite Z.add_assoc.
Qed.

Lemma first_free_range o bs :
  Forall (fun b => 16 <= b.1 /\ b.1 mod 4 = 0) bs -> o <= first_free o bs <= o + extent bs.
Proof.
  intros H. revert o. induction H as [|[sz u] bs [H1 _] H IH]; intros o; unfold extent; simpl in *; [lia|].
  pose proof (extent_nonneg _ H) as Hn. specialize (IH (o + sz)). unfold extent in *.
  destruct u; lia.
Qed.

Lemma merged_app l1 l2 : merged (l1 ++ l2) -> merged l1 /\ merged l2.
Proof.
  induction l1 as [|[sz u] l1 IH]; [done|]. simpl. intros [H1 H2].
  destruct (IH H2) as [H3 H4]. split; [|done]. split; [|done].
  destruct H1 as [|H1]; [by left|right]. by destruct l1 as [|[] ?].
Qed.

Lemma foldr_join_id pre l : merged (pre ++ l) -> foldr join l pre = pre ++ l.
Proof.
  induction pre as [|[sz u] pre IH]; [done|]. intros [H1 H2]. simpl. rewrite (IH H2).
  destruct u; [done|]. apply join_head. destruct H1 as [|H1]; [done|]. exact H1.
Qed.

Lemma merged_glue l1 z z' u l2 l2' :
  merged (l1 ++ (z, u) :: l2) -> merged ((z', u) :: l2') -> merged (l1 ++ (z', u) :: l2').
Proof.
  intros H H2. induction l1 as [|[s v] l1 IH]; [done|]. destruct H as [H1 H].
  split; [|by apply IH]. destruct H1 as [|H1]; [by left|right]. by destruct l1 as [|[] ?].
Qed.

Lemma merged_used l1 z z' u l2 :
  merged (l1 ++ (z, u) :: l2) -> merged (l1 ++ (z', true) :: l2).
Proof.
  intros H. apply merged_app in H as Hm. destruct Hm as [_ [_ Hm]].
  induction l1 as [|[s v] l1 IH]; [by split; [left|]|]. destruct H as [H1 H].
  split; [|by apply IH]. destruct H1 as [|H1]; [by left|]. destruct l1 as [|[] ?]; [by right|].
  by right.
Qed.

(** ** Symbolic execution over the headers *)

Lemma wp_get_mem o m s (Q : heap_mem -> heap -> Prop) :
  headers s !! o = Some m -> Q m s -> wp (get_mem o) s Q.
Proof. intros H HQ. unfold wp, get_mem. by rewrite H. Qed.

Lemma wp_put_mem o m s (Q : unit -> heap -> Prop) :
  Q tt (set_headers (<[o := m]> (headers s)) s) -> wp (put_mem o m) s Q.
Proof. done. Qed.

Lemma wp_set_used o x m s (Q : unit -> heap -> Prop) :
  headers s !! o = Some m ->
  Q tt (set_headers (<[o := mk_mem (magic m) x (next m) (prev m)]> (headers s)) s) ->
  wp (set_used o x) s Q.
Proof. intros H HQ. apply wp_bind. by apply (wp_get_mem _ m). Qed.

Lemma wp_mem_next o x m s (Q : unit -> heap -> Prop) :
  headers s !! o = Some m ->
  Q tt (set_headers (<[o := mk_mem (magic m) (used m) x (prev m)]> (headers s)) s) ->
  wp (set_next o x) s Q.
Proof. intros H HQ. apply wp_bind. by apply (wp_get_mem _ m). Qed.

Lemma wp_mem_prev o x m s (Q : unit -> heap -> Prop) :
  headers s !! o = Some m ->
  Q tt (set_headers (<[o := mk_mem (magic m) (used m) (next m) x]> (headers s)) s) ->
  wp (set_prev o x) s Q.
Proof. intros H HQ. apply wp_bind. by apply (wp_get_mem _ m). Qed.

Lemma wp_set_magic o m s (Q : unit -> heap -> Prop) :
  headers s !! o = Some m ->
  Q tt (set_headers (<[o := mk_mem HEAP_MAGIC (used m) (next m) (prev m)]> (headers s)) s) ->
  wp (set_magic o) s Q.
Proof. intros H HQ. apply wp_bind. by apply (wp_get_mem _ m). Qed.

Lemma set_headers_twice h h' s : set_headers h' (set_headers h s) = set_headers h' s.
Proof. done. Qed.

Lemma set_headers_id s : set_headers (headers s) s = s.
Proof. by destruct s. Qed.

(** [plug_holes] joins the block at [extent pre] with a free one behind it. *)
Lemma merge_wp s pre a b post :
  heap_chain (headers s) (pre ++ (a, false) :: (b, false) :: post) (heap_end s) ->
  lfree s = first_free 0 (pre ++ (a, false) :: (b, false) :: post) ->
  let o := extent pre in
  wp (lf ← gets lfree;
      when (lf =? o + a) (modify (set_lfree o));;
      set_next o (o + a + b);; set_prev (o + a + b) o) s
    (fun _ s' => exists h', s' = set_headers h' s /\
       heap_chain h' (pre ++ (a + b, false) :: post) (heap_end s)).
Proof.
  intros Hc Hl o. subst o.
  pose proof (heap_chain_sizes _ _ _ Hc) as Hsz.
  apply Forall_app in Hsz as Hs2. destruct Hs2 as [Hs1 Hs2].
  apply Forall_cons in Hs2 as [[Ha Ha4] Hs2]. apply Forall_cons in Hs2 as [[Hb Hb4] Hs2]. simpl in *.
  change (pre ++ (a, false) :: (b, false) :: post)
    with (pre ++ [(a, false); (b, false)] ++ post) in Hc.
  destruct (heap_chain_split _ _ _ _ _ Hc) as (p & q & m & Hp & Hm & He & Hq).
  replace (extent pre + extent [(a, false); (b, false)]) with (extent pre + a + b) in *
    by (unfold extent; simpl; lia).
  pose proof Hm as Hm'. destruct Hm as (_ & _ & Hl1 & _ & _ & Hl2 & _ & <-).
  apply wp_bind, wp_gets. apply wp_bind.
  apply wp_when; [rewrite Hl; intros Heq%Z.eqb_eq; exfalso|intros _].
  { rewrite first_free_app in Heq. pose proof (first_free_range 0 pre Hs1).
    destruct existsb; simpl in Heq; lia. }
  apply wp_bind, (wp_mem_next _ _ _ _ _ Hl1); simpl.
  eapply wp_mem_prev; simpl; [rewrite lookup_insert_ne by lia; exact He|].
  eexists. split; [reflexivity|].
  change (pre ++ (a + b, false) :: post) with (pre ++ [(a + b, false)] ++ post).
  assert (extent pre + extent [(a, false); (b, false)] = extent pre + a + b) as Ee
    by (unfold extent; simpl; lia).
  eapply (heap_chain_edit _ _ _ _ _ _ _ p (extent pre) m); [exact Hc|exact Hp|rewrite Ee..|].
  - simpl. split_and!; [lia|rewrite Zplus_mod, Ha4, Hb4; done| |lia|done].
    rewrite lookup_insert_ne by lia. rewrite lookup_insert_eq. simpl. by rewrite Z.add_assoc.
  - exact He.
  - exists (extent pre). split; [|by left]. apply lookup_insert_eq.
  - intros k Hk. rewrite !lookup_insert_ne by lia. done.
Qed.

(** The header of a block, and the one behind it. *)
Lemma heap_chain_block h pre sz u post he :
  heap_chain h (pre ++ (sz, u) :: post) he ->
  exists p m, chain h 0 0 pre (extent pre) p /\
    h !! extent pre = Some (mk_mem HEAP_MAGIC (if u then 1 else 0) (extent pre + sz) p) /\
    h !! (extent pre + sz) = Some m /\ (post <> [] -> prev m = extent pre) /\
    match post with
    | [] => used m = 1 /\ extent pre + sz = he
    | (z, v) :: _ => used m = (if v then 1 else 0) /\ next m = extent pre + sz + z /\
                     extent pre + sz < he
    end.
Proof.
  intros Hc. pose proof (heap_chain_extent _ _ _ Hc) as Hx.
  pose proof (heap_chain_sizes _ _ _ Hc) as Hs.
  change (pre ++ (sz, u) :: post) with (pre ++ [(sz, u)] ++ post) in Hc.
  destruct (heap_chain_split _ _ _ _ _ Hc) as (p & q & m & Hp & Hm & He & Hq).
  replace (extent pre + extent [(sz, u)]) with (extent pre + sz) in * by (unfold extent; simpl; lia).
  destruct Hm as (_ & _ & Hl & _ & <-). exists p, m. split_and!; [done..|].
  rewrite extent_app in Hx. apply Forall_app in Hs as [_ Hs].
  destruct post as [|[z v] post].
  - destruct Hc as (pe & me & _ & Hme & Hu & _).
    assert (extent pre + sz = he) as E by (unfold extent in *; simpl in *; lia).
    rewrite <- E in Hme. rewrite He in Hme. injection Hme as ->. done.
  - rewrite app_assoc in Hc.
    destruct (heap_chain_split _ _ [(z, v)] post _ Hc) as (p' & q' & m' & _ & Hm' & _ & _).
    rewrite extent_app in Hm'. destruct Hm' as (_ & _ & Hl' & _).
    replace (extent pre + extent [(sz, u)]) with (extent pre + sz) in * by (unfold extent; simpl; lia).
    rewrite He in Hl'. injection Hl' as ->. simpl. split_and!; [done..|].
    do 2 (apply Forall_cons in Hs as [[? _] Hs]). apply extent_nonneg in Hs.
    unfold extent in *; simpl in *; lia.
Qed.

(** The first half of [plug_holes]: the block is now joined with what follows. *)
Lemma plug_forward_wp s pre sz post m n :
  heap_chain (headers s) (pre ++ (sz, false) :: post) (heap_end s) ->
  merged ((sz, true) :: post) ->
  lfree s = first_free 0 (pre ++ (sz, false) :: post) ->
  headers s !! extent pre = Some m -> headers s !! next m = Some n ->
  wp (when (negb (extent pre =? next m) && (used n =? 0) && negb (next m =? heap_end s))
        (lf ← gets lfree;
         when (lf =? next m) (modify (set_lfree (extent pre)));;
         set_next (extent pre) (next n);;
         set_prev (next n) (extent pre))) s
    (fun _ s' => exists h' sz' post', s' = set_headers h' s /\
       heap_chain h' (pre ++ (sz', false) :: post') (heap_end s) /\
       coalesce ((sz, false) :: post) = (sz', false) :: post' /\ merged ((sz', false) :: post')).
Proof.
  intros Hc [_ Hmg] Hl Hm Hn. pose proof (heap_chain_sizes _ _ _ Hc) as Hs.
  apply Forall_app in Hs as [_ Hs]. apply Forall_cons in Hs as [[Hsz _] _]. simpl in Hsz.
  destruct (heap_chain_block _ _ _ _ _ _ Hc) as (p & m' & _ & Hl1 & Hl2 & _ & Hcase).
  rewrite Hm in Hl1. injection Hl1 as ->. simpl in *. rewrite Hn in Hl2. injection Hl2 as ->.
  rewrite (proj2 (Z.eqb_neq _ _)) by lia. simpl.
  destruct post as [|[z []] post].
  - destruct Hcase as [-> _]. simpl. apply wp_ret. exists (headers s), sz, [].
    rewrite set_headers_id. split_and!; [done..|by right|done].
  - destruct Hcase as [-> _]. simpl. apply wp_ret. exists (headers s), sz, ((z, true) :: post).
    rewrite set_headers_id. split; [done|split; [done|]].
    assert (merged ((sz, false) :: (z, true) :: post)) as Hmm by (by split; [right|]).
    split; [exact (coalesce_id _ Hmm)|done].
  - destruct Hcase as (-> & -> & Hlt). cbn [Z.eqb andb]. rewrite (proj2 (Z.eqb_neq _ _)) by lia. simpl.
    eapply wp_mono; [by apply merge_wp|]. intros _ s' (h' & -> & Hc').
    destruct Hmg as [[|Hh] Hmg]; [done|]. exists h', (sz + z), post. split; [done|split; [done|split; [|by split; [right|]]]].
    change (join (sz, false) (join (z, false) (coalesce post)) = (sz + z, false) :: post).
    rewrite (coalesce_id post Hmg), (join_head z post Hh). done.
Qed.

Lemma plug_holes_wp s pre sz post :
  heap_chain (headers s) (pre ++ (sz, false) :: post) (heap_end s) ->
  merged (pre ++ (sz, true) :: post) ->
  lfree s = first_free 0 (pre ++ (sz, false) :: post) ->
  wp (plug_holes (extent pre)) s (fun _ s' => exists h', s' = set_headers h' s /\
    heap_chain h' (coalesce (pre ++ (sz, false) :: post)) (heap_end s)).
Proof.
  intros Hc Hmg Hl. destruct (heap_chain_block _ _ _ _ _ _ Hc) as (p & n & _ & Hm & Hn & _ & _).
  unfold plug_holes. apply wp_bind, (wp_get_mem _ _ _ _ Hm). simpl.
  apply wp_bind, (wp_get_mem _ _ _ _ Hn). apply wp_bind, wp_gets. apply wp_bind.
  destruct (merged_app _ _ Hmg) as [Hmg1 Hmg2].
  eapply wp_mono; [exact (plug_forward_wp _ _ _ _ _ _ Hc Hmg2 Hl Hm Hn)|].
  intros _ s' (h' & sz' & post' & -> & Hc' & Hco & Hmg').
  assert (first_free 0 (pre ++ (sz', false) :: post') = lfree s) as Hl'.
  { rewrite Hl, !first_free_app. done. }
  rewrite coalesce_app, Hco. clear Hc Hm Hn Hl Hco p n Hmg2.
  destruct (heap_chain_block _ _ _ _ _ _ Hc') as (p & n & Hp & Hm & _ & _ & _).
  apply wp_bind. eapply wp_get_mem; [exact Hm|]. simpl.
  destruct pre as [|[z u] pre _] using rev_ind.
  - destruct Hp as [_ <-]. apply wp_bind. eapply wp_get_mem; [exact Hm|]. simpl.
    apply wp_ret. by exists h'.
  - rewrite <- app_assoc in Hc', Hl', Hmg. simpl in Hc', Hl', Hmg.
    apply chain_app in Hp as (om & pm & Hp1 & Hp2).
    destruct Hp2 as (Hz & Hz4 & Hlz & _ & ->).
    apply chain_extent in Hp1. rewrite Z.add_0_l in Hp1. subst p.
    rewrite extent_app. change (extent [(z, u)]) with (z + 0). rewrite Z.add_0_r.
    apply wp_bind. eapply wp_get_mem; [exact Hlz|]. simpl.
    rewrite (proj2 (Z.eqb_neq _ _)) by lia. simpl.
    rewrite foldr_app. destruct u; simpl.
    + apply wp_ret. exists h'. split; [done|].
      rewrite foldr_join_id; [done|]. eapply merged_glue; [exact Hmg|]. by split; [left|].
    + replace (extent pre + z) with (extent pre + z) by lia.
      eapply wp_mono; [apply (merge_wp (set_headers h' s)); [exact Hc'|by rewrite Hl']|].
      intros _ s' (h2 & -> & Hc2). exists h2. split; [done|].
      rewrite foldr_join_id; [done|]. eapply merged_glue; [exact Hmg|exact Hmg'].
Qed.

(** ** The invariant *)

Record heap_inv (s : heap) (bs : list block) : Prop := {
  inv_chain : heap_chain (headers s) bs (heap_end s);
  inv_end : heap_end s = mem_size_aligned s + 12;
  inv_min : 12 <= mem_size_aligned s;
  inv_base : 0 < heap_ptr s /\ heap_ptr s mod 4 = 0 /\ heap_ptr s + heap_end s + 12 <= 2 ^ 32;
  inv_merged : merged bs;
  inv_lfree : lfree s = first_free 0 bs;
  inv_used : used_mem s = used_sum bs;
  inv_max : used_mem s <= max_mem s;
  inv_sem : heap_sem s = 1
}.

(** What the operations leave alone. *)
Definition same_heap (s s' : heap) : Prop :=
  heap_ptr s' = heap_ptr s /\ heap_end s' = heap_end s /\
  mem_size_aligned s' = mem_size_aligned s /\ cells s' = cells s.

Lemma first_free_lt o pre :
  Forall (fun b => 16 <= b.1 /\ b.1 mod 4 = 0) pre ->
  existsb (fun b => negb b.2) pre = true -> o <= first_free o pre < o + extent pre.
Proof.
  intros H. revert o. induction H as [|[sz u] bs [H1 _] H IH]; intros o Hx; [done|].
  unfold extent; simpl in *. pose proof (extent_nonneg _ H) as Hn.
  destruct u; simpl in Hx; [specialize (IH (o + sz) Hx)|]; unfold extent in *; lia.
Qed.

(** Marking a block: one header changes. *)
Lemma heap_chain_mark h pre sz u v post he m :
  heap_chain h (pre ++ (sz, u) :: post) he ->
  h !! extent pre = Some m ->
  heap_chain (<[extent pre := mk_mem HEAP_MAGIC (if v : bool then 1 else 0) (next m) (prev m)]> h)
    (pre ++ (sz, v) :: post) he.
Proof.
  intros Hc Hm. pose proof (heap_chain_sizes _ _ _ Hc) as Hs.
  apply Forall_app in Hs as [_ Hs]. apply Forall_cons in Hs as [[Hs1 Hs2] _]. simpl in *.
  destruct (heap_chain_block _ _ _ _ _ _ Hc) as (p & n & Hp & Hl & Hn & Hq & _).
  rewrite Hm in Hl. injection Hl as ->. simpl.
  change (pre ++ (sz, u) :: post) with (pre ++ [(sz, u)] ++ post) in Hc.
  change (pre ++ (sz, v) :: post) with (pre ++ [(sz, v)] ++ post).
  assert (extent [(sz, u)] = sz) as E by (unfold extent; simpl; lia).
  eapply (heap_chain_edit _ _ _ _ _ _ _ p (extent pre) n); [exact Hc|exact Hp|rewrite ?E..].
  - simpl. split_and!; [done|done|apply lookup_insert_eq|done|done].
  - done.
  - exists (prev n). rewrite lookup_insert_ne by lia. split; [by destruct n|].
    destruct post; [by right|left; by apply Hq].
  - intros k Hk. by rewrite lookup_insert_ne by lia.
Qed.

Lemma used_sum_mark pre sz post :
  used_sum (pre ++ (sz, true) :: post) = sz + used_sum (pre ++ (sz, false) :: post).
Proof. rewrite !used_sum_app. unfold used_sum. simpl. lia. Qed.

Lemma heap_inv_bounds s bs :
  heap_inv s bs -> 0 <= used_mem s <= heap_end s /\ heap_end s < 2 ^ 32 /\ extent bs = heap_end s.
Proof.
  intros H. destruct (inv_base _ _ H) as (? & ? & ?).
  pose proof (heap_chain_sizes _ _ _ (inv_chain _ _ H)) as Hs.
  pose proof (used_sum_bounds _ Hs). pose proof (heap_chain_extent _ _ _ (inv_chain _ _ H)).
  rewrite (inv_used _ _ H). lia.
Qed.

(** The block [(sz, true)] behind [pre] lies below the end of the heap. *)
Lemma block_bounds s pre sz u post :
  heap_inv s (pre ++ (sz, u) :: post) ->
  0 <= extent pre /\ 16 <= sz /\ sz mod 4 = 0 /\ extent pre mod 4 = 0 /\
  extent pre + sz <= heap_end s.
Proof.
  intros H. pose proof (heap_chain_extent _ _ _ (inv_chain _ _ H)) as Hx.
  pose proof (heap_chain_sizes _ _ _ (inv_chain _ _ H)) as Hs.
  apply Forall_app in Hs as [Hs1 Hs]. apply Forall_cons in Hs as [[H1 H2] Hs]. simpl in *.
  pose proof (extent_nonneg _ Hs1). pose proof (extent_nonneg _ Hs). pose proof (extent_mod _ Hs1).
  rewrite extent_app in Hx. unfold extent in *. simpl in *. split_and!; lia.
Qed.

Lemma wp_sem_take s (Q : unit -> heap -> Prop) :
  heap_sem s = 1 -> Q tt (set_sem 0 s) -> wp sem_take s Q.
Proof. intros H HQ. unfold wp, sem_take. by rewrite H. Qed.

(** [if (mem < lfree) lfree = mem] *)
Lemma wp_lower_lfree o s (Q : unit -> heap -> Prop) :
  Q tt (set_lfree (if o <? lfree s then o else lfree s) s) ->
  wp (when (o <? lfree s) (modify (set_lfree o))) s Q.
Proof. destruct s; simpl. by destruct (o <? lfree0). Qed.

Lemma lowest_free pre sz post :
  Forall (fun b => 16 <= b.1 /\ b.1 mod 4 = 0) (pre ++ (sz, true) :: post) ->
  (if extent pre <? first_free 0 (pre ++ (sz, true) :: post)
   then extent pre else first_free 0 (pre ++ (sz, true) :: post))
  = first_free 0 (pre ++ (sz, false) :: post).
Proof.
  intros [Hs1 Hs]%Forall_app. apply Forall_cons in Hs as [[Hsz _] Hs]. simpl in Hsz.
  rewrite !first_free_app, !Z.add_0_l. destruct existsb eqn:Hex; cbn [first_free].
  - apply (first_free_lt 0) in Hex; [|done]. bool_cases; lia.
  - pose proof (first_free_range (extent pre + sz) post Hs). bool_cases; lia.
Qed.

Lemma rt_free_wp s pre sz post :
  heap_inv s (pre ++ (sz, true) :: post) ->
  wp (rt_free (heap_ptr s + extent pre + 12)) s (fun _ s' =>
    heap_inv s' (coalesce (pre ++ (sz, false) :: post)) /\ same_heap s s' /\ max_mem s' = max_mem s).
Proof.
  intros Hi. destruct (heap_inv_bounds _ _ Hi) as (Hu & He & _).
  destruct (block_bounds _ _ _ _ _ Hi) as (Ho & Hsz & _ & _ & Hle).
  pose proof Hi as [Hc Hend Hmin (Hb & Hb4 & Hb2) Hmg Hl Hus Hmax Hsem].
  destruct (heap_chain_block _ _ _ _ _ _ Hc) as (p & n & _ & Hm & _ & _ & _).
  unfold rt_free. rewrite (proj2 (Z.eqb_neq _ _)) by lia.
  unfold in_heap. wp_steps.
  rewrite (proj2 (Z.leb_le _ _)), (proj2 (Z.ltb_lt _ _)) by lia. simpl. wp_steps.
  change SIZEOF_STRUCT_MEM with 12.
  replace (heap_ptr s + extent pre + 12 - 12 - heap_ptr s) with (extent pre) by lia.
  apply wp_sem_take; [done|]. apply wp_bind. eapply wp_set_used; [exact Hm|].
  apply wp_bind. eapply wp_set_magic; simpl; [apply lookup_insert_eq|]. simpl.
  rewrite insert_insert_eq.
  pose proof (heap_chain_mark _ _ _ _ false _ _ _ Hc Hm) as Hc'. simpl in Hc'.
  wp_steps. apply wp_lower_lfree. simpl.
  rewrite Hl, lowest_free by (by eapply heap_chain_sizes).
  apply wp_bind. eapply wp_get_mem; [apply lookup_insert_eq|]. wp_steps. simpl.
  eapply wp_mono.
  { apply plug_holes_wp; [exact Hc'|done|done]. }
  intros _ s' (h' & -> & Hc2). simpl in *. apply wp_modify.
  rewrite used_sum_mark in Hus. pose proof (used_sum_bounds _ (heap_chain_sizes _ _ _ Hc')).
  assert (u32 (used_mem s - u32 (extent pre + sz - extent pre)) =
          used_sum (pre ++ (sz, false) :: post)) as ->.
  { rewrite (uwrap_small 32 (extent pre + sz - extent pre)) by c_lia. nowrap. lia. }
  split; [|done]. split; simpl; try done; try lia.
  - apply coalesce_merged.
  - by rewrite coalesce_first_free.
  - by rewrite coalesce_used_sum.
Qed.

(** ** Allocation *)

(** Cutting a block in two; [e] is the header behind it. *)
Lemma heap_chain_cut h pre a b u v post he m e :
  heap_chain h (pre ++ (a + b, u) :: post) he ->
  16 <= a -> 16 <= b -> a mod 4 = 0 -> b mod 4 = 0 ->
  h !! extent pre = Some m -> h !! (extent pre + a + b) = Some e ->
  let h1 := <[extent pre := mk_mem HEAP_MAGIC (if v : bool then 1 else 0) (extent pre + a) (prev m)]>
              (<[extent pre + a := mk_mem HEAP_MAGIC 0 (extent pre + a + b) (extent pre)]> h) in
  heap_chain (if extent pre + a + b =? he then h1 else
                <[extent pre + a + b := mk_mem (magic e) (used e) (next e) (extent pre + a)]> h1)
    (pre ++ (a, v) :: (b, false) :: post) he.
Proof.
  intros Hc Ha Hb Ha4 Hb4 Hm He h1.
  destruct (heap_chain_block _ _ _ _ _ _ Hc) as (p & n & Hp & Hl & Hn & _ & Hcase).
  rewrite Hm in Hl. injection Hl as ->.
  rewrite Z.add_assoc in Hn, Hcase. rewrite He in Hn. injection Hn as ->. simpl in h1.
  change (pre ++ (a + b, u) :: post) with (pre ++ [(a + b, u)] ++ post) in Hc.
  change (pre ++ (a, v) :: (b, false) :: post) with (pre ++ [(a, v); (b, false)] ++ post).
  assert (extent pre + extent [(a + b, u)] = extent pre + a + b) as E
    by (unfold extent; simpl; lia).
  assert (forall k, k < extent pre + a + b -> (if extent pre + a + b =? he then h1 else
    <[extent pre + a + b := mk_mem (magic n) (used n) (next n) (extent pre + a)]> h1) !! k = h1 !! k)
    as Hlow.
  { intros k Hk. destruct (_ =? _); [done|]. by rewrite lookup_insert_ne by lia. }
  eapply (heap_chain_edit _ _ _ _ _ _ _ p (extent pre + a) n); [exact Hc|exact Hp|rewrite ?E..].
  - simpl. rewrite !Hlow by lia. unfold h1.
    rewrite lookup_insert_eq, lookup_insert_ne, lookup_insert_eq by lia. done.
  - done.
  - destruct (Z.eqb_spec (extent pre + a + b) he) as [Heq|Hne].
    + exists (prev n). unfold h1. rewrite !lookup_insert_ne by lia. rewrite He. split; [by destruct n|].
      right. destruct post as [|[] ?]; [done|]. lia.
    + exists (extent pre + a). rewrite lookup_insert_eq. split; [done|by left].
  - intros k Hk. unfold h1. destruct (_ =? _); rewrite !lookup_insert_ne by lia; done.
Qed.

Lemma mod4_sub x y : x mod 4 = 0 -> y mod 4 = 0 -> (x - y) mod 4 = 0.
Proof. intros Hx Hy. by rewrite Zminus_mod, Hx, Hy. Qed.

(** What allocating [n] bytes makes of a free block of [sz]. *)
Definition place (n sz : Z) : list block :=
  if n + 24 <=? sz - 12 then [(n + 12, true); (sz - n - 12, false)] else [(sz, true)].

Definition taken (n sz : Z) : Z := if n + 24 <=? sz - 12 then n + 12 else sz.

Lemma place_used n sz : used_sum (place n sz) = taken n sz.
Proof. unfold place, taken. destruct (_ <=? _); unfold used_sum; simpl; lia. Qed.

(** The writes that cut off and mark the front of a free block. *)
Lemma cut_used_wp s pre a b post p (k : M heap unit) (Q : unit -> heap -> Prop) :
  heap_chain (headers s) (pre ++ (a + b, false) :: post) (heap_end s) ->
  16 <= a -> 16 <= b -> a mod 4 = 0 -> b mod 4 = 0 ->
  headers s !! extent pre = Some (mk_mem HEAP_MAGIC 0 (extent pre + a + b) p) ->
  (forall h', heap_chain h' (pre ++ (a, true) :: (b, false) :: post) (heap_end s) ->
     wp k (set_headers h' s) Q) ->
  wp (put_mem (extent pre + a) (mk_mem HEAP_MAGIC 0 (extent pre + a + b) (extent pre));;
      set_next (extent pre) (extent pre + a);;
      set_used (extent pre) 1;;
      when (negb (extent pre + a + b =? heap_end s)) (set_prev (extent pre + a + b) (extent pre + a));;
      k) s Q.
Proof.
  intros Hc Ha Hb Ha4 Hb4 Hm HQ.
  destruct (heap_chain_block _ _ _ _ _ _ Hc) as (_ & e & _ & _ & He & _ & _).
  rewrite Z.add_assoc in He.
  pose proof (heap_chain_cut _ _ _ _ _ true _ _ _ e Hc Ha Hb Ha4 Hb4 Hm He) as Hcut. simpl in Hcut.
  apply wp_bind, wp_put_mem, wp_bind. eapply wp_mem_next; simpl.
  { rewrite lookup_insert_ne by lia. exact Hm. }
  apply wp_bind. eapply wp_set_used; simpl; [apply lookup_insert_eq|]. simpl.
  rewrite insert_insert_eq. apply wp_bind.
  destruct (extent pre + a + b =? heap_end s); simpl; [by apply wp_ret, HQ|].
  eapply wp_mem_prev; simpl; [rewrite !lookup_insert_ne by lia; exact He|]. by apply HQ.
Qed.

(** The result of [take_block] at a free block of [sz] bytes. *)
Definition took (s s' : heap) (pre post : list block) (n sz : Z) : Prop :=
  exists h', s' = set_stats (used_mem s + taken n sz) (Z.max (max_mem s) (used_mem s + taken n sz))
                    (set_headers h' s) /\
    heap_chain h' (pre ++ place n sz ++ post) (heap_end s).

Lemma max_update m u : (if m <? u then u else m) = Z.max m u.
Proof. bool_cases; lia. Qed.

Lemma take_block_wp s pre n sz post mem :
  heap_chain (headers s) (pre ++ (sz, false) :: post) (heap_end s) ->
  heap_end s = mem_size_aligned s + 12 -> heap_end s + 12 < 2 ^ 32 ->
  used_mem s = used_sum (pre ++ (sz, false) :: post) ->
  12 <= n -> n mod 4 = 0 -> n <= sz - 12 ->
  headers s !! extent pre = Some mem ->
  wp (take_block (extent pre) n mem) s (fun _ s' => took s s' pre post n sz).
Proof.
  intros Hc Hend Hhe Hus Hn Hn4 Hfit Hm.
  assert (0 <= extent pre /\ 16 <= sz /\ sz mod 4 = 0 /\ extent pre + sz <= heap_end s /\
          0 <= used_mem s /\ used_mem s + sz <= heap_end s) as (Hp & Hsz & Hsz4 & Hle & Hu1 & Hu2).
  { pose proof (heap_chain_sizes _ _ _ Hc) as Hs. pose proof (heap_chain_extent _ _ _ Hc) as Hx.
    apply Forall_app in Hs as [Hs1 Hs]. apply Forall_cons in Hs as [[? ?] Hs]. simpl in *.
    pose proof (used_sum_bounds _ Hs1). pose proof (used_sum_bounds _ Hs).
    rewrite used_sum_app in Hus. rewrite extent_app in Hx.
    change (extent ((sz, false) :: post)) with (sz + extent post) in *.
    change (used_sum ((sz, false) :: post)) with (0 + used_sum post) in *. lia. }
  destruct (heap_chain_block _ _ _ _ _ _ Hc) as (p & e & _ & Hl & He & _ & _).
  rewrite Hm in Hl. injection Hl as ->.
  unfold take_block, took, place, taken. wp_steps. change SIZEOF_STRUCT_MEM with 12.
  change MIN_SIZE_ALIGNED with 12. cbn [next].
  rewrite (uwrap_small 32 (extent pre + 12)), !(uwrap_small 32 (n + 12 + 12)) by c_lia.
  rewrite (uwrap_small 32 (extent pre + sz - (extent pre + 12))) by c_lia.
  replace (extent pre + sz - (extent pre + 12)) with (sz - 12) by lia.
  replace (n + 12 + 12) with (n + 24) by lia.
  destruct (Z.leb_spec (n + 24) (sz - 12)) as [Hsplit|Hwhole].
  - rewrite (uwrap_small 32 (extent pre + 12 + n)), !(uwrap_small 32 (mem_size_aligned s + 12)) by c_lia.
    rewrite <- Hend.
    replace (extent pre + 12 + n) with (extent pre + (n + 12)) by lia.
    assert (extent pre + sz = extent pre + (n + 12) + (sz - n - 12)) as E by lia. rewrite E in *.
    replace sz with ((n + 12) + (sz - n - 12)) in Hc at 1 by lia.
    eapply (cut_used_wp _ _ _ _ _ _ _ _ Hc); [lia|lia| | |exact Hm|].
    + replace (n + 12) with (n + 3 * 4) by lia. by rewrite Z_mod_plus_full.
    + apply mod4_sub; [|done]. apply mod4_sub; done.
    + intros h' Hc'. apply wp_modify. exists h'. simpl. rewrite uwrap_small, max_update by c_lia. done.
  - apply wp_bind. eapply wp_set_used; [exact Hm|]. apply wp_modify. simpl.
    eexists. split; [|exact (heap_chain_mark _ _ _ _ true _ _ _ Hc Hm)].
    rewrite (uwrap_small 32 (extent pre + sz - extent pre)) by c_lia.
    replace (extent pre + sz - extent pre) with sz by lia.
    rewrite uwrap_small, max_update by c_lia. done.
Qed.

Lemma merged_place pre n sz post :
  merged (pre ++ (sz, false) :: post) -> merged (pre ++ place n sz ++ post).
Proof.
  intros H. unfold place. destruct (_ <=? _); simpl; [|by eapply merged_used].
  eapply merged_glue; [by eapply (merged_used _ _ sz)|].
  apply merged_app in H as [_ H]. by split; [left|].
Qed.

Lemma heap_chain_length h bs he : heap_chain h bs he -> (length bs <= size h)%nat.
Proof. intros (pe & me & H & _). by eapply chain_length. Qed.

Lemma lfree_loop_wp fuel s pre bs (Q : unit -> heap -> Prop) :
  heap_chain (headers s) (pre ++ bs) (heap_end s) -> lfree s = extent pre ->
  (length bs < fuel)%nat ->
  Q tt (set_lfree (first_free (extent pre) bs) s) -> wp (lfree_loop fuel) s Q.
Proof.
  revert s pre fuel. induction bs as [|[sz u] bs IH]; intros s pre [|fuel] Hc Hl Hf HQ; simpl in Hf; try lia.
  - destruct Hc as (pe & me & Hc & He & Hu & _). rewrite app_nil_r in Hc.
    apply chain_extent in Hc. simpl lfree_loop. wp_steps. rewrite Hl.
    replace (extent pre) with (heap_end s) in * by lia.
    eapply wp_get_mem; [exact He|]. wp_steps. rewrite Hu, Z.eqb_refl, andb_false_r.
    apply wp_ret. simpl in HQ. rewrite <- Hl in HQ. by destruct s.
  - destruct (heap_chain_block _ _ _ _ _ _ Hc) as (p & e & _ & Hm & _ & _ & _).
    pose proof (heap_chain_extent _ _ _ Hc) as Hx. pose proof (heap_chain_sizes _ _ _ Hc) as Hs.
    apply Forall_app in Hs as [_ Hs]. apply Forall_cons in Hs as [[Hs1 _] Hs]. simpl in Hs1.
    pose proof (extent_nonneg _ Hs). rewrite extent_app in Hx.
    change (extent ((sz, u) :: bs)) with (sz + extent bs) in Hx.
    simpl lfree_loop. wp_steps. rewrite Hl. eapply wp_get_mem; [exact Hm|]. wp_steps. cbn [used next].
    rewrite (proj2 (Z.eqb_neq (extent pre) _)) by lia. rewrite andb_true_r.
    destruct u; cbn [Z.eqb negb].
    + apply wp_bind, wp_modify. apply (IH _ (pre ++ [(sz, true)])); simpl.
      * by rewrite <- app_assoc.
      * rewrite extent_app. unfold extent. simpl. lia.
      * lia.
      * rewrite extent_app. change (extent [(sz, true)]) with (sz + 0). rewrite Z.add_0_r.
        exact HQ.
    + apply wp_ret. simpl in HQ. rewrite <- Hl in HQ. by destruct s.
Qed.

(** First fit from offset [o], below [lim]: where the block is, and the
    blocks afterwards. *)
Fixpoint fit (lim n o : Z) (bs : list block) : option (Z * list block) :=
  match bs with
  | [] => None
  | (sz, u) :: bs =>
      if o <? lim then
        if negb u && (n <=? sz - 12) then Some (o, place n sz ++ bs)
        else match fit lim n (o + sz) bs with
             | Some (r, bs') => Some (r, (sz, u) :: bs')
             | None => None
             end
      else None
  end.

(** What a search for [n] bytes over the blocks [bs] returns. *)
Definition found (s : heap) (n : Z) (pre : list block) (res : option (Z * list block))
    (r : Z) (s' : heap) : Prop :=
  match res with
  | Some (o, bs') =>
      r = heap_ptr s + o + 12 /\ heap_inv s' (pre ++ bs') /\ same_heap s s' /\
      max_mem s' = Z.max (max_mem s) (used_mem s')
  | None => r = 0 /\ s' = set_sem 1 s
  end.

(** The end of a successful search: the lowest free block is found again. *)
Lemma finish_wp s s1 n pre sz post :
  heap_inv (set_sem 1 s) (pre ++ (sz, false) :: post) -> heap_sem s = 0 ->
  took s s1 pre post n sz ->
  wp (set_magic (extent pre);;
      lf ← gets lfree;
      fuel' ← gets chain_fuel;
      when (extent pre =? lf) (lfree_loop fuel');;
      sem_release;;
      base ← gets heap_ptr;
      mret (u32 (base + extent pre + SIZEOF_STRUCT_MEM))) s1
    (found s n pre (Some (extent pre, place n sz ++ post))).
Proof.
  intros Hi Hsem (h' & -> & Hc). destruct (block_bounds _ _ _ _ _ Hi) as (Ho & Hsz & _ & _ & Hle).
  pose proof Hi as [Hc0 Hend Hmin (Hb & Hb4 & Hb2) Hmg Hl Hus Hmax _]. simpl in *.
  pose proof (heap_chain_sizes _ _ _ Hc0) as Hs. apply Forall_app in Hs as [Hs1 Hs2].
  assert (exists p, h' !! extent pre = Some (mk_mem HEAP_MAGIC 1 (extent pre + taken n sz) p)) as [p Hm].
  { unfold place, taken in *. destruct (_ <=? _);
    destruct (heap_chain_block _ _ _ _ _ _ Hc) as (p & ? & _ & Hm & _); by exists p. }
  apply wp_bind. eapply wp_set_magic; [exact Hm|]. simpl.
  rewrite (insert_id h') by exact Hm. wp_steps. simpl.
  rewrite Hl, first_free_app, Z.add_0_l. cbn [first_free].
  set (s2 := set_headers _ _).
  assert (wp (when (extent pre =? (if existsb (fun b => negb b.2) pre then first_free 0 pre else extent pre))
            (lfree_loop (chain_fuel s2))) s2
          (fun _ s3 => s3 = set_lfree (first_free 0 (pre ++ place n sz ++ post)) s2)) as Hloop.
  { rewrite first_free_app, Z.add_0_l. destruct existsb eqn:Hex.
    - apply (first_free_lt 0) in Hex as Hlt; [|done]. rewrite (proj2 (Z.eqb_neq _ _)) by lia.
      apply wp_ret. rewrite first_free_app, Hex in Hl. rewrite <- Hl. by destruct s.
    - rewrite Z.eqb_refl. rewrite first_free_app, Hex in Hl.
      apply (lfree_loop_wp _ _ pre (place n sz ++ post)); [exact Hc|exact Hl| |done].
      unfold chain_fuel. simpl. apply heap_chain_length in Hc. rewrite length_app in Hc. lia. }
  eapply wp_mono; [exact Hloop|]. intros _ s3 ->. unfold s2. wp_steps. simpl.
  change SIZEOF_STRUCT_MEM with 12. unfold found, sem_release. wp_steps. simpl. nowrap.
  split; [done|]. split; [|done].
  split; simpl; try done; [by apply merged_place| | | ].
  - rewrite Hus, !used_sum_app, place_used. unfold used_sum at 3. simpl. unfold used_sum. lia.
  - lia.
  - lia.
Qed.

Lemma malloc_loop_wp fuel s n pre bs :
  heap_inv (set_sem 1 s) (pre ++ bs) -> heap_sem s = 0 ->
  12 <= n -> n mod 4 = 0 -> n <= mem_size_aligned s ->
  (length bs < fuel)%nat ->
  wp (malloc_loop fuel (extent pre) n) s
    (found s n pre (fit (mem_size_aligned s - n) n (extent pre) bs)).
Proof.
  intros Hi Hsem Hn Hn4 Hms. revert fuel pre Hi.
  induction bs as [|[sz u] bs IH]; intros [|fuel] pre Hi Hf; simpl in Hf; try lia.
  all: destruct (heap_inv_bounds _ _ Hi) as (Hu & He & Hx); pose proof (inv_end _ _ Hi) as Hend; simpl in *.
  all: cbn [malloc_loop]; wp_steps; rewrite uwrap_small by c_lia.
  { rewrite app_nil_r in Hx. rewrite (proj2 (Z.ltb_ge _ _)) by lia.
    wp_steps. unfold sem_release. wp_steps. by rewrite Hsem. }
  destruct (Z.ltb_spec (extent pre) (mem_size_aligned s - n)) as [Hlt|Hge];
    [|wp_steps; unfold sem_release; wp_steps; by rewrite Hsem].
  destruct (block_bounds _ _ _ _ _ Hi) as (Ho & Hsz & _ & _ & Hle). simpl in Hle.
  pose proof (inv_chain _ _ Hi) as Hc. simpl in Hc.
  destruct (heap_chain_block _ _ _ _ _ _ Hc) as (p & e & _ & Hm & _ & _ & _).
  apply wp_bind. eapply wp_get_mem; [exact Hm|]. cbn [used next].
  change SIZEOF_STRUCT_MEM with 12.
  rewrite (uwrap_small 32 (extent pre + 12)), (uwrap_small 32 (extent pre + sz - (extent pre + 12))) by c_lia.
  replace (extent pre + sz - (extent pre + 12)) with (sz - 12) by lia.
  replace ((if u then 1 else 0) =? 0) with (negb u) by (by destruct u).
  destruct (negb u && (n <=? sz - 12)) eqn:Hfit.
  - apply andb_true_iff in Hfit as [Hu0 Hfit%Z.leb_le]. destruct u; [done|].
    apply wp_bind. destruct (inv_base _ _ Hi) as (Hb & _ & Hb2). simpl in *.
    eapply wp_mono; [apply (take_block_wp s pre n sz bs); try done|].
    + lia.
    + apply (inv_used _ _ Hi).
    + intros [] s1 Hs1. by apply finish_wp.
  - specialize (IH fuel (pre ++ [(sz, u)])). rewrite <- app_assoc, extent_app in IH.
    change (extent [(sz, u)]) with (sz + 0) in IH. rewrite Z.add_0_r in IH.
    eapply wp_mono; [apply IH; [done|lia]|]. intros r s'. unfold found.
    destruct (fit _ _ _ bs) as [[o bs']|]; [|done]. by rewrite <- app_assoc.
Qed.

(** Used blocks are passed over. *)
Lemma fit_used lim n o pre bs :
  existsb (fun b => negb b.2) pre = false ->
  Forall (fun b => 16 <= b.1 /\ b.1 mod 4 = 0) pre ->
  fit lim n o (pre ++ bs) =
  match fit lim n (o + extent pre) bs with Some (r, bs') => Some (r, pre ++ bs') | None => None end.
Proof.
  revert o. induction pre as [|[sz u] pre IH]; intros o Hex Hs; simpl.
  - change (extent []) with 0. rewrite Z.add_0_r. by destruct (fit _ _ _ bs) as [[]|].
  - apply Forall_cons in Hs as [[Hs1 _] Hs]. simpl in *. destruct u; [|done]. simpl in *.
    rewrite (IH _ Hex Hs). change (extent ((sz, true) :: pre)) with (sz + extent pre).
    rewrite Z.add_assoc. pose proof (extent_nonneg _ Hs).
    destruct (Z.ltb_spec o lim).
    + by destruct (fit lim n (o + sz + extent pre) bs) as [[]|].
    + destruct bs as [|[z v] bs]; simpl; [done|]. by rewrite (proj2 (Z.ltb_ge _ _)) by lia.
Qed.

(** The used blocks before the lowest free one. *)
Lemma first_free_split o bs :
  exists pre post, bs = pre ++ post /\ existsb (fun b => negb b.2) pre = false /\
    first_free o bs = o + extent pre.
Proof.
  revert o. induction bs as [|[sz u] bs IH]; intros o.
  - exists [], []. unfold extent. simpl. split_and!; [done|done|lia].
  - destruct u.
    + destruct (IH (o + sz)) as (pre & post & -> & Hex & Hff). exists ((sz, true) :: pre), post.
      split_and!; [done|done|]. simpl. rewrite Hff. unfold extent. simpl. lia.
    + exists [], ((sz, false) :: bs). unfold extent. simpl. split_and!; [done|done|lia].
Qed.

(** ** Sizes *)

Lemma RT_ALIGN_val x : 0 <= x -> x + 3 < 2 ^ 32 -> RT_ALIGN x 4 = (x + 3) / 4 * 4.
Proof.
  intros Hx Hx2. unfold RT_ALIGN. replace (x + 4 - 1) with (x + 3) by lia.
  rewrite uwrap_small by c_lia. change (Z.lnot (4 - 1)) with (Z.lnot (Z.ones 2)).
  rewrite <- Z.ldiff_land, Z.ldiff_ones_r by lia.
  by rewrite Z.shiftl_mul_pow2, Z.shiftr_div_pow2 by lia.
Qed.

(** The bytes [rt_malloc] looks for. *)
Definition request (size : Z) : Z := Z.max 12 ((size + 3) / 4 * 4).

Lemma request_spec size :
  size <= request size /\ 12 <= request size /\ request size mod 4 = 0.
Proof.
  unfold request. pose proof (Z.div_mod (size + 3) 4). pose proof (Z.mod_pos_bound (size + 3) 4).
  split_and!; [lia|lia|]. destruct (Z.max_spec 12 ((size + 3) / 4 * 4)) as [[_ ->]|[_ ->]]; [|done].
  apply Z_mod_mult.
Qed.

Lemma rt_malloc_wp s bs size :
  heap_inv s bs -> 0 < size -> size + 3 < 2 ^ 32 ->
  let n := request size in
  wp (rt_malloc size) s (fun r s' =>
    if n <=? mem_size_aligned s
    then found s n [] (fit (mem_size_aligned s - n) n 0 bs) r s'
    else r = 0 /\ s' = s).
Proof.
  intros Hi Hs1 Hs2 n. unfold rt_malloc. rewrite (proj2 (Z.eqb_neq _ _)) by lia.
  change RT_ALIGN_SIZE with 4. rewrite RT_ALIGN_val by lia. change MIN_SIZE_ALIGNED with 12. wp_steps.
  pose proof (inv_min _ _ Hi) as Hmin. destruct (request_spec size) as (Hn0 & Hn & Hn4). fold n in Hn0, Hn, Hn4.
  assert ((if (size + 3) / 4 * 4 <? 12 then 12 else (size + 3) / 4 * 4) = n) as ->.
  { unfold n, request. bool_cases; lia. }
  assert ((mem_size_aligned s <? (size + 3) / 4 * 4) = negb (n <=? mem_size_aligned s)) as ->.
  { unfold n, request. bool_cases; simpl; lia. }
  destruct (Z.leb_spec n (mem_size_aligned s)) as [Hle|Hgt]; simpl; [|by apply wp_ret].
  apply wp_bind, wp_sem_take; [apply (inv_sem _ _ Hi)|]. wp_steps. cbn [lfree set_sem].
  destruct (first_free_split 0 bs) as (pre & post & -> & Hex & Hff).
  rewrite (inv_lfree _ _ Hi), Hff, Z.add_0_l.
  eapply wp_mono.
  - apply (malloc_loop_wp _ (set_sem 0 s) n pre post); try done.
    + pose proof (inv_sem _ _ Hi) as Hsm. destruct s; simpl in *; subst. exact Hi.
    + unfold chain_fuel. simpl. pose proof (heap_chain_length _ _ _ (inv_chain _ _ Hi)) as Hlen.
      rewrite length_app in Hlen. lia.
  - intros r s'. pose proof (heap_chain_sizes _ _ _ (inv_chain _ _ Hi)) as Hsz.
    apply Forall_app in Hsz as [Hsz _]. rewrite fit_used, Z.add_0_l by done. simpl.
    unfold found. destruct (fit _ _ _ post) as [[o bs']|]; [done|].
    intros [-> ->]. split; [done|]. done.
Qed.

(** ** First fit *)

Lemma extent_cons b l : extent (b :: l) = b.1 + extent l.
Proof. done. Qed.

Lemma extent_nil : extent [] = 0.
Proof. done. Qed.

Lemma fit_Some lim n o bs r bs' :
  fit lim n o bs = Some (r, bs') ->
  exists pre sz post, bs = pre ++ (sz, false) :: post /\ bs' = pre ++ place n sz ++ post /\
    r = o + extent pre /\ r < lim /\ n <= sz - 12 /\
    Forall (fun b => b.2 = true \/ b.1 - 12 < n) pre.
Proof.
  revert o bs'. induction bs as [|[sz u] bs IH]; intros o bs' H; [done|]. simpl in H.
  destruct (Z.ltb_spec o lim) as [Hlt|]; [|done].
  destruct (negb u && (n <=? sz - 12)) eqn:Hfit.
  - injection H as <- <-. apply andb_true_iff in Hfit as [Hu Hle%Z.leb_le]. destruct u; [done|].
    exists [], sz, bs. rewrite extent_nil, Z.add_0_r. by split_and!.
  - destruct (fit lim n (o + sz) bs) as [[r1 bs1]|] eqn:Hf; [|done]. injection H as <- <-.
    destruct (IH _ _ Hf) as (pre & z & post & -> & -> & -> & Hr & Hz & Hpre).
    exists ((sz, u) :: pre), z, post. rewrite ?extent_cons. simpl. split_and!; [done|done|lia|lia|done|].
    constructor; [|done]. simpl. destruct u; [by left|right]. apply Z.leb_gt in Hfit. lia.
Qed.

Lemma fit_None lim n o pre sz post :
  fit lim n o (pre ++ (sz, false) :: post) = None -> n <= sz - 12 ->
  Forall (fun b => 16 <= b.1 /\ b.1 mod 4 = 0) pre -> lim <= o + extent pre.
Proof.
  intros H Hn Hs. revert o H. induction Hs as [|[z u] pre [Hz _] Hs IH]; intros o; cbn [app fit].
  - rewrite ?extent_nil. destruct (Z.ltb_spec o lim); [|lia].
    by rewrite (proj2 (Z.leb_le _ _)).
  - rewrite ?extent_cons. simpl in *. pose proof (extent_nonneg _ Hs).
    destruct (Z.ltb_spec o lim); [|lia]. destruct (_ && _); [done|].
    destruct (fit _ _ (o + z) _) as [[]|] eqn:Hf; [done|]. intros _. specialize (IH _ Hf). lia.
Qed.

(** ** The users' view: the addresses in use, with the bytes behind them *)

Fixpoint live (a : Z) (bs : list block) : gmap Z Z :=
  match bs with
  | [] => ∅
  | (sz, u) :: bs =>
      if (u : bool) then <[a + 12 := sz - 12]> (live (a + sz) bs) else live (a + sz) bs
  end.

Notation sized bs := (Forall (fun b : block => 16 <= b.1 /\ b.1 mod 4 = 0) bs).

Lemma live_range a bs k n :
  sized bs -> live a bs !! k = Some n -> a + 12 <= k /\ 4 <= n /\ k + n <= a + extent bs /\ (k - a) mod 4 = 0.
Proof.
  intros Hs. revert a. induction Hs as [|[sz u] bs [Hsz Hsz4] Hs IH]; intros a; simpl in *; [done|].
  rewrite ?extent_cons. simpl. pose proof (extent_nonneg _ Hs).
  assert (live (a + sz) bs !! k = Some n ->
          a + 12 <= k /\ 4 <= n /\ k + n <= a + (sz + extent bs) /\ (k - a) mod 4 = 0) as Hrest.
  { intros H1. apply IH in H1 as (? & ? & ? & Hm). split_and!; [lia..|].
    replace (k - a) with (k - (a + sz) + sz) by lia. by rewrite Zplus_mod, Hm, Hsz4. }
  destruct u; [|done]. intros [[<- <-]|[_ H1]]%lookup_insert_Some; [|by apply Hrest].
  split_and!; [lia..|]. by replace (a + 12 - a) with 12 by lia.
Qed.

Lemma live_app a l1 l2 : live a (l1 ++ l2) = live a l1 ∪ live (a + extent l1) l2.
Proof.
  revert a. induction l1 as [|[sz u] l1 IH]; intros a; simpl.
  - by rewrite Z.add_0_r, (left_id_L ∅ (∪)).
  - rewrite IH, ?extent_cons. simpl. rewrite Z.add_assoc. destruct u; [|done]. by rewrite insert_union_l.
Qed.

Lemma live_coalesce a bs : live a (coalesce bs) = live a bs.
Proof.
  revert a. induction bs as [|[sz u] bs IH]; intros a; [done|]. simpl.
  destruct u; [simpl; by rewrite IH|]. rewrite <- IH.
  destruct (coalesce bs) as [|[s []] l]; simpl; [done|done|]. by rewrite Z.add_assoc.
Qed.

Lemma live_lookup a bs k n :
  sized bs -> live a bs !! k = Some n ->
  exists pre post, bs = pre ++ (n + 12, true) :: post /\ k = a + extent pre + 12.
Proof.
  intros Hs. revert a. induction Hs as [|[sz u] bs [Hsz _] Hs IH]; intros a; simpl in *; [done|].
  intros H. destruct u; [apply lookup_insert_Some in H as [[<- <-]|[_ H]]|].
  - exists [], bs. rewrite ?extent_nil. replace (sz - 12 + 12) with sz by lia. split; [done|lia].
  - destruct (IH _ H) as (pre & post & -> & ->). exists ((sz, true) :: pre), post.
    rewrite ?extent_cons. split; [done|simpl; lia].
  - destruct (IH _ H) as (pre & post & -> & ->). exists ((sz, false) :: pre), post.
    rewrite ?extent_cons. split; [done|simpl; lia].
Qed.

(** No two blocks in use overlap. *)
Lemma live_disjoint a bs k1 n1 k2 n2 :
  sized bs -> live a bs !! k1 = Some n1 -> live a bs !! k2 = Some n2 -> k1 < k2 -> k1 + n1 < k2.
Proof.
  intros Hs. revert a. induction Hs as [|[sz u] bs [Hsz _] Hs IH]; intros a; simpl in *; [done|].
  destruct u; [|apply IH].
  intros [[<- <-]|[_ H1]]%lookup_insert_Some [[<- <-]|[_ H2]]%lookup_insert_Some Hlt.
  - lia.
  - apply live_range in H2; [lia|done].
  - apply live_range in H1; [lia|done].
  - by eapply IH.
Qed.

(** One block changes its mark: the others stay in use. *)
Lemma live_mark a pre sz post :
  sized (pre ++ (sz, true) :: post) ->
  live a (pre ++ (sz, true) :: post) =
    <[a + extent pre + 12 := sz - 12]> (live a (pre ++ (sz, false) :: post)) /\
  live a (pre ++ (sz, false) :: post) !! (a + extent pre + 12) = None.
Proof.
  intros [Hs1 Hs]%Forall_app. apply Forall_cons in Hs as [[Hsz _] Hs]. simpl in Hsz.
  assert (live a pre !! (a + extent pre + 12) = None) as Hn.
  { destruct (live a pre !! _) as [n|] eqn:E; [|done]. apply live_range in E; [lia|done]. }
  rewrite !live_app. simpl. split.
  - apply map_eq. intros k. destruct (decide (k = a + extent pre + 12)) as [->|Hne].
    + by rewrite lookup_union_r, !lookup_insert_eq by done.
    + rewrite lookup_insert_ne by done. rewrite !lookup_union, lookup_insert_ne by done. done.
  - rewrite lookup_union_r by done.
    destruct (live (a + extent pre + sz) post !! _) as [n|] eqn:E; [|done].
    apply live_range in E; [lia|done].
Qed.

Lemma live_place a pre n sz post :
  sized (pre ++ (sz, false) :: post) -> n <= sz - 12 ->
  live a (pre ++ place n sz ++ post) =
    <[a + extent pre + 12 := taken n sz - 12]> (live a (pre ++ (sz, false) :: post)).
Proof.
  intros Hs Hn.
  assert (sized (pre ++ (sz, true) :: post)) as Hs'.
  { apply Forall_app in Hs as [H1 H2]. apply Forall_app. split; [done|]. by inversion H2; constructor. }
  pose proof (live_mark a pre sz post Hs') as [E1 E2].
  unfold place, taken. destruct (_ <=? _); [|exact E1]. simpl.
  rewrite !live_app in *. simpl in *.
  replace (a + extent pre + (n + 12) + (sz - n - 12)) with (a + extent pre + sz) by lia.
  apply map_eq. intros k. destruct (decide (k = a + extent pre + 12)) as [->|Hne].
  - apply lookup_union_None in E2 as [E2 _]. by rewrite lookup_union_r, !lookup_insert_eq by done.
  - rewrite !lookup_union, !lookup_insert_ne, lookup_union by done. done.
Qed.

(** ** The operations on the users' view *)

Definition view (s : heap) (bs : list block) : gmap Z Z := live (heap_ptr s) bs.

Lemma inv_sized s bs : heap_inv s bs -> sized bs.
Proof. intros H. exact (heap_chain_sizes _ _ _ (inv_chain _ _ H)). Qed.

Lemma set_sem_id s bs : heap_inv s bs -> set_sem 1 s = s.
Proof. intros H. pose proof (inv_sem _ _ H). destruct s; simpl in *. by subst. Qed.

Lemma taken_ge n sz : n <= sz - 12 -> n <= taken n sz - 12.
Proof. unfold taken. bool_cases; lia. Qed.

(** A new region in the view: [r] with [k] bytes. *)
Definition granted (s s' : heap) (v : gmap Z Z) (size r k : Z) (bs' : list block) : Prop :=
  heap_inv s' bs' /\ heap_ptr s' = heap_ptr s /\ heap_end s' = heap_end s /\
  mem_size_aligned s' = mem_size_aligned s /\ r <> 0 /\
  size <= k /\ v !! r = None /\ view s' bs' = <[r := k]> v.

Lemma malloc_view s bs size :
  heap_inv s bs -> 0 < size -> size + 3 < 2 ^ 32 ->
  wp (rt_malloc size) s (fun r s' =>
    (r = 0 /\ s' = s) \/
    exists bs' k, granted s s' (view s bs) size r k bs' /\ cells s' = cells s).
Proof.
  intros Hi Hs1 Hs2. eapply wp_mono; [by apply rt_malloc_wp|]. cbn zeta.
  pose proof (set_sem_id _ _ Hi) as Hid. pose proof (inv_sized _ _ Hi) as Hsz.
  destruct (inv_base _ _ Hi) as (Hb & _ & _). destruct (request_spec size) as (Hreq & _ & _).
  intros r s'. destruct (_ <=? _); [|by left]. unfold found.
  destruct (fit _ _ 0 bs) as [[o bs']|] eqn:Hf; [|rewrite Hid; by left].
  intros (-> & Hi' & (E1 & E2 & E3 & E4) & _). right.
  apply fit_Some in Hf as (pre & sz & post & -> & -> & -> & _ & Hn & _).
  pose proof (inv_sized _ _ Hi') as Hsz'. rewrite Z.add_0_l. simpl in Hi'.
  assert (sized pre) as Hp by (by apply Forall_app in Hsz as [? _]). apply extent_nonneg in Hp.
  pose proof (taken_ge _ _ Hn).
  exists (pre ++ place (request size) sz ++ post), (taken (request size) sz - 12).
  split; [|done]. unfold granted, view. rewrite E1. split_and!; try done; try lia.
  - assert (sized (pre ++ (sz, true) :: post)) as Hsz2.
    { apply Forall_app in Hsz as [? H2]. apply Forall_app. split; [done|]. by inversion H2; constructor. }
    apply (live_mark _ _ _ _ Hsz2).
  - by apply live_place.
Qed.

Lemma free_view s bs r k :
  heap_inv s bs -> view s bs !! r = Some k ->
  wp (rt_free r) s (fun _ s' => exists bs',
    heap_inv s' bs' /\ same_heap s s' /\ view s' bs' = delete r (view s bs)).
Proof.
  intros Hi Hr. pose proof (inv_sized _ _ Hi) as Hsz.
  destruct (live_lookup _ _ _ _ Hsz Hr) as (pre & post & -> & ->).
  eapply wp_mono; [by eapply rt_free_wp|]. intros _ s' (Hi' & Hsame & _).
  eexists. split; [exact Hi'|]. split; [done|]. unfold view.
  destruct Hsame as (-> & _). rewrite live_coalesce.
  destruct (live_mark (heap_ptr s) _ _ _ Hsz) as [-> Hn]. by rewrite delete_insert_id.
Qed.

(** The writes with which [rt_realloc] cuts off the end of a block in use. *)
Lemma cut_tail_wp {A} s pre a b post p (k : M heap A) (Q : A -> heap -> Prop) :
  heap_chain (headers s) (pre ++ (a + b, true) :: post) (heap_end s) ->
  16 <= a -> 16 <= b -> a mod 4 = 0 -> b mod 4 = 0 ->
  headers s !! extent pre = Some (mk_mem HEAP_MAGIC 1 (extent pre + a + b) p) ->
  (forall h', heap_chain h' (pre ++ (a, true) :: (b, false) :: post) (heap_end s) ->
     wp k (set_headers h' s) Q) ->
  wp (put_mem (extent pre + a) (mk_mem HEAP_MAGIC 0 (extent pre + a + b) (extent pre));;
      set_next (extent pre) (extent pre + a);;
      when (negb (extent pre + a + b =? heap_end s)) (set_prev (extent pre + a + b) (extent pre + a));;
      k) s Q.
Proof.
  intros Hc Ha Hb Ha4 Hb4 Hm HQ.
  destruct (heap_chain_block _ _ _ _ _ _ Hc) as (_ & e & _ & _ & He & _ & _).
  rewrite Z.add_assoc in He.
  pose proof (heap_chain_cut _ _ _ _ _ true _ _ _ e Hc Ha Hb Ha4 Hb4 Hm He) as Hcut. simpl in Hcut.
  apply wp_bind, wp_put_mem, wp_bind. eapply wp_mem_next; simpl.
  { rewrite lookup_insert_ne by lia. exact Hm. }
  apply wp_bind.
  destruct (extent pre + a + b =? heap_end s); simpl; [by apply wp_ret, HQ|].
  eapply wp_mem_prev; simpl; [rewrite !lookup_insert_ne by lia; exact He|]. by apply HQ.
Qed.

(** Shrinking in place. *)
Lemma shrink_wp s pre n sz post p (r : Z) :
  heap_inv s (pre ++ (sz, true) :: post) ->
  headers s !! extent pre = Some (mk_mem HEAP_MAGIC 1 (extent pre + sz) p) ->
  4 <= n -> n mod 4 = 0 -> n + 24 < sz - 12 ->
  let s0 := set_sem 0 s in
  wp (modify (fun s => set_stats (u32 (used_mem s - u32 (sz - 12 - n))) (max_mem s) s);;
      put_mem (extent pre + (n + 12)) (mk_mem HEAP_MAGIC 0 (extent pre + sz) (extent pre));;
      set_next (extent pre) (extent pre + (n + 12));;
      when (negb (extent pre + sz =? heap_end s)) (set_prev (extent pre + sz) (extent pre + (n + 12)));;
      lf ← gets lfree;
      when (extent pre + (n + 12) <? lf) (modify (set_lfree (extent pre + (n + 12))));;
      plug_holes (extent pre + (n + 12));;
      sem_release;;
      mret r) s0
    (fun r' s' => r' = r /\ heap_inv s' (coalesce (pre ++ (n + 12, true) :: (sz - n - 12, false) :: post)) /\
                 same_heap s s').
Proof.
  intros Hi Hm Hn Hn4 Hlt s0. destruct (heap_inv_bounds _ _ Hi) as (Hu & He & _).
  destruct (block_bounds _ _ _ _ _ Hi) as (Ho & Hsz & Hsz4 & _ & Hle).
  pose proof Hi as [Hc Hend Hmin (Hb & Hb4 & Hb2) Hmg Hl Hus Hmax Hsem].
  assert (sz = (n + 12) + (sz - n - 12)) as E by lia.
  assert (extent pre + sz = extent pre + (n + 12) + (sz - n - 12)) as E' by lia. rewrite E' in *.
  rewrite E in Hc at 1. apply wp_bind, wp_modify.
  apply (cut_tail_wp (set_stats _ _ s0) pre _ _ post p); [exact Hc|lia|lia| | |exact Hm|].
  { replace (n + 12) with (n + 3 * 4) by lia. by rewrite Z_mod_plus_full. }
  { by apply mod4_sub; [apply mod4_sub|]. }
  intros h' Hc'. change (pre ++ (n + 12, true) :: (sz - n - 12, false) :: post)
    with (pre ++ [(n + 12, true)] ++ (sz - n - 12, false) :: post) in *.
  rewrite app_assoc in Hc' |- *.
  assert (extent (pre ++ [(n + 12, true)]) = extent pre + (n + 12)) as Ex.
  { rewrite extent_app. unfold extent. simpl. lia. }
  rewrite <- Ex. wp_steps. apply wp_lower_lfree. apply wp_bind.
  assert (lfree s = first_free 0 ((pre ++ [(n + 12, true)]) ++ (sz - n - 12, true) :: post)) as Hl'.
  { rewrite Hl, <- app_assoc, !first_free_app. simpl. destruct existsb; [done|]. f_equal. lia. }
  simpl. rewrite Hl', lowest_free.
  2: { apply heap_chain_sizes in Hc'. apply Forall_app in Hc' as [H1 H2]. apply Forall_app.
       split; [done|]. by inversion H2; constructor. }
  assert (merged ((pre ++ [(n + 12, true)]) ++ (sz - n - 12, true) :: post)) as Hmg'.
  { rewrite <- app_assoc. eapply merged_glue; [exact Hmg|]. apply merged_app in Hmg as [_ [_ Hmg]].
    by split; [left|split; [left|]]. }
  eapply wp_mono; [apply plug_holes_wp; [exact Hc'|exact Hmg'|done]|].
  intros _ s' (h2 & -> & Hc2). apply wp_bind, wp_modify, wp_ret. simpl in *.
  rewrite (uwrap_small 32 (sz - 12 - n)) by c_lia. rewrite used_sum_mark in Hus.
  pose proof (used_sum_bounds _ (heap_chain_sizes _ _ _ Hc')) as Hub.
  assert (used_sum ((pre ++ [(n + 12, true)]) ++ (sz - n - 12, false) :: post) =
          used_mem s - (sz - 12 - n)) as Hus'.
  { rewrite Hus, !used_sum_app. unfold used_sum. simpl. lia. }
  rewrite uwrap_small by c_lia. split; [done|]. split; [|done]. split; simpl; try done; try lia.
  - apply coalesce_merged.
  - by rewrite coalesce_first_free.
  - by rewrite coalesce_used_sum.
Qed.

(** The bytes both sizes have in common, and those outside the new block. *)
Definition moved (s s' : heap) (r k r' n k' : Z) : Prop :=
  (forall i, 0 <= i < Z.min k n ->
     cells s' (r' - heap_ptr s + i) = cells s (r - heap_ptr s + i)) /\
  (forall a, a < r' \/ r' + k' <= a -> cells s' (a - heap_ptr s) = cells s (a - heap_ptr s)).

Lemma granted_same s bs r k n :
  heap_inv s bs -> view s bs !! r = Some k -> n <= k ->
  granted s s (delete r (view s bs)) n r k bs.
Proof.
  intros Hi Hr Hn. destruct (inv_base _ _ Hi) as (Hb & _ & _).
  pose proof (live_range _ _ _ _ (inv_sized _ _ Hi) Hr).
  unfold granted. rewrite lookup_delete_eq, insert_delete_id by done. split_and!; try done; lia.
Qed.

(** Growing: a new block, the contents copied, the old block freed. *)
Lemma move_wp s bs r k n :
  heap_inv s bs -> view s bs !! r = Some k -> 0 < n -> n + 3 < 2 ^ 32 ->
  wp (nmem ← rt_malloc n;
      when (negb (nmem =? 0))
        (modify (fun s1 => set_cells
           (copy_cells (nmem - heap_ptr s) (r - heap_ptr s) (if k <? n then k else n)
              (cells s1)) s1);;
         rt_free r);;
      mret nmem) s
    (fun r' s' => (r' = 0 /\ s' = s) \/
       exists bs' k', granted s s' (delete r (view s bs)) n r' k' bs' /\ moved s s' r k r' n k').
Proof.
  intros Hi Hr Hn Hn2. apply wp_bind. eapply wp_mono; [by apply (malloc_view s bs)|].
  intros r' s1 [[-> ->]|(bs1 & k1 & Hg & Hcells)]; [apply wp_bind; simpl; apply wp_ret, wp_ret; by left|].
  destruct Hg as (Hi1 & Hp1 & Hp2 & Hp3 & Hr0 & Hk1 & Hfresh & Hv).
  rewrite (proj2 (Z.eqb_neq _ _)) by done. simpl. apply wp_bind, wp_bind, wp_modify.
  set (s2 := set_cells _ s1).
  assert (heap_inv s2 bs1) as Hi2 by (destruct Hi1; by split).
  assert (view s2 bs1 !! r = Some k) as Hr2.
  { change (view s1 bs1 !! r = Some k). rewrite Hv, lookup_insert_ne by congruence. done. }
  eapply wp_mono; [exact (free_view _ _ _ _ Hi2 Hr2)|].
  intros _ s3 (bs3 & Hi3 & (E1 & E2 & E3 & E4) & Hv3). apply wp_ret. right. exists bs3, k1.
  simpl in *. rewrite Hp1 in E1. split.
  - unfold granted. split_and!; try done; try congruence.
    + rewrite lookup_delete_ne by congruence. done.
    + rewrite Hv3. change (view s2 bs1) with (view s1 bs1). rewrite Hv.
      by rewrite delete_insert_ne by congruence.
  - unfold moved. rewrite E4. simpl. rewrite Hcells. unfold copy_cells. split.
    + intros i Hx. rewrite (proj2 (Z.leb_le _ _)), (proj2 (Z.ltb_lt _ _)); [|bool_cases; lia|lia].
      simpl. f_equal. lia.
    + intros a Ha. destruct (_ && _) eqn:Hb; [|done]. exfalso.
      apply andb_true_iff in Hb as [H1%Z.leb_le H2%Z.ltb_lt]. destruct (Z.ltb_spec k n); lia.
Qed.

Lemma moved_same s s' r k n k' : cells s' = cells s -> moved s s' r k r n k'.
Proof. intros E. unfold moved. by rewrite E. Qed.

Lemma align_spec size :
  let n := (size + 3) / 4 * 4 in size <= n < size + 4 /\ n mod 4 = 0.
Proof.
  cbn zeta. pose proof (Z.div_mod (size + 3) 4). pose proof (Z.mod_pos_bound (size + 3) 4).
  split; [lia|]. apply Z_mod_mult.
Qed.

Lemma granted_weaken s s' v n size r k bs' :
  granted s s' v n r k bs' -> size <= n -> granted s s' v size r k bs'.
Proof. unfold granted. intros (? & ? & ? & ? & ? & ? & ? & ?) Hle. split_and!; try done. lia. Qed.

Lemma moved_weaken s s' r k r' n size k' :
  moved s s' r k r' n k' -> size <= n -> moved s s' r k r' size k'.
Proof. intros [H1 H2] Hle. split; [|done]. intros i Hx. apply H1. lia. Qed.

(** The view after shrinking in place. *)
Lemma shrink_view s s' pre post k n (r := heap_ptr s + extent pre + 12) :
  heap_inv s (pre ++ (k + 12, true) :: post) -> 0 <= n <= k ->
  heap_inv s' (coalesce (pre ++ (n + 12, true) :: (k - n, false) :: post)) -> same_heap s s' ->
  granted s s' (delete r (view s (pre ++ (k + 12, true) :: post))) n r n
    (coalesce (pre ++ (n + 12, true) :: (k - n, false) :: post)).
Proof.
  intros Hi Hn Hi' (E1 & E2 & E3 & E4). destruct (inv_base _ _ Hi) as (Hb & _ & _).
  pose proof (inv_sized _ _ Hi) as Hsz. destruct (block_bounds _ _ _ _ _ Hi) as (Ho & _ & _ & _ & Hle).
  unfold granted. rewrite lookup_delete_eq. split_and!; try done; [unfold r; lia|].
  unfold view. rewrite E1, live_coalesce. destruct (live_mark (heap_ptr s) _ _ _ Hsz) as [-> Hnone].
  rewrite delete_insert_id by exact Hnone. rewrite !live_app in *. simpl in *.
  apply lookup_union_None in Hnone as [Hnone _].
  replace (heap_ptr s + extent pre + (n + 12) + (k - n)) with (heap_ptr s + extent pre + (k + 12)) by lia.
  replace (n + 12 - 12) with n by lia. fold r in Hnone |- *.
  by rewrite <- insert_union_r.
Qed.

Lemma realloc_view s bs r k size :
  heap_inv s bs -> view s bs !! r = Some k -> 0 < size -> size + 6 < 2 ^ 32 ->
  wp (rt_realloc r size) s (fun r' s' =>
    (r' = 0 /\ s' = s) \/
    exists bs' k', granted s s' (delete r (view s bs)) size r' k' bs' /\ moved s s' r k r' size k').
Proof.
  intros Hi Hr Hs1 Hs2. pose proof (set_sem_id _ _ Hi) as Hid. unfold rt_realloc.
  change RT_ALIGN_SIZE with 4. rewrite RT_ALIGN_val by lia.
  destruct (align_spec size) as [Hn Hn4]. cbn zeta in Hn, Hn4. set (n := (size + 3) / 4 * 4) in *.
  clearbody n. assert (4 <= n) as Hn0 by (pose proof (Z.div_mod n 4); lia).
  apply wp_bind, wp_gets. destruct (Z.ltb_spec (mem_size_aligned s) n) as [|Hms]; [apply wp_ret; by left|].
  rewrite (proj2 (Z.eqb_neq n 0)) by lia.
  destruct (live_range _ _ _ _ (inv_sized _ _ Hi) Hr) as (Hr1 & Hk & Hr2 & _).
  destruct (inv_base _ _ Hi) as (Hb & Hb4 & Hb2). pose proof (inv_end _ _ Hi) as Hend. destruct (heap_inv_bounds _ _ Hi) as (_ & He & Hx).
  rewrite Hx in Hr2. rewrite (proj2 (Z.eqb_neq r 0)) by lia.
  apply wp_bind, wp_sem_take; [apply (inv_sem _ _ Hi)|]. unfold in_heap. wp_steps. simpl.
  rewrite (proj2 (Z.leb_le _ _)), (proj2 (Z.ltb_lt _ _)) by lia. cbn [negb andb]. wp_steps. simpl.
  change SIZEOF_STRUCT_MEM with 12.
  pose proof Hr as Hr'. apply live_lookup in Hr' as (pre & post & -> & ->); [|by apply (inv_sized s)].
  replace (heap_ptr s + extent pre + 12 - 12 - heap_ptr s) with (extent pre) by lia.
  destruct (block_bounds _ _ _ _ _ Hi) as (Ho & _ & Hsz4 & _ & Hle).
  destruct (heap_chain_block _ _ _ _ _ _ (inv_chain _ _ Hi)) as (p & e & _ & Hm & _ & _ & _).
  eapply wp_get_mem; [exact Hm|]. cbn [next].
  rewrite (uwrap_small 32 (extent pre + (k + 12) - extent pre - 12)) by c_lia.
  replace (extent pre + (k + 12) - extent pre - 12) with k by lia.
  change MIN_SIZE with 12. rewrite (uwrap_small 32 (n + 12 + 12)) by c_lia.
  replace (n + 12 + 12) with (n + 24) by lia.
  destruct (Z.eqb_spec k n) as [->|Hne]; [|destruct (Z.ltb_spec (n + 24) k) as [Hshrink|Hgrow]].
  - apply wp_bind, wp_modify, wp_ret. change (set_sem _ _) with (set_sem 1 s). rewrite Hid. right.
    exists (pre ++ (n + 12, true) :: post), n. split; [apply granted_same; [done|done|lia]|by apply moved_same].
  - rewrite (uwrap_small 32 (extent pre + 12 + n)), (uwrap_small 32 (mem_size_aligned s + 12))
      by c_lia.
    rewrite <- Hend. replace (extent pre + 12 + n) with (extent pre + (n + 12)) by lia.
    replace (k - n) with (k + 12 - 12 - n) by lia.
    eapply wp_mono; [apply (shrink_wp s pre n (k + 12) post p); [done|done|lia|done|lia]|].
    intros r' s' (-> & Hi' & Hsame). right. replace (k + 12 - n - 12) with (k - n) in Hi' by lia.
    eexists _, n. split; [|apply moved_same, Hsame].
    eapply granted_weaken; [eapply shrink_view; [done|lia|exact Hi'|done]|lia].
  - apply wp_bind, wp_modify. change (set_sem _ _) with (set_sem 1 s). rewrite Hid.
    eapply wp_mono; [apply (move_wp s _ _ k n Hi Hr); lia|].
    intros r' s' [H|(bs' & k' & Hg & Hmv)]; [by left|right]. exists bs', k'.
    split; [eapply granted_weaken; [done|lia]|eapply moved_weaken; [done|lia]].
Qed.

(** ** Starting the heap *)

(** The statics before [rt_system_heap_init]. *)
Definition heap_start : heap := mk_heap ∅ (fun _ => 0) 0 0 0 0 0 0 0.

Lemma align4_down x : 0 <= x -> Z.land x (Z.lnot 3) = x / 4 * 4.
Proof.
  intros Hx. change (Z.lnot 3) with (Z.lnot (Z.ones 2)).
  rewrite <- Z.ldiff_land, Z.ldiff_ones_r by lia.
  by rewrite Z.shiftl_mul_pow2, Z.shiftr_div_pow2 by lia.
Qed.

Lemma rt_system_heap_init_wp b e :
  0 < b -> b + 42 <= e -> e < 2 ^ 32 ->
  wp (rt_system_heap_init b e) heap_start (fun _ s =>
    heap_inv s [(mem_size_aligned s + 12, false)]).
Proof.
  intros Hb Hbe He. unfold rt_system_heap_init. change RT_ALIGN_SIZE with 4.
  rewrite RT_ALIGN_val by lia. unfold RT_ALIGN_DOWN. change (4 - 1) with 3. rewrite align4_down by lia.
  pose proof (Z.div_mod (b + 3) 4) as D1. pose proof (Z.mod_pos_bound (b + 3) 4) as B1.
  pose proof (Z.div_mod e 4) as D2. pose proof (Z.mod_pos_bound e 4) as B2.
  set (b' := (b + 3) / 4 * 4). set (e' := e / 4 * 4).
  assert (b <= b' <= b + 3 /\ e - 3 <= e' <= e) as [Hb' He'] by (unfold b', e'; lia).
  assert (b' mod 4 = 0) as Hb4 by apply Z_mod_mult. assert (e' mod 4 = 0) as He4 by apply Z_mod_mult.
  clearbody b' e'. change SIZEOF_STRUCT_MEM with 12. change (2 * 12) with 24.
  rewrite (uwrap_small 32 (e' - 24)), (uwrap_small 32 (e' - b' - 24)), (uwrap_small 32 (e' - b' - 24 + 12)) by c_lia.
  rewrite (proj2 (Z.ltb_lt _ _)), (proj2 (Z.leb_le _ _)) by lia. simpl. apply wp_modify.
  split; simpl; try done; try lia.
  - eexists _, _. split; [|split; [apply lookup_insert_eq|done]]. simpl.
    split_and!; [lia| |by rewrite lookup_insert_ne by lia|done|done].
    replace (e' - b' - 24 + 12) with (e' - b' + (-3) * 4) by lia. rewrite Z_mod_plus_full.
    by apply mod4_sub.
Qed.

(** ** Programs that use the heap

    [client c s]: [s] is reached from a started heap by calls, and [c] maps
    the addresses the program holds to the sizes it asked for.  A program
    frees and resizes only what it holds, and writes only there. *)
Inductive client : gmap Z Z -> heap -> Prop :=
| cl_init b e s :
    0 < b -> b + 42 <= e -> e < 2 ^ 32 ->
    rt_system_heap_init b e heap_start = Some (tt, s) -> client ∅ s
| cl_malloc c s n r s' :
    client c s -> 0 < n -> n + 3 < 2 ^ 32 -> rt_malloc n s = Some (r, s') ->
    client (if r =? 0 then c else <[r := n]> c) s'
| cl_calloc c s m n r s' :
    client c s -> 0 < m * n -> m * n + 3 < 2 ^ 32 -> rt_calloc m n s = Some (r, s') ->
    client (if r =? 0 then c else <[r := m * n]> c) s'
| cl_free c s a n s' :
    client c s -> c !! a = Some n -> rt_free a s = Some (tt, s') -> client (delete a c) s'
| cl_realloc c s a m n r s' :
    client c s -> c !! a = Some m -> 0 < n -> n + 6 < 2 ^ 32 -> rt_realloc a n s = Some (r, s') ->
    client (if r =? 0 then c else <[r := n]> (delete a c)) s'
| cl_write c s a n i x :
    client c s -> c !! a = Some n -> 0 <= i < n ->
    client c (set_cells (fill_cells (a - heap_ptr s + i) 1 x (cells s)) s).

(** The blocks in use cover what the program holds. *)
Definition covers (c v : gmap Z Z) : Prop := forall a,
  match c !! a, v !! a with
  | Some n, Some k => n <= k
  | None, None => True
  | _, _ => False
  end.

Lemma covers_Some c v a n : covers c v -> c !! a = Some n -> exists k, v !! a = Some k /\ n <= k.
Proof. intros H Hc. specialize (H a). rewrite Hc in H. destruct (v !! a) as [k|]; [eauto|done]. Qed.

Lemma covers_None c v a : covers c v -> v !! a = None -> c !! a = None.
Proof. intros H Hv. specialize (H a). rewrite Hv in H. by destruct (c !! a). Qed.

Lemma covers_insert c v a n k : covers c v -> n <= k -> covers (<[a := n]> c) (<[a := k]> v).
Proof.
  intros H Hn b. destruct (decide (a = b)) as [->|Hne].
  - by rewrite !lookup_insert_eq.
  - rewrite !lookup_insert_ne by done. apply H.
Qed.

Lemma covers_delete c v a : covers c v -> covers (delete a c) (delete a v).
Proof.
  intros H b. destruct (decide (a = b)) as [->|Hne].
  - by rewrite !lookup_delete_eq.
  - rewrite !lookup_delete_ne by done. apply H.
Qed.

Lemma calloc_view s bs m n :
  heap_inv s bs -> 0 < m * n -> m * n + 3 < 2 ^ 32 ->
  wp (rt_calloc m n) s (fun r s' =>
    (r = 0 /\ s' = s) \/
    exists bs' k, granted s s' (view s bs) (m * n) r k bs' /\
      forall i, 0 <= i < m * n -> cells s' (r - heap_ptr s + i) = 0).
Proof.
  intros Hi H1 H2. unfold rt_calloc. rewrite uwrap_small by c_lia. apply wp_bind.
  eapply wp_mono; [by apply (malloc_view s bs)|].
  intros r s1 [[-> ->]|(bs1 & k1 & Hg & Hcells)]; apply wp_bind, wp_gets, wp_bind.
  - apply wp_ret, wp_ret. by left.
  - pose proof Hg as (Hi1 & Hp1 & Hp2 & Hp3 & Hr0 & Hk1 & Hfresh & Hv).
    rewrite (proj2 (Z.eqb_neq _ _)) by done. simpl. apply wp_modify, wp_ret. right.
    exists bs1, k1. split.
    + unfold granted. simpl. split_and!; try done. destruct Hi1; by split.
    + intros i Hx. simpl. rewrite Hp1. unfold fill_cells.
      by rewrite (proj2 (Z.leb_le _ _)), (proj2 (Z.ltb_lt _ _)) by lia.
Qed.

Lemma client_inv c s : client c s -> exists bs, heap_inv s bs /\ covers c (view s bs).
Proof.
  induction 1 as [b e s Hb Hbe He H|c s n r s' _ (bs & Hi & Hc) H1 H2 H|c s m n r s' _ (bs & Hi & Hc) H1 H2 H
    |c s a n s' _ (bs & Hi & Hc) Ha H|c s a m n r s' _ (bs & Hi & Hc) Ha H1 H2 H|c s a n i x _ (bs & Hi & Hc) _ _].
  - pose proof (rt_system_heap_init_wp b e Hb Hbe He) as W. unfold wp in W. rewrite H in W.
    eexists. split; [exact W|]. intros a. unfold view. simpl. by rewrite !lookup_empty.
  - pose proof (malloc_view s bs n Hi H1 H2) as W. unfold wp in W. rewrite H in W.
    destruct W as [[-> ->]|(bs' & k & (Hi' & _ & _ & _ & Hr & Hk & _ & Hv) & _)]; [by exists bs|].
    rewrite (proj2 (Z.eqb_neq _ _)) by done. exists bs'. rewrite Hv. split; [done|by apply covers_insert].
  - pose proof (calloc_view s bs m n Hi H1 H2) as W. unfold wp in W. rewrite H in W.
    destruct W as [[-> ->]|(bs' & k & (Hi' & _ & _ & _ & Hr & Hk & _ & Hv) & _)]; [by exists bs|].
    rewrite (proj2 (Z.eqb_neq _ _)) by done. exists bs'. rewrite Hv. split; [done|by apply covers_insert].
  - destruct (covers_Some _ _ _ _ Hc Ha) as (k & Hk & _).
    pose proof (free_view s bs a k Hi Hk) as W. unfold wp in W. rewrite H in W.
    destruct W as (bs' & Hi' & _ & Hv). exists bs'. rewrite Hv. split; [done|by apply covers_delete].
  - destruct (covers_Some _ _ _ _ Hc Ha) as (k & Hk & _).
    pose proof (realloc_view s bs a k n Hi Hk H1 H2) as W. unfold wp in W. rewrite H in W.
    destruct W as [[-> ->]|(bs' & k' & (Hi' & _ & _ & _ & Hr & Hk' & _ & Hv) & _)]; [by exists bs|].
    rewrite (proj2 (Z.eqb_neq _ _)) by done. exists bs'. rewrite Hv. split; [done|].
    by apply covers_insert; [apply covers_delete|].
  - exists bs. split; [|exact Hc]. destruct Hi; by split.
Qed.

Definition place_rest (n sz : Z) : list block :=
  if n + 24 <=? sz - 12 then [(sz - n - 12, false)] else [].

Lemma place_cons n sz : place n sz = (taken n sz, true) :: place_rest n sz.
Proof. unfold place, taken, place_rest. by destruct (_ <=? _). Qed.

(** Freeing what was placed gives the free block back. *)
Lemma coalesce_place pre n sz post :
  merged (pre ++ (sz, false) :: post) ->
  coalesce (pre ++ (taken n sz, false) :: place_rest n sz ++ post) = pre ++ (sz, false) :: post.
Proof.
  intros H. rewrite coalesce_app.
  assert (coalesce ((taken n sz, false) :: place_rest n sz ++ post) = (sz, false) :: post) as ->.
  - apply merged_app in H as [_ [[?|Hh] Hm]]; [done|]. unfold taken, place_rest.
    destruct (_ <=? _); cbn [app].
    + change (join (n + 12, false) (join (sz - n - 12, false) (coalesce post)) = (sz, false) :: post).
      rewrite (coalesce_id _ Hm), (join_head _ _ Hh). unfold join. do 2 f_equal. lia.
    + change (join (sz, false) (coalesce post) = (sz, false) :: post).
      by rewrite (coalesce_id _ Hm), (join_head _ _ Hh).
  - by apply foldr_join_id.
Qed.

(** C26. [rt_malloc] returns, and is first fit: it takes the lowest free block
    that is large enough for the request (rounded up to 4, at least 12
    bytes), cut off if 24 bytes or more remain; it returns NULL and changes
    nothing only if every free block that is large enough starts at or
    behind [mem_size_aligned] less the request. *)
Theorem rt_malloc_first_fit s bs size :
  heap_inv s bs -> 0 < size -> size + 3 < 2 ^ 32 ->
  exists r s', rt_malloc size s = Some (r, s') /\
    let n := request size in
    (r = 0 /\ s' = s /\
       forall pre sz post, bs = pre ++ (sz, false) :: post -> n <= sz - 12 ->
         mem_size_aligned s - n <= extent pre) \/
    (exists pre sz post, bs = pre ++ (sz, false) :: post /\ n <= sz - 12 /\
       Forall (fun b => b.2 = true \/ b.1 - 12 < n) pre /\
       r = heap_ptr s + extent pre + 12 /\ heap_inv s' (pre ++ place n sz ++ post) /\
       cells s' = cells s /\ max_mem s' = Z.max (max_mem s) (used_mem s')).
Proof.
  intros Hi H1 H2. pose proof (rt_malloc_wp s bs size Hi H1 H2) as W. cbn zeta in *.
  apply wp_Some in W as (r & s' & E & W). exists r, s'. split; [exact E|].
  destruct (Z.leb_spec (request size) (mem_size_aligned s)) as [Hle|Hgt]; unfold found in W.
  - destruct (fit _ _ 0 bs) as [[o bs']|] eqn:Hf.
    + apply fit_Some in Hf as (pre & sz & post & -> & -> & -> & _ & Hn & Hpre).
      destruct W as (-> & Hi' & (_ & _ & _ & Ec) & Hm). right. exists pre, sz, post.
      rewrite Z.add_0_l. by split_and!.
    + destruct W as [-> ->]. left. rewrite (set_sem_id _ _ Hi). split_and!; [done..|].
      intros pre sz post -> Hn. pose proof (inv_sized _ _ Hi) as Hs. apply Forall_app in Hs as [Hs _].
      pose proof (fit_None _ _ _ _ _ _ Hf Hn Hs). lia.
  - destruct W as [-> ->]. left. split_and!; [done..|]. intros pre sz post -> Hn.
    destruct (block_bounds _ _ _ _ _ Hi) as (? & _ & _ & _ & ?). pose proof (inv_end _ _ Hi). lia.
Qed.

(** Freeing what [rt_malloc] just returned gives the heap back: the same
    blocks, the same lowest free block, the same use count and the same bytes
    in the blocks in use. *)
Theorem malloc_free_roundtrip s bs size r s1 :
  heap_inv s bs -> 0 < size -> size + 3 < 2 ^ 32 ->
  rt_malloc size s = Some (r, s1) -> r <> 0 ->
  exists s2, rt_free r s1 = Some (tt, s2) /\ heap_inv s2 bs /\
    cells s2 = cells s /\ lfree s2 = lfree s /\ used_mem s2 = used_mem s /\
    heap_ptr s2 = heap_ptr s /\ mem_size_aligned s2 = mem_size_aligned s.
Proof.
  intros Hi H1 H2 E Hr. pose proof (rt_malloc_wp s bs size Hi H1 H2) as W. cbn zeta in W.
  unfold wp in W. rewrite E in W. destruct (_ <=? _); [|by destruct W]. unfold found in W.
  destruct (fit _ _ 0 bs) as [[o bs']|] eqn:Hf; [|by destruct W].
  apply fit_Some in Hf as (pre & sz & post & -> & -> & -> & _ & _ & _).
  destruct W as (-> & Hi' & (E1 & E2 & E3 & E4) & _). simpl in Hi'. rewrite place_cons in Hi'.
  pose proof (rt_free_wp _ _ _ _ Hi') as W. rewrite E1 in W. rewrite Z.add_0_l.
  apply wp_Some in W as ([] & s2 & Ef & Hi2 & (F1 & F2 & F3 & F4) & _). exists s2.
  split; [exact Ef|]. change (place_rest (request size) sz ++ post)
    with ((place_rest (request size) sz) ++ post) in Hi2.
  rewrite coalesce_place in Hi2 by apply (inv_merged _ _ Hi).
  split_and!; [done|congruence| | |congruence|congruence].
  - by rewrite (inv_lfree _ _ Hi2), (inv_lfree _ _ Hi).
  - by rewrite (inv_used _ _ Hi2), (inv_used _ _ Hi).
Qed.

(** A byte of a block in use lies outside the other blocks in use. *)
Lemma block_apart s bs a r n k i :
  heap_inv s bs -> view s bs !! a = Some n -> view s bs !! r = Some k -> a <> r -> 0 <= i < n ->
  a + i < r \/ r + k <= a + i.
Proof.
  intros Hi Ha Hr Hne Hn. pose proof (inv_sized _ _ Hi) as Hs.
  destruct (Z.lt_total a r) as [H|[H|H]]; [left|done|right].
  - pose proof (live_disjoint _ _ _ _ _ _ Hs Ha Hr H). lia.
  - pose proof (live_disjoint _ _ _ _ _ _ Hs Hr Ha H). lia.
Qed.

(** C28. [rt_realloc] of a block in use returns, and either returns NULL with
    the heap unchanged, or a block of at least the new size that holds the
    old bytes up to the smaller size; the other blocks in use stay in use with
    all their bytes, and the new block is none of them.  Nothing is said of the
    bytes of no block in use: there a split writes its header, also into the
    tail of a block that shrinks. *)
Theorem rt_realloc_keeps s bs r k size :
  heap_inv s bs -> view s bs !! r = Some k -> 0 < size -> size + 6 < 2 ^ 32 ->
  exists r' s', rt_realloc r size s = Some (r', s') /\
    ((r' = 0 /\ s' = s) \/
     exists bs' k', heap_inv s' bs' /\ size <= k' /\
       delete r (view s bs) !! r' = None /\
       view s' bs' = <[r' := k']> (delete r (view s bs)) /\
       (forall i, 0 <= i < Z.min k size ->
          cells s' (r' - heap_ptr s + i) = cells s (r - heap_ptr s + i)) /\
       (forall a n i, delete r (view s bs) !! a = Some n -> 0 <= i < n ->
          cells s' (a - heap_ptr s + i) = cells s (a - heap_ptr s + i))).
Proof.
  intros Hi Hr H1 H2. pose proof (realloc_view s bs r k size Hi Hr H1 H2) as W.
  apply wp_Some in W as (r' & s' & E & W). exists r', s'. split; [exact E|].
  destruct W as [W|(bs' & k' & (Hi' & _ & _ & _ & _ & Hk & Hf & Hv) & [Hm1 Hm2])]; [by left|right].
  exists bs', k'. split_and!; [done..|]. intros a n i Ha Hn.
  replace (a - heap_ptr s + i) with (a + i - heap_ptr s) by lia. apply Hm2.
  eapply (block_apart s' bs' a r'); [done| | |intros ->; congruence|done]; rewrite Hv.
  - rewrite lookup_insert_ne; [done|]. intros ->. congruence.
  - apply lookup_insert_eq.
Qed.

(** C3. A program that frees and resizes only what it holds, and writes only
    there, is safe: what it holds is aligned, inside the heap and disjoint,
    no call faults or loops, and what a call returns is not held already. *)
Theorem heap_client_safe c s :
  client c s ->
  (forall a n, c !! a = Some n ->
     a mod 4 = 0 /\ heap_ptr s + 12 <= a /\ a + n <= heap_ptr s + heap_end s) /\
  (forall a1 n1 a2 n2, c !! a1 = Some n1 -> c !! a2 = Some n2 -> a1 < a2 -> a1 + n1 < a2) /\
  (forall n, 0 < n -> n + 3 < 2 ^ 32 ->
     exists r s', rt_malloc n s = Some (r, s') /\ c !! r = None) /\
  (forall a n, c !! a = Some n -> exists s', rt_free a s = Some (tt, s')) /\
  (forall a n m, c !! a = Some n -> 0 < m -> m + 6 < 2 ^ 32 ->
     exists r s', rt_realloc a m s = Some (r, s') /\ delete a c !! r = None).
Proof.
  intros (bs & Hi & Hc)%client_inv. pose proof (inv_sized _ _ Hi) as Hs.
  destruct (inv_base _ _ Hi) as (Hb & Hb4 & _). destruct (heap_inv_bounds _ _ Hi) as (_ & _ & Hx).
  assert (view s bs !! 0 = None) as H0.
  { destruct (view s bs !! 0) as [k|] eqn:E; [|done]. apply live_range in E; [lia|done]. }
  split_and!.
  - intros a n Ha. destruct (covers_Some _ _ _ _ Hc Ha) as (k & Hk & Hn).
    apply live_range in Hk as (? & ? & ? & Hm); [|done]. rewrite Hx in *. split_and!; [|lia|lia].
    replace a with (a - heap_ptr s + heap_ptr s) by lia. by rewrite Zplus_mod, Hm, Hb4.
  - intros a1 n1 a2 n2 H1 H2 Hlt.
    destruct (covers_Some _ _ _ _ Hc H1) as (k1 & Hk1 & ?). destruct (covers_Some _ _ _ _ Hc H2) as (k2 & Hk2 & ?).
    pose proof (live_disjoint _ _ _ _ _ _ Hs Hk1 Hk2 Hlt). lia.
  - intros n H1 H2. pose proof (malloc_view s bs n Hi H1 H2) as W.
    apply wp_Some in W as (r & s' & E & W). exists r, s'. split; [exact E|].
    apply (covers_None _ _ _ Hc).
    destruct W as [[-> _]|(bs' & k & (_ & _ & _ & _ & _ & _ & Hf & _) & _)]; [exact H0|exact Hf].
  - intros a n Ha. destruct (covers_Some _ _ _ _ Hc Ha) as (k & Hk & _).
    pose proof (free_view s bs a k Hi Hk) as W. apply wp_Some in W as ([] & s' & E & _). by exists s'.
  - intros a n m Ha H1 H2. destruct (covers_Some _ _ _ _ Hc Ha) as (k & Hk & _).
    pose proof (realloc_view s bs a k m Hi Hk H1 H2) as W.
    apply wp_Some in W as (r & s' & E & W). exists r, s'. split; [exact E|].
    apply (covers_None _ _ _ (covers_delete _ _ a Hc)).
    destruct W as [[-> _]|(bs' & k' & (_ & _ & _ & _ & _ & _ & Hf & _) & _)]; [|exact Hf].
    rewrite lookup_delete_ne; [exact H0|]. intros ->. by rewrite H0 in Hk.
Qed.

Lemma live_empty a bs : sized bs -> live a bs = ∅ -> Forall (fun b => b.2 = false) bs.
Proof.
  intros Hs. revert a. induction Hs as [|[sz u] bs _ Hs IH]; intros a H; [by constructor|]. simpl in H.
  destruct u; [by apply insert_non_empty in H|]. constructor; [done|]. by eapply IH.
Qed.

(** C27. Nothing leaks: when the program holds nothing, the heap is one free
    block again and the use count is 0. *)
Theorem heap_no_leak s :
  client ∅ s ->
  heap_inv s [(mem_size_aligned s + 12, false)] /\ used_mem s = 0 /\ lfree s = 0.
Proof.
  intros (bs & Hi & Hc)%client_inv.
  assert (view s bs = ∅) as Hv.
  { apply map_empty. intros a. specialize (Hc a). rewrite lookup_empty in Hc. by destruct (view s bs !! a). }
  pose proof (live_empty _ _ (inv_sized _ _ Hi) Hv) as Hfree.
  destruct (heap_inv_bounds _ _ Hi) as (_ & _ & Hx). pose proof (inv_min _ _ Hi). pose proof (inv_end _ _ Hi).
  pose proof (inv_merged _ _ Hi) as Hm.
  destruct bs as [|[z1 u1] [|[z2 u2] bs]]; simpl in Hx; [unfold extent in Hx; simpl in Hx; lia| |].
  - apply Forall_cons in Hfree as [E _]. simpl in E. subst u1. unfold extent in Hx. simpl in Hx.
    replace (mem_size_aligned s + 12) with z1 by lia.
    split; [done|]. by rewrite (inv_used _ _ Hi), (inv_lfree _ _ Hi).
  - apply Forall_cons in Hfree as [E1 Hfree]. apply Forall_cons in Hfree as [E2 _]. simpl in *. subst.
    destruct Hm as [[?|[]] _]; done.
Qed.

(** ** Where the code falls short *)

(** [RT_ALIGN] wraps for the three largest sizes: [rt_malloc] then hands out
    a block of the smallest size instead of refusing. *)
Theorem huge_request_wraps s size :
  12 <= mem_size_aligned s -> 2 ^ 32 - 3 <= size < 2 ^ 32 -> rt_malloc size s = rt_malloc 12 s.
Proof.
  intros Hms Hs. unfold rt_malloc. rewrite (proj2 (Z.eqb_neq size 0)) by c_lia.
  assert (RT_ALIGN size RT_ALIGN_SIZE = 0) as ->.
  { unfold RT_ALIGN. change RT_ALIGN_SIZE with 4. unfold uwrap.
    replace (size + 4 - 1) with (size + 3 - 2 ^ 32 + 1 * 2 ^ 32) by lia.
    rewrite Z_mod_plus_full, Z.mod_small by c_lia.
    assert (size + 3 - 2 ^ 32 = 0 \/ size + 3 - 2 ^ 32 = 1 \/ size + 3 - 2 ^ 32 = 2) as Hc by c_lia.
    destruct Hc as [->|[->| ->]]; done. }
  unfold mbind, M_bind, gets. cbn [Z.eqb]. change (RT_ALIGN 12 RT_ALIGN_SIZE) with 12.
  rewrite (proj2 (Z.ltb_ge (mem_size_aligned s) 0)), (proj2 (Z.ltb_ge (mem_size_aligned s) 12)) by lia.
  done.
Qed.

(** The test [ptr < mem_size_aligned - size] refuses an exact fit that ends
    the heap: of an empty heap the whole cannot be had. *)
Theorem whole_heap_refused s :
  heap_inv s [(mem_size_aligned s + 12, false)] -> mem_size_aligned s mod 4 = 0 ->
  rt_malloc (mem_size_aligned s) s = Some (0, s).
Proof.
  intros Hi H4. pose proof (inv_min _ _ Hi). pose proof (inv_end _ _ Hi).
  destruct (inv_base _ _ Hi) as (Hb & _ & Hb2).
  pose proof (rt_malloc_wp s _ (mem_size_aligned s) Hi ltac:(lia) ltac:(lia)) as W. cbn zeta in W.
  assert (request (mem_size_aligned s) = mem_size_aligned s) as E.
  { unfold request. pose proof (Z.div_mod (mem_size_aligned s) 4).
    replace (mem_size_aligned s + 3) with (3 + mem_size_aligned s / 4 * 4) by lia.
    rewrite Z.div_add by lia. change (3 / 4) with 0. lia. }
  rewrite E, Z.leb_refl in W. replace (mem_size_aligned s - mem_size_aligned s) with 0 in W by lia.
  simpl in W. apply wp_Some in W as (r & s' & -> & -> & ->). by rewrite (set_sem_id _ _ Hi).
Qed.

(** ** Concrete runs *)

Definition heap_of (b e : Z) : heap :=
  match rt_system_heap_init b e heap_start with Some (_, s) => s | None => heap_start end.
Definition run_heap {A} (m : M heap A) (s : heap) : heap :=
  match m s with Some (_, s') => s' | None => s end.
Definition heap_a : heap := heap_of 4096 4296.
Definition heap_b : heap := run_heap (rt_malloc 20) heap_a.
Definition blocks_b : list block := [(32, true); (156, false)].

Lemma heap_a_inv : heap_inv heap_a [(188, false)].
Proof.
  pose proof (rt_system_heap_init_wp 4096 4296 ltac:(lia) ltac:(lia) ltac:(lia)) as W.
  apply wp_Some in W as ([] & s & E & Hi).
  assert (s = heap_a) as -> by (unfold heap_a, heap_of; by rewrite E). exact Hi.
Qed.

Lemma heap_b_inv : heap_inv heap_b blocks_b.
Proof.
  pose proof (rt_malloc_wp heap_a _ 20 heap_a_inv ltac:(lia) ltac:(lia)) as W.
  unfold heap_b, run_heap. unfold wp in W.
  destruct (rt_malloc 20 heap_a) as [[r s']|]; [|done].
  assert ((request 20 <=? mem_size_aligned heap_a) = true) as E1 by done.
  assert (fit (mem_size_aligned heap_a - request 20) (request 20) 0 [(188, false)] = Some (0, blocks_b)) as E2
    by done.
  cbn zeta in W. rewrite E1, E2 in W. by destruct W as (_ & W & _).
Qed.

Lemma heap_a_client : client ∅ heap_a.
Proof. apply (cl_init 4096 4296); [lia|lia|lia|reflexivity]. Qed.

Lemma heap_b_client : client {[ 4108 := 20 ]} heap_b.
Proof. apply (cl_malloc ∅ heap_a 20 4108 heap_b heap_a_client); [lia|lia|vm_compute; reflexivity]. Qed.

(** [rt_calloc] does not check its product: 2^30 + 1 objects of 4 bytes are
    a block of 12. *)
Theorem calloc_product_wraps :
  exists s', rt_calloc (2 ^ 30 + 1) 4 heap_a = Some (4108, s') /\ used_mem s' = 24.
Proof. eexists. split; [vm_compute; reflexivity|reflexivity]. Qed.

Lemma rt_malloc_first_fit_witness : exists s', rt_malloc 20 heap_a = Some (4108, s').
Proof.
  destruct (rt_malloc_first_fit heap_a [(188, false)] 20 heap_a_inv ltac:(lia) ltac:(lia))
    as (r & s' & E & [(_ & _ & H)|(pre & sz & post & Hbs & _ & _ & Hr & _)]).
  - exfalso. specialize (H [] 188 [] eq_refl). vm_compute in H. by apply H.
  - destruct pre as [|b [|]]; [|discriminate Hbs|discriminate Hbs]. exists s'. rewrite E.
    by rewrite Hr.
Defined.

Lemma malloc_free_roundtrip_witness :
  exists s2, rt_free 4108 heap_b = Some (tt, s2) /\ heap_inv s2 [(188, false)].
Proof.
  destruct (malloc_free_roundtrip heap_a [(188, false)] 20 4108 heap_b heap_a_inv ltac:(lia) ltac:(lia))
    as (s2 & E & Hi & _); [vm_compute; reflexivity|done|]. by exists s2.
Defined.

Lemma rt_realloc_keeps_witness : exists r s', rt_realloc 4108 60 heap_b = Some (r, s').
Proof.
  destruct (rt_realloc_keeps heap_b blocks_b 4108 20 60 heap_b_inv) as (r & s' & E & _);
    [vm_compute; reflexivity|lia|lia|]. by exists r, s'.
Defined.

Lemma heap_client_safe_witness : exists s', rt_free 4108 heap_b = Some (tt, s').
Proof.
  destruct (heap_client_safe {[ 4108 := 20 ]} heap_b heap_b_client) as (_ & _ & _ & H & _).
  apply (H 4108 20). reflexivity.
Defined.

Definition heap_c : heap := run_heap (rt_free 4108) heap_b.

Lemma heap_c_client : client ∅ heap_c.
Proof.
  rewrite <- (delete_singleton_eq 4108 20 : delete 4108 {[ 4108 := 20 ]} = (∅ : gmap Z Z)).
  apply (cl_free _ heap_b 4108 20 heap_c heap_b_client); [reflexivity|vm_compute; reflexivity].
Qed.

Lemma heap_no_leak_witness : heap_inv heap_c [(188, false)] /\ used_mem heap_c = 0.
Proof. destruct (heap_no_leak heap_c heap_c_client) as (H1 & H2 & _). by split. Defined.

Lemma huge_request_wraps_witness : rt_malloc (2 ^ 32 - 1) heap_a = rt_malloc 12 heap_a.
Proof. apply huge_request_wraps; vm_compute; [discriminate|split; [discriminate|reflexivity]]. Defined.

Lemma whole_heap_refused_witness : rt_malloc 176 heap_a = Some (0, heap_a).
Proof. apply (whole_heap_refused heap_a); [exact heap_a_inv|reflexivity]. Defined.

End Mem.
