(* ===== verification/Alloc.v ===== *)
(** * The allocator as the rest of the kernel sees it

    [Allocator] is what a caller of the heap relies on: [rt_malloc] and
    [rt_free], and the map [held] from the addresses in use to the bytes
    behind them.  [AllocatorLaws] says that a block is fresh, large enough,
    aligned and disjoint from the others, that a failed request changes
    nothing, and that freeing returns exactly that block.  Code that
    allocates is verified against these laws; the small-memory heap of file
    SmallMem discharges them ([small_mem_laws]).

    [rt_malloc_align] and [rt_free_align] of kservice.c are the first client:
    they keep the address of the real block in the word in front of the
    aligned one.  [rt_ringbuffer_create] and [rt_ringbuffer_destroy] of
    ringbuffer.c are the second. *)
From stdpp Require Import base list gmap.
From Stdlib Require Import ZArith Lia.
From S2P Require Import Prelude SmallMem RingBuffer.

Module Alloc.

Class Allocator (A : Type) := {
  rt_malloc : Z -> M A Z;         (* 0 is the null pointer *)
  rt_free : Z -> M A unit;
  held : A -> gmap Z Z -> Prop    (* the blocks in use and their sizes *)
}.

(** [h'] holds the blocks [v] and a new one of at least [n] bytes at [r]. *)
Definition grants {A} `{Allocator A} (v : gmap Z Z) (n r k : Z) (h' : A) : Prop :=
  n <= k /\ v !! r = None /\ held h' (<[r := k]> v).

Class AllocatorLaws (A : Type) `{Allocator A} := {
  malloc_law h v n : held h v -> 0 < n -> n + 3 < 2 ^ 32 ->
    wp (rt_malloc n) h (fun r h' => (r = 0 /\ h' = h) \/ exists k, grants v n r k h');
  malloc_zero h : rt_malloc 0 h = Some (0, h);
  free_law h v r k : held h v -> v !! r = Some k ->
    wp (rt_free r) h (fun _ h' => held h' (delete r v));
  free_null h : rt_free 0 h = Some (tt, h);
  held_range h v r k : held h v -> v !! r = Some k ->
    0 < r /\ 0 < k /\ r mod 4 = 0 /\ r + k <= 2 ^ 32;
  held_disjoint h v r k r' k' : held h v -> v !! r = Some k -> v !! r' = Some k' -> r < r' ->
    r + k <= r'
}.

(** ** The small-memory heap is such an allocator *)

#[export] Instance small_mem : Allocator Mem.heap := {|
  rt_malloc := Mem.rt_malloc;
  rt_free := Mem.rt_free;
  held s v := exists bs, Mem.heap_inv s bs /\ v = Mem.view s bs
|}.

#[export] Instance small_mem_laws : AllocatorLaws Mem.heap.
Proof.
  split; simpl.
  - intros h v n (bs & Hi & ->) H1 H2. eapply wp_mono; [by apply Mem.malloc_view|].
    intros r h' [H|(bs' & k & (Hi' & _ & _ & _ & _ & Hk & Hn & Hv) & _)]; [by left|right].
    exists k. split_and!; [done|done|]. exists bs'. by rewrite Hv.
  - done.
  - intros h v r k (bs & Hi & ->) Hr. eapply wp_mono; [by eapply Mem.free_view|].
    intros _ h' (bs' & Hi' & _ & Hv). exists bs'. by rewrite Hv.
  - done.
  - intros h v r k (bs & Hi & ->) Hr. destruct (Mem.inv_base _ _ Hi) as (Hb & Hb4 & He).
    destruct (Mem.heap_inv_bounds _ _ Hi) as (_ & _ & Hx).
    destruct (Mem.live_range _ _ _ _ (Mem.inv_sized _ _ Hi) Hr) as (H1 & H2 & H3 & H4).
    rewrite Hx in H3. split_and!; [lia|lia| |lia].
    replace r with (r - Mem.heap_ptr h + Mem.heap_ptr h) by lia. by rewrite Zplus_mod, H4, Hb4.
  - intros h v r k r' k' (bs & Hi & ->) Hr Hr' Hlt.
    pose proof (Mem.live_disjoint _ _ _ _ _ _ (Mem.inv_sized _ _ Hi) Hr Hr' Hlt). lia.
Qed.

(** The blocks come from a fixed area of memory. *)
Class ArenaLaws (A : Type) `{AllocatorLaws A} := {
  arena : A -> Z * Z;
  malloc_arena n : keeps arena (rt_malloc n);
  free_arena r : keeps arena (rt_free r);
  held_arena h v r k : held h v -> v !! r = Some k -> fst (arena h) <= r < snd (arena h)
}.

Notation area := (fun h => (Mem.heap_ptr h, Mem.heap_ptr h + Mem.heap_end h)).

Lemma keeps_get_mem o : keeps area (Mem.get_mem o).
Proof. intros s a s'. unfold Mem.get_mem. by destruct (_ !! o); [intros [= <- <-]|]. Qed.

Ltac heap_keeps :=
  repeat first
    [ keeps_step
    | apply keeps_get_mem
    | progress unfold when, Mem.put_mem, Mem.set_next, Mem.set_prev, Mem.set_used, Mem.set_magic,
        Mem.sem_release, Mem.in_heap, Mem.take_block, Mem.plug_holes ].

Lemma keeps_sem_take : keeps area Mem.sem_take.
Proof. intros s a s'. unfold Mem.sem_take. by destruct (_ <? _); [intros [= <- <-]|]. Qed.

Lemma keeps_lfree_loop fuel : keeps area (Mem.lfree_loop fuel).
Proof. induction fuel as [|fuel IH]; cbn [Mem.lfree_loop]; heap_keeps. exact IH. Qed.

Lemma keeps_malloc_loop fuel ptr n : keeps area (Mem.malloc_loop fuel ptr n).
Proof.
  revert ptr. induction fuel as [|fuel IH]; intros ptr; cbn [Mem.malloc_loop];
    repeat first [apply keeps_lfree_loop | apply IH | progress heap_keeps].
Qed.

#[export] Instance small_mem_arena : ArenaLaws Mem.heap.
Proof.
  refine {| arena := area |}.
  - intros n. simpl. unfold Mem.rt_malloc.
    repeat first [apply keeps_sem_take | apply keeps_malloc_loop | progress heap_keeps].
  - intros r. simpl. unfold Mem.rt_free. repeat first [apply keeps_sem_take | progress heap_keeps].
  - intros h v r k (bs & Hi & ->) Hr. destruct (Mem.heap_inv_bounds _ _ Hi) as (_ & _ & Hx). simpl.
    destruct (Mem.live_range _ _ _ _ (Mem.inv_sized _ _ Hi) Hr) as (H1 & H2 & H3 & _). rewrite Hx in H3. lia.
Defined.

(** ** Aligned blocks *)

Section Client.
Context {A : Type} {AA : Allocator A} {AL : AllocatorLaws A}.

(** The heap and the words stored in its blocks. *)
Record words_st := mk_words { w_heap : A; words : gmap Z Z }.
Definition set_w_heap (h : A) (s : words_st) : words_st := mk_words h (words s).

Definition load (a : Z) : M words_st Z := w ← gets words; deref (w !! a).
Definition store (a x : Z) : M words_st unit :=
  modify (fun s => mk_words (w_heap s) (<[a := x]> (words s))).

Definition rt_malloc_align (size align : Z) : M words_st Z :=
  let uintptr_size := 4 - 1 in
  let align := Z.land (u32 (align + uintptr_size)) (Z.lnot uintptr_size) in
  let align_size := u32 (Z.land (u32 (size + uintptr_size)) (Z.lnot uintptr_size) + align) in
  ptr ← zoom w_heap set_w_heap (rt_malloc align_size);
  if negb (ptr =? 0) then
    let align_ptr :=
      if Z.land ptr (align - 1) =? 0 then u32 (ptr + align)
      else Z.land (u32 (ptr + (align - 1))) (Z.lnot (align - 1)) in
    store (align_ptr - 4) ptr;;
    mret align_ptr
  else mret ptr.

Definition rt_free_align (ptr : Z) : M words_st unit :=
  real_ptr ← load (ptr - 4);
  zoom w_heap set_w_heap (rt_free real_ptr).

(** ** ringbuffer.c: buffers from the heap *)

(** [sizeof(struct rt_ringbuffer)]: a pointer and four 16-bit fields. *)
Definition SIZEOF_RINGBUFFER : Z := 12.

(** The address of the control block and of the pool, and the ring buffer;
    the bytes of a new pool are what the heap held before. *)
Definition rt_ringbuffer_create (junk : list Z) (size : Z) : M A (option (Z * Z * Ring.rt_ringbuffer)) :=
  let size := Mem.RT_ALIGN_DOWN size Mem.RT_ALIGN_SIZE in
  rb ← rt_malloc SIZEOF_RINGBUFFER;
  if rb =? 0 then mret None else
  pool ← rt_malloc size;
  if pool =? 0 then rt_free rb;; mret None
  else mret (Some (rb, pool, Ring.rt_ringbuffer_init (take (Z.to_nat size) junk) size)).

Definition rt_ringbuffer_destroy (rb pool : Z) : M A unit :=
  rt_free pool;; rt_free rb.

(** ** Lemmas *)

Lemma align4 x : 0 <= x -> x + 3 < 2 ^ 32 ->
  Z.land (u32 (x + 3)) (Z.lnot 3) = (x + 3) / 4 * 4.
Proof. intros H0 H1. rewrite uwrap_small by c_lia. apply Mem.align4_down. lia. Qed.

Lemma land_down a x : 0 <= a -> 0 <= x -> Z.land x (Z.lnot (2 ^ a - 1)) = x / 2 ^ a * 2 ^ a.
Proof.
  intros Ha Hx. rewrite Z.sub_1_r, <- Z.ones_equiv, <- Z.ldiff_land, Z.ldiff_ones_r by lia.
  by rewrite Z.shiftl_mul_pow2, Z.shiftr_div_pow2 by lia.
Qed.

Lemma land_low a x : 0 <= a -> Z.land x (2 ^ a - 1) = x mod 2 ^ a.
Proof. intros Ha. by rewrite Z.sub_1_r, <- Z.ones_equiv, Z.land_ones by lia. Qed.

Lemma pow_mod4 a : 2 <= a -> exists q, 2 ^ a = 4 * q /\ 0 < q.
Proof.
  intros Ha. exists (2 ^ (a - 2)). split; [|apply Z.pow_pos_nonneg; lia].
  change 4 with (2 ^ 2). rewrite <- Z.pow_add_r by lia. f_equal. lia.
Qed.

(** Where the aligned block starts in a block at [r]. *)
Definition aligned_at (a r : Z) : Z :=
  if r mod 2 ^ a =? 0 then r + 2 ^ a else (r + (2 ^ a - 1)) / 2 ^ a * 2 ^ a.

Lemma aligned_at_spec a r : 2 <= a -> 0 < r -> r mod 4 = 0 ->
  aligned_at a r mod 2 ^ a = 0 /\ r + 4 <= aligned_at a r <= r + 2 ^ a.
Proof.
  intros Ha Hr Hr4. destruct (pow_mod4 a Ha) as (q & Eq & Hq). unfold aligned_at. rewrite Eq.
  apply Z.mod_divide in Hr4 as [z Hz]; [|lia]. destruct (Z.eqb_spec (r mod (4 * q)) 0) as [E|E].
  - split; [|lia]. rewrite Zplus_mod, E, Z_mod_same_full, Z.add_0_l. by apply Z.mod_small; lia.
  - split; [apply Z_mod_mult|].
    pose proof (Z.div_mod (r + (4 * q - 1)) (4 * q) ltac:(lia)) as D.
    pose proof (Z.mod_pos_bound (r + (4 * q - 1)) (4 * q) ltac:(lia)) as B.
    set (d := (r + (4 * q - 1)) / (4 * q)) in *. clearbody d.
    assert (r <> 4 * q * d); [|nia]. intros E2. apply E. rewrite E2, Z.mul_comm. apply Z_mod_mult.
Qed.

(** [rt_malloc_align] for a power of two. *)
Lemma malloc_align_wp s v size a :
  held (w_heap s) v -> 0 < size -> 2 <= a -> size + 2 ^ a + 6 < 2 ^ 32 ->
  wp (rt_malloc_align size (2 ^ a)) s (fun p s' =>
    (p = 0 /\ s' = s) \/
    exists r k, p = aligned_at a r /\ words s' = <[p - 4 := r]> (words s) /\
      size + 2 ^ a <= k /\ v !! r = None /\ held (w_heap s') (<[r := k]> v)).
Proof.
  intros Hv Hs Ha Hmax. destruct (pow_mod4 a Ha) as (q & Eq & Hq). unfold rt_malloc_align. change (4 - 1) with 3.
  rewrite !align4 by lia. rewrite Eq in *.
  assert ((4 * q + 3) / 4 * 4 = 4 * q) as ->.
  { replace (4 * q + 3) with (3 + q * 4) by lia. rewrite Z.div_add by lia. change (3 / 4) with 0. lia. }
  destruct (Mem.align_spec size) as [Hn _]. cbn zeta in Hn. set (n := (size + 3) / 4 * 4) in *. clearbody n.
  rewrite (uwrap_small 32 (n + 4 * q)) by c_lia.
  apply wp_bind, wp_zoom. eapply wp_mono; [apply malloc_law; [exact Hv|lia|lia]|].
  intros r h' [[-> ->]|(k & Hk & Hnew & Hv')].
  - apply wp_ret. left. split; [done|]. by destruct s.
  - destruct (held_range _ _ r k Hv' ltac:(apply lookup_insert_eq)) as (Hr0 & Hk0 & Hr4 & Hrk).
    rewrite (proj2 (Z.eqb_neq r 0)) by lia. cbn [negb]. rewrite <- Eq, land_low by lia.
    assert ((if r mod 2 ^ a =? 0 then u32 (r + 2 ^ a)
             else Z.land (u32 (r + (2 ^ a - 1))) (Z.lnot (2 ^ a - 1))) = aligned_at a r) as ->.
    { unfold aligned_at. rewrite !uwrap_small by (rewrite Eq; c_lia). rewrite land_down by lia. done. }
    unfold store. wp_steps. simpl. right. exists r, k. split_and!; [done|done|lia|done|done].
Qed.

Lemma free_align_wp s v p r k :
  held (w_heap s) v -> words s !! (p - 4) = Some r -> v !! r = Some k ->
  wp (rt_free_align p) s (fun _ s' => held (w_heap s') (delete r v) /\ words s' = words s).
Proof.
  intros Hv Hw Hr. unfold rt_free_align, load. wp_steps. eapply wp_deref; [exact Hw|].
  wp_step. eapply wp_mono; [by eapply free_law|]. done.
Qed.

(** [rt_malloc_align] with a power of two and [rt_free_align]: a null
    result changes nothing; otherwise the block returned is aligned, it and
    the word in front of it lie inside one new block of the heap, disjoint
    from the others, and as long as that word is not overwritten
    [rt_free_align] gives exactly this block back, whatever has been
    allocated and freed in between. *)
Theorem malloc_align_free s v size a :
  held (w_heap s) v -> 0 < size -> 2 <= a -> size + 2 ^ a + 6 < 2 ^ 32 ->
  wp (rt_malloc_align size (2 ^ a)) s (fun p s' =>
    (p = 0 /\ s' = s) \/
    exists r k, held (w_heap s') (<[r := k]> v) /\ v !! r = None /\
      p mod 2 ^ a = 0 /\ r <= p - 4 /\ p + size <= r + k /\ words s' !! (p - 4) = Some r /\
      forall s2 v2, held (w_heap s2) v2 -> v2 !! r = Some k -> words s2 !! (p - 4) = Some r ->
        wp (rt_free_align p) s2 (fun _ s3 => held (w_heap s3) (delete r v2))).
Proof.
  intros Hv Hs Ha Hmax. eapply wp_mono; [by apply malloc_align_wp|].
  intros p s' [?|(r & k & -> & Hw & Hk & Hn & Hv')]; [by left|right]. exists r, k.
  destruct (held_range _ _ r k Hv' ltac:(apply lookup_insert_eq)) as (Hr0 & _ & Hr4 & _).
  destruct (aligned_at_spec a r Ha Hr0 Hr4) as [Hal Hat].
  split_and!; [done|done|done|lia|lia|by rewrite Hw, lookup_insert_eq|].
  intros s2 v2 Hv2 Hr2 Hw2. eapply wp_mono; [by eapply free_align_wp|]. by intros [] s3 [? _].
Qed.

(** Allocate, or give up; free the block allocated last. *)
Lemma wp_malloc_or {B} h v n (N : M A B) (K : Z -> M A B) Q :
  held h v -> 0 < n -> n + 3 < 2 ^ 32 -> wp N h Q ->
  (forall p k h', 0 < p -> p + k <= 2 ^ 32 -> v !! p = None -> n <= k -> held h' (<[p := k]> v) -> wp (K p) h' Q) ->
  wp (p ← rt_malloc n; if p =? 0 then N else K p) h Q.
Proof.
  intros Hv H0 H1 HN HK. wp_step. eapply wp_mono; [by apply malloc_law|].
  intros p h' [[-> ->]|(k & Hk & Hnew & Hh')]; [done|].
  destruct (held_range _ _ p k Hh' (lookup_insert_eq _ _ _)) as (Hp & _ & _ & He).
  rewrite (proj2 (Z.eqb_neq p 0)) by lia. by apply (HK p k).
Qed.

Lemma wp_free_last h v p k (Q : unit -> A -> Prop) :
  held h (<[p := k]> v) -> v !! p = None -> (forall h', held h' v -> Q tt h') -> wp (rt_free p) h Q.
Proof.
  intros Hv Hp HQ. eapply wp_mono; [eapply free_law; [exact Hv|apply lookup_insert_eq]|].
  intros [] h' H. apply HQ. by rewrite delete_insert_id in H.
Qed.

(** A ring buffer from the heap: creation that fails gives everything back;
    otherwise the ring buffer is empty with the size rounded down, in two new
    blocks, and destroying it gives back exactly these. *)
Theorem ringbuffer_create_destroy h v junk size :
  held h v -> 4 <= size < 2 ^ 15 -> Z.of_nat (length junk) = size ->
  wp (rt_ringbuffer_create junk size) h (fun r h' =>
    match r with
    | None => held h' v
    | Some (rb, pool, b) =>
        Ring.holds b (size - size mod 4) [] /\
        (exists k k', v !! rb = None /\ v !! pool = None /\ rb <> pool /\ size - size mod 4 <= k' /\
           held h' (<[pool := k']> (<[rb := k]> v))) /\
        wp (rt_ringbuffer_destroy rb pool) h' (fun _ h2 => held h2 v)
    end).
Proof.
  intros Hv Hs Hj. unfold rt_ringbuffer_create.
  assert (Mem.RT_ALIGN_DOWN size Mem.RT_ALIGN_SIZE = size - size mod 4) as ->.
  { unfold Mem.RT_ALIGN_DOWN. change (Mem.RT_ALIGN_SIZE - 1) with 3. rewrite Mem.align4_down by lia.
    pose proof (Z.div_mod size 4). lia. }
  pose proof (Z.mod_pos_bound size 4 ltac:(lia)) as Hm.
  assert ((size - size mod 4) mod 4 = 0) as Hm4.
  { rewrite Zminus_mod_idemp_r, Z.sub_diag. done. }
  set (n := size - size mod 4) in *. assert (0 < n <= size) as Hn by (unfold n; lia). clearbody n.
  eapply wp_malloc_or; [exact Hv|done|done|by wp_steps|]. intros rb k h1 _ _ Hnr _ Hv1.
  eapply wp_malloc_or; [exact Hv1|lia|lia| |].
  { wp_step. eapply wp_free_last; [exact Hv1|done|]. intros h' H'. by wp_steps. }
  intros pool k' h2 _ _ Hnp Hk' Hv2. apply lookup_insert_None in Hnp as [Hnp Hne]. wp_step. split_and!.
  - pose proof (Ring.init_holds (take (Z.to_nat n) junk) n) as Hi. rewrite Hm4, Z.sub_0_r in Hi.
    apply Hi; [split; [pose proof (Z.div_mod n 4); lia|lia]|]. rewrite length_take. lia.
  - by exists k, k'.
  - unfold rt_ringbuffer_destroy. wp_step. eapply wp_free_last; [exact Hv2|by rewrite lookup_insert_ne|].
    intros h3 H3. by eapply wp_free_last.
Qed.

End Client.

(** ** Concrete runs *)

Lemma heap_a_held : held Mem.heap_a ∅.
Proof. exists [(188, false)]. split; [apply Mem.heap_a_inv|reflexivity]. Qed.

Lemma malloc_align_free_witness :
  exists p s' r, rt_malloc_align 20 (2 ^ 4) (mk_words Mem.heap_a ∅) = Some (p, s') /\ p = 4112 /\
    words s' !! (p - 4) = Some r /\ p mod 2 ^ 4 = 0.
Proof.
  destruct (proj1 (wp_Some _ _ _) (malloc_align_free (mk_words Mem.heap_a ∅) ∅ 20 4 heap_a_held
    ltac:(lia) ltac:(lia) ltac:(reflexivity))) as (p & s' & E & H).
  assert (fst <$> rt_malloc_align 20 (2 ^ 4) (mk_words Mem.heap_a ∅) = Some 4112) as E2
    by (vm_compute; reflexivity).
  rewrite E in E2. injection E2 as ->.
  destruct H as [[? _]|(r & k & _ & _ & Hm & _ & _ & Hw & _)]; [discriminate|].
  exists 4112, s', r. split_and!; [exact E|reflexivity|exact Hw|exact Hm].
Defined.

Lemma ringbuffer_create_destroy_witness :
  exists r h', rt_ringbuffer_create (replicate 10 0) 10 Mem.heap_a = Some (r, h').
Proof.
  destruct (proj1 (wp_Some _ _ _) (ringbuffer_create_destroy Mem.heap_a ∅ (replicate 10 0) 10 heap_a_held
    ltac:(lia) ltac:(reflexivity))) as (r & h' & E & _).
  exists r, h'. exact E.
Defined.

End Alloc.
