(* ===== verification/Rbb.v ===== *)
(** * Ring block buffers

    Model of [components/drivers/src/ringblk_buf.c]: a buffer cut into blocks
    of any size that are allocated, filled ("put"), read ("get") and freed,
    roughly in this order, without copying.  The descriptors are the array
    [blk_set]; the blocks in use are on a singly linked list of descriptors,
    of file Slist, in the order of allocation.  A descriptor is named by its
    index, its list node is [Some i], the head of the list is [None].

    The theorems show that programs that free what they allocated see disjoint
    blocks inside the buffer, in the order of allocation.  Taking several
    blocks at once with [rt_rbb_blk_queue_get] breaks this: see the end of the
    file. *)
From stdpp Require Import base list gmap.
From Stdlib Require Import ZArith Lia.
From S2P Require Import Prelude Slist SmallMem Alloc.

Module Rbb.
Import Slist Alloc.

Inductive rt_rbb_status := RT_RBB_BLK_UNUSED | RT_RBB_BLK_INITED | RT_RBB_BLK_PUT | RT_RBB_BLK_GET.
#[export] Instance rbb_status_eq_dec : EqDecision rt_rbb_status.
Proof. solve_decision. Defined.

Record rt_rbb_blk := mk_blk {
  status : rt_rbb_status;
  blk_sz : Z;                 (* size, 24 bits *)
  blk_ptr : Z                 (* buf *)
}.
Definition set_status (v : rt_rbb_status) (b : rt_rbb_blk) : rt_rbb_blk := mk_blk v (blk_sz b) (blk_ptr b).

Abbreviation node := (option nat).

Record rt_rbb := mk_rbb {
  rbb_ptr : Z;                (* buf *)
  buf_size : Z;
  blk_set : list rt_rbb_blk;
  blk_max_num : Z;
  blk_list : gmap node (option node)
}.
Definition set_blk_set v r := mk_rbb (rbb_ptr r) (buf_size r) v (blk_max_num r) (blk_list r).
Definition set_blk_list v r := mk_rbb (rbb_ptr r) (buf_size r) (blk_set r) (blk_max_num r) v.

Record rt_rbb_blk_queue := mk_queue { blocks : nat; blk_num : Z }.

Definition in_list {A} (m : M (gmap node (option node)) A) : M rt_rbb A := zoom blk_list set_blk_list m.
Definition get_blk (i : nat) : M rt_rbb rt_rbb_blk := s ← gets blk_set; deref (s !! i).
Definition upd_blk (i : nat) (f : rt_rbb_blk -> rt_rbb_blk) : M rt_rbb unit :=
  b ← get_blk i; modify (fun r => set_blk_set (<[i := f b]> (blk_set r)) r).

(** The loop of [rt_rbb_init] from descriptor [i] on, [n] rounds. *)
Fixpoint init_loop (n i : nat) : M rt_rbb unit :=
  match n with
  | O => mret tt
  | S n => upd_blk i (set_status RT_RBB_BLK_UNUSED);; init_loop n (S i)
  end.

(** [set] is the array of descriptors, with what its memory held before. *)
Definition rt_rbb_init (buf size : Z) (set : list rt_rbb_blk) (max : Z) : M rt_rbb unit :=
  modify (fun r => mk_rbb buf size set max (blk_list r));;
  in_list (rt_slist_init None);;
  init_loop (Z.to_nat max) 0.

Definition is_unused (b : rt_rbb_blk) : bool := bool_decide (status b = RT_RBB_BLK_UNUSED).

(** The loop of [find_empty_blk_in_set] from descriptor [i] on. *)
Fixpoint find_empty (n i : nat) : M rt_rbb (option nat) :=
  match n with
  | O => mret None
  | S n => b ← get_blk i; if is_unused b then mret (Some i) else find_empty n (S i)
  end.
Definition find_empty_blk_in_set : M rt_rbb (option nat) :=
  max ← gets blk_max_num; find_empty (Z.to_nat max) 0.

(** The new block [i] at [p]. *)
Definition add_block (i : nat) (p blk_size : Z) : M rt_rbb (option nat) :=
  in_list (rt_slist_append None (Some i));;
  upd_blk i (fun _ => mk_blk RT_RBB_BLK_INITED (uwrap 24 blk_size) p);;
  mret (Some i).

Definition rt_rbb_blk_alloc (blk_size : Z) : M rt_rbb (option nat) :=
  new_rbb ← find_empty_blk_in_set;
  len ← in_list (rt_slist_len None);
  r ← gets id;
  match new_rbb with
  | None => mret None
  | Some i =>
      if negb (len <? blk_max_num r) then mret None
      else if 0 <? len then
        h ← in_list (rt_slist_first None);
        h ← deref h; h ← deref h;
        head ← get_blk h;
        t ← in_list (rt_slist_tail None);
        t ← deref t;
        tail ← get_blk t;
        if blk_ptr head <=? blk_ptr tail then
          let empty1 := u32 ((rbb_ptr r + buf_size r) - (blk_ptr tail + blk_sz tail)) in
          let empty2 := u32 (blk_ptr head - rbb_ptr r) in
          if blk_size <=? empty1 then add_block i (blk_ptr tail + blk_sz tail) blk_size
          else if blk_size <=? empty2 then add_block i (rbb_ptr r) blk_size
          else mret None
        else
          let empty1 := u32 (blk_ptr head - (blk_ptr tail + blk_sz tail)) in
          if blk_size <=? empty1 then add_block i (blk_ptr tail + blk_sz tail) blk_size
          else mret None
      else add_block i (rbb_ptr r) blk_size
  end.

Definition rt_rbb_blk_put (i : nat) : M rt_rbb unit := upd_blk i (set_status RT_RBB_BLK_PUT).

(** The loop of [rt_rbb_blk_get]. *)
Fixpoint get_loop (fuel : nat) (nd : option node) : M rt_rbb (option nat) :=
  match nd with
  | None => mret None
  | Some nd =>
      match fuel with
      | O => fault
      | S fuel =>
          i ← deref nd;
          b ← get_blk i;
          if decide (status b = RT_RBB_BLK_PUT) then
            upd_blk i (set_status RT_RBB_BLK_GET);; mret (Some i)
          else nx ← in_list (rt_slist_next nd); get_loop fuel nx
      end
  end.

Definition rt_rbb_blk_get : M rt_rbb (option nat) :=
  empty ← in_list (rt_slist_isempty None);
  if empty : bool then mret None else
  nd ← in_list (rt_slist_first None);
  h ← gets blk_list;
  get_loop (size h) nd.

Definition rt_rbb_blk_size (i : nat) : M rt_rbb Z := b ← get_blk i; mret (blk_sz b).
Definition rt_rbb_blk_buf (i : nat) : M rt_rbb Z := b ← get_blk i; mret (blk_ptr b).

Definition rt_rbb_blk_free (i : nat) : M rt_rbb unit :=
  in_list (rt_slist_remove None (Some i));;
  upd_blk i (set_status RT_RBB_BLK_UNUSED).

(** The loop of [rt_rbb_blk_queue_get]; the result is [data_total_size]. *)
Fixpoint queue_get_loop (fuel : nat) (limit : Z) (nd : option node) (last : option nat) (total : Z)
    (q : rt_rbb_blk_queue) : M rt_rbb (Z * rt_rbb_blk_queue) :=
  match nd with
  | None => mret (total, q)
  | Some nd =>
      match fuel with
      | O => fault
      | S fuel =>
          i ← deref nd;
          b ← get_blk i;
          let take q :=
            in_list (rt_slist_remove None (Some i));;
            upd_blk i (set_status RT_RBB_BLK_GET);;
            nx ← in_list (rt_slist_next nd);
            queue_get_loop fuel limit nx (Some i) (u32 (total + blk_sz b)) (mk_queue (blocks q) (u32 (blk_num q + 1))) in
          match last with
          | None =>
              if decide (status b = RT_RBB_BLK_PUT) then take (mk_queue i 0)
              else nx ← in_list (rt_slist_next nd); queue_get_loop fuel limit nx None total q
          | Some l =>
              lb ← get_blk l;
              if negb (bool_decide (status b = RT_RBB_BLK_PUT)) || (blk_ptr b <? blk_ptr lb)
                 || (limit <? u32 (total + blk_sz b))
              then mret (total, q) else take q
          end
      end
  end.

Definition rt_rbb_blk_queue_get (queue_data_len : Z) (blk_queue : rt_rbb_blk_queue) : M rt_rbb (Z * rt_rbb_blk_queue) :=
  empty ← in_list (rt_slist_isempty None);
  if empty : bool then mret (0, blk_queue) else
  nd ← in_list (rt_slist_first None);
  h ← gets blk_list;
  queue_get_loop (size h) queue_data_len nd None 0 blk_queue.

Fixpoint queue_len_loop (n i : nat) (total : Z) : M rt_rbb Z :=
  match n with
  | O => mret total
  | S n => b ← get_blk i; queue_len_loop n (S i) (u32 (total + blk_sz b))
  end.
Definition rt_rbb_blk_queue_len (q : rt_rbb_blk_queue) : M rt_rbb Z :=
  queue_len_loop (Z.to_nat (blk_num q)) (blocks q) 0.

Definition rt_rbb_blk_queue_buf (q : rt_rbb_blk_queue) : M rt_rbb Z := b ← get_blk (blocks q); mret (blk_ptr b).

Fixpoint queue_free_loop (n i : nat) : M rt_rbb unit :=
  match n with
  | O => mret tt
  | S n => rt_rbb_blk_free i;; queue_free_loop n (S i)
  end.
Definition rt_rbb_blk_queue_free (q : rt_rbb_blk_queue) : M rt_rbb unit :=
  queue_free_loop (Z.to_nat (blk_num q)) (blocks q).

(** The loop of [rt_rbb_next_blk_queue_len]. *)
Fixpoint next_len_loop (fuel : nat) (nd : option node) (last : option nat) (len : Z) : M rt_rbb Z :=
  match nd with
  | None => mret len
  | Some nd =>
      match fuel with
      | O => fault
      | S fuel =>
          i ← deref nd;
          b ← get_blk i;
          let add := nx ← in_list (rt_slist_next nd); next_len_loop fuel nx (Some i) (u32 (len + blk_sz b)) in
          match last with
          | None =>
              if decide (status b = RT_RBB_BLK_PUT) then add
              else nx ← in_list (rt_slist_next nd); next_len_loop fuel nx None len
          | Some l =>
              lb ← get_blk l;
              if negb (bool_decide (status b = RT_RBB_BLK_PUT)) || (blk_ptr b <? blk_ptr lb)
              then mret len else add
          end
      end
  end.

Definition rt_rbb_next_blk_queue_len : M rt_rbb Z :=
  empty ← in_list (rt_slist_isempty None);
  if empty : bool then mret 0 else
  nd ← in_list (rt_slist_first None);
  h ← gets blk_list;
  next_len_loop (size h) nd None 0.

Definition rt_rbb_get_buf_size : M rt_rbb Z := gets buf_size.

(** ** The layout of the blocks *)

(** The blocks lie one behind the other between [lo] and [hi]. *)
Fixpoint asc (lo hi : Z) (bs : list rt_rbb_blk) : Prop :=
  match bs with
  | [] => lo <= hi
  | b :: bs => lo <= blk_ptr b /\ 0 < blk_sz b /\ asc (blk_ptr b + blk_sz b) hi bs
  end.

Definition inside (lo hi : Z) (b : rt_rbb_blk) : Prop :=
  lo <= blk_ptr b /\ 0 < blk_sz b /\ blk_ptr b + blk_sz b <= hi.
Definition disjoint_blks (b c : rt_rbb_blk) : Prop :=
  blk_ptr b + blk_sz b <= blk_ptr c \/ blk_ptr c + blk_sz c <= blk_ptr b.

Lemma asc_le lo hi bs : asc lo hi bs -> lo <= hi.
Proof. revert lo. induction bs as [|b bs IH]; intros lo; simpl; [done|]. intros (? & ? & H%IH). lia. Qed.

Lemma asc_mono lo lo' hi hi' bs : asc lo hi bs -> lo' <= lo -> hi <= hi' -> asc lo' hi' bs.
Proof.
  revert lo lo'. induction bs as [|b bs IH]; intros lo lo'; simpl; [lia|].
  intros (H1 & H2 & H3) ? ?. split; [lia|]. split; [done|]. apply (IH (blk_ptr b + blk_sz b)); [done|lia|done].
Qed.

Lemma asc_sublist lo hi bs cs : asc lo hi bs -> sublist cs bs -> asc lo hi cs.
Proof.
  intros Ha Hs. revert lo Ha. induction Hs as [|b cs bs Hs IH|b cs bs Hs IH]; intros lo; simpl; [done|..];
    intros (H1 & H2 & H3); [split_and!; [done|done|by apply IH]|].
  apply IH. eapply asc_mono; [exact H3|lia|lia].
Qed.

Lemma asc_inside lo hi bs b : asc lo hi bs -> b ∈ bs -> inside lo hi b.
Proof.
  revert lo. induction bs as [|c bs IH]; intros lo; simpl; [by intros _ ?%elem_of_nil|].
  intros (H1 & H2 & H3) [->|Hb]%elem_of_cons.
  - pose proof (asc_le _ _ _ H3). by split_and!.
  - destruct (IH _ H3 Hb) as (? & ? & ?). split_and!; [lia|done|done].
Qed.

Lemma asc_snoc lo hi bs b :
  asc lo hi bs -> hi <= blk_ptr b -> 0 < blk_sz b -> asc lo (blk_ptr b + blk_sz b) (bs ++ [b]).
Proof.
  revert lo. induction bs as [|c bs IH]; intros lo; simpl; [intros; split_and!; lia|].
  intros (H1 & H2 & H3) ? ?. split_and!; [done|done|by apply IH].
Qed.

(** Nothing lies behind the last block. *)
Lemma asc_tight lo hi bs t : asc lo hi bs -> last bs = Some t -> asc lo (blk_ptr t + blk_sz t) bs.
Proof.
  revert lo. induction bs as [|c [|d bs] IH]; intros lo; [done| |].
  - simpl. intros (H1 & H2 & H3) [= ->]. split_and!; [done|done|lia].
  - intros (H1 & H2 & H3) Hl. rewrite last_cons_cons in Hl. split_and!; [done|done|by apply IH].
Qed.

(** ... and nothing in front of the first. *)
Lemma asc_head lo hi b bs : asc lo hi (b :: bs) -> asc (blk_ptr b) hi (b :: bs).
Proof. simpl. intros (H1 & H2 & H3). by split_and!. Qed.

Definition same_place (b c : rt_rbb_blk) : Prop := blk_ptr c = blk_ptr b /\ blk_sz c = blk_sz b.

Lemma asc_ext lo hi bs cs : Forall2 same_place bs cs -> asc lo hi bs -> asc lo hi cs.
Proof.
  intros Hf. revert lo. induction Hf as [|b c bs cs [E1 E2] Hf IH]; intros lo; simpl; [done|].
  rewrite E1, E2. intros (H1 & H2 & H3). split_and!; [done|done|by apply IH].
Qed.

Lemma asc_pairs lo hi bs : asc lo hi bs -> ForallOrdPairs disjoint_blks bs.
Proof.
  revert lo. induction bs as [|b bs IH]; intros lo; simpl; [constructor|]. intros (H1 & H2 & H3).
  constructor; [|by eapply IH]. apply Forall_forall. intros c Hc. left.
  by destruct (asc_inside _ _ _ _ H3 Hc) as (? & ? & ?).
Qed.

(** The blocks in the order of their allocation: they fill the buffer [lo..hi]
    upwards from [m], and those that came after the end was reached lie below
    [m]. *)
Definition ringed (lo hi : Z) (bs : list rt_rbb_blk) : Prop :=
  exists m s1 s2, bs = s1 ++ s2 /\ (s1 = [] -> s2 = []) /\ asc lo m s2 /\ asc m hi s1.

Lemma ringed_inside lo hi bs b : ringed lo hi bs -> b ∈ bs -> inside lo hi b.
Proof.
  intros (m & s1 & s2 & -> & _ & H2 & H1) [Hb|Hb]%elem_of_app; [pose proof (asc_le _ _ _ H2)|pose proof (asc_le _ _ _ H1)].
  - destruct (asc_inside _ _ _ _ H1 Hb) as (? & ? & ?). split_and!; [lia|done|done].
  - destruct (asc_inside _ _ _ _ H2 Hb) as (? & ? & ?). split_and!; [done|done|lia].
Qed.

Lemma ringed_pairs lo hi bs : ringed lo hi bs -> ForallOrdPairs disjoint_blks bs.
Proof.
  intros (m & s1 & s2 & -> & _ & H2 & H1). pose proof (asc_pairs _ _ _ H2) as P2.
  revert m H1 H2. induction s1 as [|b s1 IH]; intros m H1 H2; [done|]. simpl in *. destruct H1 as (A1 & A2 & A3).
  constructor; [|apply (IH (blk_ptr b + blk_sz b)); [done|eapply asc_mono; [exact H2|lia|lia]]].
  apply Forall_app. split; apply Forall_forall; intros c Hc.
  - left. by destruct (asc_inside _ _ _ _ A3 Hc) as (? & ? & ?).
  - right. destruct (asc_inside _ _ _ _ H2 Hc) as (? & ? & ?). lia.
Qed.

Lemma ringed_sublist lo hi bs cs : ringed lo hi bs -> sublist cs bs -> ringed lo hi cs.
Proof.
  intros (m & s1 & s2 & -> & _ & H2 & H1) Hs. apply sublist_app_r in Hs as (c1 & c2 & -> & S1 & S2).
  pose proof (asc_sublist _ _ _ _ H1 S1) as H1'. pose proof (asc_sublist _ _ _ _ H2 S2) as H2'.
  pose proof (asc_le _ _ _ H1). destruct c1 as [|b c1].
  - exists lo, c2, []. rewrite app_nil_r. split_and!; [done|done|simpl; lia|]. eapply asc_mono; [done|lia|lia].
  - exists m, (b :: c1), c2. by split_and!.
Qed.

Lemma ringed_ext lo hi bs cs : Forall2 same_place bs cs -> ringed lo hi bs -> ringed lo hi cs.
Proof.
  intros Hf (m & s1 & s2 & -> & Hn & H2 & H1). apply Forall2_app_inv_l in Hf as (c1 & c2 & F1 & F2 & ->).
  exists m, c1, c2. split; [done|]. split; [|split; by eapply asc_ext].
  intros ->. apply Forall2_nil_inv_r in F1 as ->. rewrite Hn in F2 by done. by apply Forall2_nil_inv_l in F2.
Qed.

(** The order of the first and the last block tells whether the end of the
    buffer was passed. *)
Lemma ringed_straight lo hi bs h t :
  ringed lo hi bs -> head bs = Some h -> last bs = Some t -> blk_ptr h <= blk_ptr t -> asc lo hi bs.
Proof.
  intros (m & s1 & s2 & -> & Hn & H2 & H1) Hh Ht Hle. destruct s1 as [|b s1]; [by rewrite Hn in Hh|].
  simpl in Hh. injection Hh as ->. pose proof (asc_le _ _ _ H2).
  destruct s2 as [|c s2]; [rewrite app_nil_r; eapply asc_mono; [done|lia|lia]|].
  rewrite last_app_cons in Ht. assert (t ∈ c :: s2) as Hin by (by apply last_Some_elem_of).
  destruct (asc_inside _ _ _ _ H2 Hin) as (? & ? & ?). destruct H1 as (? & _). lia.
Qed.

Lemma ringed_wrapped lo hi bs h t :
  ringed lo hi bs -> head bs = Some h -> last bs = Some t -> blk_ptr t < blk_ptr h ->
  exists s1 s2, bs = s1 ++ s2 /\ s1 <> [] /\ asc lo (blk_ptr t + blk_sz t) s2 /\ asc (blk_ptr h) hi s1 /\
    blk_ptr t + blk_sz t <= blk_ptr h.
Proof.
  intros (m & s1 & s2 & -> & Hn & H2 & H1) Hh Ht Hlt. destruct s1 as [|b s1]; [by rewrite Hn in Hh|].
  simpl in Hh. injection Hh as ->. destruct s2 as [|c s2].
  - rewrite app_nil_r in Ht. assert (t ∈ h :: s1) as Hin by (by apply last_Some_elem_of).
    destruct H1 as (? & ? & H1). apply elem_of_cons in Hin as [->|Hin]; [lia|].
    destruct (asc_inside _ _ _ _ H1 Hin) as (? & ? & ?). lia.
  - rewrite last_app_cons in Ht. assert (t ∈ c :: s2) as Hin by (by apply last_Some_elem_of).
    destruct (asc_inside _ _ _ _ H2 Hin) as (? & ? & ?). destruct H1 as (? & ? & H1).
    exists (h :: s1), (c :: s2). split; [done|]. split; [done|]. split; [by eapply asc_tight|]. split; [by split_and!|lia].
Qed.

Lemma ringed_push_behind lo hi bs h t b :
  ringed lo hi bs -> head bs = Some h -> last bs = Some t -> blk_ptr h <= blk_ptr t ->
  blk_ptr b = blk_ptr t + blk_sz t -> 0 < blk_sz b -> blk_ptr b + blk_sz b <= hi -> ringed lo hi (bs ++ [b]).
Proof.
  intros Hr Hh Ht Hle Hp Hs He. pose proof (ringed_straight _ _ _ _ _ Hr Hh Ht Hle) as Ha.
  exists lo, (bs ++ [b]), []. rewrite app_nil_r. split_and!; [done|done|simpl; lia|].
  eapply asc_mono; [apply (asc_snoc lo (blk_ptr t + blk_sz t)); [by eapply asc_tight|lia|done]|lia|done].
Qed.

Lemma ringed_push_front lo hi bs h t b :
  ringed lo hi bs -> head bs = Some h -> last bs = Some t -> blk_ptr h <= blk_ptr t ->
  blk_ptr b = lo -> 0 < blk_sz b -> blk_ptr b + blk_sz b <= blk_ptr h -> ringed lo hi (bs ++ [b]).
Proof.
  intros Hr Hh Ht Hle Hp Hs He. pose proof (ringed_straight _ _ _ _ _ Hr Hh Ht Hle) as Ha.
  destruct bs as [|c bs]; [done|]. injection Hh as ->.
  exists (blk_ptr h), (h :: bs), [b]. split; [done|]. split; [done|]. split; [simpl; lia|by eapply asc_head].
Qed.

Lemma ringed_push_between lo hi bs h t b :
  ringed lo hi bs -> head bs = Some h -> last bs = Some t -> blk_ptr t < blk_ptr h ->
  blk_ptr b = blk_ptr t + blk_sz t -> 0 < blk_sz b -> blk_ptr b + blk_sz b <= blk_ptr h -> ringed lo hi (bs ++ [b]).
Proof.
  intros Hr Hh Ht Hlt Hp Hs He.
  destruct (ringed_wrapped _ _ _ _ _ Hr Hh Ht Hlt) as (s1 & s2 & -> & Hn & H2 & H1 & _).
  exists (blk_ptr h), s1, (s2 ++ [b]). rewrite app_assoc. split; [done|]. split; [by intros ?|]. split; [|done].
  eapply asc_mono; [eapply asc_snoc; [exact H2|lia|done]|lia|done].
Qed.

Lemma ringed_push_first lo hi b :
  blk_ptr b = lo -> 0 < blk_sz b -> blk_ptr b + blk_sz b <= hi -> ringed lo hi [b].
Proof. intros Hp Hs He. exists lo, [b], []. split; [done|]. split; [done|]. simpl. lia. Qed.

(** ** The abstract ring *)

(** The blocks in use with their descriptors, in the order of allocation. *)
Abbreviation ring_st := (list (nat * rt_rbb_blk)).

Definition mark (i : nat) (v : rt_rbb_status) (a : ring_st) : ring_st :=
  (fun e => (fst e, if decide (fst e = i) then set_status v (snd e) else snd e)) <$> a.

Record rbb_rel (r : rt_rbb) (a : ring_st) : Prop := {
  rr_list : slist (blk_list r) None (Some <$> a.*1);
  rr_blks : forall i b, (i, b) ∈ a -> blk_set r !! i = Some b;
  rr_used : forall i b, (i, b) ∈ a -> status b <> RT_RBB_BLK_UNUSED;
  rr_max : blk_max_num r = Z.of_nat (length (blk_set r)) /\ blk_max_num r < 2 ^ 32;
  rr_buf : 0 < rbb_ptr r /\ 0 <= buf_size r /\ rbb_ptr r + buf_size r <= 2 ^ 32;
  rr_ring : ringed (rbb_ptr r) (rbb_ptr r + buf_size r) a.*2
}.

Inductive rbb_op :=
| OAlloc (n : Z)
| OPut (i : nat)
| OGet
| OFree (i : nat).

Definition rbb_run (op : rbb_op) : M rt_rbb (option nat) :=
  match op with
  | OAlloc n => rt_rbb_blk_alloc n
  | OPut i => rt_rbb_blk_put i;; mret None
  | OGet => rt_rbb_blk_get
  | OFree i => rt_rbb_blk_free i;; mret None
  end.

(** What a program may do: blocks are not empty and at most as large as the
    buffer, and only blocks in use are put and freed. *)
Definition op_ok (r : rt_rbb) (a : ring_st) (op : rbb_op) : Prop :=
  match op with
  | OAlloc n => 0 < n <= buf_size r /\ n < 2 ^ 24
  | OPut i | OFree i => i ∈ a.*1
  | OGet => True
  end.

Definition is_put (e : nat * rt_rbb_blk) : bool := bool_decide (status (snd e) = RT_RBB_BLK_PUT).

Definition without (i : nat) (a : ring_st) : ring_st := filter (fun e => fst e <> i) a.

(** The oldest block that was put. *)
Definition first_put (a : ring_st) : option nat := fst <$> head (filter is_put a).

(** The places where a block is looked for. *)
Definition gaps (r : rt_rbb) (a : ring_st) : list Z :=
  match head a.*2, last a.*2 with
  | Some h, Some t =>
      if blk_ptr h <=? blk_ptr t
      then [rbb_ptr r + buf_size r - (blk_ptr t + blk_sz t); blk_ptr h - rbb_ptr r]
      else [blk_ptr h - (blk_ptr t + blk_sz t)]
  | _, _ => [buf_size r]
  end.

(** A queue of blocks: allocation appends a block that overlaps no other, or
    all descriptors are in use, or there is no room. *)
Inductive rbb_spec (r : rt_rbb) (a : ring_st) : rbb_op -> option nat -> ring_st -> Prop :=
| SAlloc n i p :
    i ∉ a.*1 -> inside (rbb_ptr r) (rbb_ptr r + buf_size r) (mk_blk RT_RBB_BLK_INITED n p) ->
    (forall b, b ∈ a.*2 -> disjoint_blks b (mk_blk RT_RBB_BLK_INITED n p)) ->
    rbb_spec r a (OAlloc n) (Some i) (a ++ [(i, mk_blk RT_RBB_BLK_INITED n p)])
| SFull n :
    (forall i b, blk_set r !! i = Some b -> status b <> RT_RBB_BLK_UNUSED) -> rbb_spec r a (OAlloc n) None a
| SNoRoom n : Forall (fun g => g < n) (gaps r a) -> rbb_spec r a (OAlloc n) None a
| SPut i : rbb_spec r a (OPut i) None (mark i RT_RBB_BLK_PUT a)
| SGet i : first_put a = Some i -> rbb_spec r a OGet (Some i) (mark i RT_RBB_BLK_GET a)
| SNone : first_put a = None -> rbb_spec r a OGet None a
| SFree i : rbb_spec r a (OFree i) None (without i a).

(** ** Symbolic execution *)

Lemma wp_in_list {A} (m : M (gmap node (option node)) A) r (Q : A -> rt_rbb -> Prop) :
  wp m (blk_list r) (fun x l => Q x (set_blk_list l r)) -> wp (in_list m) r Q.
Proof. exact (wp_zoom blk_list set_blk_list m r Q). Qed.
Lemma wp_get_blk i b r (Q : rt_rbb_blk -> rt_rbb -> Prop) : blk_set r !! i = Some b -> Q b r -> wp (get_blk i) r Q.
Proof. intros E HQ. unfold get_blk. wp_steps. by eapply wp_deref. Qed.
Lemma wp_upd_blk i b f r (Q : unit -> rt_rbb -> Prop) :
  blk_set r !! i = Some b -> Q tt (set_blk_set (<[i := f b]> (blk_set r)) r) -> wp (upd_blk i f) r Q.
Proof. intros E HQ. unfold upd_blk. wp_step. eapply wp_get_blk; [done|]. by wp_steps. Qed.
Lemma set_blk_list_id r : set_blk_list (blk_list r) r = r.
Proof. by destruct r. Qed.

Lemma rel_nodup r a : rbb_rel r a -> NoDup a.*1.
Proof. intros [[Hnd _] _ _ _ _ _]. apply NoDup_cons in Hnd as [_ Hnd]. by apply NoDup_fmap_1 in Hnd. Qed.

Lemma rel_size r a : rbb_rel r a -> (length a < size (blk_list r))%nat.
Proof. intros [Hl _ _ _ _ _]. apply slist_size in Hl. by rewrite !length_fmap in Hl. Qed.

Lemma fst_in i b (a : ring_st) : (i, b) ∈ a -> i ∈ a.*1.
Proof. intros H. apply list_elem_of_fmap. by exists (i, b). Qed.
Lemma in_fst i (a : ring_st) : i ∈ a.*1 -> exists b, (i, b) ∈ a.
Proof. intros ([j b] & -> & H)%list_elem_of_fmap. by exists b. Qed.
Lemma snd_in b (a : ring_st) : b ∈ a.*2 -> exists i, (i, b) ∈ a.
Proof. intros ([j c] & -> & H)%list_elem_of_fmap. by exists j. Qed.

(** Every block in use has a descriptor of its own. *)
Lemma indices_length {B} (l : list B) (js : list nat) :
  NoDup js -> (forall j, j ∈ js -> is_Some (l !! j)) -> (length js <= length l)%nat.
Proof.
  intros Hnd Hj. rewrite <- (length_seq (length l) 0). apply submseteq_length, NoDup_submseteq; [done|].
  intros j Hin. apply elem_of_seq. apply Hj, lookup_lt_is_Some in Hin. lia.
Qed.

Lemma rel_length r a : rbb_rel r a -> (length a <= length (blk_set r))%nat.
Proof.
  intros Hr. rewrite <- (length_fmap fst a). apply indices_length; [by eapply rel_nodup|].
  intros i (b & Hb)%in_fst. apply (rr_blks _ _ Hr) in Hb. by eexists.
Qed.

Lemma rel_fresh r a i b :
  rbb_rel r a -> blk_set r !! i = Some b -> status b = RT_RBB_BLK_UNUSED ->
  i ∉ a.*1 /\ (length a < length (blk_set r))%nat.
Proof.
  intros Hr Hi Hu. assert (i ∉ a.*1) as Hni.
  { intros (c & Hc)%in_fst. pose proof (rr_blks _ _ Hr _ _ Hc) as E. rewrite Hi in E. injection E as <-.
    by apply (rr_used _ _ Hr _ _ Hc). }
  split; [done|]. rewrite <- (length_fmap fst a). change (length (i :: a.*1) <= length (blk_set r))%nat.
  apply indices_length; [constructor; [done|by eapply rel_nodup]|].
  intros j [->|(c & Hc)%in_fst]%elem_of_cons; [by eexists|]. apply (rr_blks _ _ Hr) in Hc. by eexists.
Qed.

(** Changing the status of descriptor [i] to [v]. *)
Lemma rel_mark r a i b v :
  rbb_rel r a -> (i, b) ∈ a -> v <> RT_RBB_BLK_UNUSED ->
  rbb_rel (set_blk_set (<[i := set_status v b]> (blk_set r)) r) (mark i v a).
Proof.
  intros Hr Hb Hv. pose proof Hr as [Hl Hbs Hu [Hm1 Hm2] Hbuf Hring].
  assert ((mark i v a).*1 = a.*1) as E1 by (unfold mark; rewrite <- list_fmap_compose; done).
  assert (forall j c, (j, c) ∈ mark i v a -> exists c', (j, c') ∈ a /\
    c = if decide (j = i) then set_status v c' else c') as Hin.
  { intros j c Hc. unfold mark in Hc. apply list_elem_of_fmap in Hc as ([j' c'] & E & Hc). simpl in E. injection E as -> ->.
    by exists c'. }
  split; simpl; [by rewrite E1|..].
  - intros j c (c' & Hc & ->)%Hin. case_decide as Hd; [subst j|rewrite list_lookup_insert_ne by done; by apply Hbs].
    pose proof (Hbs _ _ Hc) as E. rewrite (Hbs _ _ Hb) in E. injection E as <-.
    apply list_lookup_insert_eq. apply (lookup_lt_Some _ _ _ (Hbs _ _ Hb)).
  - intros j c (c' & Hc & ->)%Hin. case_decide; [done|by eapply Hu].
  - by rewrite length_insert.
  - done.
  - eapply ringed_ext; [|exact Hring]. unfold mark. rewrite Forall2_fmap, Forall2_fmap_r.
    apply Forall_Forall2_diag, Forall_forall. intros [j c] _. simpl. by case_decide.
Qed.

(** The node behind a block leads to the next block. *)
Lemma rel_next r pre i b post :
  rbb_rel r (pre ++ (i, b) :: post) -> blk_list r !! Some i = Some (head (Some <$> post.*1)).
Proof.
  intros [[_ Hc] _ _ _ _ _]. revert Hc. rewrite fmap_app, fmap_app. cbn [fmap list_fmap fst]. generalize (None : node).
  induction pre as [|[j c] pre IH]; intros p; simpl; intros [_ Hc]; [by apply chain_next in Hc|by apply (IH _ Hc)].
Qed.

Lemma without_in i j c a : (j, c) ∈ without i a <-> j <> i /\ (j, c) ∈ a.
Proof. unfold without. by rewrite list_elem_of_filter. Qed.

Lemma without_split i b pre post :
  i ∉ pre.*1 -> i ∉ post.*1 -> without i (pre ++ (i, b) :: post) = pre ++ post.
Proof.
  assert (forall a : ring_st, i ∉ a.*1 -> without i a = a) as Hid.
  { intros a. induction a as [|[j c] a IH]; [done|]. simpl. rewrite not_elem_of_cons. intros [H1 H2].
    unfold without in *. rewrite filter_cons_True by (simpl; congruence). by rewrite IH. }
  intros H1 H2. unfold without. rewrite filter_app, filter_cons_False by (simpl; tauto).
  f_equal; by apply Hid.
Qed.

(** Unlinking block [i], whose descriptor may then change. *)
Lemma wp_unlink i b r a (Q : node -> rt_rbb -> Prop) :
  rbb_rel r a -> (i, b) ∈ a ->
  (forall x l', l' !! Some i = blk_list r !! Some i ->
     (forall c, rbb_rel (set_blk_set (<[i := c]> (blk_set r)) (set_blk_list l' r)) (without i a)) ->
     Q x (set_blk_list l' r)) ->
  wp (in_list (rt_slist_remove None (Some i))) r Q.
Proof.
  intros Hr Hb HQ. pose proof Hr as [Hl Hbs Hu [Hm1 Hm2] Hbuf Hring]. apply wp_in_list.
  eapply wp_slist_remove; [exact Hl|done|]. intros l' Hl' Hf. apply HQ; [apply Hf; by right|]. intros c. split; simpl.
  - assert (Some <$> (without i a).*1 = filter (fun x => x <> Some i) (Some <$> a.*1)) as ->; [|done].
    unfold without. clear. induction a as [|[j c] a IH]; [done|]. rewrite filter_cons. cbn [fmap list_fmap fst].
    rewrite filter_cons. destruct (decide (j = i)) as [->|Hne].
    + rewrite !decide_False by (by intros H; apply H). exact IH.
    + rewrite !decide_True by (simpl; congruence). simpl. by f_equal.
  - intros j d [Hji Hjd]%without_in. rewrite list_lookup_insert_ne by done. by apply Hbs.
  - intros j d [_ Hjd]%without_in. by eapply Hu.
  - by rewrite length_insert.
  - done.
  - eapply ringed_sublist; [exact Hring|]. unfold without. clear. induction a as [|[j d] a IH]; [done|].
    rewrite filter_cons. case_decide; simpl; [by apply sublist_skip|by apply sublist_cons].
Qed.

Lemma put_wp r a i :
  rbb_rel r a -> i ∈ a.*1 -> wp (rbb_run (OPut i)) r (fun out r' =>
    exists a', rbb_spec r a (OPut i) out a' /\ rbb_rel r' a').
Proof.
  intros Hr [b Hb]%in_fst. simpl. unfold rt_rbb_blk_put. wp_step. eapply wp_upd_blk; [by apply (rr_blks _ _ Hr)|].
  wp_step. exists (mark i RT_RBB_BLK_PUT a). split; [constructor|by apply rel_mark].
Qed.

Lemma free_wp r a i :
  rbb_rel r a -> i ∈ a.*1 -> wp (rbb_run (OFree i)) r (fun out r' =>
    exists a', rbb_spec r a (OFree i) out a' /\ rbb_rel r' a').
Proof.
  intros Hr [b Hb]%in_fst. simpl. unfold rt_rbb_blk_free. wp_step. wp_step. eapply wp_unlink; [done..|].
  intros x l' _ Hrel. eapply wp_upd_blk; [by apply (rr_blks _ _ Hr)|]. wp_step.
  exists (without i a). split; [constructor|apply Hrel].
Qed.

(** The search passes the blocks [pre], none of which was put. *)
Lemma get_loop_wp fuel r pre post a :
  rbb_rel r a -> a = pre ++ post -> filter is_put pre = [] -> (length post <= fuel)%nat ->
  wp (get_loop fuel (head (Some <$> post.*1))) r (fun out r' =>
    exists a', rbb_spec r a OGet out a' /\ rbb_rel r' a').
Proof.
  intros Hr. revert pre fuel. induction post as [|[i b] post IH]; intros pre fuel Ha Hpre Hf.
  - destruct fuel; simpl; wp_step; exists a; (split; [|done]); constructor; unfold first_put;
      by rewrite Ha, filter_app, Hpre.
  - destruct fuel as [|fuel]; [simpl in Hf; lia|]. simpl. wp_step. eapply wp_deref; [done|].
    assert ((i, b) ∈ a) as Hin by (subst a; set_solver).
    wp_step. eapply wp_get_blk; [by apply (rr_blks _ _ Hr)|]. case_decide as Hd.
    + wp_step. eapply wp_upd_blk; [by apply (rr_blks _ _ Hr)|]. wp_step. exists (mark i RT_RBB_BLK_GET a).
      split; [|by apply rel_mark]. constructor. unfold first_put. rewrite Ha, filter_app, Hpre, filter_cons_True; [done|].
      by apply bool_decide_pack.
    + wp_step. apply wp_in_list. assert (blk_list r !! Some i = Some (head (Some <$> post.*1))) as E
        by (apply (rel_next r pre i b); by rewrite <- Ha).
      eapply wp_get_next; [exact E|]. rewrite set_blk_list_id.
      apply (IH (pre ++ [(i, b)])); [by rewrite <- app_assoc| |simpl in Hf; lia].
      rewrite filter_app, Hpre, filter_cons_False; [done|]. by intros ?%bool_decide_unpack.
Qed.

Lemma get_wp r a :
  rbb_rel r a -> wp (rbb_run OGet) r (fun out r' => exists a', rbb_spec r a OGet out a' /\ rbb_rel r' a').
Proof.
  intros Hr. pose proof (rr_list _ _ Hr) as Hl. simpl. unfold rt_rbb_blk_get. wp_step. apply wp_in_list.
  eapply wp_slist_isempty; [exact Hl|]. rewrite set_blk_list_id. case_bool_decide as Hd.
  - wp_step. exists a. split; [|done]. constructor. by destruct a.
  - wp_step. apply wp_in_list. eapply wp_slist_first; [exact Hl|]. rewrite set_blk_list_id. wp_steps.
    apply (get_loop_wp _ r [] a); [done..|]. pose proof (rel_size _ _ Hr). lia.
Qed.

Lemma find_empty_wp n i r (Q : option nat -> rt_rbb -> Prop) :
  (i + n <= length (blk_set r))%nat ->
  (forall j b, blk_set r !! j = Some b -> status b = RT_RBB_BLK_UNUSED -> Q (Some j) r) ->
  ((forall j b, (i <= j < i + n)%nat -> blk_set r !! j = Some b -> status b <> RT_RBB_BLK_UNUSED) -> Q None r) ->
  wp (find_empty n i) r Q.
Proof.
  revert i. induction n as [|n IH]; intros i Hn HS HN; simpl; [wp_step; apply HN; lia|].
  destruct (lookup_lt_is_Some_2 (blk_set r) i) as [b Hb]; [lia|]. wp_step. eapply wp_get_blk; [done|].
  unfold is_unused. case_bool_decide as Hd; [wp_step; by eapply HS|]. apply IH; [lia|done|].
  intros Hu. apply HN. intros j c Hj Hc. destruct (decide (j = i)) as [->|]; [congruence|apply (Hu j); [lia|done]].
Qed.

Lemma add_block_wp n i p b0 r a :
  rbb_rel r a -> blk_set r !! i = Some b0 -> status b0 = RT_RBB_BLK_UNUSED -> 0 < n < 2 ^ 24 ->
  (let b := mk_blk RT_RBB_BLK_INITED n p in
   ringed (rbb_ptr r) (rbb_ptr r + buf_size r) (a.*2 ++ [b])) ->
  wp (add_block i p n) r (fun out r' =>
    exists a', rbb_spec r a (OAlloc n) out a' /\ rbb_rel r' a').
Proof.
  cbv zeta. intros Hr Hi Hu0 Hn Hring. pose proof Hr as [Hl Hbs Hu [Hm1 Hm2] Hbuf _].
  destruct (rel_fresh _ _ _ _ Hr Hi Hu0) as [Hni _].
  unfold add_block. wp_step. apply wp_in_list. eapply wp_slist_append; [exact Hl| |].
  { rewrite not_elem_of_cons. split; [done|]. intros (j & [= ->] & Hj)%list_elem_of_fmap. done. }
  intros l' Hl' _. wp_step. eapply wp_upd_blk; [exact Hi|]. wp_step. rewrite uwrap_small by c_lia.
  set (b := mk_blk RT_RBB_BLK_INITED n p) in *. exists (a ++ [(i, b)]). split.
  - constructor; [done| |].
    + apply (ringed_inside _ _ _ _ Hring). set_solver.
    + intros c Hc. apply ringed_pairs in Hring. clear -Hring Hc. induction a as [|[j d] a IH]; [by apply elem_of_nil in Hc|].
      simpl in *. inversion Hring as [|x xs Hx Hxs E]. subst. apply elem_of_cons in Hc as [->|Hc]; [|by apply IH].
      rewrite Forall_forall in Hx. apply Hx. set_solver.
  - assert (forall j c, (j, c) ∈ a ++ [(i, b)] -> j <> i /\ (j, c) ∈ a \/ j = i /\ c = b) as Hin.
    { intros j c [H|H]%elem_of_app; [left|right].
      - split; [intros ->; by apply Hni, (fst_in i c)|done].
      - apply list_elem_of_singleton in H. by injection H. }
    split; simpl.
    + by rewrite !fmap_app.
    + intros j c [[Hji Hj]|[-> ->]]%Hin; [rewrite list_lookup_insert_ne by done; by apply Hbs|].
      apply list_lookup_insert_eq, (lookup_lt_Some _ _ _ Hi).
    + intros j c [[_ Hj]|[-> ->]]%Hin; [by eapply Hu|done].
    + by rewrite length_insert.
    + done.
    + by rewrite fmap_app.
Qed.

Lemma blocks_of (a : ring_st) e1 e2 : a = e1 :: e2 -> exists h t, head a = Some h /\ last a = Some t /\
  head a.*2 = Some (snd h) /\ last a.*2 = Some (snd t) /\ h ∈ a /\ t ∈ a.
Proof.
  intros ->. destruct (last_is_Some (e1 :: e2)) as [_ [t Ht]]; [done|]. exists e1, t.
  rewrite fmap_last, Ht. split_and!; [done..| |by apply last_Some_elem_of]. set_solver.
Qed.

Lemma alloc_wp n r a :
  rbb_rel r a -> 0 < n <= buf_size r -> n < 2 ^ 24 -> wp (rbb_run (OAlloc n)) r (fun out r' =>
    exists a', rbb_spec r a (OAlloc n) out a' /\ rbb_rel r' a').
Proof.
  intros Hr Hn Hn24. pose proof Hr as [Hl Hbs Hu [Hm1 Hm2] (Hb1 & Hb2 & Hb3) Hring].
  pose proof (rel_length _ _ Hr) as Hlen. simpl. unfold rt_rbb_blk_alloc. wp_step. unfold find_empty_blk_in_set. wp_steps.
  apply find_empty_wp; [lia| |].
  2: { intros Hnone. wp_step. apply wp_in_list. eapply wp_slist_len; [exact Hl|rewrite !length_fmap; lia|].
    wp_steps. exists a. split; [|by destruct r]. apply SFull. intros i b Hi. apply (Hnone i); [|done].
    apply lookup_lt_Some in Hi. lia. }
  intros i b0 Hi Hu0. wp_step. apply wp_in_list. eapply wp_slist_len; [exact Hl|rewrite !length_fmap; lia|].
  rewrite set_blk_list_id, !length_fmap. destruct (rel_fresh _ _ _ _ Hr Hi Hu0) as [_ Hlt].
  wp_step. wp_step. change (id r) with r. rewrite (proj2 (Z.ltb_lt (Z.of_nat (length a)) (blk_max_num r))) by lia. cbn [negb].
  destruct a as [|e a'] eqn:Ea.
  { simpl. apply (add_block_wp _ _ _ b0); [done..|lia|]. apply ringed_push_first; simpl; lia. }
  rewrite <- Ea in *. destruct (blocks_of a e a' Ea) as (h & t & Eh & Et & Eh2 & Et2 & Hh & Ht).
  destruct h as [hi hb], t as [ti tb]. simpl in Eh2, Et2.
  destruct (ringed_inside _ _ _ hb Hring ltac:(by eapply head_Some_elem_of)) as (I1 & I2 & I3).
  destruct (ringed_inside _ _ _ tb Hring ltac:(by eapply last_Some_elem_of)) as (J1 & J2 & J3).
  assert (head (Some <$> a.*1) = Some (Some hi)) as Ehd by (clear -Eh; destruct a; [done|]; by injection Eh as ->).
  rewrite (proj2 (Z.ltb_lt 0 _)) by (rewrite Ea; simpl; lia).
  wp_step. apply wp_in_list. eapply wp_slist_first; [exact Hl|]. rewrite set_blk_list_id.
  wp_step. eapply wp_deref; [exact Ehd|]. wp_step. eapply wp_deref; [done|]. wp_step.
  eapply wp_get_blk; [exact (Hbs _ _ Hh)|]. wp_step. apply wp_in_list. eapply wp_slist_tail; [exact Hl|]. rewrite set_blk_list_id.
  assert (last_of None (Some <$> a.*1) = Some ti) as ->.
  { unfold last_of. by rewrite !fmap_last, Et. }
  wp_step. eapply wp_deref; [done|]. wp_step. eapply wp_get_blk; [exact (Hbs _ _ Ht)|].
  assert (forall p, (ringed (rbb_ptr r) (rbb_ptr r + buf_size r) (a.*2 ++ [mk_blk RT_RBB_BLK_INITED n p])) ->
    wp (add_block i p n) r (fun out r' => exists a', rbb_spec r a (OAlloc n) out a' /\ rbb_rel r' a')) as Hadd
    by (intros p Hp; apply (add_block_wp _ _ _ b0); [done|done|done|lia|done]).
  assert (Forall (fun g => g < n) (gaps r a) -> wp (mret None) r (fun out r' =>
    exists a', rbb_spec r a (OAlloc n) out a' /\ rbb_rel r' a')) as Hno
    by (intros Hg; wp_step; exists a; split; [by apply SNoRoom|done]).
  unfold gaps in Hno. rewrite Eh2, Et2 in Hno.
  destruct (Z.leb_spec (blk_ptr hb) (blk_ptr tb)) as [Hle|Hgt].
  - rewrite !(uwrap_small 32) by c_lia. destruct (Z.leb_spec n (rbb_ptr r + buf_size r - (blk_ptr tb + blk_sz tb))) as [G1|G1].
    { apply Hadd. eapply ringed_push_behind; try done; simpl; lia. }
    destruct (Z.leb_spec n (blk_ptr hb - rbb_ptr r)) as [G2|G2].
    { apply Hadd. eapply ringed_push_front; try done; simpl; lia. }
    apply Hno. repeat constructor; lia.
  - destruct (ringed_wrapped _ _ _ _ _ Hring Eh2 Et2 Hgt) as (_ & _ & _ & _ & _ & _ & Hbelow).
    rewrite (uwrap_small 32) by c_lia. destruct (Z.leb_spec n (blk_ptr hb - (blk_ptr tb + blk_sz tb))) as [G1|G1].
    { apply Hadd. eapply ringed_push_between; try done; simpl; lia. }
    apply Hno. repeat constructor; lia.
Qed.

(** ** Programs that use a ring block buffer *)

Theorem rbb_step_refines r a op :
  rbb_rel r a -> op_ok r a op ->
  wp (rbb_run op) r (fun out r' => exists a', rbb_spec r a op out a' /\ rbb_rel r' a').
Proof.
  destruct op as [n|i| |i]; intros Hr Hok; [|by apply put_wp|by apply get_wp|by apply free_wp].
  apply alloc_wp; [done|apply Hok|apply Hok].
Qed.

(** The blocks in use, read off the list. *)
Definition in_use (r : rt_rbb) : ring_st :=
  omap (fun nd => i ← nd; b ← blk_set r !! i; Some (i, b)) (nodes_of (blk_list r) None).

Lemma in_use_rel r a : rbb_rel r a -> in_use r = a.
Proof.
  intros [Hl Hbs _ _ _ _]. unfold in_use. rewrite (nodes_of_slist _ _ _ Hl). clear Hl.
  induction a as [|[i b] a IH]; [done|]. cbn [fmap list_fmap fst omap list_omap]. simpl.
  rewrite (Hbs i b) by set_solver. simpl. f_equal. apply IH. intros j c Hj. apply Hbs. set_solver.
Qed.

Lemma init_loop_wp n i r (Q : unit -> rt_rbb -> Prop) :
  (i + n = length (blk_set r))%nat ->
  (forall s, length s = length (blk_set r) -> Q tt (set_blk_set s r)) -> wp (init_loop n i) r Q.
Proof.
  revert i r. induction n as [|n IH]; intros i r Hn HQ; simpl.
  - wp_step. replace r with (set_blk_set (blk_set r) r) by (by destruct r). by apply HQ.
  - destruct (lookup_lt_is_Some_2 (blk_set r) i) as [b Hb]; [lia|]. wp_step. eapply wp_upd_blk; [done|].
    apply IH; [simpl; rewrite length_insert; lia|]. simpl. intros s Hs. rewrite length_insert in Hs. by apply (HQ s).
Qed.

Lemma init_wp buf size set max r :
  0 < buf -> 0 <= size -> buf + size <= 2 ^ 32 -> max = Z.of_nat (length set) -> max < 2 ^ 32 ->
  wp (rt_rbb_init buf size set max) r (fun _ r' => rbb_rel r' [] /\ buf_size r' = size /\ rbb_ptr r' = buf).
Proof.
  intros H1 H2 H3 H4 H5. unfold rt_rbb_init. wp_step. wp_step. wp_step. apply wp_in_list. unfold rt_slist_init. wp_step.
  apply init_loop_wp; [simpl; lia|]. intros s Hs. simpl in Hs. split; [|done]. split; simpl.
  - apply slist_init.
  - by intros i b ?%elem_of_nil.
  - by intros i b ?%elem_of_nil.
  - rewrite Hs. done.
  - done.
  - exists buf, [], []. split_and!; [done|done|simpl; lia|simpl; lia].
Qed.

(** [rbb_client r]: a program brought a ring block buffer from its
    initialisation to [r]. *)
Inductive rbb_client : rt_rbb -> Prop :=
| CInit buf size set max r0 r :
    0 < buf -> 0 <= size -> buf + size <= 2 ^ 32 -> max = Z.of_nat (length set) -> max < 2 ^ 32 ->
    rt_rbb_init buf size set max r0 = Some (tt, r) -> rbb_client r
| CStep r op out r' :
    rbb_client r -> op_ok r (in_use r) op -> rbb_run op r = Some (out, r') -> rbb_client r'.

Lemma client_rel r : rbb_client r -> rbb_rel r (in_use r).
Proof.
  induction 1 as [buf size set max r0 r H1 H2 H3 H4 H5 E|r op out r' _ IH Hok E].
  - pose proof (init_wp buf size set max r0 H1 H2 H3 H4 H5) as W. rewrite wp_Some in W.
    destruct W as ([] & r1 & E1 & Hr & _). rewrite E in E1. injection E1 as <-. by rewrite (in_use_rel _ _ Hr).
  - pose proof (rbb_step_refines r _ op IH Hok) as W. rewrite wp_Some in W.
    destruct W as (o1 & r1 & E1 & a' & _ & Hr). rewrite E in E1. injection E1 as <- <-. by rewrite (in_use_rel _ _ Hr).
Qed.

(** C19. For every program over a ring block buffer that allocates blocks of at
    most the size of the buffer and puts and frees only blocks in use: the
    blocks in use lie inside the buffer and are pairwise disjoint, and every
    further such call returns and does what the queue of blocks in the order
    of allocation says: an allocation appends a disjoint block, or all
    descriptors are in use, or no gap is large enough; [rt_rbb_blk_get] takes
    the oldest block that was put. *)
Theorem rbb_client_safe r :
  rbb_client r ->
  NoDup (in_use r).*1 /\
  Forall (inside (rbb_ptr r) (rbb_ptr r + buf_size r)) (in_use r).*2 /\
  ForallOrdPairs disjoint_blks (in_use r).*2 /\
  forall op, op_ok r (in_use r) op -> wp (rbb_run op) r (fun out r' => rbb_spec r (in_use r) op out (in_use r')).
Proof.
  intros Hr%client_rel. pose proof (rr_ring _ _ Hr) as Hring. split; [by eapply rel_nodup|]. split; [|split].
  - apply Forall_forall. intros b Hb. by eapply ringed_inside.
  - by eapply ringed_pairs.
  - intros op Hok. eapply wp_mono; [by apply rbb_step_refines|]. intros out r' (a' & Hs & Hr'). by rewrite (in_use_rel _ _ Hr').
Qed.

(** ** Taking several blocks at once *)

(** The further blocks of a queue after the block [l], up to [limit] bytes. *)
Fixpoint span (limit : Z) (l : rt_rbb_blk) (total : Z) (a : ring_st) : ring_st :=
  match a with
  | [] => []
  | e :: a =>
      if is_put e && (blk_ptr l <=? blk_ptr (snd e)) && (total + blk_sz (snd e) <=? limit)
      then e :: span limit (snd e) (total + blk_sz (snd e)) a
      else []
  end.

(** The next queue: from the oldest block that was put on. *)
Fixpoint next_queue (limit : Z) (a : ring_st) : ring_st :=
  match a with
  | [] => []
  | e :: a => if is_put e then e :: span limit (snd e) (blk_sz (snd e)) a else next_queue limit a
  end.

Definition total_size (a : ring_st) : Z := foldr (fun e n => blk_sz (snd e) + n) 0 a.

Lemma total_size_app a b : total_size (a ++ b) = total_size a + total_size b.
Proof. induction a as [|e a IH]; simpl; lia. Qed.

Lemma asc_total lo hi (a : ring_st) : asc lo hi a.*2 -> 0 <= total_size a <= hi - lo.
Proof.
  revert lo. induction a as [|e a IH]; intros lo; simpl; [lia|]. intros (H1 & H2 & H3%IH). lia.
Qed.

Lemma ringed_total lo hi (a : ring_st) : ringed lo hi a.*2 -> 0 <= total_size a <= hi - lo.
Proof.
  intros (m & s1 & s2 & E & _ & H2 & H1). apply fmap_app_inv in E as (a1 & a2 & -> & -> & ->).
  apply asc_total in H1, H2. rewrite total_size_app. lia.
Qed.

Lemma sublist_snd (a b : ring_st) : sublist a b -> sublist a.*2 b.*2.
Proof. induction 1; simpl; by constructor. Qed.

Lemma rel_tail r pre i b post :
  rbb_rel r (pre ++ (i, b) :: post) -> 0 < blk_sz b /\ 0 <= total_size post.
Proof.
  intros Hr. pose proof (rr_ring _ _ Hr) as Hring. split.
  - apply (ringed_inside _ _ _ b Hring), list_elem_of_fmap. exists (i, b). set_solver.
  - eapply ringed_total, ringed_sublist; [exact Hring|]. apply sublist_snd, sublist_inserts_l, sublist_cons. done.
Qed.

(** One block of the queue is taken: it leaves the list and is marked. *)
Lemma wp_take {A} r pre i b post (K : option node -> M rt_rbb A) (Q : A -> rt_rbb -> Prop) :
  rbb_rel r (pre ++ (i, b) :: post) ->
  (forall r', rbb_rel r' (pre ++ post) -> blk_set r' = <[i := set_status RT_RBB_BLK_GET b]> (blk_set r) ->
     wp (K (head (Some <$> post.*1))) r' Q) ->
  wp (in_list (rt_slist_remove None (Some i));; upd_blk i (set_status RT_RBB_BLK_GET);;
      nx ← in_list (rt_slist_next (Some i)); K nx) r Q.
Proof.
  intros Hr HQ. pose proof (rel_next _ _ _ _ _ Hr) as Hn. pose proof (rel_nodup _ _ Hr) as Hnd.
  assert ((i, b) ∈ pre ++ (i, b) :: post) as Hin by set_solver.
  wp_step. eapply wp_unlink; [exact Hr|exact Hin|]. intros x l' Hl' Hrel. wp_step.
  eapply wp_upd_blk; [by apply (rr_blks _ _ Hr)|]. wp_step. apply wp_in_list.
  eapply wp_get_next; [simpl; by rewrite Hl', Hn|]. apply HQ; [|done].
  specialize (Hrel (set_status RT_RBB_BLK_GET b)). rewrite fmap_app in Hnd. cbn [fmap list_fmap fst] in Hnd.
  apply NoDup_app in Hnd as (N1 & N2 & N3). apply NoDup_cons in N3 as [N3 _].
  rewrite without_split in Hrel; [exact Hrel| |done]. intros Hi. by apply (N2 i Hi), list_elem_of_here.
Qed.

(** The descriptors after taking the blocks [t]. *)
Definition taken (t : ring_st) (s : list rt_rbb_blk) : list rt_rbb_blk :=
  foldl (fun s e => <[fst e := set_status RT_RBB_BLK_GET (snd e)]> s) s t.

Lemma queue_loop_wp fuel limit r pre post l lb total q (Q : Z * rt_rbb_blk_queue -> rt_rbb -> Prop) :
  rbb_rel r (pre ++ post) -> (exists lb', blk_set r !! l = Some lb' /\ blk_ptr lb' = blk_ptr lb) -> (length post <= fuel)%nat ->
  0 <= total -> total + total_size post < 2 ^ 32 -> 0 <= blk_num q -> blk_num q + Z.of_nat (length post) < 2 ^ 32 ->
  (forall r', let t := span limit lb total post in
     rbb_rel r' (pre ++ drop (length t) post) -> blk_set r' = taken t (blk_set r) ->
     Q (total + total_size t, mk_queue (blocks q) (blk_num q + Z.of_nat (length t))) r') ->
  wp (queue_get_loop fuel limit (head (Some <$> post.*1)) (Some l) total q) r Q.
Proof.
  revert r l lb total q fuel Q. induction post as [|[i b] post IH]; intros r l lb total q fuel Q Hr Hl Hf H0 Ht Hq0 Hq HQ.
  - destruct fuel; simpl; wp_step; specialize (HQ r Hr eq_refl); simpl in HQ; rewrite !Z.add_0_r in HQ; by destruct q.
  - destruct fuel as [|fuel]; [simpl in Hf; lia|]. simpl. wp_step. eapply wp_deref; [done|].
    pose proof (rr_blks _ _ Hr i b ltac:(set_solver)) as Hi. wp_step. eapply wp_get_blk; [exact Hi|]. wp_step.
    destruct Hl as (lb' & Hl & Elb). eapply wp_get_blk; [exact Hl|]. rewrite Elb. simpl in HQ, Ht, Hq.
    destruct (rel_tail _ _ _ _ _ Hr) as [Hs Hp]. rewrite !(uwrap_small 32 (total + blk_sz b)) by c_lia.
    assert (span limit lb total ((i, b) :: post) = [] -> wp (mret (total, q)) r Q) as Hstop.
    { simpl. intros E. rewrite E in HQ. wp_step. specialize (HQ r Hr eq_refl). simpl in HQ. rewrite !Z.add_0_r in HQ. by destruct q. }
    simpl in Hstop. assert (is_put (i, b) = bool_decide (status b = RT_RBB_BLK_PUT)) as Eput by done.
    rewrite Eput in HQ, Hstop. clear Eput. rewrite !Z.ltb_antisym.
    case_bool_decide as Hd; cbn [negb orb andb] in *; [|by apply Hstop].
    destruct (Z.leb_spec (blk_ptr lb) (blk_ptr b)) as [G1|G1]; cbn [negb orb andb] in *; [|by apply Hstop].
    destruct (Z.leb_spec (total + blk_sz b) limit) as [G2|G2]; cbn [negb orb andb] in *; [|by apply Hstop].
    apply (wp_take r pre i b post); [exact Hr|]. intros r1 Hr1 E1. rewrite (uwrap_small 32 (blk_num q + 1)) by c_lia.
    apply (IH r1 i b).
    + exact Hr1.
    + exists (set_status RT_RBB_BLK_GET b). split; [|done]. rewrite E1. apply list_lookup_insert_eq. by eapply lookup_lt_Some.
    + simpl in Hf. lia.
    + lia.
    + lia.
    + simpl. lia.
    + simpl. lia.
    + intros r' Hr' E'. specialize (HQ r' Hr'). simpl in HQ. rewrite E', E1 in HQ. specialize (HQ eq_refl).
      simpl. rewrite <- !Z.add_assoc. replace (1 + Z.of_nat (length (span limit b (total + blk_sz b) post)))
        with (Z.of_nat (S (length (span limit b (total + blk_sz b) post)))) by lia. exact HQ.
Qed.

(** What is left of the blocks in use. *)
Fixpoint after_queue (limit : Z) (a : ring_st) : ring_st :=
  match a with
  | [] => []
  | e :: a => if is_put e then drop (length (span limit (snd e) (blk_sz (snd e)) a)) a else e :: after_queue limit a
  end.

Definition queue_result (q : rt_rbb_blk_queue) (t : ring_st) : rt_rbb_blk_queue :=
  match t with [] => q | e :: _ => mk_queue (fst e) (Z.of_nat (length t)) end.

Lemma queue_skip_wp fuel limit r pre post q (Q : Z * rt_rbb_blk_queue -> rt_rbb -> Prop) :
  rbb_rel r (pre ++ post) -> (length post <= fuel)%nat -> total_size post < 2 ^ 32 -> Z.of_nat (length post) < 2 ^ 32 ->
  (forall r', let t := next_queue limit post in
     rbb_rel r' (pre ++ after_queue limit post) -> blk_set r' = taken t (blk_set r) -> Q (total_size t, queue_result q t) r') ->
  wp (queue_get_loop fuel limit (head (Some <$> post.*1)) None 0 q) r Q.
Proof.
  revert pre fuel. induction post as [|[i b] post IH]; intros pre fuel Hr Hf Ht Hq HQ.
  - destruct fuel; simpl; wp_step; by apply (HQ r).
  - destruct fuel as [|fuel]; [simpl in Hf; lia|]. simpl. wp_step. eapply wp_deref; [done|].
    pose proof (rr_blks _ _ Hr i b ltac:(set_solver)) as Hi. wp_step. eapply wp_get_blk; [exact Hi|].
    destruct (rel_tail _ _ _ _ _ Hr) as [Hs Hp]. simpl in HQ, Ht, Hq.
    assert (is_put (i, b) = bool_decide (status b = RT_RBB_BLK_PUT)) as Eput by done. rewrite Eput in HQ. clear Eput.
    destruct (decide (status b = RT_RBB_BLK_PUT)) as [Hd|Hd].
    + rewrite bool_decide_eq_true_2 in HQ by done. apply (wp_take r pre i b post); [exact Hr|]. intros r1 Hr1 E1.
      rewrite !uwrap_small by c_lia. rewrite !Z.add_0_l. apply (queue_loop_wp fuel limit r1 pre post i b).
      * exact Hr1.
      * exists (set_status RT_RBB_BLK_GET b). split; [|done]. rewrite E1. apply list_lookup_insert_eq. by eapply lookup_lt_Some.
      * simpl in Hf. lia.
      * lia.
      * lia.
      * done.
      * simpl. lia.
      * intros r' t Hr' E'. specialize (HQ r' Hr'). rewrite E', E1 in HQ. specialize (HQ eq_refl). simpl in *.
        fold t in HQ. by replace (1 + Z.of_nat (length t)) with (Z.of_nat (S (length t))) by lia.
    + rewrite bool_decide_eq_false_2 in HQ by done. wp_step. apply wp_in_list.
      eapply wp_get_next; [by eapply rel_next|]. rewrite set_blk_list_id.
      apply (IH (pre ++ [(i, b)])); [by rewrite <- app_assoc|simpl in Hf; lia|lia|lia|]. intros r' t Hr' E'.
      apply HQ; [by rewrite <- app_assoc in Hr'|done].
Qed.

Lemma next_loop_wp fuel r pre post l lb total (Q : Z -> rt_rbb -> Prop) :
  rbb_rel r (pre ++ post) -> blk_set r !! l = Some lb -> (length post <= fuel)%nat ->
  0 <= total -> total + total_size post < 2 ^ 32 ->
  Q (total + total_size (span (2 ^ 32) lb total post)) r ->
  wp (next_len_loop fuel (head (Some <$> post.*1)) (Some l) total) r Q.
Proof.
  revert pre l lb total fuel. induction post as [|[i b] post IH]; intros pre l lb total fuel Hr Hl Hf H0 Ht HQ.
  - destruct fuel; simpl; wp_step; simpl in HQ; by rewrite Z.add_0_r in HQ.
  - destruct fuel as [|fuel]; [simpl in Hf; lia|]. simpl. wp_step. eapply wp_deref; [done|].
    pose proof (rr_blks _ _ Hr i b ltac:(set_solver)) as Hi. wp_step. eapply wp_get_blk; [exact Hi|]. wp_step.
    eapply wp_get_blk; [exact Hl|]. simpl in HQ, Ht. destruct (rel_tail _ _ _ _ _ Hr) as [Hs Hp].
    assert (is_put (i, b) = bool_decide (status b = RT_RBB_BLK_PUT)) as Eput by done. rewrite Eput in HQ. clear Eput.
    rewrite (proj2 (Z.leb_le (total + blk_sz b) (2 ^ 32))) in HQ by lia. rewrite !Z.ltb_antisym.
    case_bool_decide as Hd; cbn [negb orb andb] in *; [|wp_step; by rewrite Z.add_0_r in HQ].
    destruct (Z.leb_spec (blk_ptr lb) (blk_ptr b)) as [G1|G1]; cbn [negb orb andb] in *; [|wp_step; by rewrite Z.add_0_r in HQ].
    wp_step. apply wp_in_list. eapply wp_get_next; [by eapply rel_next|]. rewrite set_blk_list_id, uwrap_small by c_lia.
    apply (IH (pre ++ [(i, b)]) i b); [by rewrite <- app_assoc|done|simpl in Hf; lia|lia|lia|]. simpl in HQ.
    by rewrite <- Z.add_assoc.
Qed.

Lemma next_skip_wp fuel r pre post (Q : Z -> rt_rbb -> Prop) :
  rbb_rel r (pre ++ post) -> (length post <= fuel)%nat -> total_size post < 2 ^ 32 ->
  Q (total_size (next_queue (2 ^ 32) post)) r ->
  wp (next_len_loop fuel (head (Some <$> post.*1)) None 0) r Q.
Proof.
  revert pre fuel. induction post as [|[i b] post IH]; intros pre fuel Hr Hf Ht HQ.
  - destruct fuel; simpl; by wp_step.
  - destruct fuel as [|fuel]; [simpl in Hf; lia|]. simpl. wp_step. eapply wp_deref; [done|].
    pose proof (rr_blks _ _ Hr i b ltac:(set_solver)) as Hi. wp_step. eapply wp_get_blk; [exact Hi|].
    simpl in HQ, Ht. destruct (rel_tail _ _ _ _ _ Hr) as [Hs Hp].
    assert (is_put (i, b) = bool_decide (status b = RT_RBB_BLK_PUT)) as Eput by done. rewrite Eput in HQ. clear Eput.
    destruct (decide (status b = RT_RBB_BLK_PUT)) as [Hd|Hd]; wp_step; apply wp_in_list; (eapply wp_get_next; [by eapply rel_next|]); rewrite set_blk_list_id.
    + rewrite bool_decide_eq_true_2 in HQ by done. rewrite uwrap_small by c_lia. rewrite Z.add_0_l.
      apply (next_loop_wp fuel r (pre ++ [(i, b)]) post i b); [by rewrite <- app_assoc|done|simpl in Hf; lia|lia|lia|exact HQ].
    + rewrite bool_decide_eq_false_2 in HQ by done.
      apply (IH (pre ++ [(i, b)])); [by rewrite <- app_assoc|simpl in Hf; lia|lia|done].
Qed.

Lemma rel_bounds r a : rbb_rel r a -> 0 <= total_size a < 2 ^ 32 /\ Z.of_nat (length a) < 2 ^ 32.
Proof.
  intros Hr. pose proof (ringed_total _ _ _ (rr_ring _ _ Hr)). pose proof (rel_length _ _ Hr).
  destruct (rr_max _ _ Hr), (rr_buf _ _ Hr) as (? & ? & ?). lia.
Qed.

(** [rt_rbb_next_blk_queue_len] changes nothing and returns exactly what
    [rt_rbb_blk_queue_get] without a limit would; with a limit,
    [rt_rbb_blk_queue_get] terminates, takes the reference queue: the oldest
    block that was put and its successors as long as they were put, lie
    upwards and fit the limit together, and leaves the rest in order.  The
    blocks taken are marked and off the list. *)
Theorem rbb_queue_exact limit q r :
  rbb_client r ->
  rt_rbb_next_blk_queue_len r = Some (total_size (next_queue (2 ^ 32) (in_use r)), r) /\
  wp (rt_rbb_blk_queue_get limit q) r (fun res r' =>
    let t := next_queue limit (in_use r) in
    res = (total_size t, queue_result q t) /\ in_use r' = after_queue limit (in_use r) /\
    blk_set r' = taken t (blk_set r)).
Proof.
  intros Hr%client_rel. destruct (rel_bounds _ _ Hr) as [[_ Ht] Hn]. pose proof (rel_size _ _ Hr) as Hsz.
  pose proof (rr_list _ _ Hr) as Hl. split.
  - assert (wp rt_rbb_next_blk_queue_len r (fun n r' => n = total_size (next_queue (2 ^ 32) (in_use r)) /\ r' = r)) as W.
    { unfold rt_rbb_next_blk_queue_len. wp_step. apply wp_in_list. eapply wp_slist_isempty; [exact Hl|].
      rewrite set_blk_list_id. case_bool_decide as Hd.
      - wp_step. split; [|done]. by destruct (in_use r).
      - wp_step. apply wp_in_list. eapply wp_slist_first; [exact Hl|]. rewrite set_blk_list_id. wp_steps.
        apply (next_skip_wp _ r [] (in_use r)); [done|lia|done|done]. }
    apply wp_Some in W as (n & r' & E & -> & ->). exact E.
  - unfold rt_rbb_blk_queue_get. wp_step. apply wp_in_list. eapply wp_slist_isempty; [exact Hl|].
    rewrite set_blk_list_id. case_bool_decide as Hd.
    + wp_step. destruct (in_use r) eqn:E; [|done]. split; [done|]. done.
    + wp_step. apply wp_in_list. eapply wp_slist_first; [exact Hl|]. rewrite set_blk_list_id. wp_steps.
      apply (queue_skip_wp _ limit r [] (in_use r)); [done|lia|done|done|]. intros r' t Hr' E'.
      split; [done|]. split; [by apply in_use_rel|done].
Qed.

(** ** Ring block buffers from the heap *)

Definition SIZEOF_RBB : Z := 20.
Definition SIZEOF_BLK : Z := 12.

Section Heap.
Context {A : Type} {AA : Allocator A}.

(** The addresses of the object and of the descriptors, and the object; [junk]
    is what the memory of the descriptors held. *)
Definition rt_rbb_create (junk : list rt_rbb_blk) (bufsz max : Z) : M A (option (Z * Z * rt_rbb)) :=
  rbb ← rt_malloc SIZEOF_RBB;
  if rbb =? 0 then mret None else
  buf ← rt_malloc bufsz;
  if buf =? 0 then rt_free rbb;; mret None else
  set ← rt_malloc (u32 (SIZEOF_BLK * max));
  if set =? 0 then rt_free buf;; rt_free rbb;; mret None else
  r ← deref (rt_rbb_init buf bufsz junk max (mk_rbb 0 0 [] 0 ∅));
  mret (Some (rbb, set, snd r)).

Definition rt_rbb_destroy (rbb set : Z) (r : rt_rbb) : M A unit :=
  rt_free (rbb_ptr r);; rt_free set;; rt_free rbb.

Context {AL : AllocatorLaws A}.

(** Creation takes three blocks or none, and the new ring block buffer is
    empty; destroying it, whatever a program did with it, gives exactly the
    three blocks back. *)
Theorem rbb_create_destroy h v junk bufsz max :
  held h v -> 0 < bufsz -> bufsz + 3 < 2 ^ 32 -> 0 < max -> SIZEOF_BLK * max + 3 < 2 ^ 32 -> max = Z.of_nat (length junk) ->
  wp (rt_rbb_create junk bufsz max) h (fun res h' =>
    match res with
    | None => held h' v
    | Some (rbb, set, r) => rbb_client r /\ buf_size r = bufsz /\ in_use r = [] /\
        forall r', rbb_ptr r' = rbb_ptr r -> wp (rt_rbb_destroy rbb set r') h' (fun _ h2 => held h2 v)
    end).
Proof.
  intros Hv Hb Hb3 Hm Hm3 Hj. unfold rt_rbb_create, SIZEOF_RBB, SIZEOF_BLK in *.
  eapply wp_malloc_or; [exact Hv|lia|c_lia|by wp_steps|]. intros rbb k1 h1 P1 _ N1 _ H1.
  eapply wp_malloc_or; [exact H1|lia|lia| |].
  { wp_step. eapply wp_free_last; [exact H1|done|]. intros h' H'. by wp_steps. }
  intros buf k2 h2 P2 E2 N2 K2 H2. rewrite uwrap_small by c_lia.
  eapply wp_malloc_or; [exact H2|lia|lia| |].
  { wp_step. eapply wp_free_last; [exact H2|done|]. intros h' H'. wp_step.
    eapply wp_free_last; [exact H'|done|]. intros h3 H3. by wp_steps. }
  intros set k3 h3 P3 _ N3 _ H3.
  pose proof (init_wp buf bufsz junk max (mk_rbb 0 0 [] 0 ∅) P2 ltac:(lia) ltac:(lia) Hj ltac:(lia)) as W.
  apply wp_Some in W as ([] & r & E & Hr & Es & Ep). wp_step. eapply wp_deref; [exact E|]. wp_step.
  split; [eapply (CInit buf bufsz junk max); [..|exact E]; lia|]. split; [done|]. split; [by apply in_use_rel|].
  intros r' Er. simpl in Er. unfold rt_rbb_destroy. rewrite Er, Ep.
  apply lookup_insert_None in N2 as [N2 D21]. apply lookup_insert_None in N3 as [N3 D32].
  apply lookup_insert_None in N3 as [N3 D31].
  rewrite (insert_insert_ne _ set buf) in H3 by done. wp_step.
  eapply wp_free_last; [exact H3|by rewrite !lookup_insert_ne by done|]. intros h4 H4. wp_step.
  eapply wp_free_last; [exact H4|by rewrite lookup_insert_ne by done|]. intros h5 H5.
  by eapply wp_free_last.
Qed.
End Heap.

(** ** Concrete runs *)

Definition demo_set : list rt_rbb_blk := replicate 4 (mk_blk RT_RBB_BLK_GET 77 77).
Definition demo_rbb : rt_rbb :=
  match rt_rbb_init 4096 32 demo_set 4 (mk_rbb 0 0 [] 0 ∅) with Some (_, r) => r | None => mk_rbb 0 0 [] 0 ∅ end.

Lemma demo_rbb_client : rbb_client demo_rbb.
Proof.
  apply (CInit 4096 32 demo_set 4 (mk_rbb 0 0 [] 0 ∅)); [lia|lia|c_lia|done|c_lia|]. vm_compute. reflexivity.
Qed.

Lemma rbb_client_safe_witness :
  wp (rbb_run (OAlloc 8)) demo_rbb (fun out r' => rbb_spec demo_rbb [] (OAlloc 8) out (in_use r')).
Proof.
  destruct (rbb_client_safe demo_rbb demo_rbb_client) as (_ & _ & _ & H).
  apply (H (OAlloc 8)). vm_compute. done.
Defined.

Lemma rbb_queue_exact_witness :
  rt_rbb_next_blk_queue_len demo_rbb = Some (0, demo_rbb) /\
  exists r', rt_rbb_blk_queue_get 100 (mk_queue 0 0) demo_rbb = Some ((0, mk_queue 0 0), r').
Proof.
  destruct (rbb_queue_exact 100 (mk_queue 0 0) demo_rbb demo_rbb_client) as (H1 & H2). split; [exact H1|].
  destruct (proj1 (wp_Some _ _ _) H2) as (res & r' & E & -> & _). exists r'. exact E.
Defined.

Lemma rbb_create_destroy_witness :
  exists rbb set r h', rt_rbb_create (replicate 2 (mk_blk RT_RBB_BLK_PUT 0 0)) 16 2 Mem.heap_a = Some (Some (rbb, set, r), h').
Proof.
  destruct (proj1 (wp_Some _ _ _) (rbb_create_destroy Mem.heap_a ∅ (replicate 2 (mk_blk RT_RBB_BLK_PUT 0 0)) 16 2 heap_a_held
    ltac:(lia) ltac:(lia) ltac:(lia) ltac:(unfold SIZEOF_BLK; lia) ltac:(done))) as (res & h' & E & _).
  destruct res as [[[rbb set] r]|]; [|vm_compute in E; discriminate E]. by exists rbb, set, r, h'.
Defined.

(** ** What the code does not mean to do *)

(** An empty ring block buffer gives out blocks larger than its buffer. *)
Example rbb_alloc_oversize :
  buf_size demo_rbb = 32 /\ fst <$> (i ← rt_rbb_blk_alloc 100; i ← deref i; rt_rbb_blk_size i) demo_rbb = Some 100.
Proof. vm_compute. done. Qed.

(** The blocks of a queue are off the list, so their memory is given out again
    while the queue is in use. *)
Example rbb_queue_overlaps :
  fst <$> (i ← rt_rbb_blk_alloc 16; i ← deref i; _ ← rt_rbb_blk_put i;
   q ← rt_rbb_blk_queue_get 100 (mk_queue 0 0); p ← rt_rbb_blk_queue_buf (snd q);
   j ← rt_rbb_blk_alloc 8; j ← deref j; p' ← rt_rbb_blk_buf j; mret (fst q, p, p')) demo_rbb = Some (16, 4096, 4096).
Proof. vm_compute. reflexivity. Qed.

(** A queue is read as consecutive descriptors, but the list order is another
    once a descriptor was used again: the queue has 16 bytes, of which
    [rt_rbb_blk_queue_len] finds 8 and then what a free descriptor holds. *)
Example rbb_queue_wrong_blocks :
  fst <$> (_ ← rt_rbb_blk_alloc 8; _ ← rt_rbb_blk_alloc 8; _ ← rt_rbb_blk_put 0; _ ← rt_rbb_blk_put 1;
   _ ← rt_rbb_blk_get; _ ← rt_rbb_blk_free 0; _ ← rt_rbb_blk_alloc 8; _ ← rt_rbb_blk_put 0;
   q ← rt_rbb_blk_queue_get 100 (mk_queue 0 0); n ← rt_rbb_blk_queue_len (snd q); mret (q, n)) demo_rbb
  = Some ((16, mk_queue 1 2), 85).
Proof. vm_compute. reflexivity. Qed.

End Rbb.
