(* ===== verification/Mempool.v ===== *)
(** * Memory pools

    Model of [rt-thread/src/mempool.c]: pools of blocks of one size.  In front
    of each block is a word that links the free blocks and, while the block
    is in use, points to its pool.  Pointers are addresses, 0 the null
    pointer; the address of the pool [o] is [Z.pos o].  The words are in the
    map [words]; [rt_mp_init] faults when it writes outside the memory it was
    given.

    [rt_mp_alloc] waits in a loop: one round with the code after it is
    [mp_alloc_round], the code from the return of [rt_schedule] to the next
    round is [rt_mp_alloc_resumed].  The hooks are null pointers, as they are
    until an application sets them. *)
From stdpp Require Import base list gmap sorting.
From Stdlib Require Import ZArith Lia.
From S2P Require Import Prelude Scheduler Object Timer Thread Ipc Mailbox Errno SmallMem.

Module Mempool.
Import Sched Obj Thr Ipc Mailbox Errno.

Record rt_mempool := mk_mp {
  start_address : Z;
  mp_size : Z;
  block_size : Z;
  block_list : Z;
  block_total_count : Z;
  block_free_count : Z
}.

Definition set_block_list (v : Z) (p : rt_mempool) : rt_mempool :=
  mk_mp (start_address p) (mp_size p) (block_size p) v (block_total_count p) (block_free_count p).
Definition set_free_count (v : Z) (p : rt_mempool) : rt_mempool :=
  mk_mp (start_address p) (mp_size p) (block_size p) (block_list p) (block_total_count p) v.

Record mp_st := mk_mp_st {
  m_sys : errno_st;
  pools : gmap oid rt_mempool;
  words : gmap Z Z
}.
Notation m_ipc s := (fst (m_sys s)).
Notation m_sched s := (i_sched (m_ipc s)).

Definition set_m_sys (v : errno_st) (s : mp_st) : mp_st := mk_mp_st v (pools s) (words s).
Definition set_m_ipc (i : ipc) (s : mp_st) : mp_st := set_m_sys (i, snd (m_sys s)) s.
Definition set_pools (v : gmap oid rt_mempool) (s : mp_st) : mp_st := mk_mp_st (m_sys s) v (words s).
Definition set_words (v : gmap Z Z) (s : mp_st) : mp_st := mk_mp_st (m_sys s) (pools s) v.

Definition in_ipc {A} (m : M ipc A) : M mp_st A := zoom (fun s => m_ipc s) set_m_ipc m.

Definition get_pool (o : oid) : M mp_st rt_mempool := m ← gets pools; deref (m !! o).
Definition put_pool (o : oid) (p : rt_mempool) : M mp_st unit :=
  modify (fun s => set_pools (<[o := p]> (pools s)) s).
Definition load_word (a : Z) : M mp_st Z := w ← gets words; deref (w !! a).
Definition store_word (a x : Z) : M mp_st unit :=
  modify (fun s => set_words (<[a := x]> (words s)) s).

(** A store into the memory of [size] bytes at [start]. *)
Definition store_in (start size a x : Z) : M mp_st unit :=
  if (start <=? a) && (a + 4 <=? start + size) then store_word a x else fault.

(** The loop of [rt_mp_init] from [offset] on, [n] rounds. *)
Fixpoint mp_link_blocks (start size stride : Z) (n : nat) (offset : Z) : M mp_st unit :=
  match n with
  | O => mret tt
  | S n =>
      store_in start size (u32 (start + u32 (offset * stride)))
        (u32 (start + u32 ((offset + 1) * stride)));;
      mp_link_blocks start size stride n (offset + 1)
  end.

(** The size of the word in front of a block. *)
Definition SIZEOF_PTR : Z := 4.

Definition rt_mp_init (mp : oid) (nm : list Z) (start size bsize : Z) : M mp_st Z :=
  in_ipc (in_kernel (rt_object_init (Obj mp) RT_Object_Class_MemPool nm));;
  let size := Mem.RT_ALIGN_DOWN size Mem.RT_ALIGN_SIZE in
  let bsize := Mem.RT_ALIGN bsize Mem.RT_ALIGN_SIZE in
  let stride := u32 (bsize + SIZEOF_PTR) in
  if stride =? 0 then fault else
  let total := size / stride in
  in_ipc (in_kernel (in_sched (tlist_init (LSusp mp))));;
  mp_link_blocks start size stride (Z.to_nat total) 0;;
  store_in start size (u32 (start + u32 (u32 (total - 1) * stride))) 0;;
  put_pool mp (mk_mp start size bsize start total total);;
  mret RT_EOK.

(** Both [rt_mp_detach] and [rt_mp_delete] wake the waiting threads with
    [-RT_ERROR] as [rt_ipc_list_resume_all] does. *)
Definition rt_mp_detach (fuel : nat) (mp : oid) : M mp_st Z :=
  in_ipc (in_kernel (rt_ipc_list_resume_all fuel (LSusp mp)));;
  in_ipc (in_kernel (in_obj (rt_object_detach (Obj mp))));;
  mret RT_EOK.

Section Wait.
Context (timer_thread : oid).

(** Suspend the thread in front of the others, with a timeout when [time] is
    positive, and give up the processor; the result is [before_sleep]. *)
Definition wait_front (l : lhead) (thread : oid) (time : Z) : M ipc Z :=
  in_kernel (rt_thread_suspend thread);;
  in_kernel (in_sched (tlist_insert_after l thread));;
  before_sleep ← (if 0 <? time then in_kernel rt_tick_get else mret 0);
  when (0 <? time) (in_kernel (start_thread_timer timer_thread thread time));;
  schedule;;
  mret before_sleep.

(** [rt_mp_alloc], from the test of the loop on. *)
Definition mp_alloc_round (mp : oid) (thread : option oid) (time : Z) : M mp_st (outcome mb_wait Z) :=
  p ← get_pool mp;
  if block_free_count p =? 0 then
    if time =? 0 then
      zoom m_sys set_m_sys (rt_set_errno (- RT_ETIMEOUT));;
      mret (Returned 0)
    else
      thread ← deref thread;
      in_ipc (reset_error thread RT_EOK);;
      before_sleep ← in_ipc (wait_front (LSusp mp) thread time);
      mret (Waiting (mk_mb_wait thread time before_sleep))
  else
    let p := set_free_count (block_free_count p - 1) p in
    let block_ptr := block_list p in
    next ← load_word block_ptr;
    put_pool mp (set_block_list next p);;
    store_word block_ptr (Z.pos mp);;
    mret (Returned (block_ptr + SIZEOF_PTR)).

Definition rt_mp_alloc (mp : oid) (time : Z) : M mp_st (outcome mb_wait Z) :=
  thread ← in_ipc (in_kernel (in_sched rt_thread_self));
  mp_alloc_round mp thread time.

Definition rt_mp_alloc_resumed (mp : oid) (w : mb_wait) : M mp_st (outcome mb_wait Z) :=
  e ← in_ipc (thread_error (mw_thread w));
  if negb (e =? RT_EOK) then mret (Returned 0)
  else
    now ← in_ipc (in_kernel rt_tick_get);
    mp_alloc_round mp (Some (mw_thread w)) (left_timeout (mw_timeout w) (mw_tick_delta w) now).

End Wait.

(** The pool a header word points to. *)
Definition pool_of (x : Z) : option oid := match x with Z.pos o => Some o | _ => None end.

Definition rt_mp_free (block : Z) : M mp_st unit :=
  if block =? 0 then mret tt else
  let block_ptr := block - SIZEOF_PTR in
  x ← load_word block_ptr;
  mp ← deref (pool_of x);
  p ← get_pool mp;
  store_word block_ptr (block_list p);;
  put_pool mp (set_block_list block_ptr (set_free_count (u32 (block_free_count p + 1)) p));;
  waiter ← in_ipc (has_waiter (LSusp mp));
  when waiter
    (xs ← in_ipc (in_kernel (in_sched (get_list (LSusp mp))));
     thread ← deref (head xs);
     in_ipc (reset_error thread RT_EOK);;
     in_ipc (in_kernel (rt_thread_resume thread));;
     in_ipc schedule).

(** ** Symbolic execution *)

Lemma wp_mp_ipc {A} (m : M ipc A) s (Q : A -> mp_st -> Prop) :
  wp m (m_ipc s) (fun a i => Q a (set_m_ipc i s)) -> wp (in_ipc m) s Q.
Proof. exact (wp_zoom (fun s => m_ipc s) set_m_ipc m s Q). Qed.

Lemma set_m_ipc_id s : set_m_ipc (m_ipc s) s = s.
Proof. by destruct s as [[] ? ?]. Qed.

Lemma wp_get_pool o p s (Q : rt_mempool -> mp_st -> Prop) :
  pools s !! o = Some p -> Q p s -> wp (get_pool o) s Q.
Proof. intros H HQ. unfold get_pool. wp_steps. by eapply wp_deref. Qed.

Lemma wp_load_word a x s (Q : Z -> mp_st -> Prop) :
  words s !! a = Some x -> Q x s -> wp (load_word a) s Q.
Proof. intros H HQ. unfold load_word. wp_steps. by eapply wp_deref. Qed.

Lemma wp_store_in start size a x s (Q : unit -> mp_st -> Prop) :
  start <= a -> a + 4 <= start + size -> Q tt (set_words (<[a := x]> (words s)) s) ->
  wp (store_in start size a x) s Q.
Proof.
  intros H1 H2 HQ. unfold store_in. rewrite (proj2 (Z.leb_le _ _) H1), (proj2 (Z.leb_le _ _) H2). exact HQ.
Qed.

(** Suspending the running thread in front of a queue. *)
Lemma suspended_front l c ch tm xs k :
  kinv k -> is_wait l -> tlists (k_sched k) !! l = Some xs -> threads (k_sched k) !! c = Some ch ->
  stat_of ch = RT_THREAD_RUNNING -> Tmr.timers (k_timer k) !! ThreadTimer c = Some tm ->
  tlists (k_sched (suspended_k c ch tm k)) !! l = Some xs /\ kinv (queued_k l c ch tm [] xs k).
Proof.
  intros Hk Hw Hl Hc Est Htm.
  assert (prio_ok ch) as Hpr by (apply (started_prio k c ch); [done|done|stats|stats]).
  pose proof (running_not_listed k c ch l Hk Hc Est) as Hni. rewrite (members_Some _ _ _ Hl) in Hni.
  pose proof (suspended_lists_id c ch (k_sched k) l xs Hni Hl) as Hl1. split; [exact Hl1|].
  apply (kinv_placed l c (with_stat RT_THREAD_SUSPEND ch) [] xs).
  - by apply kinv_suspended.
  - done.
  - exact Hl1.
  - by rewrite suspended_k_threads, lookup_insert_eq.
  - by apply stat_of_with_stat.
  - apply suspended_not_attached.
Qed.

Section Waiting.
Context (timer_thread : oid).

Lemma wait_front_spec l c ch time xs i (Q : Z -> ipc -> Prop) :
  kinv (i_kernel i) -> is_wait l -> tlists (i_sched i) !! l = Some xs -> runs i c ch ->
  (forall k', waits l c ch (c :: xs) time (i_kernel i) k' ->
     Q (if 0 <? time then rt_tick (i_kernel i) else 0) (set_i_kernel k' i)) ->
  wp (wait_front timer_thread l c time) i Q.
Proof.
  intros Hk Hw Hl (Hcur & Hc & Est) HQ. unfold wait_front.
  destruct (thread_timer_of _ c ch Hk Hc) as (tm & Htm & _).
  destruct (suspended_front l c ch tm xs _ Hk Hw Hl Hc Est Htm) as [Hl1 Hk1].
  wp_step. apply wp_in_kernel. apply (wp_thread_suspend c ch tm); [done|done|by right|done|].
  wp_step. apply wp_in_kernel, wp_in_sched, wp_tlist_insert_after; [exists xs; exact Hl1|apply suspended_not_attached|].
  match goal with |- wp _ ?st _ =>
    replace st with (set_i_kernel (queued_k l c ch tm [] xs (i_kernel i)) i) end.
  2: { pose proof (members_Some _ _ _ Hl1) as E. unfold prepended_st, queued_k, placed_st. simpl in *. by rewrite E. }
  assert (wp (if 0 <? time then in_kernel rt_tick_get else mret 0)
    (set_i_kernel (queued_k l c ch tm [] xs (i_kernel i)) i) (fun b i' =>
      b = (if 0 <? time then rt_tick (i_kernel i) else 0) /\
      i' = set_i_kernel (queued_k l c ch tm [] xs (i_kernel i)) i)) as Hb.
  { destruct (0 <? time); [by apply wp_tick|by apply wp_ret]. }
  wp_step. eapply wp_mono; [exact Hb|]. intros b i' [-> ->].
  assert (wp (when (0 <? time) (in_kernel (start_thread_timer timer_thread c time));; schedule)
    (set_i_kernel (queued_k l c ch tm [] xs (i_kernel i)) i)
    (fun _ i' => Q (if 0 <? time then rt_tick (i_kernel i) else 0) i')) as Hr.
  { by apply (wait_rest_spec timer_thread l c ch tm [] xs). }
  apply wp_bind_inv in Hr. wp_step. eapply wp_mono; [exact Hr|]. intros [] i1 H1.
  wp_step. eapply wp_mono; [exact H1|]. intros [] i2 H2. by wp_steps.
Qed.
End Waiting.

(** ** The free blocks *)

(** The words [w] link the blocks [fs] from [b] on. *)
Fixpoint free_chain (w : gmap Z Z) (b : Z) (fs : list Z) : Prop :=
  match fs with
  | [] => b = 0
  | x :: fs => b = x /\ exists next, w !! x = Some next /\ free_chain w next fs
  end.

Lemma free_chain_frame w a x b fs :
  a ∉ fs -> free_chain w b fs -> free_chain (<[a := x]> w) b fs.
Proof.
  revert b. induction fs as [|y fs IH]; intros b Hn; simpl; [done|].
  intros (-> & next & Hy & Hc). split; [done|]. exists next.
  rewrite lookup_insert_ne by set_solver. split; [done|]. apply IH; [set_solver|done].
Qed.

(** The addresses of the header words. *)
Definition mp_slot (p : rt_mempool) (i : nat) : Z :=
  start_address p + Z.of_nat i * (block_size p + 4).
Definition slots (p : rt_mempool) : list Z := mp_slot p <$> seq 0 (Z.to_nat (block_total_count p)).

Record geometry (p : rt_mempool) : Prop := {
  ge_start : 0 < start_address p;
  ge_block : 0 < block_size p /\ block_size p mod 4 = 0;
  ge_total : 0 < block_total_count p;
  ge_fits : block_total_count p * (block_size p + 4) <= mp_size p;
  ge_end : start_address p + mp_size p <= 2 ^ 32
}.

Lemma elem_of_slots p b :
  b ∈ slots p <-> exists i, (i < Z.to_nat (block_total_count p))%nat /\ b = mp_slot p i.
Proof.
  unfold slots. rewrite list_elem_of_fmap. setoid_rewrite elem_of_seq. split.
  - intros (i & -> & Hi). exists i. split; [lia|done].
  - intros (i & Hi & ->). exists i. split; [done|lia].
Qed.

Lemma slot_range p b : geometry p -> b ∈ slots p ->
  start_address p <= b /\ b + 4 + block_size p <= start_address p + mp_size p.
Proof.
  intros [? [? ?] ? ? ?] (i & Hi & ->)%elem_of_slots. unfold mp_slot.
  pose proof (Z.mul_le_mono_nonneg_r (Z.of_nat i + 1) (block_total_count p) (block_size p + 4)). lia.
Qed.

(** Blocks keep the alignment of the pool's memory. *)
Lemma slot_aligned p b : geometry p -> b ∈ slots p -> (b - start_address p) mod 4 = 0.
Proof.
  intros [? [_ Hm] ? ? ?] (i & _ & ->)%elem_of_slots. unfold mp_slot.
  apply Z.mod_divide in Hm as [m Hm]; [|lia]. rewrite Hm. apply Z.mod_divide; [lia|].
  exists (Z.of_nat i * (m + 1)). lia.
Qed.

Lemma slot_disjoint p b b' : geometry p -> b ∈ slots p -> b' ∈ slots p -> b < b' ->
  b + 4 + block_size p <= b'.
Proof.
  intros [? [? ?] ? ? ?] (i & Hi & ->)%elem_of_slots (j & Hj & ->)%elem_of_slots. unfold mp_slot.
  intros Hlt. assert (Z.of_nat i < Z.of_nat j) by (apply (Z.mul_lt_mono_pos_r (block_size p + 4)); lia).
  pose proof (Z.mul_le_mono_nonneg_r (Z.of_nat i + 1) (Z.of_nat j) (block_size p + 4)). lia.
Qed.

Lemma length_slots p : length (slots p) = Z.to_nat (block_total_count p).
Proof. unfold slots. by rewrite length_fmap, length_seq. Qed.

Lemma NoDup_slots p : geometry p -> NoDup (slots p).
Proof.
  intros [? [? ?] ? ? ?]. unfold slots. apply NoDup_fmap_2_strong; [|apply NoDup_seq].
  intros i j _ _. unfold mp_slot. intros E.
  apply Nat2Z.inj, (Z.mul_reg_r _ _ (block_size p + 4)); lia.
Qed.

(** Pool [o] with the free blocks [fs], in the order they will be given out. *)
Record pool_ok (o : oid) (p : rt_mempool) (w : gmap Z Z) (fs : list Z) : Prop := {
  po_geometry : geometry p;
  po_chain : free_chain w (block_list p) fs;
  po_nodup : NoDup fs;
  po_slots : forall b, b ∈ fs -> b ∈ slots p;
  po_count : block_free_count p = Z.of_nat (length fs);
  po_taken : forall b, b ∈ slots p -> b ∉ fs -> w !! b = Some (Z.pos o)
}.

Lemma pool_ok_count o p w fs : pool_ok o p w fs -> (length fs <= length (slots p))%nat.
Proof. intros H. apply NoDup_incl_length; [apply NoDup_ListNoDup, (po_nodup _ _ _ _ H)|].
  intros b Hb. apply list_elem_of_In, (po_slots _ _ _ _ H), list_elem_of_In, Hb. Qed.

(** Taking the first free block. *)
Lemma pool_ok_take o p w b fs :
  pool_ok o p w (b :: fs) ->
  block_list p = b /\ exists next, w !! b = Some next /\
    pool_ok o (set_block_list next (set_free_count (block_free_count p - 1) p)) (<[b := Z.pos o]> w) fs.
Proof.
  intros [Hg (Eb & next & Hn & Hc) Hnd Hs Hct Ht]. apply NoDup_cons in Hnd as [Hb Hnd].
  split; [done|]. exists next. split; [done|]. split; simpl.
  - by destruct Hg; split.
  - by apply free_chain_frame.
  - done.
  - intros x Hx. apply Hs. by right.
  - simpl in Hct. lia.
  - intros x Hx Hnx. destruct (decide (x = b)) as [->|Hne]; [apply lookup_insert_eq|].
    rewrite lookup_insert_ne by done. apply Ht; [done|]. set_solver.
Qed.

(** Giving a block back. *)
Lemma pool_ok_put o p w b fs :
  pool_ok o p w fs -> b ∈ slots p -> b ∉ fs -> 
  pool_ok o (set_block_list b (set_free_count (u32 (block_free_count p + 1)) p))
    (<[b := block_list p]> w) (b :: fs).
Proof.
  intros H Hb Hn. pose proof H as [Hg Hc Hnd Hs Hct Ht].
  assert ((length (b :: fs) <= length (slots p))%nat) as Hlen.
  { apply NoDup_incl_length; [apply NoDup_ListNoDup; by constructor|].
    intros x Hx. apply list_elem_of_In. apply list_elem_of_In in Hx. set_solver. }
  rewrite length_slots in Hlen. simpl in Hlen. destruct Hg as [G1 [G2 G3] G4 G5 G6].
  split; simpl; [done| | | |rewrite uwrap_small; [lia|]|].
  - split; [done|]. exists (block_list p). rewrite lookup_insert_eq. split; [done|]. by apply free_chain_frame.
  - by constructor.
  - intros x [->|Hx]%elem_of_cons; [done|by apply Hs].
  - pose proof (Z.mul_le_mono_nonneg_l 1 (block_size p + 4) (block_total_count p)). c_lia.
  - intros x Hx Hnx. rewrite lookup_insert_ne by set_solver. apply Ht; [done|]. set_solver.
Qed.

(** ** The invariant of a pool *)

(** Pool [o] has the geometry [p], the free blocks [fs] and the waiting
    threads [q], the next to be served first. *)
Record mp_inv (o : oid) (p : rt_mempool) (fs : list Z) (q : list oid) (s : mp_st) : Prop := {
  mi_kernel : kinv (i_kernel (m_ipc s));
  mi_current : exists c, rt_current_thread (m_sched s) = Some c;
  mi_pool : pools s !! o = Some p;
  mi_ok : pool_ok o p (words s) fs;
  mi_queue : tlists (m_sched s) !! LSusp o = Some q;
  mi_calm : calm (m_sched s) q
}.

(** The same memory: what an allocation and a release leave alone. *)
Definition same_area (p p' : rt_mempool) : Prop :=
  start_address p' = start_address p /\ mp_size p' = mp_size p /\
  block_size p' = block_size p /\ block_total_count p' = block_total_count p.

Lemma same_area_slots p p' : same_area p p' -> slots p' = slots p.
Proof. intros (E1 & E2 & E3 & E4). unfold slots, mp_slot. by rewrite E1, E3, E4. Qed.

Lemma calm_error_i t th e i q :
  threads (i_sched i) !! t = Some th -> (e = RT_EOK \/ t ∉ q) -> calm (i_sched i) q ->
  calm (i_sched (error_i t th e i)) q.
Proof.
  intros Ht He Hc x Hx. destruct (Hc x Hx) as (xh & Hxh & E). unfold has_error. simpl.
  destruct (decide (x = t)) as [->|Hn].
  - rewrite lookup_insert_eq. destruct He as [->|He]; [by eexists|done].
  - rewrite lookup_insert_ne by done. by exists xh.
Qed.

Section Specs.
Context (timer_thread : oid).

(** The three ways an allocation can go. *)
Definition alloc_post (o : oid) (p : rt_mempool) (fs : list Z) (q : list oid) (time : Z) (s : mp_st)
    (out : outcome mb_wait Z) (s' : mp_st) : Prop :=
  match fs with
  | b :: fs =>
      out = Returned (b + 4) /\ m_sys s' = m_sys s /\
      exists p', same_area p p' /\ mp_inv o p' fs q s'
  | [] =>
      if time =? 0 then
        out = Returned 0 /\ mp_inv o p [] q s' /\ words s' = words s /\
        wp rt_get_errno (m_sys s') (fun e _ => e = - RT_ETIMEOUT)
      else exists c ch,
        out = Waiting (mk_mb_wait c time (if 0 <? time then rt_tick (i_kernel (m_ipc s)) else 0)) /\
        runs (m_ipc s) c ch /\ mp_inv o p [] (c :: q) s' /\ words s' = words s /\
        waits (LSusp o) c (set_error RT_EOK ch) (c :: q) time (i_kernel (m_ipc s)) (i_kernel (m_ipc s'))
  end.

Lemma mp_alloc_round_wp o p fs q time s :
  mp_inv o p fs q s ->
  (fs = [] -> exists c ch, runs (m_ipc s) c ch) ->
  wp (mp_alloc_round timer_thread o (rt_current_thread (m_sched s)) time) s (alloc_post o p fs q time s).
Proof.
  intros Hi Hr. pose proof Hi as [Hk Hcur Hp Hok Hq Hc]. unfold mp_alloc_round.
  wp_step. eapply wp_get_pool; [exact Hp|]. pose proof (po_count _ _ _ _ Hok) as Ect. destruct fs as [|b fs].
  - rewrite Ect. simpl. destruct (Hr eq_refl) as (c & ch & Hruns). pose proof Hruns as (Hcc & Hch & Est).
    pose proof (running_not_listed _ c ch (LSusp o) Hk Hch Est) as Hni. rewrite (members_Some _ _ _ Hq) in Hni.
    unfold alloc_post. destruct (Z.eqb_spec time 0) as [->|Ht].
    + wp_step. wp_step. apply wp_set_errno; [exact Hk|]. intros sy Hsy Hg. wp_steps.
      split_and!; [done| |done|done]. destruct Hsy as [E|(c' & ch' & Hc' & Hch' & E)].
      * split; simpl; rewrite ?E; done.
      * simplify_eq. split; simpl; rewrite ?E; [by apply error_kinv|by exists c|done|done|done|].
        apply calm_error_i; [done|by right|done].
    + rewrite Hcc. wp_step. eapply wp_deref; [done|]. wp_step. apply wp_mp_ipc.
      eapply wp_reset_error; [exact Hch|]. wp_step. apply wp_mp_ipc.
      eapply (wait_front_spec timer_thread (LSusp o) c (set_error RT_EOK ch) time q);
        [by apply error_kinv|done|exact Hq|by apply error_runs|].
      intros k' Hwt. wp_steps. apply (waits_cleared _ _ ch) in Hwt; [|exact Hch]. exists c, ch.
      split; [done|]. split; [done|]. split; [|done].
      split; simpl; [apply Hwt|apply Hwt|exact Hp|exact Hok|apply Hwt|].
      eapply (calm_waits (LSusp o) c ch q [] q); [exact Hk|done|exact Hq|done|exact Hch|exact Est|exact Hwt|done].
  - assert ((block_free_count p =? 0) = false) as -> by (simpl in Ect; lia).
    destruct (pool_ok_take _ _ _ _ _ Hok) as (Eb & next & Hn & Hok'). subst b.
    wp_step. eapply wp_load_word; [exact Hn|]. unfold put_pool, store_word. wp_steps. unfold alloc_post, SIZEOF_PTR.
    split; [done|]. split; [done|].
    exists (set_block_list next (set_free_count (block_free_count p - 1) p)). split; [by split_and!|].
    split; simpl; [done|done|apply lookup_insert_eq|exact Hok'|done|done].
Qed.

Lemma mp_alloc_wp o p fs q time s :
  mp_inv o p fs q s -> (fs = [] -> exists c ch, runs (m_ipc s) c ch) ->
  wp (rt_mp_alloc timer_thread o time) s (alloc_post o p fs q time s).
Proof.
  intros Hi Hr. unfold rt_mp_alloc. wp_step. apply wp_mp_ipc, wp_thread_self.
  rewrite set_m_ipc_id. by apply mp_alloc_round_wp.
Qed.

(** A thread that was woken goes on. *)
Lemma mp_resumed_wp o p fs q w ch s :
  mp_inv o p fs q s -> runs (m_ipc s) (mw_thread w) ch ->
  wp (rt_mp_alloc_resumed timer_thread o w) s (fun out s' =>
    if negb (error ch =? RT_EOK) then out = Returned 0 /\ s' = s
    else alloc_post o p fs q (left_timeout (mw_timeout w) (mw_tick_delta w) (rt_tick (i_kernel (m_ipc s)))) s out s').
Proof.
  intros Hi Hr. pose proof Hr as (Hcur & Hch & _). unfold rt_mp_alloc_resumed.
  wp_step. apply wp_mp_ipc. eapply wp_thread_error; [exact Hch|]. rewrite set_m_ipc_id.
  destruct (negb (error ch =? RT_EOK)); [by wp_steps|].
  wp_step. apply wp_mp_ipc, wp_tick. rewrite set_m_ipc_id, <- Hcur.
  apply mp_alloc_round_wp; [done|]. intros _. by exists (mw_thread w), ch.
Qed.

End Specs.

(** Releasing a block serves the first waiting thread. *)
Lemma mp_free_wp o p fs q b s :
  mp_inv o p fs q s -> b ∈ slots p -> b ∉ fs ->
  wp (rt_mp_free (b + 4)) s (fun _ s' =>
    (exists p', same_area p p' /\ mp_inv o p' (b :: fs) (tail q) s') /\ first_woken q (m_ipc s')).
Proof.
  intros Hi Hb Hn. pose proof Hi as [Hk (c & Hcur) Hp Hok Hq Hc].
  pose proof (slot_range _ _ (po_geometry _ _ _ _ Hok) Hb) as Hrange.
  pose proof (ge_start _ (po_geometry _ _ _ _ Hok)) as Hst.
  unfold rt_mp_free, SIZEOF_PTR. rewrite (proj2 (Z.eqb_neq (b + 4) 0)) by lia.
  replace (b + 4 - 4) with b by lia. pose proof (po_taken _ _ _ _ Hok b Hb Hn) as Hw.
  wp_step. eapply wp_load_word; [exact Hw|]. wp_step. eapply wp_deref; [done|].
  wp_step. eapply wp_get_pool; [exact Hp|]. unfold store_word, put_pool. wp_steps.
  pose proof (pool_ok_put _ _ _ _ _ Hok Hb Hn) as Hok'.
  set (p' := set_block_list b (set_free_count (u32 (block_free_count p + 1)) p)) in *.
  assert (same_area p p') as Hsame by by split_and!.
  apply wp_mp_ipc. eapply wp_has_waiter; [exact Hq|]. rewrite set_m_ipc_id. destruct q as [|w ws]; simpl.
  - wp_step. split; [|by intros ?]. exists p'. split; [done|].
    split; simpl; [done|by exists c|apply lookup_insert_eq|exact Hok'|done|done].
  - destruct (waiter_of _ (LSusp o) w _ Hk I Hq ltac:(by left)) as (wh & Hwh & Est).
    wp_step. apply wp_mp_ipc, wp_in_kernel, wp_in_sched. eapply wp_get_list; [exact Hq|].
    wp_step. eapply wp_deref; [done|]. wp_step. apply wp_mp_ipc. simpl. 
    eapply wp_reset_error; [exact Hwh|]. 
    set (i1 := error_i w wh RT_EOK (m_ipc s)).
    assert (kinv (i_kernel i1)) as Hk1 by by apply error_kinv.
    assert (threads (i_sched i1) !! w = Some (set_error RT_EOK wh)) as Hw1 by apply lookup_insert_eq.
    destruct (thread_timer_of _ w _ Hk1 Hw1) as (tm & Htm & _).
    wp_step. apply wp_mp_ipc, wp_in_kernel. apply (wp_thread_resume w (set_error RT_EOK wh) tm); [exact Hk1|exact Hw1|exact Est|exact Htm|].
    pose proof (resumed_wakes (LSusp o) w _ tm ws c _ Hk1 I Hq Hcur Hw1 Est Htm) as Hwk.
    apply wp_mp_ipc. apply (wp_schedule c); [apply Hwk|simpl; by rewrite resumed_current|]. intros s2 Hs2.
    pose proof (wakes_scheduled (LSusp o) _ _ _ _ _ s2 I Hwk Hs2) as Hwk2.
    split.
    + exists p'. split; [done|]. split; simpl; [apply Hwk2|apply Hwk2|apply lookup_insert_eq|exact Hok'|apply Hwk2|].
      refine (wakes_errors (LSusp o) w _ ws _ _ Hk1 I Hq Hwk2 _).
      apply (calm_error_i w wh RT_EOK (m_ipc s)); [done|by left|done].
    + intros w' [= <-]. destruct (wk_self _ _ _ _ _ _ Hwk2) as (wh' & Hwh' & Hrun & He & _).
      exists wh'. split_and!; [done|done|by rewrite He].
Qed.

(** ** Initialisation *)

Section Init.
Context (start size n : Z).
Hypothesis Hstart : 0 < start.
Hypothesis Hn : 8 <= n.
Hypothesis Hend : start + size <= 2 ^ 32.

Lemma block_addr i m : 0 <= i < m -> m * n <= size ->
  start <= start + i * n /\ start + i * n + n <= start + m * n /\
  u32 (start + u32 (i * n)) = start + i * n.
Proof.
  intros Hi Hm. pose proof (Z.mul_le_mono_nonneg_r (i + 1) m n). pose proof (Z.mul_nonneg_nonneg i n).
  rewrite (uwrap_small 32 (i * n)) by c_lia. rewrite uwrap_small by c_lia. lia.
Qed.

(** The links the loop leaves from block [k] on. *)
Definition linked (k : Z) (m : nat) (w w' : gmap Z Z) : Prop :=
  (forall i, k <= i < k + Z.of_nat m ->
     w' !! (start + i * n) = Some (u32 (start + u32 ((i + 1) * n)))) /\
  (forall a, (forall i, k <= i < k + Z.of_nat m -> a <> start + i * n) -> w' !! a = w !! a).

Lemma link_blocks_wp m k s :
  0 <= k -> (k + Z.of_nat m) * n <= size ->
  wp (mp_link_blocks start size n m k) s (fun _ s' =>
    exists w', s' = set_words w' s /\ linked k m (words s) w').
Proof.
  revert k s. induction m as [|m IH]; intros k s Hk Hm; simpl.
  - wp_step. exists (words s). split; [by destruct s|]. split; [lia|done].
  - destruct (block_addr k (k + Z.of_nat (S m)) ltac:(lia) Hm) as (H1 & H2 & ->).
    wp_step. apply wp_store_in; [lia|lia|].
    eapply wp_mono; [apply (IH (k + 1)); [lia|by replace (k + 1 + Z.of_nat m) with (k + Z.of_nat (S m)) by lia]|].
    intros _ s' (w' & -> & Hl & Hf). exists w'. split; [done|]. simpl in *. split.
    + intros i Hi. destruct (decide (i = k)) as [->|Hne]; [|apply Hl; lia].
      rewrite Hf; [apply lookup_insert_eq|]. intros j Hj E.
      assert (k = j); [|lia]. apply (Z.mul_reg_r _ _ n); lia.
    + intros a Ha. rewrite Hf by (intros i Hi; apply Ha; lia). apply lookup_insert_ne.
      intros <-. apply (Ha k); lia.
Qed.

(** The links with the last one cut are a chain of all blocks. *)
Lemma linked_chain m k w :
  0 <= k -> (k + Z.of_nat m) * n <= size -> (0 < m)%nat ->
  (forall i, k <= i < k + Z.of_nat m - 1 ->
     w !! (start + i * n) = Some (u32 (start + u32 ((i + 1) * n)))) ->
  w !! (start + (k + Z.of_nat m - 1) * n) = Some 0 ->
  free_chain w (start + k * n) ((fun i => start + Z.of_nat i * n) <$> seq (Z.to_nat k) m).
Proof.
  revert k. induction m as [|m IH]; intros k Hk Hm Hm0 Hl H0; [lia|]. simpl.
  rewrite Z2Nat.id by lia. split; [done|]. destruct m as [|m].
  - exists 0. split; [|done]. rewrite <- H0. do 2 f_equal. lia.
  - exists (start + (k + 1) * n). split.
    + rewrite Hl by lia. f_equal. by apply (block_addr (k + 1) (k + Z.of_nat (S (S m)))); [lia|].
    + replace (S (Z.to_nat k)) with (Z.to_nat (k + 1)) by lia.
      apply IH; [lia|by replace (k + 1 + Z.of_nat (S m)) with (k + Z.of_nat (S (S m))) by lia|lia| |].
      * intros i Hi. apply Hl. lia.
      * rewrite <- H0. do 2 f_equal. lia.
Qed.
End Init.

(** The kernel is ready for a new pool [o] called [nm]. *)
Record mp_startable (o : oid) (nm : list Z) (s : mp_st) : Prop := {
  ms_kernel : kinv (i_kernel (m_ipc s));
  ms_current : exists c, rt_current_thread (m_sched s) = Some c;
  ms_lock : 0 <= rt_scheduler_lock_nest (m_sched s) < 32767;
  ms_name : is_Some (rt_strncpy nm RT_NAME_MAX);
  ms_new : ~ object_linked (k_obj (i_kernel (m_ipc s))) (Obj o);
  ms_class : is_Some (container_of RT_Object_Class_MemPool (containers (k_obj (i_kernel (m_ipc s)))));
  ms_queue : members (m_sched s) (LSusp o) = []
}.

(** The pool [rt_mp_init] makes of [size] bytes at [start]. *)
Definition mp_made (start size bsize : Z) : rt_mempool :=
  let bs := (bsize + 3) / 4 * 4 in
  let total := size / 4 * 4 / (bs + 4) in
  mk_mp start (size / 4 * 4) bs start total total.

Lemma mp_init_queue {A} o nm c s (Q : A -> mp_st -> Prop) (R : M mp_st A) :
  mp_startable o nm s -> rt_current_thread (m_sched s) = Some c ->
  (forall i, kinv (i_kernel i) -> (exists c', rt_current_thread (i_sched i) = Some c') ->
     tlists (i_sched i) !! LSusp o = Some [] -> wp R (set_m_ipc i s) Q) ->
  wp (in_ipc (in_kernel (rt_object_init (Obj o) RT_Object_Class_MemPool nm));;
      in_ipc (in_kernel (in_sched (tlist_init (LSusp o))));; R) s Q.
Proof.
  intros [Hk _ Hn Hnm Hnew Hcl Hm] Hc HR. wp_step. apply wp_mp_ipc, wp_in_kernel.
  apply (wp_object_init (Obj o) _ nm c); [done..|]. intros s' st' Hs Hk'. wp_step. apply wp_mp_ipc, wp_in_kernel.
  assert ((exists c', rt_current_thread s' = Some c') /\ members s' (LSusp o) = []) as [Hc' Hm'].
  { destruct Hs as [(_ & Hc' & _ & Hw)| ->]; [|by split; [exists c|]].
    split; [done|]. unfold members in *. by rewrite (Hw (LSusp o) I). }
  apply wp_list_init; [exact Hk'|done|exact Hm'|]. intros s2 Hk2 El _ Ec.
  match goal with |- wp R ?x Q => change x with (set_m_ipc (m_ipc x) s) end.
  apply HR; [exact Hk2| |]; simpl in *.
  - by rewrite Ec.
  - by rewrite El, lookup_insert_eq.
Qed.

Lemma mp_made_geometry start size bsize :
  0 < start -> 0 <= size -> start + size <= 2 ^ 32 -> 0 < bsize -> bsize + 7 < 2 ^ 32 ->
  0 < block_total_count (mp_made start size bsize) -> geometry (mp_made start size bsize).
Proof.
  intros H1 H2 H3 H4 H5 H6. unfold mp_made in *. simpl in *.
  destruct (Mem.align_spec bsize) as [Ha Ha4]. cbn zeta in *. set (bs := (bsize + 3) / 4 * 4) in *.
  clearbody bs. assert (size / 4 * 4 <= size) by (pose proof (Z.div_mod size 4); pose proof (Z.mod_pos_bound size 4); lia).
  split; simpl; [done|by split; [lia|]|done| |lia].
  pose proof (Z.mul_div_le (size / 4 * 4) (bs + 4)). lia.
Qed.

(** The loop and the store behind it link all blocks of a new pool. *)
Lemma mp_chain_wp {B} o p (R : M mp_st B) s (Q : B -> mp_st -> Prop) :
  geometry p -> block_list p = start_address p -> block_free_count p = block_total_count p ->
  (forall w', pool_ok o p w' (slots p) -> wp R (set_words w' s) Q) ->
  wp (mp_link_blocks (start_address p) (mp_size p) (block_size p + 4) (Z.to_nat (block_total_count p)) 0;;
      store_in (start_address p) (mp_size p)
        (u32 (start_address p + u32 (u32 (block_total_count p - 1) * (block_size p + 4)))) 0;; R) s Q.
Proof.
  intros Hg El Ef HR. pose proof Hg as [H1 [Hb Hb4] Ht Hfit Hle].
  assert (8 <= block_size p + 4) as Hn8 by (pose proof (Z.div_mod (block_size p) 4); lia).
  assert (0 <= block_total_count p - 1 < 2 ^ 32) as Ht32
    by (pose proof (Z.mul_le_mono_nonneg_l 1 (block_size p + 4) (block_total_count p)); c_lia).
  wp_step. eapply wp_mono;
    [apply (link_blocks_wp (start_address p) (mp_size p) (block_size p + 4) H1 Hn8 Hle); [lia|rewrite Z2Nat.id; lia]|].
  intros _ s' (w' & -> & Hl & _). rewrite Z2Nat.id in Hl by lia.
  rewrite (uwrap_small 32 (block_total_count p - 1)) by exact Ht32.
  destruct (block_addr (start_address p) (mp_size p) (block_size p + 4) H1 Hn8 Hle (block_total_count p - 1)
    (block_total_count p) ltac:(lia) Hfit) as (A1 & A2 & ->).
  wp_step. apply wp_store_in; [lia|lia|].
  apply (HR (<[start_address p + (block_total_count p - 1) * (block_size p + 4) := 0]> w')).
  split; [done| |by apply NoDup_slots|done|rewrite Ef, length_slots; lia|done].
  rewrite El. unfold slots, mp_slot.
  pose proof (linked_chain (start_address p) (mp_size p) (block_size p + 4) H1 Hn8 Hle (Z.to_nat (block_total_count p)) 0
    (<[start_address p + (block_total_count p - 1) * (block_size p + 4) := 0]> w')) as Hch.
  rewrite Z.mul_0_l, Z.add_0_r, Z.add_0_l, Z2Nat.id in Hch by lia. apply Hch; [lia|lia|lia| |].
  - intros j Hj. rewrite lookup_insert_ne; [apply Hl; lia|]. intros E.
    assert (block_total_count p - 1 = j); [|lia]. apply (Z.mul_reg_r _ _ (block_size p + 4)); lia.
  - apply lookup_insert_eq.
Qed.

Lemma mp_init_wp o nm start size bsize s :
  mp_startable o nm s ->
  0 < start -> 0 <= size -> start + size <= 2 ^ 32 -> 0 < bsize -> bsize + 7 < 2 ^ 32 ->
  0 < block_total_count (mp_made start size bsize) ->
  wp (rt_mp_init o nm start size bsize) s (fun r s' =>
    let p := mp_made start size bsize in r = RT_EOK /\ mp_inv o p (slots p) [] s').
Proof.
  intros Hst H1 H2 H3 H4 H5 H6. pose proof (mp_made_geometry _ _ _ H1 H2 H3 H4 H5 H6) as Hg.
  destruct (ms_current _ _ _ Hst) as [c Hc]. unfold rt_mp_init.
  unfold Mem.RT_ALIGN_DOWN. change (Mem.RT_ALIGN_SIZE - 1) with 3. rewrite Mem.align4_down by lia.
  change Mem.RT_ALIGN_SIZE with 4. rewrite Mem.RT_ALIGN_val by lia. cbv zeta.
  destruct (Mem.align_spec bsize) as [Hal _]. cbn zeta in Hal. unfold SIZEOF_PTR.
  rewrite (uwrap_small 32 ((bsize + 3) / 4 * 4 + 4)) by c_lia. rewrite (proj2 (Z.eqb_neq _ _)) by lia.
  apply (mp_init_queue o nm c); [done|done|]. intros i Hk Hcur Hq.
  apply (mp_chain_wp o (mp_made start size bsize)); [done..|]. intros w' Hok. unfold put_pool. wp_steps.
  split; [done|]. split; simpl; [done|done|apply lookup_insert_eq|done|done|by intros t Ht'%elem_of_nil].
Qed.

(** With less memory than one block needs, the link of the last block is
    written in front of the pool. *)
Theorem mp_init_too_small_faults o nm start size bsize s :
  0 <= size -> start + size <= 2 ^ 32 -> 0 < bsize -> bsize + 8 <= start ->
  block_total_count (mp_made start size bsize) = 0 ->
  rt_mp_init o nm start size bsize s = None.
Proof.
  intros H2 H3 H4 H5 H6. destruct (rt_mp_init o nm start size bsize s) as [[r s']|] eqn:E; [|done].
  exfalso. revert E. unfold rt_mp_init, mp_made in *. simpl in H6.
  unfold Mem.RT_ALIGN_DOWN. change (Mem.RT_ALIGN_SIZE - 1) with 3. rewrite Mem.align4_down by lia.
  change Mem.RT_ALIGN_SIZE with 4. rewrite Mem.RT_ALIGN_val by lia.
  destruct (Mem.align_spec bsize) as [Ha _]. cbn zeta in Ha. set (bs := (bsize + 3) / 4 * 4) in *. clearbody bs.
  unfold SIZEOF_PTR. rewrite (uwrap_small 32 (bs + 4)) by c_lia. rewrite (proj2 (Z.eqb_neq _ _)) by lia.
  rewrite H6. change (Z.to_nat 0) with O. cbn [mp_link_blocks].
  unfold mbind, M_bind. destruct (in_ipc _ s) as [[? s1]|]; [|done]. destruct (in_ipc _ s1) as [[? s2]|]; [|done].
  unfold mret, M_ret, store_in. 
  assert (u32 (u32 (0 - 1) * (bs + 4)) = 2 ^ 32 - (bs + 4)) as ->.
  { change (u32 (0 - 1)) with (2 ^ 32 - 1). replace ((2 ^ 32 - 1) * (bs + 4)) with (2 ^ 32 - (bs + 4) + (bs + 3) * 2 ^ 32) by lia.
    unfold uwrap. rewrite Z_mod_plus_full. apply Z.mod_small. lia. }
  assert (u32 (start + (2 ^ 32 - (bs + 4))) = start - (bs + 4)) as ->.
  { replace (start + (2 ^ 32 - (bs + 4))) with (start - (bs + 4) + 1 * 2 ^ 32) by lia.
    unfold uwrap. rewrite Z_mod_plus_full. apply Z.mod_small. lia. }
  rewrite (proj2 (Z.leb_gt start _)) by lia. done.
Qed.

(** ** Programs that use a pool

    [mp_client o bs s]: [s] is reached from [rt_mp_init] by allocations of
    running threads, with any timeout, their continuation when they are woken,
    releases, timeouts and reschedulings; [bs] are the blocks in use.  A
    program releases only blocks it was given. *)
Section Clients.
Context (timer_thread o : oid).

Definition got (b : Z) (bs : list Z) : list Z := if b =? 0 then bs else b :: bs.

Inductive mp_client : list Z -> mp_st -> Prop :=
| mc_init nm start size bsize s s' :
    mp_startable o nm s -> 0 < start -> 0 <= size -> start + size <= 2 ^ 32 ->
    0 < bsize -> bsize + 7 < 2 ^ 32 -> 0 < block_total_count (mp_made start size bsize) ->
    rt_mp_init o nm start size bsize s = Some (RT_EOK, s') -> mp_client [] s'
| mc_alloc bs s c ch time b s' :
    mp_client bs s -> runs (m_ipc s) c ch ->
    rt_mp_alloc timer_thread o time s = Some (Returned b, s') -> mp_client (got b bs) s'
| mc_wait bs s c ch time w s' :
    mp_client bs s -> runs (m_ipc s) c ch ->
    rt_mp_alloc timer_thread o time s = Some (Waiting w, s') -> mp_client bs s'
| mc_resumed bs s w ch b s' :
    mp_client bs s -> runs (m_ipc s) (mw_thread w) ch ->
    rt_mp_alloc_resumed timer_thread o w s = Some (Returned b, s') -> mp_client (got b bs) s'
| mc_rewait bs s w ch w' s' :
    mp_client bs s -> runs (m_ipc s) (mw_thread w) ch ->
    rt_mp_alloc_resumed timer_thread o w s = Some (Waiting w', s') -> mp_client bs s'
| mc_free bs1 b bs2 s s' :
    mp_client (bs1 ++ b :: bs2) s -> rt_mp_free b s = Some (tt, s') -> mp_client (bs1 ++ bs2) s'
| mc_expired bs s t xs s' :
    mp_client bs s -> tlists (m_sched s) !! LSusp o = Some xs -> t ∈ xs ->
    ThreadTimer t ∉ Tmr.rt_timer_list (k_timer (i_kernel (m_ipc s))) ->
    in_ipc (in_kernel (rt_thread_timeout t)) s = Some (tt, s') -> mp_client bs s'
| mc_scheduled bs s s' :
    mp_client bs s -> in_ipc schedule s = Some (tt, s') -> mp_client bs s'.

(** The free blocks and those in use are the blocks of the pool. *)
Definition shares (p : rt_mempool) (fs bs : list Z) : Prop :=
  fs ++ ((fun b => b - 4) <$> bs) ≡ₚ slots p.

Lemma shares_area p p' fs bs : same_area p p' -> shares p fs bs -> shares p' fs bs.
Proof. intros Ha. unfold shares. by rewrite (same_area_slots p p' Ha). Qed.

Lemma shares_take p b fs bs : 0 < start_address p -> geometry p -> shares p (b :: fs) bs ->
  shares p fs (got (b + 4) bs).
Proof.
  intros H0 Hg Hs. unfold shares in Hs. assert (b ∈ slots p) as Hb by (rewrite <- Hs; set_solver).
  destruct (slot_range p b Hg Hb) as [? _]. unfold shares, got in *.
  rewrite (proj2 (Z.eqb_neq (b + 4) 0)) by lia. simpl. replace (b + 4 - 4) with b by lia.
  rewrite <- Permutation_middle. exact Hs.
Qed.

Lemma alloc_post_shares p fs q time s out s' bs :
  mp_inv o p fs q s -> shares p fs bs -> alloc_post o p fs q time s out s' ->
  exists p' fs' q', mp_inv o p' fs' q' s' /\
    shares p' fs' (match out with Returned b => got b bs | Waiting _ => bs end).
Proof.
  intros Hi Hs Hpost. unfold alloc_post in Hpost. destruct fs as [|b fs].
  - destruct (time =? 0).
    + destruct Hpost as (-> & Hi' & _). by exists p, [], q.
    + destruct Hpost as (c & ch & -> & _ & Hi' & _). by exists p, [], (c :: q).
  - destruct Hpost as (-> & _ & p' & Ha & Hi'). exists p', fs, q. split; [done|].
    apply (shares_area p p' _ _ Ha). pose proof (po_geometry _ _ _ _ (mi_ok _ _ _ _ _ Hi)) as Hg.
    apply shares_take; [apply Hg|done|done].
Qed.

(** The kernel moved on; the pool and the threads that still wait did not
    change. *)
Lemma mp_frame p fs q s k' q' (W : oid -> Prop) :
  mp_inv o p fs q s -> kinv k' -> (exists c, rt_current_thread (k_sched k') = Some c) ->
  tlists (k_sched k') !! LSusp o = Some q' -> (forall t, t ∈ q' -> t ∈ q /\ ~ W t) ->
  woken_frame W (i_kernel (m_ipc s)) k' ->
  mp_inv o p fs q' (set_m_ipc (set_i_kernel k' (m_ipc s)) s).
Proof.
  intros [Hk Hcur Hp Hok Hq Hc] Hk' Hc' Hq' Hsub Hf. split; simpl; try done.
  apply (calm_frame W (LSusp o) q q' (i_kernel (m_ipc s)) k'); done.
Qed.

Lemma mp_client_inv bs s : mp_client bs s ->
  exists p fs q, mp_inv o p fs q s /\ shares p fs bs.
Proof.
  induction 1 as [nm start size bsize s s' Hst H1 H2 H3 H4 H5 H6 E
    |bs s c ch time b s' _ (p & fs & q & Hi & Hs) Hr E|bs s c ch time w s' _ (p & fs & q & Hi & Hs) Hr E
    |bs s w ch b s' _ (p & fs & q & Hi & Hs) Hr E|bs s w ch w' s' _ (p & fs & q & Hi & Hs) Hr E
    |bs1 b bs2 s s' _ (p & fs & q & Hi & Hs) E|bs s t xs s' _ (p & fs & q & Hi & Hs) Hl Hin Hnt E
    |bs s s' _ (p & fs & q & Hi & Hs) E].
  - destruct (wp_run _ _ _ _ _ (mp_init_wp o nm start size bsize s Hst H1 H2 H3 H4 H5 H6) E) as [_ Hi].
    exists (mp_made start size bsize). do 2 eexists. split; [exact Hi|]. unfold shares. by rewrite app_nil_r.
  - exact (alloc_post_shares _ _ _ _ _ _ _ _ Hi Hs (wp_run _ _ _ _ _
      (mp_alloc_wp timer_thread o p fs q time s Hi ltac:(eauto)) E)).
  - exact (alloc_post_shares _ _ _ _ _ _ _ _ Hi Hs (wp_run _ _ _ _ _
      (mp_alloc_wp timer_thread o p fs q time s Hi ltac:(eauto)) E)).
  - pose proof (wp_run _ _ _ _ _ (mp_resumed_wp timer_thread o p fs q w ch s Hi Hr) E) as H. simpl in H.
    destruct (negb (error ch =? RT_EOK)); [destruct H as [[= ->] ->]; by exists p, fs, q|].
    exact (alloc_post_shares _ _ _ _ _ _ _ _ Hi Hs H).
  - pose proof (wp_run _ _ _ _ _ (mp_resumed_wp timer_thread o p fs q w ch s Hi Hr) E) as H. simpl in H.
    destruct (negb (error ch =? RT_EOK)); [by destruct H|].
    exact (alloc_post_shares _ _ _ _ _ _ _ _ Hi Hs H).
  - pose proof (po_geometry _ _ _ _ (mi_ok _ _ _ _ _ Hi)) as Hg. unfold shares in Hs.
    rewrite fmap_app, fmap_cons in Hs. pose proof (NoDup_slots p Hg) as Hnd. rewrite <- Hs in Hnd.
    assert (b - 4 ∈ slots p) as Hb by (rewrite <- Hs; set_solver).
    assert (b - 4 ∉ fs) as Hn by (intros Hx; apply NoDup_app in Hnd as (_ & Hd & _); apply (Hd _ Hx); set_solver).
    pose proof (mp_free_wp o p fs q (b - 4) s Hi Hb Hn) as W. replace (b - 4 + 4) with b in W by lia.
    destruct (wp_run _ _ _ _ _ W E) as [(p' & Ha & Hi') _]. exists p', (b - 4 :: fs), (tail q).
    split; [done|]. apply (shares_area p p' _ _ Ha). unfold shares. rewrite <- Hs, fmap_app. simpl.
    solve_Permutation.
  - pose proof Hi as [Hk (c & Hc) _ _ Hq _]. assert (xs = q) as -> by congruence.
    assert (wp (in_ipc (in_kernel (rt_thread_timeout t))) s (fun _ s' => exists k',
      expires (LSusp o) t q (i_kernel (m_ipc s)) k' /\ s' = set_m_ipc (set_i_kernel k' (m_ipc s)) s)) as W.
    { apply wp_mp_ipc, wp_in_kernel. apply (timeout_expires (LSusp o) t q c); [done..|]. eauto. }
    destruct (wp_run _ _ _ _ _ W E) as (k' & [X1 X2 X3 X4 X5] & ->).
    exists p, fs, (filter (fun x => x <> t) q). split; [|done].
    eapply (mp_frame p fs q s k' _ (fun x => x = t)); try done. intros x [? ?]%list_elem_of_filter. done.
  - pose proof Hi as [Hk (c & Hc) _ _ Hq _].
    assert (wp (in_ipc schedule) s (fun _ s' => exists k', scheduled (i_kernel (m_ipc s)) k' /\
      s' = set_m_ipc (set_i_kernel (set_k_sched k' (i_kernel (m_ipc s))) (m_ipc s)) s)) as W.
    { apply wp_mp_ipc. apply (wp_schedule c); [done..|]. eauto. }
    destruct (wp_run _ _ _ _ _ W E) as (k' & (X1 & X2 & X3 & X4) & ->).
    exists p, fs, q. split; [|done].
    eapply (mp_frame p fs q s _ q (fun _ => False)); try done; [|tauto]. simpl. by rewrite (X4 (LSusp o) I).
Qed.

End Clients.

(** ** Theorems *)

(** C16. A program that releases only blocks it was given, with any threads
    waiting, woken and timing out in between: the free list is a chain of
    blocks, and the blocks of the pool are exactly those of the chain and those
    in use, none twice; the free count is the length of the chain.  A block in
    use starts at a multiple of 4 bytes from the start of the pool's memory, so
    is aligned when that is, lies with its header inside the memory, overlaps
    no other block in use or free, and its header points to the pool.
    Releasing one and allocating again return without a fault, and an
    allocation gives a block that is not in use as long as one is free, NULL or
    a wait only when all are in use. *)
Theorem mp_client_safe timer_thread o bs s :
  mp_client timer_thread o bs s ->
  exists p fs, pools s !! o = Some p /\ NoDup bs /\
    free_chain (words s) (block_list p) fs /\
    fs ++ ((fun b => b - 4) <$> bs) ≡ₚ slots p /\ NoDup (slots p) /\
    block_free_count p = Z.of_nat (length fs) /\
    block_free_count p + Z.of_nat (length bs) = block_total_count p /\
    (forall b, b ∈ bs -> start_address p + 4 <= b /\
       b + block_size p <= start_address p + mp_size p /\
       (b - start_address p) mod 4 = 0 /\ words s !! (b - 4) = Some (Z.pos o)) /\
    (forall b b', b ∈ bs -> b' ∈ bs -> b < b' -> b + block_size p <= b' - 4) /\
    (forall b x, b ∈ bs -> x ∈ fs -> b + block_size p <= x \/ x + 4 + block_size p <= b - 4) /\
    (forall b, b ∈ bs -> wp (rt_mp_free b) s (fun _ _ => True)) /\
    (forall time c ch, runs (m_ipc s) c ch -> wp (rt_mp_alloc timer_thread o time) s (fun out _ =>
       match out with
       | Returned b => if block_free_count p =? 0 then b = 0 /\ time = 0 else b <> 0 /\ b ∉ bs
       | Waiting w => block_free_count p = 0 /\ time <> 0 /\ mw_thread w = c
       end)).
Proof.
  intros H. destruct (mp_client_inv _ _ _ _ H) as (p & fs & q & Hi & Hs). exists p, fs.
  pose proof (mi_ok _ _ _ _ _ Hi) as Hok. pose proof (po_geometry _ _ _ _ Hok) as Hg.
  pose proof (NoDup_slots p Hg) as Hnd. pose proof Hs as Hs'. unfold shares in Hs. rewrite <- Hs in Hnd.
  apply NoDup_app in Hnd as (_ & Hd & Hnd).
  assert (forall b, b ∈ bs -> b - 4 ∈ slots p /\ b - 4 ∉ fs) as Hb.
  { intros b Hb. assert (b - 4 ∈ (fun b => b - 4) <$> bs) as Hx by (apply list_elem_of_fmap; by exists b).
    split; [rewrite <- Hs; apply elem_of_app; by right|]. intros Hf. by apply (Hd _ Hf). }
  split; [apply Hi|]. split; [by eapply NoDup_fmap_1|]. split; [apply Hok|]. split; [done|].
  split; [by apply NoDup_slots|]. split; [apply Hok|]. split.
  { apply Permutation_length in Hs. rewrite length_app, length_fmap, length_slots in Hs.
    rewrite (po_count _ _ _ _ Hok). pose proof (ge_total p Hg). lia. }
  split_and!.
  - intros b Hin. destruct (Hb b Hin) as [H1 H2]. pose proof (slot_range p _ Hg H1).
    split_and!; [lia|lia| |by apply (po_taken _ _ _ _ Hok)].
    replace (b - start_address p) with (b - 4 - start_address p + 1 * 4) by lia.
    rewrite Z_mod_plus_full. by apply slot_aligned.
  - intros b b' H1 H2 Hlt. destruct (Hb b H1), (Hb b' H2).
    pose proof (slot_disjoint p (b - 4) (b' - 4) Hg ltac:(done) ltac:(done) ltac:(lia)). lia.
  - intros b x Hin Hx. destruct (Hb b Hin) as [H1 H2].
    assert (x ∈ slots p) as H3 by (rewrite <- Hs; set_solver).
    assert (x <> b - 4) by (intros ->; done).
    destruct (Z.lt_ge_cases x (b - 4)).
    + pose proof (slot_disjoint p x (b - 4) Hg H3 H1 ltac:(lia)). lia.
    + pose proof (slot_disjoint p (b - 4) x Hg H1 H3 ltac:(lia)). lia.
  - intros b Hin. destruct (Hb b Hin) as [H1 H2]. pose proof (mp_free_wp o p fs q (b - 4) s Hi H1 H2) as W.
    replace (b - 4 + 4) with b in W by lia. by eapply wp_mono.
  - intros time c ch Hr. eapply wp_mono; [apply (mp_alloc_wp timer_thread o p fs q time s Hi); eauto|].
    intros out s' Hp. rewrite (po_count _ _ _ _ Hok). unfold alloc_post in Hp. destruct fs as [|b fs]; simpl.
    + destruct (Z.eqb_spec time 0).
      * by destruct Hp as (-> & _).
      * destruct Hp as (c' & ch' & -> & (Hc' & _) & _). destruct Hr as (Hc & _). simplify_eq. done.
    + destruct Hp as (-> & _). assert (b ∈ slots p) as Hin by (rewrite <- Hs; set_solver).
      apply (slot_range p _ Hg) in Hin. pose proof (ge_start p Hg). split; [lia|].
      intros Hin'. destruct (Hb _ Hin') as [_ Hn]. apply Hn. replace (b + 4 - 4) with b by lia. by left.
Qed.

(** [rt_mp_alloc] on every branch: with a free block it returns the first of
    the free list and changes neither threads nor timers; without one and a
    timeout of 0 it returns NULL with [-RT_ETIMEOUT] as the error number;
    otherwise the running thread waits in front of the other waiting threads,
    with its timer armed for [tick + time] exactly when [time] is positive. *)
Theorem mp_alloc_spec timer_thread o p fs q time c ch s :
  mp_inv o p fs q s -> runs (m_ipc s) c ch ->
  wp (rt_mp_alloc timer_thread o time) s (fun out s' =>
    match fs with
    | b :: fs => out = Returned (b + 4) /\ m_sys s' = m_sys s /\
        exists p', same_area p p' /\ mp_inv o p' fs q s'
    | [] =>
        if time =? 0 then out = Returned 0 /\ mp_inv o p [] q s' /\ words s' = words s /\
          wp rt_get_errno (m_sys s') (fun e _ => e = - RT_ETIMEOUT)
        else out = Waiting (mk_mb_wait c time (if 0 <? time then rt_tick (i_kernel (m_ipc s)) else 0)) /\
          mp_inv o p [] (c :: q) s' /\ words s' = words s /\
          waits (LSusp o) c (set_error RT_EOK ch) (c :: q) time (i_kernel (m_ipc s)) (i_kernel (m_ipc s'))
    end).
Proof.
  intros Hi Hr. eapply wp_mono; [apply (mp_alloc_wp timer_thread o p fs q time s Hi); eauto|].
  intros out s' Hp. unfold alloc_post in Hp. destruct fs; [|done]. destruct (time =? 0); [done|].
  destruct Hp as (c' & ch' & -> & (H1 & H2 & _) & H). destruct Hr as (H3 & H4 & _). by simplify_eq.
Qed.

(** The thread that has waited the shortest time is served first: when the
    running thread waits for a block and a block is then released, that
    thread can run and its allocation returns the block, while the threads
    that waited before it go on waiting. *)
Theorem mp_latest_served_first timer_thread o p q time c ch b s :
  mp_inv o p [] q s -> runs (m_ipc s) c ch -> time <> 0 -> b ∈ slots p ->
  wp (rt_mp_alloc timer_thread o time) s (fun out s1 =>
    (exists w, out = Waiting w /\ mw_thread w = c) /\
    wp (rt_mp_free (b + 4)) s1 (fun _ s2 =>
      (exists p', mp_inv o p' [b] q s2) /\
      exists ch', threads (m_sched s2) !! c = Some ch' /\ runnable ch' /\ error ch' = RT_EOK)).
Proof.
  intros Hi Hr Ht Hb. eapply wp_mono; [by eapply mp_alloc_spec|]. simpl. rewrite (proj2 (Z.eqb_neq _ _) Ht).
  intros out s1 (-> & Hi1 & _). split; [by eexists|].
  eapply wp_mono; [apply (mp_free_wp o p [] (c :: q) b s1 Hi1 Hb); apply not_elem_of_nil|].
  intros [] s2 [(p' & _ & Hi2) Hw]. split; [by exists p'|]. by apply Hw.
Qed.

(** Detaching a pool terminates, with fuel for one round per waiting thread:
    every one of them can run and its allocation returns NULL. *)
Theorem mp_detach_cancels timer_thread fuel o p fs q h s :
  mp_inv o p fs q s -> (length q <= fuel)%nat ->
  Obj.headers (k_obj (i_kernel (m_ipc s))) !! Obj o = Some h ->
  wp (rt_mp_detach fuel o) s (fun r s' =>
    r = RT_EOK /\ kinv (i_kernel (m_ipc s')) /\ ~ object_linked (k_obj (i_kernel (m_ipc s'))) (Obj o) /\
    (forall t, t ∈ q -> exists th, threads (m_sched s') !! t = Some th /\ runnable th) /\
    forall t, t ∈ q -> wp (rt_mp_alloc_resumed timer_thread o (mk_mb_wait t 0 0)) s' (fun out _ => out = Returned 0)).
Proof.
  intros [Hk (c & Hc) _ _ Hq _] Hf Hh. unfold rt_mp_detach. wp_step. apply wp_mp_ipc, wp_in_kernel.
  apply (resume_all_spec fuel (LSusp o) q c); [done..|]. intros k' Hcn _. wp_step. apply wp_mp_ipc, wp_in_kernel, wp_in_obj.
  eapply wp_object_detach; [simpl; by rewrite (cn_obj _ _ _ _ Hcn)|]. intros st' Hnl _ _. wp_steps.
  split; [done|]. split; [by apply kinv_obj, Hcn|]. split; [exact Hnl|]. split.
  - intros t Ht. destruct (cn_woken _ _ _ _ Hcn t Ht) as (th & H1 & H2 & _). by exists th.
  - intros t Ht. destruct (cn_woken _ _ _ _ Hcn t Ht) as (th & H1 & H2 & E).
    unfold rt_mp_alloc_resumed. wp_step. apply wp_mp_ipc. eapply wp_thread_error; [exact H1|].
    rewrite E. by wp_steps.
Qed.

(** ** Concrete runs *)

Definition demo_name : list Z := [109; 112; 0].
Definition demo_start : mp_st := mk_mp_st (demo_ipc, 0) ∅ ∅.

Lemma demo_startable : mp_startable 20 demo_name demo_start.
Proof.
  split; [apply demo_ipc_kinv|by exists 1%positive|vm_compute; split; congruence| | | |reflexivity].
  - by eexists.
  - apply (bool_decide_unpack _). vm_compute. exact I.
  - by eexists.
Qed.

(** Two blocks of 8 bytes in 30 bytes at 1000. *)
Definition demo_pool : mp_st :=
  match rt_mp_init 20 demo_name 1000 30 8 demo_start with Some (_, s) => s | None => demo_start end.

Lemma demo_pool_inv : mp_inv 20 (mp_made 1000 30 8) [1000; 1012] [] demo_pool.
Proof.
  destruct (proj1 (wp_Some _ _ _) (mp_init_wp 20 demo_name 1000 30 8 demo_start demo_startable
    ltac:(lia) ltac:(lia) ltac:(lia) ltac:(lia) ltac:(lia) ltac:(reflexivity))) as (r & s & E & _ & Hi).
  unfold demo_pool. rewrite E. exact Hi.
Qed.

Lemma demo_pool_runs : exists ch, runs (m_ipc demo_pool) 2 ch.
Proof. eexists. split_and!; vm_compute; reflexivity. Qed.

Lemma demo_pool_client : mp_client 99 20 [] demo_pool.
Proof.
  eapply (mc_init 99 20 demo_name 1000 30 8 demo_start); [apply demo_startable|lia..|reflexivity|].
  vm_compute. reflexivity.
Qed.

(** Both blocks are taken, the second allocation by the same thread. *)
Definition demo_empty : mp_st :=
  match (rt_mp_alloc 99 20 0;; rt_mp_alloc 99 20 0) demo_pool with Some (_, s) => s | None => demo_pool end.

Lemma demo_empty_inv : exists p, mp_inv 20 p [] [] demo_empty /\ slots p = [1000; 1012].
Proof.
  assert (wp (rt_mp_alloc 99 20 0;; rt_mp_alloc 99 20 0) demo_pool (fun _ s =>
    exists p, mp_inv 20 p [] [] s /\ slots p = [1000; 1012])) as W.
  { wp_step. eapply wp_mono; [apply (mp_alloc_wp 99 20 _ _ _ 0 demo_pool demo_pool_inv); done|].
    intros out s1 (-> & _ & p1 & Ha1 & Hi1).
    eapply wp_mono; [apply (mp_alloc_wp 99 20 p1 _ _ 0 s1 Hi1); done|]. intros out s2 (-> & _ & p2 & Ha2 & Hi2).
    exists p2. split; [done|]. rewrite (same_area_slots _ _ Ha2), (same_area_slots _ _ Ha1). reflexivity. }
  destruct (proj1 (wp_Some _ _ _) W) as (out & s & E & p & H). exists p. unfold demo_empty. by rewrite E.
Qed.

Lemma demo_empty_runs : exists ch, runs (m_ipc demo_empty) 2 ch.
Proof. eexists. split_and!; vm_compute; reflexivity. Qed.

(** The first block is taken. *)
Definition demo_held : mp_st :=
  match rt_mp_alloc 99 20 0 demo_pool with Some (_, s) => s | None => demo_pool end.

Lemma demo_held_client : mp_client 99 20 [1004] demo_held.
Proof.
  destruct demo_pool_runs as [ch Hr].
  apply (mc_alloc 99 20 [] demo_pool 2 ch 0 1004 demo_held demo_pool_client Hr).
  vm_compute. reflexivity.
Qed.

(** It is aligned, its header points to pool 20, and it can be released; the
    other block of the pool is the free list. *)
Lemma mp_client_safe_witness :
  1004 mod 4 = 0 /\ words demo_held !! 1000 = Some 20 /\
  (exists p, pools demo_held !! 20%positive = Some p /\ free_chain (words demo_held) (block_list p) [1012]) /\
  exists s', rt_mp_free 1004 demo_held = Some (tt, s').
Proof.
  destruct (mp_client_safe 99 20 [1004] demo_held demo_held_client)
    as (p & fs & Hp & _ & Hch & Hperm & _ & _ & _ & Hb & _ & _ & Hf & _).
  assert (start_address <$> pools demo_held !! 20%positive = Some 1000) as Es by (vm_compute; reflexivity).
  assert (slots <$> pools demo_held !! 20%positive = Some [1000; 1012]) as El by (vm_compute; reflexivity).
  rewrite Hp in Es, El. injection Es as Es. injection El as El.
  destruct (Hb 1004 ltac:(left)) as (_ & _ & Ha & Hw).
  split; [reflexivity|]. split; [exact Hw|]. split.
  - exists p. split; [exact Hp|]. rewrite El in Hperm.
    assert (fs ≡ₚ [1012]) as E.
    { apply (Permutation_app_inv_r [1000]). etransitivity; [exact Hperm|]. apply (Permutation_app_comm [1000] [1012]). }
    apply Permutation_singleton_r in E as ->. exact Hch.
  - destruct (proj1 (wp_Some _ _ _) (Hf 1004 ltac:(left))) as ([] & s' & E & _). exists s'. exact E.
Defined.

Lemma mp_alloc_spec_witness : exists s', rt_mp_alloc 99 20 0 demo_pool = Some (Returned 1004, s').
Proof.
  destruct demo_pool_runs as [ch Hr].
  destruct (proj1 (wp_Some _ _ _) (mp_alloc_spec 99 20 _ _ _ 0 2%positive ch demo_pool demo_pool_inv Hr))
    as (out & s' & E & -> & _).
  exists s'. exact E.
Defined.

Lemma mp_latest_served_first_witness :
  exists w s1, rt_mp_alloc 99 20 5 demo_empty = Some (Waiting w, s1) /\
    exists s2, rt_mp_free 1004 s1 = Some (tt, s2).
Proof.
  destruct demo_empty_inv as (p & Hi & Hs). destruct demo_empty_runs as [ch Hr].
  destruct (proj1 (wp_Some _ _ _) (mp_latest_served_first 99 20 p [] 5 2%positive ch 1000 demo_empty Hi Hr
    ltac:(lia) ltac:(rewrite Hs; left))) as (out & s1 & E & (w & -> & _) & W).
  exists w, s1. split; [exact E|]. destruct (proj1 (wp_Some _ _ _) W) as ([] & s2 & E2 & _). exists s2. exact E2.
Defined.

Lemma mp_detach_cancels_witness : exists s', rt_mp_detach 3 20 demo_pool = Some (RT_EOK, s').
Proof.
  destruct (proj1 (wp_Some _ _ _) (mp_detach_cancels 99 3 20 _ _ _ (mk_object ([109; 112] ++ replicate 10 0) 0x88)
    demo_pool demo_pool_inv ltac:(simpl; lia) ltac:(vm_compute; reflexivity))) as (r & s' & E & -> & _).
  exists s'. exact E.
Defined.

Lemma mp_init_too_small_faults_witness : rt_mp_init 20 demo_name 1000 8 8 demo_start = None.
Proof. apply (mp_init_too_small_faults 20 demo_name 1000 8 8 demo_start); [lia..|reflexivity]. Defined.

End Mempool.
