(* ===== verification/Dynamic.v ===== *)
(** * Objects from the heap

    Model of the functions that allocate and free kernel objects:
    [rt_object_allocate] and [rt_object_delete] of object.c, the create and
    delete functions of semaphores, mutexes, events, mailboxes and message
    queues of ipc.c and of timers of timer.c, [rt_thread_create] of thread.c,
    and the function of idle.c that gives back the memory of dead threads.

    The allocator is an instance of the class of file Alloc.  An object from
    the heap is named by its address: block [p] is object [Z.to_pos p], and a
    deleted object is gone from the state, so that any access to it faults.
    [d_block] has the address of the second block of an object, the message
    pool.  The sizes of the structures, which the compiler fixes, are the
    parameter [object_size]. *)
From stdpp Require Import base list gmap.
From Stdlib Require Import ZArith Lia.
From S2P Require Import Prelude Scheduler Object Timer Thread Ipc Mutex Event Mailbox MsgQueue Device SmallMem Alloc.

Module Dyn.
Import Sched Obj Thr Ipc Mutex Event Mailbox MsgQueue Alloc.

Section Dynamic.
Context {A : Type} {AA : Allocator A}.
Context (object_size : rt_object_class_type -> Z).

Record dyn := mk_dyn {
  d_ipc : ipc;
  d_heap : A;
  d_block : gmap oid Z
}.
Definition set_d_ipc (v : ipc) (d : dyn) : dyn := mk_dyn v (d_heap d) (d_block d).
Definition set_d_heap (v : A) (d : dyn) : dyn := mk_dyn (d_ipc d) v (d_block d).
Definition set_d_block (v : gmap oid Z) (d : dyn) : dyn := mk_dyn (d_ipc d) (d_heap d) v.

Definition in_ipc {B} (m : M ipc B) : M dyn B := zoom d_ipc set_d_ipc m.
Definition in_heap {B} (m : M A B) : M dyn B := zoom d_heap set_d_heap m.
Definition in_k {B} (m : M kernel B) : M dyn B := in_ipc (in_kernel m).

(** ** object.c *)

Definition rt_object_allocate (t : rt_object_class_type) (nm : list Z) : M dyn (option oid) :=
  information ← in_k (in_obj (rt_object_get_information t));
  l ← deref information;
  object ← in_heap (rt_malloc (object_size t));
  if object =? 0 then mret None else
  let o := Z.to_pos object in
  nm' ← deref (rt_strncpy nm RT_NAME_MAX);
  linked ← gets (fun d => bool_decide (object_linked (k_obj (i_kernel (d_ipc d))) (Obj o)));
  if linked : bool then fault else
  in_k (in_obj (modify (fun s => mk_objs (<[Obj o := mk_object nm' (class_code t)]> (headers s)) (containers s));;
                set_container t (Obj o :: l)));;
  mret (Some o).

(** The object is no longer there: its header, the structure of an IPC object
    and the heads of its wait queues. *)
Definition drop_lists (o : oid) (s : sched) : sched :=
  set_tlists (delete (LSender o) (delete (LSusp o) (tlists s))) s.
Definition drop_obj (o : oid) (s : obj_st) : obj_st := mk_objs (delete (Obj o) (headers s)) (containers s).
Definition drop_object (o : oid) (i : ipc) : ipc :=
  let k := i_kernel i in
  mk_ipc (set_k_sched (drop_lists o (k_sched k)) (set_k_obj (drop_obj o (k_obj k)) k))
    (delete o (sems i)) (delete o (mutexes i)) (delete o (events i))
    (delete o (mailboxes i)) (delete o (mqueues i)).

Definition rt_object_delete (o : oid) : M dyn unit :=
  h ← in_k (in_obj (get_header (Obj o)));
  in_k (in_obj (object_unlink (Obj o)));;
  in_heap (rt_free (Z.pos o));;
  modify (fun d => set_d_ipc (drop_object o (d_ipc d)) d).

(** ** ipc.c *)

Definition rt_sem_create (nm : list Z) (value flag : Z) : M dyn (option oid) :=
  sem ← rt_object_allocate RT_Object_Class_Semaphore nm;
  match sem with
  | None => mret None
  | Some o =>
      in_k (in_sched (rt_ipc_object_init o));;
      in_ipc (put_sem o (mk_sem flag (u16 value)));;
      mret (Some o)
  end.

Definition rt_sem_delete (fuel : nat) (sem : oid) : M dyn Z :=
  in_k (rt_ipc_list_resume_all fuel (LSusp sem));;
  rt_object_delete sem;;
  mret RT_EOK.

Definition rt_mutex_create (nm : list Z) (flag : Z) : M dyn (option oid) :=
  mutex ← rt_object_allocate RT_Object_Class_Mutex nm;
  match mutex with
  | None => mret None
  | Some o =>
      in_k (in_sched (rt_ipc_object_init o));;
      in_ipc (put_mutex o (mk_mutex flag 1 0xff 0 None));;
      mret (Some o)
  end.

Definition rt_mutex_delete (fuel : nat) (mutex : oid) : M dyn Z :=
  in_k (rt_ipc_list_resume_all fuel (LSusp mutex));;
  rt_object_delete mutex;;
  mret RT_EOK.

Definition rt_event_create (nm : list Z) (flag : Z) : M dyn (option oid) :=
  event ← rt_object_allocate RT_Object_Class_Event nm;
  match event with
  | None => mret None
  | Some o =>
      in_k (in_sched (rt_ipc_object_init o));;
      in_ipc (put_event o (mk_event flag 0));;
      mret (Some o)
  end.

Definition rt_event_delete (fuel : nat) (event : oid) : M dyn Z :=
  in_k (rt_ipc_list_resume_all fuel (LSusp event));;
  rt_object_delete event;;
  mret RT_EOK.

(** A pool of [n] bytes for object [o]; without it the object goes again. *)
Definition alloc_pool (o : oid) (n : Z) : M dyn bool :=
  p ← in_heap (rt_malloc n);
  if p =? 0 then rt_object_delete o;; mret false
  else modify (fun d => set_d_block (<[o := p]> (d_block d)) d);; mret true.

Definition free_pool (o : oid) : M dyn unit :=
  b ← gets d_block;
  p ← deref (b !! o);
  in_heap (rt_free p);;
  modify (fun d => set_d_block (delete o (d_block d)) d).

(** [junk] is what the pool holds before it is used. *)
Definition rt_mb_create (junk : list Z) (nm : list Z) (size flag : Z) : M dyn (option oid) :=
  mb ← rt_object_allocate RT_Object_Class_MailBox nm;
  match mb with
  | None => mret None
  | Some o =>
      in_k (in_sched (rt_ipc_object_init o));;
      let size := u16 size in
      ok ← alloc_pool o (size * 4);
      if negb ok then mret None else
      in_ipc (put_mb o (mk_mb flag junk size 0 0 0));;
      in_k (in_sched (tlist_init (LSender o)));;
      mret (Some o)
  end.

Definition rt_mb_delete (fuel : nat) (mb : oid) : M dyn Z :=
  in_k (rt_ipc_list_resume_all fuel (LSusp mb));;
  in_k (rt_ipc_list_resume_all fuel (LSender mb));;
  free_pool mb;;
  rt_object_delete mb;;
  mret RT_EOK.

Definition rt_mq_create (junk : list mq_slot) (nm : list Z) (msg_size_ max_msgs_ flag : Z) : M dyn (option oid) :=
  mq ← rt_object_allocate RT_Object_Class_MessageQueue nm;
  match mq with
  | None => mret None
  | Some o =>
      in_k (in_sched (rt_ipc_object_init o));;
      let msg_size := u16 (MsgQueue.RT_ALIGN msg_size_ MsgQueue.RT_ALIGN_SIZE) in
      let max_msgs := u16 max_msgs_ in
      ok ← alloc_pool o (u32 ((msg_size + sizeof_rt_mq_message) * max_msgs));
      if negb ok then mret None else
      '(pool, free) ← deref (mq_free_all (Z.to_nat max_msgs) 0 junk None);
      in_ipc (put_mq o (mk_mq flag pool msg_size max_msgs 0 None None free));;
      in_k (in_sched (tlist_init (LSender o)));;
      mret (Some o)
  end.

Definition rt_mq_delete (fuel : nat) (mq : oid) : M dyn Z :=
  in_k (rt_ipc_list_resume_all fuel (LSusp mq));;
  in_k (rt_ipc_list_resume_all fuel (LSender mq));;
  free_pool mq;;
  rt_object_delete mq;;
  mret RT_EOK.

(** ** timer.c *)

Definition rt_timer_create (nm : list Z) (timeout : Tmr.callback) (param : oid) (time flg : Z) : M dyn (option oid) :=
  timer ← rt_object_allocate RT_Object_Class_Timer nm;
  match timer with
  | None => mret None
  | Some o =>
      in_k (in_timer (Tmr._rt_timer_init (Obj o) timeout param time flg));;
      mret (Some o)
  end.

Definition drop_timer (t : ref) (k : kernel) : kernel :=
  set_k_timer (Tmr.set_timers (delete t (Tmr.timers (k_timer k))) (k_timer k)) k.

Definition rt_timer_delete (timer : oid) : M dyn Z :=
  in_k (in_timer (Tmr._rt_timer_remove (Obj timer)));;
  in_k (in_timer (Tmr.upd_timer (Obj timer) (Tmr.clear_flag Tmr.RT_TIMER_FLAG_ACTIVATED)));;
  rt_object_delete timer;;
  in_k (modify (drop_timer (Obj timer)));;
  mret RT_EOK.

(** ** thread.c and idle.c *)

Definition rt_thread_create (nm : list Z) (entry_ param stack_size_ priority tick : Z) : M dyn (option oid) :=
  thread ← rt_object_allocate RT_Object_Class_Thread nm;
  match thread with
  | None => mret None
  | Some o =>
      stack_start ← in_heap (rt_malloc stack_size_);
      if stack_start =? 0 then rt_object_delete o;; mret None else
      in_k (_rt_thread_init o entry_ param stack_start stack_size_ priority tick);;
      mret (Some o)
  end.

(** The thread and the timer in it are no longer there. *)
Definition drop_thread (t : oid) (k : kernel) : kernel :=
  drop_timer (ThreadTimer t)
    (set_k_obj (mk_objs (delete (ThreadTimer t) (headers (k_obj k))) (containers (k_obj k)))
       (set_k_sched (set_threads (delete t (threads (k_sched k))) (k_sched k)) k)).

(** A round of the loop of [rt_thread_idle_excute]. *)
Definition reclaim_thread (thread : oid) : M dyn unit :=
  in_k (in_sched (tlist_remove thread));;
  th ← in_k (in_sched (get_thread thread));
  in_heap (rt_free (stack_addr th));;
  rt_object_delete thread;;
  in_k (modify (drop_thread thread)).

(** The loop ends when no dead thread is left; [fuel] bounds its rounds. *)
Fixpoint rt_thread_idle_excute (fuel : nat) : M dyn unit :=
  xs ← in_k (in_sched (get_list LDefunct));
  match xs with
  | [] => mret tt
  | thread :: _ =>
      match fuel with
      | O => fault
      | S fuel => reclaim_thread thread;; rt_thread_idle_excute fuel
      end
  end.

End Dynamic.
Arguments dyn : clear implicits.

(** ** The state with objects from the heap *)

Abbreviation d_kernel d := (i_kernel (d_ipc d)).

Section Proofs.
Context {A : Type} {AA : Allocator A} {AL : AllocatorLaws A} {AR : ArenaLaws A}.
Implicit Types d : dyn A.

(** Nothing in the kernel refers to address [o]. *)
Record unused (o : oid) (k : kernel) : Prop := {
  un_obj : ~ object_linked (k_obj k) (Obj o);
  un_susp : members (k_sched k) (LSusp o) = [];
  un_sender : members (k_sched k) (LSender o) = []
}.

(** The heap has exactly the blocks [v], the blocks of [os] are kernel objects,
    and the kernel refers to no other address of the heap. *)
Record dyn_ok d (v : gmap Z Z) (os : gset oid) : Prop := {
  dy_kinv : kinv (d_kernel d);
  dy_held : held (d_heap d) v;
  dy_objs : forall o, o ∈ os -> is_Some (v !! Z.pos o);
  dy_free : forall o, fst (arena (d_heap d)) <= Z.pos o < snd (arena (d_heap d)) ->
    o ∉ os -> unused o (d_kernel d)
}.

Lemma wp_in_ipc {B} (m : M ipc B) d (Q : B -> dyn A -> Prop) :
  wp m (d_ipc d) (fun b i => Q b (set_d_ipc i d)) -> wp (in_ipc m) d Q.
Proof. apply wp_zoom. Qed.
Lemma wp_in_heap {B} (m : M A B) d (Q : B -> dyn A -> Prop) :
  wp m (d_heap d) (fun b h => Q b (set_d_heap h d)) -> wp (in_heap m) d Q.
Proof. apply wp_zoom. Qed.
Lemma wp_in_k {B} (m : M kernel B) d (Q : B -> dyn A -> Prop) :
  wp m (d_kernel d) (fun b k => Q b (set_d_ipc (set_i_kernel k (d_ipc d)) d)) -> wp (in_k m) d Q.
Proof. intros W. apply wp_in_ipc. by apply wp_in_kernel. Qed.

(** A new block: its address is not in use. *)
Lemma wp_new_block n d v os (Q : Z -> dyn A -> Prop) :
  dyn_ok d v os -> 0 < n < 2 ^ 31 ->
  Q 0 d ->
  (forall o k h', v !! Z.pos o = None -> o ∉ os -> unused o (d_kernel d) -> held h' (<[Z.pos o := k]> v) ->
     n <= k -> arena h' = arena (d_heap d) -> Q (Z.pos o) (set_d_heap h' d)) ->
  wp (in_heap (rt_malloc n)) d Q.
Proof.
  intros [Hk Hh Ho Hf] Hn H0 HQ. apply wp_in_heap.
  eapply wp_mono; [eapply wp_keeps; [apply malloc_arena|apply malloc_law; [exact Hh|lia|lia]]|].
  intros p h' [[[-> ->]|(k & Hk' & Hnew & Hh')] Ha].
  - by destruct d.
  - pose proof (lookup_insert_eq v p k) as Hl. pose proof (held_range _ _ p k Hh' Hl) as (Hp & _).
    destruct p as [|o|]; try lia.
    assert (o ∉ os) as Hno by (intros Hin; destruct (Ho o Hin); congruence).
    apply (HQ o k); try done.
    apply Hf; [|done]. rewrite <- Ha. by eapply held_arena.
Qed.

(** The kernel after [rt_object_allocate]. *)
Definition named_k (o : oid) (t : rt_object_class_type) (nm' : list Z) (l : list ref) (k : kernel) : kernel :=
  set_k_obj (mk_objs (<[Obj o := mk_object nm' (class_code t)]> (headers (k_obj k)))
    ((fun e => if decide (fst e = t) then (t, Obj o :: l) else e) <$> containers (k_obj k))) k.

Lemma wp_object_allocate object_size t nm nm' l d v os (Q : option oid -> dyn A -> Prop) :
  0 < object_size t < 2 ^ 31 -> dyn_ok d v os -> rt_strncpy nm RT_NAME_MAX = Some nm' ->
  container_of t (containers (k_obj (d_kernel d))) = Some l ->
  Q None d ->
  (forall o k h', v !! Z.pos o = None -> o ∉ os -> unused o (d_kernel d) -> held h' (<[Z.pos o := k]> v) ->
     arena h' = arena (d_heap d) ->
     Q (Some o) (mk_dyn (set_i_kernel (named_k o t nm' l (d_kernel d)) (d_ipc d)) h' (d_block d))) ->
  wp (rt_object_allocate object_size t nm) d Q.
Proof.
  intros Hsz Hd Hnm Hl H0 HQ. unfold rt_object_allocate. wp_step. apply wp_in_k, wp_in_obj.
  unfold rt_object_get_information. wp_step. rewrite Hl. wp_step. eapply wp_deref; [done|].
  replace (set_d_ipc _ d) with d by (by destruct d as [[[]]]). wp_step.
  eapply wp_new_block; [exact Hd|exact Hsz|by wp_steps|].
  intros o k h' Hnew Hno Hu Hh' _ Ha. simpl. wp_step. eapply wp_deref; [done|]. wp_steps. simpl.
  rewrite bool_decide_false by apply Hu. wp_step. apply wp_in_k, wp_in_obj. unfold set_container. wp_steps.
  by apply (HQ o k).
Qed.

(** Linking object [o] leaves other addresses unused. *)
Lemma linked_named o t nm' l k x :
  container_of t (containers (k_obj k)) = Some l -> Obj o <> x ->
  object_linked (k_obj (named_k o t nm' l k)) x -> object_linked (k_obj k) x.
Proof.
  intros Hl Hne. unfold object_linked, named_k. simpl. rewrite !Exists_exists.
  intros (e & He & Hx). apply list_elem_of_fmap in He as (e0 & -> & He0).
  destruct (decide (fst e0 = t)) as [<-|]; [|by exists e0]. simpl in Hx.
  apply elem_of_cons in Hx as [->|Hx]; [done|].
  destruct (k_obj k) as [hs cs]. simpl in *.
  apply Exists_exists. by apply (container_of_linked (fst e0) cs hs l).
Qed.

Lemma unused_named o t nm' l k x :
  container_of t (containers (k_obj k)) = Some l -> o <> x -> unused x k -> unused x (named_k o t nm' l k).
Proof.
  intros Hl Hne [H1 H2 H3]. split; [|done|done]. intros Hx. apply H1. eapply linked_named; [done| |done]. congruence.
Qed.

(** From [k] to [k'] only address [o] is taken or given up. *)
Definition only_at (o : oid) (k k' : kernel) : Prop := forall x, x <> o -> unused x k -> unused x k'.

Lemma only_at_trans o k1 k2 k3 : only_at o k1 k2 -> only_at o k2 k3 -> only_at o k1 k3.
Proof. unfold only_at. auto. Qed.

Lemma dyn_ok_new o n d d' v os :
  dyn_ok d v os -> kinv (d_kernel d') -> held (d_heap d') (<[Z.pos o := n]> v) ->
  arena (d_heap d') = arena (d_heap d) -> only_at o (d_kernel d) (d_kernel d') ->
  dyn_ok d' (<[Z.pos o := n]> v) ({[o]} ∪ os).
Proof.
  intros [Hk Hh Hos Hf] Hk' Hh' Ha Ho. split; [done|done|..].
  - intros x Hx. apply lookup_insert_is_Some'. destruct (decide (x = o)) as [->|]; [by left|right].
    apply Hos. set_solver.
  - intros x Hx Hv. rewrite Ha in Hx. apply Ho; [set_solver|]. apply Hf; [done|set_solver].
Qed.

Lemma dyn_ok_gone o d d' v os :
  dyn_ok d v os -> kinv (d_kernel d') -> held (d_heap d') (delete (Z.pos o) v) ->
  arena (d_heap d') = arena (d_heap d) -> only_at o (d_kernel d) (d_kernel d') ->
  unused o (d_kernel d') -> dyn_ok d' (delete (Z.pos o) v) (os ∖ {[o]}).
Proof.
  intros [Hk Hh Hos Hf] Hk' Hh' Ha Ho Hu. split; [done|done|..].
  - intros x Hx. rewrite lookup_delete_ne; [apply Hos; set_solver|]. assert (x <> o) by set_solver. congruence.
  - intros x Hx Hv. rewrite Ha in Hx. destruct (decide (x = o)) as [->|Hne]; [done|]. apply Ho; [done|].
    apply Hf; [done|set_solver].
Qed.

(** The heads of the wait queues of a new object. *)
Definition list_head (l : lhead) (s : sched) : sched := set_tlists (<[l := []]> (tlists s)) s.

Lemma wp_list_head l o d (Q : unit -> dyn A -> Prop) :
  kinv (d_kernel d) -> l = LSusp o \/ l = LSender o -> members (k_sched (d_kernel d)) l = [] ->
  (forall s', let k' := set_k_sched s' (d_kernel d) in
     kinv k' -> tlists s' = <[l := []]> (tlists (k_sched (d_kernel d))) ->
     rt_current_thread s' = rt_current_thread (k_sched (d_kernel d)) -> only_at o (d_kernel d) k' ->
     s' = list_head l (k_sched (d_kernel d)) ->
     Q tt (set_d_ipc (set_i_kernel k' (d_ipc d)) d)) ->
  wp (in_k (in_sched (tlist_init l))) d Q.
Proof.
  intros Hk Hl Hm HQ. apply wp_in_k, wp_in_sched. unfold tlist_init, set_list. wp_step.
  apply HQ; [|done|done| |done].
  - apply kinv_list_init; [done|by destruct Hl as [-> | ->]|done].
  - intros x Hx [H1 H2 H3].
    split; [done|..]; unfold members in *; simpl; rewrite lookup_insert_ne; try done;
      destruct Hl as [-> | ->]; congruence.
Qed.

(** The state after [rt_object_delete]. *)
Definition unlinked_obj (o : oid) (st : obj_st) : obj_st :=
  mk_objs (headers st) ((fun e => (fst e, filter (fun x => x <> Obj o) (snd e))) <$> containers st).
Definition deleted (o : oid) (i : ipc) : ipc :=
  drop_object o (set_i_kernel (set_k_obj (unlinked_obj o (k_obj (i_kernel i))) (i_kernel i)) i).

Lemma unlink_absent (o : ref) (l : list ref) : o ∉ l -> filter (fun x => x <> o) l = l.
Proof. exact (Tmr.unlink_id o l). Qed.

(** Unlinking what has just been linked to a container gives the table back. *)
Lemma relink_containers (t : rt_object_class_type) (o : ref) (l : list ref) (cs : list (rt_object_class_type * list ref)) :
  NoDup (fst <$> cs) -> container_of t cs = Some l -> ~ Exists (fun e => o ∈ snd e) cs ->
  (fun e => (fst e, filter (fun x => x <> o) (snd e))) <$>
    ((fun e => if decide (fst e = t) then (t, o :: l) else e) <$> cs) = cs.
Proof.
  induction cs as [|[c x] cs IH]; [done|]. simpl. rewrite NoDup_cons, Exists_cons. intros [Hc Hnd] Hl Hno.
  simpl in Hno.
  destruct (decide (c = t)) as [->|Hne]; simpl.
  - injection Hl as ->. rewrite filter_cons_False by tauto. rewrite unlink_absent by tauto. f_equal.
    rewrite <- list_fmap_compose. rewrite <- (list_fmap_id cs) at 2. apply list_fmap_ext.
    intros i [c y] Hi. simpl. assert ((c, y) ∈ cs) as Hin by (by eapply list_elem_of_lookup_2).
    assert (c <> t) by (intros ->; apply Hc; by apply (list_elem_of_fmap_2' fst _ (t, y))).
    rewrite decide_False by done. simpl. rewrite unlink_absent; [done|].
    intros Hz. apply Hno. right. apply Exists_exists. by eexists.
  - rewrite unlink_absent by tauto. f_equal. apply IH; tauto.
Qed.

(** An object that is linked, perhaps given a wait queue, and deleted again
    leaves the kernel as it was, less the entries at its address. *)
Lemma created_deleted o t nm' l s' (i : ipc) :
  NoDup (fst <$> containers (k_obj (i_kernel i))) -> container_of t (containers (k_obj (i_kernel i))) = Some l ->
  ~ object_linked (k_obj (i_kernel i)) (Obj o) -> drop_lists o s' = drop_lists o (k_sched (i_kernel i)) ->
  deleted o (set_i_kernel (set_k_sched s' (named_k o t nm' l (i_kernel i))) i) = drop_object o i.
Proof.
  intros Hnd Hl Hn Hs. unfold deleted, drop_object, unlinked_obj, named_k, drop_obj. simpl.
  by rewrite Hs, relink_containers, delete_insert_eq.
Qed.

Lemma drop_list_head o s : drop_lists o (list_head (LSusp o) s) = drop_lists o s.
Proof. unfold drop_lists, list_head. simpl. by rewrite delete_insert_eq. Qed.

(** The last part of the delete functions: the wait queues are empty. *)
Lemma wp_object_delete_at o h n d v os (Q : unit -> dyn A -> Prop) :
  dyn_ok d v os -> v !! Z.pos o = Some n -> headers (k_obj (d_kernel d)) !! Obj o = Some h ->
  members (k_sched (d_kernel d)) (LSusp o) = [] -> members (k_sched (d_kernel d)) (LSender o) = [] ->
  (forall h', dyn_ok (mk_dyn (deleted o (d_ipc d)) h' (d_block d)) (delete (Z.pos o) v) (os ∖ {[o]}) ->
     Q tt (mk_dyn (deleted o (d_ipc d)) h' (d_block d))) ->
  wp (rt_object_delete o) d Q.
Proof.
  intros Hd Hv Hh Hs1 Hs2 HQ. pose proof Hd as [Hk Hhd _ Hf]. unfold rt_object_delete. wp_step.
  apply wp_in_k, wp_in_obj. unfold get_header. wp_steps. eapply wp_deref; [done|]. wp_step.
  apply wp_in_k, wp_in_obj. unfold object_unlink. wp_step. wp_step. apply wp_in_heap.
  eapply wp_mono; [eapply wp_keeps; [apply free_arena|eapply free_law; [exact Hhd|exact Hv]]|].
  intros [] h' [Hh' Ha]. wp_step. cbn [d_heap set_d_ipc] in Ha. apply (HQ h').
  set (d' := mk_dyn (deleted o (d_ipc d)) h' (d_block d)).
  assert (forall l, members (k_sched (d_kernel d')) l = members (k_sched (d_kernel d)) l) as Hmem.
  { intros l. unfold members at 1, d'. simpl. destruct (decide (l = LSender o)) as [->|].
    { by rewrite lookup_delete_eq, Hs2. }
    rewrite lookup_delete_ne by done. destruct (decide (l = LSusp o)) as [->|].
    { by rewrite lookup_delete_eq, Hs1. }
    by rewrite lookup_delete_ne. }
  assert (forall x, object_linked (k_obj (d_kernel d')) x -> object_linked (k_obj (d_kernel d)) x /\ x <> Obj o) as Hlk.
  { intros x. unfold object_linked, d'. simpl. rewrite !Exists_exists. intros (e & He & Hx).
    apply list_elem_of_fmap in He as (e0 & -> & He0). apply list_elem_of_filter in Hx as [Hne Hx].
    split; [|done]. by exists e0. }
  apply (dyn_ok_gone o d); try done.
  - apply (kinv_tlists _ (set_k_obj (k_obj (d_kernel d')) (d_kernel d))); [by apply kinv_obj|done|].
    intros l Hl. simpl. rewrite !lookup_delete_ne; [done|..]; intros <-; by apply Hl.
  - intros x Hx [H1 H2 H3]. split; [|by rewrite Hmem..]. intros Hl. by apply H1, Hlk.
  - split; [|by rewrite Hmem..]. intros Hl. by apply Hlk in Hl as [_ ?].
Qed.

Lemma wp_object_delete o h n d v os (Q : unit -> dyn A -> Prop) :
  dyn_ok d v os -> v !! Z.pos o = Some n -> headers (k_obj (d_kernel d)) !! Obj o = Some h ->
  members (k_sched (d_kernel d)) (LSusp o) = [] -> members (k_sched (d_kernel d)) (LSender o) = [] ->
  (forall i' h', dyn_ok (mk_dyn i' h' (d_block d)) (delete (Z.pos o) v) (os ∖ {[o]}) ->
     threads (i_sched i') = threads (k_sched (d_kernel d)) -> Q tt (mk_dyn i' h' (d_block d))) ->
  wp (rt_object_delete o) d Q.
Proof. intros Hd Hv Hh Hs1 Hs2 HQ. eapply wp_object_delete_at; [done..|]. intros h' Hd'. by apply HQ. Qed.

Lemma dyn_ok_cancels o l xs k' d v os :
  dyn_ok d v os -> o ∈ os -> l = LSusp o \/ l = LSender o -> cancels l xs (d_kernel d) k' ->
  dyn_ok (set_d_ipc (set_i_kernel k' (d_ipc d)) d) v os.
Proof.
  intros [Hk Hh Hos Hf] Hv Hl [Hk' _ _ Hls _ _ _ Hob]. split; [done|done|done|]. intros x Hx Hnone.
  destruct (Hf x Hx Hnone) as [H1 H2 H3]. assert (x <> o) by congruence.
  split; simpl; [by rewrite Hob|..]; unfold members in *; rewrite Hls; try done; destruct Hl as [-> | ->]; congruence.
Qed.

(** A woken thread whose wait was cancelled. *)
Definition cancelled (s : sched) (t : oid) : Prop :=
  exists th, threads s !! t = Some th /\ runnable th /\ error th = - RT_ERROR.

Definition name_fits (t : rt_object_class_type) (nm : list Z) d : Prop :=
  is_Some (rt_strncpy nm RT_NAME_MAX) /\ is_Some (container_of t (containers (k_obj (d_kernel d)))).

(** An object [o] of the heap with the block of [n] bytes and a header. *)
Record object_in (o : oid) (n : Z) d (v : gmap Z Z) (os : gset oid) : Prop := {
  oi_ok : dyn_ok d v os;
  oi_in : o ∈ os;
  oi_block : v !! Z.pos o = Some n;
  oi_header : is_Some (headers (k_obj (d_kernel d)) !! Obj o)
}.

(** The delete functions of objects with one wait queue. *)
Lemma wp_delete_one o n q fuel d v os (Q : Z -> dyn A -> Prop) :
  object_in o n d v os -> (exists c, rt_current_thread (k_sched (d_kernel d)) = Some c) ->
  tlists (k_sched (d_kernel d)) !! LSusp o = Some q -> members (k_sched (d_kernel d)) (LSender o) = [] ->
  (length q <= fuel)%nat ->
  (forall d', dyn_ok d' (delete (Z.pos o) v) (os ∖ {[o]}) -> d_block d' = d_block d ->
     (forall t, t ∈ q -> cancelled (k_sched (d_kernel d')) t) -> Q RT_EOK d') ->
  wp (in_k (rt_ipc_list_resume_all fuel (LSusp o));; rt_object_delete o;; mret RT_EOK) d Q.
Proof.
  intros [Hd Hin Hv [hd Hhd]] [c Hc] Hq Hse Hfuel HQ. wp_step. apply wp_in_k.
  apply (resume_all_spec fuel (LSusp o) q c); [apply Hd|done..|]. intros k' Hcn Hc'. wp_step.
  pose proof (dyn_ok_cancels o (LSusp o) q k' d v os Hd Hin ltac:(by left) Hcn) as Hd'.
  eapply (wp_object_delete o hd n _ v os); [exact Hd'|done|simpl; by rewrite (cn_obj _ _ _ _ Hcn)|..].
  { unfold members. simpl. by rewrite (cn_queue _ _ _ _ Hcn). }
  { unfold members in *. simpl. by rewrite (cn_lists _ _ _ _ Hcn). }
  intros i' h2 Hd3 Et. wp_step. apply HQ; [done|done|]. intros t Ht. simpl.
  destruct (cn_woken _ _ _ _ Hcn t Ht) as (th & H1 & H2 & E). exists th. simpl in Et. by rewrite Et.
Qed.

End Proofs.

Section Pools.
Context {A : Type} {AA : Allocator A} {AL : AllocatorLaws A} {AR : ArenaLaws A}.
Implicit Types d : dyn A.

(** ** Objects with a pool *)

(** An object with a second block of [m] bytes at [p]. *)
Record pooled (o : oid) (n p m : Z) d (v : gmap Z Z) (os : gset oid) : Prop := {
  pl_object : object_in o n d v os;
  pl_pool : d_block d !! o = Some p;
  pl_block : v !! p = Some m;
  pl_plain : forall x, x ∈ os -> Z.pos x <> p
}.

Lemma dyn_ok_free p d h' v os :
  dyn_ok d v os -> held h' (delete p v) -> arena h' = arena (d_heap d) ->
  (forall x, x ∈ os -> Z.pos x <> p) -> dyn_ok (set_d_heap h' d) (delete p v) os.
Proof.
  intros [Hk Hh Hos Hf] Hh' Ha Hp. split; [done|done|..].
  - intros x Hx. rewrite lookup_delete_ne by (intros E; by apply (Hp x Hx)). by apply Hos.
  - intros x. simpl. rewrite Ha. apply Hf.
Qed.

Lemma dyn_ok_block p m d h' v os :
  dyn_ok d v os -> held h' (<[p := m]> v) -> arena h' = arena (d_heap d) ->
  dyn_ok (set_d_heap h' d) (<[p := m]> v) os.
Proof.
  intros [Hk Hh Hos Hf] Hh' Ha. split; [done|done|..].
  - intros x Hx. apply lookup_insert_is_Some'. right. by apply Hos.
  - intros x. simpl. rewrite Ha. apply Hf.
Qed.

Lemma dyn_ok_pools b d v os : dyn_ok d v os -> dyn_ok (set_d_block b d) v os.
Proof. by intros []. Qed.

(** The delete functions of objects with two wait queues and a pool. *)
Lemma wp_delete_pooled o n p m rs ss fuel d v os (Q : Z -> dyn A -> Prop) :
  pooled o n p m d v os -> (exists c, rt_current_thread (k_sched (d_kernel d)) = Some c) ->
  tlists (k_sched (d_kernel d)) !! LSusp o = Some rs -> tlists (k_sched (d_kernel d)) !! LSender o = Some ss ->
  (length rs + length ss <= fuel)%nat ->
  (forall d', dyn_ok d' (delete (Z.pos o) (delete p v)) (os ∖ {[o]}) -> d_block d' = delete o (d_block d) ->
     (forall t, t ∈ rs ++ ss -> cancelled (k_sched (d_kernel d')) t) -> Q RT_EOK d') ->
  wp (rt_mb_delete fuel o) d Q.
Proof.
  intros [[Hd Hin Hv [hd Hhd]] Hb Hp Hpl] [c Hc] Hr Hs Hfuel HQ. unfold rt_mb_delete. wp_step. apply wp_in_k.
  apply (resume_all_spec fuel (LSusp o) rs c); [apply Hd|done..|lia|]. intros k1 Hc1 Hcur1. wp_step. apply wp_in_k.
  pose proof (dyn_ok_cancels o (LSusp o) rs k1 d v os Hd Hin ltac:(by left) Hc1) as Hd1.
  pose proof (cn_lists _ _ _ _ Hc1 (LSender o) I ltac:(done)) as HL. rewrite Hs in HL.
  apply (resume_all_spec fuel (LSender o) ss c); [apply Hc1|done|exact HL|done|lia|]. intros k2 Hc2 Hcur2.
  pose proof (dyn_ok_cancels o (LSender o) ss k2 _ v os Hd1 Hin ltac:(by right) Hc2) as Hd2.
  wp_step. unfold free_pool. wp_steps. eapply wp_deref; [exact Hb|]. wp_step. apply wp_in_heap.
  eapply wp_mono; [eapply wp_keeps; [apply free_arena|eapply free_law; [apply Hd2|exact Hp]]|].
  intros [] h' [Hh' Ha]. wp_steps.
  pose proof (dyn_ok_pools (delete o (d_block d)) _ _ _ (dyn_ok_free p _ h' v os Hd2 Hh' Ha Hpl)) as Hd3.
  eapply (wp_object_delete o hd n _ (delete p v) os); [exact Hd3| |..].
  { rewrite lookup_delete_ne; [done|]. intros E. by apply (Hpl o Hin). }
  { simpl. rewrite (cn_obj _ _ _ _ Hc2). simpl. by rewrite (cn_obj _ _ _ _ Hc1). }
  { unfold members. simpl. rewrite (cn_lists _ _ _ _ Hc2) by done. simpl. by rewrite (cn_queue _ _ _ _ Hc1). }
  { unfold members. simpl. by rewrite (cn_queue _ _ _ _ Hc2). }
  intros i' h2 Hd4 Et. wp_step. apply HQ; [done|done|]. simpl in Et. unfold cancelled. simpl. rewrite Et.
  intros t [Ht|Ht]%elem_of_app; [|by apply (cn_woken _ _ _ _ Hc2)].
  destruct (cn_woken _ _ _ _ Hc1 t Ht) as (th & Hth & Hru & Ee).
  destruct (cn_frame _ _ _ _ Hc2 t th Hth) as [_ H]. destruct H as (th2 & Hth2 & Hr2 & E2 & _); [|done|].
  - intros Hts. eapply (queues_disjoint (d_kernel d) (LSusp o) (LSender o) rs ss t); try done. apply Hd.
  - exists th2. split; [done|]. split; [done|]. congruence.
Qed.
End Pools.

(** ** From creation to deletion *)

Section Lifecycle.
Context {A : Type} {AA : Allocator A} {AL : AllocatorLaws A} {AR : ArenaLaws A}.
Context (object_size : rt_object_class_type -> Z).
Hypothesis size_ok : forall t, 0 < object_size t < 2 ^ 31.
Implicit Types d : dyn A.

(** A semaphore from the heap: when there is no memory [rt_sem_create]
    returns NULL and changes nothing; otherwise it returns a semaphore with the
    given value and no waiting thread in a new block.  [rt_sem_delete], at any
    later time and with any threads waiting, terminates, gives exactly this
    block back, leaves no reference to it in the kernel, and every thread that
    waited can run and returns from [rt_sem_take] with [-RT_ERROR]. *)
Theorem sem_create_delete nm value flag d v os :
  dyn_ok d v os -> name_fits RT_Object_Class_Semaphore nm d ->
  (exists c, rt_current_thread (k_sched (d_kernel d)) = Some c) ->
  (flag = RT_IPC_FLAG_FIFO \/ flag = RT_IPC_FLAG_PRIO) ->
  wp (rt_sem_create object_size nm value flag) d (fun r d1 =>
    match r with
    | None => d1 = d
    | Some o => exists n, v !! Z.pos o = None /\ object_in o n d1 (<[Z.pos o := n]> v) ({[o]} ∪ os) /\
        sem_inv o (u16 value) [] (d_ipc d1) /\
        forall d2 v2 os2 val q fuel, object_in o n d2 v2 os2 -> sem_inv o val q (d_ipc d2) ->
          members (k_sched (d_kernel d2)) (LSender o) = [] -> (length q <= fuel)%nat ->
          wp (rt_sem_delete fuel o) d2 (fun r' d3 =>
            r' = RT_EOK /\ dyn_ok d3 (delete (Z.pos o) v2) (os2 ∖ {[o]}) /\
            forall t, t ∈ q -> cancelled (k_sched (d_kernel d3)) t /\
              wp (rt_sem_take_resumed t) (d_ipc d3) (fun e _ => e = - RT_ERROR))
    end).
Proof.
  intros Hd [[nm' Hnm] [l Hl]] [c Hc] Hflag. unfold rt_sem_create. wp_step.
  eapply wp_object_allocate; [apply size_ok|done..|by wp_steps|]. intros o n h' Hnew Hno Hu Hh' Ha.
  set (k1 := named_k o RT_Object_Class_Semaphore nm' l (d_kernel d)).
  assert (kinv k1) as Hk1 by (apply kinv_obj, Hd).
  wp_step. eapply (wp_list_head (LSusp o) o); [exact Hk1|by left|apply Hu|].
  intros s' k2 Hk2 El Ec Ho _. wp_step. apply wp_in_ipc. unfold put_sem. wp_steps. exists n. split; [done|].
  split; [|split].
  - split; [|set_solver|apply lookup_insert_eq|simpl; rewrite lookup_insert_eq; by eexists].
    apply (dyn_ok_new o n d); try done. eapply only_at_trans; [|exact Ho]. intros x Hx. by apply unused_named.
  - split; simpl; try done.
    + exists c. by rewrite Ec.
    + exists flag. split; [apply lookup_insert_eq|done].
    + by rewrite El, lookup_insert_eq.
    + pose proof (uwrap_range 16 value ltac:(lia)). unfold RT_SEM_VALUE_MAX. c_lia.
    + intros t Ht. by apply elem_of_nil in Ht.
  - intros d2 v2 os2 val q fuel Hin Hs2 Hse Hfuel. destruct Hs2 as [_ Hc2 _ Hq _ _ _].
    eapply (wp_delete_one o n q); [done..|]. intros d3 Hd3 _ Hcan. split; [done|]. split; [done|].
    intros t Ht. split; [by apply Hcan|]. destruct (Hcan t Ht) as (th & H1 & H2 & E).
    unfold rt_sem_take_resumed. wp_step. eapply wp_thread_error; [done|]. rewrite E. by wp_steps.
Qed.

(** C23. A mailbox from the heap takes two blocks, or none: when one of them is
    not to be had, [rt_mb_create] returns NULL and the heap holds exactly the
    blocks it held before.  Without the first nothing has changed at all.
    Without the second the threads, the ready queue, the timers, the containers
    and all objects are as before: the state of the kernel is the old one less
    what it said of the address [o] of the block that was given back, which was
    free and to which nothing in the kernel referred.  Otherwise it returns an
    empty mailbox.  [rt_mb_delete], at any later time and with any receivers and
    senders waiting, terminates, gives exactly the two blocks back, and every
    thread that waited can run with the error [-RT_ERROR]. *)
Theorem mb_create_delete junk nm size flag d v os :
  dyn_ok d v os -> name_fits RT_Object_Class_MailBox nm d ->
  (exists c, rt_current_thread (k_sched (d_kernel d)) = Some c) ->
  (flag = RT_IPC_FLAG_FIFO \/ flag = RT_IPC_FLAG_PRIO) ->
  0 < size < 2 ^ 16 -> Z.of_nat (length junk) = size ->
  NoDup (fst <$> containers (k_obj (d_kernel d))) ->
  wp (rt_mb_create object_size junk nm size flag) d (fun r d1 =>
    match r with
    | None => dyn_ok d1 v os /\ d_block d1 = d_block d /\
        (d1 = d \/ exists o, v !! Z.pos o = None /\ unused o (d_kernel d) /\ d_ipc d1 = drop_object o (d_ipc d))
    | Some o => exists n p m, v !! Z.pos o = None /\ v !! p = None /\ size * 4 <= m /\
        pooled o n p m d1 (<[p := m]> (<[Z.pos o := n]> v)) ({[o]} ∪ os) /\
        mb_inv o size [] [] [] (d_ipc d1) /\
        forall d2 v2 os2 sz msgs rs ss fuel, pooled o n p m d2 v2 os2 -> mb_inv o sz msgs rs ss (d_ipc d2) ->
          (length rs + length ss <= fuel)%nat ->
          wp (rt_mb_delete fuel o) d2 (fun r' d3 =>
            r' = RT_EOK /\ dyn_ok d3 (delete (Z.pos o) (delete p v2)) (os2 ∖ {[o]}) /\
            d_block d3 = delete o (d_block d2) /\
            forall t, t ∈ rs ++ ss -> cancelled (k_sched (d_kernel d3)) t)
    end).
Proof.
  intros Hd [[nm' Hnm] [l Hl]] [c Hc] Hflag Hsize Hjunk Hcs. unfold rt_mb_create. wp_step.
  eapply wp_object_allocate; [apply size_ok|done..|wp_steps; split; [done|]; split; [done|by left]|].
  intros o n h' Hnew Hno Hu Hh' Ha.
  set (k1 := named_k o RT_Object_Class_MailBox nm' l (d_kernel d)).
  assert (kinv k1) as Hk1 by (apply kinv_obj, Hd).
  wp_step. eapply (wp_list_head (LSusp o) o); [exact Hk1|by left|apply Hu|].
  intros s' k2 Hk2 El Ec Ho Es.
  match goal with |- wp _ ?x _ => set (d2 := x) end.
  assert (dyn_ok d2 (<[Z.pos o := n]> v) ({[o]} ∪ os)) as Hd2.
  { apply (dyn_ok_new o n d); try done. eapply only_at_trans; [|exact Ho]. intros x Hx. by apply unused_named. }
  assert (members (k_sched (d_kernel d2)) (LSender o) = []) as Hm2.
  { unfold members. simpl. rewrite El, lookup_insert_ne by done. apply (un_sender _ _ Hu). }
  assert (is_Some (headers (k_obj (d_kernel d2)) !! Obj o)) as [hd Hhd] by (simpl; rewrite lookup_insert_eq; by eexists).
  cbv zeta. rewrite (uwrap_small 16 size) by c_lia.
  wp_step. unfold alloc_pool. wp_step. eapply wp_new_block; [exact Hd2|lia|..].
  - simpl. wp_step. eapply (wp_object_delete_at o hd n _ _ _); [exact Hd2|apply lookup_insert_eq|exact Hhd|..|].
    { unfold members. simpl. by rewrite El, lookup_insert_eq. }
    { exact Hm2. }
    intros h2 Hd3. wp_steps. split; [|split; [done|]].
    2: { right. exists o. split; [done|]. split; [done|]. subst s'.
         exact (created_deleted o RT_Object_Class_MailBox nm' l _ (d_ipc d) Hcs Hl (un_obj _ _ Hu) (drop_list_head _ _)). }
    rewrite delete_insert_id in Hd3 by done. by replace (({[o]} ∪ os) ∖ {[o]}) with os in Hd3 by set_solver.
  - intros po m h2 Hnp Hnpo Hup Hh2 Hm Ha2. simpl. wp_steps. simpl. wp_step. apply wp_in_ipc. unfold put_mb. wp_steps.
    apply lookup_insert_None in Hnp as [Hnp Hne].
    eapply (wp_list_head (LSender o) o); [exact Hk2|by right|exact Hm2|].
    intros s3 k3 Hk3 El3 Ec3 Ho3 _. simpl in El3, Ec3. wp_steps. exists n, (Z.pos po), m.
    split; [done|]. split; [done|]. split; [done|]. split; [|split].
    + split; [|simpl; apply lookup_insert_eq|apply lookup_insert_eq|intros x Hx [= ->]; done].
      split; [|set_solver|rewrite lookup_insert_ne by done; apply lookup_insert_eq|].
      * split; [done|done|..].
        -- intros x Hx. apply lookup_insert_is_Some'. right. by apply (dy_objs _ _ _ Hd2).
        -- intros x Hx Hnx. simpl in Hx. rewrite Ha2 in Hx. apply Ho3; [set_solver|]. by apply (dy_free _ _ _ Hd2).
      * simpl. by exists hd.
    + split; simpl; try done.
      * exists c. by rewrite Ec3, Ec.
      * eexists. split; [apply lookup_insert_eq|]. split; [|split; done].
        split; simpl; try done; unfold RT_MB_ENTRY_MAX; try c_lia; by rewrite Zmod_0_l.
      * by rewrite El3, lookup_insert_ne, El, lookup_insert_eq by done.
      * by rewrite El3, lookup_insert_eq.
      * intros t Ht. by apply elem_of_nil in Ht.
      * intros t Ht. by apply elem_of_nil in Ht.
    + intros d4 v2 os2 sz msgs rs ss fuel Hpl Hmb Hfuel.
      eapply wp_delete_pooled; [exact Hpl|apply Hmb|apply Hmb|apply Hmb|done|]. done.
Qed.
End Lifecycle.

(** ** Concrete runs *)

Definition demo_size (t : rt_object_class_type) : Z := 40.
Lemma demo_size_ok t : 0 < demo_size t < 2 ^ 31.
Proof. done. Qed.

Definition demo_dyn : dyn Mem.heap := mk_dyn demo_ipc Mem.heap_a ∅.

Definition unused_check (o : oid) (k : kernel) : bool :=
  negb (bool_decide (object_linked (k_obj k) (Obj o))) &&
  bool_decide (members (k_sched k) (LSusp o) = []) && bool_decide (members (k_sched k) (LSender o) = []).

Lemma unused_range lo n k :
  forallb (fun i => unused_check (Pos.of_nat i) k) (seq lo n) = true ->
  forall o, Z.of_nat lo <= Z.pos o < Z.of_nat (lo + n) -> unused o k.
Proof.
  intros Hc o Ho. rewrite forallb_forall in Hc. specialize (Hc (Pos.to_nat o)). rewrite Pos2Nat.id in Hc.
  specialize (Hc ltac:(apply in_seq; lia)). unfold unused_check in Hc.
  rewrite !andb_true_iff, negb_true_iff, bool_decide_eq_false, !bool_decide_eq_true in Hc.
  destruct Hc as [[H1 H2] H3]. by split.
Qed.

Lemma demo_dyn_ok : dyn_ok demo_dyn ∅ ∅.
Proof.
  split; [exact demo_ipc_kinv|exact heap_a_held|set_solver|]. intros o Ho _.
  assert (arena (d_heap demo_dyn) = (4096, 4284)) as E by (vm_compute; done). rewrite E in Ho. cbn [fst snd] in Ho.
  refine (unused_range 4096 200 _ _ o _); [vm_compute; reflexivity|lia].
Qed.

Definition demo_name : list Z := [115; 0].

Lemma demo_name_fits t : is_Some (container_of t (containers (k_obj (i_kernel demo_ipc)))) -> name_fits t demo_name demo_dyn.
Proof. intros Hl. split; [by eexists|exact Hl]. Qed.

Lemma sem_create_delete_witness :
  exists o d1 d2, rt_sem_create demo_size demo_name 3 RT_IPC_FLAG_FIFO demo_dyn = Some (Some o, d1) /\
    rt_sem_delete 0 o d1 = Some (RT_EOK, d2) /\ held (d_heap d2) ∅.
Proof.
  destruct (proj1 (wp_Some _ _ _) (sem_create_delete demo_size demo_size_ok demo_name 3 RT_IPC_FLAG_FIFO demo_dyn ∅ ∅
    demo_dyn_ok (demo_name_fits RT_Object_Class_Semaphore ltac:(by eexists)) ltac:(by eexists) ltac:(by left))) as (r & d1 & E & H).
  destruct r as [o|]; [|vm_compute in E; discriminate E].
  destruct H as (n & _ & Hin & Hs & H).
  assert (members (k_sched (d_kernel d1)) (LSender o) = []) as Hm
    by (vm_compute in E; injection E as <- <-; vm_compute; reflexivity).
  destruct (proj1 (wp_Some _ _ _) (H d1 _ _ _ [] 0%nat Hin Hs Hm ltac:(simpl; lia))) as (r' & d2 & E2 & -> & Hd & _).
  exists o, d1, d2. split; [exact E|]. split; [exact E2|].
  rewrite delete_insert_id in Hd by (apply lookup_empty). apply Hd.
Defined.

Lemma two_blocks (o : oid) p n m :
  Z.pos o <> p -> delete (Z.pos o) (delete p (<[p := m]> (<[Z.pos o := n]> (∅ : gmap Z Z)))) = ∅.
Proof.
  intros Hne. rewrite delete_insert_id by (rewrite lookup_insert_ne by done; apply lookup_empty).
  apply delete_insert_id, lookup_empty.
Qed.

(** A mailbox of two messages comes and goes; for one of 100 messages there is
    room for the first block only. *)
Lemma mb_create_delete_witness :
  (exists o d1 d2, rt_mb_create demo_size [7; 7] demo_name 2 RT_IPC_FLAG_PRIO demo_dyn = Some (Some o, d1) /\
     rt_mb_delete 0 o d1 = Some (RT_EOK, d2) /\ held (d_heap d2) ∅) /\
  exists d1, rt_mb_create demo_size (repeat 7 100) demo_name 100 RT_IPC_FLAG_PRIO demo_dyn = Some (None, d1) /\
    held (d_heap d1) ∅ /\ k_timer (d_kernel d1) = k_timer (d_kernel demo_dyn).
Proof.
  split.
  - destruct (proj1 (wp_Some _ _ _) (mb_create_delete demo_size demo_size_ok [7; 7] demo_name 2 RT_IPC_FLAG_PRIO demo_dyn ∅ ∅
      demo_dyn_ok (demo_name_fits RT_Object_Class_MailBox ltac:(by eexists)) ltac:(by eexists) ltac:(by right) ltac:(lia) eq_refl
      ltac:(apply (bool_decide_unpack _); vm_compute; exact I))) as (r & d1 & E & H).
    destruct r as [o|]; [|vm_compute in E; discriminate E].
    destruct H as (n & p & m & Hno & Hnp & _ & Hpl & Hmb & H).
    destruct (proj1 (wp_Some _ _ _) (H d1 _ _ _ _ _ _ 0%nat Hpl Hmb ltac:(simpl; lia))) as (r' & d2 & E2 & -> & Hd & _).
    exists o, d1, d2. split; [exact E|]. split; [exact E2|].
    pose proof (dy_held _ _ _ Hd) as Hh.
    rewrite (two_blocks o p n m (pl_plain _ _ _ _ _ _ _ Hpl o ltac:(set_solver +))) in Hh. exact Hh.
  - destruct (proj1 (wp_Some _ _ _) (mb_create_delete demo_size demo_size_ok (repeat 7 100) demo_name 100 RT_IPC_FLAG_PRIO
      demo_dyn ∅ ∅ demo_dyn_ok (demo_name_fits RT_Object_Class_MailBox ltac:(by eexists)) ltac:(by eexists) ltac:(by right)
      ltac:(lia) eq_refl ltac:(apply (bool_decide_unpack _); vm_compute; exact I))) as (r & d1 & E & H).
    assert (fst <$> rt_mb_create demo_size (repeat 7 100) demo_name 100 RT_IPC_FLAG_PRIO demo_dyn = Some None) as E0
      by (vm_compute; reflexivity).
    rewrite E in E0. injection E0 as ->. destruct H as (Hd & _ & Hk).
    exists d1. split; [exact E|]. split; [apply Hd|].
    destruct Hk as [->|(o & _ & _ & ->)]; reflexivity.
Defined.

(** ** Dead threads *)

Lemma kinv_unlink_closed t th k :
  kinv k -> threads (k_sched k) !! t = Some th -> stat_of th = RT_THREAD_CLOSE ->
  kinv (set_k_sched (unlinked_st t (k_sched k)) k).
Proof.
  intros Hk Ht Hst. pose proof (ki_sched k Hk) as Hi. pose proof (thread_ok_of k t th Hk Ht) as Hok.
  assert (forall q, ~ inl_ (k_sched k) (LReady q) t) as Hq.
  { intros q Hin. apply Hok in Hin. simpl in Hin. destruct Hin as (E & _). rewrite Hst in E. done. }
  destruct (inv_but_unlinked _ t _ Hi Hq) as [Hl Hx].
  apply kinv_sched; [done| |done|intros x xh Hxh Hin; by apply (ki_wait k Hk x)].
  split; [done|]. intros x xh Hxh _. simpl in Hxh. destruct (decide (x = t)) as [->|Hne].
  - rewrite Ht in Hxh. injection Hxh as <-. destruct Hok as (_ & _ & H3 & H4 & H5).
    split; [intros l Hin; by apply inl_unlinked in Hin as [_ ?]|]. rewrite Hst. split_and!; try done.
  - apply Hx; [done|]. intros [[]|]; done.
Qed.

Lemma kinv_drop_thread t k :
  kinv k -> (forall l, ~ inl_ (k_sched k) l t) -> rt_current_thread (k_sched k) <> Some t ->
  ~ Tmr.timer_attached (k_timer k) (ThreadTimer t) -> kinv (drop_thread t k).
Proof.
  intros Hk Hnl Hnc Hna. rewrite Tmr.attached_all_rows in Hna.
  pose proof (kinv_lists k Hk) as Hs. pose proof (ki_sched k Hk) as [_ Hi]. split; simpl.
  - split.
    + split; simpl; try apply Hs.
      * intros l x Hin. rewrite lookup_delete_ne; [by apply (lo_threads _ Hs) in Hin|]. intros <-. by apply (Hnl l).
      * intros x Hx. rewrite lookup_delete_ne by congruence. by apply (lo_current _ Hs).
    + intros x xh Hx Hn. simpl in Hx. apply lookup_delete_Some in Hx as [Hne Hx]. exact (Hi x xh Hx Hn).
  - destruct (ki_timers k Hk) as [T1 T2 T3 T4 T5]. split; simpl; try done.
    + intros x Hx. rewrite lookup_delete_ne by (intros <-; done). by apply T2.
    + intros x tm Hx. apply lookup_delete_Some in Hx as [_ Hx]. by apply T3.
    + intros x tm Hx. apply lookup_delete_Some in Hx as [_ Hx]. by apply T4.
    + intros x tm Hx. apply lookup_delete_Some in Hx as [_ Hx]. by apply T5.
  - intros x. destruct (decide (x = t)) as [->|Hne].
    + rewrite !lookup_delete_eq. split; [by intros []|]. by intros (? & ? & _).
    + rewrite !lookup_delete_ne by congruence. apply (ki_ttimer k Hk).
  - intros x tm Hx. apply lookup_delete_Some in Hx as [_ Hx]. by apply (ki_only k Hk).
  - intros x xh Hx. apply lookup_delete_Some in Hx as [_ Hx]. by apply (ki_wait k Hk).
  - intros x tm Hx. apply lookup_delete_Some in Hx as [_ Hx]. by apply (ki_user k Hk) in Hx.
Qed.

Section Reclaim.
Context {A : Type} {AA : Allocator A} {AL : AllocatorLaws A} {AR : ArenaLaws A}.
Implicit Types d : dyn A.

(** Thread [t], from the heap, is dead: it waits on the defunct list for its
    stack at [st] and its structure to be given back. *)
Record dead (t : oid) (st : Z) d (v : gmap Z Z) (os : gset oid) : Prop := {
  de_thread : exists th, threads (k_sched (d_kernel d)) !! t = Some th /\ stat_of th = RT_THREAD_CLOSE /\
    stack_addr th = st;
  de_object : t ∈ os /\ is_Some (headers (k_obj (d_kernel d)) !! Obj t);
  de_stack : is_Some (v !! st) /\ forall x, x ∈ os -> Z.pos x <> st;
  de_lists : members (k_sched (d_kernel d)) (LSusp t) = [] /\ members (k_sched (d_kernel d)) (LSender t) = [];
  de_timer : ~ Tmr.timer_attached (k_timer (d_kernel d)) (ThreadTimer t);
  de_current : rt_current_thread (k_sched (d_kernel d)) <> Some t
}.

(** The heap without the blocks of the dead threads. *)
Fixpoint reclaimed (ts : list (oid * Z)) (v : gmap Z Z) : gmap Z Z :=
  match ts with [] => v | (t, st) :: ts => reclaimed ts (delete (Z.pos t) (delete st v)) end.

(** One round. *)
Lemma wp_reclaim t st ts d v os (Q : unit -> dyn A -> Prop) :
  dyn_ok d v os -> tlists (k_sched (d_kernel d)) !! LDefunct = Some (t :: ts) -> dead t st d v os ->
  (forall d', dyn_ok d' (delete (Z.pos t) (delete st v)) (os ∖ {[t]}) ->
     tlists (k_sched (d_kernel d')) !! LDefunct = Some ts ->
     (forall x sx, x <> t -> sx <> st -> dead x sx d v os ->
        dead x sx d' (delete (Z.pos t) (delete st v)) (os ∖ {[t]})) -> Q tt d') ->
  wp (reclaim_thread t) d Q.
Proof.
  intros Hd Hl Hdead HQ. pose proof Hdead as [(th & Ht & Hst & Hsa) [Hin [hd Hhd]] [[m Hm] Hpl] [Hls Hlse] Htm Hcur].
  pose proof Hd as [Hk Hheld Hos Hf]. unfold reclaim_thread.
  wp_step. apply wp_in_k, wp_in_sched. apply wp_tlist_remove.
  pose proof (kinv_unlink_closed t th _ Hk Ht Hst) as Hk1.
  assert (forall l, members (unlinked_st t (k_sched (d_kernel d))) l = filter (fun x => x <> t) (members (k_sched (d_kernel d)) l))
    as Hmem by (intros; apply members_unlinked).
  match goal with |- wp _ ?x _ => set (d1 := x) end.
  assert (dyn_ok d1 v os) as Hd1.
  { split; [done|done|done|]. intros x Hx Hnx. destruct (Hf x Hx Hnx) as [U1 U2 U3].
    split; [done|..]; simpl; rewrite Hmem; [by rewrite U2|by rewrite U3]. }
  wp_step. apply wp_in_k, wp_in_sched. eapply wp_get_thread; [exact Ht|]. rewrite Hsa.
  replace (set_d_ipc _ d1) with d1 by (by destruct d as [[[]]]).
  wp_step. apply wp_in_heap.
  eapply wp_mono; [eapply wp_keeps; [apply free_arena|eapply free_law; [exact Hheld|exact Hm]]|].
  intros [] h' [Hh' Ha].
  pose proof (dyn_ok_free st d1 h' v os Hd1 Hh' Ha Hpl) as Hd2.
  destruct (Hos t Hin) as [n Hn]. wp_step.
  eapply (wp_object_delete_at t hd n _ (delete st v) os); [exact Hd2| |exact Hhd|..].
  { rewrite lookup_delete_ne; [done|]. intros E. by apply (Hpl t Hin). }
  { simpl. by rewrite Hmem, Hls. }
  { simpl. by rewrite Hmem, Hlse. }
  intros h2 Hd3. apply wp_in_k. wp_step.
  assert (forall l, members (k_sched (d_kernel (mk_dyn (deleted t (d_ipc d1)) h2 (d_block d)))) l =
    filter (fun x => x <> t) (members (k_sched (d_kernel d)) l)) as Hmem3.
  { intros l. rewrite <- Hmem. unfold members. simpl. destruct (decide (l = LSender t)) as [->|].
    { rewrite lookup_delete_eq. unfold members in Hlse. rewrite lookup_fmap.
      by destruct (tlists _ !! LSender t) as [[]|]. }
    rewrite lookup_delete_ne by done. destruct (decide (l = LSusp t)) as [->|].
    { rewrite lookup_delete_eq. unfold members in Hls. rewrite lookup_fmap. by destruct (tlists _ !! LSusp t) as [[]|]. }
    by rewrite lookup_delete_ne. }
  pose proof (lo_nodup _ (kinv_lists _ Hk) LDefunct) as Hnd. unfold members in Hnd. rewrite Hl in Hnd. simpl in Hnd.
  apply NoDup_cons in Hnd as [Hnt Hnd].
  apply HQ.
  - destruct Hd3 as [K1 K2 K3 K4]. split; [|done|done|].
    + apply kinv_drop_thread; [done|..]; try done.
      intros l Hil. unfold inl_ in Hil. rewrite Hmem3 in Hil. by apply list_elem_of_filter in Hil as [? _].
    + intros x Hx Hnx. destruct (K4 x Hx Hnx) as [U1 U2 U3]. by split.
  - simpl. rewrite !lookup_delete_ne, lookup_fmap, Hl by done. simpl. f_equal.
    rewrite filter_cons_False by tauto. by apply filter_ne_id.
  - intros x sx Hx Hsx [(xh & X1 & X2 & X3) [X4 X5] [X6 X7] [X8 X9] X10 X11]. split; simpl.
    + exists xh. by rewrite lookup_delete_ne by done.
    + split; [set_solver|]. rewrite !lookup_delete_ne by congruence. done.
    + split; [|intros y Hy; apply X7; set_solver].
      rewrite !lookup_delete_ne; [done|done|]. intros E. by apply (X7 t Hin).
    + pose proof (Hmem3 (LSusp x)) as E1. pose proof (Hmem3 (LSender x)) as E2. rewrite X8 in E1. rewrite X9 in E2. by split.
    + done.
    + done.
Qed.

(** C24. The idle thread gives back the memory of dead threads: whatever number
    of threads from the heap is on the defunct list, [rt_thread_idle_excute]
    terminates, leaves the list empty, returns exactly the stacks and the
    thread structures to the heap and leaves no reference to them; the kernel
    invariant holds. *)
Theorem idle_reclaims ts fuel d v os :
  dyn_ok d v os -> tlists (k_sched (d_kernel d)) !! LDefunct = Some ts.*1 ->
  NoDup ts.*2 -> Forall (fun x => dead (fst x) (snd x) d v os) ts -> (length ts <= fuel)%nat ->
  wp (rt_thread_idle_excute fuel) d (fun _ d' =>
    dyn_ok d' (reclaimed ts v) (os ∖ list_to_set ts.*1) /\
    tlists (k_sched (d_kernel d')) !! LDefunct = Some []).
Proof.
  revert fuel d v os. induction ts as [|[t st] ts IH]; intros fuel d v os Hd Hl Hnd Hdead Hfuel.
  - destruct fuel; cbn [rt_thread_idle_excute]; wp_step; apply wp_in_k, wp_in_sched;
      (eapply wp_get_list; [exact Hl|]); wp_steps;
      (replace (set_d_ipc _ d) with d by (by destruct d as [[[]]]));
      (split; [|done]); simpl; by rewrite difference_empty_L.
  - destruct fuel as [|fuel]; [simpl in Hfuel; lia|]. cbn [rt_thread_idle_excute]. wp_step. apply wp_in_k, wp_in_sched.
    eapply wp_get_list; [exact Hl|]. replace (set_d_ipc _ d) with d by (by destruct d as [[[]]]).
    apply Forall_cons in Hdead as [Hdt Hdead]. apply NoDup_cons in Hnd as [Hst Hnd].
    pose proof (lo_nodup _ (kinv_lists _ (dy_kinv _ _ _ Hd)) LDefunct) as Hnt. unfold members in Hnt.
    rewrite Hl in Hnt. simpl in Hnt. apply NoDup_cons in Hnt as [Hnt _].
    change ((fst <$> (t, st) :: ts)) with (t :: ts.*1). cbv beta iota. wp_step.
    eapply (wp_reclaim t st ts.*1); [exact Hd|exact Hl|exact Hdt|]. intros d' Hd' Hl' Hframe.
    eapply wp_mono; [apply (IH fuel d' _ _ Hd' Hl' Hnd); [|simpl in Hfuel; lia]|].
    { rewrite Forall_forall in Hdead |- *. intros [x sx] Hx. simpl. apply Hframe; [..|exact (Hdead _ Hx)].
      - intros ->. apply Hnt. apply list_elem_of_fmap. by exists (t, sx).
      - intros ->. apply Hst. apply list_elem_of_fmap. by exists (x, st). }
    intros [] d2 [Hd2 Hl2]. split; [|done]. simpl.
    by replace (os ∖ ({[t]} ∪ list_to_set ts.*1)) with (os ∖ {[t]} ∖ list_to_set ts.*1) by set_solver.
Qed.

End Reclaim.


(** A thread from the heap that was deleted before it ran. *)
Definition dead_run : M (dyn Mem.heap) (oid * Z) :=
  t ← rt_thread_create demo_size demo_name 0 0 64 20 5;
  thread ← deref t;
  in_k (rt_thread_delete (fun _ _ => mret tt) thread);;
  th ← in_k (in_sched (get_thread thread));
  mret (thread, stack_addr th).

Definition demo_dead : oid * Z * dyn Mem.heap :=
  match dead_run demo_dyn with Some r => r | None => (1%positive, 0, demo_dyn) end.

Definition two_mallocs : M Mem.heap (Z * Z) := p ← rt_malloc 40; q ← rt_malloc 64; mret (p, q).

Lemma two_mallocs_held hd : two_mallocs Mem.heap_a = Some ((4108, 4160), hd) ->
  exists k m, held hd (<[4160 := m]> (<[4108 := k]> ∅)).
Proof.
  intros E2.
  assert (wp two_mallocs Mem.heap_a (fun r h => r = (4108, 4160) ->
    exists k m, held h (<[4160 := m]> (<[4108 := k]> ∅)))) as W.
  { unfold two_mallocs. wp_step. eapply wp_mono; [apply malloc_law; [exact heap_a_held|lia..]|].
    intros p h1 [[-> ->]|(k & _ & _ & H1)]; wp_step;
      [eapply wp_mono; [apply malloc_law; [exact heap_a_held|lia..]|]; intros; by wp_steps|].
    eapply wp_mono; [apply malloc_law; [exact H1|lia..]|].
    intros q h2 [[-> ->]|(m & _ & _ & H2)]; wp_step; [done|]. intros [= -> ->]. by exists k, m. }
  apply wp_Some in W as (r & h & E & H).
  rewrite E in E2. injection E2 as -> ->. by apply H.
Qed.

Lemma demo_dead_held : exists k m, held (d_heap (snd demo_dead)) (<[4160 := m]> (<[4108 := k]> ∅)).
Proof. apply two_mallocs_held. vm_compute. reflexivity. Qed.

Lemma demo_dead_arena : arena (d_heap (snd demo_dead)) = (4096, 4284).
Proof. vm_compute. done. Qed.

Lemma demo_dead_ok : exists v, dyn_ok (snd demo_dead) v {[4108%positive]} /\ is_Some (v !! 4160).
Proof.
  destruct demo_dead_held as (k & m & Hh). eexists. split; [|rewrite lookup_insert_eq; by eexists].
  split; [apply kernel_check_sound, (bool_decide_unpack _); vm_compute; exact I|exact Hh|..].
  - intros o ->%elem_of_singleton. rewrite lookup_insert_ne, lookup_insert_eq by done. by eexists.
  - intros o Ho Hno. rewrite demo_dead_arena in Ho. cbn [fst snd] in Ho. rewrite elem_of_singleton in Hno.
    destruct (decide (Z.pos o < 4108)).
    + refine (unused_range 4096 12 _ _ o _); [vm_compute; reflexivity|lia].
    + refine (unused_range 4109 180 _ _ o _); [vm_compute; reflexivity|lia].
Qed.

Lemma idle_reclaims_witness : exists (d' : dyn Mem.heap) (v : gmap Z Z), rt_thread_idle_excute 1 (snd demo_dead) = Some (tt, d') /\
  held (d_heap d') (delete 4108 (delete 4160 v)) /\ tlists (k_sched (d_kernel d')) !! LDefunct = Some [].
Proof.
  destruct demo_dead_ok as (v & Hd & Hv).
  destruct (proj1 (wp_Some _ _ _) (idle_reclaims [(4108%positive, 4160)] 1 (snd demo_dead) v _ Hd
    ltac:(vm_compute; reflexivity) ltac:(apply NoDup_singleton)
    ltac:(apply Forall_singleton; split;
      [eexists; split; [vm_compute; reflexivity|split; vm_compute; reflexivity]
      |split; [set_solver +|eexists; vm_compute; reflexivity]
      |split; [exact Hv|by intros x ->%elem_of_singleton]
      |split; vm_compute; reflexivity
      |apply (bool_decide_unpack _); vm_compute; exact I
      |vm_compute; discriminate]) ltac:(simpl; lia))) as ([] & d' & E & Hd' & Hl).
  exists d', v. split; [exact E|]. split; [apply Hd'|exact Hl].
Defined.

(** ** The hooks of the idle thread *)

(** The search loops of [rt_thread_idle_sethook] and [rt_thread_idle_delhook]:
    the first entry [old] becomes [new].  A hook is the address of a
    function, [None] is the null pointer. *)
Fixpoint hook_replace (old new : option Z) (l : list (option Z)) : option (list (option Z)) :=
  match l with
  | [] => None
  | h :: l => if decide (h = old) then Some (new :: l) else cons h <$> hook_replace old new l
  end.

Definition rt_thread_idle_sethook (hook : option Z) : M (list (option Z)) Z :=
  idle_hook_list ← gets id;
  match hook_replace None hook idle_hook_list with
  | Some l => modify (fun _ => l);; mret RT_EOK
  | None => mret (- RT_EFULL)
  end.

Definition rt_thread_idle_delhook (hook : option Z) : M (list (option Z)) Z :=
  idle_hook_list ← gets id;
  match hook_replace hook None idle_hook_list with
  | Some l => modify (fun _ => l);; mret RT_EOK
  | None => mret (- Dev.RT_ENOSYS)
  end.

(** A replacement exchanges one entry and keeps all others. *)
Lemma hook_replace_perm old new l l' : hook_replace old new l = Some l' -> new :: l ≡ₚ old :: l'.
Proof.
  revert l'. induction l as [|h l IH]; intros l'; simpl; [done|]. case_decide as Hd.
  - intros [= <-]. subst. constructor.
  - intros (l1 & E & ->)%fmap_Some. rewrite (Permutation_swap h new), (Permutation_swap h old).
    constructor. by apply IH.
Qed.

Lemma hook_replace_None old new l : hook_replace old new l = None <-> old ∉ l.
Proof.
  induction l as [|h l IH]; simpl; [set_solver|]. case_decide as Hd; [set_solver|].
  rewrite fmap_None, IH, not_elem_of_cons. intuition congruence.
Qed.

End Dyn.
