(* ===== verification/DynPool.v ===== *)
(** * Memory pools and devices from the heap

    Model of [rt_mp_create] and [rt_mp_delete] of mempool.c and of
    [rt_device_create] and [rt_device_destroy] of device.c, over the allocator
    interface of file Alloc.  A pool from the heap has two blocks: the object
    and the memory of its blocks.  As in file Dynamic an object from the heap
    is named by its address and is gone from the state when it is deleted. *)
From stdpp Require Import base list gmap.
From Stdlib Require Import ZArith Lia.
From S2P Require Import Prelude Scheduler Object Timer Thread Ipc Mailbox SmallMem Alloc Mempool Device Dynamic.

Module DynPool.
Import Sched Obj Thr Ipc Mailbox Alloc Dyn.

Section Definitions.
Context {A : Type} {AA : Allocator A}.
Context (object_size : rt_object_class_type -> Z).

(** The kernel with the memory pools, and the heap. *)
Record mpd := mk_mpd {
  md_mp : Mempool.mp_st;
  md_heap : A
}.

Definition as_dyn (s : mpd) : dyn A := mk_dyn (fst (Mempool.m_sys (md_mp s))) (md_heap s) ∅.
Definition set_dyn (d : dyn A) (s : mpd) : mpd := mk_mpd (Mempool.set_m_ipc (d_ipc d) (md_mp s)) (d_heap d).
Definition in_dyn {B} (m : M (dyn A) B) : M mpd B := zoom as_dyn set_dyn m.
Definition in_mp {B} (m : M Mempool.mp_st B) : M mpd B := zoom md_mp (fun v s => mk_mpd v (md_heap s)) m.

Definition rt_mp_create (nm : list Z) (block_count bsize : Z) : M mpd (option oid) :=
  mp ← in_dyn (rt_object_allocate object_size RT_Object_Class_MemPool nm);
  match mp with
  | None => mret None
  | Some o =>
      let bsize := Mem.RT_ALIGN bsize Mem.RT_ALIGN_SIZE in
      let stride := u32 (bsize + Mempool.SIZEOF_PTR) in
      let size := u32 (stride * block_count) in
      start ← in_dyn (in_heap (rt_malloc size));
      if start =? 0 then in_dyn (rt_object_delete o);; mret None else
      in_dyn (in_k (in_sched (tlist_init (LSusp o))));;
      in_mp (Mempool.mp_link_blocks start size stride (Z.to_nat block_count) 0;;
             Mempool.store_in start size (u32 (start + u32 (u32 (block_count - 1) * stride))) 0;;
             Mempool.put_pool o (Mempool.mk_mp start size bsize start block_count block_count));;
      mret (Some o)
  end.

(** The pool and its memory are no longer there. *)
Definition drop_pool (o : oid) (p : Mempool.rt_mempool) (s : Mempool.mp_st) : Mempool.mp_st :=
  Mempool.mk_mp_st (Mempool.m_sys s) (delete o (Mempool.pools s))
    (filter (fun e => ~ Mempool.start_address p <= fst e < Mempool.start_address p + Mempool.mp_size p)
       (Mempool.words s)).

Definition rt_mp_delete (fuel : nat) (mp : oid) : M mpd Z :=
  in_dyn (in_k (rt_ipc_list_resume_all fuel (LSusp mp)));;
  p ← in_mp (Mempool.get_pool mp);
  in_dyn (in_heap (rt_free (Mempool.start_address p)));;
  in_dyn (rt_object_delete mp);;
  in_mp (modify (drop_pool mp p));;
  mret RT_EOK.

(** A new device is all zero but for its type; it has no object header before
    [rt_device_register].  The second result is the structure. *)
Definition rt_device_create (sizeof_device type attach_size : Z) : M (dyn A) (option (oid * (Z * Dev.rt_device))) :=
  let size := Mem.RT_ALIGN sizeof_device Mem.RT_ALIGN_SIZE in
  let attach_size := Mem.RT_ALIGN attach_size Mem.RT_ALIGN_SIZE in
  device ← in_heap (rt_malloc (u32 (size + attach_size)));
  if device =? 0 then mret None
  else mret (Some (Z.to_pos device, (type, Dev.mk_dev 0 0 0 None None))).

Definition rt_device_destroy (dev : oid) : M (dyn A) unit :=
  in_k (in_obj (rt_object_detach (Obj dev)));;
  in_heap (rt_free (Z.pos dev));;
  modify (fun d => set_d_ipc (drop_object dev (d_ipc d)) d).

End Definitions.
Arguments mpd : clear implicits.

(** ** A pool from creation to deletion *)

Section Proofs.
Context {A : Type} {AA : Allocator A} {AL : AllocatorLaws A} {AR : ArenaLaws A}.
Context (object_size : rt_object_class_type -> Z).
Hypothesis size_ok : forall t, 0 < object_size t < 2 ^ 31.
Implicit Types s : mpd A.

Lemma wp_in_dyn {B} (m : M (dyn A) B) s (Q : B -> mpd A -> Prop) :
  wp m (as_dyn s) (fun b d => Q b (set_dyn d s)) -> wp (in_dyn m) s Q.
Proof. apply wp_zoom. Qed.
Lemma wp_in_mp {B} (m : M Mempool.mp_st B) s (Q : B -> mpd A -> Prop) :
  wp m (md_mp s) (fun b t => Q b (mk_mpd t (md_heap s))) -> wp (in_mp m) s Q.
Proof. exact (wp_zoom md_mp (fun v s => mk_mpd v (md_heap s)) m s Q). Qed.
Lemma set_dyn_id s : set_dyn (as_dyn s) s = s.
Proof. by destruct s as [[[]]]. Qed.

(** Pool [o] with its object of [n] bytes and its memory of [m] bytes. *)
Record pool_in (o : oid) (p : Mempool.rt_mempool) (n m : Z) s (v : gmap Z Z) (os : gset oid) : Prop := {
  pi_object : object_in o n (as_dyn s) v os;
  pi_block : v !! Mempool.start_address p = Some m;
  pi_plain : forall x, x ∈ os -> Z.pos x <> Mempool.start_address p;
  pi_single : members (k_sched (d_kernel (as_dyn s))) (LSender o) = []
}.

Lemma mp_delete_wp timer_thread o p n m fs q fuel s v os :
  pool_in o p n m s v os -> Mempool.mp_inv o p fs q (md_mp s) -> (length q <= fuel)%nat ->
  wp (rt_mp_delete fuel o) s (fun r s' =>
    r = RT_EOK /\ dyn_ok (as_dyn s') (delete (Z.pos o) (delete (Mempool.start_address p) v)) (os ∖ {[o]}) /\
    Mempool.pools (md_mp s') = delete o (Mempool.pools (md_mp s)) /\
    forall t, t ∈ q -> cancelled (k_sched (d_kernel (as_dyn s'))) t /\
      wp (Mempool.rt_mp_alloc_resumed timer_thread o (mk_mb_wait t 0 0)) (md_mp s') (fun out _ => out = Returned 0)).
Proof.
  intros [[Hd Hin Hv [hd Hhd]] Hb Hpl Hse] [_ (c & Hc) Hpool _ Hq _] Hfuel. unfold rt_mp_delete.
  wp_step. apply wp_in_dyn, wp_in_k.
  apply (resume_all_spec fuel (LSusp o) q c); [apply Hd|done|exact Hq|exact Hc|done|]. intros k1 Hc1 Hcur1. wp_step.
  pose proof (dyn_ok_cancels o (LSusp o) q k1 _ v os Hd Hin ltac:(by left) Hc1) as Hd1.
  apply wp_in_mp. eapply Mempool.wp_get_pool; [exact Hpool|]. wp_step. apply wp_in_dyn, wp_in_heap.
  eapply wp_mono; [eapply wp_keeps; [apply free_arena|eapply free_law; [apply Hd1|exact Hb]]|].
  intros [] h' [Hh' Ha]. wp_step. apply wp_in_dyn.
  pose proof (dyn_ok_free _ _ h' v os Hd1 Hh' Ha Hpl) as Hd2.
  eapply (wp_object_delete o hd n _ (delete (Mempool.start_address p) v) os); [exact Hd2| |..].
  { rewrite lookup_delete_ne; [done|]. intros E. by apply (Hpl o Hin). }
  { simpl. by rewrite (cn_obj _ _ _ _ Hc1). }
  { unfold members. simpl. by rewrite (cn_queue _ _ _ _ Hc1). }
  { unfold members in *. simpl. by rewrite (cn_lists _ _ _ _ Hc1). }
  intros i' h2 Hd3 Et. wp_step. apply wp_in_mp. wp_steps. split; [done|]. split; [exact Hd3|]. split; [done|].
  intros t Ht. destruct (cn_woken _ _ _ _ Hc1 t Ht) as (th & Hth & Hru & Ee). simpl in Et.
  assert (threads (i_sched i') !! t = Some th) as Hth' by (by rewrite Et).
  split; [by exists th|]. unfold Mempool.rt_mp_alloc_resumed. wp_step. apply Mempool.wp_mp_ipc.
  eapply wp_thread_error; [exact Hth'|]. rewrite Ee. by wp_steps.
Qed.

(** The pool [rt_mp_create] makes of [count] blocks of [bsize] bytes. *)
Definition created (start count bsize : Z) : Mempool.rt_mempool :=
  let bs := (bsize + 3) / 4 * 4 in Mempool.mk_mp start ((bs + 4) * count) bs start count count.

(** A memory pool from the heap: [rt_mp_create] takes two blocks or none.
    When there is no memory it returns NULL, the heap holds what it held and
    the pools are as before; so is the kernel, less what it said of the address
    of a block that was free and is free again; otherwise it returns a pool of [count] free blocks of at least
    [bsize] bytes inside the new memory.  [rt_mp_delete], at any later time and
    with any threads waiting, terminates, gives exactly the two blocks back,
    leaves no reference to the pool, and every thread that waited can run and
    its [rt_mp_alloc] returns NULL. *)
Theorem mp_create_delete timer_thread nm count bsize s v os :
  dyn_ok (as_dyn s) v os -> name_fits RT_Object_Class_MemPool nm (as_dyn s) ->
  (exists c, rt_current_thread (k_sched (d_kernel (as_dyn s))) = Some c) ->
  0 < count -> 0 < bsize -> (bsize + 7) * count < 2 ^ 31 ->
  NoDup (fst <$> containers (k_obj (d_kernel (as_dyn s)))) ->
  wp (rt_mp_create object_size nm count bsize) s (fun r s1 =>
    match r with
    | None => dyn_ok (as_dyn s1) v os /\ Mempool.pools (md_mp s1) = Mempool.pools (md_mp s) /\
        Mempool.words (md_mp s1) = Mempool.words (md_mp s) /\
        (s1 = s \/ exists o, v !! Z.pos o = None /\ unused o (d_kernel (as_dyn s)) /\
           d_ipc (as_dyn s1) = drop_object o (d_ipc (as_dyn s)))
    | Some o => exists n m start, let p := created start count bsize in
        v !! Z.pos o = None /\ v !! start = None /\ Mempool.mp_size p <= m /\
        pool_in o p n m s1 (<[start := m]> (<[Z.pos o := n]> v)) ({[o]} ∪ os) /\
        Mempool.mp_inv o p (Mempool.slots p) [] (md_mp s1) /\
        forall s2 v2 os2 p2 fs q fuel, Mempool.same_area p p2 -> pool_in o p2 n m s2 v2 os2 ->
          Mempool.mp_inv o p2 fs q (md_mp s2) -> (length q <= fuel)%nat ->
          wp (rt_mp_delete fuel o) s2 (fun r' s3 =>
            r' = RT_EOK /\ dyn_ok (as_dyn s3) (delete (Z.pos o) (delete start v2)) (os2 ∖ {[o]}) /\
            Mempool.pools (md_mp s3) = delete o (Mempool.pools (md_mp s2)) /\
            forall t, t ∈ q -> cancelled (k_sched (d_kernel (as_dyn s3))) t /\
              wp (Mempool.rt_mp_alloc_resumed timer_thread o (mk_mb_wait t 0 0)) (md_mp s3)
                (fun out _ => out = Returned 0))
    end).
Proof.
  intros Hd [[nm' Hnm] [l Hl]] [c Hc] Hcnt Hbs Hbig Hcs. unfold rt_mp_create. wp_step. apply wp_in_dyn.
  eapply wp_object_allocate; [apply size_ok|exact Hd|exact Hnm|exact Hl|..].
  { rewrite set_dyn_id. wp_steps. by repeat (split; [done|]); left. }
  intros o n h' Hnew Hno Hu Hh' Ha.
  set (k1 := named_k o RT_Object_Class_MemPool nm' l (d_kernel (as_dyn s))).
  assert (kinv k1) as Hk1 by (apply kinv_obj, Hd).
  destruct (Mem.align_spec bsize) as [Hal Hal4]. cbn zeta in Hal, Hal4.
  assert (bsize + 7 < 2 ^ 31) as Hb31 by (pose proof (Z.mul_le_mono_nonneg_l 1 count (bsize + 7)); lia).
  change Mem.RT_ALIGN_SIZE with 4. rewrite Mem.RT_ALIGN_val by lia. cbv zeta. unfold Mempool.SIZEOF_PTR.
  rewrite (uwrap_small 32 ((bsize + 3) / 4 * 4 + 4)) by c_lia.
  pose proof (Z.mul_le_mono_nonneg_r ((bsize + 3) / 4 * 4 + 4) (bsize + 7) count ltac:(lia) ltac:(lia)) as Hsz.
  pose proof (Z.mul_pos_pos ((bsize + 3) / 4 * 4 + 4) count ltac:(lia) Hcnt) as Hpos.
  rewrite (uwrap_small 32 (((bsize + 3) / 4 * 4 + 4) * count)) by c_lia.
  match goal with |- wp _ ?x _ => set (s1 := x) end.
  assert (dyn_ok (as_dyn s1) (<[Z.pos o := n]> v) ({[o]} ∪ os)) as Hd1.
  { apply (dyn_ok_new o n (as_dyn s)); try done. intros x Hx. by apply unused_named. }
  assert (headers (k_obj (d_kernel (as_dyn s1))) !! Obj o = Some (mk_object nm' (class_code RT_Object_Class_MemPool))) as Hhd
    by (simpl; apply lookup_insert_eq).
  wp_step. apply wp_in_dyn. eapply wp_new_block; [exact Hd1|lia|..].
  - simpl. wp_step. apply wp_in_dyn. rewrite set_dyn_id.
    eapply (wp_object_delete_at o _ n); [exact Hd1|apply lookup_insert_eq|exact Hhd|apply Hu|apply Hu|].
    intros h2 Hd3. wp_steps. split; [|split; [done|split; [done|]]].
    2: { right. exists o. split; [done|]. split; [done|].
         exact (created_deleted o RT_Object_Class_MemPool nm' l _ (d_ipc (as_dyn s)) Hcs Hl (un_obj _ _ Hu) eq_refl). }
    rewrite delete_insert_id in Hd3 by done. by replace (({[o]} ∪ os) ∖ {[o]}) with os in Hd3 by set_solver.
  - intros po m h2 Hnp Hnpo Hup Hh2 Hm Ha2. simpl. wp_step. apply wp_in_dyn.
    apply lookup_insert_None in Hnp as [Hnp Hne].
    eapply (wp_list_head (LSusp o) o); [exact Hk1|by left|apply Hu|].
    intros s' k2 Hk2 El Ec Ho _. wp_step. apply wp_in_mp.
    destruct (held_range _ _ (Z.pos po) m Hh2 (lookup_insert_eq _ _ _)) as (_ & _ & _ & Hend).
    assert (Mempool.geometry (created (Z.pos po) count bsize)) as Hg.
    { split; simpl; [done|by split; [lia|]|done|lia|lia]. }
    apply (Mempool.mp_chain_wp o (created (Z.pos po) count bsize)); [done..|]. intros w' Hok.
    unfold Mempool.put_pool. wp_steps. exists n, m, (Z.pos po). cbv zeta.
    split; [done|]. split; [done|]. split; [done|]. split; [|split].
    + split; [|apply lookup_insert_eq|intros x Hx [= ->]; done|].
      2: { unfold members. simpl. rewrite El, lookup_insert_ne by done. apply (un_sender _ _ Hu). }
      split; [|set_solver|rewrite lookup_insert_ne by done; apply lookup_insert_eq|by eexists].
      split; [done|done|..].
      * intros x Hx. apply lookup_insert_is_Some'. right. by apply (dy_objs _ _ _ Hd1).
      * intros x Hx Hnx. simpl in Hx. rewrite Ha2 in Hx. apply Ho; [set_solver|]. by apply (dy_free _ _ _ Hd1).
    + split; simpl; [done|exists c; by rewrite Ec|apply lookup_insert_eq|done| |by intros t Ht%elem_of_nil].
      by rewrite El, lookup_insert_eq.
    + intros s2 v2 os2 p2 fs q fuel Hsa Hpi Hmi Hfuel.
      pose proof (mp_delete_wp timer_thread o p2 n m fs q fuel s2 v2 os2 Hpi Hmi Hfuel) as W.
      destruct Hsa as (Es & _). by rewrite Es in W.
Qed.
End Proofs.

(** ** Devices *)

Section Devices.
Context {A : Type} {AA : Allocator A} {AL : AllocatorLaws A} {AR : ArenaLaws A}.
Implicit Types d : dyn A.

(** [rt_device_create] returns NULL, or a new block for the device and the
    memory attached to it; the kernel does not know it yet. *)
Lemma device_create_wp sizeof_device ty attach d v os :
  dyn_ok d v os -> 0 < sizeof_device -> 0 <= attach -> sizeof_device + attach + 6 < 2 ^ 31 ->
  wp (rt_device_create sizeof_device ty attach) d (fun r d1 =>
    match r with
    | None => d1 = d
    | Some (o, dev) => exists n, v !! Z.pos o = None /\ sizeof_device + attach <= n /\
        held (d_heap d1) (<[Z.pos o := n]> v) /\ d_ipc d1 = d_ipc d /\ unused o (d_kernel d) /\
        dev = (ty, Dev.mk_dev 0 0 0 None None)
    end).
Proof.
  intros Hd Hs Ha Hb. unfold rt_device_create. change Mem.RT_ALIGN_SIZE with 4.
  rewrite !Mem.RT_ALIGN_val by lia. destruct (Mem.align_spec sizeof_device) as [A1 _], (Mem.align_spec attach) as [A2 _].
  cbv zeta in *. rewrite uwrap_small by c_lia. wp_step. eapply wp_new_block; [exact Hd|lia|by wp_steps|].
  intros o k h' Hnew _ Hu Hh' Hk _. simpl. wp_steps. exists k. split_and!; try done. lia.
Qed.

(** Destroying a device is deleting an object. *)
Lemma device_destroy_delete o d : rt_device_destroy o d = rt_object_delete o d.
Proof.
  unfold rt_device_destroy, rt_object_delete, rt_object_detach, object_unlink, in_k, in_ipc, in_kernel, in_obj, in_heap,
    zoom, get_header, gets, modify, deref, mbind, M_bind. simpl.
  destruct (headers _ !! Obj o) as [h|]; [|done]. simpl.
  destruct (rt_free _ _) as [[[] h']|]; [|done]. simpl. do 2 f_equal.
  unfold set_d_ipc, drop_object, drop_obj. simpl. by rewrite delete_insert_eq.
Qed.
End Devices.

(** ** Concrete runs *)

Definition demo_mpd : mpd Mem.heap := mk_mpd (Mempool.mk_mp_st (demo_ipc, 0) ∅ ∅) Mem.heap_a.

Lemma demo_mpd_ok : dyn_ok (as_dyn demo_mpd) ∅ ∅.
Proof. exact demo_dyn_ok. Qed.

Lemma mp_create_delete_witness :
  exists o s1 s2, rt_mp_create demo_size demo_name 2 10 demo_mpd = Some (Some o, s1) /\
    rt_mp_delete 0 o s1 = Some (RT_EOK, s2) /\ held (md_heap s2) ∅.
Proof.
  destruct (proj1 (wp_Some _ _ _) (mp_create_delete demo_size demo_size_ok 99 demo_name 2 10 demo_mpd ∅ ∅ demo_mpd_ok
    (demo_name_fits RT_Object_Class_MemPool ltac:(by eexists)) ltac:(by eexists) ltac:(lia) ltac:(lia) ltac:(lia)
    ltac:(apply (bool_decide_unpack _); vm_compute; exact I)))
    as (r & s1 & E & H).
  destruct r as [o|]; [|vm_compute in E; discriminate E].
  destruct H as (n & m & p & _ & _ & _ & Hin & Hmi & H).
  destruct (proj1 (wp_Some _ _ _) (H s1 _ _ (created p 2 10) _ [] 0%nat
    (conj eq_refl (conj eq_refl (conj eq_refl eq_refl))) Hin Hmi (le_n 0))) as (r' & s2 & E2 & -> & Hd & _).
  exists o, s1, s2. split; [exact E|]. split; [exact E2|].
  pose proof (dy_held _ _ _ Hd) as Hh.
  rewrite (two_blocks o p n m (pi_plain _ _ _ _ _ _ _ Hin o ltac:(set_solver +))) in Hh. exact Hh.
Defined.

(** The product in [rt_mp_create] wraps: 16 bytes are enough for two blocks of
    2 GB, and linking the second one writes outside the memory. *)
Example mp_create_wraps : rt_mp_create demo_size demo_name 2 (2 ^ 31 + 4) demo_mpd = None.
Proof. vm_compute. reflexivity. Qed.

(** A device that was never registered is not in a list: destroying it follows
    the null pointers in its header. *)
Example device_destroy_unregistered :
  (r ← rt_device_create 60 0 0; x ← deref r; rt_device_destroy (fst x)) demo_dyn = None.
Proof. vm_compute. reflexivity. Qed.

End DynPool.
