(* ===== verification/DataQueue.v ===== *)
(** * Data queues

    Model of [components/drivers/src/dataqueue.c]: a circular buffer of
    pointers with their sizes, with a queue of threads waiting to pop
    ([suspended_pop_list], [LSusp]) and one of threads waiting to push
    ([suspended_push_list], [LSender]).  The memory of the buffer comes from
    the allocator of file Alloc.  The callback [evt_notify] is code of the
    application: its calls are recorded in [dq_notes].

    As with mailboxes, a call that waits is split at [rt_schedule]; one round
    of its loop with the code behind it is [dq_push_round], [dq_pop_round]. *)
From stdpp Require Import base list gmap.
From Stdlib Require Import ZArith Lia.
From S2P Require Import Prelude Scheduler Object Timer Thread Ipc Mailbox SmallMem Alloc.

Module DataQueue.
Import Sched Obj Thr Ipc Mailbox Alloc.

Definition RT_ENOMEM : Z := 5.
Definition RT_EEMPTY : Z := 4.
Definition DATAQUEUE_MAGIC : Z := 0xbead0e0e.
Definition RT_DATAQUEUE_EVENT_POP : Z := 1.
Definition RT_DATAQUEUE_EVENT_PUSH : Z := 2.
Definition RT_DATAQUEUE_EVENT_LWM : Z := 3.

Record rt_data_item := mk_item { data_ptr : Z; data_size : Z }.
Definition SIZEOF_ITEM : Z := 8.

Record rt_data_queue := mk_dq {
  magic : Z;
  dq_size : Z;                 (* rt_uint16_t *)
  lwm : Z;                     (* rt_uint16_t *)
  get_index : Z;               (* 15 bits *)
  is_empty : bool;
  put_index : Z;               (* 15 bits *)
  is_full : bool;
  queue : list rt_data_item;   (* what is at the address [queue_ptr] *)
  queue_ptr : Z;
  evt_notify : bool            (* whether there is a callback *)
}.
Definition set_get (v : Z) (d : rt_data_queue) : rt_data_queue :=
  mk_dq (magic d) (dq_size d) (lwm d) v (is_empty d) (put_index d) (is_full d) (queue d) (queue_ptr d) (evt_notify d).
Definition set_put (v : Z) (d : rt_data_queue) : rt_data_queue :=
  mk_dq (magic d) (dq_size d) (lwm d) (get_index d) (is_empty d) v (is_full d) (queue d) (queue_ptr d) (evt_notify d).
Definition set_empty (v : bool) (d : rt_data_queue) : rt_data_queue :=
  mk_dq (magic d) (dq_size d) (lwm d) (get_index d) v (put_index d) (is_full d) (queue d) (queue_ptr d) (evt_notify d).
Definition set_full (v : bool) (d : rt_data_queue) : rt_data_queue :=
  mk_dq (magic d) (dq_size d) (lwm d) (get_index d) (is_empty d) (put_index d) v (queue d) (queue_ptr d) (evt_notify d).
Definition set_queue (v : list rt_data_item) (d : rt_data_queue) : rt_data_queue :=
  mk_dq (magic d) (dq_size d) (lwm d) (get_index d) (is_empty d) (put_index d) (is_full d) v (queue_ptr d) (evt_notify d).
Definition set_magic (v : Z) (d : rt_data_queue) : rt_data_queue :=
  mk_dq v (dq_size d) (lwm d) (get_index d) (is_empty d) (put_index d) (is_full d) (queue d) (queue_ptr d) (evt_notify d).

Section DataQueue.
Context {A : Type} {AA : Allocator A}.

Record dq_st := mk_dq_st {
  dq_ipc : ipc;
  dq_heap : A;
  dqueues : gmap oid rt_data_queue;
  dq_notes : list (oid * Z)
}.
Definition set_dq_ipc (v : ipc) (s : dq_st) : dq_st := mk_dq_st v (dq_heap s) (dqueues s) (dq_notes s).
Definition set_dq_heap (v : A) (s : dq_st) : dq_st := mk_dq_st (dq_ipc s) v (dqueues s) (dq_notes s).
Definition set_dqueues (v : gmap oid rt_data_queue) (s : dq_st) : dq_st := mk_dq_st (dq_ipc s) (dq_heap s) v (dq_notes s).
Definition add_note (o : oid) (e : Z) (s : dq_st) : dq_st :=
  mk_dq_st (dq_ipc s) (dq_heap s) (dqueues s) (dq_notes s ++ [(o, e)]).

Definition in_ipc {B} (m : M ipc B) : M dq_st B := zoom dq_ipc set_dq_ipc m.
Definition in_dq_heap {B} (m : M A B) : M dq_st B := zoom dq_heap set_dq_heap m.
Definition get_dq (o : oid) : M dq_st rt_data_queue := m ← gets dqueues; deref (m !! o).
Definition put_dq (o : oid) (d : rt_data_queue) : M dq_st unit :=
  modify (fun s => set_dqueues (<[o := d]> (dqueues s)) s).
Definition upd_dq (o : oid) (f : rt_data_queue -> rt_data_queue) : M dq_st unit := d ← get_dq o; put_dq o (f d).

(** [if (queue->evt_notify != RT_NULL) queue->evt_notify(queue, e);] *)
Definition notify (o : oid) (e : Z) : M dq_st unit :=
  d ← get_dq o; when (evt_notify d) (modify (add_note o e)).

(** [junk] is what the memory of the buffer holds before it is used. *)
Definition rt_data_queue_init (junk : list rt_data_item) (o : oid) (size lwm : Z) (evt : bool) : M dq_st Z :=
  in_ipc (in_kernel (in_sched (tlist_init (LSender o))));;
  in_ipc (in_kernel (in_sched (tlist_init (LSusp o))));;
  p ← in_dq_heap (rt_malloc (SIZEOF_ITEM * u16 size));
  put_dq o (mk_dq DATAQUEUE_MAGIC (u16 size) (u16 lwm) 0 true 0 false junk p evt);;
  if p =? 0 then mret (- RT_ENOMEM) else mret RT_EOK.

Definition rt_data_queue_len (o : oid) : M dq_st Z :=
  d ← get_dq o;
  if is_empty d then mret 0
  else
    let len := if get_index d <? put_index d then put_index d - get_index d
               else dq_size d + put_index d - get_index d in
    mret (u16 (s16 len)).

(** [queue->put_index += 1; if (queue->put_index == queue->size) queue->put_index = 0;] *)
Definition dq_next (d : rt_data_queue) (x : Z) : Z :=
  let x := u15 (x + 1) in if x =? dq_size d then 0 else x.

(** The item at an index of the buffer; there is no buffer at the null pointer. *)
Definition read_item (d : rt_data_queue) (i : Z) : option rt_data_item :=
  if (queue_ptr d =? 0) || (i <? 0) then None else queue d !! Z.to_nat i.
Definition write_item (d : rt_data_queue) (i : Z) (x : rt_data_item) : option (list rt_data_item) :=
  if (queue_ptr d =? 0) || (i <? 0) then None
  else if (Z.to_nat i <? length (queue d))%nat then Some (<[Z.to_nat i := x]> (queue d)) else None.

Section Wait.
Context (timer_thread : oid).

(** The thread waits on one of the lists; the result is the thread. *)
Definition dq_wait (l : lhead) (thread : option oid) (timeout : Z) : M dq_st oid :=
  thread ← deref thread;
  in_ipc (reset_error thread RT_EOK);;
  in_ipc (wait_on timer_thread l thread RT_IPC_FLAG_FIFO timeout);;
  mret thread.

(** [rt_data_queue_push], from the test of the loop on. *)
Definition dq_push_round (o : oid) (thread : option oid) (x : rt_data_item) (timeout : Z) : M dq_st (outcome oid Z) :=
  d ← get_dq o;
  if is_full d then
    if timeout =? 0 then mret (Returned (- RT_ETIMEOUT))
    else thread ← dq_wait (LSender o) thread timeout; mret (Waiting thread)
  else
    q ← deref (write_item d (put_index d) x);
    let put := dq_next d (put_index d) in
    let d := set_empty false (set_put put (set_queue q d)) in
    put_dq o (if put =? get_index d then set_full true d else d);;
    waiter ← in_ipc (has_waiter (LSusp o));
    if waiter : bool then in_ipc (resume_one (LSusp o));; mret (Returned RT_EOK)
    else notify o RT_DATAQUEUE_EVENT_PUSH;; mret (Returned RT_EOK).

Definition rt_data_queue_push (o : oid) (x : rt_data_item) (timeout : Z) : M dq_st (outcome oid Z) :=
  thread ← in_ipc (in_kernel (in_sched rt_thread_self));
  dq_push_round o thread x timeout.

Definition rt_data_queue_push_resumed (o thread : oid) (x : rt_data_item) (timeout : Z) : M dq_st (outcome oid Z) :=
  e ← in_ipc (thread_error thread);
  if negb (e =? RT_EOK) then mret (Returned e) else dq_push_round o (Some thread) x timeout.

(** [rt_data_queue_pop], from the test of the loop on; the second result is
    what is written to [*data_ptr] and [*size]. *)
Definition dq_pop_round (o : oid) (thread : option oid) (timeout : Z) : M dq_st (outcome oid (Z * option rt_data_item)) :=
  d ← get_dq o;
  if is_empty d then
    if timeout =? 0 then mret (Returned (- RT_ETIMEOUT, None))
    else thread ← dq_wait (LSusp o) thread timeout; mret (Waiting thread)
  else
    x ← deref (read_item d (get_index d));
    let get := dq_next d (get_index d) in
    let d := set_full false (set_get get d) in
    put_dq o (if put_index d =? get then set_empty true d else d);;
    len ← rt_data_queue_len o;
    if len <=? lwm d then
      in_ipc (resume_one (LSender o));;
      notify o RT_DATAQUEUE_EVENT_LWM;;
      mret (Returned (RT_EOK, Some x))
    else
      notify o RT_DATAQUEUE_EVENT_POP;;
      mret (Returned (RT_EOK, Some x)).

Definition rt_data_queue_pop (o : oid) (timeout : Z) : M dq_st (outcome oid (Z * option rt_data_item)) :=
  thread ← in_ipc (in_kernel (in_sched rt_thread_self));
  dq_pop_round o thread timeout.

Definition rt_data_queue_pop_resumed (o thread : oid) (timeout : Z) : M dq_st (outcome oid (Z * option rt_data_item)) :=
  e ← in_ipc (thread_error thread);
  if negb (e =? RT_EOK) then mret (Returned (e, None)) else dq_pop_round o (Some thread) timeout.

End Wait.

Definition rt_data_queue_peek (o : oid) : M dq_st (Z * option rt_data_item) :=
  d ← get_dq o;
  if is_empty d then mret (- RT_EEMPTY, None)
  else x ← deref (read_item d (get_index d)); mret (RT_EOK, Some x).

Definition rt_data_queue_reset (fuel : nat) (o : oid) : M dq_st unit :=
  upd_dq o (fun d => set_full false (set_empty true (set_put 0 (set_get 0 d))));;
  in_ipc (in_kernel (in_sched rt_enter_critical));;
  in_ipc (in_kernel (rt_ipc_list_resume_all fuel (LSusp o)));;
  in_ipc (in_kernel (rt_ipc_list_resume_all fuel (LSender o)));;
  in_ipc (in_kernel (in_sched rt_exit_critical));;
  in_ipc schedule.

Definition rt_data_queue_deinit (fuel : nat) (o : oid) : M dq_st Z :=
  rt_data_queue_reset fuel o;;
  upd_dq o (set_magic 0);;
  d ← get_dq o;
  in_dq_heap (rt_free (queue_ptr d));;
  mret RT_EOK.

End DataQueue.
Arguments dq_st : clear implicits.

(** ** The buffer *)

(** The queue holds [items], oldest first.  The indices have 15 bits, so at
    most [2 ^ 15] places can be used. *)
Record dq_ok (d : rt_data_queue) (items : list rt_data_item) : Prop := {
  do_size : 0 < dq_size d <= 2 ^ 15 /\ Z.of_nat (length (queue d)) = dq_size d;
  do_ptr : queue_ptr d <> 0;
  do_ring : ring (queue d) (get_index d) items;
  do_put : put_index d = (get_index d + Z.of_nat (length items)) mod dq_size d;
  do_empty : is_empty d = bool_decide (items = []);
  do_full : is_full d = (Z.of_nat (length items) =? dq_size d)
}.

Lemma dq_next_mod d items x : dq_ok d items -> 0 <= x < dq_size d -> dq_next d x = (x + 1) mod dq_size d.
Proof.
  intros [[Hs _] _ _ _ _ _] Hx. unfold dq_next. destruct (decide (x + 1 = 2 ^ 15)) as [E|E].
  - assert (dq_size d = 2 ^ 15) as -> by lia. rewrite E. vm_compute. done.
  - rewrite uwrap_small by c_lia. destruct (Z.eqb_spec (x + 1) (dq_size d)) as [E2|E2].
    + by rewrite E2, Z_mod_same_full.
    + by rewrite Z.mod_small by lia.
Qed.

(** Writing behind the last item. *)
Lemma dq_ok_push d items x :
  dq_ok d items -> is_full d = false ->
  exists q, write_item d (put_index d) x = Some q /\
    let put := dq_next d (put_index d) in
    let d' := set_empty false (set_put put (set_queue q d)) in
    dq_ok (if put =? get_index d' then set_full true d' else d') (items ++ [x]).
Proof.
  intros H Hf. pose proof H as [[Hs Hl] Hp Hr Hput He Hful]. pose proof Hr as (Hg & Hle & _). rewrite Hl in Hg.
  rewrite Hf in Hful. symmetry in Hful. apply Z.eqb_neq in Hful.
  pose proof (mod_range (dq_size d) (get_index d + Z.of_nat (length items)) ltac:(lia)) as Hpr. rewrite <- Hput in Hpr.
  unfold write_item. rewrite (proj2 (Z.eqb_neq _ _) Hp), (proj2 (Z.ltb_ge _ _)) by lia. simpl.
  rewrite (proj2 (Nat.ltb_lt _ _)) by lia. eexists. split; [done|]. cbv zeta.
  rewrite (dq_next_mod d items) by done.
  assert ((put_index d + 1) mod dq_size d = (get_index d + Z.of_nat (length (items ++ [x]))) mod dq_size d) as Ep.
  { rewrite Hput, Zplus_mod_idemp_l, length_app. simpl. f_equal. lia. }
  pose proof (ring_push _ _ _ x Hr ltac:(lia)) as Hr'. rewrite Hl, <- Hput in Hr'.
  set (d' := set_empty false (set_put ((put_index d + 1) mod dq_size d)
    (set_queue (<[Z.to_nat (put_index d) := x]> (queue d)) d))).
  change (get_index d') with (get_index d).
  assert ((((put_index d + 1) mod dq_size d =? get_index d) = (Z.of_nat (length (items ++ [x])) =? dq_size d))) as Efull.
  { rewrite Ep. rewrite length_app in *. simpl. apply eq_true_iff_eq. rewrite !Z.eqb_eq. split; intros E.
    - rewrite <- (Z.mod_small (get_index d) (dq_size d)) in E at 2 by lia.
      rewrite <- (Z.add_0_r (get_index d)) in E at 2.
      destruct (decide (Z.of_nat (length items + 1) = dq_size d)); [done|].
      apply mod_shift_inj in E; lia.
    - rewrite E. rewrite Z.add_mod, Z_mod_same_full, Z.add_0_r, Z.mod_mod by lia. apply Z.mod_small. lia. }
  rewrite Efull. destruct (Z.eqb_spec (Z.of_nat (length (items ++ [x]))) (dq_size d)) as [E|E].
  - split; simpl; [by rewrite length_insert|done|exact Hr'|exact Ep| |].
    + by rewrite bool_decide_eq_false_2 by (by destruct items).
    + by rewrite E, Z.eqb_refl.
  - split; simpl; [by rewrite length_insert|done|exact Hr'|exact Ep| |].
    + by rewrite bool_decide_eq_false_2 by (by destruct items).
    + rewrite Hf. by apply Z.eqb_neq in E.
Qed.

(** Reading the first item. *)
Lemma dq_ok_read d x items : dq_ok d (x :: items) -> read_item d (get_index d) = Some x.
Proof.
  intros [_ Hp Hr _ _ _]. apply ring_pop in Hr as Hx. destruct Hx as [Hx _]. destruct Hr as (Hg & _).
  unfold read_item. rewrite (proj2 (Z.eqb_neq _ _) Hp), (proj2 (Z.ltb_ge _ _)) by lia. done.
Qed.

Lemma dq_ok_pop d x items :
  dq_ok d (x :: items) ->
  let get := dq_next d (get_index d) in
  let d' := set_full false (set_get get d) in
  dq_ok (if put_index d' =? get then set_empty true d' else d') items.
Proof.
  intros H. pose proof H as [[Hs Hl] Hp Hr Hput He Hful]. pose proof (ring_pop _ _ _ _ Hr) as [_ Hr'].
  destruct Hr as (Hg & Hle & _). rewrite Hl in Hg, Hr'. simpl in Hle, Hput, He. cbv zeta.
  rewrite (dq_next_mod d (x :: items)) by done.
  set (d' := set_full false (set_get ((get_index d + 1) mod dq_size d) d)). change (put_index d') with (put_index d).
  assert (put_index d = ((get_index d + 1) mod dq_size d + Z.of_nat (length items)) mod dq_size d) as Ep.
  { rewrite Hput, Zplus_mod_idemp_l. f_equal. lia. }
  pose proof (mod_range (dq_size d) (get_index d + 1) ltac:(lia)) as Hgr.
  assert ((put_index d =? (get_index d + 1) mod dq_size d) = bool_decide (items = [])) as Eempty.
  { apply eq_true_iff_eq. rewrite Z.eqb_eq, bool_decide_eq_true, Ep. split; intros E.
    - rewrite <- (Z.mod_small ((get_index d + 1) mod dq_size d) (dq_size d)) in E at 2 by lia.
      rewrite <- (Z.add_0_r ((get_index d + 1) mod dq_size d)) in E at 2.
      destruct items; [done|]. apply mod_shift_inj in E; simpl in *; lia.
    - subst items. by rewrite Z.add_0_r, Z.mod_mod by lia. }
  assert ((Z.of_nat (length items) =? dq_size d) = false) as Enf by lia.
  rewrite Eempty. case_bool_decide as Ei.
  - subst items. split; simpl; [done|done|exact Hr'|exact Ep|done|symmetry; exact Enf].
  - split; simpl; [done|done|exact Hr'|exact Ep| |by rewrite Enf]. rewrite He, !bool_decide_eq_false_2; done.
Qed.

Lemma dq_len_wp {A} o d items (s : dq_st A) (Q : Z -> dq_st A -> Prop) :
  dqueues s !! o = Some d -> dq_ok d items -> Q (Z.of_nat (length items)) s -> wp (rt_data_queue_len o) s Q.
Proof.
  intros Hd [[Hs Hl] _ (Hg & Hle & _) Hput He Hf] HQ. unfold rt_data_queue_len, get_dq. wp_step. wp_step.
  eapply wp_deref; [done|]. rewrite He. case_bool_decide as Hi; [subst; by wp_steps|]. wp_steps.
  rewrite Hl in Hg. assert (1 <= Z.of_nat (length items)) as H1 by (destruct items; simpl; [done|lia]).
  assert ((if get_index d <? put_index d then put_index d - get_index d
           else dq_size d + put_index d - get_index d) = Z.of_nat (length items)) as ->.
  { destruct (Z_lt_le_dec (get_index d + Z.of_nat (length items)) (dq_size d)) as [Hlt|Hge].
    - rewrite Z.mod_small in Hput by lia. rewrite Hput, (proj2 (Z.ltb_lt _ _)); lia.
    - replace (get_index d + Z.of_nat (length items)) with
        (get_index d + Z.of_nat (length items) - dq_size d + 1 * dq_size d) in Hput by lia.
      rewrite Z_mod_plus_full, Z.mod_small in Hput by lia. rewrite Hput, (proj2 (Z.ltb_ge _ _)); lia. }
  assert (u16 (s16 (Z.of_nat (length items))) = Z.of_nat (length items)) as ->; [|done].
  unfold swrap, uwrap. rewrite Zminus_mod_idemp_l. replace (Z.of_nat (length items) + 2 ^ (16 - 1) - 2 ^ (16 - 1))
    with (Z.of_nat (length items)) by lia. apply Z.mod_small. lia.
Qed.

(** ** The two queues of waiting threads *)

(** [rs] wait to pop and [ss] wait to push at queue [o], none with an error. *)
Record ends (o : oid) (rs ss : list oid) (k : kernel) : Prop := {
  en_kinv : kinv k;
  en_current : exists c, rt_current_thread (k_sched k) = Some c;
  en_pop : tlists (k_sched k) !! LSusp o = Some rs;
  en_push : tlists (k_sched k) !! LSender o = Some ss;
  en_calm_r : calm (k_sched k) rs;
  en_calm_s : calm (k_sched k) ss
}.

Lemma ends_wake_pop o rs ss k k' : ends o rs ss k -> wakes_first (LSusp o) rs k k' -> ends o (tail rs) ss k'.
Proof.
  intros [H1 H2 H3 H4 H5 H6] Hw.
  destruct (calm_wakes_first (LSusp o) (LSender o) rs ss k k' H1 I I H3 H4 ltac:(done) Hw H5 H6) as [C1 C2].
  split; [apply Hw|apply Hw|apply Hw|by rewrite (wf_lists _ _ _ _ Hw (LSender o) I)|done|done].
Qed.

Lemma ends_wake_push o rs ss k k' : ends o rs ss k -> wakes_first (LSender o) ss k k' -> ends o rs (tail ss) k'.
Proof.
  intros [H1 H2 H3 H4 H5 H6] Hw.
  destruct (calm_wakes_first (LSender o) (LSusp o) ss rs k k' H1 I I H4 H3 ltac:(done) Hw H6 H5) as [C1 C2].
  split; [apply Hw|apply Hw|by rewrite (wf_lists _ _ _ _ Hw (LSusp o) I)|apply Hw|done|done].
Qed.

Lemma ends_wait_pop o rs ss c ch time k k' :
  ends o rs ss k -> threads (k_sched k) !! c = Some ch -> stat_of ch = RT_THREAD_RUNNING ->
  waits (LSusp o) c (set_error RT_EOK ch) (rs ++ [c]) time k k' -> ends o (rs ++ [c]) ss k'.
Proof.
  intros [H1 H2 H3 H4 H5 H6] Hc Est Hwt.
  split; [apply Hwt|apply Hwt|apply Hwt|by rewrite (w_lists _ _ _ _ _ _ _ Hwt (LSender o) I)| |].
  - by eapply (calm_waits (LSusp o) c ch rs rs []); rewrite ?app_nil_r.
  - by eapply (calm_waits_other (LSusp o) (LSender o)).
Qed.

Lemma ends_wait_push o rs ss c ch time k k' :
  ends o rs ss k -> threads (k_sched k) !! c = Some ch -> stat_of ch = RT_THREAD_RUNNING ->
  waits (LSender o) c (set_error RT_EOK ch) (ss ++ [c]) time k k' -> ends o rs (ss ++ [c]) k'.
Proof.
  intros [H1 H2 H3 H4 H5 H6] Hc Est Hwt.
  split; [apply Hwt|apply Hwt|by rewrite (w_lists _ _ _ _ _ _ _ Hwt (LSusp o) I)|apply Hwt| |].
  - by eapply (calm_waits_other (LSender o) (LSusp o)).
  - by eapply (calm_waits (LSender o) c ch ss ss []); rewrite ?app_nil_r.
Qed.

(** ** Critical sections *)

Lemma scheduled_lock n k : kinv k -> (exists c, rt_current_thread (k_sched k) = Some c) ->
  scheduled k (set_rt_scheduler_lock_nest n (k_sched k)).
Proof.
  intros Hk Hc. split; [by apply kinv_lock|]. split; [done|]. split; [|done].
  intros x xh Hx. split; intros _ Hs; simpl; [done|]. by exists xh.
Qed.

Lemma scheduled_trans k s1 s2 : scheduled k s1 -> scheduled (set_k_sched s1 k) s2 -> scheduled k s2.
Proof.
  intros (A1 & A2 & A3 & A4) (B1 & B2 & B3 & B4). split; [exact B1|]. split; [done|]. split.
  - by eapply (woken_frame_trans (fun _ => False) (fun _ => False)).
  - intros l Hl. rewrite (B4 l Hl). by apply A4.
Qed.

(** Leaving a critical section: at most a rescheduling. *)
Lemma wp_exit_critical k (Q : unit -> kernel -> Prop) :
  kinv k -> (exists c, rt_current_thread (k_sched k) = Some c) ->
  (forall s', scheduled k s' -> Q tt (set_k_sched s' k)) -> wp (in_sched rt_exit_critical) k Q.
Proof.
  intros Hk [c Hc] HQ. apply wp_in_sched. unfold rt_exit_critical. wp_step. wp_step. wp_step.
  set (m := s16 (rt_scheduler_lock_nest (k_sched k) - 1)).
  pose proof (scheduled_lock m k Hk (ex_intro _ c Hc)) as Hm. simpl. apply wp_when; intros En; [|by apply HQ].
  wp_step. wp_step. wp_step. wp_step. cbn [rt_current_thread set_rt_scheduler_lock_nest]. rewrite Hc. simpl.
  set (s0 := set_rt_scheduler_lock_nest 0 (set_rt_scheduler_lock_nest m (k_sched k))).
  assert (scheduled k s0) as Hs0.
  { eapply scheduled_trans; [exact Hm|]. apply (scheduled_lock 0 (set_k_sched (set_rt_scheduler_lock_nest m (k_sched k)) k));
      [apply Hm|by exists c]. }
  assert (wp (in_sched rt_schedule) (set_k_sched s0 k) Q) as W.
  { apply (wp_scheduled c); [apply Hs0|done|]. intros s' Hs'. apply (HQ s'). exact (scheduled_trans k s0 s' Hs0 Hs'). }
  exact (wp_in_sched_inv rt_schedule (set_k_sched s0 k) Q W).
Qed.

Lemma cancelled_scheduled k s' t :
  scheduled k s' -> has_error (k_sched k) (- RT_ERROR) t ->
  (forall th, threads (k_sched k) !! t = Some th -> runnable th) ->
  exists th, threads s' !! t = Some th /\ runnable th /\ error th = - RT_ERROR.
Proof.
  intros (_ & _ & Hf & _) (th & Ht & Ee) Hr. destruct (Hf t th Ht) as [_ H].
  destruct (H ltac:(tauto) (Hr th Ht)) as (th' & H1 & H2 & E & _). exists th'. split_and!; [done|done|congruence].
Qed.

Section Specs.
Context {A : Type} (timer_thread : oid).
Implicit Types s : dq_st A.

Lemma wp_dq_ipc {B} (m : M ipc B) s (Q : B -> dq_st A -> Prop) :
  wp m (dq_ipc s) (fun b i => Q b (set_dq_ipc i s)) -> wp (in_ipc m) s Q.
Proof. apply wp_zoom. Qed.
Lemma set_dq_ipc_id s : set_dq_ipc (dq_ipc s) s = s.
Proof. by destruct s. Qed.
Lemma wp_get_dq o d s (Q : rt_data_queue -> dq_st A -> Prop) : dqueues s !! o = Some d -> Q d s -> wp (get_dq o) s Q.
Proof. intros H HQ. unfold get_dq. wp_steps. by eapply wp_deref. Qed.

Lemma wp_notify o e d s (Q : unit -> dq_st A -> Prop) :
  dqueues s !! o = Some d -> Q tt (if evt_notify d then add_note o e s else s) -> wp (notify o e) s Q.
Proof. intros H HQ. unfold notify. wp_step. eapply wp_get_dq; [done|]. destruct (evt_notify d); by wp_steps. Qed.

Lemma wp_dq_wait l xs c ch timeout s (Q : oid -> dq_st A -> Prop) :
  kinv (i_kernel (dq_ipc s)) -> is_wait l -> tlists (i_sched (dq_ipc s)) !! l = Some xs -> runs (dq_ipc s) c ch ->
  (forall k', waits l c (set_error RT_EOK ch) (xs ++ [c]) timeout (i_kernel (dq_ipc s)) k' ->
     Q c (set_dq_ipc (set_i_kernel k' (dq_ipc s)) s)) ->
  wp (dq_wait timer_thread l (Some c) timeout) s Q.
Proof.
  intros Hk Hw Hl Hr HQ. unfold dq_wait. wp_step. eapply wp_deref; [done|]. wp_step. apply wp_dq_ipc.
  eapply wp_reset_error; [apply Hr|]. wp_step. apply wp_dq_ipc.
  eapply wp_wait_cleared; [exact Hk|exact Hw|exact Hl|exact Hr|by left|]. intros pre post k' [-> Hp] Hwt.
  simpl in Hp. subst post. rewrite app_nil_r in HQ. wp_steps. by apply (HQ k').
Qed.

(** The state of queue [o] with its contents and waiting threads. *)
Record dq_inv (o : oid) (d : rt_data_queue) (items : list rt_data_item) (rs ss : list oid) s : Prop := {
  dv_ends : ends o rs ss (i_kernel (dq_ipc s));
  dv_queue : dqueues s !! o = Some d;
  dv_ok : dq_ok d items
}.

(** What stays the same: size, low water mark, memory and callback. *)
Definition same_dq (d d' : rt_data_queue) : Prop :=
  dq_size d' = dq_size d /\ lwm d' = lwm d /\ evt_notify d' = evt_notify d /\ queue_ptr d' = queue_ptr d /\ magic d' = magic d.

Definition noted (d : rt_data_queue) (o : oid) (e : Z) : list (oid * Z) := if evt_notify d then [(o, e)] else [].

Definition push_post (o : oid) (d : rt_data_queue) (items : list rt_data_item) (rs ss : list oid) (x : rt_data_item) s
    (out : outcome oid Z) s' : Prop :=
  if Z.of_nat (length items) =? dq_size d then
    exists c ch, out = Waiting c /\ runs (dq_ipc s) c ch /\ dq_inv o d items rs (ss ++ [c]) s' /\ dq_notes s' = dq_notes s
  else
    out = Returned RT_EOK /\ (exists d', same_dq d d' /\ dq_inv o d' (items ++ [x]) (tail rs) ss s') /\
    first_woken rs (dq_ipc s') /\
    dq_notes s' = dq_notes s ++ (if bool_decide (rs = []) then noted d o RT_DATAQUEUE_EVENT_PUSH else []).

Lemma notes_if (b : bool) o e s : dq_notes (if b then add_note o e s else s) = dq_notes s ++ if b then [(o, e)] else [].
Proof. destruct b; simpl; by rewrite ?app_nil_r. Qed.

Lemma inv_notes (b : bool) o' e o d items rs ss s :
  dq_inv o d items rs ss s -> dq_inv o d items rs ss (if b then add_note o' e s else s).
Proof. intros [H1 H2 H3]. by destruct b. Qed.

Lemma dq_push_round_wp o d items rs ss x timeout s :
  dq_inv o d items rs ss s ->
  (Z.of_nat (length items) = dq_size d -> timeout <> 0 /\ exists c ch, runs (dq_ipc s) c ch) ->
  wp (dq_push_round timer_thread o (rt_current_thread (i_sched (dq_ipc s))) x timeout) s
    (push_post o d items rs ss x s).
Proof.
  intros Hi Hfull. pose proof Hi as [He Hd Hok]. unfold dq_push_round, push_post. wp_step. eapply wp_get_dq; [done|].
  rewrite <- (do_full _ _ Hok). destruct (is_full d) eqn:Ef.
  - destruct (Hfull ltac:(rewrite (do_full _ _ Hok) in Ef; lia)) as (Ht & c & ch & Hr).
    rewrite (proj2 (Z.eqb_neq timeout 0) Ht). pose proof Hr as (Hcur & Hc & Est). rewrite Hcur. wp_step.
    eapply wp_dq_wait; [apply He|exact I|apply He|exact Hr|]. intros k' Hwt. wp_step. exists c, ch.
    split; [done|]. split; [done|]. split; [|done]. split; simpl; [by eapply ends_wait_push|done|done].
  - destruct (dq_ok_push d items x Hok Ef) as (q & Ew & Hok'). cbv zeta in Hok'. wp_step. eapply wp_deref; [exact Ew|].
    match type of Hok' with dq_ok ?y _ => set (d' := y) in * end.
    assert (same_dq d d') as Hsame by (unfold d'; by destruct (_ =? _)).
    wp_step. unfold put_dq. wp_step. wp_step. apply wp_dq_ipc. eapply wp_has_waiter; [apply He|].
    replace (set_dq_ipc _ (set_dqueues _ s)) with (set_dqueues (<[o := d']> (dqueues s)) s) by (by destruct s).
    destruct rs as [|r rs]; [rewrite bool_decide_eq_false_2 by auto|rewrite bool_decide_eq_true_2 by done].
    + wp_step. eapply wp_notify; [apply lookup_insert_eq|]. wp_step. split; [done|]. split; [|split].
      * exists d'. split; [done|]. apply inv_notes. split; [exact He|apply lookup_insert_eq|done].
      * intros w Hw. done.
      * rewrite notes_if. destruct Hsame as (_ & _ & -> & _). done.
    + wp_step. apply wp_dq_ipc. eapply resume_one_wp; [apply He|apply He|exact I|apply He|]. intros k' Hwf. wp_steps.
      split; [done|]. split; [|split; [|by rewrite app_nil_r]].
      * exists d'. split; [done|]. split; [by eapply ends_wake_pop|apply lookup_insert_eq|done].
      * eapply (first_woken_of (LSusp o)); [apply He|exact I|apply He|apply He|exact Hwf|done].
Qed.

Lemma dq_push_wp o d items rs ss x timeout s :
  dq_inv o d items rs ss s ->
  (Z.of_nat (length items) = dq_size d -> timeout <> 0 -> exists c ch, runs (dq_ipc s) c ch) ->
  wp (rt_data_queue_push timer_thread o x timeout) s (fun out s' =>
    if (Z.of_nat (length items) =? dq_size d) && (timeout =? 0) then out = Returned (- RT_ETIMEOUT) /\ s' = s
    else push_post o d items rs ss x s out s').
Proof.
  intros Hi Hr. unfold rt_data_queue_push. wp_step. apply wp_dq_ipc, wp_thread_self. rewrite set_dq_ipc_id.
  destruct ((Z.of_nat (length items) =? dq_size d) && (timeout =? 0)) eqn:E.
  - apply andb_true_iff in E as [E1 E2]. unfold dq_push_round. wp_step. eapply wp_get_dq; [apply Hi|].
    rewrite (do_full _ _ (dv_ok _ _ _ _ _ _ Hi)), E1, E2. by wp_steps.
  - apply dq_push_round_wp; [done|]. intros Hf. rewrite Hf, Z.eqb_refl in E. simpl in E. split; [lia|]. apply Hr; [done|lia].
Qed.

Definition pop_post (o : oid) (d : rt_data_queue) (items : list rt_data_item) (rs ss : list oid) s
    (out : outcome oid (Z * option rt_data_item)) s' : Prop :=
  match items with
  | [] => exists c ch, out = Waiting c /\ runs (dq_ipc s) c ch /\ dq_inv o d [] (rs ++ [c]) ss s' /\ dq_notes s' = dq_notes s
  | x :: items =>
      let low := Z.of_nat (length items) <=? lwm d in
      out = Returned (RT_EOK, Some x) /\
      (exists d', same_dq d d' /\ dq_inv o d' items rs (if low then tail ss else ss) s') /\
      (low = true -> first_woken ss (dq_ipc s')) /\
      dq_notes s' = dq_notes s ++ noted d o (if low then RT_DATAQUEUE_EVENT_LWM else RT_DATAQUEUE_EVENT_POP)
  end.

Lemma dq_pop_round_wp o d items rs ss timeout s :
  dq_inv o d items rs ss s -> (items = [] -> timeout <> 0 /\ exists c ch, runs (dq_ipc s) c ch) ->
  wp (dq_pop_round timer_thread o (rt_current_thread (i_sched (dq_ipc s))) timeout) s (pop_post o d items rs ss s).
Proof.
  intros Hi Hempty. pose proof Hi as [He Hd Hok]. unfold dq_pop_round, pop_post. wp_step. eapply wp_get_dq; [done|].
  rewrite (do_empty _ _ Hok). destruct items as [|x items].
  - destruct (Hempty eq_refl) as (Ht & c & ch & Hr). rewrite bool_decide_eq_true_2 by done.
    rewrite (proj2 (Z.eqb_neq timeout 0) Ht). pose proof Hr as (Hcur & Hc & Est). rewrite Hcur. wp_step.
    eapply wp_dq_wait; [apply He|exact I|apply He|exact Hr|]. intros k' Hwt. wp_step. exists c, ch.
    split; [done|]. split; [done|]. split; [|done]. split; simpl; [by eapply ends_wait_pop|done|done].
  - rewrite bool_decide_eq_false_2 by done. pose proof (dq_ok_pop d x items Hok) as Hok'. cbv zeta in Hok'.
    wp_step. eapply wp_deref; [by eapply dq_ok_read|]. wp_step. unfold put_dq. wp_step.
    match type of Hok' with dq_ok ?y _ => set (d' := y) in * end.
    assert (same_dq d d') as Hsame by (unfold d'; by destruct (_ =? _)). pose proof Hsame as (_ & _ & En & _).
    wp_step. eapply (dq_len_wp o d' items); [apply lookup_insert_eq|done|].
    change (lwm (set_full false (set_get (dq_next d (get_index d)) d))) with (lwm d).
    destruct (Z.of_nat (length items) <=? lwm d).
    + wp_step. apply wp_dq_ipc. eapply resume_one_wp; [apply He|apply He|exact I|apply He|]. intros k' Hwf.
      wp_step. eapply wp_notify; [apply lookup_insert_eq|]. wp_step. split; [done|]. split; [|split].
      * exists d'. split; [done|]. apply inv_notes. split; [by eapply ends_wake_push|apply lookup_insert_eq|done].
      * intros _. assert (first_woken ss (set_i_kernel k' (dq_ipc s))) as Hfw
          by (eapply (first_woken_of (LSender o)); [apply He|exact I|apply He|apply He|exact Hwf|done]).
        by destruct (evt_notify d').
      * rewrite notes_if, En. done.
    + wp_step. eapply wp_notify; [apply lookup_insert_eq|]. wp_step. split; [done|]. split; [|split; [done|]].
      * exists d'. split; [done|]. apply inv_notes. split; [exact He|apply lookup_insert_eq|done].
      * rewrite notes_if, En. done.
Qed.

Lemma dq_pop_wp o d items rs ss timeout s :
  dq_inv o d items rs ss s -> (items = [] -> timeout <> 0 -> exists c ch, runs (dq_ipc s) c ch) ->
  wp (rt_data_queue_pop timer_thread o timeout) s (fun out s' =>
    if bool_decide (items = []) && (timeout =? 0) then out = Returned (- RT_ETIMEOUT, None) /\ s' = s
    else pop_post o d items rs ss s out s').
Proof.
  intros Hi Hr. unfold rt_data_queue_pop. wp_step. apply wp_dq_ipc, wp_thread_self. rewrite set_dq_ipc_id.
  destruct (bool_decide (items = []) && (timeout =? 0)) eqn:E.
  - apply andb_true_iff in E as [E1 E2]. unfold dq_pop_round. wp_step. eapply wp_get_dq; [apply Hi|].
    rewrite (do_empty _ _ (dv_ok _ _ _ _ _ _ Hi)), E1, E2. by wp_steps.
  - apply dq_pop_round_wp; [done|]. intros ->. simpl in E. split; [lia|]. apply Hr; [done|lia].
Qed.

Lemma dq_peek_wp o d items rs ss s :
  dq_inv o d items rs ss s -> wp (rt_data_queue_peek o) s (fun r s' =>
    s' = s /\ r = match items with [] => (- RT_EEMPTY, None) | x :: _ => (RT_EOK, Some x) end).
Proof.
  intros [He Hd Hok]. unfold rt_data_queue_peek. wp_step. eapply wp_get_dq; [done|].
  rewrite (do_empty _ _ Hok). destruct items as [|x items].
  - rewrite bool_decide_eq_true_2 by done. by wp_steps.
  - rewrite bool_decide_eq_false_2 by done. wp_step. eapply wp_deref; [by eapply dq_ok_read|]. by wp_steps.
Qed.

Lemma dq_ok_reset d items :
  dq_ok d items -> dq_ok (set_full false (set_empty true (set_put 0 (set_get 0 d)))) [].
Proof.
  intros [[Hs Hl] Hp _ _ _ _]. split; simpl; [done|done| |by rewrite Zmod_0_l|done|].
  2: { symmetry. apply (Z.eqb_neq 0 (dq_size d)). lia. }
  split; [lia|]. split; [simpl; lia|]. intros j Hj. simpl in Hj. lia.
Qed.

(** Both queues of waiting threads are cancelled, one after the other. *)
Lemma wp_cancel_both fuel o rs ss k (Q : kernel -> Prop) :
  ends o rs ss k -> (length rs + length ss <= fuel)%nat ->
  (forall k', kinv k' -> (exists c, rt_current_thread (k_sched k') = Some c) ->
     tlists (k_sched k') !! LSusp o = Some [] -> tlists (k_sched k') !! LSender o = Some [] ->
     (forall t, t ∈ rs ++ ss -> exists th, threads (k_sched k') !! t = Some th /\ runnable th /\ error th = - RT_ERROR) ->
     Q k') ->
  wp (rt_ipc_list_resume_all fuel (LSusp o)) k (fun _ k1 =>
    wp (rt_ipc_list_resume_all fuel (LSender o)) k1 (fun _ k' => Q k')).
Proof.
  intros [H1 [c H2] H3 H4 H5 H6] Hf HR.
  apply (resume_all_spec fuel (LSusp o) rs c); [done..|lia|]. intros k1 Hc1 Hcur1.
  pose proof (cn_lists _ _ _ _ Hc1 (LSender o) I ltac:(done)) as HL. rewrite H4 in HL.
  apply (resume_all_spec fuel (LSender o) ss c); [apply Hc1|done|exact HL|done|lia|]. intros k2 Hc2 Hcur2.
  apply HR; [apply Hc2|by exists c| |apply Hc2|].
  - rewrite (cn_lists _ _ _ _ Hc2 (LSusp o) I) by done. apply Hc1.
  - intros t [Ht|Ht]%elem_of_app; [|by apply (cn_woken _ _ _ _ Hc2)].
    destruct (cn_woken _ _ _ _ Hc1 t Ht) as (th & Hth & Hru & Ee).
    destruct (cn_frame _ _ _ _ Hc2 t th Hth) as [_ H]. destruct H as (th2 & Hth2 & Hr2 & E2 & _); [|done|].
    + intros Hts. by eapply (queues_disjoint k (LSusp o) (LSender o) rs ss t).
    + exists th2. split_and!; [done|done|congruence].
Qed.

Lemma dq_reset_wp fuel o d items rs ss s :
  dq_inv o d items rs ss s -> (length rs + length ss <= fuel)%nat ->
  wp (rt_data_queue_reset fuel o) s (fun _ s' =>
    (exists d', same_dq d d' /\ queue d' = queue d /\ dq_inv o d' [] [] [] s') /\ dq_heap s' = dq_heap s /\
    forall t, t ∈ rs ++ ss -> exists th, threads (i_sched (dq_ipc s')) !! t = Some th /\ runnable th /\ error th = - RT_ERROR).
Proof.
  intros [He Hd Hok] Hf. unfold rt_data_queue_reset, upd_dq, put_dq. wp_step. wp_step. eapply wp_get_dq; [done|]. wp_step.
  set (d' := set_full false (set_empty true (set_put 0 (set_get 0 d)))).
  wp_step. apply wp_dq_ipc, wp_in_kernel, wp_in_sched. unfold rt_enter_critical. wp_step. simpl.
  match goal with |- wp _ ?x _ => set (s1 := x) end.
  assert (ends o rs ss (i_kernel (dq_ipc s1))) as He1.
  { destruct He as [H1 H2 H3 H4 H5 H6]. split; simpl; [by apply kinv_lock|done..]. }
  wp_step. apply wp_dq_ipc, wp_in_kernel.
  eapply wp_mono; [apply (wp_cancel_both fuel o rs ss); [exact He1|exact Hf|]; intros k' K1 K2 K3 K4 K5;
    exact (conj K1 (conj K2 (conj K3 (conj K4 K5))))|].
  intros ? k1 W. wp_step. apply wp_dq_ipc, wp_in_kernel. eapply wp_mono; [exact W|]. intros ? k2 (K1 & K2 & K3 & K4 & K5).
  wp_step. apply wp_dq_ipc, wp_in_kernel, wp_exit_critical; [exact K1|exact K2|]. intros s2 (S1 & [c2 S2] & S3 & S4).
  apply wp_dq_ipc. eapply (wp_schedule c2); [exact S1|exact S2|]. intros s3 (T1 & T2 & T3 & T4).
  split; [|split; [done|]].
  - exists d'. split; [done|]. split; [done|]. split; [|apply lookup_insert_eq|by eapply dq_ok_reset].
    split; simpl; [exact T1|exact T2| | |by intros t Ht%elem_of_nil..].
    + etransitivity; [apply (T4 (LSusp o) I)|]. etransitivity; [apply (S4 (LSusp o) I)|exact K3].
    + etransitivity; [apply (T4 (LSender o) I)|]. etransitivity; [apply (S4 (LSender o) I)|exact K4].
  - intros t Ht. destruct (K5 t Ht) as (th & Hth & Hru & Ee). destruct (S3 t th Hth) as [_ F].
    destruct (F ltac:(tauto) Hru) as (th2 & Hth2 & Hr2 & E2 & _). destruct (T3 t th2 Hth2) as [_ G].
    destruct (G ltac:(tauto) Hr2) as (th3 & Hth3 & Hr3 & E3 & _). exists th3. split_and!; [done|done|congruence].
Qed.

(** ** A bounded queue *)

Inductive dq_op := DPush (x : rt_data_item) | DPop | DPeek | DLen.
Inductive dq_out := DStatus (r : Z) | DItem (r : Z) (x : option rt_data_item) | DCount (n : Z) | DWaits.

(** The calls that do not wait. *)
Definition dq_exec (o : oid) (op : dq_op) : M (dq_st A) dq_out :=
  match op with
  | DPush x => r ← rt_data_queue_push timer_thread o x 0; mret (match r with Returned r => DStatus r | _ => DWaits end)
  | DPop => r ← rt_data_queue_pop timer_thread o 0; mret (match r with Returned (r, x) => DItem r x | _ => DWaits end)
  | DPeek => r ← rt_data_queue_peek o; mret (DItem (fst r) (snd r))
  | DLen => n ← rt_data_queue_len o; mret (DCount n)
  end.

Fixpoint dq_run (o : oid) (ops : list dq_op) : M (dq_st A) (list dq_out) :=
  match ops with
  | [] => mret []
  | op :: ops => out ← dq_exec o op; outs ← dq_run o ops; mret (out :: outs)
  end.

Definition fifo_step (n : Z) (q : list rt_data_item) (op : dq_op) : dq_out * list rt_data_item :=
  match op with
  | DPush x => if Z.of_nat (length q) =? n then (DStatus (- RT_ETIMEOUT), q) else (DStatus RT_EOK, q ++ [x])
  | DPop => match q with [] => (DItem (- RT_ETIMEOUT) None, []) | x :: q => (DItem RT_EOK (Some x), q) end
  | DPeek => (match q with [] => DItem (- RT_EEMPTY) None | x :: _ => DItem RT_EOK (Some x) end, q)
  | DLen => (DCount (Z.of_nat (length q)), q)
  end.

Fixpoint fifo_run (n : Z) (q : list rt_data_item) (ops : list dq_op) : list dq_out * list rt_data_item :=
  match ops with
  | [] => ([], q)
  | op :: ops =>
      let '(out, q) := fifo_step n q op in
      let '(outs, q) := fifo_run n q ops in (out :: outs, q)
  end.

Lemma dq_exec_wp o d items rs ss op s :
  dq_inv o d items rs ss s ->
  wp (dq_exec o op) s (fun out s' => exists d' items' rs' ss', same_dq d d' /\
    fifo_step (dq_size d) items op = (out, items') /\ dq_inv o d' items' rs' ss' s').
Proof.
  intros Hi. destruct op as [x| | |]; simpl.
  - wp_step. eapply wp_mono; [eapply dq_push_wp; [done|lia]|]. simpl. rewrite andb_true_r. unfold push_post.
    intros out s' H. destruct (Z.of_nat (length items) =? dq_size d).
    + destruct H as [-> ->]. wp_steps. by exists d, items, rs, ss.
    + destruct H as (-> & (d' & Hs & H) & _). wp_steps. by exists d', (items ++ [x]), (tail rs), ss.
  - wp_step. eapply wp_mono; [eapply dq_pop_wp; [done|done]|]. simpl. rewrite andb_true_r. unfold pop_post.
    intros out s' H. destruct items as [|x items]; simpl in H.
    + destruct H as [-> ->]. wp_steps. by exists d, [], rs, ss.
    + destruct H as (-> & (d' & Hs & H) & _). wp_steps. by eexists d', items, rs, _.
  - wp_step. eapply wp_mono; [by eapply dq_peek_wp|]. intros r s' [-> ->]. wp_steps. exists d, items, rs, ss.
    by destruct items.
  - wp_step. eapply dq_len_wp; [apply Hi|apply Hi|]. wp_steps. by exists d, items, rs, ss.
Qed.

Lemma same_dq_trans d1 d2 d3 : same_dq d1 d2 -> same_dq d2 d3 -> same_dq d1 d3.
Proof. intros (? & ? & ? & ? & ?) (? & ? & ? & ? & ?). split_and!; congruence. Qed.

(** C13. A data queue is a bounded queue: any sequence of non-blocking pushes,
    pops, peeks and length queries, with any threads waiting at either end,
    gives exactly the results of a first-in first-out queue of the size of the
    buffer; full and empty are reported and change nothing, the 15-bit indices
    never leave the buffer, and the kernel invariant is kept. *)
Theorem dq_refines_fifo o d items rs ss ops s :
  dq_inv o d items rs ss s ->
  wp (dq_run o ops) s (fun outs s' => exists d' items' rs' ss', same_dq d d' /\
    fifo_run (dq_size d) items ops = (outs, items') /\ dq_inv o d' items' rs' ss' s').
Proof.
  revert d items rs ss s. induction ops as [|op ops IH]; intros d items rs ss s Hi; simpl.
  - wp_steps. by exists d, items, rs, ss.
  - wp_step. eapply wp_mono; [by eapply dq_exec_wp|]. intros out s1 (d1 & items1 & rs1 & ss1 & S1 & E1 & Hi1).
    wp_step. eapply wp_mono; [by eapply IH|]. intros outs s2 (d2 & items2 & rs2 & ss2 & S2 & E2 & Hi2).
    wp_steps. exists d2, items2, rs2, ss2. split; [by eapply same_dq_trans|].
    destruct S1 as (Es & _). rewrite E1. rewrite Es in E2. by rewrite E2.
Qed.

(** Popping from a data queue with items returns the oldest one and calls
    [evt_notify] exactly once; a thread waiting to push is woken, the first
    one, exactly when at most [lwm] items are left, and then its push goes on
    without an error. *)
Theorem dq_pop_low_water o d x items rs ss timeout s :
  dq_inv o d (x :: items) rs ss s ->
  wp (rt_data_queue_pop timer_thread o timeout) s (fun out s' =>
    let low := Z.of_nat (length items) <=? lwm d in
    out = Returned (RT_EOK, Some x) /\
    (exists d', same_dq d d' /\ dq_inv o d' items rs (if low then tail ss else ss) s') /\
    (low = true -> first_woken ss (dq_ipc s')) /\
    dq_notes s' = dq_notes s ++
      (if evt_notify d then [(o, if low then RT_DATAQUEUE_EVENT_LWM else RT_DATAQUEUE_EVENT_POP)] else [])).
Proof.
  intros Hi. eapply wp_mono; [by apply (dq_pop_wp o d (x :: items) rs ss timeout s Hi)|]. simpl. intros out s' H. exact H.
Qed.
End Specs.

(** ** From initialisation to the end *)

Section Lifecycle.
Context {A : Type} {AA : Allocator A} {AL : AllocatorLaws A}.
Implicit Types s : dq_st A.

Lemma wp_dq_heap {B} (m : M A B) s (Q : B -> dq_st A -> Prop) :
  wp m (dq_heap s) (fun b h => Q b (set_dq_heap h s)) -> wp (in_dq_heap m) s Q.
Proof. apply wp_zoom. Qed.

(** Nobody waits at [o], which is not in use. *)
Record dq_startable (o : oid) s : Prop := {
  dt_kinv : kinv (i_kernel (dq_ipc s));
  dt_current : exists c, rt_current_thread (i_sched (dq_ipc s)) = Some c;
  dt_pop : members (i_sched (dq_ipc s)) (LSusp o) = [];
  dt_push : members (i_sched (dq_ipc s)) (LSender o) = []
}.

(** [rt_data_queue_init] returns [-RT_ENOMEM] with the heap as before, or
    an empty queue whose items lie in one new block.  [rt_data_queue_deinit],
    at any later time and with any threads waiting at both ends, terminates,
    gives exactly this block back, and every thread that waited can run with
    the error [-RT_ERROR]. *)
Theorem dq_init_deinit junk o size lwm evt s v :
  dq_startable o s -> held (dq_heap s) v -> 0 < size <= 2 ^ 15 -> Z.of_nat (length junk) = size ->
  wp (rt_data_queue_init junk o size lwm evt) s (fun r s1 =>
    (r = - RT_ENOMEM /\ held (dq_heap s1) v) \/
    (r = RT_EOK /\ exists d p n, v !! p = None /\ SIZEOF_ITEM * size <= n /\ held (dq_heap s1) (<[p := n]> v) /\
      queue_ptr d = p /\ dq_size d = size /\ evt_notify d = evt /\ dq_inv o d [] [] [] s1 /\
      forall d2 items rs ss s2 v2 fuel, same_dq d d2 -> dq_inv o d2 items rs ss s2 ->
        held (dq_heap s2) v2 -> v2 !! p = Some n -> (length rs + length ss <= fuel)%nat ->
        wp (rt_data_queue_deinit fuel o) s2 (fun r' s3 =>
          r' = RT_EOK /\ held (dq_heap s3) (delete p v2) /\ kinv (i_kernel (dq_ipc s3)) /\
          forall t, t ∈ rs ++ ss -> exists th, threads (i_sched (dq_ipc s3)) !! t = Some th /\ runnable th /\
            error th = - RT_ERROR))).
Proof.
  intros [Hk [c Hc] Hp1 Hp2] Hv Hs Hj. unfold rt_data_queue_init, SIZEOF_ITEM.
  wp_step. apply wp_dq_ipc, wp_in_kernel. apply wp_list_init; [exact Hk|done|exact Hp2|]. intros s1 K1 L1 _ C1.
  wp_step. apply wp_dq_ipc, wp_in_kernel. apply wp_list_init; [exact K1|done| |].
  { unfold members in *. simpl. by rewrite L1, lookup_insert_ne. }
  intros s2 K2 L2 _ C2. rewrite (uwrap_small 16 size) by c_lia.
  wp_step. apply wp_dq_heap. eapply wp_mono; [apply malloc_law; [exact Hv|lia|lia]|].
  intros p h1 [[-> ->]|(n & Hn & Hnew & Hh)]; unfold put_dq.
  - wp_step. wp_step. wp_steps. left. split; [done|]. exact Hv.
  - destruct (held_range _ _ p n Hh (lookup_insert_eq _ _ _)) as (Hp & _). wp_step. wp_step.
    rewrite (proj2 (Z.eqb_neq p 0)) by lia. wp_steps. right. split; [done|].
    eexists _, p, n. split; [done|]. split; [done|]. split; [exact Hh|]. split; [|split; [|split; [|split]]];
      [| | |split; [|apply lookup_insert_eq|]|]; try done.
    + simpl in *. split; simpl; [exact K2|exists c; by rewrite C2, C1| | |by intros t Ht%elem_of_nil..].
      * by rewrite L2, lookup_insert_eq.
      * by rewrite L2, lookup_insert_ne, L1, lookup_insert_eq by done.
    + split; simpl; [done|lia| |by rewrite Zmod_0_l|done|symmetry; apply (Z.eqb_neq 0 size); lia].
      split; [lia|]. split; [simpl; lia|]. intros j Hj'. simpl in Hj'. lia.
    + simpl. intros d2 items rs ss s3 v2 fuel (_ & _ & _ & Eq & _) Hi Hv2 Hp2' Hf. simpl in Eq.
      unfold rt_data_queue_deinit. wp_step. eapply wp_mono; [by eapply dq_reset_wp|].
      intros _ s4 ((d4 & (_ & _ & _ & Eq4 & _) & _ & [He4 Hd4 _]) & Eh & Hw). unfold upd_dq, put_dq.
      wp_step. wp_step. eapply wp_get_dq; [exact Hd4|]. wp_step. wp_step. eapply wp_get_dq; [apply lookup_insert_eq|].
      wp_step. apply wp_dq_heap. simpl. rewrite Eq4, Eq, Eh. eapply wp_mono; [eapply free_law; [exact Hv2|exact Hp2']|].
      intros [] h5 H5. wp_steps. split; [done|]. split; [exact H5|]. split; [apply He4|exact Hw].
Qed.
End Lifecycle.

(** ** Sizes above the 15 bits of the indices *)

(** [rt_data_queue_init] takes 16-bit sizes, but an index wraps round after
    [2 ^ 15] places: of a larger queue the rest is never used, and a full one
    reports its nominal size as its length. *)
Theorem dq_wraps_early d :
  2 ^ 15 < dq_size d < 2 ^ 16 -> dq_next d (2 ^ 15 - 1) = 0.
Proof.
  intros Hd. unfold dq_next. change (u15 (2 ^ 15 - 1 + 1)) with 0. by rewrite (proj2 (Z.eqb_neq 0 (dq_size d))) by lia.
Qed.

(** ** Concrete runs *)

Definition demo_item (n : Z) : rt_data_item := mk_item n 4.
Definition demo_dq_start : dq_st Mem.heap := mk_dq_st demo_ipc Mem.heap_a ∅ [].

Lemma demo_dq_startable : dq_startable 14 demo_dq_start.
Proof. split; [exact demo_ipc_kinv|by eexists|vm_compute; done..]. Qed.

(** A queue of two places with a callback and the low water mark 1. *)
Definition demo_dq (items : list rt_data_item) : dq_st Mem.heap :=
  match (rt_data_queue_init [demo_item 0; demo_item 0] 14 2 1 true;; dq_run 99 14 (DPush <$> items)) demo_dq_start with
  | Some (_, s) => s
  | None => demo_dq_start
  end.

Lemma demo_dq_inv : exists d, dq_inv 14 d [] [] [] (demo_dq []) /\ dq_size d = 2.
Proof.
  destruct (proj1 (wp_Some _ _ _) (dq_init_deinit [demo_item 0; demo_item 0] 14 2 1 true demo_dq_start ∅
    demo_dq_startable heap_a_held ltac:(lia) eq_refl)) as (r & s1 & E & H).
  assert (demo_dq [] = s1 /\ r = RT_EOK) as [-> ->].
  { unfold demo_dq. simpl. unfold mbind, M_bind at 1. rewrite E. split; [done|].
    assert (fst <$> rt_data_queue_init [demo_item 0; demo_item 0] 14 2 1 true demo_dq_start = Some 0) as F by (vm_compute; reflexivity).
    rewrite E in F. by injection F. }
  destruct H as [[? _]|(_ & d & p & n & _ & _ & _ & _ & Es & _ & Hi & _)]; [done|]. by exists d.
Qed.

Lemma dq_refines_fifo_witness :
  exists s', dq_run 99 14 [DPush (demo_item 7); DPeek; DPush (demo_item 8); DPush (demo_item 9); DLen; DPop; DPop; DPop]
      (demo_dq []) =
    Some ([DStatus 0; DItem 0 (Some (demo_item 7)); DStatus 0; DStatus (- 2); DCount 2; DItem 0 (Some (demo_item 7));
           DItem 0 (Some (demo_item 8)); DItem (- 2) None], s').
Proof.
  destruct demo_dq_inv as (d & Hi & Hs).
  destruct (proj1 (wp_Some _ _ _) (dq_refines_fifo 99 14 d [] [] []
    [DPush (demo_item 7); DPeek; DPush (demo_item 8); DPush (demo_item 9); DLen; DPop; DPop; DPop] (demo_dq []) Hi))
    as (outs & s' & E & d' & items' & rs' & ss' & _ & F & _).
  rewrite Hs in F. simpl in F. injection F as <- <-. exists s'. exact E.
Defined.

Lemma dq_pop_low_water_witness :
  exists s s' : dq_st Mem.heap, rt_data_queue_pop 99 14 5 s = Some (Returned (0, Some (demo_item 7)), s') /\
    dq_notes s' = dq_notes s ++ [(14%positive, RT_DATAQUEUE_EVENT_LWM)].
Proof.
  destruct demo_dq_inv as (d & Hi & Hs).
  destruct (proj1 (wp_Some _ _ _) (dq_exec_wp 99 14 d [] [] [] (DPush (demo_item 7)) (demo_dq []) Hi))
    as (out & s & E & d' & items' & rs' & ss' & Hsame & F & Hi').
  rewrite Hs in F. simpl in F. injection F as <- <-.
  assert (dqueues s !! 14%positive = Some d') as Hd by apply Hi'.
  assert (lwm d' = 1 /\ evt_notify d' = true) as [L1 L2]
    by (vm_compute in E; injection E as <-; vm_compute in Hd; injection Hd as <-; done).
  destruct (proj1 (wp_Some _ _ _) (dq_pop_low_water 99 14 d' (demo_item 7) [] rs' ss' 5 s Hi'))
    as (out & s' & E' & -> & _ & _ & N).
  rewrite L1, L2 in N. exists s, s'. split; [exact E'|exact N].
Defined.

Lemma dq_init_deinit_witness :
  exists s1 s2, rt_data_queue_init [demo_item 0; demo_item 0] 14 2 1 true demo_dq_start = Some (0, s1) /\
    rt_data_queue_deinit 0 14 s1 = Some (0, s2) /\ held (dq_heap s2) ∅.
Proof.
  destruct (proj1 (wp_Some _ _ _) (dq_init_deinit [demo_item 0; demo_item 0] 14 2 1 true demo_dq_start ∅
    demo_dq_startable heap_a_held ltac:(lia) eq_refl)) as (r & s1 & E & H).
  assert (fst <$> rt_data_queue_init [demo_item 0; demo_item 0] 14 2 1 true demo_dq_start = Some 0) as F
    by (vm_compute; reflexivity).
  rewrite E in F. injection F as ->.
  destruct H as [[H _]|(_ & d & p & n & Hp & _ & Hh & _ & _ & _ & Hi & H)]; [discriminate H|].
  destruct (proj1 (wp_Some _ _ _) (H d [] [] [] s1 _ 0%nat ltac:(by repeat split) Hi Hh (lookup_insert_eq _ _ _) (le_n 0)))
    as (r' & s2 & E2 & -> & H2 & _).
  exists s1, s2. split; [exact E|]. split; [exact E2|]. by rewrite delete_insert_id in H2.
Defined.

End DataQueue.
