(* ===== verification/Completion.v ===== *)
(** * Completions

    Model of [components/drivers/src/completion.c]: a flag that one thread
    waits for ([rt_completion_wait]) and another thread or an interrupt sets
    ([rt_completion_done]).  The thread is on the list [LSusp] of the
    completion.  The part of [rt_completion_wait] behind [rt_schedule] is
    [rt_completion_wait_resumed]. *)
From stdpp Require Import base list gmap.
From Stdlib Require Import ZArith Lia.
From S2P Require Import Prelude Scheduler Object Timer Thread Ipc Mailbox.

Module Completion.
Import Sched Obj Thr Ipc Mailbox.

Definition RT_COMPLETED : Z := 1.
Definition RT_UNCOMPLETED : Z := 0.

Record cp_st := mk_cp_st { cp_ipc : ipc; cp_flags : gmap oid Z }.
Definition set_cp_ipc (v : ipc) (s : cp_st) : cp_st := mk_cp_st v (cp_flags s).
Definition in_cp_ipc {A} (m : M ipc A) : M cp_st A := zoom cp_ipc set_cp_ipc m.
Definition get_flag (o : oid) : M cp_st Z := m ← gets cp_flags; deref (m !! o).
Definition put_flag (o : oid) (v : Z) : M cp_st unit := modify (fun s => mk_cp_st (cp_ipc s) (<[o := v]> (cp_flags s))).

Definition rt_completion_init (o : oid) : M cp_st unit :=
  put_flag o RT_UNCOMPLETED;;
  in_cp_ipc (in_kernel (in_sched (tlist_init (LSusp o)))).

Definition rt_completion_wait (timer_thread o : oid) (timeout : Z) : M cp_st (outcome oid Z) :=
  thread ← in_cp_ipc (in_kernel (in_sched rt_thread_self));
  flag ← get_flag o;
  if negb (flag =? RT_COMPLETED) then
    if timeout =? 0 then mret (Returned (- RT_ETIMEOUT))
    else
      thread ← deref thread;
      in_cp_ipc (reset_error thread RT_EOK);;
      in_cp_ipc (wait_on timer_thread (LSusp o) thread RT_IPC_FLAG_FIFO timeout);;
      mret (Waiting thread)
  else put_flag o RT_UNCOMPLETED;; mret (Returned RT_EOK).

Definition rt_completion_wait_resumed (o thread : oid) : M cp_st Z :=
  result ← in_cp_ipc (thread_error thread);
  put_flag o RT_UNCOMPLETED;;
  mret result.

Definition rt_completion_done (o : oid) : M cp_st unit :=
  flag ← get_flag o;
  if flag =? RT_COMPLETED then mret tt
  else
    put_flag o RT_COMPLETED;;
    in_cp_ipc (resume_one (LSusp o)).

(** ** One thread that waits *)

(** The states of a completion as the thread [t] that waits for it sees them:
    nobody waits and the flag is set or not; [t] waits; [t] has been woken
    by [rt_completion_done], or by its timeout, and has not run since. *)
Inductive cp_abs := CpFree (f : bool) | CpWaits | CpWoken | CpExpired (f : bool).

(** The events of a history with the results the calls return. *)
Inductive cp_event := CpWait (r : Z) | CpBlock | CpResume (r : Z) | CpDone | CpTimeout | CpSchedule.

(** What a completion promises: [None] for an event that cannot happen. *)
Definition cp_step (a : cp_abs) (e : cp_event) : option cp_abs :=
  match e, a with
  | CpWait r, CpFree true => if r =? RT_EOK then Some (CpFree false) else None
  | CpWait r, CpFree false => if r =? - RT_ETIMEOUT then Some (CpFree false) else None
  | CpBlock, CpFree false => Some CpWaits
  | CpDone, CpFree _ => Some (CpFree true)
  | CpDone, CpWaits => Some CpWoken
  | CpDone, CpWoken => Some CpWoken
  | CpDone, CpExpired _ => Some (CpExpired true)
  | CpTimeout, CpWaits => Some (CpExpired false)
  | CpResume r, CpWoken => if r =? RT_EOK then Some (CpFree false) else None
  | CpResume r, CpExpired _ => if r =? - RT_ETIMEOUT then Some (CpFree false) else None
  | CpSchedule, a => Some a
  | _, _ => None
  end.

Fixpoint cp_steps (a : cp_abs) (es : list cp_event) : option cp_abs :=
  match es with [] => Some a | e :: es => b ← cp_step a e; cp_steps b es end.

Lemma cp_steps_snoc a es e b : cp_steps a es = Some b -> cp_steps a (es ++ [e]) = cp_step b e.
Proof.
  revert a. induction es as [|x es IH]; simpl; intros a E.
  - injection E as <-. by destruct (cp_step a e).
  - destruct (cp_step a x) as [c|]; [|done]. simpl in *. by apply IH.
Qed.

Definition cp_flag (a : cp_abs) : Z :=
  match a with CpFree true | CpWoken | CpExpired true => RT_COMPLETED | _ => RT_UNCOMPLETED end.
Definition cp_queue (t : oid) (a : cp_abs) : list oid := match a with CpWaits => [t] | _ => [] end.

(** Thread [t] can run and will find the error [e]. *)
Definition ready_with (t : oid) (e : Z) (k : kernel) : Prop :=
  exists th, threads (k_sched k) !! t = Some th /\ runnable th /\ error th = e.

Lemma ready_frame (W : oid -> Prop) t e k k' : ready_with t e k -> ~ W t -> woken_frame W k k' -> ready_with t e k'.
Proof.
  intros (th & Ht & Hr & E) Hn Hf. destruct (Hf t th Ht) as [_ H]. destruct (H Hn Hr) as (th' & ? & ? & E' & _).
  exists th'. split_and!; [done|done|congruence].
Qed.

Definition cp_waiter (t : oid) (a : cp_abs) (k : kernel) : Prop :=
  match a with
  | CpFree _ => True
  | CpWaits => has_error (k_sched k) RT_EOK t
  | CpWoken => ready_with t RT_EOK k
  | CpExpired _ => ready_with t (- RT_ETIMEOUT) k
  end.

Record cp_rep (o t : oid) (a : cp_abs) (s : cp_st) : Prop := {
  cr_kinv : kinv (i_kernel (cp_ipc s));
  cr_current : exists c, rt_current_thread (i_sched (cp_ipc s)) = Some c;
  cr_flag : cp_flags s !! o = Some (cp_flag a);
  cr_queue : tlists (i_sched (cp_ipc s)) !! LSusp o = Some (cp_queue t a);
  cr_waiter : cp_waiter t a (i_kernel (cp_ipc s))
}.

Lemma wp_cp_ipc {B} (m : M ipc B) s (Q : B -> cp_st -> Prop) :
  wp m (cp_ipc s) (fun b i => Q b (set_cp_ipc i s)) -> wp (in_cp_ipc m) s Q.
Proof. apply wp_zoom. Qed.
Lemma set_cp_ipc_id s : set_cp_ipc (cp_ipc s) s = s.
Proof. by destruct s. Qed.
Lemma wp_get_flag o f s (Q : Z -> cp_st -> Prop) : cp_flags s !! o = Some f -> Q f s -> wp (get_flag o) s Q.
Proof. intros H HQ. unfold get_flag. wp_steps. by eapply wp_deref. Qed.

(** Setting the flag without touching the kernel. *)
Lemma cp_rep_flag o t a b s :
  cp_rep o t a s -> cp_queue t b = cp_queue t a ->
  (cp_waiter t a (i_kernel (cp_ipc s)) -> cp_waiter t b (i_kernel (cp_ipc s))) ->
  cp_rep o t b (mk_cp_st (cp_ipc s) (<[o := cp_flag b]> (cp_flags s))).
Proof.
  intros [H1 H2 H3 H4 H5] Hq Hw. split; simpl; [done|done|apply lookup_insert_eq|by rewrite Hq|by apply Hw].
Qed.

Lemma cp_wait_wp timer_thread o t ch f timeout s :
  cp_rep o t (CpFree f) s -> runs (cp_ipc s) t ch ->
  wp (rt_completion_wait timer_thread o timeout) s (fun out s' =>
    match out with
    | Returned r => exists a, cp_step (CpFree f) (CpWait r) = Some a /\ cp_rep o t a s'
    | Waiting c => c = t /\ timeout <> 0 /\ cp_step (CpFree f) CpBlock = Some CpWaits /\ cp_rep o t CpWaits s' /\
        waits (LSusp o) t (set_error RT_EOK ch) [t] timeout (i_kernel (cp_ipc s)) (i_kernel (cp_ipc s'))
    end).
Proof.
  intros Hi Hr. pose proof Hi as [Hk Hc Hf Hq _]. pose proof Hr as (Hcur & Ht & Est). unfold rt_completion_wait.
  wp_step. apply wp_cp_ipc, wp_thread_self. rewrite set_cp_ipc_id, Hcur. wp_step. eapply wp_get_flag; [exact Hf|].
  destruct f; simpl.
  - unfold put_flag. wp_steps. eexists. split; [done|]. by apply (cp_rep_flag o t (CpFree true) (CpFree false)).
  - destruct (Z.eqb_spec timeout 0) as [E|E]; [wp_steps; eexists; split; [done|exact Hi]|].
    wp_step. eapply wp_deref; [done|]. wp_step. apply wp_cp_ipc. eapply wp_reset_error; [exact Ht|]. wp_step. apply wp_cp_ipc.
    eapply wp_wait_cleared; [exact Hk|exact I|exact Hq|exact Hr|by left|].
    intros pre post k' [Hpp Hp] Hwt. simpl in Hp, Hpp. subst post. destruct pre; [|done]. wp_steps.
    split; [done|]. split; [done|]. split; [done|]. split; [|exact Hwt].
    split; simpl; [apply Hwt|apply Hwt|done|apply Hwt|]. eexists. split; [apply Hwt|done].
Qed.

Lemma cp_done_wp o t a s :
  cp_rep o t a s ->
  wp (rt_completion_done o) s (fun _ s' => exists b, cp_step a CpDone = Some b /\ cp_rep o t b s').
Proof.
  intros Hi. pose proof Hi as [Hk Hc Hf Hq Hw]. unfold rt_completion_done. wp_step. eapply wp_get_flag; [exact Hf|].
  assert (forall b, cp_step a CpDone = Some b -> cp_flag b = RT_COMPLETED) as Hb by (intros b; destruct a; simpl; intros [= <-]; done).
  destruct (Z.eqb_spec (cp_flag a) RT_COMPLETED) as [E|E].
  { wp_steps. exists a. split; [|done]. by destruct a as [[]| | |[]]. }
  unfold put_flag. wp_step. wp_step. apply wp_cp_ipc.
  eapply resume_one_wp; [exact Hk|exact Hc|exact I|exact Hq|]. intros k' Hwf. simpl in Hwf.
  assert (tail (cp_queue t a) = []) as Et by (by destruct a).
  destruct a as [[]| | |[]]; try done; (eexists; split; [reflexivity|]);
    (split; simpl; [apply Hwf|apply Hwf|apply lookup_insert_eq|rewrite (wf_queue _ _ _ _ Hwf); exact (f_equal Some Et)|]).
  - done.
  - destruct Hw as (th & Hth & Ee). destruct (wf_self _ _ _ _ Hwf t th eq_refl Hth) as (th' & H1 & H2 & E2 & _).
    exists th'. split_and!; [done|done|congruence].
  - eapply ready_frame; [exact Hw| |apply Hwf]. by simpl.
Qed.

Lemma cp_resumed_wp o t a s :
  cp_rep o t a s -> a = CpWoken \/ (exists f, a = CpExpired f) ->
  wp (rt_completion_wait_resumed o t) s (fun r s' => cp_step a (CpResume r) = Some (CpFree false) /\ cp_rep o t (CpFree false) s').
Proof.
  intros Hi Ha. pose proof Hi as [Hk Hc Hf Hq Hw]. unfold rt_completion_wait_resumed, put_flag.
  destruct Ha as [->|[f ->]]; destruct Hw as (th & Hth & _ & Ee);
    (wp_step; apply wp_cp_ipc; eapply wp_thread_error; [exact Hth|]; rewrite set_cp_ipc_id, Ee; wp_steps;
     split; [done|]).
  - by apply (cp_rep_flag o t CpWoken (CpFree false)).
  - by apply (cp_rep_flag o t (CpExpired f) (CpFree false)).
Qed.

Lemma cp_timeout_wp o t s :
  cp_rep o t CpWaits s -> ThreadTimer t ∉ Tmr.rt_timer_list (k_timer (i_kernel (cp_ipc s))) ->
  wp (in_cp_ipc (in_kernel (rt_thread_timeout t))) s (fun _ s' => cp_rep o t (CpExpired false) s').
Proof.
  intros [Hk (c & Hc) Hf Hq Hw] Hn. apply wp_cp_ipc, wp_in_kernel.
  apply (timeout_expires (LSusp o) t [t] c); [done..|by apply list_elem_of_singleton|done|done|].
  intros k' [X1 X2 X3 X4 X5]. split; simpl; [done|done|done| |exact X4].
  rewrite X3. rewrite filter_cons_False by tauto. by rewrite filter_nil.
Qed.

Lemma cp_schedule_wp o t a s :
  cp_rep o t a s -> wp (in_cp_ipc schedule) s (fun _ s' => cp_rep o t a s').
Proof.
  intros [Hk (c & Hc) Hf Hq Hw]. apply wp_cp_ipc. apply (wp_schedule c); [done..|]. intros s' (X1 & X2 & X3 & X4).
  split; simpl; [done|done|done|by rewrite (X4 (LSusp o) I)|].
  destruct a; simpl in *; [done| |by eapply ready_frame; [exact Hw| |exact X3]; tauto..].
  destruct Hw as (th & Hth & E). destruct (waiter_of (i_kernel (cp_ipc s)) (LSusp o) t [t] Hk I Hq) as (th' & Hth' & Est).
  { by apply list_elem_of_singleton. }
  simplify_eq. exists th. split; [|done]. apply (X3 t th Hth); [tauto|by apply suspended_idle].
Qed.

(** Whether [t] is inside [rt_completion_wait]. *)
Fixpoint in_wait_from (b : bool) (es : list cp_event) : bool :=
  match es with
  | [] => b
  | CpBlock :: es => in_wait_from true es
  | CpResume _ :: es => in_wait_from false es
  | _ :: es => in_wait_from b es
  end.
Abbreviation in_wait es := (in_wait_from false es).
Definition abs_in_wait (a : cp_abs) : bool := match a with CpFree _ => false | _ => true end.

Lemma in_wait_steps a es b : cp_steps a es = Some b -> in_wait_from (abs_in_wait a) es = abs_in_wait b.
Proof.
  revert a. induction es as [|e es IH]; simpl; intros a E; [by injection E as <-|].
  destruct (cp_step a e) as [c|] eqn:Ec; [|done]. simpl in E. rewrite <- (IH c E).
  by destruct a as [[]| | |[]], e; simpl in *; repeat case_match; simplify_eq.
Qed.

Lemma in_wait_free es b : cp_steps (CpFree false) es = Some b -> in_wait es = abs_in_wait b.
Proof. exact (in_wait_steps (CpFree false) es b). Qed.

(** Waits that were successful, calls of [rt_completion_done], and whether
    one is still to be consumed. *)
Definition is_ok (e : cp_event) : nat :=
  match e with CpWait r | CpResume r => if r =? RT_EOK then 1 else 0 | _ => 0 end.
Definition is_done (e : cp_event) : nat := match e with CpDone => 1 | _ => 0 end.
Definition pending (a : cp_abs) : nat := if cp_flag a =? RT_COMPLETED then 1 else 0.

Lemma oks_steps a es b :
  cp_steps a es = Some b -> (sum_list (is_ok <$> es) + pending b <= sum_list (is_done <$> es) + pending a)%nat.
Proof.
  revert a. induction es as [|e es IH]; simpl; intros a E; [injection E as <-; lia|].
  destruct (cp_step a e) as [c|] eqn:Ec; [|done]. simpl in E. specialize (IH c E).
  enough (is_ok e + pending c <= is_done e + pending a)%nat by (unfold fmap in IH; lia).
  destruct a as [[]| | |[]], e; simpl in *; unfold pending, RT_EOK, RT_ETIMEOUT in *; simpl; repeat case_match; simplify_eq; simpl; lia.
Qed.

Section History.
Context (timer_thread o t : oid).

(** Every history of a completion that only thread [t] waits for: [t] calls
    [rt_completion_wait] when it runs, and goes on behind the wait when it has been
    woken; anybody, an interrupt too, calls [rt_completion_done]; the timer of
    [t] expires while it waits; threads are switched. *)
Inductive cp_history : list cp_event -> cp_st -> Prop :=
| ch_init s s' :
    kinv (i_kernel (cp_ipc s)) -> (exists c, rt_current_thread (i_sched (cp_ipc s)) = Some c) ->
    members (i_sched (cp_ipc s)) (LSusp o) = [] ->
    rt_completion_init o s = Some (tt, s') -> cp_history [] s'
| ch_wait es s ch timeout r s' :
    cp_history es s -> runs (cp_ipc s) t ch -> in_wait es = false ->
    rt_completion_wait timer_thread o timeout s = Some (Returned r, s') -> cp_history (es ++ [CpWait r]) s'
| ch_block es s ch timeout s' :
    cp_history es s -> runs (cp_ipc s) t ch -> in_wait es = false ->
    rt_completion_wait timer_thread o timeout s = Some (Waiting t, s') -> cp_history (es ++ [CpBlock]) s'
| ch_resume es s ch r s' :
    cp_history es s -> runs (cp_ipc s) t ch -> in_wait es = true ->
    rt_completion_wait_resumed o t s = Some (r, s') -> cp_history (es ++ [CpResume r]) s'
| ch_done es s s' :
    cp_history es s -> rt_completion_done o s = Some (tt, s') -> cp_history (es ++ [CpDone]) s'
| ch_timeout es s s' :
    cp_history es s -> t ∈ members (i_sched (cp_ipc s)) (LSusp o) ->
    ThreadTimer t ∉ Tmr.rt_timer_list (k_timer (i_kernel (cp_ipc s))) ->
    in_cp_ipc (in_kernel (rt_thread_timeout t)) s = Some (tt, s') -> cp_history (es ++ [CpTimeout]) s'
| ch_schedule es s s' :
    cp_history es s -> in_cp_ipc schedule s = Some (tt, s') -> cp_history (es ++ [CpSchedule]) s'.

Lemma cp_history_abs es s : cp_history es s -> exists a, cp_steps (CpFree false) es = Some a /\ cp_rep o t a s.
Proof.
  induction 1 as [s s' Hk Hc Hm E|es s ch timeout r s' _ (a & Ha & Hi) Hr Hw E|es s ch timeout s' _ (a & Ha & Hi) Hr Hw E
    |es s ch r s' _ (a & Ha & Hi) Hr Hw E|es s s' _ (a & Ha & Hi) E|es s s' _ (a & Ha & Hi) Hin Hn E
    |es s s' _ (a & Ha & Hi) E].
  - exists (CpFree false). split; [done|]. refine (wp_run _ _ (fun _ s1 => cp_rep o t (CpFree false) s1) _ _ _ E). unfold rt_completion_init, put_flag.
    wp_step. wp_step. apply wp_cp_ipc, wp_in_kernel. apply wp_list_init; [exact Hk|done|exact Hm|].
    intros s1 K1 L1 _ C1. split; simpl; [done|by rewrite C1|apply lookup_insert_eq|by rewrite L1, lookup_insert_eq|done].
  - rewrite (in_wait_free _ _ Ha) in Hw. destruct a as [f| | |]; try done.
    destruct (wp_run _ _ _ _ _ (cp_wait_wp timer_thread o t ch f timeout s Hi Hr) E) as (a & Es & Hi').
    exists a. split; [|done]. by rewrite (cp_steps_snoc _ _ _ _ Ha).
  - rewrite (in_wait_free _ _ Ha) in Hw. destruct a as [f| | |]; try done.
    destruct (wp_run _ _ _ _ _ (cp_wait_wp timer_thread o t ch f timeout s Hi Hr) E) as (_ & _ & Es & Hi' & _).
    exists CpWaits. split; [|done]. by rewrite (cp_steps_snoc _ _ _ _ Ha).
  - rewrite (in_wait_free _ _ Ha) in Hw.
    assert (a = CpWoken \/ exists f, a = CpExpired f) as Hcase.
    { destruct a as [f| | |f]; [done| |by left|by right; exists f]. exfalso.
      destruct Hr as (_ & Ht & Est). destruct (waiter_of (i_kernel (cp_ipc s)) (LSusp o) t [t]) as (th & Hth & Es);
        [apply Hi|exact I|apply Hi|by apply list_elem_of_singleton|]. simplify_eq. rewrite Est in Es. done. }
    destruct (wp_run _ _ _ _ _ (cp_resumed_wp o t a s Hi Hcase) E) as [Es Hi'].
    exists (CpFree false). split; [|done]. by rewrite (cp_steps_snoc _ _ _ _ Ha).
  - destruct (wp_run _ _ _ _ _ (cp_done_wp o t a s Hi) E) as (b & Es & Hi').
    exists b. split; [|done]. by rewrite (cp_steps_snoc _ _ _ _ Ha).
  - assert (a = CpWaits) as ->.
    { rewrite (members_Some _ _ _ (cr_queue _ _ _ _ Hi)) in Hin. destruct a; [by apply elem_of_nil in Hin|done|by apply elem_of_nil in Hin..]. }
    exists (CpExpired false). split; [by rewrite (cp_steps_snoc _ _ _ _ Ha)|].
    exact (wp_run _ _ _ _ _ (cp_timeout_wp o t s Hi Hn) E).
  - exists a. split; [rewrite (cp_steps_snoc _ _ _ _ Ha); by destruct a as [[]| | |]|].
    exact (wp_run _ _ _ _ _ (cp_schedule_wp o t a s Hi) E).
Qed.

(** No step of a history can fault. *)
Lemma cp_calls_run es s :
  cp_history es s ->
  is_Some (rt_completion_done o s) /\
  (forall ch, runs (cp_ipc s) t ch -> if in_wait es then is_Some (rt_completion_wait_resumed o t s)
     else forall timeout, is_Some (rt_completion_wait timer_thread o timeout s)).
Proof.
  intros (a & Ha & Hi)%cp_history_abs. split.
  - destruct (proj1 (wp_Some _ _ _) (cp_done_wp o t a s Hi)) as ([] & s' & -> & _). done.
  - intros ch Hr. rewrite (in_wait_free _ _ Ha). destruct a as [f| | |f]; simpl.
    + intros timeout. destruct (proj1 (wp_Some _ _ _) (cp_wait_wp timer_thread o t ch f timeout s Hi Hr)) as (? & ? & -> & _). done.
    + destruct Hr as (_ & Ht & Est). destruct (waiter_of (i_kernel (cp_ipc s)) (LSusp o) t [t]) as (th & Hth & Es);
        [apply Hi|exact I|apply Hi|by apply list_elem_of_singleton|]. simplify_eq. rewrite Est in Es. done.
    + destruct (proj1 (wp_Some _ _ _) (cp_resumed_wp o t CpWoken s Hi (or_introl eq_refl))) as (? & ? & -> & _). done.
    + destruct (proj1 (wp_Some _ _ _) (cp_resumed_wp o t (CpExpired f) s Hi (or_intror (ex_intro _ f eq_refl)))) as (? & ? & -> & _). done.
Qed.

(** C14. A completion with one waiting thread, along every history of waits with
    any timeout, calls of [rt_completion_done], timeouts and switches of
    threads: every call returns without a fault and with the result of the
    state machine [cp_step] - a wait returns at once when the flag is set, is
    woken with [RT_EOK] by the next [rt_completion_done], and with [-RT_ETIMEOUT]
    by its timer -, the kernel invariant is kept, and at most as many waits
    succeed as [rt_completion_done] was called. *)
Theorem completion_history es s :
  cp_history es s ->
  (exists a, cp_steps (CpFree false) es = Some a /\ cp_rep o t a s) /\
  (sum_list (is_ok <$> es) <= sum_list (is_done <$> es))%nat /\
  is_Some (rt_completion_done o s) /\
  (forall ch, runs (cp_ipc s) t ch -> if in_wait es then is_Some (rt_completion_wait_resumed o t s)
     else forall timeout, is_Some (rt_completion_wait timer_thread o timeout s)).
Proof.
  intros H. destruct (cp_history_abs es s H) as (a & Ha & Hi). destruct (cp_calls_run es s H) as [Hd Hc].
  split; [by exists a|]. pose proof (oks_steps _ _ _ Ha) as Ho. unfold pending in Ho at 2. simpl in Ho.
  split; [lia|]. split; [exact Hd|exact Hc].
Qed.

(** A completion that comes after the timeout of the waiting thread, but
    before that thread runs again, is lost: the wait reports the timeout and
    clears the flag, so the next wait waits. *)
Theorem completion_lost s f :
  cp_rep o t (CpExpired f) s ->
  wp (rt_completion_done o;; rt_completion_wait_resumed o t) s (fun r s' =>
    r = - RT_ETIMEOUT /\ cp_flags s' !! o = Some RT_UNCOMPLETED).
Proof.
  intros Hi. wp_step. eapply wp_mono; [by apply cp_done_wp with (t := t)|]. intros [] s1 (b & E & Hi1). injection E as <-.
  eapply wp_mono; [apply (cp_resumed_wp o t _ s1 Hi1); eauto|]. intros r s2 [E2 Hi2]. split; [|apply Hi2].
  simpl in E2. destruct (Z.eqb_spec r (- RT_ETIMEOUT)); [done|discriminate E2].
Qed.

End History.

(** ** A concrete run *)

Definition demo_cp_start : cp_st := mk_cp_st demo_ipc ∅.

Definition after {A} (m : M cp_st A) (s : cp_st) : cp_st := match m s with Some (_, s) => s | None => s end.
Definition demo_cp0 : cp_st := after (rt_completion_init 15) demo_cp_start.
Definition demo_cp : cp_st := after (in_cp_ipc schedule) demo_cp0.
Definition demo_cp1 : cp_st := after (rt_completion_wait 99 15 10) demo_cp.
Definition demo_cp2 : cp_st := after (rt_completion_done 15) demo_cp1.
Definition demo_cp3 : cp_st := after (rt_completion_wait_resumed 15 2) demo_cp2.

Lemma demo_cp_runs s : s = demo_cp \/ s = demo_cp2 \/ s = demo_cp3 -> exists ch, runs (cp_ipc s) 2 ch.
Proof. intros [->|[->| ->]]; eexists; (split_and!; vm_compute; reflexivity). Qed.

Lemma demo_cp_history : cp_history 99 15 2 [CpSchedule; CpBlock; CpDone; CpResume RT_EOK] demo_cp3.
Proof.
  destruct (demo_cp_runs demo_cp) as [c0 R0]; [by left|]. destruct (demo_cp_runs demo_cp2) as [c2 R2]; [by right; left|].
  apply (ch_resume 99 15 2 [CpSchedule; CpBlock; CpDone] demo_cp2 c2); [|exact R2|done|vm_compute; reflexivity].
  apply (ch_done 99 15 2 [CpSchedule; CpBlock] demo_cp1); [|vm_compute; reflexivity].
  apply (ch_block 99 15 2 [CpSchedule] demo_cp c0 10); [|exact R0|done|vm_compute; reflexivity].
  apply (ch_schedule 99 15 2 [] demo_cp0); [|vm_compute; reflexivity].
  apply (ch_init 99 15 2 demo_cp_start); [exact demo_ipc_kinv|by eexists|vm_compute; done|vm_compute; reflexivity].
Qed.

Lemma completion_history_witness :
  (exists s', rt_completion_done 15 demo_cp3 = Some (tt, s')) /\
  is_Some (rt_completion_wait 99 15 10 demo_cp3).
Proof.
  destruct (completion_history 99 15 2 _ _ demo_cp_history) as (_ & _ & [[[] s'] E] & H).
  split; [by exists s'|]. destruct (demo_cp_runs demo_cp3) as [ch R]; [by right; right|].
  exact (H ch R 10).
Defined.

(** Thread 2 waits, its time runs out, the completion comes, thread 2 runs:
    the wait reports the timeout and the flag is clear. *)
Example completion_lost_run :
  (fun s => fst <$> (in_cp_ipc (in_kernel (rt_thread_timeout 2));; rt_completion_done 15;;
    r ← rt_completion_wait_resumed 15 2; f ← get_flag 15; mret (r, f)) s) demo_cp1 =
  Some (- RT_ETIMEOUT, RT_UNCOMPLETED).
Proof. vm_compute. reflexivity. Qed.

End Completion.
