(* ===== verification/ElecDrv.v ===== *)
(** * The serial link of the electricity-device component

    Model of [rt-thread/components/elec_dev/elec_drv/elec_drv.c] (the UART
    wrappers) and of what the frame assemblers of [elec_dlt645.c] and
    [elec_1376_2.c] share: the static variables of an assembler, the read at
    its head and the loop that polls it.

    The UART itself is behind the class [RxDevice]: the assemblers are
    verified against the laws [RxDeviceLaws] (bytes come in order, a read
    never returns more than asked for and returns something when something
    is there), and [fifo_device] discharges them.  The section [Polling]
    proves once, for any assembler that meets the step contract
    [frame_step], that polling reassembles a frame however it is cut into
    pieces on the line. *)
From stdpp Require Import base list gmap.
From Stdlib Require Import ZArith Lia.
From S2P Require Import Prelude.

Module Drv.

(** The Kconfig default of the component's buffer size. *)
Definition ELEC_DEV_TRANS_MAX_LEN : Z := 256.

(** ** Byte access and loops of the codecs *)

(** [b[i]] of a buffer the code only reads. *)
Definition byte {S} (b : list Z) (i : Z) : M S Z := deref (rd b i).

(** [out[i] = x] *)
Definition put (i x : Z) : M (list Z) unit := fun b =>
  b' ← wr b i x; Some (tt, b').

(** [for (i = start; ...; i++) body(i)], [n] rounds. *)
Fixpoint for_loop {S} (n : nat) (i : Z) (body : Z -> M S unit) : M S unit :=
  match n with
  | O => mret tt
  | Datatypes.S n => body i;; for_loop n (i + 1) body
  end.

(** [for (i = start; i < start + n; i++) cs += b[i]] with a [w]-bit [cs]. *)
Fixpoint sum_bytes (w : Z) (b : list Z) (start : Z) (n : nat) (cs : Z) : option Z :=
  match n with
  | O => Some cs
  | S n => x ← rd b start; sum_bytes w b (start + 1) n (uwrap w (cs + x))
  end.

(** ** The receiving device *)

Class RxDevice (D : Type) := {
  (** the bytes a read of the given size stores, and the device after it *)
  rt_device_read : D -> Z -> list Z * D;
  (** the bytes received and not read yet *)
  rx_pending : D -> list Z;
  (** more bytes come in from the line *)
  rx_arrive : list Z -> D -> D
}.

Class RxDeviceLaws (D : Type) `{RxDevice D} := {
  rx_read_order : forall d n bs d', 0 < n -> rt_device_read d n = (bs, d') ->
    rx_pending d = bs ++ rx_pending d';
  rx_read_bound : forall d n bs d', 0 < n -> rt_device_read d n = (bs, d') ->
    Z.of_nat (length bs) <= n;
  rx_read_progress : forall d n bs d', 0 < n -> rt_device_read d n = (bs, d') ->
    rx_pending d <> [] -> bs <> [];
  rx_arrive_order : forall d bs, Forall is_u8 bs -> rx_pending (rx_arrive bs d) = rx_pending d ++ bs
}.

#[export] Instance fifo_device : RxDevice (list Z) := {|
  rt_device_read d n := (take (Z.to_nat n) d, drop (Z.to_nat n) d);
  rx_pending d := d;
  rx_arrive bs d := d ++ bs
|}.

#[export] Instance fifo_device_laws : RxDeviceLaws (list Z).
Proof.
  split; simpl; intros; simplify_eq.
  - by rewrite take_drop.
  - rewrite length_take; lia.
  - destruct d; [done|]. by destruct (Z.to_nat n) eqn:?; [lia|].
  - done.
Qed.

Section Device.
Context {D : Type} `{RxDevice D}.

(** [buff] is an offset in the caller's buffer, [None] the null pointer. *)
Definition elec_uart_read (buff : option Z) (len : Z) : M (list Z * D) Z :=
  match buff with
  | None => mret 0
  | Some off =>
      if len <? 1 then mret 0 else
      fun '(b, d) =>
        let '(bs, d') := rt_device_read d len in
        b' ← buf_write b off bs;
        Some (s32 (Z.of_nat (length bs)), (b', d'))
  end.

(** [rt_device_write] appends to the log of what left the UART. *)
Definition elec_uart_write (buff : option (list Z)) (len : Z) : M (list (list Z)) Z :=
  match buff with
  | None => mret 0
  | Some b =>
      if len <? 1 then mret 0 else
      bs ← deref (buf_read b 0 len);
      modify (fun tx => tx ++ [bs]);;
      mret (s32 len)
  end.

(** ** The static variables of a frame assembler *)

Record pack_st := mk_pack {
  pk_io : list Z * D;       (* out_buf and the UART it is filled from *)
  pk_len : Z;               (* *out_len *)
  parse_step : Z;           (* rt_uint8_t *)
  timoutcnt : Z;            (* rt_uint32_t *)
  need_len : Z;             (* rt_uint16_t *)
  now_len : Z               (* rt_uint16_t *)
}.

Definition out_buf (s : pack_st) : list Z := fst (pk_io s).

Definition set_io io s :=
  mk_pack io (pk_len s) (parse_step s) (timoutcnt s) (need_len s) (now_len s).
Definition set_len n s :=
  mk_pack (pk_io s) n (parse_step s) (timoutcnt s) (need_len s) (now_len s).
Definition set_step n s :=
  mk_pack (pk_io s) (pk_len s) n (timoutcnt s) (need_len s) (now_len s).
Definition set_cnt n s :=
  mk_pack (pk_io s) (pk_len s) (parse_step s) n (need_len s) (now_len s).
Definition set_need n s :=
  mk_pack (pk_io s) (pk_len s) (parse_step s) (timoutcnt s) n (now_len s).
Definition set_now n s :=
  mk_pack (pk_io s) (pk_len s) (parse_step s) (timoutcnt s) (need_len s) n.

(** Back to waiting for the first byte of a frame. *)
Definition pack_restart (head : Z) (s : pack_st) : pack_st :=
  set_need head (set_now 0 (set_step 0 s)).

(** The head of both assemblers: read what is still needed. *)
Definition pack_read (head : Z) : M pack_st unit :=
  now ← gets now_len;
  need ← gets need_len;
  n ← zoom pk_io set_io (elec_uart_read (Some now) need);
  let read_len := u16 n in
  if read_len <=? need then
    modify (fun s => set_need (u16 (need - read_len))
                       (set_now (u16 (now + read_len)) s))
  else modify (pack_restart head).

(** [out_buf[now_len - i]] *)
Definition pack_byte (i : Z) : M pack_st Z := fun s =>
  match rd (out_buf s) (now_len s - i) with
  | Some x => Some (x, s)
  | None => None
  end.

(** [timoutcnt++; if (timoutcnt > 10000) restart] *)
Definition pack_count (head : Z) : M pack_st unit :=
  modify (fun s => set_cnt (u32 (timoutcnt s + 1)) s);;
  c ← gets timoutcnt;
  when (10000 <? c) (modify (pack_restart head)).

(** A complete frame: report its length and start over. *)
Definition pack_complete (head : Z) : M pack_st Z :=
  n ← gets now_len;
  modify (set_len n);;
  modify (pack_restart head);;
  mret 0.

Definition pack_arrive (bs : list Z) (s : pack_st) : pack_st :=
  set_io (out_buf s, rx_arrive bs (snd (pk_io s))) s.

Definition pack_pending (s : pack_st) : list Z := rx_pending (snd (pk_io s)).

(** The receiving half of the loop of [elec_dev_thread]: before each call
    of the assembler some bytes arrive; stop at the first complete frame
    and return the arrivals that are still to come. *)
Fixpoint poll_frame (pack_frame : M pack_st Z) (arrivals : list (list Z))
  : M pack_st (option (list (list Z))) :=
  match arrivals with
  | [] => mret None
  | a :: rest =>
      modify (pack_arrive a);;
      r ← pack_frame;
      if r =? 0 then mret (Some rest) else poll_frame pack_frame rest
  end.

(** The next [n] frames, as the loop hands them to the parser. *)
Fixpoint poll_frames (pack_frame : M pack_st Z) (n : nat) (arrivals : list (list Z))
  : M pack_st (list (list Z)) :=
  match n with
  | O => mret []
  | S n =>
      r ← poll_frame pack_frame arrivals;
      match r with
      | None => mret []
      | Some later =>
          f ← gets (fun s => take (Z.to_nat (pk_len s)) (out_buf s));
          fs ← poll_frames pack_frame n later;
          mret (f :: fs)
      end
  end.

End Device.
Arguments pack_st : clear implicits.

(** ** Lemmas *)

Lemma wp_byte {S} b i x (s : S) (Q : Z -> S -> Prop) :
  b !! Z.to_nat i = Some x -> 0 <= i -> Q x s -> wp (byte b i) s Q.
Proof.
  intros Hx Hi HQ. unfold byte, rd. rewrite (proj2 (Z.leb_le 0 i)) by done.
  by rewrite Hx.
Qed.

(** Access by position in a concatenation. *)
Lemma wp_byte_at {S} l1 x l2 b i (s : S) (Q : Z -> S -> Prop) :
  b = l1 ++ x :: l2 -> i = Z.of_nat (length l1) -> Q x s -> wp (byte b i) s Q.
Proof.
  intros -> -> HQ. apply (wp_byte _ _ x); [|lia|done].
  rewrite Nat2Z.id. by apply list_lookup_middle.
Qed.

Ltac app_eq := simpl; repeat (rewrite <- app_assoc; simpl); done.
Ltac app_len := simpl; repeat (rewrite ?length_app, ?length_fmap; simpl); lia.

Lemma wp_for_loop {S} (I : nat -> S -> Prop) n i0 body (s : S) :
  I O s ->
  (forall k s, (k < n)%nat -> I k s ->
     wp (body (i0 + Z.of_nat k)) s (fun _ s' => I (Datatypes.S k) s')) ->
  wp (for_loop n i0 body) s (fun _ s' => I n s').
Proof.
  revert i0 I s. induction n as [|n IH]; intros i0 I s HI Hb; [done|].
  simpl. apply wp_bind. eapply wp_mono.
  - generalize (Hb O s ltac:(lia) HI). by rewrite Z.add_0_r.
  - simpl. intros _ s' H1. apply (IH (i0 + 1) (fun k => I (Datatypes.S k))); [done|].
    intros k s2 Hk H2. generalize (Hb (Datatypes.S k) s2 ltac:(lia) H2).
    by replace (i0 + 1 + Z.of_nat k) with (i0 + Z.of_nat (Datatypes.S k)) by lia.
Qed.

(** The 8-bit checksum of a byte string. *)
Definition sum8 (l : list Z) : Z := foldr (fun x c => u8 (x + c)) 0 l.

Lemma sum8_eq l : sum8 l = u8 (foldr Z.add 0 l).
Proof.
  induction l as [|x l IH]; [done|]. simpl. rewrite IH. apply uwrap_add_r.
Qed.

Lemma sum8_range l : is_u8 (sum8 l).
Proof. rewrite sum8_eq. by apply uwrap_range. Qed.

Lemma sum_bytes_sum w b start n cs :
  0 <= w -> 0 <= start -> start + Z.of_nat n <= Z.of_nat (length b) -> is_u w cs ->
  sum_bytes w b start n cs =
  Some (uwrap w (cs + foldr Z.add 0 (take n (drop (Z.to_nat start) b)))).
Proof.
  intros Hw. revert start cs.
  induction n as [|n IH]; intros start cs H0 H1 Hcs; simpl.
  - rewrite Z.add_0_r. by rewrite uwrap_small.
  - destruct (rd_Some b start) as (x & Hx & Hl); [lia|]. rewrite Hx. simpl.
    rewrite IH by (try apply uwrap_range; lia).
    replace (Z.to_nat (start + 1)) with (S (Z.to_nat start)) by lia.
    rewrite (drop_S b x (Z.to_nat start) Hl). simpl.
    rewrite uwrap_add_l. by rewrite Z.add_assoc.
Qed.

Lemma sum_bytes_spec b start n cs :
  0 <= start -> start + Z.of_nat n <= Z.of_nat (length b) -> is_u8 cs ->
  sum_bytes 8 b start n cs =
  Some (u8 (cs + sum8 (take n (drop (Z.to_nat start) b)))).
Proof.
  intros. rewrite sum_bytes_sum, sum8_eq by done. by rewrite uwrap_add_r.
Qed.

(** The buffer [o] with its first bytes overwritten by [w]. *)
Definition written (w o : list Z) : list Z := w ++ drop (length w) o.

Lemma wp_put_next w o i x (Q : unit -> list Z -> Prop) :
  i = Z.of_nat (length w) -> (length w < length o)%nat ->
  Q tt (written (w ++ [x]) o) -> wp (put i x) (written w o) Q.
Proof.
  intros -> Hl HQ. unfold wp, put, written.
  rewrite wr_Some by (rewrite length_app, length_drop; lia). simpl.
  rewrite Nat2Z.id.
  destruct (lookup_lt_is_Some_2 o (length w) Hl) as [y Hy].
  rewrite (drop_S _ _ _ Hy), insert_app_r_alt, Nat.sub_diag by lia. simpl.
  unfold written in HQ. rewrite length_app, Nat.add_1_r, <- app_assoc in HQ. done.
Qed.

Lemma wp_put_loop (f : Z -> Z) src n base w o (Q : unit -> list Z -> Prop) :
  base = Z.of_nat (length w) -> (n <= length src)%nat -> (length w + n <= length o)%nat ->
  Q tt (written (w ++ (f <$> take n src)) o) ->
  wp (for_loop n 0 (fun i => x ← byte src i; put (base + i) (f x))) (written w o) Q.
Proof.
  intros -> Hn Ho HQ.
  eapply wp_mono; [apply (wp_for_loop (fun k b => b = written (w ++ (f <$> take k src)) o))|].
  - simpl. by rewrite app_nil_r.
  - intros k b Hk ->. destruct (lookup_lt_is_Some_2 src k ltac:(lia)) as [x Hx].
    apply wp_bind, (wp_byte _ _ x); [by rewrite Z.add_0_l, Nat2Z.id|lia|].
    assert (length (w ++ (f <$> take k src)) = length w + k)%nat as Hl
      by (rewrite length_app, length_fmap, length_take; lia).
    apply wp_put_next; [lia|lia|].
    by rewrite (take_S_r _ _ x Hx), fmap_app, app_assoc.
  - by intros [] b ->.
Qed.

(** A position that is passed over keeps its byte. *)
Lemma written_skip w o x :
  o !! length w = Some x -> written w o = written (w ++ [x]) o.
Proof.
  intros Hx. unfold written. rewrite (drop_S _ _ _ Hx), length_app, <- app_assoc.
  by rewrite Nat.add_1_r.
Qed.

Lemma written_skips w o n :
  (length w + n <= length o)%nat ->
  written w o = written (w ++ take n (drop (length w) o)) o.
Proof.
  intros Hn. unfold written. rewrite length_app, length_take, length_drop, <- app_assoc.
  rewrite Nat.min_l by lia. by rewrite <- drop_drop, take_drop.
Qed.

(** A second store to a position already written. *)
Lemma wp_put_again w o i x (Q : unit -> list Z -> Prop) :
  0 <= i < Z.of_nat (length w) ->
  Q tt (written (<[Z.to_nat i := x]> w) o) -> wp (put i x) (written w o) Q.
Proof.
  intros Hi HQ. unfold wp, put, written. rewrite wr_Some by (rewrite length_app; lia). simpl.
  rewrite insert_app_l by lia. unfold written in HQ. by rewrite length_insert in HQ.
Qed.

Lemma memcpy_next w o i src n :
  i = Z.of_nat (length w) -> 0 <= n <= Z.of_nat (length src) ->
  i + n <= Z.of_nat (length o) -> (length w <= length o)%nat ->
  memcpy (written w o) i src 0 n = Some (written (w ++ take (Z.to_nat n) src) o).
Proof.
  intros -> Hn Ho Hw. unfold written.
  rewrite memcpy_Some by (rewrite ?length_app, ?length_drop; lia).
  rewrite Nat2Z.id, drop_0. f_equal. unfold splice.
  rewrite take_app_length, <- app_assoc. f_equal. f_equal.
  rewrite drop_app_ge by lia. rewrite drop_drop, length_app. f_equal. lia.
Qed.

Section Polling.
Context {D : Type} `{RxDeviceLaws D}.

Lemma pack_pending_arrive bs s :
  Forall is_u8 bs ->
  pack_pending (pack_arrive bs s) = pack_pending (D := D) s ++ bs.
Proof. apply rx_arrive_order. Qed.

(** A read at the head of an assembler: it takes the bytes [bs] off the
    device, at most [need_len] of them, and stores them behind what the
    buffer already holds. *)
Lemma wp_pack_read head s (Q : unit -> pack_st D -> Prop) :
  is_u16 (need_len s) -> 0 < need_len s -> 0 <= now_len s ->
  now_len s + need_len s <= Z.of_nat (length (out_buf s)) ->
  now_len s + need_len s < 2 ^ 16 ->
  (forall bs d',
     pack_pending s = bs ++ rx_pending d' ->
     Z.of_nat (length bs) <= need_len s ->
     (pack_pending s <> [] -> bs <> []) ->
     Q tt (mk_pack (splice (out_buf s) (Z.to_nat (now_len s)) bs, d') (pk_len s)
             (parse_step s) (timoutcnt s) (need_len s - Z.of_nat (length bs))
             (now_len s + Z.of_nat (length bs)))) ->
  wp (pack_read head) s Q.
Proof.
  intros Hu Hn0 Hw0 Hroom Hw HQ. unfold pack_read. wp_steps.
  unfold elec_uart_read. rewrite (proj2 (Z.ltb_ge _ _)) by lia.
  destruct s as [[b d] l st c need now]. unfold out_buf in *. simpl in *.
  destruct (rt_device_read d need) as [bs d'] eqn:E.
  pose proof (rx_read_bound _ _ _ _ Hn0 E) as Hb.
  unfold wp at 1. simpl. rewrite E.
  rewrite buf_write_Some by lia. simpl.
  assert (uwrap 16 (s32 (Z.of_nat (length bs))) = Z.of_nat (length bs)) as ->.
  { rewrite swrap_small by (change (2 ^ (32 - 1)) with 2147483648; c_lia). apply uwrap_small. c_lia. }
  rewrite (proj2 (Z.leb_le _ _)) by lia. wp_steps.
  rewrite !uwrap_small by c_lia.
  apply HQ; [|done|].
  - by apply (rx_read_order _ _ _ _ Hn0 E).
  - by apply (rx_read_progress _ _ _ _ Hn0 E).
Qed.

Lemma take_splice_next (b w bs tl : list Z) j :
  (j + length bs <= length b)%nat -> take j b = take j w -> (j <= length w)%nat ->
  drop j w = bs ++ tl ->
  take (j + length bs) (splice b j bs) = take (j + length bs) w.
Proof.
  intros Hl Ht Hj Hd. rewrite <- (take_drop j w) at 1. rewrite Hd.
  unfold splice. rewrite Ht.
  rewrite !app_assoc, !(take_app_length' (_ ++ bs)) by (rewrite length_app, length_take; lia).
  done.
Qed.

(** The variables of an assembler that has taken [j] bytes of the frame [w];
    [expect j] is the step it is in and the number of bytes it waits for. *)
Definition assembling (expect : nat -> Z * Z) (cap : nat) (w : list Z) (t j : nat)
    (s : pack_st D) : Prop :=
  now_len s = Z.of_nat j /\ (parse_step s, need_len s) = expect j /\
  length (out_buf s) = cap /\ take j (out_buf s) = take j w /\
  (parse_step s = 0 \/ 0 <= timoutcnt s <= Z.of_nat t).

(** Waiting for the first byte of a frame. *)
Definition at_rest (s : pack_st D) : Prop :=
  parse_step s = 0 /\ need_len s = 1 /\ now_len s = 0.

(** The frame [w] at the head of the buffer of [cap] bytes, the assembler at
    rest. *)
Definition assembled (cap : nat) (w : list Z) (s : pack_st D) : Prop :=
  length (out_buf s) = cap /\ pk_len s = Z.of_nat (length w) /\ take (length w) (out_buf s) = w /\ at_rest s.

Lemma assembling_arrive expect cap w t j s bs :
  assembling expect cap w t j s -> assembling expect cap w t j (pack_arrive bs s).
Proof. done. Qed.

(** What the read at the head of an assembler leaves. *)
Record piece_read (w bs : list Z) (j : nat) (s s1 : pack_st D) : Prop := {
  pr_pending : pack_pending s = bs ++ pack_pending s1;
  pr_progress : pack_pending s <> [] -> bs <> [];
  pr_bound : Z.of_nat (length bs) <= need_len s;
  pr_now : now_len s1 = Z.of_nat (j + length bs);
  pr_need : need_len s1 = need_len s - Z.of_nat (length bs);
  pr_step : parse_step s1 = parse_step s;
  pr_cnt : timoutcnt s1 = timoutcnt s;
  pr_room : length (out_buf s1) = length (out_buf s);
  pr_buf : take (j + length bs) (out_buf s1) = take (j + length bs) w
}.

Lemma wp_piece_read head expect cap w t j s rest (Q : unit -> pack_st D -> Prop) :
  assembling expect cap w t j s -> (length w <= cap)%nat -> (j < length w)%nat -> Z.of_nat (length w) < 65536 ->
  0 < need_len s <= Z.of_nat (length w - j) ->
  pack_pending s `prefix_of` drop j w ++ rest ->
  (forall bs s1, piece_read w bs j s s1 -> Q tt s1) ->
  wp (pack_read head) s Q.
Proof.
  intros (Hnow & _ & <- & Hbuf & _) Hroom Hj Hw Hneed [fut Hpre] HQ.
  apply wp_pack_read; [c_lia|lia|lia|lia|c_lia|].
  intros bs d' Hp Hb Hprog. apply (HQ bs).
  rewrite Hnow, Nat2Z.id in *.
  assert (length (drop j w) = length w - j)%nat as Hl by apply length_drop.
  assert (exists tl, drop j w = bs ++ tl) as [tl Htl].
  { exists (drop (length bs) (drop j w)).
    rewrite Hp, <- app_assoc in Hpre.
    rewrite <- (take_drop (length bs) (drop j w)) at 1. f_equal.
    apply (f_equal (take (length bs))) in Hpre.
    rewrite take_app_length, take_app_le in Hpre by lia. done. }
  split; simpl; try done; try lia.
  - unfold out_buf. simpl. apply length_splice. unfold out_buf in *; lia.
  - apply (take_splice_next _ _ _ tl); [lia|done|lia|done].
Qed.

(** Access to the bytes taken so far. *)
Lemma wp_pack_byte w n i s (Q : Z -> pack_st D -> Prop) x :
  take n (out_buf s) = take n w -> now_len s = Z.of_nat n ->
  (1 <= i <= n)%nat -> w !! (n - i)%nat = Some x ->
  Q x s -> wp (pack_byte (Z.of_nat i)) s Q.
Proof.
  intros Ht Hn Hi Hx HQ. unfold wp, pack_byte, rd. rewrite Hn.
  rewrite (proj2 (Z.leb_le 0 _)) by lia.
  replace (Z.to_nat (Z.of_nat n - Z.of_nat i)) with (n - i)%nat by lia.
  apply (f_equal (lookup (n - i)%nat)) in Ht.
  rewrite !lookup_take_lt, Hx in Ht by lia. by rewrite Ht.
Qed.

Lemma wp_pack_count head s (Q : unit -> pack_st D -> Prop) :
  0 <= timoutcnt s < 10000 -> Q tt (set_cnt (timoutcnt s + 1) s) ->
  wp (pack_count head) s Q.
Proof.
  intros Hc HQ. unfold pack_count. wp_steps. simpl.
  rewrite uwrap_small by c_lia. rewrite (proj2 (Z.ltb_ge _ _)) by lia. done.
Qed.

(** What one call of an assembler does to a frame [w] of which [j] bytes
    have been taken: it takes a further piece [bs]; the call that takes the
    last byte returns 0. [Mid t j] describes the assembler's variables
    between calls, [t] bounding its timeout counter. *)
Definition frame_step (pack : M (pack_st D) Z) (w : list Z)
    (Mid : nat -> nat -> pack_st D -> Prop) (Done : pack_st D -> Prop) : Prop :=
  forall t j s rest, Mid t j s -> (j < length w)%nat -> Z.of_nat t < 10000 ->
    pack_pending s `prefix_of` drop j w ++ rest ->
    wp pack s (fun r s' => exists bs,
      pack_pending s = bs ++ pack_pending s' /\
      (j + length bs <= length w)%nat /\
      (pack_pending s <> [] -> bs <> []) /\
      (((j + length bs < length w)%nat /\ r <> 0 /\ Mid (S t) (j + length bs)%nat s')
       \/ ((j + length bs)%nat = length w /\ r = 0 /\ Done s'))).

Lemma drop_split_prefix (w bs rest x : list Z) j :
  (j + length bs <= length w)%nat -> bs ++ x = drop j w ++ rest ->
  x = drop (j + length bs) w ++ rest.
Proof.
  intros Hl E.
  assert (x = drop (length bs) (drop j w ++ rest)) as ->.
  { rewrite <- E, drop_app_length. done. }
  rewrite drop_app_le by (rewrite length_drop; lia). by rewrite drop_drop.
Qed.

(** Polling an assembler that meets the contract reassembles the frame: the
    bytes may come in any pieces; once all have arrived as many further
    polls as bytes are missing are enough; nothing behind the frame is
    taken. *)
Lemma poll_reassembles pack w Mid Done cs n t j s rest :
  frame_step pack w Mid Done ->
  (forall t j s bs, Mid t j s -> Mid t j (pack_arrive bs s)) ->
  Mid t j s -> (j < length w)%nat -> Forall is_u8 (concat cs) ->
  pack_pending s ++ concat cs = drop j w ++ rest ->
  (length w - j <= n)%nat -> Z.of_nat (t + length cs + n) <= 10000 ->
  wp (poll_frame pack (cs ++ replicate n [])) s (fun r s' => exists cs' n',
    r = Some (cs' ++ replicate n' []) /\ Done s' /\
    pack_pending s' ++ concat cs' = rest /\
    (n <= n' + (length w - j))%nat /\ (length cs' + n' <= length cs + n)%nat /\
    Forall is_u8 (concat cs')).
Proof.
  intros Hstep Harr.
  remember (length cs + n)%nat as m eqn:Em.
  revert cs n t j s Em. induction m as [|m IH]; intros cs n t j s Em HM Hj Hu Hp Hn Ht.
  { lia. }
  assert (exists a cs' n',
    cs ++ replicate n [] = a :: cs' ++ replicate n' [] /\
    concat cs = a ++ concat cs' /\ (length cs' + n')%nat = m /\
    ((n' = n) \/ (cs = [] /\ a = [] /\ cs' = [] /\ n = S n')))
    as (a & cs' & n' & Eq & Ec & Em' & Hc).
  { destruct cs as [|a cs'].
    - destruct n as [|n]; [lia|]. exists [], [], n. simpl in *.
      repeat split; try done; [lia|]. right. done.
    - exists a, cs', n. simpl in *. repeat split; try done; [lia|]. by left. }
  rewrite Ec in Hu. apply Forall_app in Hu as [Hua Hu].
  rewrite Eq. simpl. wp_steps. rewrite Ec, app_assoc, <- pack_pending_arrive in Hp by done.
  eapply wp_mono.
  { apply (Hstep t j _ rest); [by apply Harr|done|lia|]. rewrite <- Hp. by apply prefix_app_r. }
  intros r s' (bs & Hpend & Hle & Hprog & Hcase). simpl in *.
  rewrite Hpend, <- app_assoc in Hp. apply drop_split_prefix in Hp; [|done].
  destruct Hcase as [(Hlt & Hr & HM')|(Hend & -> & HD)].
  - rewrite (proj2 (Z.eqb_neq r 0)) by done.
    assert (n' = n \/ (length bs > 0)%nat) as Hdec.
    { destruct Hc as [->|(-> & -> & -> & ->)]; [by left|right].
      destruct bs as [|b bs]; [|simpl; lia]. exfalso.
      simpl in *. rewrite Nat.add_0_r in *. rewrite app_nil_r in Hp.
      rewrite Hp in Hpend. apply Hprog; [|done]. rewrite Hpend.
      intros E%app_nil. destruct E as [E _].
      apply (f_equal length) in E. rewrite length_drop in E. simpl in E. lia. }
    eapply wp_mono; [apply (IH cs' n' (S t) (j + length bs)%nat); try done;
      destruct Hc as [->|(-> & -> & -> & ->)]; simpl in *; lia|].
    intros r' s2 (cs2 & n2 & -> & HD & Hrest & Hn2 & Hm2 & Hu2). exists cs2, n2.
    split_and!; try done; destruct Hc as [->|(-> & -> & -> & ->)]; simpl in *; lia.
  - simpl. apply wp_ret. exists cs', n'. rewrite Hend, drop_all in Hp.
    split_and!; try done; destruct Hc as [->|(-> & -> & -> & ->)]; simpl in *; lia.
Qed.

(** The assembler [pack] takes the bytes [line] as the frame [w] into a
    buffer of [cap] bytes. *)
Definition frameable (pack : M (pack_st D) Z) (cap : nat) (line w : list Z) : Prop :=
  (0 < length line)%nat /\
  exists Mid, frame_step pack line Mid (assembled cap w) /\
    (forall t j s bs, Mid t j s -> Mid t j (pack_arrive bs s)) /\
    (forall t s, at_rest s -> length (out_buf s) = cap -> Mid t O s).

(** A byte that cannot start a frame is dropped. *)
Definition skips (pack : M (pack_st D) Z) (x : Z) : Prop :=
  forall s rest, at_rest s -> (0 < length (out_buf s))%nat ->
    pack_pending s `prefix_of` x :: rest ->
    wp pack s (fun r s' => exists bs,
      pack_pending s = bs ++ pack_pending s' /\ (length bs <= 1)%nat /\
      (pack_pending s <> [] -> bs <> []) /\
      r <> 0 /\ at_rest s' /\ length (out_buf s') = length (out_buf s)).

Lemma frameable_skip pack cap x line w :
  (0 < cap)%nat -> skips pack x -> frameable pack cap line w ->
  frameable pack cap (x :: line) w.
Proof.
  intros Hcap Hx (Hpos & Mid & Hstep & Harr & Hstart). split; [simpl; lia|].
  exists (fun t j s => match j with O => at_rest s /\ length (out_buf s) = cap
                           | S j => Mid t j s end).
  split_and!.
  - intros t [|j] s rest HM Hj Ht Hpre; simpl in *.
    + destruct HM as [Hr Hc].
      eapply wp_mono; [apply (Hx s (line ++ rest) Hr); [lia|done]|].
      intros r s' (bs & Hp & Hb & Hprog & Hne & Hr' & Hc'). exists bs.
      split_and!; [done|lia|done|]. left. split; [lia|]. split; [done|].
      destruct bs as [|? [|]]; simpl in *; [by split; [|congruence]| |lia].
      apply Hstart; [done|congruence].
    + eapply wp_mono; [apply (Hstep t j s rest HM); [lia|done|done]|].
      intros r s' (bs & Hp & Hb & Hprog & Hc). exists bs. split_and!; [done|lia|done|].
      destruct Hc as [(? & ? & ?)|(? & ? & ?)]; [left|right]; split_and!; try done; lia.
  - intros t [|j] s bs; [done|]. apply Harr.
  - done.
Qed.

(** A stream of frames, back to back and cut in any way, is assembled frame
    by frame. *)
Lemma poll_stream pack cap (fs : list (list Z * list Z)) cs n s rest :
  Forall (fun f => frameable pack cap f.1 f.2) fs -> at_rest s -> Forall is_u8 (concat cs) ->
  length (out_buf s) = cap ->
  pack_pending s ++ concat cs = concat fs.*1 ++ rest ->
  (length (concat fs.*1) <= n)%nat -> Z.of_nat (length cs + n) <= 10000 ->
  wp (poll_frames pack (length fs) (cs ++ replicate n [])) s (fun r s' =>
    r = fs.*2 /\ at_rest s' /\ length (out_buf s') = cap /\
    exists later, pack_pending s' ++ concat later = rest).
Proof.
  revert cs n s. induction fs as [|[l w] fs IH]; intros cs n s Hfs Hrest Hu Hcap Hp Hn Ht; simpl.
  { apply wp_ret. split_and!; try done. by exists cs. }
  apply Forall_cons in Hfs as [(Hw & Mid & Hstep & Harr & Hstart) Hfs].
  change (concat ((l, w) :: fs).*1) with (l ++ concat fs.*1) in *.
  change ((l, w) :: fs).*2 with (w :: fs.*2). simpl in Hw.
  rewrite length_app in Hn. rewrite <- app_assoc in Hp.
  apply wp_bind. eapply wp_mono.
  { apply (poll_reassembles pack l Mid _ cs n 0 0 s (concat fs.*1 ++ rest) Hstep Harr); auto;
      lia. }
  intros r s' (cs' & n' & -> & (Hcap' & Hlen & Hbuf & Hrest') & Hp' & Hn' & Hm' & Hu'). simpl.
  apply wp_bind, wp_gets, wp_bind. rewrite Hlen, Nat2Z.id, Hbuf.
  eapply wp_mono; [apply (IH cs' n'); try done; lia|].
  intros ws s2 (-> & Hr2 & Hc2 & later & Hl2). apply wp_ret. split_and!; try done.
  by exists later.
Qed.

End Polling.

End Drv.
