(* ===== verification/Dlt645.v ===== *)
(** * The DL/T 645 meter protocol

    Model of [rt-thread/components/elec_dev/elec_protocol/elec_dlt645.c]:
    the encoder, the decoder, the frame assembler that collects a frame from
    the UART, and the parser that finds a frame in the receive buffer and
    decodes it.  A struct the code lays over a heap block keeps, in its
    [data] field, exactly the cells of the block behind its other fields; a
    store behind the block is a fault.

    [frame] is the reference layout of a frame.  The theorems show that the
    decoder accepts exactly the frames, that it reads back what the encoder
    writes (with the address reversed, as both routines order it), and that
    a frame that comes in over the line in any pieces is assembled, found
    and decoded. *)
From stdpp Require Import base list gmap.
From Stdlib Require Import ZArith Lia.
From S2P Require Import Prelude ElecDrv.
Import Drv.

Module Dlt.

Record s_dlt645_format := mk_dlt {
  addr : list Z;        (* rt_uint8_t[6] *)
  ctrlcode : Z;         (* rt_uint8_t *)
  datalen : Z;          (* rt_uint8_t *)
  data : list Z         (* rt_uint8_t[ELEC_DEV_TRANS_MAX_LEN] *)
}.

Definition set_addr i x : M s_dlt645_format unit := fun s =>
  a ← wr (addr s) i x; Some (tt, mk_dlt a (ctrlcode s) (datalen s) (data s)).
Definition set_ctrlcode x : M s_dlt645_format unit :=
  modify (fun s => mk_dlt (addr s) x (datalen s) (data s)).
Definition set_datalen x : M s_dlt645_format unit :=
  modify (fun s => mk_dlt (addr s) (ctrlcode s) x (data s)).
Definition set_data i x : M s_dlt645_format unit := fun s =>
  b ← wr (data s) i x; Some (tt, mk_dlt (addr s) (ctrlcode s) (datalen s) b).

(** A zeroed heap block of [n] bytes used as the struct. *)
Definition dlt_block (n : Z) : s_dlt645_format :=
  mk_dlt (replicate 6 0) 0 0 (replicate (Z.to_nat (n - 8)) 0).

Definition dlt_645_decode (inp : option (list Z)) (inlen : Z) : M s_dlt645_format Z :=
  match inp with
  | None => mret (-1)
  | Some b =>
      if inlen <? 12 then mret (-1) else
      h ← byte b 0;
      if negb (h =? 0x68) then mret (-1) else
      for_loop 6 0 (fun i => x ← byte b (1 + 5 - i); set_addr i x);;
      h2 ← byte b 7;
      if negb (h2 =? 0x68) then mret (-1) else
      c ← byte b 8;
      set_ctrlcode c;;
      l ← byte b 9;
      set_datalen l;;
      if ELEC_DEV_TRANS_MAX_LEN <? l then mret (-1) else
      for_loop (Z.to_nat l) 0 (fun i => x ← byte b (10 + i); set_data i (u8 (x - 0x33)));;
      let pos := u16 (10 + l) in
      cs ← deref (sum_bytes 8 b 0 (Z.to_nat pos) 0);
      y ← byte b pos;
      if negb (cs =? y) then mret (-2) else
      z ← byte b (u16 (pos + 1));
      if negb (z =? 0x16) then mret (-3) else
      if negb (u16 (pos + 2) =? inlen) then mret (-4) else
      mret 0
  end.

Definition dlt_645_encode (inp : option s_dlt645_format) : M (list Z) Z :=
  match inp with
  | None => mret (-1)
  | Some s =>
      for_loop 4 0 (fun i => put i 0xFE);;
      put 4 0x68;;
      for_loop 6 0 (fun i => x ← byte (addr s) i; put (5 + i) x);;
      put 11 0x68;;
      put 12 (ctrlcode s);;
      put 13 (datalen s);;
      for_loop (Z.to_nat (datalen s)) 0
        (fun i => x ← byte (data s) i; put (14 + i) (u8 (x + 0x33)));;
      let pos := u16 (14 + datalen s) in
      out ← gets id;
      cs ← deref (sum_bytes 8 out 4 (Z.to_nat (pos - 4)) 0);
      put pos cs;;
      put (u16 (pos + 1)) 0x16;;
      mret (u16 (pos + 2))
  end.

Definition P645_HEAD_LEN : Z := 1.

Section Pack.
Context {D : Type} `{RxDevice D}.

(** [parse_step] 0: the preamble and the first 0x68. *)
Definition pack_645_head : M (pack_st D) Z :=
  need ← gets need_len;
  when (need =? 0)
    (x ← pack_byte 1;
     if x =? 0xFE then
       now ← gets now_len;
       if now <=? 4 then modify (set_need 1)
       else modify (fun s => set_need P645_HEAD_LEN (set_now 0 s))
     else if x =? 0x68 then
       modify (fun s => set_step 1 (set_need 9 s))
     else modify (fun s => set_need P645_HEAD_LEN (set_now 0 s)));;
  modify (set_cnt 0);;
  mret (-1).

Definition elec_dev_pack_645_frame : M (pack_st D) Z :=
  pack_read P645_HEAD_LEN;;
  step ← gets parse_step;
  need ← gets need_len;
  if step =? 0 then pack_645_head
  else if step =? 1 then
    when (need =? 0)
      (x ← pack_byte 1;
       modify (fun s => set_step 2 (set_need (u16 (need + (x + 2))) s)));;
    pack_count P645_HEAD_LEN;;
    mret (-1)
  else if step =? 2 then
    ret ← (if need =? 0 then pack_complete P645_HEAD_LEN else mret (-1));
    pack_count P645_HEAD_LEN;;
    mret ret
  else mret (-1).

End Pack.

(** The scan over [in[i]], [i = i .. inlen - 1]; [ret] is 16-bit signed. *)
Fixpoint precode_scan (b : list Z) (n : nat) (i : Z) : option Z :=
  match n with
  | O => Some (-1)
  | S n =>
      x0 ← rd b i;
      pre ← (if x0 =? 0xFE then
               x1 ← rd b (i + 1);
               if x1 =? 0xFE then
                 x2 ← rd b (i + 2);
                 if x2 =? 0xFE then x3 ← rd b (i + 3); Some (x3 =? 0xFE)
                 else Some false
               else Some false
             else Some false);
      if (pre : bool) then Some (s16 (i + 4))
      else if x0 =? 0x68 then Some (s16 i)
      else precode_scan b n (i + 1)
  end.

Definition dlt645_precode_detect (inp : list Z) (inlen : Z) : option Z :=
  precode_scan inp (Z.to_nat inlen) 0.

(** [outbuf] is the state, a block of [ELEC_DEV_TRANS_MAX_LEN] bytes;
    [malloc_ok] is whether [rt_malloc] returns a block. *)
Definition elec_dev_parse_645_frame (malloc_ok : bool) (parsebuf : list Z) (parselen : Z)
  : M s_dlt645_format Z :=
  if malloc_ok then
    loc ← deref (dlt645_precode_detect parsebuf parselen);
    '(decode_ret, plcdata) ←
      (if 0 <=? loc then
         deref (dlt_645_decode (Some (drop (Z.to_nat loc) parsebuf))
                  (u16 (parselen - loc)) (dlt_block ELEC_DEV_TRANS_MAX_LEN))
       else mret (-1, dlt_block ELEC_DEV_TRANS_MAX_LEN));
    when (decode_ret =? 0) (modify (fun _ => plcdata));;
    mret 0
  else mret (-1).

(** ** The reference layout *)

Definition body (a : list Z) (ctrl : Z) (d : list Z) : list Z :=
  [0x68] ++ a ++ [0x68; ctrl; Z.of_nat (length d)] ++ ((fun x => u8 (x + 0x33)) <$> d).

Definition frame (a : list Z) (ctrl : Z) (d : list Z) : list Z :=
  body a ctrl d ++ [sum8 (body a ctrl d); 0x16].

Definition fits (a : list Z) (ctrl : Z) (d : list Z) : Prop :=
  length a = 6%nat /\ Forall is_u8 a /\ is_u8 ctrl /\ Forall is_u8 d /\
  (length d <= 255)%nat.

(** ** The decoder *)

(** The address loop stores the six bytes behind the mark in reverse. *)
Lemma wp_read_addr b a tl s (Q : unit -> s_dlt645_format -> Prop) :
  b = [0x68] ++ a ++ tl -> length a = 6%nat -> length (addr s) = 6%nat ->
  Q tt (mk_dlt (reverse a) (ctrlcode s) (datalen s) (data s)) ->
  wp (for_loop 6 0 (fun i => x ← byte b (1 + 5 - i); set_addr i x)) s Q.
Proof.
  intros -> Ha Hs HQ. destruct s as [sa c l d]. simpl in Hs.
  do 7 (destruct a as [|? a]; try done). do 7 (destruct sa as [|? sa]; try done).
Qed.

Lemma wp_set_data i x s (Q : unit -> s_dlt645_format -> Prop) :
  0 <= i < Z.of_nat (length (data s)) ->
  Q tt (mk_dlt (addr s) (ctrlcode s) (datalen s) (<[Z.to_nat i := x]> (data s))) ->
  wp (set_data i x) s Q.
Proof. intros Hi HQ. unfold wp, set_data. by rewrite wr_Some by done. Qed.

(** The data loop removes the 0x33 offset. *)
Lemma dlt_wp_read_data b hd e tl s (Q : unit -> s_dlt645_format -> Prop) :
  b = hd ++ e ++ tl -> length hd = 10%nat -> (length e <= length (data s))%nat ->
  Q tt (mk_dlt (addr s) (ctrlcode s) (datalen s)
          (((fun x => u8 (x - 0x33)) <$> e) ++ drop (length e) (data s))) ->
  wp (for_loop (length e) 0 (fun i => x ← byte b (10 + i); set_data i (u8 (x - 0x33)))) s Q.
Proof.
  intros -> Hh Hl HQ.
  eapply wp_mono; [apply (wp_for_loop (fun k s' => s' =
    mk_dlt (addr s) (ctrlcode s) (datalen s)
      (((fun x => u8 (x - 0x33)) <$> take k e) ++ drop k (data s))))| ].
  - rewrite drop_0. by destruct s.
  - intros k s' Hk ->. apply wp_bind.
    destruct (lookup_lt_is_Some_2 e k Hk) as [x Hx].
    assert (Z.to_nat (10 + (0 + Z.of_nat k)) = (length hd + k)%nat) as Ei by lia.
    apply (wp_byte _ _ x); [|lia|].
    + rewrite Ei, lookup_app_r, Nat.add_comm, Nat.add_sub, lookup_app_l by lia. done.
    + apply wp_set_data; simpl.
      * rewrite length_app, length_fmap, length_take, length_drop. lia.
      * replace (Z.to_nat (0 + Z.of_nat k)) with k by lia. f_equal.
        rewrite (take_S_r _ _ x Hx), fmap_app, <- app_assoc. simpl.
        destruct (lookup_lt_is_Some_2 (data s) k ltac:(lia)) as [y Hy].
        rewrite (drop_S _ _ _ Hy).
        rewrite insert_app_r_alt by (rewrite length_fmap, length_take; lia).
        rewrite length_fmap, length_take, Nat.min_l by lia.
        by rewrite Nat.sub_diag.
  - intros [] s' ->. rewrite firstn_all. by destruct s.
Qed.

(** The verdict of the decoder on a buffer with both marks. *)
Definition verdict (b : list Z) (pos y z inlen : Z) : Z :=
  if negb (sum8 (take (Z.to_nat pos) b) =? y) then -2
  else if negb (z =? 0x16) then -3
  else if negb (pos + 2 =? inlen) then -4 else 0.

Lemma dlt_decode_run b a c e y z rest inlen s :
  b = [0x68] ++ a ++ [0x68; c; Z.of_nat (length e)] ++ e ++ [y; z] ++ rest ->
  12 <= inlen -> length a = 6%nat -> (length e <= 255)%nat ->
  length (addr s) = 6%nat -> (length e <= length (data s))%nat ->
  wp (dlt_645_decode (Some b) inlen) s (fun r s' =>
    r = verdict b (10 + Z.of_nat (length e)) y z inlen /\
    s' = mk_dlt (reverse a) c (Z.of_nat (length e))
           (((fun x => u8 (x - 0x33)) <$> e) ++ drop (length e) (data s))).
Proof.
  intros Hb Hin Ha He Hs Hd. unfold dlt_645_decode.
  set (hd := 0x68 :: a ++ [0x68; c; Z.of_nat (length e)]).
  rewrite (proj2 (Z.ltb_ge _ _)) by lia.
  apply wp_bind, (wp_byte_at [] 0x68 _ _ _ _ _ Hb); [done|]. simpl.
  apply wp_bind. eapply wp_read_addr; [exact Hb|done|done|].
  apply wp_bind. eapply (wp_byte_at (0x68 :: a)); [rewrite Hb; app_eq|app_len|]. simpl.
  apply wp_bind. eapply (wp_byte_at (0x68 :: a ++ [0x68]) c); [rewrite Hb; app_eq|app_len|].
  unfold set_ctrlcode, set_datalen. wp_steps.
  eapply (wp_byte_at (0x68 :: a ++ [0x68; c])); [rewrite Hb; app_eq|app_len|].
  wp_steps. simpl. rewrite (proj2 (Z.ltb_ge _ _)) by (unfold ELEC_DEV_TRANS_MAX_LEN; lia).
  rewrite Nat2Z.id. apply wp_bind.
  eapply (dlt_wp_read_data _ hd e ([y; z] ++ rest)); [rewrite Hb; app_eq|app_len|done|].
  simpl. rewrite (uwrap_small 16 (10 + _)) by c_lia. rewrite !uwrap_small by c_lia.
  assert (length b = 12 + length e + length rest)%nat as Hlb by (rewrite Hb; app_len).
  rewrite sum_bytes_spec by c_lia. wp_steps.
  eapply wp_deref; [done|]. wp_steps.
  eapply (wp_byte_at (hd ++ e) y); [rewrite Hb; app_eq|app_len|].
  unfold verdict. rewrite drop_0, Z.add_0_l, uwrap_small by apply sum8_range.
  destruct (negb (_ =? y)); [by apply wp_ret|]. wp_steps.
  eapply (wp_byte_at (hd ++ e ++ [y]) z); [rewrite Hb; app_eq|app_len|].
  destruct (negb (z =? _)); [by apply wp_ret|].
  destruct (negb (_ =? inlen)); by apply wp_ret.
Qed.

(** A buffer that is long enough for its length byte splits into the fields
    of a frame. *)
Lemma split_fields b l :
  b !! 9%nat = Some l -> 0 <= l -> (12 + Z.to_nat l <= length b)%nat ->
  exists h a m c e y z rest,
    b = [h] ++ a ++ [m; c; Z.of_nat (length e)] ++ e ++ [y; z] ++ rest /\
    length a = 6%nat /\ l = Z.of_nat (length e).
Proof.
  intros H9 Hl Hlen.
  assert (b = take 10 b ++ take (Z.to_nat l) (drop 10 b) ++ drop (10 + Z.to_nat l) b) as Hb.
  { rewrite <- drop_drop, take_drop, take_drop. done. }
  set (e := take (Z.to_nat l) (drop 10 b)) in *.
  assert (length e = Z.to_nat l) as He by (unfold e; rewrite length_take, length_drop; lia).
  do 10 (destruct b as [|? b]; [done|]). simpl in H9, Hb. simplify_eq.
  destruct (drop (Z.to_nat l) b) as [|y' [|z' rest]] eqn:Ed.
  1-2: exfalso; apply (f_equal length) in Ed; rewrite length_drop in Ed; simpl in *; lia.
  eexists _, [_; _; _; _; _; _], _, _, e, y', z', rest.
  rewrite He, Z2Nat.id by done. split; [|done]. simpl. by rewrite <- Hb.
Qed.

Lemma off33 x : is_u8 x -> u8 (u8 (x + 0x33) - 0x33) = x.
Proof.
  intros Hx. unfold Z.sub. rewrite uwrap_add_l.
  replace (x + 51 + - (51)) with x by lia. by apply uwrap_small.
Qed.

Lemma off33' x : is_u8 x -> u8 (u8 (x - 0x33) + 0x33) = x.
Proof.
  intros Hx. rewrite uwrap_add_l.
  replace (x - 51 + 51) with x by lia. by apply uwrap_small.
Qed.

Lemma length_body a c d : length a = 6%nat -> length (body a c d) = (10 + length d)%nat.
Proof. intros. unfold body. app_len. Qed.

Lemma length_frame a c d : length a = 6%nat -> length (frame a c d) = (12 + length d)%nat.
Proof. intros. unfold frame. rewrite length_app, length_body by done. simpl. lia. Qed.

(** A frame is accepted, whatever follows it in the buffer. *)
Lemma dlt_decode_frame a c d rest s :
  fits a c d -> length (addr s) = 6%nat -> (length d <= length (data s))%nat ->
  wp (dlt_645_decode (Some (frame a c d ++ rest)) (Z.of_nat (length (frame a c d)))) s
    (fun r s' => r = 0 /\
       s' = mk_dlt (reverse a) c (Z.of_nat (length d)) (d ++ drop (length d) (data s))).
Proof.
  intros (Ha & _ & _ & Hd & Hl) Hs Hdata. rewrite length_frame by done.
  set (e := (fun x => u8 (x + 51)) <$> d).
  assert (length e = length d) as He by apply length_fmap.
  eapply wp_mono; [apply (dlt_decode_run _ a c e (sum8 (body a c d)) 0x16 rest)|];
    rewrite ?He; try done; try lia.
  - unfold frame, body. fold e. app_eq.
  - intros r s' (-> & ->). split.
    + unfold verdict. replace (Z.to_nat (10 + Z.of_nat (length d))) with (length (body a c d))
        by (rewrite length_body; lia).
      unfold frame. rewrite <- app_assoc, take_app_length, Z.eqb_refl. simpl.
      by rewrite (proj2 (Z.eqb_eq _ _)) by lia.
    + f_equal. f_equal. unfold e. rewrite <- list_fmap_compose.
      rewrite (Forall_fmap_ext_1 _ id); [by rewrite list_fmap_id|].
      eapply Forall_impl; [exact Hd|]. intros x Hx. by apply off33.
Qed.

(** Too short, or without one of the two marks: refused at once. *)
Lemma decode_unmarked b h a m tl inlen s :
  b = [h] ++ a ++ [m] ++ tl -> length a = 6%nat -> length (addr s) = 6%nat ->
  inlen < 12 \/ h <> 0x68 \/ m <> 0x68 ->
  wp (dlt_645_decode (Some b) inlen) s (fun r _ => r = -1).
Proof.
  intros Hb Ha Hs Hbad. unfold dlt_645_decode.
  destruct (Z.ltb_spec inlen 12); [by apply wp_ret|].
  apply wp_bind, (wp_byte_at [] h _ _ _ _ _ Hb); [done|].
  destruct (Z.eqb_spec h 0x68) as [->|]; [simpl|by apply wp_ret].
  apply wp_bind. eapply wp_read_addr; [exact Hb|done|done|].
  apply wp_bind. eapply (wp_byte_at (0x68 :: a) m); [rewrite Hb; app_eq|app_len|].
  rewrite (proj2 (Z.eqb_neq m _)) by naive_solver lia. done.
Qed.

(** What is accepted is a frame. *)
Lemma decode_accepts b inlen s l :
  Forall is_u8 b -> b !! 9%nat = Some l -> (12 + Z.to_nat l <= length b)%nat ->
  length (addr s) = 6%nat -> (Z.to_nat l <= length (data s))%nat ->
  wp (dlt_645_decode (Some b) inlen) s (fun r _ =>
    r = 0 -> exists a c d, fits a c d /\ take (Z.to_nat inlen) b = frame a c d).
Proof.
  intros Hu H9 Hlen Hs Hdata.
  pose proof (Forall_lookup_1 _ _ _ _ Hu H9) as Hl. unfold is_u in Hl.
  destruct (split_fields b l H9 ltac:(lia) Hlen)
    as (h & a & m & c & e & y & z & rest & Hb & Ha & ->).
  destruct (decide (inlen < 12 \/ h <> 0x68 \/ m <> 0x68)) as [Hbad|Hok].
  { eapply wp_mono; [by apply (decode_unmarked b h a m _ inlen s Hb)|]. simpl. lia. }
  assert (h = 0x68 /\ m = 0x68 /\ 12 <= inlen) as (-> & -> & Hin) by lia.
  eapply wp_mono; [apply (dlt_decode_run b a c e y z rest inlen s Hb); try done; lia|].
  simpl. intros r _ (-> & _). unfold verdict.
  repeat case_match; try done. intros _. rewrite !negb_false_iff, !Z.eqb_eq in *.
  match goal with E : sum8 _ = y |- _ => rename E into Hy end. subst z inlen.
  rewrite Hb in Hu. rewrite !Forall_app in Hu. destruct Hu as (_ & Hua & Huc & Hue & _).
  exists a, c, ((fun x => u8 (x - 51)) <$> e). split.
  - split; [done|]. split; [done|]. rewrite length_fmap. split_and!; try lia.
    + by inversion_clear Huc; decompose_Forall_hyps.
    + apply Forall_fmap, Forall_true. intros x. by apply uwrap_range.
  - unfold frame, body. rewrite length_fmap, <- list_fmap_compose.
    rewrite (Forall_fmap_ext_1 _ id e), list_fmap_id
      by (eapply Forall_impl; [exact Hue|]; intros x Hx; by apply off33').
    set (B := [104] ++ a ++ [104; c; Z.of_nat (length e)] ++ e).
    assert (length B = 10 + length e)%nat as HB by (unfold B; app_len).
    replace (Z.to_nat (10 + Z.of_nat (length e))) with (length B) in Hy by lia.
    replace (Z.to_nat (10 + Z.of_nat (length e) + 2)) with (length B + 2)%nat by lia.
    assert (b = B ++ [y; 22] ++ rest) as HbB by (rewrite Hb; unfold B; app_eq).
    rewrite HbB, take_app_length in Hy. by rewrite HbB, take_app_add, Hy.
Qed.

(** C36. The decoder accepts exactly the frames: it returns 0 if and only if
    the [inlen] bytes it is given are a frame of the reference layout (both
    marks, the length byte, the checksum over everything before it, the end
    mark and nothing behind it), and then the struct holds the fields of
    that frame, the address in reverse order and the data without the 0x33
    offset.  The buffer must reach as far as the length byte says: the code
    compares the declared length with [inlen] only at the end. *)
Theorem dlt645_decode_exact b inlen s l :
  Forall is_u8 b -> b !! 9%nat = Some l -> (12 + Z.to_nat l <= length b)%nat ->
  0 <= inlen <= Z.of_nat (length b) ->
  length (addr s) = 6%nat -> (Z.to_nat l <= length (data s))%nat ->
  wp (dlt_645_decode (Some b) inlen) s (fun r s' =>
    (r = 0 <-> exists a c d, fits a c d /\ take (Z.to_nat inlen) b = frame a c d) /\
    (forall a c d, fits a c d -> take (Z.to_nat inlen) b = frame a c d ->
       s' = mk_dlt (reverse a) c (Z.of_nat (length d)) (d ++ drop (length d) (data s)))).
Proof.
  intros Hu H9 Hlen Hin Hs Hdata.
  assert (forall a c d, fits a c d -> take (Z.to_nat inlen) b = frame a c d ->
    wp (dlt_645_decode (Some b) inlen) s (fun r s' => r = 0 /\
      s' = mk_dlt (reverse a) c (Z.of_nat (length d)) (d ++ drop (length d) (data s)))) as Hacc.
  { intros a c d Hf E. rewrite <- (take_drop (Z.to_nat inlen) b), E.
    assert (inlen = Z.of_nat (length (frame a c d))) as ->
      by (rewrite <- E, length_take; lia).
    apply dlt_decode_frame; [done..|]. destruct Hf as (Ha & _ & _ & _ & Hd).
    assert (l = Z.of_nat (length d)) as ->; [|lia].
    apply (f_equal (lookup 9%nat)) in E. rewrite lookup_take_lt, H9 in E.
    - unfold frame, body in E. do 7 (destruct a as [|? a]; try done). by simplify_eq/=.
    - rewrite length_frame in * by done. lia. }
  pose proof (decode_accepts b inlen s l Hu H9 Hlen Hs Hdata) as Hacc'.
  apply wp_Some in Hacc' as (r & s' & E & Hr). apply wp_Some. exists r, s'.
  split; [done|]. split; [split; [done|]|].
  - intros (a & c & d & Hf & Ef). specialize (Hacc a c d Hf Ef).
    unfold wp in Hacc. rewrite E in Hacc. by destruct Hacc.
  - intros a c d Hf Ef. specialize (Hacc a c d Hf Ef).
    unfold wp in Hacc. rewrite E in Hacc. by destruct Hacc.
Qed.

(** ** The encoder *)

(** What the encoder leaves in a buffer that is large enough. *)
Lemma dlt_encode_writes a c d pad o :
  fits a c d -> (16 + length d <= length o)%nat ->
  wp (dlt_645_encode (Some (mk_dlt a c (Z.of_nat (length d)) (d ++ pad)))) o (fun r o' =>
    r = Z.of_nat (16 + length d) /\
    o' = written (replicate 4 0xFE ++ frame a c d) o).
Proof.
  intros (Ha & _ & _ & _ & Hd) Ho.
  assert (o = written [] o) as Eo by (unfold written; by rewrite drop_0).
  unfold dlt_645_encode. simpl addr. simpl ctrlcode. simpl datalen. simpl data.
  rewrite Eo at 1. apply wp_bind. simpl for_loop.
  do 4 (apply wp_bind, wp_put_next; [done|simpl; lia|]; cbn [app]). apply wp_ret.
  apply wp_bind, wp_put_next; [done|simpl; lia|]; cbn [app].
  apply wp_bind, (wp_put_loop id a 6); [done|lia|simpl; lia|].
  rewrite list_fmap_id, (take_ge a 6) by lia. cbn [app].
  do 3 (apply wp_bind, wp_put_next; [app_len|app_len|]).
  rewrite Nat2Z.id. apply wp_bind, (wp_put_loop (fun x => u8 (x + 0x33)));
    [app_len|app_len|app_len|].
  rewrite take_app_length.
  rewrite (uwrap_small 16 (14 + _)) by c_lia. rewrite !uwrap_small by c_lia.
  set (w := _ ++ (_ <$> d)).
  assert (w = replicate 4 0xFE ++ body a c d) as Ew by (unfold w, body; app_eq).
  assert (length w = 14 + length d)%nat as Hw
    by (rewrite Ew, length_app, length_body by done; done).
  wp_steps.
  rewrite sum_bytes_spec; [|lia|unfold id, written; rewrite length_app, length_drop; lia|done].
  eapply wp_deref; [done|].
  assert (take (Z.to_nat (14 + Z.of_nat (length d) - 4)) (drop (Z.to_nat 4) (id (written w o)))
    = body a c d) as ->.
  { unfold id, written. rewrite Ew, <- app_assoc, (drop_app_length' (replicate 4 0xFE)) by done.
    apply take_app_length'. rewrite length_body by done. lia. }
  rewrite Z.add_0_l, (uwrap_small 8) by apply sum8_range.
  apply wp_bind, wp_put_next; [lia|lia|].
  apply wp_bind, wp_put_next; [app_len|app_len|].
  apply wp_ret. split; [lia|]. rewrite Ew. unfold frame. f_equal. app_eq.
Qed.

(** ** Finding the frame *)

(** Up to four preamble bytes are skipped. *)
Lemma precode_found k tl n :
  (k <= 4)%nat -> (k < n)%nat ->
  precode_scan (replicate k 0xFE ++ 0x68 :: tl) n 0 = Some (Z.of_nat k).
Proof.
  intros Hk Hn.
  do 5 (destruct k as [|k]; [do 5 (destruct n as [|n]; [lia || done|]); done|]). lia.
Qed.

Lemma frame_cons a c d : exists tl, frame a c d = 0x68 :: tl.
Proof. unfold frame, body. by eexists. Qed.

(** A received frame is found behind its preamble and decoded into the
    caller's buffer. *)
Lemma dlt_parse_frame_ok k a c d rest s :
  (k <= 4)%nat -> fits a c d -> (length d <= 248)%nat ->
  wp (elec_dev_parse_645_frame true (replicate k 0xFE ++ frame a c d ++ rest)
        (Z.of_nat (k + length (frame a c d)))) s (fun r s' =>
    r = 0 /\ s' = mk_dlt (reverse a) c (Z.of_nat (length d))
                    (d ++ replicate (248 - length d) 0)).
Proof.
  intros Hk Hf Hd. unfold elec_dev_parse_645_frame.
  assert (length (frame a c d) = 12 + length d)%nat as Hl
    by (destruct Hf as (Ha & _); by apply length_frame).
  apply wp_bind. eapply wp_deref.
  { unfold dlt645_precode_detect. destruct (frame_cons a c d) as [tl ->]. simpl.
    rewrite Nat2Z.id. apply precode_found; lia. }
  rewrite (proj2 (Z.leb_le 0 _)) by lia. rewrite Nat2Z.id, drop_app_length'
    by (symmetry; apply length_replicate).
  rewrite uwrap_small by c_lia.
  replace (Z.of_nat (k + length (frame a c d)) - Z.of_nat k)
    with (Z.of_nat (length (frame a c d))) by lia.
  destruct (proj1 (wp_Some _ _ _)
    (dlt_decode_frame a c d rest (dlt_block ELEC_DEV_TRANS_MAX_LEN) Hf eq_refl Hd))
    as (r & s' & E & -> & ->).
  rewrite E. simpl. split; [done|]. f_equal. f_equal.
  exact (drop_replicate (length d) 248 0).
Qed.

(** ** The assembler *)

(** What is on the line: [k] preamble bytes, the first mark, the eight bytes
    up to the length byte [l], and what follows it. *)
Definition wire (k : nat) (hd : list Z) (l : Z) (e : list Z) : list Z :=
  replicate k 0xFE ++ [0x68] ++ hd ++ [l] ++ e.

Definition on_wire (k : nat) (hd : list Z) (l : Z) (e : list Z) : Prop :=
  (k <= 4)%nat /\ length hd = 8%nat /\ is_u8 l /\ Z.of_nat (length e) = l + 2.

(** The step and the bytes still needed, from the number [j] of bytes taken. *)
Definition expect_645 (k total j : nat) : Z * Z :=
  if decide (j <= k)%nat then (0, 1)
  else if decide (j < k + 10)%nat then (1, Z.of_nat (k + 10 - j))
  else (2, Z.of_nat (total - j)).

Lemma length_wire k hd l e :
  length hd = 8%nat -> length (wire k hd l e) = (k + 10 + length e)%nat.
Proof. intros. unfold wire. rewrite length_app, length_replicate. app_len. Qed.

Lemma wire_preamble k hd l e j : (j < k)%nat -> wire k hd l e !! j = Some 0xFE.
Proof.
  intros. unfold wire. rewrite lookup_app_l by (rewrite length_replicate; lia).
  by apply lookup_replicate_2.
Qed.

Lemma wire_mark k hd l e : wire k hd l e !! k = Some 0x68.
Proof.
  unfold wire. rewrite lookup_app_r by (rewrite length_replicate; lia).
  by rewrite length_replicate, Nat.sub_diag.
Qed.

Lemma wire_length_byte k hd l e :
  length hd = 8%nat -> wire k hd l e !! (k + 9)%nat = Some l.
Proof.
  intros Hl. unfold wire. rewrite app_assoc, app_assoc, (app_assoc _ [l]).
  rewrite lookup_app_l by (rewrite !length_app, length_replicate; simpl; lia).
  rewrite lookup_app_r by (rewrite !length_app, length_replicate; simpl; lia).
  rewrite !length_app, length_replicate. simpl. by replace (k + 9 - _)%nat with 0%nat by lia.
Qed.

Section Assembler.
Context {D : Type} `{RxDeviceLaws D}.

Notation mid k cap w := (assembling (D := D) (expect_645 k (length w)) cap w).

(** The preamble and the first mark: one byte per call. *)
Lemma pack_645_head_step k hd l e cap t j bs (s s1 : pack_st D) :
  on_wire k hd l e -> (j <= k)%nat -> mid k cap (wire k hd l e) t j s ->
  piece_read (wire k hd l e) bs j s s1 ->
  wp pack_645_head s1 (fun r s' =>
    pack_pending s' = pack_pending s1 /\ r = -1 /\
    mid k cap (wire k hd l e) (S t) (j + length bs) s').
Proof.
  intros (Hk & Hhd & Hl & He) Hj (Hnow & Hexp & Hroom & Hbuf & Hcnt) Hp.
  pose proof (length_wire k hd l e Hhd) as Hw. set (w := wire k hd l e) in *.
  unfold expect_645 in Hexp. rewrite decide_True in Hexp by done. injection Hexp as Hst Hn.
  destruct Hp as [_ _ Hb Pnow Pneed Pst Pcnt Proom Pbuf]. rewrite Hn in *.
  rewrite <- Proom in Hroom.
  unfold pack_645_head. wp_steps.
  destruct bs as [|x [|? ?]]; simpl in *; [| |lia].
  - rewrite Nat.add_0_r in *. rewrite Pneed. simpl. wp_steps. split_and!; [done|done|].
    split_and!; try done; simpl; try lia.
    unfold expect_645. rewrite decide_True by done. by rewrite Pst, Hst, Pneed.
  - rewrite Pneed. simpl. wp_steps.
    destruct (decide (j = k)) as [->|Hne].
    + apply (wp_pack_byte w (k + 1) 1 _ _ 0x68); [done|done|lia| |].
      { rewrite Nat.add_sub. apply wire_mark. }
      simpl. wp_steps. split_and!; [done|done|]. split_and!; try done; simpl; try lia.
      unfold expect_645. rewrite decide_False, decide_True by lia. f_equal. lia.
    + apply (wp_pack_byte w (j + 1) 1 _ _ 0xFE); [done|done|lia| |].
      { rewrite Nat.add_sub. apply wire_preamble. lia. }
      simpl. wp_steps. rewrite (proj2 (Z.leb_le _ _)) by lia. wp_steps.
      split_and!; [done|done|]. split_and!; try done; simpl; try lia.
      unfold expect_645. rewrite decide_True by lia. by rewrite Pst, Hst.
Qed.

(** The assembler meets the step contract of [poll_reassembles]. *)
Lemma pack_645_step k hd l e cap :
  on_wire k hd l e -> (length (wire k hd l e) <= cap)%nat ->
  frame_step (D := D) elec_dev_pack_645_frame (wire k hd l e)
    (mid k cap (wire k hd l e)) (assembled cap (wire k hd l e)).
Proof.
  intros Hon Hcap t j s rest HM Hj Ht Hpre. pose proof Hon as (Hk & Hhd & Hl & He). unfold is_u in Hl.
  pose proof (length_wire k hd l e Hhd) as Hw.
  pose proof HM as (Hnow & Hexp & Hroom & Hbuf & Hcnt).
  unfold elec_dev_pack_645_frame. apply wp_bind.
  eapply wp_piece_read; [exact HM|done|done|c_lia| |exact Hpre|].
  { unfold expect_645 in Hexp. repeat case_decide; injection Hexp; lia. }
  intros bs s1 Hp. pose proof Hp as [Hpend Hprog Hb Pnow Pneed Pst Pcnt Proom Pbuf].
  rewrite <- Proom in Hroom.
  wp_steps. rewrite Pst.
  unfold expect_645 in Hexp. repeat case_decide; injection Hexp as Hst Hn; rewrite Hst; simpl.
  - eapply wp_mono; [by eapply pack_645_head_step|]. simpl.
    intros r s' (Hp' & -> & HM'). exists bs. rewrite Hp'. split_and!; [done|lia|done|].
    left. split; [lia|done].
  - apply wp_bind. eapply (wp_mono _ _ (fun _ s2 =>
      pack_pending s2 = pack_pending s1 /\ timoutcnt s2 = timoutcnt s1 /\
      mid k cap (wire k hd l e) t (j + length bs) s2)).
    + apply wp_when.
      * intros E%Z.eqb_eq. wp_steps.
        apply (wp_pack_byte (wire k hd l e) (j + length bs) 1 _ _ l);
          [done|done|lia| |].
        { replace (j + length bs - 1)%nat with (k + 9)%nat by lia. by apply wire_length_byte. }
        wp_steps. split; [done|]. split; [done|]. split_and!; simpl; try done; try lia.
        unfold expect_645. rewrite decide_False, decide_False by lia.
        rewrite uwrap_small by c_lia. f_equal. lia.
      * intros E%Z.eqb_neq. split; [done|]. split; [done|]. split_and!; try done; try lia.
        unfold expect_645. rewrite decide_False, decide_True by lia.
        rewrite Pst, Hst, Pneed. f_equal. lia.
    + intros [] s2 (Hp2 & Hc2 & HM2). apply wp_bind.
      destruct HM2 as (Hnow2 & Hexp2 & Hroom2 & Hbuf2 & Hcnt2).
      apply wp_pack_count; [lia|]. wp_steps. exists bs.
      split_and!; [by rewrite Hpend, <- Hp2|lia|done|].
      left. unfold assembling. split_and!; try done; simpl; lia.
  - apply wp_bind. rewrite Pneed.
    destruct (Z.eqb_spec (need_len s - Z.of_nat (length bs)) 0) as [E|E].
    + unfold pack_complete. wp_steps. apply wp_pack_count; [simpl; lia|]. wp_steps.
      exists bs. split_and!; [done|lia|done|]. right.
      split_and!; try done; [lia|]. split_and!; simpl; try done.
      * rewrite Pnow. lia.
      * unfold out_buf in *. simpl. replace (length (wire k hd l e)) with (j + length bs)%nat by lia.
        rewrite Pbuf. rewrite take_ge by lia. done.
    + wp_steps. apply wp_pack_count; [lia|]. wp_steps.
      exists bs. split_and!; [done|lia|done|]. left. unfold assembling. split_and!; try done; simpl; try lia.
      unfold expect_645. rewrite decide_False, decide_False by lia.
      rewrite Pst, Hst, Pneed. f_equal. lia.
Qed.

Definition is_wire (cap : nat) (w : list Z) : Prop :=
  (length w <= cap)%nat /\ exists k hd l e, on_wire k hd l e /\ w = wire k hd l e.

Lemma frameable_645 cap w :
  is_wire cap w -> frameable (D := D) elec_dev_pack_645_frame cap w w.
Proof.
  intros (Hcap & k & hd & l & e & Hon & ->). pose proof Hon as (_ & Hhd & _).
  split; [rewrite length_wire by done; lia|].
  eexists. split_and!; [by apply pack_645_step| |].
  - intros. by apply assembling_arrive.
  - intros t s (Hst & Hneed & Hnow) Hc. unfold assembling. split_and!; try done; [|by left].
    unfold expect_645. rewrite decide_True by lia. by rewrite Hst, Hneed.
Qed.

(** The assembler cuts the byte stream of the UART into frames: from
    rest, when the bytes pending and still to arrive are any number of
    frames back to back (each with up to four preamble bytes, the mark,
    eight bytes, the length byte, that many bytes and two more, and short
    enough for the buffer) and then anything, polling hands over exactly
    these frames in order, whatever pieces the bytes arrive in and whatever
    the frames contain, and takes nothing of what follows.  The bound on
    the polls is the code's own timeout. *)
Theorem pack_645_stream cap ws cs n rest (s : pack_st D) :
  Forall (is_wire cap) ws -> at_rest s -> length (out_buf s) = cap -> Forall is_u8 (concat cs) ->
  pack_pending s ++ concat cs = concat ws ++ rest ->
  (length (concat ws) <= n)%nat -> Z.of_nat (length cs + n) <= 10000 ->
  wp (poll_frames elec_dev_pack_645_frame (length ws) (cs ++ replicate n [])) s
    (fun r s' => r = ws /\ at_rest s' /\ length (out_buf s') = cap /\
       exists later, pack_pending s' ++ concat later = rest).
Proof.
  intros Hws Hr Hc Hu Hp Hn Ht.
  set (fs := (fun w => (w, w)) <$> ws).
  assert (fs.*1 = ws /\ fs.*2 = ws /\ length fs = length ws) as (E1 & E2 & E3).
  { unfold fs. rewrite <- !list_fmap_compose, length_fmap. by rewrite !list_fmap_id. }
  rewrite <- E3. eapply wp_mono; [apply (poll_stream _ cap fs _ _ _ rest); rewrite ?E1; try done|].
  - apply Forall_fmap. eapply Forall_impl; [exact Hws|]. intros w Hw. by apply frameable_645.
  - intros r s'. by rewrite E2.
Qed.

(** Sending a frame and receiving it: the encoder's output, cut in any way
    by the line, is assembled, found and decoded. *)
Lemma encoded_wire a c d :
  fits a c d -> exists hd e, on_wire 4 hd (Z.of_nat (length d)) e /\
    replicate 4 0xFE ++ frame a c d = wire 4 hd (Z.of_nat (length d)) e.
Proof.
  intros (Ha & _ & _ & _ & Hd).
  exists (a ++ [0x68; c]), (((fun x => u8 (x + 51)) <$> d) ++ [sum8 (body a c d); 0x16]).
  split.
  - split_and!; [lia|app_len|c_lia|]. rewrite length_app, length_fmap. simpl. lia.
  - unfold wire, frame. f_equal. unfold body at 1. app_eq.
Qed.

(** C15. End to end: a message the encoder writes (up to 240 data bytes, what
    the receive buffer of [elec_dev_thread] can hold) is received by a node
    at rest however the line cuts it: the assembler hands over the frame,
    and the parser finds it behind the preamble, accepts it and returns the
    control code, the data and the address, the address in reverse order. *)
Theorem dlt645_link a c d pad o :
  fits a c d -> (length d <= 240)%nat -> (16 + length d <= length o)%nat ->
  wp (dlt_645_encode (Some (mk_dlt a c (Z.of_nat (length d)) (d ++ pad)))) o (fun n o' =>
    forall cs rest (s : pack_st D) st,
      at_rest s -> Z.of_nat (length (out_buf s)) = ELEC_DEV_TRANS_MAX_LEN ->
      Forall is_u8 (concat cs) -> pack_pending s ++ concat cs = take (Z.to_nat n) o' ++ rest ->
      Z.of_nat (length cs) + n <= 10000 ->
      wp (poll_frame elec_dev_pack_645_frame (cs ++ replicate (Z.to_nat n) [])) s
        (fun r s' => r <> None /\ at_rest s' /\
           wp (elec_dev_parse_645_frame true (out_buf s') (pk_len s')) st (fun r' st' =>
             r' = 0 /\ st' = mk_dlt (reverse a) c (Z.of_nat (length d))
                               (d ++ replicate (248 - length d) 0)))).
Proof.
  intros Hf Hd Ho. eapply wp_mono; [by apply dlt_encode_writes|].
  intros n o' (-> & ->) cs rest s st Hrest Hcap Hu Hp Hn.
  set (w := replicate 4 0xFE ++ frame a c d) in *.
  assert (length w = 16 + length d)%nat as Hw.
  { unfold w. rewrite length_app, length_frame by (by destruct Hf). done. }
  rewrite Nat2Z.id in *. unfold written in Hp. rewrite take_app_length' in Hp by done.
  assert (is_wire 256 w) as Hwire.
  { split; [lia|]. destruct (encoded_wire a c d Hf) as (hd & e & Hon & E).
    unfold w. by exists 4%nat, hd, (Z.of_nat (length d)), e. }
  destruct (frameable_645 256 w Hwire) as (_ & Mid & Hstep & Harr & Hstart).
  eapply wp_mono.
  { eapply (poll_reassembles _ w Mid _ cs _ 0 0 s rest Hstep Harr); [|lia|done|done|lia|lia].
    apply Hstart; [done|]. unfold ELEC_DEV_TRANS_MAX_LEN in Hcap. lia. }
  intros r s' (cs' & n' & -> & (_ & Hlen & Hbuf & Hrest') & _). split_and!; [done|done|].
  rewrite Hlen. rewrite <- (take_drop (length w) (out_buf s')), Hbuf.
  unfold w. rewrite <- app_assoc, length_app, length_replicate.
  apply dlt_parse_frame_ok; [lia|done|lia].
Qed.
End Assembler.

(** ** Concrete runs *)

Definition demo_addr : list Z := [0x11; 0x22; 0x33; 0x44; 0x55; 0x66].
Definition demo_data : list Z := [0x00; 0x01; 0xF0; 0xFF].

Lemma demo_fits : fits demo_addr 0x11 demo_data.
Proof. split_and!; repeat constructor; vm_compute; congruence. Qed.

(** The receive side of the thread at start-up. *)
Definition demo_rest (rx : list Z) : pack_st (list Z) :=
  mk_pack (replicate 256 0, rx) 0 0 0 1 0.

Lemma dlt645_decode_exact_witness :
  exists r s', dlt_645_decode (Some (frame demo_addr 0x11 demo_data)) 16 (dlt_block 256)
    = Some (r, s') /\ r = 0 /\ addr s' = reverse demo_addr.
Proof.
  destruct (proj1 (wp_Some _ _ _) (dlt645_decode_exact
    (frame demo_addr 0x11 demo_data) 16 (dlt_block 256) 4
    ltac:(repeat constructor; vm_compute; congruence) eq_refl
    ltac:(vm_compute; lia) ltac:(vm_compute; split; congruence) eq_refl
    ltac:(vm_compute; lia))) as (r & s' & E & Hr & Hs).
  exists r, s'. split; [exact E|]. split.
  - apply Hr. exists demo_addr, 0x11, demo_data. split; [exact demo_fits|reflexivity].
  - rewrite (Hs demo_addr 0x11 demo_data demo_fits eq_refl). reflexivity.
Defined.

Lemma pack_645_stream_witness :
  let w := wire 2 (replicate 8 7) 1 [1; 2; 3] in
  exists s', poll_frames elec_dev_pack_645_frame 2
    ([take 3 w; drop 3 w ++ w ++ [9]] ++ replicate 30 []) (demo_rest [])
    = Some ([w; w], s').
Proof.
  intros w.
  assert (is_wire 256 w) as Hw.
  { split; [vm_compute; lia|]. exists 2%nat, (replicate 8 7), 1, [1; 2; 3].
    split; [|reflexivity]. split_and!; vm_compute; try lia; split; congruence. }
  destruct (proj1 (wp_Some _ _ _) (pack_645_stream 256 [w; w]
    [take 3 w; drop 3 w ++ w ++ [9]] 30 [9] (demo_rest [])
    (Forall_cons_2 _ _ _ Hw (Forall_cons_2 _ _ _ Hw (Forall_nil_2 _))) ltac:(repeat split) eq_refl
    ltac:(apply (bool_decide_unpack _); vm_compute; exact I) eq_refl
    ltac:(vm_compute; lia) ltac:(vm_compute; congruence))) as (r & s' & E & -> & _).
  exists s'. exact E.
Defined.

Lemma dlt645_link_witness :
  exists n o', dlt_645_encode (Some (mk_dlt demo_addr 0x11 4 (demo_data ++ [0])))
      (replicate 40 0) = Some (n, o') /\
    exists r s', poll_frame elec_dev_pack_645_frame
      ([take 5 o'; drop 5 (take 20 o')] ++ replicate 20 []) (demo_rest []) = Some (r, s') /\
      r <> None.
Proof.
  destruct (proj1 (wp_Some _ _ _) (dlt645_link (D := list Z) demo_addr 0x11 demo_data [0]
    (replicate 40 0) demo_fits ltac:(vm_compute; lia) ltac:(vm_compute; lia)))
    as (n & o' & E & H).
  exists n, o'. split; [exact E|]. vm_compute in E. injection E as <- <-.
  specialize (H [[254;254;254;254;104]; [17;34;51;68;85;102;104;17;4;51;52;35;50;6;22]] []
    (demo_rest []) (dlt_block 256) ltac:(repeat split) eq_refl
    ltac:(apply (bool_decide_unpack _); vm_compute; exact I) eq_refl
    ltac:(vm_compute; congruence)).
  destruct (proj1 (wp_Some _ _ _) H) as (r & s' & E & Hr & _).
  exists r, s'. split; [exact E|exact Hr].
Defined.

(** The receive buffer is not guarded: the length byte alone decides how
    much the assembler asks the UART for, so a frame with a preamble and the
    largest data length the protocol allows is stored past the 256 bytes of
    [elec_dev_thread]'s [recv_buf]. *)
Theorem pack_645_overruns :
  let w := wire 4 (replicate 8 0) 255 (replicate 257 0) in
  on_wire 4 (replicate 8 0) 255 (replicate 257 0) /\
  poll_frame elec_dev_pack_645_frame (w :: replicate 10 []) (demo_rest []) = None.
Proof.
  split; [split_and!; vm_compute; try lia; split; congruence|]. vm_compute. reflexivity.
Qed.

End Dlt.
