(* ===== verification/Gdw1376.v ===== *)
(** * The Q/GDW 1376.2 concentrator protocol

    Model of [rt-thread/components/elec_dev/elec_protocol/elec_1376_2.c]:
    the encoder with its static frame counter, the decoder, the frame
    assembler, the parser and [elec_1376_2_send], which builds a frame in a
    heap block and writes it to the UART.

    Positions in the frame are the 16-bit [pos] of the source, with its
    wrap-around; a struct laid over a heap block has the block's remaining
    cells as its [data], and a store behind them is a fault. *)
From stdpp Require Import base list gmap.
From Stdlib Require Import ZArith Lia.
From S2P Require Import Prelude ElecDrv.
Import Drv.

Module Gdw.

Record s_1376_2_format := mk_gdw {
  module_flag : Z;      (* rt_uint8_t *)
  tn_addr : list Z;     (* rt_uint8_t[6] *)
  afn : Z;              (* rt_uint8_t *)
  fn : Z;               (* rt_uint16_t *)
  datalen : Z;          (* rt_uint16_t *)
  data : list Z         (* rt_uint8_t[ELEC_DEV_TRANS_MAX_LEN] *)
}.

Definition set_module_flag x s := mk_gdw x (tn_addr s) (afn s) (fn s) (datalen s) (data s).
Definition set_tn_addr x s := mk_gdw (module_flag s) x (afn s) (fn s) (datalen s) (data s).
Definition set_afn x s := mk_gdw (module_flag s) (tn_addr s) x (fn s) (datalen s) (data s).
Definition set_fn x s := mk_gdw (module_flag s) (tn_addr s) (afn s) x (datalen s) (data s).
Definition set_datalen x s := mk_gdw (module_flag s) (tn_addr s) (afn s) (fn s) x (data s).
Definition set_data x s := mk_gdw (module_flag s) (tn_addr s) (afn s) (fn s) (datalen s) x.

(** [out->data[i] = x] *)
Definition put_data i x : M s_1376_2_format unit := fun s =>
  b ← wr (data s) i x; Some (tt, set_data b s).

(** A zeroed heap block of [n] bytes used as the struct: the other fields
    take 12 bytes. *)
Definition gdw_block (n : Z) : s_1376_2_format :=
  mk_gdw 0 (replicate 6 0) 0 0 0 (replicate (Z.to_nat (n - 12)) 0).

Definition gdw_1376_2_decode (inp : option (list Z)) (inlen : Z) : M s_1376_2_format Z :=
  match inp with
  | None => mret (-1)
  | Some b =>
      if inlen <? 7 then mret (-1) else
      h ← byte b 0;
      if negb (h =? 0x68) then mret (-1) else
      lo ← byte b 1;
      modify (set_datalen lo);;
      hi ← byte b 2;
      modify (fun s => set_datalen (u16 (Z.lor (Z.shiftl hi 8) (datalen s))) s);;
      c ← byte b 4;
      when (negb (Z.land c 0x04 =? 0)) (modify (set_module_flag 1));;
      flag ← gets module_flag;
      pos ← (if flag =? 1 then
               a ← deref (buf_read b 10 6);
               modify (set_tn_addr a);;
               mret 22
             else mret 10);
      x ← byte b pos;
      modify (set_afn x);;
      f0 ← byte b (pos + 1);
      modify (set_fn f0);;
      f1 ← byte b (pos + 2);
      modify (fun s => set_fn (u16 (Z.lor (Z.shiftl f1 8) (fn s))) s);;
      let pos := pos + 3 in
      total ← gets datalen;
      let len := u16 (total - pos - 2) in
      for_loop (Z.to_nat len) 0 (fun i => x ← byte b (pos + i); put_data i x);;
      let pos := u16 (pos + len) in
      cs ← deref (sum_bytes 8 b 3 (Z.to_nat (pos - 3)) 0);
      y ← byte b pos;
      if negb (cs =? y) then mret (-2) else
      z ← byte b (u16 (pos + 1));
      if negb (z =? 0x16) then mret (-3) else
      mret 0
  end.

(** The caller's output buffer and the static frame counter. *)
Record enc_st := mk_enc { e_out : list Z; frameindex : Z (* rt_uint8_t *) }.

(** [out[i] = x] *)
Definition set_out (i x : Z) : M enc_st unit :=
  zoom e_out (fun b s => mk_enc b (frameindex s)) (put i x).

(** [rt_memcpy(&out[i], src, n)] *)
Definition put_mem (i : Z) (src : list Z) (n : Z) : M enc_st unit := fun s =>
  b ← memcpy (e_out s) i src 0 n; Some (tt, mk_enc b (frameindex s)).

Definition gdw_1376_2_encode (sys_addr : list Z) (inp : option s_1376_2_format)
  : M enc_st Z :=
  match inp with
  | None => mret (-1)
  | Some s =>
      set_out 0 0x68;;
      let len_pos := 1 in
      set_out 3 0x41;;
      set_out 4 (u8 (Z.lor 0x00 (Z.shiftl (module_flag s) 2)));;
      idx ← gets frameindex;
      set_out 9 idx;;
      modify (fun e => mk_enc (e_out e) (u8 (frameindex e + 1)));;
      pos ← (if negb (module_flag s =? 0) then
               put_mem 10 sys_addr 6;;
               put_mem 16 (tn_addr s) 6;;
               mret 22
             else mret 10);
      set_out pos (afn s);;
      set_out (pos + 1) (Z.land (fn s) 0xff);;
      set_out (pos + 2) (Z.land (Z.shiftr (fn s) 8) 0xff);;
      let pos := pos + 3 in
      put_mem pos (data s) (datalen s);;
      let pos := u16 (pos + datalen s) in
      out ← gets e_out;
      cs ← deref (sum_bytes 16 out (len_pos + 2) (Z.to_nat (pos - (len_pos + 2))) 0);
      set_out pos (Z.land cs 0xff);;
      set_out (u16 (pos + 1)) 0x16;;
      let pos := u16 (pos + 2) in
      set_out len_pos (Z.land pos 0xff);;
      set_out (len_pos + 1) (Z.land (Z.shiftr pos 8) 0xff);;
      mret pos
  end.

Definition P1376_2_HEAD_LEN : Z := 1.

Section Pack.
Context {D : Type} `{RxDevice D}.

(** [parse_step] 0: the mark. *)
Definition pack_1376_head : M (pack_st D) Z :=
  need ← gets need_len;
  when (need =? 0)
    (x ← pack_byte 1;
     if x =? 0x68 then modify (fun s => set_step 1 (set_need 2 s))
     else modify (fun s => set_need P1376_2_HEAD_LEN (set_now 0 s)));;
  modify (set_cnt 0);;
  mret (-1).

Definition elec_dev_pack_1376_2_frame : M (pack_st D) Z :=
  pack_read P1376_2_HEAD_LEN;;
  step ← gets parse_step;
  need ← gets need_len;
  if step =? 0 then pack_1376_head
  else if step =? 1 then
    when (need =? 0)
      (hi ← pack_byte 1;
       lo ← pack_byte 2;
       now ← gets now_len;
       modify (fun s => set_step 2
         (set_need (u16 (need + Z.lor (Z.shiftl hi 8) lo - now)) s)));;
    pack_count P1376_2_HEAD_LEN;;
    mret (-1)
  else if step =? 2 then
    ret ← (if need =? 0 then pack_complete P1376_2_HEAD_LEN else mret (-1));
    pack_count P1376_2_HEAD_LEN;;
    mret ret
  else mret (-1).

End Pack.

(** The scan over [in[i]], [i = i .. inlen - 1]. *)
Fixpoint precode_scan (b : list Z) (n : nat) (i : Z) : option Z :=
  match n with
  | O => Some (-1)
  | S n =>
      x0 ← rd b i;
      pre ← (if x0 =? 0xFE then
               x1 ← rd b (i + 1);
               if x1 =? 0xFE then
                 x2 ← rd b (i + 2);
                 if x2 =? 0xFE then x3 ← rd b (i + 3); Some (x3 =? 0xFE)
                 else Some false
               else Some false
             else Some false);
      if (pre : bool) then Some (i + 4)
      else if x0 =? 0x68 then Some i
      else precode_scan b n (i + 1)
  end.

Definition gdw1376_2_precode_detect (inp : list Z) (inlen : Z) : option Z :=
  precode_scan inp (Z.to_nat inlen) 0.

(** [outbuf] is the state, a block of [ELEC_DEV_TRANS_MAX_LEN] bytes;
    [malloc_ok] is whether [rt_malloc] returns a block. *)
Definition elec_dev_parse_1376_2_frame (malloc_ok : bool) (parsebuf : list Z) (parselen : Z)
  : M s_1376_2_format Z :=
  if malloc_ok then
    loc ← deref (gdw1376_2_precode_detect parsebuf parselen);
    '(decode_ret, plcdata) ←
      (if 0 <=? loc then
         deref (gdw_1376_2_decode (Some (drop (Z.to_nat loc) parsebuf))
                  (u16 (parselen - loc)) (gdw_block ELEC_DEV_TRANS_MAX_LEN))
       else mret (-1, gdw_block ELEC_DEV_TRANS_MAX_LEN));
    when (decode_ret =? 0) (modify (fun _ => plcdata));;
    mret 0
  else mret (-1).

(** ** Sending

    What [elec_1376_2_send] changes besides heap blocks of its own: the
    static counter of the encoder and the UART. *)
Record send_st := mk_send { s_index : Z; s_tx : list (list Z) }.

(** The two calls of [rt_malloc] succeed or not ([send_ok], [buf_ok]); the
    second block is cleared only in its first [sizeof(int)] bytes, the rest
    is what the heap holds there ([junk]). *)
Definition elec_1376_2_send (send_ok buf_ok : bool) (junk : list Z)
    (main_addr : list Z) (slave_addr : option (list Z)) (a f : Z)
    (d_area : list Z) (d_len : Z) : M send_st Z :=
  if negb send_ok then mret (-1) else
  let send := gdw_block ELEC_DEV_TRANS_MAX_LEN in
  send ← match slave_addr with
         | None => mret (set_module_flag 0 send)
         | Some sa =>
             t ← deref (buf_read sa 0 6);
             mret (set_tn_addr t (set_module_flag 1 send))
         end;
  let send := set_fn f (set_afn a send) in
  d ← deref (memcpy (data send) 0 d_area 0 d_len);
  let send := set_datalen d_len (set_data d send) in
  if negb buf_ok then mret (-1) else
  let sendbuf := replicate 4 0 ++
                 take (Z.to_nat (ELEC_DEV_TRANS_MAX_LEN - 4)) junk in
  idx ← gets s_index;
  '(encode_len, e) ← deref (gdw_1376_2_encode main_addr (Some send) (mk_enc sendbuf idx));
  modify (fun s => mk_send (frameindex e) (s_tx s));;
  if 0 <? encode_len then
    zoom s_tx (fun tx s => mk_send (s_index s) tx)
      (elec_uart_write (Some (e_out e)) encode_len)
  else mret (-1).

(** ** The reference layout

    [gap] are the four bytes of the information field the encoder leaves as
    they are; the address field is there when the module flag is set. *)

Definition payload (ctrl info : Z) (gap : list Z) (idx : Z) (addrs : list Z)
    (a f : Z) (d : list Z) : list Z :=
  [ctrl; info] ++ gap ++ [idx] ++ addrs ++ [a; f mod 256; f / 256] ++ d.

Definition frame (p : list Z) : list Z :=
  let total := Z.of_nat (length p) + 5 in
  [0x68; total mod 256; total / 256] ++ p ++ [sum8 p; 0x16].

#[global] Arguments payload : simpl never.
#[global] Arguments frame : simpl never.

(** Two bytes, little end first. *)
Lemma lor_le16 lo hi :
  is_u8 lo -> is_u8 hi -> Z.lor (Z.shiftl hi 8) lo = lo + 256 * hi.
Proof.
  intros Hlo Hhi. rewrite Z.shiftl_mul_pow2, Z.lor_comm by lia.
  assert (Z.land lo (hi * 2 ^ 8) = 0) as E; cycle 1.
  { rewrite <- Z.lxor_lor, <- Z.add_nocarry_lxor by done. lia. }
  apply Z.bits_inj'. intros n Hn. rewrite Z.land_spec, Z.bits_0.
  destruct (Z.lt_ge_cases n 8).
  - rewrite Z.mul_pow2_bits_low by lia. apply andb_false_r.
  - rewrite <- (Z.mod_small lo (2 ^ 8)) by done.
    by rewrite Z.mod_pow2_bits_high by lia.
Qed.

Lemma le16 lo hi :
  is_u8 lo -> is_u8 hi -> u16 (Z.lor (Z.shiftl hi 8) lo) = lo + 256 * hi.
Proof. intros. rewrite lor_le16 by done. apply uwrap_small. c_lia. Qed.

Lemma bytes_of_le16 lo hi :
  is_u8 lo -> is_u8 hi -> (lo + 256 * hi) mod 256 = lo /\ (lo + 256 * hi) / 256 = hi.
Proof.
  intros Hlo Hhi. rewrite (Z.mul_comm 256). split.
  - rewrite Z_mod_plus_full. apply Z.mod_small. c_lia.
  - rewrite Z.div_add by lia. rewrite Z.div_small by c_lia. lia.
Qed.

Lemma shiftr_8 x : is_u16 x -> Z.land (Z.shiftr x 8) 0xff = x / 256.
Proof.
  intros Hx. rewrite land_255, Z.shiftr_div_pow2 by lia. change (2 ^ 8) with 256.
  apply Z.mod_small. split; [apply Z.div_pos; c_lia|]. apply Z.div_lt_upper_bound; c_lia.
Qed.

Lemma u16_halves f : is_u16 f -> is_u8 (f mod 256) /\ is_u8 (f / 256).
Proof.
  intros Hf. split; [apply Z.mod_pos_bound; lia|].
  split; [apply Z.div_pos; c_lia|apply Z.div_lt_upper_bound; c_lia].
Qed.

Lemma wp_put_data i x s (Q : unit -> s_1376_2_format -> Prop) :
  0 <= i < Z.of_nat (length (data s)) ->
  Q tt (set_data (<[Z.to_nat i := x]> (data s)) s) -> wp (put_data i x) s Q.
Proof. intros Hi HQ. unfold wp, put_data. by rewrite wr_Some by done. Qed.

(** The loop that copies the data unit. *)
Lemma wp_read_data b hd d tl pos s (Q : unit -> s_1376_2_format -> Prop) :
  b = hd ++ d ++ tl -> pos = Z.of_nat (length hd) -> (length d <= length (data s))%nat ->
  Q tt (set_data (d ++ drop (length d) (data s)) s) ->
  wp (for_loop (length d) 0 (fun i => x ← byte b (pos + i); put_data i x)) s Q.
Proof.
  intros -> -> Hl HQ.
  eapply wp_mono; [apply (wp_for_loop (fun k s' => s' =
    set_data (take k d ++ drop k (data s)) s))| ].
  - rewrite drop_0. by destruct s.
  - intros k s' Hk ->. destruct (lookup_lt_is_Some_2 d k Hk) as [x Hx].
    apply wp_bind, (wp_byte _ _ x); [|lia|].
    + replace (Z.to_nat _) with (length hd + k)%nat by lia.
      rewrite lookup_app_r, Nat.add_comm, Nat.add_sub, lookup_app_l by lia. done.
    + apply wp_put_data; simpl; [rewrite length_app, length_take, length_drop; lia|].
      replace (Z.to_nat (0 + Z.of_nat k)) with k by lia. unfold set_data. simpl. f_equal.
      rewrite (take_S_r _ _ x Hx), <- app_assoc. simpl.
      destruct (lookup_lt_is_Some_2 (data s) k ltac:(lia)) as [y Hy].
      rewrite (drop_S _ _ _ Hy), insert_app_r_alt by (rewrite length_take; lia).
      rewrite length_take, Nat.min_l by lia. by rewrite Nat.sub_diag.
  - intros [] s' ->. by rewrite firstn_all.
Qed.

Definition has_addr (info : Z) : bool := negb (Z.land info 0x04 =? 0).

(** The fields of a payload have their widths. *)
Definition payload_ok (ctrl info : Z) (gap : list Z) (idx : Z) (addrs : list Z)
    (a f : Z) (d : list Z) : Prop :=
  length gap = 4%nat /\ length addrs = (if has_addr info then 12 else 0)%nat /\
  is_u16 f /\ Z.of_nat (15 + length addrs + length d) < 2 ^ 16.

Lemma length_payload ctrl info gap idx addrs a f d :
  payload_ok ctrl info gap idx addrs a f d ->
  length (payload ctrl info gap idx addrs a f d) = (10 + length addrs + length d)%nat.
Proof. intros (Hg & _). unfold payload. app_len. Qed.

(** The struct a payload is decoded into; [datalen] is the length of the
    whole frame. *)
Definition decoded (info : Z) (addrs : list Z) (a f total : Z) (d : list Z)
    (s : s_1376_2_format) : s_1376_2_format :=
  mk_gdw (if has_addr info then 1 else 0)
    (if has_addr info then take 6 addrs else tn_addr s) a f total
    (d ++ drop (length d) (data s)).

Lemma decode_run b lo hi ctrl info gap idx addrs a f d y z rest inlen s :
  let p := payload ctrl info gap idx addrs a f d in
  b = [0x68; lo; hi] ++ p ++ [y; z] ++ rest ->
  payload_ok ctrl info gap idx addrs a f d -> is_u8 lo -> is_u8 hi ->
  lo + 256 * hi = Z.of_nat (length p) + 5 ->
  7 <= inlen -> module_flag s = 0 -> (length d <= length (data s))%nat ->
  wp (gdw_1376_2_decode (Some b) inlen) s (fun r s' =>
    r = (if negb (sum8 p =? y) then -2 else if negb (z =? 0x16) then -3 else 0) /\
    s' = decoded info addrs a f (lo + 256 * hi) d s).
Proof.
  intros p Hb Hok Hlo Hhi Htot Hin Hm Hd.
  pose proof (length_payload _ _ _ _ _ _ _ _ Hok) as Hp. fold p in Hp.
  pose proof Hok as (Hg & Ha & Hf & Hlen). change (2 ^ 16) with 65536 in Hlen.
  set (hd := [0x68; lo; hi; ctrl; info] ++ gap ++ [idx]).
  assert (b = hd ++ addrs ++ [a; f mod 256; f / 256] ++ d ++ [y; z] ++ rest) as Hb'.
  { rewrite Hb. unfold p, payload, hd. app_eq. }
  unfold gdw_1376_2_decode. rewrite (proj2 (Z.ltb_ge _ _)) by lia.
  apply wp_bind, (wp_byte_at [] 0x68 _ _ _ _ _ Hb); [done|]. simpl.
  apply wp_bind, (wp_byte_at [0x68] lo (hi :: p ++ [y; z] ++ rest)); [done|done|]. wp_steps.
  apply (wp_byte_at [0x68; lo] hi (p ++ [y; z] ++ rest)); [done|done|]. wp_steps. simpl.
  rewrite le16 by done.
  eapply (wp_byte_at [0x68; lo; hi; ctrl] info); [rewrite Hb'; unfold hd; app_eq|done|].
  fold (has_addr info).
  apply wp_bind, (wp_mono _ _ (fun _ s1 => s1 = set_module_flag (if has_addr info then 1 else 0)
    (set_datalen (lo + 256 * hi) s))).
  { apply wp_when; intros ->; [by apply wp_modify|]. by destruct s; simpl in *; subst. }
  intros [] s1 ->. wp_steps.
  apply (wp_mono _ _ (fun pos s2 => pos = 10 + Z.of_nat (length addrs) /\
    s2 = set_tn_addr (if has_addr info then take 6 addrs else tn_addr s)
      (set_module_flag (if has_addr info then 1 else 0) (set_datalen (lo + 256 * hi) s)))).
  { simpl. destruct (has_addr info); simpl.
    - apply wp_bind. eapply wp_deref; [apply buf_read_Some; rewrite ?Hb'; app_len|].
      wp_steps. split; [app_len|]. unfold set_tn_addr. f_equal.
      rewrite Hb', (drop_app_length' hd), take_app_le by app_len. done.
    - apply wp_ret. split; [app_len|]. by destruct s. }
  intros pos s2 (Hpos & ->). simpl.
  assert (length hd = 10)%nat as Hh by (unfold hd; app_len). clearbody hd.
  assert (length addrs <= 12)%nat as Ha' by (rewrite Ha; destruct (has_addr info); lia).
  assert (f mod 256 + 256 * (f / 256) = f) as Ef by (pose proof (Z.div_mod f 256); lia).
  apply wp_bind. eapply (wp_byte_at (hd ++ addrs) a); [rewrite Hb'; app_eq|app_len|]. wp_steps.
  eapply (wp_byte_at (hd ++ addrs ++ [a]) (f mod 256)); [rewrite Hb'; app_eq|app_len|].
  wp_steps.
  eapply (wp_byte_at (hd ++ addrs ++ [a; f mod 256]) (f / 256)); [rewrite Hb'; app_eq|app_len|].
  wp_steps. simpl. rewrite le16, Ef by (apply u16_halves; done).
  replace (u16 _) with (Z.of_nat (length d)) by (rewrite uwrap_small by c_lia; lia).
  rewrite Nat2Z.id.
  eapply (wp_read_data b (hd ++ addrs ++ [a; f mod 256; f / 256]) d ([y; z] ++ rest));
    [rewrite Hb'; app_eq|app_len|done|].
  wp_steps. simpl.
  rewrite (uwrap_small 16 (_ + _ + _)) by c_lia. rewrite uwrap_small by c_lia.
  rewrite sum_bytes_spec by (try done; rewrite ?Hb'; app_len).
  eapply wp_deref; [done|]. wp_steps.
  replace (take _ (drop (Z.to_nat 3) b)) with p; cycle 1.
  { rewrite Hb, (drop_app_length' [0x68; lo; hi]) by done.
    symmetry. apply take_app_length'. lia. }
  rewrite Z.add_0_l, uwrap_small by apply sum8_range.
  eapply (wp_byte_at (hd ++ addrs ++ [a; f mod 256; f / 256] ++ d) y);
    [rewrite Hb'; app_eq|app_len|].
  destruct (negb (_ =? y)); [by apply wp_ret|]. wp_steps.
  eapply (wp_byte_at (hd ++ addrs ++ [a; f mod 256; f / 256] ++ d ++ [y]) z);
    [rewrite Hb'; app_eq|app_len|].
  destruct (negb (z =? _)); by apply wp_ret.
Qed.

(** ** The decoder accepts the frames and nothing else *)

Lemma length_gframe p : length (frame p) = (length p + 5)%nat.
Proof. unfold frame. app_len. Qed.

Lemma frame_total (p : list Z) :
  Z.of_nat (length p) + 5 < 2 ^ 16 ->
  let total := Z.of_nat (length p) + 5 in
  is_u8 (total mod 256) /\ is_u8 (total / 256) /\
  total mod 256 + 256 * (total / 256) = total.
Proof.
  intros H total. split_and!.
  - apply Z.mod_pos_bound. lia.
  - apply u16_halves. unfold total. c_lia.
  - pose proof (Z.div_mod total 256). lia.
Qed.

Lemma decode_frame ctrl info gap idx addrs a f d rest inlen s :
  let p := payload ctrl info gap idx addrs a f d in
  payload_ok ctrl info gap idx addrs a f d -> 7 <= inlen ->
  module_flag s = 0 -> (length d <= length (data s))%nat ->
  wp (gdw_1376_2_decode (Some (frame p ++ rest)) inlen) s (fun r s' =>
    r = 0 /\ s' = decoded info addrs a f (Z.of_nat (length (frame p))) d s).
Proof.
  intros p Hok Hin Hm Hd.
  pose proof (length_payload _ _ _ _ _ _ _ _ Hok) as Hp. fold p in Hp.
  assert (Z.of_nat (length p) + 5 < 2 ^ 16) as Hlt.
  { destruct Hok as (_ & Ha & _ & Hl). rewrite Hp. c_lia. }
  destruct (frame_total p Hlt) as (Hlo & Hhi & Ht).
  set (total := Z.of_nat (length p) + 5) in *.
  eapply wp_mono; [apply (decode_run _ (total mod 256) (total / 256)
    ctrl info gap idx addrs a f d (sum8 p) 0x16 rest); try done|].
  { unfold frame. fold total. by rewrite <- !app_assoc. }
  intros r s' (-> & ->). rewrite Z.eqb_refl, Ht, length_gframe. split; [done|].
  f_equal. unfold total. lia.
Qed.

(** A buffer that reaches as far as its length field says, and whose length
    field covers the header, has the shape of a frame. *)
Lemma split_payload b lo hi info :
  b !! 1%nat = Some lo -> b !! 2%nat = Some hi -> b !! 4%nat = Some info ->
  is_u8 lo -> is_u8 hi -> Forall is_u8 b ->
  (if has_addr info then 27 else 15) <= lo + 256 * hi <= Z.of_nat (length b) ->
  exists h ctrl gap idx addrs a f d y z rest,
    let p := payload ctrl info gap idx addrs a f d in
    b = [h; lo; hi] ++ p ++ [y; z] ++ rest /\
    payload_ok ctrl info gap idx addrs a f d /\
    lo + 256 * hi = Z.of_nat (length p) + 5.
Proof.
  intros H1 H2 H4 Hlo Hhi Hu Ht.
  set (n := Z.to_nat (lo + 256 * hi - 5)).
  set (na := (if has_addr info then 12 else 0)%nat).
  assert (Z.of_nat n = lo + 256 * hi - 5) as Hn
    by (unfold n; destruct (has_addr info); lia).
  assert (na <= 12 /\ na + 10 <= n)%nat as [Hna Hna']
    by (unfold na; destruct (has_addr info); lia).
  do 10 (destruct b as [|? b]; [exfalso; simpl in Ht; destruct (has_addr info); lia|]).
  simpl in H1, H2, H4. simplify_eq. simpl in Ht.
  assert (b = take na b ++ drop na b) as Eb by (by rewrite take_drop).
  assert (length b >= n - 5)%nat as Hlb by lia.
  destruct (drop na b) as [|a [|f0 [|f1 r]]] eqn:Ed.
  1-3: exfalso; apply (f_equal length) in Ed; rewrite length_drop in Ed; simpl in Ed; lia.
  assert (length r = length b - na - 3)%nat as Hr.
  { apply (f_equal length) in Ed. rewrite length_drop in Ed. simpl in Ed. lia. }
  set (nd := (n - 10 - na)%nat).
  destruct (drop nd r) as [|y [|z' rest]] eqn:Er.
  1-2: exfalso; apply (f_equal length) in Er; rewrite length_drop in Er; simpl in Er; lia.
  rewrite !Forall_cons in Hu. destruct Hu as (_ & _ & _ & _ & _ & _ & _ & _ & _ & _ & Hu).
  rewrite Eb, Forall_app, !Forall_cons in Hu. destruct Hu as (_ & _ & Hf0 & Hf1 & _).
  destruct (bytes_of_le16 f0 f1 Hf0 Hf1) as [E0 E1].
  eexists _, _, [_; _; _; _], _, (take na b), a, (f0 + 256 * f1), (take nd r), y, z', rest.
  cbv zeta.
  match goal with |- _ /\ ?X /\ _ => assert X as Hok end.
  { split_and!; [done|rewrite length_take; unfold na; lia|c_lia|].
    rewrite !length_take. unfold nd. c_lia. }
  split; [|split; [exact Hok|]].
  - unfold payload. rewrite E0, E1. rewrite Eb at 1. simpl. do 10 f_equal.
    rewrite <- app_assoc. f_equal. simpl. do 3 f_equal.
    by rewrite <- (take_drop nd r) at 1; rewrite Er.
  - rewrite (length_payload _ _ _ _ _ _ _ _ Hok), !length_take. unfold nd. lia.
Qed.

Lemma take_declared t h lo hi (p : list Z) y z rest :
  t = Z.of_nat (length p) + 5 ->
  take (Z.to_nat t) ([h; lo; hi] ++ p ++ [y; z] ++ rest) = [h; lo; hi] ++ p ++ [y; z].
Proof.
  intros ->.
  replace ([h; lo; hi] ++ p ++ [y; z] ++ rest) with (([h; lo; hi] ++ p ++ [y; z]) ++ rest)
    by (by rewrite <- !app_assoc).
  apply take_app_length'. rewrite !length_app. simpl. lia.
Qed.

Lemma frame_inv b lo hi (p q : list Z) y z rest h :
  b = [h; lo; hi] ++ p ++ [y; z] ++ rest ->
  lo + 256 * hi = Z.of_nat (length p) + 5 ->
  take (Z.to_nat (lo + 256 * hi)) b = frame q ->
  h = 0x68 /\ p = q /\ y = sum8 p /\ z = 0x16.
Proof.
  intros -> Ht E.
  rewrite take_declared in E by done. unfold frame in E. simpl in E.
  injection E as -> _ _ E. apply app_inj_2 in E as [-> E]; [|done]. by simplify_eq.
Qed.

Lemma u16_of_halves f g :
  f mod 256 = g mod 256 -> f / 256 = g / 256 -> f = g.
Proof. intros. rewrite (Z.div_mod f 256), (Z.div_mod g 256) by lia. congruence. Qed.

(** The layout is unambiguous. *)
Lemma payload_inj info c1 g1 i1 s1 a1 f1 d1 c2 g2 i2 s2 a2 f2 d2 :
  payload_ok c1 info g1 i1 s1 a1 f1 d1 -> payload_ok c2 info g2 i2 s2 a2 f2 d2 ->
  payload c1 info g1 i1 s1 a1 f1 d1 = payload c2 info g2 i2 s2 a2 f2 d2 ->
  c1 = c2 /\ g1 = g2 /\ i1 = i2 /\ s1 = s2 /\ a1 = a2 /\ f1 = f2 /\ d1 = d2.
Proof.
  intros (Hg1 & Hs1 & _) (Hg2 & Hs2 & _) E. unfold payload in E. simpl in E.
  injection E as -> E. apply app_inj_1 in E as [-> E]; [|congruence]. simpl in E.
  injection E as -> E. apply app_inj_1 in E as [-> E]; [|congruence].
  injection E as -> E0 E1 ->. split_and!; try done. by apply u16_of_halves.
Qed.

(** C37. The decoder accepts exactly the frames: on a buffer of bytes that
    reaches as far as the length field says, with a length field that
    covers the header, it returns 0 if and only if the call says at least
    seven bytes and the declared bytes are a frame of the reference layout
    (the mark, the length, the payload, its checksum and the end mark); the
    struct then holds the module flag, the first address if there is one,
    the function codes and the data, and, in [datalen], the length of the
    whole frame. *)
Theorem gdw_decode_exact b inlen s lo hi info :
  b !! 1%nat = Some lo -> b !! 2%nat = Some hi -> b !! 4%nat = Some info ->
  Forall is_u8 b ->
  (if has_addr info then 27 else 15) <= lo + 256 * hi <= Z.of_nat (length b) ->
  module_flag s = 0 -> lo + 256 * hi - 15 <= Z.of_nat (length (data s)) ->
  wp (gdw_1376_2_decode (Some b) inlen) s (fun r s' =>
    (r = 0 <-> 7 <= inlen /\ exists p, take (Z.to_nat (lo + 256 * hi)) b = frame p) /\
    (r = 0 -> forall ctrl gap idx addrs a f d,
       payload_ok ctrl info gap idx addrs a f d ->
       take (Z.to_nat (lo + 256 * hi)) b = frame (payload ctrl info gap idx addrs a f d) ->
       s' = decoded info addrs a f (lo + 256 * hi) d s)).
Proof.
  intros H1 H2 H4 Hu Ht Hm Hroom.
  pose proof (Forall_lookup_1 _ _ _ _ Hu H1) as Hlo.
  pose proof (Forall_lookup_1 _ _ _ _ Hu H2) as Hhi.
  destruct (split_payload b lo hi info H1 H2 H4 Hlo Hhi Hu Ht)
    as (h & ctrl & gap & idx & addrs & a & f & d & y & z & rest & Hb & Hok & Htot).
  cbv zeta in *. set (p := payload ctrl info gap idx addrs a f d) in *.
  destruct (decide (7 <= inlen /\ h = 0x68)) as [[Hin ->]|Hbad]; cycle 1.
  { apply (wp_mono _ _ (fun r _ => r = -1)).
    - unfold gdw_1376_2_decode. destruct (Z.ltb_spec inlen 7); [by apply wp_ret|].
      apply wp_bind, (wp_byte_at [] h _ _ _ _ _ Hb); [done|].
      rewrite (proj2 (Z.eqb_neq h _)) by lia. by apply wp_ret.
    - intros r s' ->. split; [|done]. split; [done|]. intros (Hin & q & Hq).
      destruct (frame_inv _ _ _ _ _ _ _ _ _ Hb Htot Hq) as (-> & _). lia. }
  assert (length p = 10 + length addrs + length d)%nat as Hp by (by apply length_payload).
  eapply wp_mono; [apply (decode_run _ lo hi _ _ _ _ _ _ _ _ _ _ _ inlen _ Hb Hok); try done; lia|].
  clear Ht. intros r s' (-> & ->). fold p. split; [split|].
  - repeat case_match; try done. intros _. split; [done|]. exists p.
    rewrite !negb_false_iff, !Z.eqb_eq in *. subst y z.
    rewrite Hb, take_declared by done. unfold frame. rewrite <- Htot.
    by destruct (bytes_of_le16 lo hi Hlo Hhi) as [-> ->].
  - intros (_ & q & Hq). destruct (frame_inv _ _ _ _ _ _ _ _ _ Hb Htot Hq) as (_ & _ & -> & ->).
    by rewrite Z.eqb_refl.
  - intros _ ctrl' gap' idx' addrs' a' f' d' Hok' Hq.
    destruct (frame_inv _ _ _ _ _ _ _ _ _ Hb Htot Hq) as (_ & E & _).
    by destruct (payload_inj _ _ _ _ _ _ _ _ _ _ _ _ _ _ _ Hok Hok' E) as (_ & _ & _ & -> & -> & -> & ->).
Qed.

(** ** The encoder *)

Lemma wp_set_out_next w o n i x (Q : unit -> enc_st -> Prop) :
  i = Z.of_nat (length w) -> (length w < length o)%nat ->
  Q tt (mk_enc (written (w ++ [x]) o) n) -> wp (set_out i x) (mk_enc (written w o) n) Q.
Proof. intros. apply wp_zoom. by apply wp_put_next. Qed.

Lemma wp_set_out_again w o n i x (Q : unit -> enc_st -> Prop) :
  0 <= i < Z.of_nat (length w) ->
  Q tt (mk_enc (written (<[Z.to_nat i := x]> w) o) n) ->
  wp (set_out i x) (mk_enc (written w o) n) Q.
Proof. intros. apply wp_zoom. by apply wp_put_again. Qed.

Lemma wp_put_mem_next w o n i src k (Q : unit -> enc_st -> Prop) :
  i = Z.of_nat (length w) -> 0 <= k <= Z.of_nat (length src) ->
  i + k <= Z.of_nat (length o) ->
  Q tt (mk_enc (written (w ++ take (Z.to_nat k) src) o) n) ->
  wp (put_mem i src k) (mk_enc (written w o) n) Q.
Proof.
  intros Hi Hk Ho HQ. unfold wp, put_mem. simpl.
  rewrite memcpy_next by (done || lia). done.
Qed.

(** The address field the encoder writes. *)
Definition addr_field (sys : list Z) (s : s_1376_2_format) : list Z :=
  if module_flag s =? 0 then [] else take 6 sys ++ tn_addr s.

(** The payload the encoder writes into a buffer that held [o]. *)
Definition encoded (sys : list Z) (s : s_1376_2_format) (o : list Z) (idx : Z) (d : list Z)
  : list Z :=
  payload 0x41 (4 * module_flag s) (take 4 (drop 5 o)) idx (addr_field sys s) (afn s) (fn s) d.

Definition encodable (sys : list Z) (s : s_1376_2_format) (d pad : list Z) : Prop :=
  (module_flag s = 0 \/ module_flag s = 1) /\ (6 <= length sys)%nat /\
  length (tn_addr s) = 6%nat /\ is_u16 (fn s) /\
  data s = d ++ pad /\ datalen s = Z.of_nat (length d) /\ Z.of_nat (length d) + 27 < 2 ^ 16.

Lemma encode_payload_ok sys s o idx d pad :
  encodable sys s d pad -> (9 <= length o)%nat ->
  payload_ok 0x41 (4 * module_flag s) (take 4 (drop 5 o)) idx (addr_field sys s) (afn s) (fn s) d.
Proof.
  intros (Hm & Hsys & Ht & Hf & _ & _ & Hl) Ho. unfold addr_field.
  split_and!; [rewrite length_take, length_drop; lia| |done|].
  - destruct Hm as [-> | ->]; [done|]. simpl. rewrite length_app, length_take; lia.
  - destruct Hm as [-> | ->]; simpl; [c_lia|]. rewrite length_app, length_take. c_lia.
Qed.

(** The address field. *)
Lemma encode_addr_wp sys s o idx w0 :
  module_flag s = 0 \/ module_flag s = 1 -> (6 <= length sys)%nat -> length (tn_addr s) = 6%nat ->
  length w0 = 10%nat -> (10 + length (addr_field sys s) <= length o)%nat ->
  wp (if negb (module_flag s =? 0) then
        put_mem 10 sys 6;; put_mem 16 (tn_addr s) 6;; mret 22
      else mret 10) (mk_enc (written w0 o) idx) (fun pos e =>
    pos = Z.of_nat (10 + length (addr_field sys s)) /\
    e = mk_enc (written (w0 ++ addr_field sys s) o) idx).
Proof.
  intros Hm Hsys Ht Hw Ho. unfold addr_field in *. destruct Hm as [Hm|Hm]; rewrite Hm in *; simpl in *.
  - apply wp_ret. by rewrite app_nil_r.
  - rewrite length_app, length_take in *.
    apply wp_bind, wp_put_mem_next; [lia|lia|lia|].
    apply wp_bind, wp_put_mem_next; [rewrite length_app, length_take; lia|lia|lia|].
    apply wp_ret. split; [lia|]. rewrite (take_ge (tn_addr s)), <- app_assoc by lia. done.
Qed.

Lemma encode_writes sys s o idx d pad :
  let p := encoded sys s o idx d in
  encodable sys s d pad -> (length p + 5 <= length o)%nat ->
  wp (gdw_1376_2_encode sys (Some s)) (mk_enc o idx) (fun r e =>
    r = Z.of_nat (length p + 5) /\ e = mk_enc (written (frame p) o) (u8 (idx + 1))).
Proof.
  intros p Henc Ho.
  assert (9 <= length o)%nat as Ho9 by (unfold p, encoded, payload in Ho; revert Ho; app_len).
  pose proof (encode_payload_ok sys s o idx d pad Henc Ho9) as Hok.
  pose proof (length_payload _ _ _ _ _ _ _ _ Hok) as Hp. fold (encoded sys s o idx d) in Hp.
  fold p in Hp. destruct Henc as (Hm & Hsys & Ht & Hf & Hdata & Hlen & Hl).
  set (x := take 2 (drop 1 o)).
  assert (length x = 2%nat) as Hx by (unfold x; rewrite length_take, length_drop; lia).
  assert (length (take 4 (drop 5 o)) = 4%nat) as Hg by (rewrite length_take, length_drop; lia).
  assert (length (addr_field sys s) <= 12)%nat as Ha12
    by (unfold addr_field; case_match; [simpl; lia|rewrite length_app, length_take; lia]).
  unfold gdw_1376_2_encode. change o with (written [] o) at 1.
  apply wp_bind, wp_set_out_next; [done|simpl; lia|].
  cbn [app]. rewrite (written_skips [0x68] o 2) by (simpl; lia).
  change (length [0x68]) with 1%nat. fold x. clearbody x.
  do 2 (apply wp_bind, wp_set_out_next; [app_len|app_len|]).
  assert (u8 (Z.lor 0 (Z.shiftl (module_flag s) 2)) = 4 * module_flag s) as ->
    by (destruct Hm as [-> | ->]; done).
  rewrite (written_skips _ o 4) by app_len.
  replace (length ((([0x68] ++ x) ++ [0x41]) ++ [4 * module_flag s])) with 5%nat by app_len.
  apply wp_bind, wp_gets, wp_bind, wp_set_out_next; [app_len|app_len|].
  apply wp_bind, wp_modify. cbn [frameindex e_out].
  set (w0 := _ ++ [idx]).
  assert (length w0 = 10%nat) as Hw0 by (unfold w0; app_len).
  assert (w0 = [0x68] ++ x ++ [0x41; 4 * module_flag s] ++ take 4 (drop 5 o) ++ [idx]) as Ew0
    by (unfold w0; rewrite <- !app_assoc; done).
  clearbody w0.
  apply wp_bind. eapply wp_mono; [by apply encode_addr_wp; unfold p, encoded, payload in Ho; revert Ho; app_len|].
  intros pos e (Hpos & ->).
  do 3 (apply wp_bind, wp_set_out_next; [rewrite ?length_app; simpl; lia..|]).
  apply wp_bind, wp_put_mem_next;
    [rewrite !length_app; simpl; lia|rewrite Hdata, length_app; lia|rewrite ?length_app; lia|].
  rewrite Hdata, Hlen, Nat2Z.id, take_app_length, (shiftr_8 (fn s)), (land_255 (fn s)) by done.
  set (w := _ ++ d).
  assert (w = [0x68] ++ x ++ p) as Ew.
  { unfold w, p, encoded, payload. rewrite Ew0, <- !app_assoc. done. }
  assert (length w = 3 + length p)%nat as Hw by (rewrite Ew, !length_app; simpl; lia).
  clearbody w. rewrite (uwrap_small 16 (pos + 3 + _)) by c_lia. rewrite !uwrap_small by c_lia.
  apply wp_bind, wp_gets, wp_bind. cbn [e_out].
  rewrite sum_bytes_sum by (done || (unfold written; rewrite ?length_app, ?length_drop; lia)).
  eapply wp_deref; [done|].
  assert (take (Z.to_nat (pos + 3 + Z.of_nat (length d) - (1 + 2)))
    (drop (Z.to_nat (1 + 2)) (written w o)) = p) as ->.
  { unfold written. rewrite Ew, app_assoc, <- app_assoc, drop_app_length' by (rewrite length_app; simpl; lia).
    apply take_app_length'. lia. }
  rewrite Z.add_0_l, (land_255 (u16 _)).
  assert (u16 (foldr Z.add 0 p) mod 256 = sum8 p) as ->
    by (rewrite sum8_eq; unfold uwrap; apply Z.mod_mod_divide; by exists 256).
  apply wp_bind, wp_set_out_next; [lia|lia|].
  apply wp_bind, wp_set_out_next; [rewrite length_app; simpl; lia..|].
  apply wp_bind, wp_set_out_again; [rewrite !length_app; simpl; lia|].
  apply wp_bind, wp_set_out_again; [rewrite length_insert, !length_app; simpl; lia|].
  apply wp_ret. split; [lia|]. f_equal. f_equal. rewrite Ew. unfold frame.
  replace (Z.of_nat (length p) + 5) with (pos + 3 + Z.of_nat (length d) + 2) by lia.
  rewrite shiftr_8, land_255 by c_lia.
  destruct x as [|x0 [|x1 [|]]]; try done. simpl. by rewrite <- app_assoc.
Qed.

(** ** The assembler *)

(** What the assembler takes for a frame: the mark and the length of the
    whole, little end first. *)
Definition outer_frame (w : list Z) : Prop :=
  exists lo hi tl, w = 0x68 :: lo :: hi :: tl /\ is_u8 lo /\ is_u8 hi /\
    lo + 256 * hi = Z.of_nat (length w) /\ tl <> [].

Definition expect_1376 (total j : nat) : Z * Z :=
  if decide (j = 0)%nat then (0, 1)
  else if decide (j < 3)%nat then (1, Z.of_nat (3 - j))
  else (2, Z.of_nat (total - j)).

Section Assembler.
Context {D : Type} `{RxDeviceLaws D}.

Notation mid cap w := (assembling (D := D) (expect_1376 (length w)) cap w).

(** Waiting for the mark. *)
Lemma pack_1376_head_step cap w t bs (s s1 : pack_st D) Q :
  outer_frame w -> mid cap w t 0%nat s -> piece_read w bs 0 s s1 ->
  (forall s', pack_pending s' = pack_pending s1 -> mid cap w (S t) (length bs) s' ->
     Q (-1) s') ->
  wp pack_1376_head s1 Q.
Proof.
  intros (lo & hi & tl & Hw & Hlo & Hhi & Hlen & Htl) (Hnow & Hexp & Hroom & _) Hp HQ.
  destruct Hp as [_ _ Hb Pnow Pneed Pst Pcnt Proom Pbuf]. rewrite <- Proom in Hroom.
  injection Hexp as Hst Hn. rewrite Hn in *. unfold pack_1376_head. wp_steps. rewrite Pneed.
  destruct bs as [|x [|? ?]]; simpl in *; [| |lia].
  - wp_steps. apply HQ; [done|]. unfold assembling. split_and!; try done; simpl; try lia.
    by rewrite Pst, Hst, Pneed.
  - wp_steps. apply (wp_pack_byte w 1 1 _ _ 0x68); [done|done|lia|by rewrite Hw|].
    simpl. wp_steps. apply HQ; [done|]. unfold assembling. split_and!; try done; simpl; lia.
Qed.

(** The assembler meets the step contract of [poll_reassembles]. *)
Lemma pack_1376_step cap w :
  outer_frame w -> (length w <= cap)%nat ->
  frame_step (D := D) elec_dev_pack_1376_2_frame w (mid cap w) (assembled cap w).
Proof.
  intros Hof Hcap t j s rest HM Hj Ht Hpre.
  pose proof Hof as (lo & hi & tl & Hw & Hlo & Hhi & Hlen & Htl).
  assert (4 <= length w)%nat as Hw4 by (rewrite Hw; destruct tl; simpl; [done|lia]).
  assert (Z.of_nat (length w) < 65536) as Hw16 by c_lia.
  pose proof HM as (Hnow & Hexp & Hroom & Hbuf & Hcnt).
  unfold elec_dev_pack_1376_2_frame. apply wp_bind.
  eapply wp_piece_read; [exact HM|done|done|done| |exact Hpre|].
  { unfold expect_1376 in Hexp. repeat case_decide; injection Hexp; lia. }
  intros bs s1 Hp. pose proof Hp as [Hpend Hprog Hb Pnow Pneed Pst Pcnt Proom Pbuf].
  rewrite <- Proom in Hroom. apply wp_bind, wp_gets. rewrite Pst.
  unfold expect_1376 in Hexp. repeat case_decide; injection Hexp as Hst Hn; rewrite Hst; simpl.
  - subst j. wp_steps. eapply pack_1376_head_step; [done|done|done|].
    intros s' Hp' HM'. exists bs. rewrite Hp'. split_and!; [done|lia|done|].
    left. split_and!; [simpl; lia|done|done].
  - wp_steps. apply (wp_mono _ _ (fun _ s2 =>
      pack_pending s2 = pack_pending s1 /\ timoutcnt s2 = timoutcnt s1 /\
      mid cap w t (j + length bs) s2)).
    + apply wp_when.
      * intros E%Z.eqb_eq. assert (j + length bs = 3)%nat as E3 by lia. wp_steps.
        apply (wp_pack_byte w (j + length bs) 1 _ _ hi); [done|done|lia|by rewrite E3, Hw|].
        wp_steps. apply (wp_pack_byte w (j + length bs) 2 _ _ lo);
          [done|done|lia|by rewrite E3, Hw|].
        wp_steps. split; [done|]. split; [done|].
        unfold assembling. split_and!; simpl; try done; [|right; lia].
        unfold expect_1376. rewrite decide_False, decide_False by lia.
        f_equal. rewrite E, Pnow, E3. rewrite lor_le16 by done.
        rewrite uwrap_small by c_lia. lia.
      * intros E%Z.eqb_neq. split; [done|]. split; [done|].
        unfold assembling. split_and!; try done; [|right; lia].
        unfold expect_1376. rewrite decide_False, decide_True by lia.
        rewrite Pst, Hst, Pneed. f_equal. lia.
    + intros [] s2 (Hp2 & Hc2 & HM2). apply wp_bind.
      destruct HM2 as (Hnow2 & Hexp2 & Hroom2 & Hbuf2 & Hcnt2).
      apply wp_pack_count; [lia|]. wp_steps. exists bs.
      split_and!; [by rewrite Hpend, <- Hp2|lia|done|].
      left. unfold assembling. split_and!; try done; simpl; lia.
  - wp_steps. rewrite Pneed.
    destruct (Z.eqb_spec (need_len s - Z.of_nat (length bs)) 0) as [E|E].
    + unfold pack_complete. wp_steps. apply wp_pack_count; [simpl; lia|]. wp_steps.
      exists bs. split_and!; [done|lia|done|]. right.
      split_and!; try done; [lia|]. split_and!; simpl; try done.
      * rewrite Pnow. lia.
      * unfold out_buf in *. simpl. replace (length w) with (j + length bs)%nat by lia.
        rewrite Pbuf. rewrite take_ge by lia. done.
    + wp_steps. apply wp_pack_count; [lia|]. wp_steps.
      exists bs. split_and!; [done|lia|done|]. left. unfold assembling.
      split_and!; try done; simpl; try lia.
      unfold expect_1376. rewrite decide_False, decide_False by lia.
      rewrite Pst, Hst, Pneed. f_equal. lia.
Qed.

Lemma frameable_1376 cap w :
  outer_frame w -> (length w <= cap)%nat ->
  frameable (D := D) elec_dev_pack_1376_2_frame cap w w.
Proof.
  intros Hof Hcap. split.
  { destruct Hof as (lo & hi & tl & -> & _). simpl. lia. }
  eexists. split_and!; [by apply pack_1376_step| |].
  - intros. by apply assembling_arrive.
  - intros t s (Hst & Hneed & Hnow) Hc. unfold assembling. split_and!; try done; [|by left].
    by rewrite Hst, Hneed.
Qed.

(** Bytes between frames: anything but the mark, a preamble for instance. *)
Lemma skips_1376 x : x <> 0x68 -> skips (D := D) elec_dev_pack_1376_2_frame x.
Proof.
  intros Hx s rest (Hst & Hneed & Hnow) Hroom [fut Hpre].
  unfold elec_dev_pack_1376_2_frame. apply wp_bind.
  apply wp_pack_read; rewrite ?Hneed, ?Hnow; try done; try lia.
  intros bs d' Hp Hb Hprog.
  assert (bs = [] \/ bs = [x]) as Hbs.
  { destruct bs as [|y [|? ?]]; [by left| |simpl in Hb; lia].
    right. rewrite Hp in Hpre. simpl in Hpre. by simplify_eq. }
  assert (length (splice (out_buf s) 0 bs) = length (out_buf s)) as Hl.
  { apply length_splice. destruct Hbs as [-> | ->]; simpl; lia. }
  wp_steps. simpl. rewrite Hst. simpl. unfold pack_1376_head. wp_steps. simpl.
  destruct Hbs as [-> | ->]; simpl.
  - wp_steps. exists []. split_and!; try done. simpl. lia.
  - wp_steps. apply (wp_pack_byte [x] 1 1 _ _ x); [done|done|lia|done|].
    rewrite (proj2 (Z.eqb_neq x _)) by done. wp_steps.
    exists [x]. split_and!; done.
Qed.

Lemma frameable_between cap g w :
  Forall (fun x => x <> 0x68) g -> outer_frame w -> (length w <= cap)%nat ->
  frameable (D := D) elec_dev_pack_1376_2_frame cap (g ++ w) w.
Proof.
  intros Hg Hof Hcap.
  assert (0 < cap)%nat by (destruct Hof as (lo & hi & tl & -> & _); simpl in Hcap; lia).
  induction Hg as [|x g Hx Hg IH]; [by apply frameable_1376|].
  by apply frameable_skip; [|apply skips_1376|].
Qed.

(** C38. The assembler cuts the byte stream of the UART into frames and drops
    what lies between them: from rest, when the bytes pending and still to
    arrive are any number of frames (the mark, the length of the whole, at
    least one byte more, short enough for the buffer), each behind any bytes
    that are not the mark, and then anything, polling hands over exactly
    these frames in order, whatever pieces the bytes arrive in, and takes
    nothing of what follows.  The bound on the polls is the code's own
    timeout. *)
Theorem pack_1376_stream cap (fs : list (list Z * list Z)) cs n rest (s : pack_st D) :
  Forall (fun f => Forall (fun x => x <> 0x68) f.1 /\ outer_frame f.2 /\
                   (length f.2 <= cap)%nat) fs ->
  at_rest s -> length (out_buf s) = cap -> Forall is_u8 (concat cs) ->
  pack_pending s ++ concat cs = concat ((fun f => f.1 ++ f.2) <$> fs) ++ rest ->
  (length (concat ((fun f => f.1 ++ f.2) <$> fs)) <= n)%nat ->
  Z.of_nat (length cs + n) <= 10000 ->
  wp (poll_frames elec_dev_pack_1376_2_frame (length fs) (cs ++ replicate n [])) s
    (fun r s' => r = fs.*2 /\ at_rest s' /\ length (out_buf s') = cap /\
       exists later, pack_pending s' ++ concat later = rest).
Proof.
  intros Hfs Hr Hc Hu Hp Hn Ht.
  set (ls := (fun f => (f.1 ++ f.2, f.2)) <$> fs).
  assert (ls.*1 = (fun f => f.1 ++ f.2) <$> fs /\ ls.*2 = fs.*2 /\ length ls = length fs)
    as (E1 & E2 & E3).
  { unfold ls. rewrite <- !list_fmap_compose, length_fmap. done. }
  rewrite <- E3. eapply wp_mono; [apply (poll_stream _ cap ls _ _ _ rest); rewrite ?E1; try done|].
  - apply Forall_fmap. eapply Forall_impl; [exact Hfs|].
    intros f (Hg & Hof & Hcap). by apply frameable_between.
  - intros r s'. by rewrite E2.
Qed.
End Assembler.

(** ** Sending and receiving *)

(** The frame [elec_1376_2_send] puts on the line: the four bytes behind the
    information byte are whatever the heap block held there. *)
Definition sent_payload (junk main : list Z) (slave : option (list Z)) (a f idx : Z)
    (d : list Z) : list Z :=
  payload 0x41 (match slave with None => 0 | Some _ => 4 end) (take 4 (drop 1 junk)) idx
    (match slave with None => [] | Some sa => take 6 main ++ take 6 sa end) a f d.

Definition sendable (junk main : list Z) (slave : option (list Z)) (f : Z) (d : list Z) : Prop :=
  (252 <= length junk)%nat /\ (6 <= length main)%nat /\ is_u16 f /\
  match slave with
  | None => (length d <= 241)%nat
  | Some sa => (6 <= length sa)%nat /\ (length d <= 229)%nat
  end.

Lemma sent_payload_ok junk main slave a f idx d :
  sendable junk main slave f d ->
  payload_ok 0x41 (match slave with None => 0 | Some _ => 4 end) (take 4 (drop 1 junk)) idx
    (match slave with None => [] | Some sa => take 6 main ++ take 6 sa end) a f d /\
  (length (sent_payload junk main slave a f idx d) <= 251)%nat.
Proof.
  intros (Hj & Hm & Hf & Hd).
  assert (payload_ok 0x41 (match slave with None => 0 | Some _ => 4 end) (take 4 (drop 1 junk)) idx
    (match slave with None => [] | Some sa => take 6 main ++ take 6 sa end) a f d) as Hok.
  { split_and!; [rewrite length_take, length_drop; lia| |done|].
    - destruct slave as [sa|]; [|done]. simpl. rewrite length_app, !length_take. lia.
    - destruct slave as [sa|]; [rewrite length_app, !length_take; c_lia|simpl; c_lia]. }
  split; [done|]. unfold sent_payload. rewrite (length_payload _ _ _ _ _ _ _ _ Hok).
  destruct slave as [sa|]; [rewrite length_app, !length_take; lia|simpl; lia].
Qed.

Lemma send_writes junk main slave a f d s :
  sendable junk main slave f d ->
  wp (elec_1376_2_send true true junk main slave a f d (Z.of_nat (length d))) s (fun r s' =>
    let fr := frame (sent_payload junk main slave a f (s_index s) d) in
    r = Z.of_nat (length fr) /\
    s' = mk_send (u8 (s_index s + 1)) (s_tx s ++ [fr])).
Proof.
  intros Hsend. pose proof (sent_payload_ok junk main slave a f (s_index s) d Hsend) as [_ Hlen].
  destruct Hsend as (Hj & Hm & Hf & Hd).
  assert (length d <= 244)%nat as Hd244 by (destruct slave; lia).
  set (sendbuf := replicate 4 0 ++ take (Z.to_nat (ELEC_DEV_TRANS_MAX_LEN - 4)) junk).
  assert (length sendbuf = 256)%nat as Hsb.
  { unfold sendbuf. rewrite length_app, length_take, length_replicate.
    unfold ELEC_DEV_TRANS_MAX_LEN. lia. }
  assert (take 4 (drop 5 sendbuf) = take 4 (drop 1 junk)) as Hgap.
  { unfold sendbuf. rewrite drop_app_ge by (rewrite length_replicate; lia).
    rewrite length_replicate. apply list_eq. intros i. rewrite !lookup_take_decide.
    case_decide; [|done]. rewrite !lookup_drop. apply lookup_take_lt.
    unfold ELEC_DEV_TRANS_MAX_LEN. lia. }
  set (st := mk_gdw (match slave with None => 0 | Some _ => 1 end)
    (match slave with None => replicate 6 0 | Some sa => take 6 sa end) a f
    (Z.of_nat (length d)) (d ++ replicate (244 - length d) 0)).
  assert (encodable main st d (replicate (244 - length d) 0)) as Henc.
  { unfold st. destruct slave as [sa|]; split_and!; simpl; try done; try lia; auto;
      rewrite ?length_take; c_lia. }
  assert (encoded main st sendbuf (s_index s) d = sent_payload junk main slave a f (s_index s) d)
    as Ep.
  { unfold encoded, sent_payload, addr_field, st. rewrite Hgap.
    by destruct slave. }
  unfold elec_1376_2_send. cbn [negb].
  apply wp_bind, (wp_mono _ _ (fun g s' => s' = s /\ set_datalen (Z.of_nat (length d))
    (set_data (d ++ replicate (244 - length d) 0) (set_fn f (set_afn a g))) = st /\
    data g = replicate 244 0)).
  { destruct slave as [sa|]; [|done].
    apply wp_bind. eapply wp_deref; [apply buf_read_Some; lia|]. apply wp_ret. done. }
  intros g s' (-> & Hg & Hdata). cbn [data set_fn set_afn]. rewrite Hdata.
  rewrite memcpy_Some by (rewrite ?length_replicate; lia).
  apply wp_bind. eapply wp_deref; [done|]. cbv zeta.
  assert (splice (replicate 244 0) (Z.to_nat 0)
    (take (Z.to_nat (Z.of_nat (length d))) (drop (Z.to_nat 0) d))
    = d ++ replicate (244 - length d) 0) as ->.
  { rewrite Nat2Z.id. change (Z.to_nat 0) with 0%nat. rewrite drop_0, firstn_all.
    unfold splice. rewrite take_0, Nat.add_0_l, drop_replicate. done. }
  rewrite Hg. fold sendbuf. apply wp_bind, wp_gets, wp_bind.
  destruct (proj1 (wp_Some _ _ _) (encode_writes main st sendbuf (s_index s) d _ Henc
    ltac:(rewrite Ep, Hsb; lia))) as (r & e & E & -> & ->).
  rewrite E. eapply wp_deref; [done|]. rewrite Ep.
  set (fr := frame _). assert (length fr = length (sent_payload junk main slave a f (s_index s) d) + 5)%nat
    as Hfr by apply length_gframe.
  wp_steps. rewrite (proj2 (Z.ltb_lt 0 _)) by lia. wp_steps. cbn [frameindex s_tx e_out s_index].
  unfold elec_uart_write. rewrite (proj2 (Z.ltb_ge _ 1)) by lia.
  assert (length (written fr sendbuf) = 256)%nat as Hwr
    by (unfold written; rewrite length_app, length_drop; lia).
  rewrite buf_read_Some by lia. apply wp_bind. eapply wp_deref; [done|]. wp_steps.
  change (Z.to_nat 0) with 0%nat. rewrite drop_0, Nat2Z.id.
  rewrite <- Hfr. unfold written. rewrite take_app_length. split; [|done].
  apply swrap_small; [lia|]. change (2 ^ (32 - 1)) with 2147483648. lia.
Qed.

Lemma frame_outer (p : list Z) :
  Z.of_nat (length p) + 5 < 2 ^ 16 -> outer_frame (frame p).
Proof.
  intros Hp. destruct (frame_total p Hp) as (Hlo & Hhi & Ht).
  eexists _, _, (p ++ [sum8 p; 0x16]). split; [done|].
  rewrite length_gframe. split_and!; [done|done|lia|]. by destruct p.
Qed.

Lemma precode_at_mark tl n : (0 < n)%nat -> precode_scan (0x68 :: tl) n 0 = Some 0.
Proof. destruct n; [lia|done]. Qed.

(** A frame at the head of the receive buffer is decoded into the caller's. *)
Lemma parse_frame_ok ctrl info gap idx addrs a f d rest st :
  let p := payload ctrl info gap idx addrs a f d in
  payload_ok ctrl info gap idx addrs a f d -> (length d <= 244)%nat ->
  wp (elec_dev_parse_1376_2_frame true (frame p ++ rest) (Z.of_nat (length (frame p)))) st
    (fun r st' => r = 0 /\ st' = decoded info addrs a f (Z.of_nat (length (frame p))) d
                                    (gdw_block ELEC_DEV_TRANS_MAX_LEN)).
Proof.
  intros p Hok Hd. unfold elec_dev_parse_1376_2_frame.
  pose proof (length_payload _ _ _ _ _ _ _ _ Hok) as Hp. fold p in Hp.
  pose proof (length_gframe p) as Hl.
  assert (Z.of_nat (length (frame p)) < 2 ^ 16) as Hlt.
  { destruct Hok as (_ & _ & _ & H). rewrite Hl. c_lia. }
  apply wp_bind. eapply wp_deref.
  { unfold gdw1376_2_precode_detect. rewrite Nat2Z.id. apply precode_at_mark. lia. }
  simpl (0 <=? 0). cbv iota. change (Z.to_nat 0) with 0%nat. rewrite drop_0, Z.sub_0_r.
  rewrite uwrap_small by c_lia.
  destruct (proj1 (wp_Some _ _ _) (decode_frame ctrl info gap idx addrs a f d rest
    (Z.of_nat (length (frame p))) (gdw_block ELEC_DEV_TRANS_MAX_LEN) Hok
    ltac:(lia) eq_refl Hd)) as (r & s' & E & -> & ->).
  fold p in E. rewrite E. done.
Qed.

(** C6. End to end: what [elec_1376_2_send] writes to the UART is one frame
    with the next value of the frame counter, and a peer at rest receives it
    however the line cuts it and whatever bytes other than the mark come
    before: its assembler hands over the frame, its parser accepts it and
    returns the function codes and the data, with the sender's address when
    a slave was addressed. *)
Theorem gdw_send_received {D} `{RxDeviceLaws D} junk main slave a f d s :
  sendable junk main slave f d ->
  wp (elec_1376_2_send true true junk main slave a f d (Z.of_nat (length d))) s (fun r s' =>
    exists fr, r = Z.of_nat (length fr) /\
    s' = mk_send (u8 (s_index s + 1)) (s_tx s ++ [fr]) /\
    forall g cs rest n (rx : pack_st D) st,
      Forall (fun x => x <> 0x68) g -> at_rest rx ->
      Z.of_nat (length (out_buf rx)) = ELEC_DEV_TRANS_MAX_LEN ->
      Forall is_u8 (concat cs) -> pack_pending rx ++ concat cs = (g ++ fr) ++ rest ->
      (length (g ++ fr) <= n)%nat -> Z.of_nat (length cs + n) <= 10000 ->
      wp (poll_frame elec_dev_pack_1376_2_frame (cs ++ replicate n [])) rx (fun p rx' =>
        p <> None /\ at_rest rx' /\
        wp (elec_dev_parse_1376_2_frame true (out_buf rx') (pk_len rx')) st (fun r' st' =>
          r' = 0 /\
          st' = mk_gdw (match slave with None => 0 | Some _ => 1 end)
                  (match slave with None => replicate 6 0 | Some _ => take 6 main end)
                  a f r (d ++ replicate (244 - length d) 0)))).
Proof.
  intros Hsend. eapply wp_mono; [by apply send_writes|].
  destruct (sent_payload_ok junk main slave a f (s_index s) d Hsend) as [Hok Hlen].
  cbv zeta. set (p := sent_payload junk main slave a f (s_index s) d) in *.
  intros r s' (-> & ->). exists (frame p). split; [done|]. split; [done|].
  intros g cs rest n rx st Hg Hrest Hcap Hu Hp Hn Ht.
  unfold ELEC_DEV_TRANS_MAX_LEN in Hcap.
  pose proof (length_gframe p) as Hfl.
  destruct (frameable_between 256 g (frame p) Hg (frame_outer p ltac:(c_lia)) ltac:(lia))
    as (Hpos & Mid & Hstep & Harr & Hstart).
  eapply wp_mono.
  { apply (poll_reassembles _ (g ++ frame p) Mid _ cs n 0 0 rx rest Hstep Harr); try done; try lia.
    apply Hstart; [done|lia]. }
  intros q rx' (cs' & n' & -> & (_ & Hl & Hbuf & Hr') & _). split_and!; [done|done|].
  rewrite Hl, <- (take_drop (length (frame p)) (out_buf rx')), Hbuf.
  eapply wp_mono; [eapply parse_frame_ok; [exact Hok|]|].
  { destruct Hsend as (_ & _ & _ & Hd). destruct slave; lia. }
  intros r' st' (-> & ->). split; [done|]. fold p. unfold decoded, gdw_block. cbn [data tn_addr].
  change (Z.to_nat (ELEC_DEV_TRANS_MAX_LEN - 12)) with 244%nat.
  rewrite drop_replicate. destruct slave as [sa|]; [|done].
  simpl has_addr. cbv iota. f_equal.
  destruct Hsend as (_ & Hm & _). rewrite take_app_le, take_take by (rewrite length_take; lia).
  done.
Qed.

(** ** Concrete runs *)

Definition demo_main : list Z := [0x11; 0x22; 0x33; 0x44; 0x55; 0x66].
Definition demo_slave : list Z := [1; 2; 3; 4; 5; 6].
Definition demo_junk : list Z := replicate 252 0xA5.
Definition demo_rx : pack_st (list Z) := mk_pack (replicate 256 0, []) 0 0 0 1 0.

Definition demo_frame : list Z :=
  frame (payload 0x41 4 [0; 0; 0; 0] 7 (demo_main ++ demo_slave) 0x03 0x0102 [9; 8]).

Lemma gdw_decode_exact_witness :
  exists r s', gdw_1376_2_decode (Some demo_frame) 29 (gdw_block 256) = Some (r, s') /\
    r = 0 /\ fn s' = 0x0102 /\ tn_addr s' = demo_main.
Proof.
  destruct (proj1 (wp_Some _ _ _) (gdw_decode_exact demo_frame 29 (gdw_block 256) 29 0 4
    eq_refl eq_refl eq_refl ltac:(repeat constructor; vm_compute; congruence)
    ltac:(vm_compute; split; congruence) eq_refl ltac:(vm_compute; congruence)))
    as (r & s' & E & Hr & Hs).
  exists r, s'. split; [exact E|].
  assert (r = 0) as Hr0.
  { apply Hr. split; [vm_compute; congruence|].
    exists (payload 0x41 4 [0; 0; 0; 0] 7 (demo_main ++ demo_slave) 0x03 0x0102 [9; 8]).
    reflexivity. }
  split; [exact Hr0|].
  rewrite (Hs Hr0 0x41 [0; 0; 0; 0] 7 (demo_main ++ demo_slave) 0x03 0x0102 [9; 8]
    ltac:(split_and!; vm_compute; try lia; try split; congruence) eq_refl).
  split; reflexivity.
Defined.

Lemma pack_1376_stream_witness :
  let w := demo_frame in
  exists s', poll_frames elec_dev_pack_1376_2_frame 2
    ([[0xFE; 0xFE]; take 3 w; drop 3 w ++ [0] ++ w ++ [9]] ++ replicate 70 []) demo_rx
    = Some ([w; w], s').
Proof.
  intros w.
  assert (outer_frame w) as Hw.
  { eexists 29, 0, _. split; [reflexivity|]. split_and!; vm_compute; try done; split; congruence. }
  destruct (proj1 (wp_Some _ _ _) (pack_1376_stream 256 [([0xFE; 0xFE], w); ([0], w)]
    [[0xFE; 0xFE]; take 3 w; drop 3 w ++ [0] ++ w ++ [9]] 70 [9] demo_rx
    ltac:(repeat (apply Forall_cons_2 || apply Forall_nil_2 || split); simpl;
          first [exact Hw|vm_compute; congruence|vm_compute; lia])
    ltac:(repeat split) eq_refl ltac:(apply (bool_decide_unpack _); vm_compute; exact I) eq_refl
    ltac:(vm_compute; lia) ltac:(vm_compute; congruence))) as (r & s' & E & -> & _).
  exists s'. exact E.
Defined.

Lemma gdw_send_received_witness :
  exists r s', elec_1376_2_send true true demo_junk demo_main (Some demo_slave) 0x03 0x0102
      [9; 8] 2 (mk_send 255 []) = Some (r, s') /\
    r = 29 /\ s_index s' = 0 /\
    exists fr, s_tx s' = [fr] /\
    exists p rx', poll_frame elec_dev_pack_1376_2_frame
      ([[0xFE]; take 5 fr; drop 5 fr] ++ replicate 30 []) demo_rx = Some (p, rx') /\ p <> None.
Proof.
  destruct (proj1 (wp_Some _ _ _) (gdw_send_received (D := list Z) demo_junk demo_main
    (Some demo_slave) 0x03 0x0102 [9; 8] (mk_send 255 [])
    ltac:(split_and!; vm_compute; try lia; split; congruence)))
    as (r & s' & E & fr & Hr & -> & H).
  exists r, (mk_send (u8 (255 + 1)) ([] ++ [fr])). split; [exact E|].
  vm_compute in E. injection E as <- <-.
  split; [reflexivity|]. split; [reflexivity|]. eexists. split; [reflexivity|].
  match goal with |- context [take 5 ?fr] =>
    specialize (H [0xFE] [[0xFE]; take 5 fr; drop 5 fr] [] 30%nat demo_rx (gdw_block 256)
      ltac:(repeat constructor; vm_compute; congruence) ltac:(repeat split) eq_refl
      ltac:(apply (bool_decide_unpack _); vm_compute; exact I) eq_refl
      ltac:(vm_compute; lia) ltac:(vm_compute; congruence)) end.
  destruct (proj1 (wp_Some _ _ _) H) as (p & rx' & E & Hp & _).
  exists p, rx'. split; [exact E|exact Hp].
Defined.

(** A frame that declares seven bytes is shorter than the header; the 16-bit
    length of its data unit wraps round to 65530 and the decoder copies far
    past the receive buffer and the heap block, although the assembler has
    accepted the frame. *)
Theorem gdw_short_frame_faults :
  exists rx', poll_frame elec_dev_pack_1376_2_frame
      ([0x68; 7; 0; 0x41; 0; 0x41; 0x16] :: replicate 7 []) demo_rx
    = Some (Some (replicate 5 []), rx') /\ pk_len rx' = 7 /\
    elec_dev_parse_1376_2_frame true (out_buf rx') (pk_len rx') (gdw_block 256) = None.
Proof. eexists. split; [vm_compute; reflexivity|]. split; vm_compute; reflexivity. Qed.

(** The assembler trusts the length field: a frame that declares more than
    the 256 bytes of [recv_buf] is stored past its end. *)
Theorem pack_1376_overruns :
  outer_frame ([0x68; 0x2c; 1] ++ replicate 297 0) /\
  poll_frame elec_dev_pack_1376_2_frame
    (([0x68; 0x2c; 1] ++ replicate 297 0) :: replicate 7 []) demo_rx = None.
Proof.
  split; [|vm_compute; reflexivity].
  eexists _, _, _. split; [reflexivity|]. split_and!; vm_compute; try done; split; congruence.
Qed.

End Gdw.
