(* ===== verification/WgPhase.v ===== *)
(** * The concentrator application: node phases and the PLC module

    Model of [rt-thread/components/elec_dev/elec_cco_app/wg_phase.c] and of
    the message dispatch in [elec_cco_api/elec_cco_api.c].

    The state [wg] holds the file's static variables, the heap cells of the
    node list (locations are positives, the list is linked through [next]
    from [node_header]), the encoder's counter with what has left the UART,
    and the answers the allocator still has to give: every call of
    [rt_malloc] takes one ([None] is a null pointer, [Some junk] a block with
    its previous contents).  [w_live] counts the blocks that are allocated.
    [rt_kprintf] and [rt_thread_mdelay] do not touch this state. *)
From stdpp Require Import base list gmap.
From Stdlib Require Import ZArith Lia.
From S2P Require Import Prelude ElecDrv Gdw1376.
Import Drv.

Module Wg.

(** [FN(n)] *)
Definition FN (n : Z) : Z :=
  Z.lor (Z.shiftl ((n - 1) / 8) 8) (Z.shiftl 1 ((n - 1) mod 8)).

Definition GDW1376_2_AFN_CONFIRM_0x00 : Z := 0x00.
Definition GDW1376_2_AFN_TRANSFER_0x02 : Z := 0x02.
Definition GDW1376_2_AFN_QUERY_0x03 : Z := 0x03.
Definition GDW1376_2_AFN_LINK_CHK_0x04 : Z := 0x04.
Definition GDW13766_2_AFN_CTRL_CMD_0x05 : Z := 0x05.
Definition GDW1376_2_AFN_ACTIVE_REPROT_0x06 : Z := 0x06.
Definition GDW1376_2_AFN_ROUTER_QUERY_0x10 : Z := 0x10.
Definition GDW1376_2_AFN_TEST_0xF0 : Z := 0xF0.

Record s_wg_phase := mk_node {
  node_id : list Z;              (* rt_uint8_t[6] *)
  phase : Z;                     (* rt_uint8_t *)
  loop : Z;                      (* rt_uint8_t *)
  refresh : Z;                   (* rt_uint8_t *)
  next : option positive
}.

Record s_wg_node_info := mk_info {
  total : Z;                     (* rt_uint16_t *)
  index : Z;                     (* rt_uint16_t *)
  ack_num : Z;                   (* rt_uint16_t *)
  module_test_flag : Z           (* rt_uint8_t *)
}.

Record wg := mk_wg {
  w_heap : gmap positive s_wg_phase;
  w_brk : positive;                      (* the next unused location *)
  w_mem : list (option (list Z));        (* answers of rt_malloc to come *)
  w_live : Z;                            (* blocks allocated and not freed *)
  node_header : option positive;
  plc_detect_flag : Z;                   (* rt_uint8_t *)
  wg_plc_detect_cnt : Z;                 (* rt_uint8_t *)
  sys_addr : list Z;
  wg_node_info : s_wg_node_info;
  read_cycle : Z;                        (* rt_uint32_t *)
  detect_cycle : Z;                      (* rt_uint32_t *)
  last_plc_state : Z;                    (* rt_uint8_t *)
  w_send : Gdw.send_st;
  w_reports : list (list Z)              (* arguments of report_node_belong_info *)
}.

Definition with_heap h b m l w :=
  mk_wg h b m l (node_header w) (plc_detect_flag w) (wg_plc_detect_cnt w) (sys_addr w)
    (wg_node_info w) (read_cycle w) (detect_cycle w) (last_plc_state w) (w_send w) (w_reports w).
Definition set_heap h w := with_heap h (w_brk w) (w_mem w) (w_live w) w.
Definition set_header p w :=
  mk_wg (w_heap w) (w_brk w) (w_mem w) (w_live w) p (plc_detect_flag w) (wg_plc_detect_cnt w)
    (sys_addr w) (wg_node_info w) (read_cycle w) (detect_cycle w) (last_plc_state w) (w_send w)
    (w_reports w).
Definition set_flag x w :=
  mk_wg (w_heap w) (w_brk w) (w_mem w) (w_live w) (node_header w) x (wg_plc_detect_cnt w)
    (sys_addr w) (wg_node_info w) (read_cycle w) (detect_cycle w) (last_plc_state w) (w_send w)
    (w_reports w).
Definition set_detect_cnt x w :=
  mk_wg (w_heap w) (w_brk w) (w_mem w) (w_live w) (node_header w) (plc_detect_flag w) x
    (sys_addr w) (wg_node_info w) (read_cycle w) (detect_cycle w) (last_plc_state w) (w_send w)
    (w_reports w).
Definition set_info x w :=
  mk_wg (w_heap w) (w_brk w) (w_mem w) (w_live w) (node_header w) (plc_detect_flag w)
    (wg_plc_detect_cnt w) (sys_addr w) x (read_cycle w) (detect_cycle w) (last_plc_state w)
    (w_send w) (w_reports w).
Definition set_read_cycle x w :=
  mk_wg (w_heap w) (w_brk w) (w_mem w) (w_live w) (node_header w) (plc_detect_flag w)
    (wg_plc_detect_cnt w) (sys_addr w) (wg_node_info w) x (detect_cycle w) (last_plc_state w)
    (w_send w) (w_reports w).
Definition set_detect_cycle x w :=
  mk_wg (w_heap w) (w_brk w) (w_mem w) (w_live w) (node_header w) (plc_detect_flag w)
    (wg_plc_detect_cnt w) (sys_addr w) (wg_node_info w) (read_cycle w) x (last_plc_state w)
    (w_send w) (w_reports w).
Definition set_last_plc_state x w :=
  mk_wg (w_heap w) (w_brk w) (w_mem w) (w_live w) (node_header w) (plc_detect_flag w)
    (wg_plc_detect_cnt w) (sys_addr w) (wg_node_info w) (read_cycle w) (detect_cycle w) x
    (w_send w) (w_reports w).
Definition set_send x w :=
  mk_wg (w_heap w) (w_brk w) (w_mem w) (w_live w) (node_header w) (plc_detect_flag w)
    (wg_plc_detect_cnt w) (sys_addr w) (wg_node_info w) (read_cycle w) (detect_cycle w)
    (last_plc_state w) x (w_reports w).
Definition add_report x w :=
  mk_wg (w_heap w) (w_brk w) (w_mem w) (w_live w) (node_header w) (plc_detect_flag w)
    (wg_plc_detect_cnt w) (sys_addr w) (wg_node_info w) (read_cycle w) (detect_cycle w)
    (last_plc_state w) (w_send w) (w_reports w ++ [x]).

(** ** Memory *)

(** The next answer of [rt_malloc]. *)
Definition rt_malloc : M wg (option (list Z)) := fun w =>
  match w_mem w with
  | [] => Some (None, w)
  | None :: m => Some (None, with_heap (w_heap w) (w_brk w) m (w_live w) w)
  | Some junk :: m => Some (Some junk, with_heap (w_heap w) (w_brk w) m (w_live w + 1) w)
  end.

(** [rt_free] of a block that is not a node. *)
Definition rt_free_block : M wg unit :=
  modify (fun w => with_heap (w_heap w) (w_brk w) (w_mem w) (w_live w - 1) w).

Definition get_node (p : positive) : M wg s_wg_phase := fun w =>
  match w_heap w !! p with Some n => Some (n, w) | None => None end.
Definition put_node (p : positive) (n : s_wg_phase) : M wg unit :=
  modify (fun w => set_heap (<[p := n]> (w_heap w)) w).

(** A node block: a cell of the heap, cleared. *)
Definition node_malloc : M wg (option positive) :=
  r ← rt_malloc;
  match r with
  | None => mret None
  | Some _ =>
      p ← gets w_brk;
      modify (fun w => with_heap (<[p := mk_node (replicate 6 0) 0 0 0 None]> (w_heap w))
                         (p + 1)%positive (w_mem w) (w_live w) w);;
      mret (Some p)
  end.

(** A freed node is gone: an access to it is a fault. *)
Definition node_free (p : positive) : M wg unit := fun w =>
  match w_heap w !! p with
  | None => None
  | Some _ => Some (tt, with_heap (delete p (w_heap w)) (w_brk w) (w_mem w) (w_live w - 1) w)
  end.

(** ** The node list *)

Definition wg_del_node_id (p : positive) : M wg unit :=
  n ← get_node p;
  put_node p (mk_node (replicate 6 0) (phase n) (loop n) (refresh n) (next n)).

Definition wg_node_create (id : list Z) (ph : Z) : M wg (option positive) :=
  r ← node_malloc;
  match r with
  | None => mret None
  | Some p =>
      id6 ← deref (buf_read id 0 6);
      put_node p (mk_node id6 0 0 0 None);;
      if decide (id6 = replicate 6 0) then mret None else
      n ← get_node p;
      put_node p (if negb (phase n =? ph)
                  then mk_node (node_id n) ph (loop n) 1 (next n)
                  else mk_node (node_id n) (phase n) (loop n) 0 (next n));;
      n ← get_node p;
      put_node p (mk_node (node_id n) (phase n) (loop n) (refresh n) None);;
      mret (Some p)
  end.

(** The loops over the list run at most once per heap cell and once more. *)
Definition list_fuel (w : wg) : nat := S (size (w_heap w)).

Fixpoint last_node (fuel : nat) (p : positive) : M wg positive :=
  match fuel with
  | O => fault
  | S fuel =>
      n ← get_node p;
      match next n with None => mret p | Some q => last_node fuel q end
  end.

Definition wg_node_insert (new_p : option positive) : M wg unit :=
  h ← gets node_header;
  p ← deref h;
  fuel ← gets list_fuel;
  q ← last_node fuel p;
  n ← get_node q;
  put_node q (mk_node (node_id n) (phase n) (loop n) (refresh n) new_p).

(** [id] is the six bytes at the pointer, if they lie in a buffer; they are
    read when a node is compared. *)
Fixpoint find_from (fuel : nat) (p : positive) (id : option (list Z)) : M wg (option positive) :=
  match fuel with
  | O => fault
  | S fuel =>
      n ← get_node p;
      match next n with
      | None => mret None
      | Some q =>
          m ← get_node q;
          id6 ← deref id;
          if decide (node_id m = id6) then mret (Some q) else find_from fuel q id
      end
  end.

Definition wg_node_find_base_id (id : option (list Z)) : M wg (option positive) :=
  h ← gets node_header;
  p ← deref h;
  fuel ← gets list_fuel;
  find_from fuel p id.

Fixpoint del_from (fuel : nat) (p del_p : positive) : M wg unit :=
  match fuel with
  | O => fault
  | S fuel =>
      n ← get_node p;
      match next n with
      | None => mret tt
      | Some q =>
          when (bool_decide (q = del_p))
            (d ← get_node del_p;
             put_node p (mk_node (node_id n) (phase n) (loop n) (refresh n) (next d));;
             wg_del_node_id del_p;;
             node_free del_p);;
          del_from fuel q del_p
      end
  end.

Definition wg_node_del (del_p : positive) : M wg unit :=
  h ← gets node_header;
  p ← deref h;
  fuel ← gets list_fuel;
  del_from fuel p del_p.

Definition wg_node_init : M wg unit :=
  r ← node_malloc;
  modify (set_header r).

(** ** Detection of the PLC module *)

Definition plc_detect_flag_query : M wg Z := gets plc_detect_flag.

Definition plc_detect_flag_set : M wg unit :=
  modify (set_flag 1);; modify (set_detect_cnt 0).

Definition plc_detect_flag_clr : M wg unit := modify (set_flag 0).

(** [elec_1376_2_send] with the allocator of this state. *)
Definition send_1376 (afn fn : Z) (d : list Z) : M wg Z :=
  addr ← gets sys_addr;
  b1 ← rt_malloc;
  match b1 with
  | None => zoom w_send set_send
              (Gdw.elec_1376_2_send false false [] addr None afn fn d (Z.of_nat (length d)))
  | Some _ =>
      b2 ← rt_malloc;
      r ← zoom w_send set_send
            (Gdw.elec_1376_2_send true (bool_decide (is_Some b2)) (default [] b2)
               addr None afn fn d (Z.of_nat (length d)));
      when (bool_decide (is_Some b2)) rt_free_block;;
      rt_free_block;;
      mret r
  end.

(** ** Node information *)

Definition U16ToBuf_little_endian (x : Z) : list Z :=
  [Z.land (Z.shiftr x 0) 0xff; Z.land (Z.shiftr x 8) 0xff].

Fixpoint ack_loop (n : nat) (pos : Z) (nodeinfo : list Z) : M wg unit :=
  match n with
  | O => mret tt
  | S n =>
      p ← wg_node_find_base_id (buf_read nodeinfo pos 6);
      match p with
      | None => mret tt
      | Some p =>
          m ← get_node p;
          put_node p (mk_node (node_id m) (phase m) (loop m) 0 (next m))
      end;;
      ack_loop n (u16 (pos + 6)) nodeinfo
  end.

Definition recv_node_belong_info_ack (nodeinfo : list Z) (infolen : Z) : M wg unit :=
  n ← byte nodeinfo 0;
  ack_loop (Z.to_nat n) 1 nodeinfo.

Definition report_node_belong_info (nodeinfo : list Z) (infolen : Z) : M wg Z :=
  modify (add_report nodeinfo);; mret 0.

(** The loop of the upload: the report so far, its length and the number of
    nodes in it. *)
Fixpoint upload_from (fuel : nat) (p : positive) (info : list Z) (pos node_cnt : Z)
  : M wg (list Z * Z * Z) :=
  match fuel with
  | O => fault
  | S fuel =>
      n ← get_node p;
      match next n with
      | None => mret (info, pos, node_cnt)
      | Some q =>
          m ← get_node q;
          if refresh m =? 1 then
            info ← deref (memcpy info pos (node_id m) 0 6);
            info ← deref (wr info (u8 (pos + 6)) (phase m));
            info ← deref (wr info (u8 (pos + 7)) (loop m));
            let pos := u8 (pos + 16) in
            let node_cnt := u8 (node_cnt + 1) in
            if 20 <=? node_cnt then mret (info, pos, node_cnt)
            else upload_from fuel q info pos node_cnt
          else upload_from fuel q info pos node_cnt
      end
  end.

Definition wg_plc_node_info_upload : M wg unit :=
  h ← gets node_header;
  r ← rt_malloc;
  match r with
  | None => mret tt
  | Some _ =>
      p ← deref h;
      fuel ← gets list_fuel;
      '(info, pos, node_cnt) ← upload_from fuel p (replicate 200 0) 1 0;
      when (0 <? node_cnt)
        (info ← deref (wr info 0 node_cnt);
         report_node_belong_info info pos;; mret tt)
  end.

(** A reported node: refresh it if its phase has changed, create it if it is
    not in the list. *)
Definition recv_entry (nodeid : list Z) (ph : Z) : M wg unit :=
  p2 ← wg_node_find_base_id (Some nodeid);
  match p2 with
  | Some p2 =>
      m ← get_node p2;
      when (negb (phase m =? ph))
        (put_node p2 (mk_node (node_id m) ph (loop m) 1 (next m)))
  | None =>
      p1 ← wg_node_create nodeid ph;
      match p1 with
      | None => mret tt
      | Some p1 => wg_node_insert (Some p1)
      end
  end.

(** One entry of a node report: six bytes of address, one unused, one with
    the phase; [pos] is 8-bit. *)
Fixpoint recv_loop (n : nat) (pos : Z) (data : list Z) : M wg unit :=
  match n with
  | O => mret tt
  | S n =>
      nodeid ← deref (buf_read data pos 6);
      let pos := u8 (pos + 7) in
      x ← byte data pos;
      let ph := Z.land x 0x07 in
      let pos := u8 (pos + 1) in
      recv_entry nodeid ph;;
      recv_loop n pos data
  end.

Definition wg_plc_recv_node_info (fn : Z) (data : list Z) (datalen : Z) : M wg unit :=
  if fn =? FN 9 then
    lo ← byte data 0;
    hi ← byte data 1;
    modify (fun w => let i := wg_node_info w in
      set_info (mk_info (u16 (Z.lor (Z.shiftl hi 8) lo)) (index i) (ack_num i)
                  (module_test_flag i)) w);;
    i ← gets wg_node_info;
    when (0 <? total i)
      (modify (set_info (mk_info (total i) (index i) (ack_num i) 1)))
  else
    lo ← byte data 0;
    hi ← byte data 1;
    n ← byte data 2;
    modify (fun w => let i := wg_node_info w in
      set_info (mk_info (total i) (index i) n (module_test_flag i)) w);;
    when (0 <? n)
      (recv_loop (Z.to_nat n) 3 data;;
       modify (fun w => let i := wg_node_info w in
         set_info (mk_info (total i) (u16 (index i + ack_num i)) (ack_num i)
                     (module_test_flag i)) w)).

Definition wg_plc_read_and_load_node_info : M wg unit :=
  flag ← plc_detect_flag_query;
  if negb (flag =? 1) then mret tt else
  modify (fun w => set_read_cycle (u32 (read_cycle w + 1)) w);;
  c ← gets read_cycle;
  if c <? 20000 then mret tt else
  modify (set_read_cycle 0);;
  i ← gets wg_node_info;
  if total i =? 0 then
    send_1376 GDW1376_2_AFN_TEST_0xF0 (FN 9) (U16ToBuf_little_endian 1 ++ [15]);; mret tt
  else if index i <? total i then
    send_1376 GDW1376_2_AFN_TEST_0xF0 (FN 23) (U16ToBuf_little_endian (index i) ++ [20]);;
    mret tt
  else
    modify (set_info (mk_info 0 0 0 (module_test_flag i)));;
    wg_plc_node_info_upload.

Definition wg_plc_whitelist_set (onoff : Z) : M wg unit :=
  send_1376 GDW1376_2_AFN_TEST_0xF0 (FN 4) [if onoff =? 1 then 0x21 else 0x20];; mret tt.

Definition wg_plc_set_master_addr : M wg unit :=
  addr ← gets sys_addr;
  temp ← deref (mapM (fun i => rd addr (5 - i)) [0; 1; 2; 3; 4; 5]);
  send_1376 GDW13766_2_AFN_CTRL_CMD_0x05 (FN 1) temp;; mret tt.

Definition wg_plc_mudule_detect : M wg unit :=
  modify (fun w => set_detect_cycle (u32 (detect_cycle w + 1)) w);;
  c ← gets detect_cycle;
  when (30000 <? c)
    (send_1376 GDW1376_2_AFN_QUERY_0x03 (FN 10) [];;
     modify (fun w => set_detect_cnt (u8 (wg_plc_detect_cnt w + 1)) w);;
     n ← gets wg_plc_detect_cnt;
     when (3 <=? n) plc_detect_flag_clr;;
     modify (set_detect_cycle 0)).

Definition wg_plc_mudule_init : M wg unit :=
  last ← gets last_plc_state;
  flag ← plc_detect_flag_query;
  when (negb (last =? flag))
    (flag ← plc_detect_flag_query;
     modify (set_last_plc_state flag);;
     wg_plc_set_master_addr;;
     wg_plc_whitelist_set 0).

Definition wg_plc_test_state : M wg Z :=
  flag ← plc_detect_flag_query;
  if negb (flag =? 1) then mret (-1) else
  i ← gets wg_node_info;
  if module_test_flag i =? 0 then mret 2 else mret 0.

(** ** The message dispatch of [elec_cco_api.c] *)

Definition elec_cco_recv_confirm (Fn : Z) (datain : list Z) (datalen : Z) : M wg Z := mret 0.
Definition elec_cco_recv_transfer (Fn : Z) (datain : list Z) (datalen : Z) : M wg Z := mret 0.
Definition elec_cco_recv_query (Fn : Z) (datain : list Z) (datalen : Z) : M wg Z :=
  when (Fn =? FN 10) plc_detect_flag_set;; mret 0.
Definition elec_cco_recv_test (Fn : Z) (datain : list Z) (datalen : Z) : M wg Z :=
  wg_plc_recv_node_info Fn datain datalen;; mret 0.

Definition cco_func : Type := Z -> list Z -> Z -> M wg Z.

(** Fifteen entries, the last seven zero-filled. *)
Definition elec_cco_recvfn : list (Z * option cco_func) :=
  [(GDW1376_2_AFN_CONFIRM_0x00, Some elec_cco_recv_confirm);
   (GDW1376_2_AFN_TRANSFER_0x02, Some elec_cco_recv_transfer);
   (GDW1376_2_AFN_QUERY_0x03, Some elec_cco_recv_query);
   (GDW1376_2_AFN_LINK_CHK_0x04, None);
   (GDW13766_2_AFN_CTRL_CMD_0x05, None);
   (GDW1376_2_AFN_ACTIVE_REPROT_0x06, None);
   (GDW1376_2_AFN_ROUTER_QUERY_0x10, None);
   (GDW1376_2_AFN_TEST_0xF0, Some elec_cco_recv_test)]
  ++ replicate 7 (0, None).

(** The first entry with the code is called; a null entry is a fault. *)
Fixpoint dispatch (table : list (Z * option cco_func)) (d : Gdw.s_1376_2_format) : M wg unit :=
  match table with
  | [] => mret tt
  | (code, pfunc) :: table =>
      if Gdw.afn d =? code then
        f ← deref pfunc;
        f (Gdw.fn d) (Gdw.data d) (Gdw.datalen d);; mret tt
      else dispatch table d
  end.

Definition elec_cco_recv (d : Gdw.s_1376_2_format) : M wg Z :=
  dispatch elec_cco_recvfn d;; mret 0.

Definition elec_cco_init : M wg Z := wg_node_init;; mret 0.

Definition elec_cco_task : M wg Z :=
  wg_plc_mudule_detect;;
  wg_plc_mudule_init;;
  wg_plc_read_and_load_node_info;;
  mret 0.

(** ** The node list as a table

    [is_list h o l]: from the pointer [o] the heap [h] links exactly the
    nodes [l], in order. *)

Record entry := mk_entry { e_id : list Z; e_phase : Z; e_loop : Z; e_refresh : Z }.

Definition cell (e : entry) (nx : option positive) : s_wg_phase :=
  mk_node (e_id e) (e_phase e) (e_loop e) (e_refresh e) nx.

Fixpoint is_list (h : gmap positive s_wg_phase) (o : option positive)
    (l : list (positive * entry)) : Prop :=
  match l with
  | [] => o = None
  | (q, e) :: l => o = Some q /\ exists nx, h !! q = Some (cell e nx) /\ is_list h nx l
  end.

(** The header cell [hp] and the nodes behind it, no location twice, and
    every location in use below the next fresh one. *)
Record nodes (w : wg) (hp : positive) (he : entry) (l : list (positive * entry)) : Prop := {
  nd_header : node_header w = Some hp;
  nd_list : is_list (w_heap w) (Some hp) ((hp, he) :: l);
  nd_nodup : NoDup (hp :: l.*1);
  nd_fresh : forall p, is_Some (w_heap w !! p) -> (p < w_brk w)%positive
}.

(** The table the component keeps, in list order. *)
Definition table (l : list (positive * entry)) : list entry := l.*2.

Lemma is_list_in h o l q :
  is_list h o l -> q ∈ l.*1 -> is_Some (h !! q).
Proof.
  revert o. induction l as [|[r e] l IH]; intros o; simpl.
  - intros _ H. by apply not_elem_of_nil in H.
  - intros (-> & nx & Hr & Hl) [-> |Hq]%elem_of_cons; [by rewrite Hr|by eapply IH].
Qed.

Lemma is_list_ext h h' o l :
  is_list h o l -> (forall q, q ∈ l.*1 -> h' !! q = h !! q) -> is_list h' o l.
Proof.
  revert o. induction l as [|[r e] l IH]; intros o; simpl; [done|].
  intros (-> & nx & Hr & Hl) Hext. split; [done|]. exists nx. split.
  - rewrite Hext by (left). done.
  - apply IH; [done|]. intros q Hq. apply Hext. by right.
Qed.

(** A node of the list gets new contents, its link kept. *)
Lemma is_list_update h o l1 q e l2 :
  is_list h o (l1 ++ (q, e) :: l2) -> NoDup (l1 ++ (q, e) :: l2).*1 ->
  exists nx, h !! q = Some (cell e nx) /\
    forall e', is_list (<[q := cell e' nx]> h) o (l1 ++ (q, e') :: l2).
Proof.
  revert o. induction l1 as [|[r d] l1 IH]; intros o; simpl.
  - intros (-> & nx & Hq & Hl) [Hn _]%NoDup_cons. exists nx. split; [done|].
    intros e'. split; [done|]. exists nx. rewrite lookup_insert_eq. split; [done|].
    eapply is_list_ext; [done|]. intros p Hp. apply lookup_insert_ne. set_solver.
  - intros (-> & nx & Hr & Hl) [Hn Hnd]%NoDup_cons.
    destruct (IH nx Hl Hnd) as (nx' & Hq & Hupd). exists nx'. split; [done|].
    intros e'. split; [done|]. exists nx. split; [|by apply Hupd].
    rewrite lookup_insert_ne; [done|]. intros ->. apply Hn. rewrite fmap_app. set_solver.
Qed.

(** A fresh node is linked behind the last one. *)
Lemma is_list_append h o l1 q e r e' :
  is_list h o (l1 ++ [(q, e)]) -> NoDup (l1 ++ [(q, e)]).*1 -> r ∉ (l1 ++ [(q, e)]).*1 ->
  h !! r = Some (cell e' None) ->
  is_list (<[q := cell e (Some r)]> h) o (l1 ++ [(q, e); (r, e')]).
Proof.
  revert o. induction l1 as [|[s d] l1 IH]; intros o; simpl.
  - intros (-> & nx & Hq & ->) _ Hr Hcell. split; [done|]. exists (Some r).
    rewrite lookup_insert_eq. split; [done|]. split; [done|]. exists None.
    rewrite lookup_insert_ne by set_solver. done.
  - intros (-> & nx & Hs & Hl) [Hn Hnd]%NoDup_cons Hr Hcell. split; [done|].
    exists nx. split; [|apply IH; [done|done| |done]; intros Hin; apply Hr; by right].
    rewrite lookup_insert_ne; [done|]. intros ->. apply Hn. rewrite fmap_app. set_solver.
Qed.

(** The fuel of the loops is enough. *)
Lemma nodes_fuel w hp he l : nodes w hp he l -> (length l < list_fuel w)%nat.
Proof.
  intros [_ Hl Hnd _]. unfold list_fuel.
  assert (list_to_set (hp :: l.*1) ⊆ dom (w_heap w)) as Hsub.
  { intros q Hq. apply elem_of_list_to_set in Hq. apply elem_of_dom.
    by apply (is_list_in _ _ _ _ Hl). }
  apply subseteq_size in Hsub. rewrite size_list_to_set, size_dom in Hsub by done.
  simpl in Hsub. rewrite length_fmap in Hsub. lia.
Qed.

Lemma wp_get_node p n w (Q : s_wg_phase -> wg -> Prop) :
  w_heap w !! p = Some n -> Q n w -> wp (get_node p) w Q.
Proof. intros Hp HQ. unfold wp, get_node. by rewrite Hp. Qed.

(** The location of the first node with an address. *)
Fixpoint lookup_id (id : list Z) (l : list (positive * entry)) : option positive :=
  match l with
  | [] => None
  | (q, e) :: l => if decide (e_id e = id) then Some q else lookup_id id l
  end.

Lemma wp_find_from fuel p e l id w (Q : option positive -> wg -> Prop) :
  is_list (w_heap w) (Some p) ((p, e) :: l) -> (length l < fuel)%nat ->
  Q (lookup_id id l) w -> wp (find_from fuel p (Some id)) w Q.
Proof.
  revert p e l. induction fuel as [|fuel IH]; intros p e l; [lia|].
  intros (_ & nx & Hp & Hl) Hf HQ. simpl.
  apply wp_bind, (wp_get_node _ _ _ _ Hp). simpl.
  destruct l as [|[q d] l]; simpl in *; [by subst|].
  destruct Hl as (-> & nx2 & Hq & Hl). apply wp_bind, (wp_get_node _ _ _ _ Hq).
  apply wp_bind. eapply wp_deref; [done|]. simpl.
  destruct (decide (e_id d = id)); [by apply wp_ret|].
  apply (IH q d l); [|lia|done]. split; [done|]. by exists nx2.
Qed.

Lemma wp_find w hp he l id (Q : option positive -> wg -> Prop) :
  nodes w hp he l -> Q (lookup_id id l) w -> wp (wg_node_find_base_id (Some id)) w Q.
Proof.
  intros Hn HQ. pose proof (nodes_fuel _ _ _ _ Hn). destruct Hn as [Hh Hl _ _].
  unfold wg_node_find_base_id. apply wp_bind, wp_gets, wp_bind. eapply wp_deref; [done|].
  apply wp_bind, wp_gets. by eapply wp_find_from.
Qed.

Lemma wp_last_node fuel p e l w (Q : positive -> wg -> Prop) :
  is_list (w_heap w) (Some p) ((p, e) :: l) -> (length l < fuel)%nat ->
  (forall l1 q d, (p, e) :: l = l1 ++ [(q, d)] -> Q q w) -> wp (last_node fuel p) w Q.
Proof.
  revert p e l Q. induction fuel as [|fuel IH]; intros p e l Q; [lia|].
  intros (_ & nx & Hp & Hl) Hf HQ. simpl.
  apply wp_bind, (wp_get_node _ _ _ _ Hp). simpl.
  destruct l as [|[q d] l]; simpl in *.
  - subst. apply wp_ret. by apply (HQ [] p e).
  - destruct Hl as (-> & Hl). apply (IH q d l); [by split|lia|].
    intros l1 q' d' E. apply (HQ ((p, e) :: l1) q' d'). by rewrite E.
Qed.

(** ** The table a node report leaves *)

Definition zero_id : list Z := replicate 6 0.

(** A known node: the phase and, if that changes it, the refresh mark. *)
Fixpoint refresh_entry (id : list Z) (ph : Z) (t : list entry) : list entry :=
  match t with
  | [] => []
  | e :: t =>
      if decide (e_id e = id)
      then (if e_phase e =? ph then e else mk_entry id ph (e_loop e) 1) :: t
      else e :: refresh_entry id ph t
  end.

Definition new_entry (id : list Z) (ph : Z) : entry :=
  mk_entry id ph 0 (if ph =? 0 then 0 else 1).

(** The specification of one reported node, with the allocator's answers:
    a new node needs a block; the all-zero address is not entered. *)
Definition report_entry (mt : list (option (list Z)) * list entry) (r : list Z * Z)
  : list (option (list Z)) * list entry :=
  let '(m, t) := mt in
  let '(id, ph) := r in
  if decide (id ∈ e_id <$> t) then (m, refresh_entry id ph t)
  else match m with
       | [] => ([], t)
       | None :: m => (m, t)
       | Some _ :: m =>
           (m, if decide (id = zero_id) then t else t ++ [new_entry id ph])
       end.

Lemma lookup_id_None id l : lookup_id id l = None <-> id ∉ e_id <$> table l.
Proof.
  induction l as [|[q e] l IH]; simpl; [set_solver|].
  case_decide as E; [|rewrite IH; set_solver].
  split; [done|]. intros Hn. destruct Hn. rewrite <- E. left.
Qed.

Lemma lookup_id_Some id l q :
  lookup_id id l = Some q -> exists l1 e l2, l = l1 ++ (q, e) :: l2 /\ e_id e = id /\
    forall ph, refresh_entry id ph (table l) = table l1 ++
      (if e_phase e =? ph then e else mk_entry id ph (e_loop e) 1) :: table l2.
Proof.
  induction l as [|[r e] l IH]; simpl; [done|].
  case_decide as E.
  - intros [= ->]. exists [], e, l. done.
  - intros H. destruct (IH H) as (l1 & d & l2 & -> & Hd & Hu).
    exists ((r, e) :: l1), d, l2. split; [done|]. split; [done|].
    intros ph. simpl. by rewrite <- Hu.
Qed.

(** Only the heap cells, the allocator and its counters change. *)
Definition heap_only (w w' : wg) : Prop :=
  w' = with_heap (w_heap w') (w_brk w') (w_mem w') (w_live w') w.

Lemma heap_only_refl w : heap_only w w.
Proof. by destruct w. Qed.

Lemma heap_only_trans w1 w2 w3 : heap_only w1 w2 -> heap_only w2 w3 -> heap_only w1 w3.
Proof. unfold heap_only. intros -> ->. done. Qed.

(** A known node. *)
Lemma recv_known w hp he l1 q e l2 ph :
  nodes w hp he (l1 ++ (q, e) :: l2) ->
  wp (m ← get_node q;
      when (negb (phase m =? ph)) (put_node q (mk_node (node_id m) ph (loop m) 1 (next m)))) w
    (fun _ w' => nodes w' hp he (l1 ++
       (q, if e_phase e =? ph then e else mk_entry (e_id e) ph (e_loop e) 1) :: l2) /\
       w_mem w' = w_mem w /\ heap_only w w').
Proof.
  intros [Hh Hl Hnd Hfr].
  destruct (is_list_update _ _ ((hp, he) :: l1) q e l2 Hl Hnd) as (nx & Hq & Hupd).
  apply wp_bind, (wp_get_node _ _ _ _ Hq). simpl.
  destruct (Z.eqb_spec (e_phase e) ph) as [_|Hne]; simpl.
  - apply wp_ret. split; [by split|]. split; [done|apply heap_only_refl].
  - unfold put_node. wp_steps. split; [|done]. split.
    + done.
    + apply (Hupd (mk_entry (e_id e) ph (e_loop e) 1)).
    + rewrite fmap_app in *. done.
    + simpl. intros p Hp. apply Hfr.
      destruct (decide (p = q)) as [->|]; [by rewrite Hq|by rewrite lookup_insert_ne in Hp].
Qed.

(** What [wg_node_create] does with a block: a fresh cell that no list
    contains, or, for the zero address, a cell nothing points to. *)
Lemma wp_create w hp he l id ph junk m (Q : option positive -> wg -> Prop) :
  nodes w hp he l -> length id = 6%nat -> w_mem w = Some junk :: m ->
  (forall r w', r ∉ (hp :: l.*1) -> nodes w' hp he l -> heap_only w w' -> w_mem w' = m ->
     (if decide (id = zero_id) then Q None w'
      else w_heap w' !! r = Some (cell (new_entry id ph) None) -> Q (Some r) w')) ->
  wp (wg_node_create id ph) w Q.
Proof.
  intros [Hh Hl Hnd Hfr] Hid Hm HQ.
  set (r := w_brk w).
  assert (w_heap w !! r = None) as Hr.
  { destruct (w_heap w !! r) eqn:E; [|done]. pose proof (Hfr r ltac:(by rewrite E)). unfold r in *. lia. }
  assert (r ∉ hp :: l.*1) as Hnew.
  { intros Hin. apply (is_list_in _ _ _ _ Hl) in Hin. rewrite Hr in Hin. by destruct Hin. }
  assert (forall n, nodes (with_heap (<[r := n]> (w_heap w)) (r + 1) m (w_live w + 1) w) hp he l) as Hn'.
  { intros n. split; simpl; [done| |done|].
    - eapply (is_list_ext (w_heap w) _ (Some hp) ((hp, he) :: l)); [done|].
      intros q Hq. apply lookup_insert_ne. intros ->. done.
    - intros p Hp. destruct (decide (p = r)) as [->|]; [lia|].
      rewrite lookup_insert_ne in Hp by done. pose proof (Hfr p Hp). unfold r. lia. }
  unfold wg_node_create, node_malloc. wp_steps. unfold rt_malloc, wp at 1. rewrite Hm.
  wp_steps. simpl.
  rewrite buf_read_Some by (simpl; lia). eapply wp_deref; [done|].
  change (Z.to_nat 0) with 0%nat. rewrite drop_0, take_ge by lia.
  unfold put_node. wp_steps. unfold set_heap, with_heap. simpl. fold r.
  rewrite insert_insert_eq. change [0; 0; 0; 0; 0; 0] with zero_id.
  case_decide as E.
  - apply wp_ret. specialize (HQ r _ Hnew (Hn' (mk_node id 0 0 0 None))).
    by apply HQ.
  - wp_steps. eapply wp_get_node; [apply lookup_insert_eq|]. simpl. wp_steps. simpl.
    rewrite insert_insert_eq. eapply wp_get_node; [apply lookup_insert_eq|]. wp_steps. simpl.
    rewrite insert_insert_eq.
    match goal with |- Q (Some r) ?w' => specialize (HQ r w' Hnew (Hn' _)) end.
    apply HQ; [done|done|]. simpl.
    rewrite lookup_insert_eq. unfold cell, new_entry. simpl.
    destruct ph; done.
Qed.

Lemma wp_insert w hp he l r e' (Q : unit -> wg -> Prop) :
  nodes w hp he l -> r ∉ hp :: l.*1 -> w_heap w !! r = Some (cell e' None) ->
  (forall w', nodes w' hp he (l ++ [(r, e')]) -> heap_only w w' -> w_mem w' = w_mem w -> Q tt w') ->
  wp (wg_node_insert (Some r)) w Q.
Proof.
  intros Hn Hr Hcell HQ. pose proof (nodes_fuel _ _ _ _ Hn) as Hf.
  destruct Hn as [Hh Hl Hnd Hfr].
  unfold wg_node_insert. apply wp_bind, wp_gets, wp_bind. eapply wp_deref; [done|].
  apply wp_bind, wp_gets, wp_bind. eapply wp_last_node; [done|done|].
  intros l1 q d E. rewrite E in Hl.
  change (hp :: l.*1) with ((hp, he) :: l).*1 in *. rewrite E in Hnd, Hr.
  destruct (is_list_update _ _ l1 q d [] Hl Hnd) as (nx & Hq & _).
  apply wp_bind, (wp_get_node _ _ _ _ Hq). unfold put_node. wp_steps.
  apply HQ; [|done|done]. split; [done| | |].
  - rewrite app_comm_cons, E, <- app_assoc. by apply is_list_append.
  - change (hp :: (l ++ [(r, e')]).*1) with (((hp, he) :: l) ++ [(r, e')]).*1.
    rewrite E, fmap_app. apply NoDup_app. split_and!; [done| |apply NoDup_singleton].
    intros p Hp [= ->]%list_elem_of_singleton. done.
  - simpl. intros p Hp. apply Hfr.
    destruct (decide (p = q)) as [->|]; [by rewrite Hq|by rewrite lookup_insert_ne in Hp].
Qed.

(** One reported node refines the specification. *)
Lemma wp_recv_entry w hp he l id ph (Q : unit -> wg -> Prop) :
  nodes w hp he l -> length id = 6%nat ->
  (forall w' l', nodes w' hp he l' -> heap_only w w' ->
     report_entry (w_mem w, table l) (id, ph) = (w_mem w', table l') -> Q tt w') ->
  wp (recv_entry id ph) w Q.
Proof.
  intros Hn Hid HQ. unfold recv_entry. apply wp_bind. eapply wp_find; [done|].
  unfold report_entry in HQ.
  destruct (lookup_id id l) as [q|] eqn:E.
  - destruct (lookup_id_Some _ _ _ E) as (l1 & e & l2 & -> & Hid' & Hu).
    eapply wp_mono; [by apply recv_known|]. intros [] w' (Hn' & Hm & Hho).
    apply (HQ w' _ Hn' Hho). rewrite decide_True, Hm, Hu, <- Hid'.
    + unfold table. rewrite fmap_app. done.
    + rewrite <- Hid'. unfold table. rewrite !fmap_app. set_solver.
  - apply lookup_id_None in E. rewrite decide_False in HQ by done.
    apply wp_bind. destruct (w_mem w) as [|[junk|] m] eqn:Hm.
    + unfold wg_node_create, node_malloc, rt_malloc, wp, mbind, M_bind. rewrite Hm. simpl.
      apply (HQ w l Hn (heap_only_refl w)). by rewrite Hm.
    + eapply wp_create; [done|done|done|]. intros r w' Hr Hn' Hho Hm'.
      case_decide as Ez.
      * by apply (HQ w' l Hn' Hho); rewrite Hm'.
      * intros Hcell. eapply wp_insert; [done|done|done|]. intros w2 Hn2 Hho2 Hm2.
        apply (HQ w2 _ Hn2); [by eapply heap_only_trans|].
        unfold table. rewrite fmap_app, Hm2, Hm'. done.
    + unfold wg_node_create, node_malloc, rt_malloc, wp, mbind, M_bind. rewrite Hm. simpl.
      apply (HQ (with_heap (w_heap w) (w_brk w) m (w_live w) w) l); [|done|done].
      by destruct Hn.
Qed.

(** The bytes of one entry of a report. *)
Definition entry_bytes (r : list Z * Z * Z) : list Z := r.1.1 ++ [r.1.2; r.2].

(** What an entry reports: the address and the low three bits of the phase
    byte. *)
Definition reported (r : list Z * Z * Z) : list Z * Z := (r.1.1, Z.land r.2 0x07).

Lemma recv_loop_refines rs pre rest w hp he l :
  nodes w hp he l -> Forall (fun r => length r.1.1 = 6%nat) rs ->
  (length pre + 8 * length rs < 256)%nat ->
  wp (recv_loop (length rs) (Z.of_nat (length pre)) (pre ++ concat (entry_bytes <$> rs) ++ rest)) w
    (fun _ w' => exists l', nodes w' hp he l' /\ heap_only w w' /\
       foldl report_entry (w_mem w, table l) (reported <$> rs) = (w_mem w', table l')).
Proof.
  revert pre w l. induction rs as [|[[id x] y] rs IH]; intros pre w l Hn Hlen Hpos.
  { apply wp_ret. exists l. split_and!; [done|apply heap_only_refl|done]. }
  apply Forall_cons in Hlen as [Hid Hlen]. simpl in Hid, Hpos.
  set (tl := concat (entry_bytes <$> rs) ++ rest).
  assert (pre ++ concat (entry_bytes <$> (id, x, y) :: rs) ++ rest = (pre ++ id ++ [x; y]) ++ tl)
    as -> by (unfold tl; rewrite fmap_cons; unfold entry_bytes at 1; simpl;
              by rewrite <- !app_assoc).
  simpl recv_loop.
  assert (length (pre ++ id ++ [x; y]) = length pre + 8)%nat as Hl8 by app_len.
  apply wp_bind. rewrite buf_read_Some by (rewrite ?length_app in *; lia).
  eapply wp_deref; [done|].
  rewrite Nat2Z.id, <- !app_assoc, drop_app_length, take_app_length' by done.
  rewrite (uwrap_small 8 (_ + 7)) by c_lia. rewrite uwrap_small by c_lia.
  apply wp_bind. eapply (wp_byte_at (pre ++ id ++ [x]) y); [app_eq|app_len|].
  apply wp_bind. eapply wp_recv_entry; [done|done|]. intros w' l' Hn' Hho' Hrep.
  replace (Z.of_nat (length pre) + 7 + 1) with (Z.of_nat (length (pre ++ id ++ [x; y]))) by lia.
  rewrite !app_assoc, <- (app_assoc pre id). unfold tl.
  eapply wp_mono; [apply (IH (pre ++ id ++ [x; y])); [done|done|lia]|].
  intros [] w2 (l2 & Hn2 & Hho2 & Hrep2). exists l2.
  split_and!; [done|by eapply heap_only_trans|].
  rewrite fmap_cons. change (reported (id, x, y)) with (id, Z.land y 0x07).
  cbn [foldl]. by rewrite Hrep.
Qed.

(** ** The table as a map from addresses to phases *)

Definition phases (t : list entry) : gmap (list Z) Z :=
  list_to_map ((fun e => (e_id e, e_phase e)) <$> t).

Definition report_phase (m : gmap (list Z) Z) (r : list Z * Z) : gmap (list Z) Z :=
  if decide (r.1 = zero_id) then m else <[r.1 := r.2]> m.

(** Every address once, and never the zero address. *)
Definition table_ok (t : list entry) : Prop :=
  NoDup (e_id <$> t) /\ zero_id ∉ e_id <$> t.

Lemma phases_cons e t : phases (e :: t) = <[e_id e := e_phase e]> (phases t).
Proof. done. Qed.

Lemma phases_fst t : ((fun e => (e_id e, e_phase e)) <$> t).*1 = e_id <$> t.
Proof. rewrite <- list_fmap_compose. done. Qed.

Lemma refresh_entry_ids id ph t : e_id <$> refresh_entry id ph t = e_id <$> t.
Proof.
  induction t as [|e t IH]; simpl; [done|]. case_decide as E; simpl; [|by f_equal].
  case_match; [done|]. by rewrite <- E.
Qed.

Lemma phases_refresh id ph t :
  id ∈ e_id <$> t -> phases (refresh_entry id ph t) = <[id := ph]> (phases t).
Proof.
  induction t as [|e t IH]; [set_solver|]. rewrite fmap_cons. intros Hin.
  simpl. rewrite phases_cons. case_decide as E; rewrite phases_cons.
  - subst id. case_match eqn:Ep; simpl; rewrite insert_insert_eq; [|done].
    apply Z.eqb_eq in Ep. by subst ph.
  - rewrite IH by set_solver. by apply insert_insert_ne.
Qed.

(** With a block at hand one report is one map update. *)
Lemma report_entry_phase j m t id ph m' t' :
  table_ok t -> report_entry (Some j :: m, t) (id, ph) = (m', t') ->
  (m' = Some j :: m \/ m' = m) /\ table_ok t' /\ phases t' = report_phase (phases t) (id, ph).
Proof.
  intros [Hnd Hz] E. unfold report_entry in E. unfold report_phase. simpl.
  case_decide as Hin.
  - injection E as <- <-. split; [by left|]. split.
    + by split; rewrite refresh_entry_ids.
    + rewrite decide_False by (intros ->; done). by apply phases_refresh.
  - injection E as <- <-. split; [by right|]. case_decide as Ez; [by split|]. split.
    + split; rewrite fmap_app; [|set_solver].
      apply NoDup_app. split_and!; [done|set_solver|apply NoDup_singleton].
    + unfold phases. rewrite fmap_app. simpl. apply list_to_map_snoc.
      by rewrite phases_fst.
Qed.

Lemma report_phases rs js m t m' t' :
  table_ok t -> (length rs <= length js)%nat ->
  foldl report_entry ((Some <$> js) ++ m, t) rs = (m', t') ->
  table_ok t' /\ phases t' = foldl report_phase (phases t) rs.
Proof.
  revert js t. induction rs as [|[id ph] rs IH]; intros js t Ht Hl E; cbn [foldl] in *.
  { by simplify_eq. }
  destruct js as [|j js]; simpl in Hl; [lia|].
  change ((Some <$> j :: js) ++ m) with (Some j :: ((Some <$> js) ++ m)) in E.
  destruct (report_entry _ (id, ph)) as [m1 t1] eqn:E1.
  destruct (report_entry_phase _ _ _ _ _ _ _ Ht E1) as ([-> | ->] & Ht1 & <-).
  - apply (IH (j :: js)); [done|simpl; lia|done].
  - apply (IH js); [done|lia|done].
Qed.

(** C12. A node report updates the table of phases: on a list of nodes with
    distinct non-zero addresses, a report of up to 31 entries for which the
    allocator has blocks leaves a list that is again well formed, whose map
    from addresses to phases is the old one with the reported phases (the
    low three bits) written in order, zero addresses skipped; the query
    index advances by the number of entries and nothing else changes. *)
Theorem wg_recv_refines w hp he l fn t0 t1 rs rest dl js m :
  nodes w hp he l -> table_ok (table l) -> fn <> FN 9 ->
  Forall (fun r => length r.1.1 = 6%nat) rs -> (1 <= length rs <= 31)%nat ->
  w_mem w = (Some <$> js) ++ m -> (length rs <= length js)%nat ->
  wp (wg_plc_recv_node_info fn
        ([t0; t1; Z.of_nat (length rs)] ++ concat (entry_bytes <$> rs) ++ rest) dl) w
    (fun _ w' => exists l', nodes w' hp he l' /\ table_ok (table l') /\
       phases (table l') = foldl report_phase (phases (table l)) (reported <$> rs) /\
       heap_only (set_info (mk_info (total (wg_node_info w))
                    (u16 (index (wg_node_info w) + Z.of_nat (length rs)))
                    (Z.of_nat (length rs)) (module_test_flag (wg_node_info w))) w) w').
Proof.
  intros Hn Ht Hfn Hlen Hrs Hm Hjs. unfold wg_plc_recv_node_info.
  rewrite (proj2 (Z.eqb_neq _ _)) by done.
  apply wp_bind, (wp_byte _ _ t0); [done|lia|]. apply wp_bind, (wp_byte _ _ t1); [done|lia|].
  apply wp_bind, (wp_byte _ _ (Z.of_nat (length rs))); [done|lia|]. wp_steps.
  rewrite (proj2 (Z.ltb_lt 0 _)) by lia. unfold when. wp_steps. rewrite Nat2Z.id.
  eapply wp_mono; [apply (recv_loop_refines rs [t0; t1; Z.of_nat (length rs)]);
    [|done|simpl; lia]|].
  { destruct Hn; split; done. }
  intros [] w' (l' & Hn' & Hho & Hrep). wp_steps.
  simpl in Hrep. rewrite Hm in Hrep.
  assert (length (reported <$> rs) <= length js)%nat as Hl by (by rewrite length_fmap).
  destruct (report_phases _ _ _ _ _ _ Ht Hl Hrep) as [Ht' Hph].
  exists l'. split_and!; [by destruct Hn'; split|done|done|].
  rewrite Hho. done.
Qed.

(** ** The upload *)

(** The 16 bytes a node takes in the report. *)
Definition node_bytes (e : entry) : list Z :=
  e_id e ++ [e_phase e; e_loop e] ++ replicate 8 0.

Definition changed (t : list entry) : list entry := filter (fun e => e_refresh e = 1) t.

Definition report_so_far (done : list entry) : list Z := [0] ++ concat (node_bytes <$> done).

Lemma length_report done :
  Forall (fun e => length (e_id e) = 6%nat) done ->
  length (report_so_far done) = (1 + 16 * length done)%nat.
Proof.
  induction 1 as [|e done He _ IH]; [done|].
  assert (length (node_bytes e) = 16%nat) as Hb
    by (unfold node_bytes; rewrite length_app, He; done).
  change (report_so_far (e :: done)) with ([0] ++ node_bytes e ++ concat (node_bytes <$> done)).
  unfold report_so_far in IH. rewrite length_app in IH. rewrite !length_app, Hb.
  rewrite length_cons. simpl length in *. lia.
Qed.

Lemma report_snoc done e :
  report_so_far (done ++ [e]) = report_so_far done ++ node_bytes e.
Proof. unfold report_so_far. rewrite fmap_app, concat_app. simpl. by rewrite app_nil_r. Qed.

Lemma wr_next w o x :
  (length w < length o)%nat ->
  wr (written w o) (Z.of_nat (length w)) x = Some (written (w ++ [x]) o).
Proof.
  intros Hl.
  destruct (proj1 (wp_Some _ _ _) (wp_put_next w o _ x (fun _ b => b = written (w ++ [x]) o)
    eq_refl Hl eq_refl)) as ([] & b & E & ->).
  unfold put in E. by destruct (wr _ _ x); simplify_eq/=.
Qed.

#[global] Arguments report_so_far : simpl never.

Ltac bind_some :=
  match goal with |- context [Some ?x ≫= ?f] => change (Some x ≫= f) with (f x) end; cbn beta.

(** Storing one node behind [k] others. *)
Definition store_node (info : list Z) (pos : Z) (e : entry) : option (list Z) :=
  info ← memcpy info pos (e_id e) 0 6;
  info ← wr info (u8 (pos + 6)) (e_phase e);
  wr info (u8 (pos + 7)) (e_loop e).

Lemma store_node_ok done e :
  Forall (fun e => length (e_id e) = 6%nat) done -> length (e_id e) = 6%nat ->
  (length done < 12)%nat ->
  store_node (written (report_so_far done) (replicate 200 0)) (Z.of_nat (1 + 16 * length done)) e
  = Some (written (report_so_far (done ++ [e])) (replicate 200 0)).
Proof.
  intros Hd He Hk. pose proof (length_report done Hd) as Hl.
  set (o := replicate 200 0). assert (length o = 200%nat) as Ho by apply length_replicate.
  remember (Z.of_nat (1 + 16 * length done)) as pos eqn:Hpos.
  unfold store_node. rewrite memcpy_next by lia.
  change (Z.to_nat 6) with 6%nat. rewrite take_ge by lia. bind_some.
  remember (report_so_far done ++ e_id e) as w eqn:Ew.
  assert (length w = 7 + 16 * length done)%nat as Hw by (rewrite Ew, length_app; lia).
  rewrite (uwrap_small 8 (pos + 6)), (uwrap_small 8 (pos + 7)) by c_lia.
  replace (pos + 6) with (Z.of_nat (length w)) by lia.
  rewrite wr_next by lia. bind_some.
  replace (pos + 7) with (Z.of_nat (length (w ++ [e_phase e])))
    by (rewrite length_app; simpl; lia).
  rewrite wr_next by (rewrite length_app; simpl; lia). f_equal.
  rewrite (written_skips _ o 8) by (rewrite !length_app; simpl; lia).
  rewrite !length_app, Hw. simpl length. unfold o at 1. rewrite drop_replicate, take_replicate.
  rewrite Nat.min_l by lia. rewrite report_snoc, Ew. unfold node_bytes. f_equal.
  by rewrite <- !app_assoc.
Qed.

(** The thirteenth node does not fit: its last byte lies behind the block. *)
Lemma store_node_13 info e :
  length info = 200%nat -> length (e_id e) = 6%nat -> store_node info 193 e = None.
Proof.
  intros Hl He. unfold store_node. rewrite memcpy_Some by lia. bind_some.
  change (u8 (193 + 6)) with 199. change (u8 (193 + 7)) with 200.
  assert (length (splice info (Z.to_nat 193) (take (Z.to_nat 6) (drop (Z.to_nat 0) (e_id e))))
    = 200%nat) as Hs.
  { rewrite length_splice; [done|]. rewrite length_take, length_drop. lia. }
  rewrite wr_Some by lia. bind_some. unfold wr. rewrite length_insert, Hs. done.
Qed.

Lemma get_node_bind {A} p n w (k : s_wg_phase -> M wg A) :
  w_heap w !! p = Some n -> (get_node p ≫= k) w = k n w.
Proof. intros Hp. unfold mbind, M_bind, get_node. by rewrite Hp. Qed.

Lemma changed_yes e t : e_refresh e = 1 -> changed (e :: t) = e :: changed t.
Proof. intros. unfold changed. by rewrite filter_cons_True. Qed.

Lemma changed_no e t : e_refresh e <> 1 -> changed (e :: t) = changed t.
Proof. intros. unfold changed. by rewrite filter_cons_False. Qed.

Lemma upload_loop fuel p e0 l done w :
  is_list (w_heap w) (Some p) ((p, e0) :: l) -> (length l < fuel)%nat ->
  Forall (fun e => length (e_id e) = 6%nat) (done ++ table l) -> (length done <= 12)%nat ->
  upload_from fuel p (written (report_so_far done) (replicate 200 0))
    (Z.of_nat (1 + 16 * length done)) (Z.of_nat (length done)) w =
  let all := done ++ changed (table l) in
  if decide (length all <= 12)%nat then
    Some ((written (report_so_far all) (replicate 200 0), Z.of_nat (1 + 16 * length all),
           Z.of_nat (length all)), w)
  else None.
Proof.
  revert p e0 l done. induction fuel as [|fuel IH]; intros p e0 l done; [lia|].
  intros (_ & nx & Hp & Hl) Hf Hids Hd. cbn [upload_from].
  rewrite (get_node_bind _ _ _ _ Hp). change (next (cell e0 nx)) with nx.
  destruct l as [|[q e] l].
  { simpl in Hl. subst nx. change (changed (table [])) with (@nil entry). rewrite app_nil_r.
    by rewrite decide_True by lia. }
  destruct Hl as (-> & nx2 & Hq & Hl). simpl in Hf.
  cbv iota beta. rewrite (get_node_bind _ _ _ _ Hq).
  change (table ((q, e) :: l)) with (e :: table l) in *.
  change (refresh (cell e nx2)) with (e_refresh e).
  assert (is_list (w_heap w) (Some q) ((q, e) :: l)) as Hq'
    by (split; [done|]; by exists nx2).
  destruct (Z.eqb_spec (e_refresh e) 1) as [Er|Er]; cycle 1.
  { rewrite changed_no by done. apply (IH q e l); [done|lia| |done].
    rewrite !Forall_app, Forall_cons in *. naive_solver. }
  rewrite changed_yes by done.
  rewrite Forall_app, Forall_cons in Hids. destruct Hids as (Hdone & He & Hrest).
  assert (forall A (k : list Z -> M wg A) info pos, (info ← deref (memcpy info pos (node_id (cell e nx2)) 0 6);
      info ← deref (wr info (u8 (pos + 6)) (phase (cell e nx2)));
      info ← deref (wr info (u8 (pos + 7)) (loop (cell e nx2))); k info) w =
    match store_node info pos e with Some i => k i w | None => None end) as Hst.
  { intros A k info pos. unfold store_node, deref, mbind, M_bind, cell. simpl.
    destruct (memcpy _ _ _ _ _); simpl; [|done].
    destruct (wr _ _ (e_phase e)); simpl; [|done]. by destruct (wr _ _ (e_loop e)). }
  rewrite Hst. destruct (decide (length done = 12)%nat) as [E12|Hlt].
  - rewrite E12. rewrite store_node_13; [|rewrite <- E12|done].
    + rewrite decide_False; [done|]. rewrite length_app. simpl. lia.
    + unfold written. rewrite length_app, length_drop, length_replicate, length_report by done. lia.
  - rewrite store_node_ok by (done || lia).
    rewrite (uwrap_small 8 (_ + 16)) by c_lia. rewrite (uwrap_small 8 (_ + 1)) by c_lia.
    rewrite (proj2 (Z.leb_gt 20 _)) by lia.
    replace (done ++ e :: changed (table l)) with ((done ++ [e]) ++ changed (table l))
      by (by rewrite <- app_assoc).
    assert (length (done ++ [e]) = S (length done)) as HS by (rewrite length_app; simpl; lia).
    replace (Z.of_nat (1 + 16 * length done) + 16) with (Z.of_nat (1 + 16 * length (done ++ [e]))) by lia.
    replace (Z.of_nat (length done) + 1) with (Z.of_nat (length (done ++ [e]))) by lia.
    apply (IH q e l); [done|lia| |lia].
    rewrite <- app_assoc. simpl. by rewrite Forall_app, Forall_cons.
Qed.

(** The report of the changed nodes [c]: their number, 16 bytes each, zeros. *)
Definition full_report (c : list entry) : list Z :=
  [Z.of_nat (length c)] ++ concat (node_bytes <$> c) ++ replicate (199 - 16 * length c) 0.

(** The report of changed nodes has room for twelve: with a block from
    the allocator, the upload of a list with at most twelve nodes marked for
    refresh hands over one report that holds exactly these nodes in list
    order (none if there are none) and changes nothing else, except that the
    block is never freed; with more, it writes behind the 200 bytes of the
    block, before the limit of twenty nodes the code checks. *)
Theorem wg_upload_bounds w hp he l junk m :
  nodes w hp he l -> Forall (fun e => length (e_id e) = 6%nat) (table l) ->
  w_mem w = Some junk :: m ->
  wg_plc_node_info_upload w =
  let c := changed (table l) in
  let w1 := with_heap (w_heap w) (w_brk w) m (w_live w + 1) w in
  if decide (length c <= 12)%nat then
    Some (tt, if decide (c = []) then w1 else add_report (full_report c) w1)
  else None.
Proof.
  intros Hn Hids Hm. cbv zeta. set (w1 := with_heap _ _ _ _ w).
  assert (nodes w1 hp he l) as Hn1 by (destruct Hn; split; done).
  pose proof (nodes_fuel _ _ _ _ Hn1) as Hf. destruct Hn as [Hh Hl _ _].
  unfold wg_plc_node_info_upload, rt_malloc, gets, deref. unfold mbind at 1, M_bind at 1.
  unfold mbind at 1, M_bind at 1. rewrite Hm. fold w1. rewrite Hh.
  unfold mbind at 1, M_bind at 1. unfold mbind at 1, M_bind at 1.
  pose proof (upload_loop (list_fuel w1) hp he l [] w1 Hl Hf Hids ltac:(simpl; lia)) as E.
  change (written (report_so_far []) (replicate 200 0)) with (replicate 200 0) in E.
  cbn [app length] in E. cbv zeta in E.
  unfold mbind at 1, M_bind at 1.
  change (Z.of_nat (1 + 16 * 0)) with 1 in E. change (Z.of_nat 0) with 0 in E.
  rewrite E. case_decide as Hc; [|done].
  set (c := changed (table l)) in *.
  assert (Forall (fun e => length (e_id e) = 6%nat) c) as Hcid.
  { unfold c, changed. apply Forall_forall. intros e [_ He]%list_elem_of_filter.
    by apply (Forall_forall (fun e => length (e_id e) = 6%nat) (table l)). }
  pose proof (length_report c Hcid) as Hlc.
  clear E. clearbody c. destruct c as [|e c0]; [by rewrite decide_True by done|].
  rewrite decide_False by done.
  rewrite (proj2 (Z.ltb_lt 0 _)) by (simpl; lia). unfold when, written.
  assert (drop (length (report_so_far (e :: c0))) (replicate 200 0)
    = replicate (199 - 16 * length (e :: c0)) 0) as ->.
  { rewrite Hlc, drop_replicate. f_equal. }
  unfold report_so_far. rewrite <- app_assoc. unfold wr. rewrite length_app.
  unfold mbind, M_bind. simpl (0 <=? 0). rewrite (proj2 (Z.ltb_lt 0 _)) by (simpl; lia).
  done.
Qed.

(** ** Sending never faults and touches only the UART *)

(** The blocks still to come have the size that was asked for. *)
Definition mem_ok (w : wg) : Prop :=
  Forall (fun b => match b with Some junk => (252 <= length junk)%nat | None => True end) (w_mem w)
  /\ (6 <= length (sys_addr w))%nat.

(** Only the allocator's answers, the frame counter and the UART log change. *)
Definition sends (w w' : wg) : Prop :=
  mem_ok w' /\
  w' = set_send (w_send w') (with_heap (w_heap w) (w_brk w) (w_mem w') (w_live w) w).

Lemma sends_refl w : mem_ok w -> sends w w.
Proof. intros Hm. split; [done|]. by destruct w. Qed.

Lemma sends_trans w1 w2 w3 : sends w1 w2 -> sends w2 w3 -> sends w1 w3.
Proof.
  intros [_ E2] [Hm E3]. split; [done|].
  rewrite E2 in E3. exact E3.
Qed.

Lemma wp_rt_malloc w (Q : option (list Z) -> wg -> Prop) :
  mem_ok w ->
  (forall m, (w_mem w = None :: m \/ w_mem w = [] /\ m = []) ->
     mem_ok (with_heap (w_heap w) (w_brk w) m (w_live w) w) ->
     Q None (with_heap (w_heap w) (w_brk w) m (w_live w) w)) ->
  (forall junk m, w_mem w = Some junk :: m ->
     mem_ok (with_heap (w_heap w) (w_brk w) m (w_live w + 1) w) ->
     (252 <= length junk)%nat ->
     Q (Some junk) (with_heap (w_heap w) (w_brk w) m (w_live w + 1) w)) ->
  wp rt_malloc w Q.
Proof.
  intros [Hm Ha] HN HS. unfold wp, rt_malloc. unfold mem_ok in *.
  destruct (w_mem w) as [|[junk|] m] eqn:E.
  - specialize (HN []). destruct w. simpl in *. subst. apply HN; [by right|by split].
  - apply Forall_cons in Hm as [Hj Hm]. by apply HS.
  - apply Forall_cons in Hm as [_ Hm]. apply HN; [by left|by split].
Qed.

(** The encoder's state with the answers of the allocator still to come, after
    a message without addresses: with both blocks one frame more has left the
    UART, otherwise none. *)
Definition sent_to (main : list Z) (afn f : Z) (d : list Z) (st : Gdw.send_st * list (option (list Z)))
  : Gdw.send_st * list (option (list Z)) :=
  let '(s, mem) := st in
  match mem with
  | Some _ :: Some junk :: mem =>
      (Gdw.mk_send (u8 (Gdw.s_index s + 1))
         (Gdw.s_tx s ++ [Gdw.frame (Gdw.sent_payload junk main None afn f (Gdw.s_index s) d)]), mem)
  | Some _ :: None :: mem | None :: mem => (s, mem)
  | Some _ :: [] | [] => (s, [])
  end.

(** The set-up of the module: the address of the master, the white list off. *)
Definition set_up (main : list Z) (st : Gdw.send_st * list (option (list Z)))
  : Gdw.send_st * list (option (list Z)) :=
  sent_to main 0xF0 (FN 4) [0x20] (sent_to main 0x05 (FN 1) (rev (take 6 main)) st).

Lemma wp_send_exact afn f d w (Q : Z -> wg -> Prop) :
  mem_ok w -> is_u16 f -> (length d <= 241)%nat ->
  (forall r w', sends w w' -> (w_send w', w_mem w') = sent_to (sys_addr w) afn f d (w_send w, w_mem w) -> Q r w') ->
  wp (send_1376 afn f d) w Q.
Proof.
  intros Hm Hf Hd HQ. unfold send_1376. apply wp_bind, wp_gets, wp_bind.
  apply wp_rt_malloc; [done| |].
  - intros m Em Hm1. apply wp_zoom, wp_ret. apply HQ; [by split; [|destruct w]|].
    by destruct Em as [-> | [-> ->]].
  - intros junk1 m1 Em1 Hm1 _. apply wp_bind, wp_rt_malloc; [done| |].
    + intros m2 Em2 Hm2. rewrite bool_decide_false by (by intros []). simpl.
      apply wp_bind, wp_zoom. unfold Gdw.elec_1376_2_send. simpl negb.
      apply wp_bind, wp_ret.
      rewrite memcpy_Some; [|lia|lia|lia|lia|change (length (Gdw.data _)) with 244%nat; lia].
      apply wp_bind. eapply wp_deref; [done|]. apply wp_ret. apply wp_bind, wp_ret.
      unfold rt_free_block. wp_steps. simpl in Em2. apply HQ.
      * split; [done|]. destruct w; unfold with_heap, set_send; simpl. f_equal. lia.
      * rewrite Em1. by destruct Em2 as [-> | [-> ->]].
    + intros junk2 m2 Em2 Hm2 Hj. rewrite bool_decide_true by (by eexists). simpl default.
      apply wp_bind, wp_zoom. eapply wp_mono.
      { apply Gdw.send_writes. split_and!; [done|by destruct Hm|done|done]. }
      intros r s' (-> & ->). unfold when, rt_free_block. wp_steps. simpl in Em2. apply HQ.
      * split; [done|]. destruct w; unfold with_heap, set_send; simpl. f_equal. lia.
      * by rewrite Em1, Em2.
Qed.

Lemma wp_send afn f d w (Q : Z -> wg -> Prop) :
  mem_ok w -> is_u16 f -> (length d <= 241)%nat ->
  (forall r w', sends w w' -> Q r w') -> wp (send_1376 afn f d) w Q.
Proof. intros Hm Hf Hd HQ. apply wp_send_exact; [done..|]. intros r w' Hs _. by apply HQ. Qed.

Lemma FN_u16 n : 1 <= n <= 248 -> is_u16 (FN n).
Proof.
  intros Hn. unfold FN.
  assert (0 <= (n - 1) / 8 < 32) by (split; [apply Z.div_pos; lia|apply Z.div_lt_upper_bound; lia]).
  assert (0 <= (n - 1) mod 8 < 8) as Hm by (apply Z.mod_pos_bound; lia).
  assert (is_u8 (Z.shiftl 1 ((n - 1) mod 8))) as Hs.
  { rewrite Z.shiftl_1_l. split; [apply Z.pow_nonneg; lia|apply Z.pow_lt_mono_r; lia]. }
  rewrite Gdw.lor_le16 by (done || c_lia). c_lia.
Qed.

(** A change of the module's state is followed by its set-up. *)
Lemma wp_mudule_init w (Q : unit -> wg -> Prop) :
  mem_ok w ->
  (forall w', sends (set_last_plc_state (plc_detect_flag w) w) w' ->
     (w_send w', w_mem w') =
       (if last_plc_state w =? plc_detect_flag w then (w_send w, w_mem w)
        else set_up (sys_addr w) (w_send w, w_mem w)) -> Q tt w') ->
  wp wg_plc_mudule_init w Q.
Proof.
  intros Hm HQ. unfold wg_plc_mudule_init, plc_detect_flag_query. wp_steps.
  destruct (Z.eqb_spec (last_plc_state w) (plc_detect_flag w)) as [E|E]; simpl; unfold when.
  { wp_steps. apply HQ; [|done]. rewrite <- E. split; [done|]. by destruct w. }
  wp_steps. unfold wg_plc_set_master_addr, wg_plc_whitelist_set. wp_steps. simpl sys_addr.
  assert (mapM (fun i => rd (sys_addr w) (5 - i)) [0; 1; 2; 3; 4; 5] = Some (rev (take 6 (sys_addr w)))) as Et.
  { destruct Hm as [_ Ha].
    destruct (sys_addr w) as [|a0 [|a1 [|a2 [|a3 [|a4 [|a5 l]]]]]]; simpl in Ha; try lia. done. }
  rewrite Et. eapply wp_deref; [done|]. wp_steps.
  apply wp_send_exact; [done|by apply FN_u16|rewrite length_rev, length_take; lia|]. intros r w2 Hs2 E2. wp_steps.
  apply wp_send_exact; [by destruct Hs2|by apply FN_u16|simpl; lia|]. intros r' w3 Hs3 E3.
  wp_steps. apply HQ; [by eapply sends_trans|]. rewrite E3, E2. destruct Hs2 as [_ ->]. done.
Qed.

(** ** Losing the PLC module *)

Fixpoint repeat_task (n : nat) (task : M wg unit) : M wg unit :=
  match n with O => mret tt | S n => repeat_task n task;; task end.

(** The state after [n] calls without an answer: a probe every 30001 calls. *)
Definition probed (w0 : wg) (n : Z) (w : wg) : Prop :=
  mem_ok w /\ detect_cycle w = n mod 30001 /\ wg_plc_detect_cnt w = u8 (n / 30001) /\
  plc_detect_flag w = (if n <? 90003 then plc_detect_flag w0 else 0) /\
  node_header w = node_header w0 /\ w_heap w = w_heap w0 /\ wg_node_info w = wg_node_info w0.

Lemma next_call n :
  0 <= n ->
  ((n + 1) mod 30001 = n mod 30001 + 1 /\ (n + 1) / 30001 = n / 30001 /\ n mod 30001 < 30000) \/
  ((n + 1) mod 30001 = 0 /\ (n + 1) / 30001 = n / 30001 + 1 /\ n mod 30001 = 30000).
Proof.
  intros Hn. pose proof (Z.div_mod n 30001 ltac:(lia)) as E.
  pose proof (Z.mod_pos_bound n 30001 ltac:(lia)) as Hb.
  destruct (decide (n mod 30001 = 30000)) as [E1|E1]; [right|left].
  - assert (n + 1 = 0 + (n / 30001 + 1) * 30001) as -> by lia.
    rewrite Z.mod_add, Z.div_add by lia. split_and!; [done| |done].
    rewrite Z.div_small by lia. lia.
  - assert (n + 1 = (n mod 30001 + 1) + (n / 30001) * 30001) as Es by lia.
    rewrite Es, Z.mod_add, Z.div_add by lia.
    rewrite Z.mod_small, (Z.div_small (_ + 1)) by lia. split_and!; lia.
Qed.

Lemma detect_call w0 n w :
  0 <= n -> probed w0 n w -> wp wg_plc_mudule_detect w (fun _ w' => probed w0 (n + 1) w').
Proof.
  intros Hn (Hm & Hc & Hk & Hf & Hh & Hp & Hi). unfold wg_plc_mudule_detect. wp_steps. simpl.
  pose proof (Z.mod_pos_bound n 30001 ltac:(lia)) as Hb.
  rewrite Hc, uwrap_small by c_lia.
  destruct (next_call n Hn) as [(E1 & E2 & E3)|(E1 & E2 & E3)].
  - rewrite (proj2 (Z.ltb_ge _ _)) by lia. apply wp_ret.
    unfold probed. simpl. rewrite E1, E2, Hk, Hf. split_and!; try done.
    assert ((n <? 90003) = (n + 1 <? 90003)) as ->; [|done].
    bool_cases; try lia. assert (n = 90002) as -> by lia. by vm_compute in E3.
  - rewrite (proj2 (Z.ltb_lt _ _)) by lia. unfold when. apply wp_bind.
    apply wp_send; [done|by apply FN_u16|simpl; lia|].
    intros r w' [Hm' E]. wp_steps.
    assert (wg_plc_detect_cnt w' = u8 (n / 30001)) as -> by (rewrite E; done). simpl.
    rewrite uwrap_add_l.
    assert (0 <= n / 30001) by (apply Z.div_pos; lia).
    destruct (Z.leb_spec 3 (u8 (n / 30001 + 1))) as [Hge|Hlt].
    + unfold plc_detect_flag_clr. wp_steps. unfold probed. simpl.
      rewrite E1, E2, (proj2 (Z.ltb_ge (n + 1) _)).
      * split_and!; first [done|rewrite E; done].
      * destruct (decide (n / 30001 + 1 < 3)) as [Hs|]; [|pose proof (Z.div_mod n 30001); lia].
        rewrite uwrap_small in Hge by c_lia. lia.
    + wp_steps. unfold probed. simpl. rewrite E1, E2.
      split_and!; try first [done|rewrite E; done].
      assert (plc_detect_flag w' = plc_detect_flag w) as -> by (by rewrite E). rewrite Hf.
      destruct (decide (n + 1 < 90003)).
      * by rewrite !(proj2 (Z.ltb_lt _ _)) by lia.
      * rewrite !(proj2 (Z.ltb_ge (n + 1) _)) by lia.
        destruct (Z.ltb_spec n 90003) as [Hn3|]; [|done]. exfalso.
        assert (n = 90002) as -> by lia. done.
Qed.

(** Loss of the PLC module is detected after three unanswered probes: as
    long as no answer comes in, the detection task, however often it is
    called, never faults and keeps the module's flag up to its 90002nd
    call and clears it at the 90003rd (three times 30001 calls, whatever the
    allocator answers), for good. *)
Theorem wg_detect_loss w n :
  mem_ok w -> detect_cycle w = 0 -> wg_plc_detect_cnt w = 0 ->
  wp (repeat_task n wg_plc_mudule_detect) w (fun _ w' =>
    plc_detect_flag w' = (if Z.of_nat n <? 90003 then plc_detect_flag w else 0) /\
    wg_plc_detect_cnt w' = u8 (Z.of_nat n / 30001) /\ detect_cycle w' = Z.of_nat n mod 30001).
Proof.
  intros Hm Hc Hk. apply (wp_mono _ _ (fun _ w' => probed w (Z.of_nat n) w')).
  - induction n as [|n IH]; simpl repeat_task.
    + apply wp_ret. by split_and!.
    + apply wp_bind. eapply wp_mono; [exact IH|]. intros [] w' Hw'.
      replace (Z.of_nat (S n)) with (Z.of_nat n + 1) by lia. apply detect_call; [lia|done].
  - intros [] w' (_ & ? & ? & ? & _). done.
Qed.

(** ** The dispatch *)

(** A message with one of the four codes without a handler makes the
    dispatcher call a null pointer. *)
Lemma cco_recv_unhandled d w :
  Gdw.afn d ∈ [0x04; 0x05; 0x06; 0x10] -> elec_cco_recv d w = None.
Proof.
  intros H. unfold elec_cco_recv, mbind, M_bind.
  assert (dispatch elec_cco_recvfn d w = None) as ->; [|done].
  unfold elec_cco_recvfn. simpl. set_unfold in H.
  destruct H as [E|[E|[E|[E|[]]]]]; rewrite E; reflexivity.
Qed.

(** A message whose code is in no entry is ignored. *)
Lemma cco_recv_unknown d w :
  Gdw.afn d ∉ elec_cco_recvfn.*1 -> elec_cco_recv d w = Some (0, w).
Proof.
  intros H. unfold elec_cco_recv, mbind, M_bind.
  assert (forall t, Gdw.afn d ∉ t.*1 -> dispatch t d w = Some (tt, w)) as Hd.
  { induction t as [|[c f] t IH]; [done|]. intros Hn. simpl.
    rewrite (proj2 (Z.eqb_neq _ _)) by set_solver. apply IH. set_solver. }
  by rewrite Hd.
Qed.

(** The answer to a probe. *)
Lemma cco_recv_answer d w :
  Gdw.afn d = 0x03 -> Gdw.fn d = FN 10 ->
  elec_cco_recv d w = Some (0, set_detect_cnt 0 (set_flag 1 w)).
Proof.
  intros Ha Hf. unfold elec_cco_recv, elec_cco_recvfn. simpl. rewrite Ha. simpl.
  unfold mbind, M_bind, elec_cco_recv_query, deref. by rewrite Hf.
Qed.

(** ** Deleting a node *)

Lemma del_from_faults fuel p e l q w :
  is_list (w_heap w) (Some p) ((p, e) :: l) -> NoDup (p :: l.*1) -> q ∈ l.*1 ->
  (length l < fuel)%nat -> del_from fuel p q w = None.
Proof.
  revert p e l. induction fuel as [|fuel IH]; intros p e l; [lia|].
  intros (_ & nx & Hp & Hl) Hnd Hq Hf. cbn [del_from].
  rewrite (get_node_bind _ _ _ _ Hp). change (next (cell e nx)) with nx.
  destruct l as [|[r d] l]; [by apply not_elem_of_nil in Hq|].
  destruct Hl as (-> & nx2 & Hr & Hl). cbn [length] in Hf.
  destruct (decide (r = q)) as [->|Hne].
  - rewrite bool_decide_true by done. unfold when.
    assert (p <> q) as Hpq by (intros ->; apply NoDup_cons in Hnd as [Hn _]; set_solver).
    assert (forall A (k : unit -> M wg A), ((d0 ← get_node q;
        put_node p (mk_node (node_id (cell e (Some q))) (phase (cell e (Some q)))
          (loop (cell e (Some q))) (refresh (cell e (Some q))) (next d0));;
        wg_del_node_id q;; node_free q) ≫= k) w =
      k tt (with_heap (delete q (<[p := cell e nx2]> (w_heap w))) (w_brk w) (w_mem w)
              (w_live w - 1) w)) as Hdel.
    { intros A k. unfold mbind, M_bind, get_node at 1. rewrite Hr. simpl.
      unfold wg_del_node_id, mbind, M_bind, get_node. simpl.
      rewrite lookup_insert_ne, Hr by done. simpl. unfold node_free. simpl.
      rewrite lookup_insert_eq. unfold with_heap. simpl.
      rewrite delete_insert_eq. done. }
    rewrite Hdel. destruct fuel as [|fuel]; [done|]. cbn [del_from].
    unfold mbind, M_bind, get_node. simpl. by rewrite lookup_delete_eq.
  - rewrite bool_decide_false by done. unfold when, mbind, M_bind, mret, M_ret.
    apply (IH r d l); [|by apply NoDup_cons in Hnd as [_ Hnd]| |lia].
    + split; [done|]. by exists nx2.
    + apply elem_of_cons in Hq as [->|Hq]; [done|done].
Qed.

(** Deleting a node always ends in a use after free: the loop of
    [wg_node_del] follows the link of the block it has just freed, for
    every list and every node of it. *)
Theorem wg_node_del_faults w hp he l q :
  nodes w hp he l -> q ∈ l.*1 -> wg_node_del q w = None.
Proof.
  intros Hn Hq. pose proof (nodes_fuel _ _ _ _ Hn) as Hf. destruct Hn as [Hh Hl Hnd _].
  unfold wg_node_del, mbind, M_bind, gets, deref. rewrite Hh.
  by apply (del_from_faults _ hp he l).
Qed.

(** ** Concrete runs *)

(** The component after [elec_cco_init], with the allocator's answers. *)
Definition demo_wg (mem : list (option (list Z))) : wg :=
  mk_wg {[1%positive := mk_node (replicate 6 0) 0 0 0 None]} 2 mem 1 (Some 1%positive)
    1 0 [0x11; 0x22; 0x33; 0x44; 0x55; 0x66] (mk_info 0 0 0 0) 0 0 1 (Gdw.mk_send 0 []) [].

Definition demo_header : entry := mk_entry zero_id 0 0 0.

Lemma demo_nodes mem : nodes (demo_wg mem) 1 demo_header [].
Proof.
  split; [done| |apply NoDup_singleton|].
  - split; [done|]. exists None. split; done.
  - simpl. intros p [n Hp]. apply lookup_singleton_Some in Hp as [<- _]. lia.
Qed.

Definition demo_reports : list (list Z * Z * Z) :=
  [([1; 0; 0; 0; 0; 0], 0, 0xF2); ([2; 0; 0; 0; 0; 0], 0, 4); ([1; 0; 0; 0; 0; 0], 0, 1)].

Lemma wg_recv_refines_witness :
  exists w', wg_plc_recv_node_info (FN 23)
      ([3; 0; 3] ++ concat (entry_bytes <$> demo_reports) ++ [0; 0]) 64
      (demo_wg (replicate 3 (Some []))) = Some (tt, w') /\
    exists l', nodes w' 1 demo_header l' /\
      phases (table l') !! [1; 0; 0; 0; 0; 0] = Some 1 /\
      phases (table l') !! [2; 0; 0; 0; 0; 0] = Some 4.
Proof.
  destruct (proj1 (wp_Some _ _ _) (wg_recv_refines (demo_wg (replicate 3 (Some []))) 1
    demo_header [] (FN 23) 3 0 demo_reports [0; 0] 64 (replicate 3 []) []
    (demo_nodes _) ltac:(split; [apply NoDup_nil_2|apply not_elem_of_nil])
    ltac:(vm_compute; congruence) ltac:(repeat constructor)
    ltac:(vm_compute; lia) eq_refl ltac:(vm_compute; lia)))
    as ([] & w' & E & l' & Hn & _ & Hp & _).
  exists w'. split; [exact E|]. exists l'. split; [exact Hn|]. rewrite Hp.
  split; vm_compute; reflexivity.
Defined.

(** A list of [n] nodes, all marked for refresh. *)
Definition demo_id (i : nat) : list Z := [Z.of_nat i; 1; 0; 0; 0; 0].
Definition demo_loc (i : nat) : positive := Pos.of_succ_nat i.
Fixpoint demo_list (n i : nat) : list (positive * entry) :=
  match n with
  | O => []
  | S n => (demo_loc i, mk_entry (demo_id i) 1 0 1) :: demo_list n (S i)
  end.
Fixpoint demo_cells (n i : nat) : gmap positive s_wg_phase :=
  match n with
  | O => ∅
  | S n => <[demo_loc i := mk_node (demo_id i) 1 0 1
               (match n with O => None | _ => Some (demo_loc (S i)) end)]> (demo_cells n (S i))
  end.
Definition demo_full (n : nat) : wg :=
  with_heap (<[1%positive := mk_node (replicate 6 0) 0 0 0 (Some 2%positive)]> (demo_cells n 1))
    50 [Some []] 1 (demo_wg []).

Lemma demo_full_nodes : nodes (demo_full 13) 1 demo_header (demo_list 13 1).
Proof.
  split; [reflexivity| | |].
  - repeat (split; [reflexivity|]; eexists; split; [vm_compute; reflexivity|]). reflexivity.
  - apply (bool_decide_unpack _). vm_compute. exact I.
  - intros p [n Hp]. apply Pos.ltb_lt.
    assert (map_Forall (fun k _ => (k <? 50)%positive = true) (w_heap (demo_full 13))) as HF.
    { apply (bool_decide_unpack _). vm_compute. exact I. }
    exact (HF p n Hp).
Qed.

Lemma wg_upload_bounds_witness :
  wg_plc_node_info_upload (demo_full 13) = None /\
  wg_plc_node_info_upload (demo_wg [Some []]) =
    Some (tt, with_heap (w_heap (demo_wg [])) 2 [] 2 (demo_wg [])).
Proof.
  split.
  - rewrite (wg_upload_bounds (demo_full 13) 1 demo_header (demo_list 13 1) [] []
      demo_full_nodes ltac:(repeat constructor) eq_refl).
    vm_compute. reflexivity.
  - rewrite (wg_upload_bounds (demo_wg [Some []]) 1 demo_header [] [] []
      (demo_nodes _) ltac:(constructor) eq_refl).
    vm_compute. reflexivity.
Defined.

Lemma wg_detect_loss_witness :
  exists w', repeat_task 3 wg_plc_mudule_detect (demo_wg []) = Some (tt, w') /\
    plc_detect_flag w' = 1.
Proof.
  destruct (proj1 (wp_Some _ _ _) (wg_detect_loss (demo_wg []) 3
    ltac:(split; [constructor|vm_compute; lia]) eq_refl eq_refl)) as ([] & w' & E & Hf & _).
  exists w'. split; [exact E|exact Hf].
Defined.

Lemma wg_node_del_faults_witness : wg_node_del 5 (demo_full 13) = None.
Proof.
  apply (wg_node_del_faults (demo_full 13) 1 demo_header (demo_list 13 1) 5 demo_full_nodes).
  apply (bool_decide_unpack _). vm_compute. exact I.
Defined.

End Wg.
