(* ===== verification/ElecThread.v ===== *)
(** * The thread of the electricity device

    Model of [rt-thread/components/elec_dev/elec_thread/elec_thread.c] in the
    configuration the Kconfig selects by default, the concentrator
    ([ELEC_DEV_CCO_MODE]): the registration of the protocol's functions and
    the loop that assembles, parses and dispatches frames and runs the
    application's task.

    A theorem here composes the components below: what comes in over the
    line as bytes changes the application's state as the message says. *)
From stdpp Require Import base list gmap.
From Stdlib Require Import ZArith Lia.
From S2P Require Import Prelude ElecDrv Gdw1376 WgPhase.
Import Drv.

Module Elec.

Inductive elec_dev_type := ELEC_DEV_METER | ELEC_DEV_CCO | ELEC_DEV_CTRLER.

(** The functions a device can register, by name. *)
Inductive protocol_fn :=
| elec_dev_pack_645 | elec_dev_parse_645 | elec_dev_pack_1376_2 | elec_dev_parse_1376_2.

Record s_dev_reg (F : Type) := mk_dev {
  dev_type : elec_dev_type;
  pack_frame : option protocol_fn;
  parse_frame : option protocol_fn;
  initapp : option F;
  recvapp : option F;
  taskapp : option F
}.
Arguments mk_dev {F}.
Arguments dev_type {F}.
Arguments pack_frame {F}.
Arguments parse_frame {F}.

Definition elec_dev_register {F} (dev : s_dev_reg F) (devtype : elec_dev_type)
    (initfn recvfn appfn : F) : s_dev_reg F :=
  let '(pack, parse) :=
    match devtype with
    | ELEC_DEV_METER | ELEC_DEV_CTRLER => (Some elec_dev_pack_645, Some elec_dev_parse_645)
    | ELEC_DEV_CCO => (Some elec_dev_pack_1376_2, Some elec_dev_parse_1376_2)
    end in
  mk_dev devtype pack parse (Some initfn) (Some recvfn) (Some appfn).

Section Thread.
Context {D : Type} `{RxDevice D}.

(** [recv_buf], [data_len] and the assembler's variables; [data_buf] as the
    struct the application reads it as; the application. *)
Record thread_st := mk_thread {
  t_rx : pack_st D;
  t_data : Gdw.s_1376_2_format;
  t_app : Wg.wg
}.

Definition set_rx x t := mk_thread x (t_data t) (t_app t).
Definition set_data x t := mk_thread (t_rx t) x (t_app t).
Definition set_app x t := mk_thread (t_rx t) (t_data t) x.

(** [elec_dev_parse_1376_2_frame(recv_buf, data_len, data_buf)], its block
    from the common allocator. *)
Definition parse_step : M thread_st Z :=
  b ← zoom t_app set_app Wg.rt_malloc;
  rx ← gets t_rx;
  r ← zoom t_data set_data
        (Gdw.elec_dev_parse_1376_2_frame (bool_decide (is_Some b)) (out_buf rx) (pk_len rx));
  when (bool_decide (is_Some b)) (zoom t_app set_app Wg.rt_free_block);;
  mret r.

(** A complete frame: parse it and, when the parser returns 0, dispatch the
    contents of [data_buf]. *)
Definition deliver : M thread_st unit :=
  ret ← parse_step;
  when (ret =? 0)
    (d ← gets t_data;
     zoom t_app set_app (Wg.elec_cco_recv d);; mret tt).

(** One round of the loop; [bytes] have come in since the last one. *)
Definition elec_dev_round (bytes : list Z) : M thread_st unit :=
  modify (fun t => set_rx (pack_arrive bytes (t_rx t)) t);;
  ret ← zoom t_rx set_rx Gdw.elec_dev_pack_1376_2_frame;
  when (ret =? 0) deliver;;
  zoom t_app set_app Wg.elec_cco_task;; mret tt.

Fixpoint elec_dev_loop (arrivals : list (list Z)) : M thread_st unit :=
  match arrivals with
  | [] => mret tt
  | a :: rest => elec_dev_round a;; elec_dev_loop rest
  end.

(** The thread up to the given arrivals. *)
Definition elec_dev_thread (arrivals : list (list Z)) : M thread_st unit :=
  zoom t_app set_app Wg.elec_cco_init;;
  elec_dev_loop arrivals.

End Thread.
Arguments thread_st : clear implicits.

(** ** The application's task between messages *)

(** The two cycle counters stay below the thresholds of the task for [n]
    more rounds. *)
Definition calm (n : nat) (w : Wg.wg) : Prop :=
  0 <= Wg.detect_cycle w /\ Wg.detect_cycle w + Z.of_nat n <= 30000 /\
  0 <= Wg.read_cycle w /\ Wg.read_cycle w + Z.of_nat n < 20000.

(** Only the cycle counters have moved. *)
Definition idle (w w' : Wg.wg) : Prop :=
  w' = Wg.set_detect_cycle (Wg.detect_cycle w') (Wg.set_read_cycle (Wg.read_cycle w') w).

Lemma idle_refl w : idle w w.
Proof. by destruct w. Qed.

Lemma idle_trans w1 w2 w3 : idle w1 w2 -> idle w2 w3 -> idle w1 w3.
Proof. unfold idle. intros E2 E3. rewrite E2 in E3. exact E3. Qed.

Lemma detect_calm w :
  0 <= Wg.detect_cycle w < 30000 ->
  wp Wg.wg_plc_mudule_detect w (fun _ w' => w' = Wg.set_detect_cycle (Wg.detect_cycle w + 1) w).
Proof.
  intros Hd. unfold Wg.wg_plc_mudule_detect. wp_steps. simpl.
  rewrite uwrap_small by c_lia. rewrite (proj2 (Z.ltb_ge _ _)) by lia. done.
Qed.

Lemma read_calm w :
  0 <= Wg.read_cycle w < 19999 ->
  wp Wg.wg_plc_read_and_load_node_info w (fun _ w' =>
    exists c, Wg.read_cycle w <= c <= Wg.read_cycle w + 1 /\ w' = Wg.set_read_cycle c w).
Proof.
  intros Hr. unfold Wg.wg_plc_read_and_load_node_info, Wg.plc_detect_flag_query.
  wp_steps. destruct (negb _).
  - apply wp_ret. exists (Wg.read_cycle w). split; [lia|]. by destruct w.
  - wp_steps. simpl. rewrite uwrap_small by c_lia.
    rewrite (proj2 (Z.ltb_lt _ 20000)) by lia. apply wp_ret.
    exists (Wg.read_cycle w + 1). split; [lia|done].
Qed.

(** With an unchanged module state the task only counts. *)
Lemma task_idle n w (Q : Z -> Wg.wg -> Prop) :
  calm (S n) w -> Wg.last_plc_state w = Wg.plc_detect_flag w ->
  (forall w', idle w w' -> calm n w' -> Q 0 w') ->
  wp Wg.elec_cco_task w Q.
Proof.
  intros (H1 & H2 & H3 & H4) Hl HQ. unfold Wg.elec_cco_task. wp_steps.
  eapply wp_mono; [apply detect_calm; lia|]. intros [] w1 ->. wp_steps.
  unfold Wg.wg_plc_mudule_init, Wg.plc_detect_flag_query. wp_steps. simpl.
  rewrite Hl, Z.eqb_refl. simpl. wp_steps.
  eapply wp_mono; [apply read_calm; simpl; lia|].
  intros [] w2 (c & Hr & ->). wp_steps. apply HQ.
  - unfold idle. by destruct w.
  - unfold calm. simpl in *. lia.
Qed.

(** A task round after the module has been found: the module is set up when
    its state has just changed. *)
Lemma task_found n w (Q : Z -> Wg.wg -> Prop) :
  calm (S n) w -> Wg.mem_ok w -> Wg.plc_detect_flag w = 1 ->
  (forall w', calm n w' -> Wg.mem_ok w' -> Wg.plc_detect_flag w' = 1 ->
     Wg.wg_plc_detect_cnt w' = Wg.wg_plc_detect_cnt w -> Wg.last_plc_state w' = 1 ->
     Wg.w_heap w' = Wg.w_heap w ->
     (Wg.w_send w', Wg.w_mem w') =
       (if Wg.last_plc_state w =? 1 then (Wg.w_send w, Wg.w_mem w)
        else Wg.set_up (Wg.sys_addr w) (Wg.w_send w, Wg.w_mem w)) -> Q 0 w') ->
  wp Wg.elec_cco_task w Q.
Proof.
  intros (H1 & H2 & H3 & H4) Hm Hf HQ. unfold Wg.elec_cco_task. wp_steps.
  eapply wp_mono; [apply detect_calm; lia|]. intros [] w1 ->. wp_steps.
  apply Wg.wp_mudule_init; [done|]. simpl. rewrite Hf. intros w3 [Hm3 E3] Es. wp_steps.
  assert (Wg.read_cycle w3 = Wg.read_cycle w /\ Wg.detect_cycle w3 = Wg.detect_cycle w + 1 /\
    Wg.plc_detect_flag w3 = 1 /\ Wg.wg_plc_detect_cnt w3 = Wg.wg_plc_detect_cnt w /\
    Wg.last_plc_state w3 = 1 /\ Wg.w_heap w3 = Wg.w_heap w)
    as (Er & Ed & Ef & Ek & El & Eh) by (rewrite E3; done).
  eapply wp_mono; [apply read_calm; lia|]. intros [] w4 (c & Hr & ->). wp_steps.
  apply HQ; try done. unfold calm. simpl. lia.
Qed.

Section Loop.
Context {D : Type} `{RxDeviceLaws D}.

(** Up to the first complete frame the loop does what polling does, and the
    application only counts. *)
Lemma loop_until_frame arr later n rx rx' d w (Q : unit -> thread_st D -> Prop) :
  poll_frame Gdw.elec_dev_pack_1376_2_frame arr rx = Some (Some later, rx') ->
  calm (length arr + n) w -> Wg.last_plc_state w = Wg.plc_detect_flag w ->
  (forall w', idle w w' -> calm (S (length later + n)) w' ->
     wp (deliver;; zoom t_app set_app Wg.elec_cco_task;; elec_dev_loop later)
       (mk_thread rx' d w') Q) ->
  wp (elec_dev_loop arr) (mk_thread rx d w) Q.
Proof.
  revert rx w. induction arr as [|a arr IH]; intros rx w Hpoll Hc Hl HQ; [done|].
  cbn [elec_dev_loop]. unfold elec_dev_round. wp_steps. unfold set_rx. simpl.
  cbn [poll_frame] in Hpoll.
  change ((modify (pack_arrive a);; r ← Gdw.elec_dev_pack_1376_2_frame;
    if r =? 0 then mret (Some arr) else poll_frame Gdw.elec_dev_pack_1376_2_frame arr) rx)
    with ((r ← Gdw.elec_dev_pack_1376_2_frame;
    if r =? 0 then mret (Some arr) else poll_frame Gdw.elec_dev_pack_1376_2_frame arr)
      (pack_arrive a rx)) in Hpoll.
  unfold mbind, M_bind in Hpoll.
  unfold wp at 1. destruct (Gdw.elec_dev_pack_1376_2_frame (pack_arrive a rx)) as [[r rx1]|]; [|done].
  destruct (r =? 0).
  - injection Hpoll as <- <-. wp_steps. unfold when.
    specialize (HQ w (idle_refl w) Hc). apply wp_bind_inv in HQ.
    eapply wp_mono; [exact HQ|]. intros [] t1 H1. apply wp_bind. apply wp_bind_inv in H1.
    eapply wp_mono; [exact H1|]. intros r1 t2 H2. by apply wp_ret.
  - wp_steps. unfold when. wp_steps. simpl.
    apply (task_idle (length arr + n)); [done|done|].
    intros w1 Hi1 Hc1. wp_steps. unfold set_app. simpl.
    apply IH; [done|done| |].
    + rewrite Hi1. done.
    + intros w2 Hi2 Hc2. apply HQ; [by eapply idle_trans|done].
Qed.

(** Without further bytes nothing happens. *)
Lemma loop_silent later n rx d w (Q : unit -> thread_st D -> Prop) :
  concat later = [] -> at_rest rx -> pack_pending rx = [] -> (0 < length (out_buf rx))%nat ->
  calm (length later + n) w -> Wg.last_plc_state w = Wg.plc_detect_flag w ->
  (forall rx' w', at_rest rx' -> idle w w' -> Q tt (mk_thread rx' d w')) ->
  wp (elec_dev_loop later) (mk_thread rx d w) Q.
Proof.
  revert rx w. induction later as [|a later IH]; intros rx w Hcat Hr Hp Hlen Hc Hl HQ.
  { apply wp_ret. apply HQ; [done|apply idle_refl]. }
  simpl in Hcat. apply app_nil in Hcat as [-> Hcat].
  cbn [elec_dev_loop]. unfold elec_dev_round. wp_steps. unfold set_rx. simpl.
  eapply wp_mono.
  { apply (Gdw.skips_1376 0 ltac:(done) (pack_arrive [] rx) []); [done|done|].
    rewrite pack_pending_arrive, Hp by constructor. apply prefix_nil. }
  rewrite pack_pending_arrive, Hp by constructor. simpl.
  intros r rx1 (bs & Hp1 & _ & _ & Hr0 & Hr1 & Hl1).
  symmetry in Hp1. apply app_nil in Hp1 as [_ Hp1].
  rewrite (proj2 (Z.eqb_neq r 0)) by done. unfold when. wp_steps. simpl.
  apply (task_idle (length later + n)); [done|done|].
  intros w1 Hi1 Hc1. wp_steps. unfold set_app. simpl.
  apply IH; try done.
  - rewrite Hl1. done.
  - by rewrite Hi1.
  - intros rx' w' Hrx Hi. apply HQ; [done|by eapply idle_trans].
Qed.

(** A frame at the head of [recv_buf] reaches the application. *)
Lemma wp_deliver ctrl info gap idx addrs a f d tl rx d0 w junk m (Q : unit -> thread_st D -> Prop) :
  let p := Gdw.payload ctrl info gap idx addrs a f d in
  Gdw.payload_ok ctrl info gap idx addrs a f d -> (length d <= 244)%nat ->
  out_buf rx = Gdw.frame p ++ tl -> pk_len rx = Z.of_nat (length (Gdw.frame p)) ->
  Wg.w_mem w = Some junk :: m ->
  (let w1 := Wg.with_heap (Wg.w_heap w) (Wg.w_brk w) m (Wg.w_live w) w in
   let msg := Gdw.decoded info addrs a f (Z.of_nat (length (Gdw.frame p))) d
                (Gdw.gdw_block ELEC_DEV_TRANS_MAX_LEN) in
   wp (Wg.elec_cco_recv msg) w1 (fun _ w' => Q tt (mk_thread rx msg w'))) ->
  wp deliver (mk_thread rx d0 w) Q.
Proof.
  intros p Hok Hd Hbuf Hlen Hm HQ. unfold deliver, parse_step.
  apply wp_bind, wp_bind, wp_zoom. unfold Wg.rt_malloc at 1, wp at 1. simpl. rewrite Hm.
  rewrite bool_decide_true by (by eexists). wp_steps. simpl. rewrite Hbuf, Hlen.
  eapply wp_mono; [by apply Gdw.parse_frame_ok|]. intros r st (-> & ->).
  unfold when, Wg.rt_free_block, set_data, set_app. wp_steps. simpl. wp_steps. simpl.
  replace (Wg.w_live w + 1 - 1) with (Wg.w_live w) by lia.
  eapply wp_mono; [exact HQ|]. intros r' w' Hw'. wp_steps. done.
Qed.

(** C9. From the line to the application: a concentrator whose receiver is
    at rest and whose task is between its periodic actions receives the
    answer to its probe (AFN 03, FN 10), cut in any way by the line and
    behind any bytes other than the mark.  When the loop has run, the module
    counts as found, with no probe outstanding, and the receiver is at rest
    again.  If the module did not count as found before, its set-up has been
    sent: the frame with the address of the master and the one that turns the
    white list off, in this order, each as far as the allocator had its two
    blocks ([set_up]); otherwise nothing has been sent. *)
Theorem elec_answer_found ctrl info gap idx addrs d g cs n (rx : pack_st D) d0 w junk m :
  let p := Gdw.payload ctrl info gap idx addrs 0x03 (Wg.FN 10) d in
  Gdw.payload_ok ctrl info gap idx addrs 0x03 (Wg.FN 10) d ->
  Z.of_nat (length (Gdw.frame p)) <= ELEC_DEV_TRANS_MAX_LEN ->
  Forall (fun x => x <> 0x68) g -> at_rest rx ->
  Z.of_nat (length (out_buf rx)) = ELEC_DEV_TRANS_MAX_LEN ->
  Forall is_u8 (concat cs) -> pack_pending rx ++ concat cs = g ++ Gdw.frame p ->
  (length (g ++ Gdw.frame p) <= n)%nat -> Z.of_nat (length cs + n) <= 10000 ->
  calm (length cs + n) w -> Wg.last_plc_state w = Wg.plc_detect_flag w ->
  Wg.mem_ok w -> Wg.w_mem w = Some junk :: m ->
  wp (elec_dev_loop (cs ++ replicate n [])) (mk_thread rx d0 w) (fun _ t =>
    Wg.plc_detect_flag (t_app t) = 1 /\ Wg.wg_plc_detect_cnt (t_app t) = 0 /\
    Wg.last_plc_state (t_app t) = 1 /\ Wg.w_heap (t_app t) = Wg.w_heap w /\
    (Wg.w_send (t_app t), Wg.w_mem (t_app t)) =
      (if Wg.plc_detect_flag w =? 1 then (Wg.w_send w, m)
       else Wg.set_up (Wg.sys_addr w) (Wg.w_send w, m)) /\
    at_rest (t_rx t) /\ Gdw.data (t_data t) = d ++ replicate (244 - length d) 0).
Proof.
  intros p Hok Hfit Hg Hrest Hcap Hu Hp Hn Ht Hcalm Hl Hmok Hm.
  unfold ELEC_DEV_TRANS_MAX_LEN in *.
  pose proof (Gdw.length_gframe p) as Hfl.
  pose proof (Gdw.length_payload _ _ _ _ _ _ _ _ Hok) as Hpl. fold p in Hpl.
  destruct (Gdw.frameable_between 256 g (Gdw.frame p) Hg (Gdw.frame_outer p ltac:(c_lia)) ltac:(lia))
    as (Hpos & Mid & Hstep & Harr & Hstart).
  destruct (proj1 (wp_Some _ _ _) (poll_reassembles _ (g ++ Gdw.frame p) Mid _ cs n 0 0 rx [] Hstep Harr
    ltac:(apply Hstart; [done|lia]) Hpos Hu ltac:(rewrite drop_0, app_nil_r; done)
    ltac:(lia) ltac:(lia)))
    as (r & rx' & E & cs' & n' & -> & (Hcap' & Hlen' & Hbuf & Hr') & Hnil & _ & Hle & _).
  apply app_nil in Hnil as [Hp' Hcs'].
  eapply (loop_until_frame _ _ 0); [exact E| |done|].
  { by rewrite length_app, length_replicate, Nat.add_0_r. }
  intros w1 Hi1 Hc1.
  assert (Wg.w_mem w1 = Some junk :: m) as Hm1 by (by rewrite Hi1).
  assert (Wg.mem_ok w1) as Hmok1 by (rewrite Hi1; done).
  apply wp_bind. eapply wp_deliver; [exact Hok|lia| |done|exact Hm1|].
  { rewrite <- (take_drop (length (Gdw.frame p)) (out_buf rx')), Hbuf. done. }
  cbv zeta. unfold wp. rewrite Wg.cco_recv_answer by done.
  apply wp_bind, wp_zoom. simpl t_app.
  apply (task_found (length (cs' ++ replicate n' []) + 0)); [done| |done|].
  { destruct Hmok1 as [Hmm Ha]. split; [|done]. simpl. rewrite Hm1 in Hmm.
    by apply Forall_cons in Hmm as [_ Hmm]. }
  intros w2 Hc2 _ Hf2 Hk2 Hl2 Hh2 Hs2. unfold set_app. simpl.
  apply (loop_silent _ 0); try done.
  - rewrite concat_app, Hcs'. simpl. clear. by induction n'.
  - rewrite Hcap'. lia.
  - by rewrite Hl2, Hf2.
  - intros rx2 w3 Hr2 Hi3. simpl. rewrite Hi3. simpl. split_and!; try done.
    + rewrite Hh2. simpl. by rewrite Hi1.
    + rewrite Hs2. simpl. rewrite <- Hl. by rewrite Hi1.
    + unfold ELEC_DEV_TRANS_MAX_LEN. simpl. f_equal. apply (drop_replicate (length d) 244 0).
Qed.
End Loop.

(** ** Concrete runs *)

Definition demo_blocks : list (option (list Z)) := replicate 8 (Some (replicate 252 0)).

Definition demo_thread : thread_st (list Z) :=
  mk_thread Gdw.demo_rx (Gdw.gdw_block ELEC_DEV_TRANS_MAX_LEN)
    (Wg.set_last_plc_state 0 (Wg.set_flag 0 (Wg.demo_wg demo_blocks))).

Definition demo_answer : list Z :=
  Gdw.frame (Gdw.payload 0x41 0 [0; 0; 0; 0] 1 [] 0x03 (Wg.FN 10) [7]).

(** The set-up of a module just found is two frames. *)
Lemma elec_answer_found_witness :
  exists t, elec_dev_loop ([[0xFE]; take 4 demo_answer; drop 4 demo_answer] ++ replicate 20 [])
      demo_thread = Some (tt, t) /\
    Wg.plc_detect_flag (t_app t) = 1 /\ Wg.last_plc_state (t_app t) = 1 /\
    Gdw.s_tx (Wg.w_send (t_app t)) =
      [Gdw.frame (Gdw.payload 0x41 0 [0; 0; 0; 0] 0 [] 0x05 (Wg.FN 1) (rev (take 6 (Wg.sys_addr (t_app demo_thread)))));
       Gdw.frame (Gdw.payload 0x41 0 [0; 0; 0; 0] 1 [] 0xF0 (Wg.FN 4) [0x20])].
Proof.
  destruct (proj1 (wp_Some _ _ _) (elec_answer_found 0x41 0 [0; 0; 0; 0] 1 [] [7] [0xFE]
    [[0xFE]; take 4 demo_answer; drop 4 demo_answer] 20 Gdw.demo_rx
    (Gdw.gdw_block ELEC_DEV_TRANS_MAX_LEN) (t_app demo_thread) (replicate 252 0)
    (replicate 7 (Some (replicate 252 0)))
    ltac:(split_and!; vm_compute; try lia; try split; congruence)
    ltac:(vm_compute; congruence)
    ltac:(repeat constructor; vm_compute; congruence)
    ltac:(repeat split) eq_refl ltac:(apply (bool_decide_unpack _); vm_compute; exact I) eq_refl
    ltac:(vm_compute; lia) ltac:(vm_compute; congruence)
    ltac:(split_and!; vm_compute; congruence) eq_refl
    ltac:(split; [repeat constructor; vm_compute; lia|vm_compute; lia]) eq_refl))
    as ([] & t & E & H1 & _ & H2 & _ & H3 & _).
  exists t. split; [exact E|]. split; [exact H1|]. split; [exact H2|].
  apply (f_equal fst) in H3. simpl fst in H3. rewrite H3. vm_compute. reflexivity.
Defined.

(** The parser returns 0 also for a frame the decoder refuses, and the loop
    dispatches [data_buf] whenever it returns 0: after a frame with a wrong
    checksum the previous message is handled a second time.  Here a node
    report of one entry advances the query index by two. *)
Definition demo_report : list Z :=
  Gdw.frame (Gdw.payload 0x41 0 [0; 0; 0; 0] 1 [] 0xF0 (Wg.FN 23)
    ([1; 0; 1] ++ [1; 2; 3; 4; 5; 6; 0; 1])).

Definition demo_corrupt : list Z :=
  [0x68; 0x0f; 0; 0x41; 0; 0; 0; 0; 0; 1; 0x02; 1; 0; 0xEE; 0x16].

Theorem corrupt_frame_replays :
  exists t1 t2,
    elec_dev_loop (demo_report :: replicate 3 []) demo_thread = Some (tt, t1) /\
    Wg.index (Wg.wg_node_info (t_app t1)) = 1 /\
    elec_dev_loop (demo_corrupt :: replicate 3 []) t1 = Some (tt, t2) /\
    Wg.index (Wg.wg_node_info (t_app t2)) = 2.
Proof.
  do 2 eexists. split; [vm_compute; reflexivity|]. split; [reflexivity|].
  split; [vm_compute; reflexivity|]. reflexivity.
Qed.

(** A well-formed frame with one of the four function codes that have no
    handler stops the thread in a call through a null pointer. *)
Definition demo_link_check : list Z :=
  Gdw.frame (Gdw.payload 0x41 0 [0; 0; 0; 0] 1 [] 0x04 (Wg.FN 1) []).

Theorem unhandled_afn_faults :
  elec_dev_loop (demo_link_check :: replicate 3 []) demo_thread = None.
Proof. vm_compute. reflexivity. Qed.

End Elec.
