(* ===== verification/Serial.v ===== *)
(** * Serial devices

    Model of [rt-thread/components/drivers/serial/serial.c] in the
    configuration of the board: polled and interrupt-driven transfer, no DMA,
    no POSIX layer.  The low-level driver behind [struct rt_uart_ops] is the
    class [UartOps]; the drivers that read the registers of the UART are not
    compiled (the file drv_usart.c has them under [#if 0]), the virtual one
    is the instance [virtual_uart].  The receive and transmit structures come
    from an allocator of file Alloc.

    The interrupt-driven write waits for a completion when the UART takes no
    byte: it then returns [Waiting] with the bytes left, and goes on with
    [_serial_int_tx] when the completion is done. *)
From stdpp Require Import base list gmap.
From Stdlib Require Import ZArith Lia.
From S2P Require Import Prelude Scheduler Object Timer Thread Ipc Errno SmallMem Alloc Device ElecDrv.

Module Serial.
Import Sched Ipc Errno Alloc Dev.

Definition RT_SERIAL_EVENT_RX_IND : Z := 0x01.
Definition RT_SERIAL_EVENT_TX_DONE : Z := 0x02.
(** rtconfig.h *)
Definition RT_SERIAL_RB_BUFSZ : Z := 4096.

Record serial_configure := mk_config {
  baud_rate : Z;
  data_bits : Z;
  stop_bits : Z;
  parity : Z;
  bit_order : Z;
  invert : Z;
  bufsz : Z            (* 16 bits *)
}.

Definition RT_SERIAL_CONFIG_DEFAULT : serial_configure :=
  mk_config 115200 8 0 0 0 0 RT_SERIAL_RB_BUFSZ.

(** The argument of a control command: null, a configuration or a number. *)
Inductive serial_arg := ArgNull | ArgConfig (c : serial_configure) | ArgInt (x : Z).

(** [struct rt_uart_ops] *)
Class UartOps (H : Type) := {
  uart_configure : option (serial_configure -> M H Z);
  uart_control : Z -> serial_arg -> M H Z;
  uart_putc : Z -> M H Z;
  uart_getc : M H Z
}.

Record rt_serial_rx_fifo := mk_fifo {
  buffer : list Z;
  put_index : Z;       (* rt_uint16_t *)
  get_index : Z;       (* rt_uint16_t *)
  is_full : bool
}.

(** [sizeof] of the two structures. *)
Definition SIZEOF_RX_FIFO : Z := 12.
Definition SIZEOF_TX_FIFO : Z := 12.

Section Driver.
Context {H A : Type} {UO : UartOps H} {AA : Allocator A}.

(** [struct rt_serial_device] with what it reaches: [serial_rx] and
    [serial_tx] carry the address of their block, [serial_tx] the flag of its
    completion; [s_ind] lists the calls of [rx_indicate]. *)
Record serial := mk_serial {
  s_dev : rt_device;
  s_config : serial_configure;
  serial_rx : option (Z * rt_serial_rx_fifo);
  serial_tx : option (Z * bool);
  already_output : bool;
  s_ind : list Z;
  s_hw : H;
  s_heap : A
}.

Definition set_s_dev v s := mk_serial v (s_config s) (serial_rx s) (serial_tx s) (already_output s) (s_ind s) (s_hw s) (s_heap s).
Definition set_config v s := mk_serial (s_dev s) v (serial_rx s) (serial_tx s) (already_output s) (s_ind s) (s_hw s) (s_heap s).
Definition set_rx v s := mk_serial (s_dev s) (s_config s) v (serial_tx s) (already_output s) (s_ind s) (s_hw s) (s_heap s).
Definition set_tx v s := mk_serial (s_dev s) (s_config s) (serial_rx s) v (already_output s) (s_ind s) (s_hw s) (s_heap s).
Definition set_output v s := mk_serial (s_dev s) (s_config s) (serial_rx s) (serial_tx s) v (s_ind s) (s_hw s) (s_heap s).
Definition set_ind v s := mk_serial (s_dev s) (s_config s) (serial_rx s) (serial_tx s) (already_output s) v (s_hw s) (s_heap s).
Definition set_hw v s := mk_serial (s_dev s) (s_config s) (serial_rx s) (serial_tx s) (already_output s) (s_ind s) v (s_heap s).
Definition set_heap v s := mk_serial (s_dev s) (s_config s) (serial_rx s) (serial_tx s) (already_output s) (s_ind s) (s_hw s) v.

Definition in_hw {B} (m : M H B) : M serial B := zoom s_hw set_hw m.
Definition in_heap {B} (m : M A B) : M serial B := zoom s_heap set_heap m.
Definition upd_s_dev (f : rt_device -> rt_device) : M serial unit :=
  modify (fun s => set_s_dev (f (s_dev s)) s).
Definition or_open_flag (b : Z) : M serial unit :=
  upd_s_dev (fun d => set_open_flag (Z.lor (open_flag d) b) d).

(** ** Polling *)

(** [length] rounds at most; the result is what is stored at [data]. *)
Fixpoint _serial_poll_rx (length : nat) : M serial (list Z) :=
  match length with
  | O => mret []
  | S length =>
      ch ← in_hw uart_getc;
      if ch =? -1 then mret [] else
      d ← gets s_dev;
      if has (open_flag d) RT_DEVICE_FLAG_STREAM && (ch =? 10) then mret [u8 ch]
      else rest ← _serial_poll_rx length; mret (u8 ch :: rest)
  end.

Fixpoint poll_tx_loop (data : list Z) : M serial unit :=
  match data with
  | [] => mret tt
  | x :: data =>
      d ← gets s_dev;
      (if (x =? 10) && has (open_flag d) RT_DEVICE_FLAG_STREAM
       then in_hw (uart_putc 13);; mret tt else mret tt);;
      in_hw (uart_putc x);;
      poll_tx_loop data
  end.

Definition _serial_poll_tx (data : list Z) : M serial Z :=
  poll_tx_loop data;; mret (Z.of_nat (length data)).

(** ** Interrupts *)

Definition get_fifo : M serial (Z * rt_serial_rx_fifo) := rx ← gets serial_rx; deref rx.
Definition put_fifo (a : Z) (f : rt_serial_rx_fifo) : M serial unit := modify (set_rx (Some (a, f))).

(** [index += 1; if (index >= bufsz) index = 0] *)
Definition next_index (n i : Z) : Z := let i := u16 (i + 1) in if n <=? i then 0 else i.

Fixpoint _serial_int_rx (length : nat) : M serial (list Z) :=
  match length with
  | O => mret []
  | S length =>
      '(a, f) ← get_fifo;
      if (get_index f =? put_index f) && negb (is_full f) then mret [] else
      ch ← deref (rd (buffer f) (get_index f));
      n ← gets (fun s => bufsz (s_config s));
      put_fifo a (mk_fifo (buffer f) (put_index f) (next_index n (get_index f)) false);;
      rest ← _serial_int_rx length;
      mret (Z.land ch 0xff :: rest)
  end.

(** The loop of [_serial_int_tx]: the bytes left when it has to wait. *)
Fixpoint int_tx_loop (data : list Z) : M serial (option (list Z)) :=
  match data with
  | [] => mret None
  | x :: data' =>
      d ← gets s_dev;
      r ← (if (x =? 10) && has (open_flag d) RT_DEVICE_FLAG_STREAM
           then in_hw (uart_putc 13) else mret 0);
      if r =? -1 then mret (Some data) else
      r ← in_hw (uart_putc x);
      if r =? -1 then mret (Some data) else int_tx_loop data'
  end.

(** [size] is the length of the whole write, [data] what is left of it. *)
Definition _serial_int_tx (size : Z) (data : list Z) : M serial (outcome (Z * list Z) Z) :=
  left ← int_tx_loop data;
  mret (match left with None => Returned size | Some l => Waiting (size, l) end).

Definition _serial_check_buffer_size : M serial unit := modify (set_output true).

(** The loop of [RT_SERIAL_EVENT_RX_IND]: one byte of the UART per round. *)
Definition isr_store (ch : Z) : M serial unit :=
  '(a, f) ← get_fifo;
  n ← gets (fun s => bufsz (s_config s));
  b ← deref (wr (buffer f) (put_index f) (u8 ch));
  let put := next_index n (put_index f) in
  if put =? get_index f then
    put_fifo a (mk_fifo b put (next_index n (get_index f)) true);;
    _serial_check_buffer_size
  else put_fifo a (mk_fifo b put (get_index f) (is_full f)).

Fixpoint isr_rx_loop (fuel : nat) : M serial unit :=
  match fuel with
  | O => fault
  | S fuel =>
      ch ← in_hw uart_getc;
      if ch =? -1 then mret tt else isr_store ch;; isr_rx_loop fuel
  end.

Definition rt_hw_serial_isr (fuel : nat) (event : Z) : M serial unit :=
  if Z.land event 0xff =? RT_SERIAL_EVENT_RX_IND then
    isr_rx_loop fuel;;
    d ← gets s_dev;
    match rx_indicate d with
    | None => mret tt
    | Some _ =>
        '(_, f) ← get_fifo;
        n ← gets (fun s => bufsz (s_config s));
        let rx_length := if get_index f <=? put_index f then put_index f - get_index f
                         else n - (get_index f - put_index f) in
        when (negb (rx_length =? 0)) (modify (fun s => set_ind (s_ind s ++ [rx_length]) s))
    end
  else if Z.land event 0xff =? RT_SERIAL_EVENT_TX_DONE then
    tx ← gets serial_tx;
    tx ← deref tx;
    modify (set_tx (Some (fst tx, true)))
  else mret tt.

(** ** The device interface *)

Definition rt_serial_init : M serial Z :=
  modify (fun s => set_tx None (set_rx None s));;
  match uart_configure with
  | Some f => c ← gets s_config; in_hw (f c)
  | None => mret RT_EOK
  end.

(** A block that must not be null: the assertion is compiled out. *)
Definition malloc_or_fault (n : Z) : M serial Z :=
  p ← in_heap (rt_malloc n);
  if p =? 0 then fault else mret p.

Definition open_rx (oflag : Z) : M serial unit :=
  rx ← gets serial_rx;
  match rx with
  | None =>
      if has oflag RT_DEVICE_FLAG_INT_RX then
        n ← gets (fun s => bufsz (s_config s));
        p ← malloc_or_fault (SIZEOF_RX_FIFO + n);
        put_fifo p (mk_fifo (replicate (Z.to_nat n) 0) 0 0 false);;
        or_open_flag RT_DEVICE_FLAG_INT_RX;;
        in_hw (uart_control RT_DEVICE_CTRL_SET_INT (ArgInt RT_DEVICE_FLAG_INT_RX));;
        mret tt
      else mret tt
  | Some _ => when (has oflag RT_DEVICE_FLAG_INT_RX) (or_open_flag RT_DEVICE_FLAG_INT_RX)
  end.

Definition open_tx (oflag : Z) : M serial unit :=
  tx ← gets serial_tx;
  match tx with
  | None =>
      if has oflag RT_DEVICE_FLAG_INT_TX then
        p ← malloc_or_fault SIZEOF_TX_FIFO;
        modify (set_tx (Some (p, false)));;
        or_open_flag RT_DEVICE_FLAG_INT_TX;;
        in_hw (uart_control RT_DEVICE_CTRL_SET_INT (ArgInt RT_DEVICE_FLAG_INT_TX));;
        mret tt
      else mret tt
  | Some _ => when (has oflag RT_DEVICE_FLAG_INT_TX) (or_open_flag RT_DEVICE_FLAG_INT_TX)
  end.

(** The device offers every transfer mode that is asked for. *)
Definition modes_offered (oflag flag : Z) : bool :=
  negb (has oflag RT_DEVICE_FLAG_DMA_RX && negb (has flag RT_DEVICE_FLAG_DMA_RX)) &&
  negb (has oflag RT_DEVICE_FLAG_DMA_TX && negb (has flag RT_DEVICE_FLAG_DMA_TX)) &&
  negb (has oflag RT_DEVICE_FLAG_INT_RX && negb (has flag RT_DEVICE_FLAG_INT_RX)) &&
  negb (has oflag RT_DEVICE_FLAG_INT_TX && negb (has flag RT_DEVICE_FLAG_INT_TX)).

Definition rt_serial_open (oflag : Z) : M serial Z :=
  d ← gets s_dev;
  if negb (modes_offered oflag (dev_flag d)) then mret (- RT_EIO) else
  let stream_flag :=
    if has oflag RT_DEVICE_FLAG_STREAM || has (open_flag d) RT_DEVICE_FLAG_STREAM
    then RT_DEVICE_FLAG_STREAM else 0 in
  upd_s_dev (set_open_flag (Z.land oflag 0xff));;
  open_rx oflag;;
  open_tx oflag;;
  or_open_flag stream_flag;;
  mret RT_EOK.

Definition clear_open_flag (b : Z) : M serial unit :=
  upd_s_dev (fun d => set_open_flag (Z.land (open_flag d) (Z.lnot b)) d).

Definition rt_serial_close : M serial Z :=
  d ← gets s_dev;
  if 1 <? ref_count d then mret RT_EOK else
  when (has (open_flag d) RT_DEVICE_FLAG_INT_RX)
    (fifo ← get_fifo;
     in_heap (rt_free (fst fifo));;
     modify (set_rx None);;
     clear_open_flag RT_DEVICE_FLAG_INT_RX;;
     in_hw (uart_control RT_DEVICE_CTRL_CLR_INT (ArgInt RT_DEVICE_FLAG_INT_RX));; mret tt);;
  d ← gets s_dev;
  when (has (open_flag d) RT_DEVICE_FLAG_INT_TX)
    (tx ← gets serial_tx;
     tx ← deref tx;
     in_heap (rt_free (fst tx));;
     modify (set_tx None);;
     clear_open_flag RT_DEVICE_FLAG_INT_TX;;
     in_hw (uart_control RT_DEVICE_CTRL_CLR_INT (ArgInt RT_DEVICE_FLAG_INT_TX));; mret tt);;
  in_hw (uart_control RT_DEVICE_CTRL_CLOSE ArgNull);;
  upd_s_dev (fun d => set_dev_flag (Z.land (dev_flag d) (Z.lnot RT_DEVICE_FLAG_ACTIVATED)) d);;
  mret RT_EOK.

Definition rt_serial_read (pos size : Z) : M serial (list Z) :=
  if size =? 0 then mret [] else
  d ← gets s_dev;
  if has (open_flag d) RT_DEVICE_FLAG_INT_RX then _serial_int_rx (Z.to_nat size)
  else _serial_poll_rx (Z.to_nat size).

Definition rt_serial_write (pos : Z) (data : list Z) : M serial (outcome (Z * list Z) Z) :=
  if Z.of_nat (length data) =? 0 then mret (Returned 0) else
  d ← gets s_dev;
  if has (open_flag d) RT_DEVICE_FLAG_INT_TX then
    tx ← gets serial_tx;
    tx ← deref tx;
    _serial_int_tx (Z.of_nat (length data)) data
  else r ← _serial_poll_tx data; mret (Returned r).

(** [RT_EBUSY] is returned without a sign. *)
Definition rt_serial_control (cmd : Z) (args : serial_arg) : M serial Z :=
  if cmd =? RT_DEVICE_CTRL_SUSPEND then
    upd_s_dev (fun d => set_dev_flag (Z.lor (dev_flag d) RT_DEVICE_FLAG_SUSPENDED) d);; mret RT_EOK
  else if cmd =? RT_DEVICE_CTRL_RESUME then
    upd_s_dev (fun d => set_dev_flag (Z.land (dev_flag d) (Z.lnot RT_DEVICE_FLAG_SUSPENDED)) d);; mret RT_EOK
  else if cmd =? RT_DEVICE_CTRL_CONFIG then
    match args with
    | ArgNull => mret RT_EOK
    | ArgInt _ => fault
    | ArgConfig c =>
        d ← gets s_dev;
        old ← gets s_config;
        if negb (bufsz c =? bufsz old) && negb (ref_count d =? 0) then mret RT_EBUSY else
        modify (set_config c);;
        when (negb (ref_count d =? 0))
          (f ← deref uart_configure; in_hw (f c);; mret tt);;
        mret RT_EOK
    end
  else in_hw (uart_control cmd args).

#[export] Instance serial_ops : DeviceOps serial := {|
  dev_arg := serial_arg;
  dev_wait := Z * list Z;
  parent := s_dev;
  set_parent := set_s_dev;
  device_init := Some rt_serial_init;
  device_open := Some rt_serial_open;
  device_close := Some rt_serial_close;
  device_read := Some rt_serial_read;
  device_write := Some rt_serial_write;
  device_control := Some rt_serial_control
|}.

Definition rt_hw_serial_register (dev : oid) (nm : list Z) (flag : Z) : M (serial * errno_st) Z :=
  in_drv (upd_s_dev (fun d => set_tx_done None (set_rx_ind None d)));;
  rt_device_register (Some dev) nm flag.

End Driver.
Arguments serial : clear implicits.

(** ** drv_usart.c: the virtual UART of the console *)

Definition virtual_uart : UartOps unit := {|
  uart_configure := Some (fun _ => mret RT_EOK);
  uart_control := fun _ _ => mret RT_EOK;
  uart_putc := fun _ => mret 0;
  uart_getc := mret (-1)
|}.
#[export] Existing Instance virtual_uart.

(** * The receive side

    What serial.c expects of the receive side of a UART: the bytes received
    come out of [getc] in order, then -1.  [hw_arrive] is the line. *)
Class UartRx (H : Type) {UO : UartOps H} := {
  hw_pending : H -> list Z;
  hw_arrive : list Z -> H -> H;
  pending_arrive bs h : Forall is_u8 bs -> hw_pending (hw_arrive bs h) = hw_pending h ++ bs;
  getc_none h : hw_pending h = [] ->
    exists h', uart_getc h = Some (-1, h') /\ hw_pending h' = [];
  getc_some h x l : hw_pending h = x :: l ->
    is_u8 x /\ exists h', uart_getc h = Some (x, h') /\ hw_pending h' = l
}.

(** A queue that keeps the last [n] bytes. *)
Definition keep_last (n : Z) (q : list Z) : list Z := drop (length q - Z.to_nat n) q.

(** The receive structure of a buffer of [n] bytes holds the queue [q]: one
    cell stays unused. *)
Record fifo_ok (n : Z) (f : rt_serial_rx_fifo) (q : list Z) : Prop := {
  fo_size : 2 <= n < 2 ^ 16;
  fo_len : Z.of_nat (length (buffer f)) = n;
  fo_ring : ring (buffer f) (get_index f) q;
  fo_put : put_index f = (get_index f + Z.of_nat (length q)) mod n;
  fo_room : Z.of_nat (length q) < n;
  fo_full : is_full f = true -> q <> [];
  fo_bytes : Forall is_u8 q
}.

Lemma next_index_mod n i : 2 <= n < 2 ^ 16 -> 0 <= i < n -> next_index n i = (i + 1) mod n.
Proof. intros. unfold next_index. rewrite uwrap_small by c_lia. apply mod_succ_wrap; lia. Qed.

Lemma keep_last_all n q : Z.of_nat (length q) <= n -> keep_last n q = q.
Proof. intros. unfold keep_last. replace (length q - Z.to_nat n)%nat with O by lia. done. Qed.

Lemma keep_last_app n q1 q2 : keep_last n (keep_last n q1 ++ q2) = keep_last n (q1 ++ q2).
Proof.
  unfold keep_last. rewrite !length_app, length_drop.
  destruct (decide (length q1 <= Z.to_nat n)%nat).
  { replace (length q1 - Z.to_nat n)%nat with O by lia. by rewrite Nat.sub_0_r. }
  replace (drop (length q1 - Z.to_nat n) q1 ++ q2) with (drop (length q1 - Z.to_nat n) (q1 ++ q2))
    by (rewrite drop_app; f_equal; replace (length q1 - Z.to_nat n - length q1)%nat with O by lia; done).
  rewrite drop_drop. f_equal. lia.
Qed.

(** Reading one byte. *)
Lemma fifo_get n f x q :
  fifo_ok n f (x :: q) ->
  rd (buffer f) (get_index f) = Some x /\ is_u8 x /\
  (get_index f =? put_index f) = false /\
  fifo_ok n (mk_fifo (buffer f) (put_index f) (next_index n (get_index f)) false) q.
Proof.
  intros [Hn Hl Hr Hp Hq Hf Hb]. pose proof Hr as (Hg & _). simpl in Hq.
  destruct (ring_pop _ _ _ _ Hr) as [Hx Hr']. inversion_clear Hb as [|? ? Hx8 Hb'].
  split; [unfold rd; by rewrite (proj2 (Z.leb_le _ _)) by lia|]. split; [done|]. split.
  - apply Z.eqb_neq. intros E. rewrite Hp in E.
    rewrite <- (Z.mod_small (get_index f) n) in E at 1 by lia.
    rewrite <- (Z.add_0_r (get_index f)) in E at 1. apply mod_shift_inj in E; simpl in *; lia.
  - split; simpl; try done; [| |lia].
    + rewrite next_index_mod by lia. by rewrite <- Hl.
    + rewrite next_index_mod, Zplus_mod_idemp_l, Hp by lia. f_equal. simpl. lia.
Qed.

Lemma fifo_empty n f : fifo_ok n f [] ->
  (get_index f =? put_index f) = true /\ is_full f = false.
Proof.
  intros [Hn Hl (Hg & _) Hp _ Hf _]. split.
  - rewrite Hp, Z.add_0_r, Z.mod_small by lia. apply Z.eqb_refl.
  - destruct (is_full f); [by destruct (Hf eq_refl)|done].
Qed.

(** Storing one byte, the oldest one going when there is no room. *)
Lemma fifo_put n f q x :
  fifo_ok n f q -> is_u8 x ->
  exists b, wr (buffer f) (put_index f) x = Some b /\
  let put := next_index n (put_index f) in
  fifo_ok n (if put =? get_index f then mk_fifo b put (next_index n (get_index f)) true
             else mk_fifo b put (get_index f) (is_full f)) (keep_last (n - 1) (q ++ [x])).
Proof.
  intros [Hn Hl Hr Hp Hq Hf Hb] Hx. pose proof Hr as (Hg & _).
  pose proof (ring_push _ _ _ x Hr ltac:(lia)) as Hr'. rewrite Hl, <- Hp in Hr'.
  assert (0 <= put_index f < n) as Hpr by (rewrite Hp; apply mod_range; lia).
  exists (<[Z.to_nat (put_index f) := x]> (buffer f)). split; [apply wr_Some; lia|]. cbv zeta.
  assert (next_index n (put_index f) = (get_index f + (Z.of_nat (length q) + 1)) mod n) as Hput.
  { rewrite next_index_mod by lia. rewrite Hp, Zplus_mod_idemp_l. f_equal. lia. }
  assert (Forall is_u8 (q ++ [x])) as Hb' by (apply Forall_app; auto).
  assert ((next_index n (put_index f) =? get_index f) = (Z.of_nat (length q) + 1 =? n)) as ->.
  { rewrite Hput. destruct (Z.eqb_spec (Z.of_nat (length q) + 1) n) as [E|E].
    - rewrite E. replace (get_index f + n) with (get_index f + 1 * n) by lia.
      rewrite Z_mod_plus_full, Z.mod_small by lia. apply Z.eqb_refl.
    - apply Z.eqb_neq. intros E2. rewrite <- (Z.mod_small (get_index f) n) in E2 at 2 by lia.
      rewrite <- (Z.add_0_r (get_index f)) in E2 at 2. apply mod_shift_inj in E2; lia. }
  destruct (Z.eqb_spec (Z.of_nat (length q) + 1) n) as [E|E].
  - destruct q as [|y q]; [simpl in E; lia|]. simpl in E, Hq.
    assert (keep_last (n - 1) ((y :: q) ++ [x]) = q ++ [x]) as ->.
    { unfold keep_last. rewrite length_app. simpl.
      by replace (S (length q + 1) - Z.to_nat (n - 1))%nat with 1%nat by lia. }
    destruct (ring_pop _ _ _ _ Hr') as [_ Hr2]. rewrite length_insert, Hl in Hr2.
    split; simpl; try done.
    + rewrite length_insert. lia.
    + rewrite next_index_mod by lia. done.
    + rewrite Hput, next_index_mod, Zplus_mod_idemp_l by lia. f_equal.
      rewrite length_app. simpl. lia.
    + rewrite length_app. simpl. lia.
    + intros _ ?%app_nil. naive_solver.
    + simpl in Hb'. by apply Forall_cons in Hb' as [_ ?].
  - rewrite keep_last_all by (rewrite length_app; simpl; lia).
    split; simpl; try done.
    + rewrite length_insert. lia.
    + rewrite Hput. f_equal. rewrite length_app. simpl. lia.
    + rewrite length_app. simpl. lia.
    + intros _ ?%app_nil. naive_solver.
Qed.

Section Receive.
Context {H A : Type} {UO : UartOps H} {UR : UartRx H} {AA : Allocator A}.
Implicit Types s : serial H A.

(** The receive structure of [s] holds the queue [q]. *)
Definition rx_holds s (q : list Z) : Prop :=
  exists a f, serial_rx s = Some (a, f) /\ fifo_ok (bufsz (s_config s)) f q.

(** What receiving leaves alone. *)
Record rx_frame s s' : Prop := {
  rf_dev : s_dev s' = s_dev s;
  rf_config : s_config s' = s_config s;
  rf_tx : serial_tx s' = serial_tx s;
  rf_heap : s_heap s' = s_heap s;
  rf_block : fst <$> serial_rx s' = fst <$> serial_rx s
}.

Lemma rx_frame_refl s : rx_frame s s.
Proof. done. Qed.
Lemma rx_frame_trans s1 s2 s3 : rx_frame s1 s2 -> rx_frame s2 s3 -> rx_frame s1 s3.
Proof. intros [] []. split; congruence. Qed.

Lemma rx_frame_hw h s s' : rx_frame (set_hw h s) s' -> rx_frame s s'.
Proof. by intros []. Qed.

Lemma wp_get_fifo s a f (Q : Z * rt_serial_rx_fifo -> serial H A -> Prop) :
  serial_rx s = Some (a, f) -> Q (a, f) s -> wp get_fifo s Q.
Proof. intros E HQ. unfold get_fifo. wp_steps. by apply (wp_deref _ (a, f)). Qed.

Lemma wp_isr_store s q x (Q : unit -> serial H A -> Prop) :
  rx_holds s q -> is_u8 x ->
  (forall s', rx_holds s' (keep_last (bufsz (s_config s) - 1) (q ++ [x])) ->
     rx_frame s s' -> s_hw s' = s_hw s -> s_ind s' = s_ind s -> Q tt s') ->
  wp (isr_store x) s Q.
Proof.
  intros (a & f & Ea & Hf) Hx HQ. destruct (fifo_put _ f q x Hf Hx) as (b & Eb & Hf').
  unfold isr_store. wp_steps. eapply wp_get_fifo; [done|]. wp_steps.
  apply (wp_deref _ b); [by rewrite uwrap_small|]. cbv zeta in *.
  destruct (_ =? get_index f); unfold put_fifo, _serial_check_buffer_size; wp_steps; simpl;
    (apply HQ; [by eexists _, _|split; simpl; try done; by rewrite Ea|done|done]).
Qed.

Lemma wp_isr_loop fuel s q (Q : unit -> serial H A -> Prop) :
  rx_holds s q -> (length (hw_pending (s_hw s)) < fuel)%nat ->
  (forall s', rx_holds s' (keep_last (bufsz (s_config s) - 1) (q ++ hw_pending (s_hw s))) ->
     rx_frame s s' -> hw_pending (s_hw s') = [] -> s_ind s' = s_ind s -> Q tt s') ->
  wp (isr_rx_loop fuel) s Q.
Proof.
  revert s q. induction fuel as [|fuel IH]; intros s q Hq Hl HQ; [lia|]. cbn [isr_rx_loop]. unfold in_hw.
  wp_steps. unfold wp at 1. destruct (hw_pending (s_hw s)) as [|x l] eqn:Ep.
  - destruct (getc_none _ Ep) as (h' & -> & Eh). simpl. apply wp_ret. apply HQ; try done.
    rewrite app_nil_r. destruct Hq as (a & f & Ea & Hf). exists a, f. split; [done|]. simpl.
    rewrite keep_last_all; [done|]. pose proof (fo_room _ _ _ Hf). lia.
  - destruct (getc_some _ _ _ Ep) as (Hx & h' & -> & Eh). simpl in Hl.
    rewrite (proj2 (Z.eqb_neq x (-1))) by c_lia. wp_steps.
    eapply wp_isr_store; [exact Hq|done|]. intros s1 H1 Hf1 Eh1 Ei1. simpl in *.
    apply (IH _ _ H1); [rewrite Eh1, Eh; lia|]. intros s2 H2 Hf2 Eh2 Ei2.
    rewrite Eh1, Eh, (rf_config _ _ Hf1) in H2. simpl in H2. rewrite keep_last_app, <- app_assoc in H2.
    apply HQ; [done| |done|congruence]. eapply rx_frame_trans; [by eapply rx_frame_hw|exact Hf2].
Qed.

(** The indication is given when there is something to read, with its length. *)
Definition indications (on : option Z) (q : list Z) : list Z :=
  match on, q with Some _, _ :: _ => [Z.of_nat (length q)] | _, _ => [] end.

Lemma fifo_length n f q : fifo_ok n f q ->
  (if get_index f <=? put_index f then put_index f - get_index f
   else n - (get_index f - put_index f)) = Z.of_nat (length q).
Proof.
  intros [Hn Hl (Hg & _) Hp Hq _ _]. rewrite Hl in Hg.
  destruct (decide (get_index f + Z.of_nat (length q) < n)).
  - rewrite Z.mod_small in Hp by lia. rewrite (proj2 (Z.leb_le _ _)) by lia. lia.
  - replace (get_index f + Z.of_nat (length q)) with (get_index f + Z.of_nat (length q) - n + 1 * n) in Hp by lia.
    rewrite Z_mod_plus_full, Z.mod_small in Hp by lia. rewrite (proj2 (Z.leb_gt _ _)) by lia. lia.
Qed.

Lemma wp_serial_isr fuel s q (Q : unit -> serial H A -> Prop) :
  rx_holds s q -> (length (hw_pending (s_hw s)) < fuel)%nat ->
  (forall s', let q' := keep_last (bufsz (s_config s) - 1) (q ++ hw_pending (s_hw s)) in
     rx_holds s' q' -> rx_frame s s' -> hw_pending (s_hw s') = [] ->
     s_ind s' = s_ind s ++ indications (rx_indicate (s_dev s)) q' -> Q tt s') ->
  wp (rt_hw_serial_isr fuel RT_SERIAL_EVENT_RX_IND) s Q.
Proof.
  intros Hq Hl HQ. unfold rt_hw_serial_isr. simpl. wp_steps.
  eapply wp_isr_loop; [done|done|]. intros s1 H1 Hf1 Eh1 Ei1. wp_steps. cbv zeta in HQ.
  rewrite (rf_dev _ _ Hf1). destruct (rx_indicate (s_dev s)) as [cb|].
  - pose proof H1 as (a & f & Ea & Hf). wp_steps. eapply wp_get_fifo; [done|]. wp_steps. cbv zeta.
    rewrite (fifo_length _ _ _ Hf). unfold when.
    destruct (keep_last _ _) as [|y q'].
    + wp_steps. apply HQ; try done. by rewrite app_nil_r.
    + rewrite (proj2 (Z.eqb_neq _ _)) by (simpl; lia). simpl negb. wp_steps.
      apply HQ; [done|by destruct Hf1|done|]. cbn [s_ind set_ind]. by rewrite Ei1.
  - wp_steps. apply HQ; try done. simpl. rewrite Ei1. symmetry. apply app_nil_r.
Qed.

Lemma wp_int_rx n s q (Q : list Z -> serial H A -> Prop) :
  rx_holds s q ->
  (forall s', rx_holds s' (drop n q) -> rx_frame s s' -> s_hw s' = s_hw s -> s_ind s' = s_ind s ->
     Q (take n q) s') ->
  wp (_serial_int_rx n) s Q.
Proof.
  revert s q Q. induction n as [|n IH]; intros s q Q Hq HQ; cbn [_serial_int_rx].
  { wp_steps. by apply HQ. }
  pose proof Hq as (a & f & Ea & Hf). wp_steps. eapply wp_get_fifo; [done|]. cbn beta iota.
  destruct q as [|x q].
  - destruct (fifo_empty _ _ Hf) as [-> ->]. wp_steps. by apply HQ.
  - destruct (fifo_get _ _ _ _ Hf) as (Er & Hx & -> & Hf'). simpl. wp_steps.
    apply (wp_deref _ x); [done|]. unfold put_fifo. wp_steps.
    eapply (IH _ q); [by eexists _, _|]. intros s' H' Hfr Eh Ei. wp_steps.
    rewrite land_255, Z.mod_small by c_lia. apply HQ; try done.
    eapply rx_frame_trans; [|exact Hfr]. split; simpl; try done. by rewrite Ea.
Qed.

(** ** The receive path as a whole *)

(** Bytes come in and raise the interrupt, or a thread reads. *)
Inductive rx_event := Burst (bs : list Z) | Read (size : Z).

Definition line_in (bs : list Z) : M (serial H A) unit :=
  in_hw (modify (hw_arrive bs));;
  n ← gets (fun s => length (hw_pending (s_hw s)));
  rt_hw_serial_isr (S n) RT_SERIAL_EVENT_RX_IND.

(** The results of the reads. *)
Fixpoint rx_run (evs : list rx_event) : M (serial H A) (list (list Z)) :=
  match evs with
  | [] => mret []
  | Burst bs :: evs => line_in bs;; rx_run evs
  | Read size :: evs =>
      r ← rt_serial_read 0 size; rest ← rx_run evs; mret (r :: rest)
  end.

(** A queue that keeps the last [n] bytes: the results of the reads, the
    indications, and the queue at the end. *)
Fixpoint queue_run (n : Z) (on : option Z) (q : list Z) (evs : list rx_event)
  : list (list Z) * list Z * list Z :=
  match evs with
  | [] => ([], [], q)
  | Burst bs :: evs =>
      let q' := keep_last n (q ++ bs) in
      let '(out, ind, q2) := queue_run n on q' evs in (out, indications on q' ++ ind, q2)
  | Read size :: evs =>
      let '(out, ind, q2) := queue_run n on (drop (Z.to_nat size) q) evs in
      (take (Z.to_nat size) q :: out, ind, q2)
  end.

(** An opened device in interrupt-driven reception. *)
Definition int_rx_open s : Prop := has (open_flag (s_dev s)) RT_DEVICE_FLAG_INT_RX = true.

Lemma wp_serial_read s q size (Q : list Z -> serial H A -> Prop) :
  int_rx_open s -> rx_holds s q -> 0 <= size ->
  (forall s', rx_holds s' (drop (Z.to_nat size) q) -> rx_frame s s' -> s_hw s' = s_hw s ->
     s_ind s' = s_ind s -> Q (take (Z.to_nat size) q) s') ->
  wp (rt_serial_read 0 size) s Q.
Proof.
  intros Ho Hq Hs HQ. unfold rt_serial_read. destruct (Z.eqb_spec size 0) as [->|Hz].
  - apply wp_ret. by apply HQ.
  - wp_steps. rewrite Ho. by apply wp_int_rx with (q := q).
Qed.

(** The interrupt-driven receive path of a serial device is a queue that
    keeps the last [bufsz - 1] bytes: for every sequence of bursts on the
    line, each raising the interrupt, and of reads, the reads return the
    bytes in order and as many as asked for or held, the indication is given
    exactly after the bursts that leave something to read, with the number of
    bytes that can be read, and the interrupt handler stops on its own.
    Holds for every UART that hands over the received bytes in order. *)
Lemma rx_run_queue evs s q :
  int_rx_open s -> rx_holds s q -> hw_pending (s_hw s) = [] ->
  Forall (fun ev => match ev with Read size => 0 <= size | Burst bs => Forall is_u8 bs end) evs ->
  wp (rx_run evs) s (fun out s' =>
    let '(out', ind, q') := queue_run (bufsz (s_config s) - 1) (rx_indicate (s_dev s)) q evs in
    out = out' /\ s_ind s' = s_ind s ++ ind /\ rx_holds s' q' /\ rx_frame s s').
Proof.
  revert s q. induction evs as [|ev evs IH]; intros s q Ho Hq Hh Hev.
  { apply wp_ret. simpl. by rewrite app_nil_r. }
  apply Forall_cons in Hev as [Hs Hev]. destruct ev as [bs|size]; cbn [rx_run queue_run].
  - unfold line_in, in_hw. wp_steps. apply (wp_serial_isr _ _ q); [exact Hq|lia|].
    intros s1 q1 H1 Hf1 Eh1 Ei1. subst q1. apply rx_frame_hw in Hf1. simpl in *.
    rewrite pending_arrive, Hh in * by done. simpl in *.
    eapply wp_mono; [eapply IH; [|exact H1|done|done]|].
    { unfold int_rx_open. by rewrite (rf_dev _ _ Hf1). }
    rewrite (rf_config _ _ Hf1), (rf_dev _ _ Hf1). intros out s2.
    destruct (queue_run _ _ _ evs) as [[out' ind] q2]. intros (-> & Ei & H2 & Hf2).
    split; [done|]. split; [by rewrite Ei, Ei1, app_assoc|]. split; [done|].
    by eapply rx_frame_trans.
  - wp_steps. apply (wp_serial_read _ q); [done|done|done|]. intros s1 H1 Hf1 Eh1 Ei1. wp_steps.
    eapply wp_mono; [eapply IH; [|exact H1|by rewrite Eh1|done]|].
    { unfold int_rx_open. by rewrite (rf_dev _ _ Hf1). }
    rewrite (rf_config _ _ Hf1), (rf_dev _ _ Hf1), Ei1. intros out s2.
    destruct (queue_run _ _ _ evs) as [[out' ind] q2]. intros (-> & Ei & H2 & Hf2). wp_steps.
    split; [done|]. split; [done|]. split; [done|]. by eapply rx_frame_trans.
Qed.
End Receive.

(** * Opening and closing *)

(** The control functions of a UART return, leave the bytes received alone,
    and the configuration succeeds. *)
Class UartCtl (H : Type) {UO : UartOps H} {UR : UartRx H} := {
  control_returns cmd arg h :
    exists r h', uart_control cmd arg h = Some (r, h') /\ hw_pending h' = hw_pending h;
  configure_returns f c h : uart_configure = Some f ->
    exists h', f c h = Some (RT_EOK, h') /\ hw_pending h' = hw_pending h
}.

Lemma flag_lor x y b : has (Z.lor x y) b = has x b || has y b.
Proof.
  unfold has. rewrite Z.land_lor_distr_l. destruct (Z.eqb_spec (Z.land x b) 0) as [->|Hx]; simpl.
  - by rewrite Z.lor_0_l.
  - destruct (Z.eqb_spec (Z.lor (Z.land x b) (Z.land y b)) 0) as [E|]; [|done].
    by apply Z.lor_eq_0_iff in E as [? _].
Qed.

Lemma has_land x m b : has x b = false -> has (Z.land x m) b = false.
Proof.
  unfold has. intros E. apply negb_false_iff, Z.eqb_eq in E. apply negb_false_iff, Z.eqb_eq.
  by rewrite <- Z.land_assoc, (Z.land_comm m), Z.land_assoc, E.
Qed.

Lemma has_low x b : Z.land 0xff b = 0 -> has (Z.land x 0xff) b = false.
Proof. intros E. unfold has. by rewrite <- Z.land_assoc, E, Z.land_0_r. Qed.

Lemma has_cleared x b : has (Z.land x (Z.lnot b)) b = false.
Proof.
  unfold has. by rewrite <- Z.land_assoc, (Z.land_comm _ b), <- Z.ldiff_land, Z.ldiff_diag, Z.land_0_r.
Qed.

Section OpenClose.
Context {H A : Type} {UO : UartOps H} {UR : UartRx H} {UC : UartCtl H}
  {AA : Allocator A} {AL : AllocatorLaws A}.
Implicit Types s : serial H A.

Lemma wp_control cmd arg s (Q : Z -> serial H A -> Prop) :
  (forall r h', hw_pending h' = hw_pending (s_hw s) -> Q r (set_hw h' s)) ->
  wp (in_hw (uart_control cmd arg)) s Q.
Proof.
  intros HQ. unfold in_hw. wp_steps. destruct (control_returns cmd arg (s_hw s)) as (r & h' & E & Eh).
  unfold wp. rewrite E. by apply HQ.
Qed.

Record closed s : Prop := {
  cl_count : ref_count (s_dev s) = 0;
  cl_flag : open_flag (s_dev s) = 0;
  cl_rx : serial_rx s = None;
  cl_tx : serial_tx s = None
}.

(** What happens to a closed device before the driver opens it. *)
Lemma wp_open_activate s (Q : Z -> serial H A -> Prop) :
  closed s ->
  (forall s', closed s' -> s_config s' = s_config s -> s_heap s' = s_heap s -> s_ind s' = s_ind s ->
     hw_pending (s_hw s') = hw_pending (s_hw s) ->
     (exists fl, s_dev s' = set_dev_flag (Z.lor (dev_flag (s_dev s)) fl) (s_dev s)) -> Q RT_EOK s') ->
  wp open_activate s Q.
Proof.
  intros [Hc Hf Hr Ht] HQ. unfold open_activate. wp_steps. simpl.
  destruct (negb _); wp_steps.
  - unfold rt_serial_init. wp_steps.
    assert (forall h', hw_pending h' = hw_pending (s_hw s) ->
      wp (if negb (RT_EOK =? RT_EOK) then mret RT_EOK else
        upd_dev (fun d => set_dev_flag (Z.lor (dev_flag d) RT_DEVICE_FLAG_ACTIVATED) d);; mret RT_EOK)
        (set_hw h' (set_tx None (set_rx None s))) Q) as Hend.
    { intros h' Eh. simpl. unfold upd_dev. wp_steps. apply HQ; try done. by eexists. }
    destruct uart_configure as [f|] eqn:Ef; wp_steps.
    + unfold in_hw. wp_steps. destruct (configure_returns f (s_config s) (s_hw s) Ef) as (h' & E & Eh).
      unfold wp at 1. simpl. rewrite E. by apply Hend.
    + by apply (Hend (s_hw s)).
  - apply HQ; try done. exists 0. rewrite Z.lor_0_r. by destruct (s_dev s).
Qed.

Definition opens_int_rx (oflag : Z) s : Prop :=
  modes_offered oflag (dev_flag (s_dev s)) = true /\
  has oflag RT_DEVICE_FLAG_INT_RX = true /\ has oflag RT_DEVICE_FLAG_INT_TX = false.

Lemma modes_offered_lor oflag fl x : modes_offered oflag fl = true -> modes_offered oflag (Z.lor fl x) = true.
Proof.
  unfold modes_offered. rewrite !flag_lor.
  repeat match goal with |- context [has ?a ?b] => destruct (has a b) end; done.
Qed.

Lemma fifo_new n : 2 <= n < 2 ^ 16 -> fifo_ok n (mk_fifo (replicate (Z.to_nat n) 0) 0 0 false) [].
Proof.
  intros Hn. split; simpl; [done|rewrite length_replicate; lia| |by rewrite Zmod_0_l|lia|done|done].
  split; simpl; [rewrite length_replicate; lia|]. split; [lia|]. simpl. lia.
Qed.

(** An opened device in interrupt-driven reception, with its block [p]. *)
Record rx_opened s (p : Z) : Prop := {
  ro_count : ref_count (s_dev s) = 1;
  ro_flag : int_rx_open s;
  ro_notx : has (open_flag (s_dev s)) RT_DEVICE_FLAG_INT_TX = false;
  ro_tx : serial_tx s = None;
  ro_block : fst <$> serial_rx s = Some p
}.

Lemma wp_device_open oflag s v (Q : Z -> serial H A -> Prop) :
  closed s -> held (s_heap s) v -> 2 <= bufsz (s_config s) < 2 ^ 16 -> opens_int_rx oflag s ->
  wp (rt_malloc (SIZEOF_RX_FIFO + bufsz (s_config s))) (s_heap s) (fun p _ => p <> 0) ->
  (forall s' p k, rx_opened s' p -> rx_holds s' [] -> v !! p = None ->
     held (s_heap s') (<[p := k]> v) -> s_config s' = s_config s ->
     hw_pending (s_hw s') = hw_pending (s_hw s) -> s_ind s' = s_ind s ->
     rx_indicate (s_dev s') = rx_indicate (s_dev s) -> Q RT_EOK s') ->
  wp (rt_device_open oflag) s Q.
Proof.
  intros Hcl Hv Hn (Hm & Hrx & Htx) Hroom HQ. unfold rt_device_open. wp_steps.
  apply wp_open_activate; [done|]. intros s1 [Hc1 Hf1 Hr1 Ht1] Ec Eh Ei Ep (fl & Ed). simpl.
  wp_steps. simpl. rewrite Hf1. unfold has at 2. rewrite Z.land_0_l. simpl. rewrite andb_false_r. simpl.
  unfold rt_serial_open. wp_steps.
  rewrite Ed at 1. simpl. rewrite (modes_offered_lor _ _ _ Hm). simpl. unfold upd_s_dev, open_rx. wp_steps.
  simpl. rewrite Hr1, Hrx. unfold malloc_or_fault, in_heap. wp_steps. simpl. rewrite Ec, Eh.
  pose proof (malloc_law (s_heap s) v (SIZEOF_RX_FIFO + bufsz (s_config s)) Hv
    ltac:(unfold SIZEOF_RX_FIFO; lia) ltac:(unfold SIZEOF_RX_FIFO; lia)) as Hmal.
  eapply wp_mono; [exact (wp_conj _ _ _ _ Hroom Hmal)|].
  intros p h' [Hp0 [[-> _]|(k & _ & Hnp & Hh')]]; [done|].
  rewrite (proj2 (Z.eqb_neq p 0)) by done. unfold put_fifo, or_open_flag, upd_s_dev. wp_steps.
  apply wp_control. intros r1 h1 Eh1. unfold open_tx. wp_steps. simpl. rewrite Ht1, Htx.
  unfold when, upd_dev. wp_steps. simpl. wp_steps. unfold upd_dev. wp_steps. simpl. rewrite Ed. simpl.
  apply (HQ _ p k); try done.
  - split; simpl; try done.
    + rewrite Ed in Hc1. simpl in Hc1. by rewrite Hc1.
    + unfold int_rx_open. simpl. rewrite !flag_lor. 
      change (has RT_DEVICE_FLAG_INT_RX RT_DEVICE_FLAG_INT_RX) with true. by rewrite orb_true_r.
    + rewrite !flag_lor, has_low by done. by case_match.
  - exists p, (mk_fifo (replicate (Z.to_nat (bufsz (s_config s))) 0) 0 0 false).
    split; [done|]. simpl. rewrite Ec. by apply fifo_new.
  - simpl in *. congruence.
Qed.

Lemma wp_device_close s p k v (Q : Z -> serial H A -> Prop) :
  rx_opened s p -> held (s_heap s) (<[p := k]> v) -> v !! p = None ->
  (forall s', closed s' -> held (s_heap s') v -> s_config s' = s_config s ->
     hw_pending (s_hw s') = hw_pending (s_hw s) -> Q RT_EOK s') ->
  wp rt_device_close s Q.
Proof.
  intros [Hc Hf Hnt Ht Hb] Hh Hnp HQ. unfold rt_device_close. wp_steps. simpl. rewrite Hc. simpl.
  unfold upd_dev. wp_steps. simpl. rewrite Hc. simpl. unfold rt_serial_close. wp_steps. simpl.
  simpl. unfold int_rx_open in Hf. rewrite Hf. cbn [when]. wp_steps.
  destruct (serial_rx s) as [[a f]|] eqn:Er; [|done]. simpl in Hb. injection Hb as ->.
  apply (wp_get_fifo _ p f); [done|]. unfold in_heap, clear_open_flag, upd_s_dev. wp_steps. simpl.
  eapply wp_mono; [eapply free_law; [exact Hh|apply lookup_insert_eq]|]. intros [] h1 Hh1.
  rewrite delete_insert_id in Hh1 by done. wp_steps. apply wp_control. intros r1 h2 Eh2. wp_steps. simpl.
  rewrite has_land by done. cbn [when]. wp_steps. apply wp_control. intros r3 h3 Eh3. wp_steps. simpl.
  unfold upd_dev. wp_steps. apply HQ; try done. simpl in *. congruence.
Qed.

Lemma rx_opened_frame s s' p : rx_opened s p -> rx_frame s s' -> rx_opened s' p.
Proof.
  intros [Hc Hf Hn Ht Hb] [Ed Ec Et Eh Eb]. split; unfold int_rx_open in *; congruence.
Qed.

(** Open, receive for a while, close. *)
Definition rx_session (oflag : Z) (evs : list rx_event) : M (serial H A) (Z * list (list Z) * Z) :=
  r ← rt_device_open oflag;
  out ← rx_run evs;
  r' ← rt_device_close;
  mret (r, out, r').

(** C17. A session with a serial device in interrupt-driven reception: a closed
    device that offers the mode, with a heap that has room for its receive
    buffer, is opened, takes any sequence of bursts on the line and of reads,
    and is closed.  Both calls succeed, the reads return what a queue of the
    last [bufsz - 1] bytes returns, in order, and in the end the device is
    closed and the heap holds exactly the blocks it held before.  Holds for
    every UART that hands over the received bytes in order and for every
    allocator. *)
Theorem serial_session oflag evs s v :
  closed s -> held (s_heap s) v -> 2 <= bufsz (s_config s) < 2 ^ 16 -> opens_int_rx oflag s ->
  wp (rt_malloc (SIZEOF_RX_FIFO + bufsz (s_config s))) (s_heap s) (fun p _ => p <> 0) ->
  hw_pending (s_hw s) = [] ->
  Forall (fun ev => match ev with Read size => 0 <= size | Burst bs => Forall is_u8 bs end) evs ->
  wp (rx_session oflag evs) s (fun '(r, out, r') s' =>
    r = RT_EOK /\ r' = RT_EOK /\
    out = (queue_run (bufsz (s_config s) - 1) (rx_indicate (s_dev s)) [] evs).1.1 /\
    closed s' /\ held (s_heap s') v).
Proof.
  intros Hcl Hv Hn Ho Hroom Hp Hev. unfold rx_session. wp_step.
  eapply wp_device_open; [done..|]. intros s1 p k Hop Hq Hnp Hh Ec Ep Ei Ed.
  wp_step. eapply wp_mono; [apply rx_run_queue; [apply Hop|exact Hq|congruence|done]|].
  rewrite Ec, Ed. intros out s2. destruct (queue_run _ _ _ evs) as [[out' ind] q2].
  intros (-> & _ & _ & Hf). wp_step.
  eapply (wp_device_close s2 p k v); [by eapply rx_opened_frame|by rewrite (rf_heap _ _ Hf)|done|].
  intros s3 Hcl3 Hh3 _ _. by wp_steps.
Qed.
End OpenClose.

(** ** The reference count belongs to device.c *)

Section Laws.
Context {H A : Type} {UO : UartOps H} {AA : Allocator A}.

(** Code of the driver leaves the reference count alone. *)
Abbreviation keeps_count m := (keeps (fun s : serial H A => ref_count (s_dev s)) m).

Ltac driver_keeps :=
  repeat first
    [ keeps_step
    | progress unfold when, upd_s_dev, or_open_flag, clear_open_flag, put_fifo, get_fifo, malloc_or_fault,
        in_hw, in_heap ].

#[export] Instance serial_device_laws : DeviceLaws (serial H A).
Proof.
  split; simpl.
  - done.
  - intros f s r s' [= <-]. enough (keeps_count rt_serial_init) as K by apply K. unfold rt_serial_init. driver_keeps.
  - intros f oflag s r s' [= <-]. enough (keeps_count (rt_serial_open oflag)) as K by apply K.
    unfold rt_serial_open, open_rx, open_tx. driver_keeps.
  - intros f s r s' [= <-]. enough (keeps_count rt_serial_close) as K by apply K. unfold rt_serial_close. driver_keeps.
  - intros f cmd arg s r s' [= <-]. enough (keeps_count (rt_serial_control cmd arg)) as K by apply K.
    unfold rt_serial_control. driver_keeps.
  - intros f pos size s r s' [= <-]. enough (keeps_count (rt_serial_read pos size)) as K by apply K.
    assert (forall n, keeps_count (_serial_int_rx n)) as K1 by (induction n; simpl; driver_keeps; done).
    assert (forall n, keeps_count (_serial_poll_rx n)) as K2 by (induction n; simpl; driver_keeps; done).
    unfold rt_serial_read. driver_keeps; done.
  - intros f pos buffer s r s' [= <-]. enough (keeps_count (rt_serial_write pos buffer)) as K by apply K.
    assert (forall l, keeps_count (poll_tx_loop l)) as K1 by (induction l; simpl; driver_keeps; done).
    assert (forall l, keeps_count (int_tx_loop l)) as K2 by (induction l; simpl; driver_keeps; done).
    unfold rt_serial_write, _serial_int_tx, _serial_poll_tx. driver_keeps; done.
Qed.
End Laws.

(** * Polled reception

    The electricity thread opens its UART with [RT_DEVICE_FLAG_RDWR] alone, so
    that it polls the UART.  Such a device is a receiver of file ElecDrv. *)
Section Polled.
Context {H A : Type} {UO : UartOps H} {UR : UartRx H} {AA : Allocator A}.

Definition polled (d : serial H A * errno_st) : bool :=
  negb (ref_count (s_dev (fst d)) =? 0) &&
  negb (has (open_flag (s_dev (fst d))) RT_DEVICE_FLAG_INT_RX) &&
  negb (has (open_flag (s_dev (fst d))) RT_DEVICE_FLAG_STREAM).

Definition polled_serial : Type := { d : serial H A * errno_st | polled d = true }.

(** [d'] with its proof when it is polled, else [d]. *)
Definition repack (d : polled_serial) (d' : serial H A * errno_st) : polled_serial :=
  match decide (polled d' = true) with left p => exist _ d' p | right _ => d end.

#[export] Instance serial_receiver : Drv.RxDevice polled_serial := {|
  Drv.rt_device_read d n :=
    match rt_device_read 0 n (proj1_sig d) with
    | Some (bs, d') => (bs, repack d d')
    | None => ([], d)
    end;
  Drv.rx_pending d := hw_pending (s_hw (fst (proj1_sig d)));
  Drv.rx_arrive bs d :=
    repack d (set_hw (hw_arrive bs (s_hw (fst (proj1_sig d)))) (fst (proj1_sig d)), snd (proj1_sig d))
|}.

Lemma repack_ok d d' : polled d' = true -> proj1_sig (repack d d') = d'.
Proof. intros E. unfold repack. by destruct (decide (polled d' = true)). Qed.

Lemma polled_hw h s e : polled (set_hw h s, e) = polled (s, e).
Proof. done. Qed.

Lemma wp_poll_rx n s (Q : list Z -> serial H A -> Prop) :
  has (open_flag (s_dev s)) RT_DEVICE_FLAG_STREAM = false ->
  (forall h', hw_pending h' = drop n (hw_pending (s_hw s)) -> Q (take n (hw_pending (s_hw s))) (set_hw h' s)) ->
  wp (_serial_poll_rx n) s Q.
Proof.
  revert s Q. induction n as [|n IH]; intros s Q Hst HQ; cbn [_serial_poll_rx].
  { apply wp_ret. specialize (HQ (s_hw s) eq_refl). by destruct s. }
  unfold in_hw. wp_steps. unfold wp at 1. destruct (hw_pending (s_hw s)) as [|x l] eqn:Ep.
  - destruct (getc_none _ Ep) as (h' & -> & Eh). simpl. apply wp_ret. by apply HQ.
  - destruct (getc_some _ _ _ Ep) as (Hx & h' & -> & Eh).
    rewrite (proj2 (Z.eqb_neq x (-1))) by c_lia. wp_steps. simpl. rewrite Hst. simpl.
    wp_steps. apply IH; [done|]. simpl. rewrite Eh. intros h2 E2. wp_steps.
    rewrite uwrap_small by done. by apply (HQ h2).
Qed.

Lemma polled_read d n bs d' :
  0 < n -> Drv.rt_device_read d n = (bs, d') ->
  bs = take (Z.to_nat n) (Drv.rx_pending d) /\ Drv.rx_pending d' = drop (Z.to_nat n) (Drv.rx_pending d).
Proof.
  intros Hn. destruct d as [[s e] Hd]. pose proof Hd as Hb. unfold polled in Hb.
  repeat rewrite andb_true_iff, ?negb_true_iff in Hb. destruct Hb as [[Hc Hi] Hs]. simpl in Hc, Hi, Hs.
  simpl. assert (wp (rt_device_read 0 n) (s, e) (fun bs d' =>
    exists h', d' = (set_hw h' s, e) /\ bs = take (Z.to_nat n) (hw_pending (s_hw s)) /\
      hw_pending h' = drop (Z.to_nat n) (hw_pending (s_hw s)))) as W.
  { unfold rt_device_read, in_drv. wp_steps. simpl. rewrite Hc. simpl. unfold in_drv. wp_steps.
    unfold rt_serial_read. rewrite (proj2 (Z.eqb_neq n 0)) by lia. wp_steps. simpl. rewrite Hi.
    apply wp_poll_rx; [done|]. intros h' Eh. by exists h'. }
  unfold wp in W. destruct (rt_device_read 0 n (s, e)) as [[bs1 d1]|]; [|done].
  destruct W as (h' & -> & -> & Eh). intros [= <- <-]. split; [done|].
  rewrite repack_ok; [done|by rewrite polled_hw].
Qed.

#[export] Instance serial_receiver_laws : Drv.RxDeviceLaws polled_serial.
Proof.
  split.
  - intros d n bs d' Hn E. apply polled_read in E as [-> ->]; [|done]. by rewrite take_drop.
  - intros d n bs d' Hn E. apply polled_read in E as [-> _]; [|done]. rewrite length_take. lia.
  - intros d n bs d' Hn E Hp. apply polled_read in E as [-> _]; [|done].
    destruct (Drv.rx_pending d); [done|]. by destruct (Z.to_nat n) eqn:?; [lia|].
  - intros [[s e] Hd] bs Hb. simpl. rewrite repack_ok; [by apply pending_arrive|by rewrite polled_hw].
Qed.
End Polled.

(** ** Concrete runs *)

(** A UART whose line is a list of bytes, taken modulo 256, with the bytes
    sent in the second component. *)
#[export] Instance line_uart : UartOps (list Z * list Z) := {|
  uart_configure := Some (fun _ => mret RT_EOK);
  uart_control := fun _ _ => mret RT_EOK;
  uart_putc := fun c => modify (fun h => (fst h, snd h ++ [c]));; mret 1;
  uart_getc := fun h => match fst h with [] => Some (-1, h) | x :: l => Some (u8 x, (l, snd h)) end
|}.

#[export] Instance line_uart_rx : UartRx (list Z * list Z).
Proof.
  refine {| hw_pending h := uwrap 8 <$> fst h; hw_arrive bs h := (fst h ++ bs, snd h) |}.
  - intros bs h Hb. simpl. rewrite fmap_app. f_equal. induction Hb as [|x bs Hx Hb IH]; [done|].
    simpl. f_equal; [by apply uwrap_small|exact IH].
  - intros [[|x l] o] E; [|done]. by eexists.
  - intros [[|y l'] o] x l E; [done|]. injection E as <- <-. split; [apply uwrap_range; lia|by eexists].
Defined.

#[export] Instance line_uart_ctl : UartCtl (list Z * list Z).
Proof.
  split.
  - intros cmd arg h. by exists RT_EOK, h.
  - intros f c h [= <-]. by exists h.
Qed.

(** A registered and closed device with a buffer of 4 bytes. *)
Definition demo_serial : serial (list Z * list Z) Mem.heap :=
  mk_serial (mk_dev 0x103 0 0 (Some 1) None) (mk_config 115200 8 0 0 0 0 4) None None false []
    ([], []) Mem.heap_a.

Definition demo_events : list rx_event :=
  [Burst [1; 2]; Read 1; Burst [3; 4; 5]; Read 8; Read 1].

Lemma serial_session_witness :
  exists r out r' s', rx_session 0x103 demo_events demo_serial = Some ((r, out, r'), s') /\
    out = [[1]; [3; 4; 5]; []] /\ held (s_heap s') ∅.
Proof.
  destruct (proj1 (wp_Some _ _ _) (serial_session 0x103 demo_events demo_serial ∅ ltac:(by split) heap_a_held
    ltac:(simpl; lia) ltac:(split_and!; reflexivity) ltac:(vm_compute; congruence) eq_refl
    ltac:(repeat constructor; vm_compute; congruence)))
    as ([[r out] r'] & s' & E & _ & _ & -> & _ & Hh).
  exists r, [[1]; [3; 4; 5]; []], r', s'. split; [exact E|]. split; [reflexivity|exact Hh].
Defined.

(** Opening the device a second time without interrupt-driven reception makes
    it polled for everyone and forgets the receive buffer: after both closes
    the block is still in use, and the next opening loses its address. *)
Definition demo_reopen : M (serial (list Z * list Z) Mem.heap) (list Z) :=
  r1 ← rt_device_open 0x103;
  r2 ← rt_device_open RT_DEVICE_FLAG_RDWR;
  r3 ← rt_device_close;
  r4 ← rt_device_close;
  r5 ← rt_device_open RT_DEVICE_FLAG_RDWR;
  mret [r1; r2; r3; r4; r5].

Theorem serial_reopen_leaks :
  exists s', demo_reopen demo_serial = Some (replicate 5 RT_EOK, s') /\ serial_rx s' = None /\
    Mem.used_mem (s_heap demo_serial) = 0 /\ Mem.used_mem (s_heap s') = 28.
Proof. eexists. split; [vm_compute; reflexivity|]. vm_compute. done. Qed.

(** In stream mode a line feed the UART cannot take is preceded by a second
    carriage return when the write goes on: [slow_uart] takes one byte and
    refuses the next, in turn. *)
Definition slow_uart : UartOps (list Z * bool) := {|
  uart_configure := None;
  uart_control := fun _ _ => mret RT_EOK;
  uart_putc := fun c (h : list Z * bool) => if snd h then Some (1, (fst h ++ [c], false)) else Some (-1, (fst h, true));
  uart_getc := mret (-1)
|}.

Definition demo_slow : serial (list Z * bool) Mem.heap :=
  mk_serial (mk_dev 0x403 0x44b 1 None None) RT_SERIAL_CONFIG_DEFAULT None (Some (4, false)) false []
    ([], true) Mem.heap_a.

(** The write, continued whenever the completion is done. *)
Definition demo_write : M (serial (list Z * bool) Mem.heap) (outcome (Z * list Z) Z) :=
  r ← rt_serial_write (UO := slow_uart) 0 [10];
  match r with
  | Returned n => mret (Returned n)
  | Waiting (size, l) => _serial_int_tx (UO := slow_uart) size l
  end.

Theorem serial_tx_repeats_cr :
  exists r s', demo_write demo_slow = Some (r, s') /\ fst (s_hw s') = [13; 13].
Proof. do 2 eexists. split; vm_compute; reflexivity. Qed.

End Serial.
