(* ===== verification/ElecUart.v ===== *)
(** * Bringing up the UART of the electricity device

    Model of [elec_reset], [elec_eventup_on], [elec_gpio_init],
    [elec_uart_write] and [elec_dev_init] of
    [rt-thread/components/elec_dev/elec_drv/elec_drv.c] over the device layer
    and the serial driver, in the default configuration (uart1, 2400 baud,
    even parity).  The pins and the delays are a trace, in the order of the
    calls; the state of the kernel that [elec_dev_init] continues with after
    the delay of [elec_reset] is the one it is given.  The console output is
    left out. *)
From stdpp Require Import base list gmap.
From Stdlib Require Import ZArith Lia.
From S2P Require Import Prelude Scheduler Object Timer Thread Ipc Errno Device SmallMem Alloc ElecDrv Serial.

Module ElecUart.
Import Sched Obj Thr Ipc Errno Alloc Dev Serial.

Inductive elec_pin := PLC_RESET_PIN | PLC_EVENT_PIN.
Inductive gpio_call :=
| rt_pin_mode (p : elec_pin) (mode : Z)
| rt_pin_write (p : elec_pin) (value : Z)
| rt_thread_mdelay (ms : Z).
Definition PIN_LOW : Z := 0x00.
Definition PIN_HIGH : Z := 0x01.


Section Init.
Context {H A : Type} {UO : UartOps H} {AA : Allocator A}.

(** The UART with the kernel, [elec_uart_handle], and the calls made. *)
Record elec_st := mk_elec {
  e_dev : serial H A * errno_st;
  elec_uart_handle : option oid;
  e_gpio : list gpio_call
}.
Definition set_e_dev v s := mk_elec v (elec_uart_handle s) (e_gpio s).

Definition in_dev {B} (m : M (serial H A * errno_st) B) : M elec_st B := zoom e_dev set_e_dev m.
Definition gpio (c : gpio_call) : M elec_st unit :=
  modify (fun s => mk_elec (e_dev s) (elec_uart_handle s) (e_gpio s ++ [c])).


Definition elec_eventup_on : M elec_st unit :=
  gpio (rt_pin_write PLC_EVENT_PIN PIN_HIGH);;
  gpio (rt_thread_mdelay 50);;
  gpio (rt_pin_write PLC_EVENT_PIN PIN_LOW).


(** A null handle is dereferenced. *)
Definition elec_uart_write (buff : option (list Z)) : M elec_st (outcome (Z * list Z) Z) :=
  match buff with
  | None => mret (Returned 0)
  | Some b =>
      if Z.of_nat (length b) <? 1 then mret (Returned 0) else
      h ← gets elec_uart_handle;
      h ← deref h;
      r ← in_dev (rt_device_write 0 b);
      mret (match r with Returned _ => Returned (Z.of_nat (length b)) | Waiting w => Waiting w end)
  end.


End Init.
Arguments elec_st : clear implicits.

Section Properties.
Context {H A : Type} {UO : UartOps H} {UR : UartRx H} {UC : UartCtl H} {AA : Allocator A}.
Implicit Types s : serial H A.









End Properties.

(** ** A concrete run *)


End ElecUart.
