(* ===== verification/Printf.v ===== *)
(** * Formatted output

    Model of the formatting part of [rt-thread/src/kservice.c]:
    [print_number], [rt_vsnprintf], its wrappers and [rt_kprintf], configured
    with [RT_PRINTF_PRECISION] and without [RT_PRINTF_LONGLONG] and
    [RT_PRINTF_SPECIAL].

    A C string is the list of its characters before the NUL; [*fmt] at the
    end of the list is the NUL.  The variable arguments are a list of values,
    reading one that is missing or of another kind is a fault.  The output
    goes through the class [Writer], with two instances: the bounded buffer
    of the code, and a list that takes everything.  The theorems show that
    the buffer always holds the beginning of what the list gets, that numbers
    come out in their decimal and hexadecimal form, and what is sent to the
    console. *)
From Stdlib Require Import Ascii String ZArith Lia.
From stdpp Require Import base list.
From S2P Require Import Prelude.

Module Printf.

Definition ch (a : ascii) : Z := Z.of_N (N_of_ascii a).
Definition text (s : string) : list Z := map ch (list_ascii_of_string s).

(** ** Output *)

Class Writer (W : Type) := {
  emit : Z -> M W unit              (* if (str < end) *str = c; ++str *)
}.

(** The buffer of [rt_vsnprintf]: the memory at [buf], [str] and [end] as
    offsets to it.  Offsets do not wrap: the model is that of a buffer that lies
    below 2^32 as a whole and of a text short enough for [str] not to reach
    2^32.  For a buffer with [buf + size] at or above 2^32 the code first sets
    [end] to the last address; that case is not modelled. *)
Record outbuf := mk_out { o_mem : list Z; o_str : Z; o_end : Z }.

Definition emit_buf (c : Z) : M outbuf unit := fun w =>
  if o_str w <? o_end w then
    match wr (o_mem w) (o_str w) c with
    | Some m => Some (tt, mk_out m (o_str w + 1) (o_end w))
    | None => None
    end
  else Some (tt, mk_out (o_mem w) (o_str w + 1) (o_end w)).

#[export] Instance buf_writer : Writer outbuf := {| emit := emit_buf |}.

(** The reference: everything is taken. *)
#[export] Instance list_writer : Writer (list Z) :=
  {| emit := fun c out => Some (tt, out ++ [c]) |}.

(** ** Flags *)

Definition ZEROPAD : Z := 1.
Definition SIGN : Z := 2.
Definition PLUS : Z := 4.
Definition SPACE : Z := 8.
Definition LEFT : Z := 16.
Definition SPECIAL : Z := 32.
Definition LARGE : Z := 64.

Definition has (type f : Z) : bool := negb (Z.land type f =? 0).

Definition _ISDIGIT (c : Z) : bool := u32 (c - 48) <? 10.

(** The remainder, and the quotient in [*n]: [long] is 32 bits. *)
Definition divide (n base : Z) : Z * Z :=
  if base =? 10 then (u32 n mod 10, s32 (u32 n / 10))
  else (u32 n mod 16, s32 (u32 n / 16)).

(** The value and the rest of the string. *)
Fixpoint skip_atoi (s : list Z) (i : Z) : Z * list Z :=
  match s with
  | c :: s' => if _ISDIGIT c then skip_atoi s' (s32 (i * 10 + c - 48)) else (i, s)
  | [] => (i, s)
  end.

Definition small_digits : list Z := text "0123456789abcdef".
Definition large_digits : list Z := text "0123456789ABCDEF".

(** [char tmp[16]]: [i] digits are in it; one more would be written past it
    when [room] is 0. *)
Fixpoint number_digits (room : nat) (digits : list Z) (num base : Z) : option (list Z) :=
  if num =? 0 then Some [] else
  match room with
  | O => None
  | S room =>
      let '(r, num) := divide num base in
      d ← rd digits r;
      ds ← number_digits room digits num base;
      Some (d :: ds)
  end.

Section Print.
Context {W : Type} `{Writer W}.

(** [while (n-- > 0) emit c] *)
Fixpoint emit_times (n : nat) (c : Z) : M W unit :=
  match n with O => mret tt | S n => emit c;; emit_times n c end.

Fixpoint emit_all (cs : list Z) : M W unit :=
  match cs with [] => mret tt | c :: cs => emit c;; emit_all cs end.

Definition print_number (num base s precision type : Z) : M W unit :=
  let precision_bak := precision in
  let size := s in
  let digits := if has type LARGE then large_digits else small_digits in
  let type := if has type LEFT then Z.land type (Z.lnot ZEROPAD) else type in
  let c := if has type ZEROPAD then ch "0" else ch " " in
  let '(sign, num) :=
    if has type SIGN then
      if num <? 0 then (ch "-", s32 (- num))
      else if has type PLUS then (ch "+", num)
      else if has type SPACE then (ch " ", num)
      else (0, num)
    else (0, num) in
  tmp ← deref (if num =? 0 then Some [ch "0"] else number_digits 16 digits num base);
  let i := Z.of_nat (length tmp) in
  let precision := if precision <? i then i else precision in
  let size := size - precision in
  size ← (if negb (has type (Z.lor ZEROPAD LEFT)) then
            let size := if negb (sign =? 0) && (0 <? size) then size - 1 else size in
            emit_times (Z.to_nat size) (ch " ");;
            mret (if 0 <? size then -1 else size - 1)
          else mret size);
  size ← (if negb (sign =? 0) then emit sign;; mret (size - 1) else mret size);
  size ← (if negb (has type LEFT) then
            emit_times (Z.to_nat size) c;;
            mret (if 0 <? size then -1 else size - 1)
          else mret size);
  emit_times (Z.to_nat (precision - i)) (ch "0");;
  when (negb (precision_bak =? 0)) (emit_all (rev tmp));;
  emit_times (Z.to_nat size) (ch " ").

End Print.

(** ** The format *)

Inductive arg :=
| AInt (x : Z)                     (* any integer or pointer of 32 bits *)
| AStr (s : option (list Z)).      (* char*, None is the null pointer *)

Definition va_int (args : list arg) : option (Z * list arg) :=
  match args with AInt x :: args => Some (x, args) | _ => None end.
Definition va_str (args : list arg) : option (option (list Z) * list arg) :=
  match args with AStr s :: args => Some (s, args) | _ => None end.

Fixpoint get_flags (fmt : list Z) (flags : Z) : Z * list Z :=
  match fmt with
  | c :: fmt' =>
      if c =? ch "-" then get_flags fmt' (Z.lor flags LEFT)
      else if c =? ch "+" then get_flags fmt' (Z.lor flags PLUS)
      else if c =? ch " " then get_flags fmt' (Z.lor flags SPACE)
      else if c =? ch "#" then get_flags fmt' (Z.lor flags SPECIAL)
      else if c =? ch "0" then get_flags fmt' (Z.lor flags ZEROPAD)
      else (flags, fmt)
  | [] => (flags, fmt)
  end.

(** [field_width], the flags, and what is left. *)
Definition get_width (fmt : list Z) (flags : Z) (args : list arg)
  : option (Z * Z * list Z * list arg) :=
  match fmt with
  | c :: fmt' =>
      if _ISDIGIT c then
        let '(w, fmt) := skip_atoi fmt 0 in Some (w, flags, fmt, args)
      else if c =? ch "*" then
        '(w, args) ← va_int args;
        let w := s32 w in
        if w <? 0 then Some (s32 (- w), Z.lor flags LEFT, fmt', args)
        else Some (w, flags, fmt', args)
      else Some (-1, flags, fmt, args)
  | [] => Some (-1, flags, fmt, args)
  end.

Definition get_precision (fmt : list Z) (args : list arg) : option (Z * list Z * list arg) :=
  match fmt with
  | c :: fmt' =>
      if c =? ch "." then
        '(p, fmt, args) ←
          match fmt' with
          | d :: fmt'' =>
              if _ISDIGIT d then let '(p, fmt) := skip_atoi fmt' 0 in Some (p, fmt, args)
              else if d =? ch "*" then '(p, args) ← va_int args; Some (s32 p, fmt'', args)
              else Some (-1, fmt', args)
          | [] => Some (-1, fmt', args)
          end;
        Some (if p <? 0 then 0 else p, fmt, args)
      else Some (-1, fmt, args)
  | [] => Some (-1, fmt, args)
  end.

Definition get_qualifier (fmt : list Z) : Z * list Z :=
  match fmt with
  | c :: fmt' => if (c =? ch "h") || (c =? ch "l") then (c, fmt') else (0, fmt)
  | [] => (0, fmt)
  end.

(** The argument of an integer conversion, as the [long] that
    [print_number] gets: [num] is a [rt_uint32_t]. *)
Definition get_number (qualifier flags : Z) (args : list arg) : option (Z * list arg) :=
  '(x, args) ← va_int args;
  let num :=
    if qualifier =? ch "h" then
      let num := u16 x in
      if has flags SIGN then u32 (s16 num) else num
    else
      let num := u32 x in
      if has flags SIGN then u32 (s32 num) else num in
  Some (s32 num, args).

Section Format.
Context {W : Type} `{Writer W}.

(** [case 'c'] *)
Definition print_char (c field_width flags : Z) : M W unit :=
  field_width ← (if negb (has flags LEFT) then
                   emit_times (Z.to_nat (field_width - 1)) (ch " ");;
                   mret (if 1 <? field_width then 0 else field_width - 1)
                 else mret field_width);
  emit c;;
  emit_times (Z.to_nat (field_width - 1)) (ch " ").

(** [case 's'] *)
Definition print_string (s : option (list Z)) (field_width precision flags : Z) : M W unit :=
  let s := match s with Some s => s | None => text "(NULL)" end in
  let len := Z.of_nat (length s) in
  let len := if (0 <? precision) && (precision <? len) then precision else len in
  field_width ← (if negb (has flags LEFT) then
                   emit_times (Z.to_nat (field_width - len)) (ch " ");;
                   mret (if len <? field_width then len - 1 else field_width - 1)
                 else mret field_width);
  emit_all (take (Z.to_nat len) s);;
  emit_times (Z.to_nat (field_width - len)) (ch " ").

(** The [switch]: [c] is the conversion character, [rest] what follows it. *)
Definition convert (c : Z) (rest : list Z) (flags field_width precision qualifier : Z)
    (args : list arg) : M W (list Z * list arg) :=
  let number base flags :=
    '(num, args) ← deref (get_number qualifier flags args);
    print_number num base field_width precision flags;;
    mret (rest, args) in
  if c =? ch "c" then
    '(x, args) ← deref (va_int args);
    print_char (u8 x) field_width flags;;
    mret (rest, args)
  else if c =? ch "s" then
    '(s, args) ← deref (va_str args);
    print_string s field_width precision flags;;
    mret (rest, args)
  else if c =? ch "p" then
    '(x, args) ← deref (va_int args);
    (if field_width =? -1 then print_number (s32 x) 16 8 precision (Z.lor flags ZEROPAD)
     else print_number (s32 x) 16 field_width precision flags);;
    mret (rest, args)
  else if c =? ch "%" then emit c;; mret (rest, args)
  else if c =? ch "o" then number 8 flags
  else if c =? ch "X" then number 16 (Z.lor flags LARGE)
  else if c =? ch "x" then number 16 flags
  else if (c =? ch "d") || (c =? ch "i") then number 10 (Z.lor flags SIGN)
  else if c =? ch "u" then number 10 flags
  else emit (ch "%");; emit c;; mret (rest, args).

(** What follows a [%]: the rest of the format and the arguments left. *)
Definition directive (fmt : list Z) (args : list arg) : M W (list Z * list arg) :=
  let '(flags, fmt) := get_flags fmt 0 in
  '(field_width, flags, fmt, args) ← deref (get_width fmt flags args);
  '(precision, fmt, args) ← deref (get_precision fmt args);
  let '(qualifier, fmt) := get_qualifier fmt in
  match fmt with
  | c :: rest => convert c rest flags field_width precision qualifier args
  | [] => emit (ch "%");; mret ([], args)
  end.

(** [for (; *fmt; ++fmt)]; every round consumes a character. *)
Fixpoint format_loop (fuel : nat) (fmt : list Z) (args : list arg) : M W unit :=
  match fmt with
  | [] => mret tt
  | c :: fmt =>
      match fuel with
      | O => fault
      | S fuel =>
          if negb (c =? ch "%") then emit c;; format_loop fuel fmt args
          else '(fmt, args) ← directive fmt args; format_loop fuel fmt args
      end
  end.

End Format.

(** [buf] is the address of the memory [mem]. *)
Definition rt_vsnprintf (buf : Z) (mem : list Z) (size : Z) (fmt : list Z) (args : list arg)
  : option (Z * list Z) :=
  let end_ := u32 (buf + size) in
  let '(end_, size) := if end_ <? buf then (2 ^ 32 - 1, 2 ^ 32 - 1 - buf) else (end_, size) in
  match format_loop (length fmt) fmt args (mk_out mem 0 (end_ - buf)) with
  | None => None
  | Some (_, w) =>
      let r := s32 (o_str w) in
      if 0 <? size then
        m ← wr (o_mem w) (if o_str w <? o_end w then o_str w else o_end w - 1) 0;
        Some (r, m)
      else Some (r, o_mem w)
  end.

Definition rt_snprintf (buf : Z) (mem : list Z) (size : Z) (fmt : list Z) (args : list arg)
  : option (Z * list Z) :=
  rt_vsnprintf buf mem size fmt args.

Definition rt_vsprintf (buf : Z) (mem : list Z) (fmt : list Z) (args : list arg)
  : option (Z * list Z) :=
  rt_vsnprintf buf mem (2 ^ 32 - 1) fmt args.

Definition rt_sprintf (buf : Z) (mem : list Z) (fmt : list Z) (args : list arg)
  : option (Z * list Z) :=
  rt_vsprintf buf mem fmt args.

Definition RT_CONSOLEBUF_SIZE : Z := 256.

(** The string in a buffer. *)
Fixpoint string_in (m : list Z) : list Z :=
  match m with
  | [] => []
  | c :: m => if c =? 0 then [] else c :: string_in m
  end.

(** The bytes given to [rt_device_write], or to [rt_hw_console_output] when
    there is no console device, and [rt_log_buf]. *)
Definition rt_kprintf (console_device : bool) (log_addr : Z) (rt_log_buf : list Z)
    (fmt : list Z) (args : list arg) : option (list Z * list Z) :=
  '(r, m) ← rt_vsnprintf log_addr rt_log_buf (RT_CONSOLEBUF_SIZE - 1) fmt args;
  let length := u32 r in
  let length := if RT_CONSOLEBUF_SIZE - 1 <? length then RT_CONSOLEBUF_SIZE - 1 else length in
  if console_device then out ← buf_read m 0 length; Some (out, m)
  else Some (string_in m, m).

(** ** The buffer holds the beginning of the output

    [shows m0 e w out]: the buffer [w] started as [m0] with [e] bytes to use,
    and the output so far is [out]. *)

Definition shows (m0 : list Z) (e : Z) (w : outbuf) (out : list Z) : Prop :=
  o_end w = e /\ o_str w = Z.of_nat (length out) /\
  o_mem w = splice m0 0 (take (Z.to_nat e) out).

(** Two runs that return the same value and keep the relation. *)
Definition sim {A} (m0 : list Z) (e : Z) (m : M outbuf A) (n : M (list Z) A) : Prop :=
  forall w out, shows m0 e w out ->
    match m w, n out with
    | Some (a, w'), Some (b, out') => a = b /\ shows m0 e w' out'
    | None, None => True
    | _, _ => False
    end.

Section Sim.
Context (m0 : list Z) (e : Z) (Hroom : 0 <= e <= Z.of_nat (length m0)).

Lemma sim_ret {A} (a : A) : sim m0 e (mret a) (mret a).
Proof. by intros w out H. Qed.

Lemma sim_deref {A} (o : option A) : sim m0 e (deref o) (deref o).
Proof. intros w out H. by destruct o. Qed.

Lemma sim_bind {A B} (m : M outbuf A) n (f : A -> M outbuf B) g :
  sim m0 e m n -> (forall a, sim m0 e (f a) (g a)) -> sim m0 e (m ≫= f) (n ≫= g).
Proof.
  intros Hm Hf w out H. specialize (Hm _ _ H). unfold mbind, M_bind.
  destruct (m w) as [[a w']|], (n out) as [[b out']|]; try done.
  destruct Hm as [-> Hm]. by apply Hf.
Qed.

Lemma sim_if {A} (b : bool) (m m' : M outbuf A) n n' :
  sim m0 e m n -> sim m0 e m' n' -> sim m0 e (if b then m else m') (if b then n else n').
Proof. by destruct b. Qed.

Lemma sim_emit c : sim m0 e (emit c) (emit c).
Proof.
  intros w out (He & Hs & Hm). simpl. unfold emit_buf. rewrite He, Hs.
  destruct (Z.ltb_spec (Z.of_nat (length out)) e) as [Hlt|Hge].
  - rewrite wr_Some.
    + split; [done|]. unfold shows. cbn [o_end o_str o_mem]. rewrite length_app. split_and!; [done|simpl; lia|].
      rewrite Hm, Nat2Z.id. rewrite !take_ge by (rewrite ?length_app; simpl; lia).
      apply list_eq. intros i. rewrite lookup_insert_decide, !lookup_splice, length_splice
        by (rewrite ?length_app; simpl; lia).
      rewrite !length_app. simpl. rewrite Nat.sub_0_r, lookup_app_decide.
      repeat case_decide; try lia; try done.
      replace (i - length out)%nat with 0%nat by lia. done.
    + rewrite Hm, length_splice; [lia|]. rewrite length_take. lia.
  - split; [done|]. unfold shows. cbn [o_end o_str o_mem]. rewrite length_app. split_and!; [done|simpl; lia|].
    rewrite Hm, take_app_le by lia. done.
Qed.

Lemma sim_emit_times n c : sim m0 e (emit_times n c) (emit_times n c).
Proof. induction n as [|n IH]; simpl; [apply sim_ret|]. apply sim_bind; [apply sim_emit|]. by intros _. Qed.

Lemma sim_emit_all cs : sim m0 e (emit_all cs) (emit_all cs).
Proof. induction cs as [|c cs IH]; simpl; [apply sim_ret|]. apply sim_bind; [apply sim_emit|]. by intros _. Qed.

Lemma sim_when b (m : M outbuf unit) n : sim m0 e m n -> sim m0 e (when b m) (when b n).
Proof. intros H. destruct b; [done|apply sim_ret]. Qed.

End Sim.

#[export] Hint Resolve sim_ret sim_deref sim_emit sim_emit_times sim_emit_all : printf.

Ltac sim_step :=
  match goal with
  | |- sim _ _ (mbind _ _) (mbind _ _) => apply sim_bind; [|intros ?]
  | |- sim _ _ (if _ then _ else _) _ => apply sim_if
  | |- sim _ _ (when _ _) _ => apply sim_when
  | |- sim _ _ (let '(_, _) := ?x in _) _ => destruct x
  | |- sim _ _ (match ?x with _ => _ end) _ => destruct x
  | |- sim _ _ _ _ => solve [eauto with printf]
  end.
Ltac sim_steps := cbn zeta; repeat (sim_step; cbn beta).

Section SimFormat.
Context (m0 : list Z) (e : Z) (Hroom : 0 <= e <= Z.of_nat (length m0)).

Lemma sim_print_number num base s precision type :
  sim m0 e (print_number num base s precision type) (print_number num base s precision type).
Proof. unfold print_number. sim_steps. Qed.

Lemma sim_print_char c w flags : sim m0 e (print_char c w flags) (print_char c w flags).
Proof. unfold print_char. sim_steps. Qed.

Lemma sim_print_string s w p flags : sim m0 e (print_string s w p flags) (print_string s w p flags).
Proof. unfold print_string. sim_steps. Qed.

Lemma sim_number base flags q w p rest args :
  sim m0 e ('(num, args) ← deref (get_number q flags args);
            print_number num base w p flags;; mret (rest : list Z, args))
    ('(num, args) ← deref (get_number q flags args);
            print_number num base w p flags;; mret (rest, args)).
Proof. apply sim_bind; [apply sim_deref|]. intros [num a]. apply sim_bind; [apply sim_print_number|]. eauto with printf. Qed.

Lemma sim_convert c rest flags w p q args :
  sim m0 e (convert c rest flags w p q args) (convert c rest flags w p q args).
Proof.
  unfold convert. cbn zeta.
  repeat first [ apply sim_number | apply sim_print_number | apply sim_print_char | apply sim_print_string
               | sim_step; cbn beta ].
Qed.

Lemma sim_directive fmt args : sim m0 e (directive fmt args) (directive fmt args).
Proof.
  unfold directive. destruct (get_flags fmt 0) as [flags fmt1].
  apply sim_bind; [apply sim_deref|]. intros [[[w f] fmt2] a].
  apply sim_bind; [apply sim_deref|]. intros [[p fmt3] a'].
  destruct (get_qualifier fmt3) as [q [|c rest]]; [sim_steps|apply sim_convert].
Qed.

Lemma sim_format_loop fuel fmt args : sim m0 e (format_loop fuel fmt args) (format_loop fuel fmt args).
Proof.
  revert fmt args. induction fuel as [|fuel IH]; intros [|c fmt] args; simpl.
  - apply sim_ret.
  - by intros w out H.
  - apply sim_ret.
  - apply sim_if.
    + apply sim_bind; [by apply sim_emit|]. intros _. apply IH.
    + apply sim_bind; [apply sim_directive|]. intros [fmt' args']. apply IH.
Qed.

End SimFormat.

(** What a format and its arguments give when there is room for all of it. *)
Definition formatted (fmt : list Z) (args : list arg) : option (list Z) :=
  match format_loop (length fmt) fmt args ([] : list Z) with
  | Some (_, out) => Some out
  | None => None
  end.

Lemma splice_snoc m0 out n :
  (length out = n)%nat -> (n < length m0)%nat ->
  <[n := 0]> (splice m0 0 out) = splice m0 0 (out ++ [0]).
Proof.
  intros Hn Hl. apply list_eq. intros i.
  rewrite lookup_insert_decide, !lookup_splice, length_splice by (rewrite ?length_app; simpl; lia).
  rewrite length_app, Nat.sub_0_r, lookup_app_decide. simpl.
  repeat case_decide; try lia; try done.
  by replace (i - length out)%nat with 0%nat by lia.
Qed.

Lemma vsnprintf_of buf mem size fmt args out :
  0 <= buf -> 0 < size -> buf + size < 2 ^ 32 -> size <= Z.of_nat (length mem) ->
  formatted fmt args = Some out -> Z.of_nat (length out) < 2 ^ 31 ->
  rt_vsnprintf buf mem size fmt args =
  Some (Z.of_nat (length out), splice mem 0 (take (Z.to_nat (size - 1)) out ++ [0])).
Proof.
  intros Hb Hs Hw Hm Hf Hl. unfold rt_vsnprintf. rewrite uwrap_small by c_lia.
  rewrite (proj2 (Z.ltb_ge _ _)) by lia. replace (buf + size - buf) with size by lia.
  pose proof (sim_format_loop mem size ltac:(lia) (length fmt) fmt args (mk_out mem 0 size) []) as Hsim.
  unfold formatted in Hf. destruct (format_loop _ fmt args ([] : list Z)) as [[[] out']|]; [|done].
  injection Hf as ->.
  assert (shows mem size (mk_out mem 0 size) []) as H0.
  { unfold shows. simpl. rewrite take_nil. split_and!; [done..|]. unfold splice. simpl. by rewrite drop_0. }
  specialize (Hsim H0). destruct (format_loop _ fmt args _) as [[[] w]|]; [|done].
  destruct Hsim as [_ (He & Hstr & Hmem)]. rewrite Hstr, He, (proj2 (Z.ltb_lt 0 size)) by lia.
  rewrite swrap_small by (try change (2 ^ (32 - 1)) with (2 ^ 31); lia).
  rewrite Hmem. rewrite wr_Some.
  2: { rewrite length_splice by (rewrite length_take; lia). bool_cases; lia. }
  simpl. f_equal. f_equal. destruct (Z.ltb_spec (Z.of_nat (length out)) size).
  - rewrite !take_ge by lia. rewrite Nat2Z.id. apply splice_snoc; lia.
  - replace (take (Z.to_nat size) out) with (take (Z.to_nat (size - 1)) out ++ take 1 (drop (Z.to_nat (size - 1)) out)).
    2: { replace (Z.to_nat size) with (Z.to_nat (size - 1) + 1)%nat by lia. by rewrite take_take_drop. }
    destruct (drop (Z.to_nat (size - 1)) out) as [|x l] eqn:Hd.
    { apply (f_equal length) in Hd. rewrite length_drop in Hd. simpl in Hd. lia. }
    simpl. apply list_eq. intros i.
    assert (length (take (Z.to_nat (size - 1)) out) = Z.to_nat (size - 1)) as Hlen by (rewrite length_take; lia).
    rewrite lookup_insert_decide, !lookup_splice, length_splice by (rewrite ?length_app, Hlen; simpl; lia).
    rewrite !length_app, Hlen, Nat.sub_0_r, !lookup_app_decide, Hlen. simpl.
    repeat case_decide; try lia; try done.
    by replace (i - Z.to_nat (size - 1))%nat with 0%nat by lia.
Qed.

(** ** Numbers *)

(** The digits of a number below 2^32, least significant first. *)
Definition radix (base : Z) : Z := if base =? 10 then 10 else 16.

Fixpoint value (r : Z) (vs : list Z) : Z :=
  match vs with [] => 0 | v :: vs => v + r * value r vs end.

(** [ds] are the digits [vs] in the table [digits]. *)
Definition spells (digits : list Z) (r : Z) (ds vs : list Z) : Prop :=
  Forall2 (fun d v => 0 <= v < r /\ rd digits v = Some d) ds vs.

Definition table_ok (digits : list Z) : Prop := digits = small_digits \/ digits = large_digits.

Lemma table_read digits v : table_ok digits -> 0 <= v < 16 -> exists d, rd digits v = Some d.
Proof.
  intros H Hv. destruct (rd_Some digits v) as (d & Hd & _); [|eauto].
  destruct H as [-> | ->]; simpl; lia.
Qed.

Lemma divide_spec n base :
  let r := radix base in
  divide n base = (u32 n mod r, s32 (u32 n / r)).
Proof. unfold divide, radix. by destruct (base =? 10). Qed.

Lemma radix_range base : 10 <= radix base <= 16.
Proof. unfold radix. destruct (base =? 10); lia. Qed.

Lemma number_digits_small room digits n base :
  table_ok digits -> 0 <= n < 2 ^ 31 -> n < 10 ^ Z.of_nat room ->
  exists ds vs, number_digits room digits n base = Some ds /\
    spells digits (radix base) ds vs /\ value (radix base) vs = n /\
    (length ds <= room)%nat /\ (n <> 0 -> ds <> []).
Proof.
  intros Ht. revert n. induction room as [|room IH]; intros n Hn Hr.
  - replace n with 0 by lia. exists [], []. split_and!; [done|constructor|done|simpl; lia|done].
  - simpl. destruct (Z.eqb_spec n 0) as [->|Hne].
    { exists [], []. split_and!; [done|constructor|done|simpl; lia|done]. }
    rewrite divide_spec. cbn zeta. pose proof (radix_range base) as Hb.
    rewrite uwrap_small by c_lia.
    pose proof (Z.mod_pos_bound n (radix base)) as Hm. pose proof (Z.div_mod n (radix base)) as Hd.
    assert (0 <= n / radix base < n) as Hq.
    { split; [apply Z.div_pos; lia|]. apply Z.div_lt; lia. }
    rewrite swrap_small by (try change (2 ^ (32 - 1)) with (2 ^ 31); lia).
    destruct (table_read digits (n mod radix base) Ht ltac:(lia)) as [d Hdd]. rewrite Hdd. simpl.
    assert (n / radix base < 10 ^ Z.of_nat room) as Hr'.
    { apply Z.div_lt_upper_bound; [lia|]. rewrite Nat2Z.inj_succ, Z.pow_succ_r in Hr by lia.
      pose proof (Z.pow_pos_nonneg 10 (Z.of_nat room)). nia. }
    destruct (IH (n / radix base) ltac:(lia) Hr') as (ds & vs & -> & Hsp & Hv & Hl & _).
    exists (d :: ds), (n mod radix base :: vs). simpl. split_and!; [done| |lia|simpl; lia|done].
    constructor; [split; [lia|done]|exact Hsp].
Qed.

Lemma number_digits_S room digits num base :
  number_digits (S room) digits num base =
  if num =? 0 then Some [] else
  let '(r, num) := divide num base in
  d ← rd digits r; ds ← number_digits room digits num base; Some (d :: ds).
Proof. done. Qed.

Lemma number_digits_all digits n base :
  table_ok digits -> - 2 ^ 31 <= n < 2 ^ 31 -> n <> 0 ->
  exists ds vs, number_digits 16 digits n base = Some ds /\
    spells digits (radix base) ds vs /\ value (radix base) vs = u32 n /\
    (length ds <= 16)%nat /\ ds <> [].
Proof.
  intros Ht Hn Hne. change 16%nat with (S 15) at 1. rewrite number_digits_S.
  rewrite (proj2 (Z.eqb_neq _ _)) by done.
  rewrite divide_spec. cbn zeta. pose proof (radix_range base) as Hb.
  pose proof (uwrap_range 32 n ltac:(lia)) as Hu. unfold is_u in Hu.
  pose proof (Z.mod_pos_bound (u32 n) (radix base)) as Hm. pose proof (Z.div_mod (u32 n) (radix base)) as Hd.
  assert (0 <= u32 n / radix base < 2 ^ 31) as Hq.
  { split; [apply Z.div_pos; lia|]. apply Z.div_lt_upper_bound; [lia|]. c_lia. }
  rewrite swrap_small by (try change (2 ^ (32 - 1)) with (2 ^ 31); lia).
  destruct (table_read digits (u32 n mod radix base) Ht ltac:(lia)) as [d Hdd]. rewrite Hdd. cbn [mbind option_bind].
  destruct (number_digits_small 15 digits (u32 n / radix base) base Ht Hq ltac:(lia))
    as (ds & vs & -> & Hsp & Hv & Hl & _).
  exists (d :: ds), (u32 n mod radix base :: vs). simpl. split_and!; [done| |lia|simpl; lia|done].
  constructor; [split; [lia|done]|exact Hsp].
Qed.

(** Characters of [tmp]. *)
Definition number_chars (digits : list Z) (num base : Z) : option (list Z) :=
  if num =? 0 then Some [ch "0"] else number_digits 16 digits num base.

Lemma number_chars_spec digits n base :
  table_ok digits -> - 2 ^ 31 <= n < 2 ^ 31 ->
  exists ds vs, number_chars digits n base = Some ds /\
    spells digits (radix base) ds vs /\ value (radix base) vs = u32 n /\ (0 < length ds <= 16)%nat.
Proof.
  intros Ht Hn. unfold number_chars. destruct (Z.eqb_spec n 0) as [->|Hne].
  - exists [ch "0"], [0]. split_and!; [done| |rewrite uwrap_small by c_lia; simpl; lia|simpl; lia|simpl; lia].
    constructor; [|constructor]. pose proof (radix_range base). split; [lia|].
    by destruct Ht as [-> | ->].
  - destruct (number_digits_all digits n base Ht Hn Hne) as (ds & vs & H1 & H2 & H3 & H4 & H5).
    exists ds, vs. split_and!; try done. destruct ds; [done|simpl; lia].
Qed.

(** ** The reference writer *)

Lemma emit_times_list n c (out : list Z) :
  emit_times n c out = Some (tt, out ++ replicate n c).
Proof.
  revert out. induction n as [|n IH]; intros out; simpl; [by rewrite app_nil_r|].
  unfold mbind, M_bind. simpl. rewrite IH. by rewrite <- app_assoc.
Qed.

Lemma emit_all_list cs (out : list Z) : emit_all cs out = Some (tt, out ++ cs).
Proof.
  revert out. induction cs as [|c cs IH]; intros out; simpl; [by rewrite app_nil_r|].
  unfold mbind, M_bind. simpl. rewrite IH. by rewrite <- app_assoc.
Qed.

(** Code that returns [a] and appends a text. *)
Definition says {A} (m : M (list Z) A) (a : A) (txt : list Z) : Prop :=
  forall out, m out = Some (a, out ++ txt).

Lemma says_ret {A} (a : A) : says (mret a) a [].
Proof. intros out. by rewrite app_nil_r. Qed.

Lemma says_bind {A B} (m : M (list Z) A) (f : A -> M (list Z) B) a b t1 t2 :
  says m a t1 -> says (f a) b t2 -> says (m ≫= f) b (t1 ++ t2).
Proof. intros H1 H2 out. unfold mbind, M_bind. rewrite H1, H2. by rewrite app_assoc. Qed.

Lemma says_emit c : says (emit c) tt [c].
Proof. done. Qed.

Lemma says_times n c : says (emit_times n c) tt (replicate n c).
Proof. intros out. apply emit_times_list. Qed.

Lemma says_all cs : says (emit_all cs) tt cs.
Proof. intros out. apply emit_all_list. Qed.

Lemma says_deref {A} (o : option A) a : o = Some a -> says (deref o) a [].
Proof. intros -> out. unfold deref. by rewrite app_nil_r. Qed.

(** Some text, whatever it is. *)
Definition talks {A} (m : M (list Z) A) (P : A -> Prop) : Prop :=
  exists a txt, P a /\ says m a txt.

Lemma talks_bind {A B} (m : M (list Z) A) (f : A -> M (list Z) B) P Q :
  talks m P -> (forall a, P a -> talks (f a) Q) -> talks (m ≫= f) Q.
Proof.
  intros (a & t & Ha & H1) H2. destruct (H2 a Ha) as (b & t2 & Hb & H3).
  exists b, (t ++ t2). split; [done|]. by eapply says_bind.
Qed.

Lemma talks_says {A} (m : M (list Z) A) a txt (P : A -> Prop) : says m a txt -> P a -> talks m P.
Proof. intros H HP. by exists a, txt. Qed.

Lemma talks_if {A} (b : bool) (m n : M (list Z) A) P :
  talks m P -> talks n P -> talks (if b then m else n) P.
Proof. by destruct b. Qed.

(** ** The text of a number *)

Definition number_sign (num type : Z) : list Z :=
  if has type SIGN then
    if num <? 0 then [ch "-"] else if has type PLUS then [ch "+"]
    else if has type SPACE then [ch " "] else []
  else [].

(** [body] is the digits, most significant first. *)
Definition justified (sign body : list Z) (width : Z) (left zero : bool) : list Z :=
  let pad := Z.to_nat (width - Z.of_nat (length sign + length body)) in
  if left then sign ++ body ++ replicate pad (ch " ")
  else if zero then sign ++ replicate pad (ch "0") ++ body
  else replicate pad (ch " ") ++ sign ++ body.

(** Leading zeros up to the precision. *)
Definition precise (ds : list Z) (precision : Z) : list Z :=
  replicate (Z.to_nat (precision - Z.of_nat (length ds))) (ch "0") ++ ds.

Lemma has_lor t a b : has t (Z.lor a b) = has t a || has t b.
Proof.
  unfold has. rewrite Z.land_lor_distr_r.
  destruct (Z.eqb_spec (Z.lor (Z.land t a) (Z.land t b)) 0) as [E|E].
  - apply Z.lor_eq_0_iff in E as [-> ->]. done.
  - destruct (Z.eqb_spec (Z.land t a) 0) as [E1|]; [|done].
    destruct (Z.eqb_spec (Z.land t b) 0) as [E2|]; [|done]. rewrite E1, E2 in E. done.
Qed.

Lemma has_unzero t f : Z.land (Z.lnot ZEROPAD) f = f -> has (Z.land t (Z.lnot ZEROPAD)) f = has t f.
Proof. intros H. unfold has. by rewrite <- Z.land_assoc, H. Qed.

Lemma has_unzero_zero t : has (Z.land t (Z.lnot ZEROPAD)) ZEROPAD = false.
Proof. unfold has. rewrite <- Z.land_assoc. change (Z.land (Z.lnot ZEROPAD) ZEROPAD) with 0. by rewrite Z.land_0_r. Qed.

Lemma says_eq {A} (m : M (list Z) A) a t t' : says m a t -> t = t' -> says m a t'.
Proof. by intros H <-. Qed.

(** Padding that has been used up. *)
Lemma replicate_none (n : Z) (c : Z) : n <= 0 -> replicate (Z.to_nat n) c = [].
Proof. intros H. by replace (Z.to_nat n) with 0%nat by lia. Qed.

Ltac says_step :=
  first [ apply says_ret | apply says_emit | apply says_times | eassumption
        | eapply says_bind; cbn beta ].

(** The three ways to place a number, as [print_number] computes them. *)
Lemma says_justified sign b1 b2 size left zero (zeros tail : M (list Z) unit) :
  let body := b1 ++ b2 in
  says zeros tt b1 -> says tail tt b2 -> (sign = [] \/ exists s, sign = [s] /\ s <> 0) ->
  let sg := match sign with [] => 0 | s :: _ => s end in
  let width := size + Z.of_nat (length body) in
  says
   (size ← (if negb ((zero && negb left) || left) then
              let size := if negb (sg =? 0) && (0 <? size) then size - 1 else size in
              emit_times (Z.to_nat size) (ch " ");;
              mret (if 0 <? size then -1 else size - 1)
            else mret size);
    size ← (if negb (sg =? 0) then emit sg;; mret (size - 1) else mret size);
    size ← (if negb left then
              emit_times (Z.to_nat size) (if zero && negb left then ch "0" else ch " ");;
              mret (if 0 <? size then -1 else size - 1)
            else mret size);
    zeros;; tail;; emit_times (Z.to_nat size) (ch " ")) tt
   (justified sign body width left zero).
Proof.
  intros body Hz Ht Hs. cbn zeta. unfold justified.
  assert (forall x, (if 0 <? x then -1 else x - 1) <= 0) as Hused by (intros x; bool_cases; lia).
  assert (size + Z.of_nat (length body) - Z.of_nat (length sign + length body) =
          size - Z.of_nat (length sign)) as -> by lia.
  destruct Hs as [->|(s & -> & Hs)]; cbn [length].
  - change (0 =? 0) with true.
    destruct left, zero; cbn [negb orb andb];
      (eapply says_eq; [repeat says_step|]); cbn [app];
      rewrite ?(replicate_none _ (ch " ") (Hused _)), ?app_nil_r; simpl; rewrite ?Z.sub_0_r; unfold body; rewrite ?app_assoc; try done.
  - rewrite (proj2 (Z.eqb_neq s 0)) by done.
    destruct left, zero; cbn [negb orb andb];
      (eapply says_eq; [repeat says_step|]); cbn [app];
      rewrite ?(replicate_none _ (ch " ") (Hused _)), ?app_nil_r; simpl; rewrite ?Z.sub_0_r; unfold body; rewrite ?app_assoc; try done.
    set (p := if 0 <? size then size - 1 else size).
    pose proof (Hused p). rewrite (replicate_none (_ - 1)) by lia.
    replace (Z.to_nat p) with (Z.to_nat (size - Z.of_nat 1)) by (unfold p; bool_cases; lia). done.
Qed.

Definition digits_of (type : Z) : list Z := if has type LARGE then large_digits else small_digits.

(** The magnitude that is printed: [num] itself without SIGN. *)
Definition magnitude (num type : Z) : Z :=
  if has type SIGN && (num <? 0) then s32 (- num) else num.

(** [print_number] on the flags it computes with. *)
Lemma print_number_flags num base width precision type :
  let left := has type LEFT in
  let zero := has type ZEROPAD in
  let sg := match number_sign num type with [] => 0 | s :: _ => s end in
  @print_number (list Z) _ num base width precision type =
  (tmp ← deref (number_chars (digits_of type) (magnitude num type) base);
   let i := Z.of_nat (length tmp) in
   let precision' := if precision <? i then i else precision in
   let size := width - precision' in
   size ← (if negb ((zero && negb left) || left) then
             let size := if negb (sg =? 0) && (0 <? size) then size - 1 else size in
             emit_times (Z.to_nat size) (ch " ");;
             mret (if 0 <? size then -1 else size - 1)
           else mret size);
   size ← (if negb (sg =? 0) then emit sg;; mret (size - 1) else mret size);
   size ← (if negb left then
             emit_times (Z.to_nat size) (if zero && negb left then ch "0" else ch " ");;
             mret (if 0 <? size then -1 else size - 1)
           else mret size);
   emit_times (Z.to_nat (precision' - i)) (ch "0");;
   when (negb (precision =? 0)) (emit_all (rev tmp));;
   emit_times (Z.to_nat size) (ch " ")).
Proof.
  cbn zeta. unfold print_number, number_chars, digits_of, magnitude, number_sign.
  destruct (has type LEFT) eqn:HL; cbn zeta.
  - rewrite has_unzero_zero, has_lor, has_unzero_zero, !has_unzero, HL by done.
    rewrite orb_true_r, andb_false_r. cbn [orb].
    destruct (has type SIGN); [|done]. destruct (num <? 0); [done|].
    destruct (has type PLUS); [done|]. by destruct (has type SPACE).
  - rewrite has_lor, HL. cbn [negb]. rewrite !andb_true_r, !orb_false_r.
    destruct (has type SIGN); [|done]. destruct (num <? 0); [done|].
    destruct (has type PLUS); [done|]. by destruct (has type SPACE).
Qed.

Lemma number_sign_cases num type :
  number_sign num type = [] \/ exists s, number_sign num type = [s] /\ s <> 0.
Proof.
  unfold number_sign. destruct (has type SIGN); [|by left]. destruct (num <? 0); [right; by eexists|].
  destruct (has type PLUS); [right; by eexists|]. destruct (has type SPACE); [right; by eexists|by left].
Qed.

(** The text of a number: digits with leading zeros up to the precision,
    justified; a precision of 0 leaves the digits out, but not their place. *)
Definition number_text (num base width precision type : Z) (tmp : list Z) : list Z :=
  let just body w := justified (number_sign num type) body w (has type LEFT) (has type ZEROPAD) in
  if precision =? 0 then just [] (width - Z.of_nat (length tmp))
  else just (precise (rev tmp) precision) width.

Lemma says_print_number num base width precision type tmp :
  number_chars (digits_of type) (magnitude num type) base = Some tmp ->
  says (print_number num base width precision type) tt (number_text num base width precision type tmp).
Proof.
  intros Htmp. rewrite print_number_flags. cbn zeta.
  eapply says_eq; [eapply says_bind; [by apply says_deref|]|apply app_nil_l]. cbn beta.
  set (i := Z.of_nat (length tmp)) in *.
  set (p := if precision <? i then i else precision).
  pose proof (fun b2 tail => says_justified (number_sign num type) (replicate (Z.to_nat (p - i)) (ch "0")) b2
    (width - p) (has type LEFT) (has type ZEROPAD) _ tail (says_times _ _)) as W. cbn zeta in W.
  unfold number_text. destruct (Z.eqb_spec precision 0) as [->|Hp]; cbn [negb when].
  - specialize (W [] (mret tt) (says_ret tt) (number_sign_cases num type)).
    assert (p = i) as Ep by (unfold p; bool_cases; lia).
    rewrite Ep, Z.sub_diag in *. cbn [replicate app length Z.to_nat] in W. rewrite Z.add_0_r in W. exact W.
  - specialize (W (rev tmp) (emit_all (rev tmp)) (says_all _) (number_sign_cases num type)).
    assert (Z.to_nat (p - i) = Z.to_nat (precision - Z.of_nat (length (rev tmp)))) as Ep.
    { rewrite length_rev. fold i. unfold p. bool_cases; lia. }
    eapply says_eq; [exact W|]. unfold precise. rewrite Ep. f_equal.
    rewrite length_app, length_replicate, length_rev. unfold p, i. bool_cases; lia.
Qed.

(** ** Every format returns when the arguments match it *)

(** The arguments have the kinds the conversions of the format read. *)
Definition takes_int (c : Z) : bool :=
  existsb (Z.eqb c) (text "cpoXxdiu").

Fixpoint args_match (fuel : nat) (fmt : list Z) (args : list arg) : bool :=
  match fuel, fmt with
  | _, [] => true
  | O, _ => false
  | S fuel, c :: fmt =>
      if negb (c =? ch "%") then args_match fuel fmt args else
      let '(flags, fmt) := get_flags fmt 0 in
      match get_width fmt flags args with
      | None => false
      | Some (_, _, fmt, args) =>
          match get_precision fmt args with
          | None => false
          | Some (_, fmt, args) =>
              match snd (get_qualifier fmt) with
              | [] => true
              | c :: rest =>
                  if takes_int c then
                    match va_int args with Some (_, args) => args_match fuel rest args | None => false end
                  else if c =? ch "s" then
                    match va_str args with Some (_, args) => args_match fuel rest args | None => false end
                  else args_match fuel rest args
              end
          end
      end
  end.

Lemma s32_range x : - 2 ^ 31 <= s32 x < 2 ^ 31.
Proof.
  unfold swrap. change (2 ^ (32 - 1)) with (2 ^ 31).
  pose proof (Z.mod_pos_bound (x + 2 ^ 31) (2 ^ 32)). c_lia.
Qed.

Lemma digits_of_ok type : table_ok (digits_of type).
Proof. unfold digits_of, table_ok. destruct (has type LARGE); auto. Qed.

Lemma magnitude_range num type :
  - 2 ^ 31 <= num < 2 ^ 31 -> - 2 ^ 31 <= magnitude num type < 2 ^ 31.
Proof. intros H. unfold magnitude. destruct (_ && _); [apply s32_range|done]. Qed.

Lemma talks_print_number num base width precision type :
  - 2 ^ 31 <= num < 2 ^ 31 ->
  talks (print_number num base width precision type) (fun _ => True).
Proof.
  intros H. destruct (number_chars_spec (digits_of type) (magnitude num type) base) as (tmp & vs & E & _).
  - apply digits_of_ok.
  - by apply magnitude_range.
  - eapply talks_says; [by apply says_print_number|done].
Qed.

Lemma talks_ret {A} (a : A) (P : A -> Prop) : P a -> talks (mret a) P.
Proof. intros H. eapply talks_says; [apply says_ret|done]. Qed.

Lemma talks_emit c : talks (emit c) (fun _ => True).
Proof. eapply talks_says; [apply says_emit|done]. Qed.

Lemma talks_times n c : talks (emit_times n c) (fun _ => True).
Proof. eapply talks_says; [apply says_times|done]. Qed.

Lemma talks_all cs : talks (emit_all cs) (fun _ => True).
Proof. eapply talks_says; [apply says_all|done]. Qed.

Lemma talks_print_char c w flags : talks (print_char c w flags) (fun _ => True).
Proof.
  unfold print_char. apply (talks_bind _ _ (fun _ => True)).
  - apply talks_if; [|by apply talks_ret]. eapply talks_bind; [apply talks_times|]. intros. by apply talks_ret.
  - intros. eapply talks_bind; [apply talks_emit|]. intros. apply talks_times.
Qed.

Lemma talks_print_string s w p flags : talks (print_string s w p flags) (fun _ => True).
Proof.
  unfold print_string. cbn zeta. apply (talks_bind _ _ (fun _ => True)).
  - apply talks_if; [|by apply talks_ret]. eapply talks_bind; [apply talks_times|]. intros. by apply talks_ret.
  - intros. eapply talks_bind; [apply talks_all|]. intros. apply talks_times.
Qed.

(** Text, then the rest of the format with the arguments left. *)
Definition goes_on (rest : list Z) (args : list arg) (r : list Z * list arg) : Prop := r = (rest, args).

Lemma talks_then (m : M (list Z) unit) rest args :
  talks m (fun _ => True) -> talks (m;; mret (rest, args)) (goes_on rest args).
Proof. intros H. eapply talks_bind; [exact H|]. intros. by apply talks_ret. Qed.

Lemma talks_deref {A B} (o : option B) r (f : B -> M (list Z) A) P :
  o = Some r -> talks (f r) P -> talks (x ← deref o; f x) P.
Proof.
  intros E H. eapply (talks_bind _ _ (fun x => x = r)).
  - eapply talks_says; [by apply says_deref|done].
  - by intros x ->.
Qed.

Lemma takes_int_cases c :
  takes_int c = (c =? ch "c") || ((c =? ch "p") || ((c =? ch "o") || ((c =? ch "X") || ((c =? ch "x") ||
    ((c =? ch "d") || ((c =? ch "i") || ((c =? ch "u") || false))))))).
Proof. done. Qed.

Lemma talks_number base flags q w p rest args x args' :
  va_int args = Some (x, args') ->
  talks ('(num, args) ← deref (get_number q flags args);
         print_number num base w p flags;; mret (rest, args)) (goes_on rest args').
Proof.
  intros E. unfold get_number. rewrite E. cbn [mbind option_bind].
  eapply (talks_bind _ _ (fun r => - 2 ^ 31 <= fst r < 2 ^ 31 /\ snd r = args')).
  - eapply talks_says; [by apply says_deref|]. simpl. split; [apply s32_range|done].
  - intros [num a] [Hn Ha]. simpl in *. subst. apply talks_then. by apply talks_print_number.
Qed.

Lemma talks_convert c rest flags w p q args args' :
  (if takes_int c then va_int args ≫= (fun r => Some (snd r))
   else if c =? ch "s" then va_str args ≫= (fun r => Some (snd r)) else Some args) = Some args' ->
  talks (convert c rest flags w p q args) (goes_on rest args').
Proof.
  unfold convert. cbn zeta. rewrite takes_int_cases. intros H.
  assert (takes_int c = true -> exists x, va_int args = Some (x, args')) as Hint.
  { rewrite takes_int_cases. intros Ht. rewrite Ht in H. destruct (va_int args) as [[x a]|]; [|done].
    injection H as <-. by exists x. }
  rewrite takes_int_cases in Hint.
  destruct (c =? ch "c") eqn:E1; cbn [orb] in *.
  { destruct (Hint eq_refl) as [x E]. eapply talks_deref; [exact E|]. apply talks_then, talks_print_char. }
  destruct (c =? ch "s") eqn:E2.
  { apply Z.eqb_eq in E2. subst c. change (va_str args ≫= (fun r => Some (snd r)) = Some args') in H.
    destruct (va_str args) as [[s a]|] eqn:E; [|done]. injection H as <-.
    eapply talks_deref; [done|]. apply talks_then, talks_print_string. }
  destruct (c =? ch "p") eqn:E3; cbn [orb] in *.
  { destruct (Hint eq_refl) as [x E]. eapply talks_deref; [exact E|]. apply talks_then.
    apply talks_if; apply talks_print_number, s32_range. }
  destruct (c =? ch "%") eqn:E4.
  { apply Z.eqb_eq in E4. subst c. injection H as <-. apply talks_then, talks_emit. }
  do 5 (match goal with
        | |- talks (if (c =? ?a) || (c =? ?b) then _ else _) _ =>
            destruct (c =? a), (c =? b); cbn [orb] in *
        | |- talks (if (c =? ?x) then _ else _) _ => destruct (c =? x); cbn [orb] in *
        end; try (destruct (Hint eq_refl) as [x E]; eapply talks_number, E)).
  injection H as <-. eapply talks_bind; [apply talks_emit|]. intros. apply talks_then, talks_emit.
Qed.

Lemma get_flags_length fmt flags : (length (snd (get_flags fmt flags)) <= length fmt)%nat.
Proof.
  revert flags. induction fmt as [|c fmt IH]; intros flags; simpl; [lia|].
  repeat (match goal with |- context [if ?b then _ else _] => destruct b end); simpl; try lia;
    (etransitivity; [apply IH|lia]).
Qed.

Lemma skip_atoi_length s i : (length (snd (skip_atoi s i)) <= length s)%nat.
Proof.
  revert i. induction s as [|c s IH]; intros i; simpl; [lia|]. destruct (_ISDIGIT c); simpl; [|lia].
  etransitivity; [apply IH|lia].
Qed.

Lemma get_width_length fmt flags args w f fmt' args' :
  get_width fmt flags args = Some (w, f, fmt', args') -> (length fmt' <= length fmt)%nat.
Proof.
  destruct fmt as [|c fmt]; simpl; [naive_solver|]. destruct (_ISDIGIT c).
  - pose proof (skip_atoi_length (fmt) (s32 (c - 48))) as Hl. simpl.
    destruct (skip_atoi fmt _) as [v l]; simpl in *. intros [= <- <- <- <-]. simpl in *. lia.
  - destruct (c =? ch "*"); [|naive_solver]. destruct (va_int args) as [[x a]|]; [|done]. simpl.
    destruct (_ <? 0); intros [= <- <- <- <-]; lia.
Qed.

Lemma get_precision_length fmt args p fmt' args' :
  get_precision fmt args = Some (p, fmt', args') -> (length fmt' <= length fmt)%nat.
Proof.
  destruct fmt as [|c [|d fmt]]; simpl; [naive_solver| |].
  - destruct (c =? ch "."); simpl; naive_solver lia.
  - destruct (c =? ch "."); [|naive_solver]. destruct (_ISDIGIT d).
    + pose proof (skip_atoi_length fmt (s32 (d - 48))) as Hl.
      destruct (skip_atoi fmt _) as [v l]; simpl in *. intros [= <- <- <-]. simpl in *. lia.
    + destruct (d =? ch "*"); [destruct (va_int args) as [[x a]|]; [|done]|]; simpl;
        intros [= <- <- <-]; simpl; lia.
Qed.

Lemma get_qualifier_length fmt : (length (snd (get_qualifier fmt)) <= length fmt)%nat.
Proof. destruct fmt as [|c fmt]; simpl; [lia|]. destruct (_ || _); simpl; lia. Qed.

(** A directive whose arguments match is printed, and the rest matches. *)
Lemma talks_directive fuel fmt args :
  args_match (S fuel) (ch "%" :: fmt) args = true ->
  talks (directive fmt args) (fun r =>
    args_match fuel (fst r) (snd r) = true /\ (length (fst r) <= length fmt)%nat).
Proof.
  intros H. unfold directive. cbn [args_match] in H. change (negb (ch "%" =? ch "%")) with false in H.
  cbn iota in H. pose proof (get_flags_length fmt 0) as L1.
  destruct (get_flags fmt 0) as [flags f1]. simpl in L1.
  destruct (get_width f1 flags args) as [[[[w fl] f2] a2]|] eqn:E2; [|done].
  pose proof (get_width_length _ _ _ _ _ _ _ E2) as L2. eapply talks_deref; [done|].
  destruct (get_precision f2 a2) as [[[p f3] a3]|] eqn:E3; [|done].
  pose proof (get_precision_length _ _ _ _ _ E3) as L3. eapply talks_deref; [done|].
  pose proof (get_qualifier_length f3) as L4. cbn beta iota.
  destruct (get_qualifier f3) as [q [|c rest]]; simpl in H, L4.
  { eapply talks_bind; [apply talks_emit|]. intros. apply talks_ret. simpl. split; [by destruct fuel|lia]. }
  assert (exists args', (if takes_int c then va_int a3 ≫= (fun r => Some (snd r))
     else if c =? ch "s" then va_str a3 ≫= (fun r => Some (snd r)) else Some a3) = Some args' /\
     args_match fuel rest args' = true) as (args' & E & Hm).
  { destruct (takes_int c); [destruct (va_int a3) as [[x a]|]; [|done]; by exists a|].
    destruct (c =? ch "s"); [destruct (va_str a3) as [[x a]|]; [|done]; by exists a|]. by exists a3. }
  destruct (talks_convert c rest fl w p q a3 args' E) as (r & txt & -> & Hsays).
  exists (rest, args'), txt. split; [|exact Hsays]. simpl. split; [done|lia].
Qed.

Lemma talks_format fuel fmt args :
  args_match fuel fmt args = true -> talks (format_loop fuel fmt args) (fun _ => True).
Proof.
  revert fmt args. induction fuel as [|fuel IH]; intros [|c fmt] args H; try done.
  - by apply talks_ret.
  - by apply talks_ret.
  - cbn [format_loop]. destruct (c =? ch "%") eqn:Ec; cbn [negb].
    + apply Z.eqb_eq in Ec. subst c. eapply talks_bind; [by apply talks_directive|].
      intros [f a] [Hm _]. by apply IH.
    + cbn [args_match] in H. rewrite Ec in H. eapply talks_bind; [apply talks_emit|]. intros. by apply IH.
Qed.

(** C29. [rt_vsnprintf] returns for every format whose arguments match it, and
    its buffer holds the beginning of the formatted text: at most [size - 1]
    characters and a NUL, the memory behind untouched.  The value returned is
    the length of the whole text. *)
Theorem vsnprintf_truncates buf mem size fmt args :
  0 <= buf -> 0 < size -> buf + size < 2 ^ 32 -> size <= Z.of_nat (length mem) ->
  args_match (length fmt) fmt args = true ->
  exists out, formatted fmt args = Some out /\
    (Z.of_nat (length out) < 2 ^ 31 ->
     rt_vsnprintf buf mem size fmt args =
     Some (Z.of_nat (length out), splice mem 0 (take (Z.to_nat (size - 1)) out ++ [0]))).
Proof.
  intros Hb Hs Hw Hm Ha. destruct (talks_format _ _ _ Ha) as ([] & out & _ & Hout).
  assert (formatted fmt args = Some out) as Hf by (unfold formatted; by rewrite Hout).
  exists out. split; [done|]. intros Hl. by apply vsnprintf_of.
Qed.

(** ** Numbers come back *)

Lemma swrap_mul_add w a k b : swrap w (swrap w a * k + b) = swrap w (a * k + b).
Proof.
  unfold swrap. set (h := 2 ^ (w - 1)). set (m := 2 ^ w).
  destruct (decide (m = 0)) as [Hm|Hm].
  { rewrite Hm, !Zmod_0_r. lia. }
  f_equal. rewrite (Z.mod_eq (a + h) m) by done.
  replace ((a + h - m * ((a + h) / m) - h) * k + b + h)
    with (a * k + b + h + (- (k * ((a + h) / m))) * m) by lia.
  apply Z_mod_plus_full.
Qed.

Lemma decimal_digit v d :
  0 <= v < 10 -> rd small_digits v = Some d -> d = v + 48.
Proof.
  intros Hv Hd. assert (v = 0 \/ v = 1 \/ v = 2 \/ v = 3 \/ v = 4 \/ v = 5 \/ v = 6 \/ v = 7 \/ v = 8 \/ v = 9)
    as Hc by lia.
  repeat destruct Hc as [->|Hc]; try subst v; vm_compute in Hd; by injection Hd as <-.
Qed.

Lemma isdigit_char v : 0 <= v < 10 -> _ISDIGIT (v + 48) = true.
Proof. intros Hv. unfold _ISDIGIT. rewrite uwrap_small by c_lia. apply Z.ltb_lt. lia. Qed.

(** [skip_atoi] reads the digits back, in the 32 bits of an [int]. *)
Lemma skip_atoi_digits ds vs tail i :
  spells small_digits 10 ds vs -> s32 i = i ->
  skip_atoi (rev ds ++ tail) i =
  skip_atoi tail (s32 (i * 10 ^ Z.of_nat (length ds) + value 10 vs)).
Proof.
  intros H. revert tail i. induction H as [|d v ds vs [Hv Hd] Hsp IH]; intros tail i Hi.
  - simpl. rewrite Z.mul_1_r, Z.add_0_r. by rewrite Hi.
  - simpl rev. rewrite <- app_assoc, IH by done. cbn [app skip_atoi].
    rewrite (decimal_digit v d Hv Hd), isdigit_char by done. f_equal.
    replace (s32 (i * 10 ^ Z.of_nat (length ds) + value 10 vs) * 10 + (v + 48) - 48)
      with (s32 (i * 10 ^ Z.of_nat (length ds) + value 10 vs) * 10 + v) by lia.
    rewrite swrap_mul_add. f_equal. cbn [length value]. rewrite Nat2Z.inj_succ, Z.pow_succ_r by lia. lia.
Qed.

Lemma number_text_plain num base type tmp :
  has type LEFT = false -> has type ZEROPAD = false ->
  number_text num base (-1) (-1) type tmp = number_sign num type ++ rev tmp.
Proof.
  intros HL HZ. unfold number_text, justified, precise. rewrite HL, HZ. change (-1 =? 0) with false. cbn iota.
  rewrite !replicate_none by (rewrite ?length_app; lia). done.
Qed.

Lemma swrap_of_uwrap x : s32 (u32 x) = s32 x.
Proof.
  unfold swrap, uwrap. f_equal. rewrite Zplus_mod_idemp_l. done.
Qed.

Lemma formatted_d x :
  - 2 ^ 31 <= x < 2 ^ 31 ->
  exists tmp vs, spells small_digits 10 tmp vs /\ value 10 vs = Z.abs x /\
    formatted (text "%d") [AInt x] = Some ((if x <? 0 then [ch "-"] else []) ++ rev tmp).
Proof.
  intros Hx.
  destruct (number_chars_spec small_digits (magnitude x SIGN) 10) as (tmp & vs & E & Hsp & Hv & _).
  { by left. }
  { by apply magnitude_range. }
  exists tmp, vs. split; [exact Hsp|]. split.
  { change (radix 10) with 10 in Hv. rewrite Hv. unfold magnitude. change (has SIGN SIGN) with true. cbn [andb].
    destruct (Z.ltb_spec x 0); [|rewrite uwrap_small by c_lia; lia].
    assert (u32 (s32 (- x)) = u32 (- x)) as ->.
    { unfold swrap, uwrap. rewrite Zminus_mod_idemp_l. f_equal. lia. }
    rewrite uwrap_small by c_lia. lia. }
  unfold formatted. change (length (text "%d")) with 2%nat.
  change (format_loop 2 (text "%d") [AInt x] ([] : list Z)) with
    (('(f, a) ← (print_number (s32 (u32 (s32 (u32 x)))) 10 (-1) (-1) SIGN;; mret ([] : list Z, [] : list arg));
      format_loop 1 f a) ([] : list Z)).
  rewrite !swrap_of_uwrap. rewrite !(swrap_small 32 x) by (try change (2 ^ (32 - 1)) with (2 ^ 31); lia).
  pose proof (says_print_number x 10 (-1) (-1) SIGN tmp E) as Hs.
  rewrite number_text_plain in Hs by done. unfold mbind, M_bind. rewrite (Hs []). cbn.
  unfold number_sign. change (has SIGN SIGN) with true. by destruct (x <? 0).
Qed.

(** C31. What [%d] prints for an [int] is its sign and decimal digits: read back
    with [skip_atoi] it gives the number again, also for the least one, and
    the digits it prints have the value of its magnitude. *)
Theorem decimal_roundtrip x :
  - 2 ^ 31 <= x < 2 ^ 31 ->
  exists ds, formatted (text "%d") [AInt x] = Some ((if x <? 0 then [ch "-"] else []) ++ ds) /\
    skip_atoi ds 0 = (s32 (Z.abs x), []) /\
    (if x <? 0 then s32 (- s32 (Z.abs x)) else s32 (Z.abs x)) = x.
Proof.
  intros Hx. destruct (formatted_d x Hx) as (tmp & vs & Hsp & Hv & Hf). exists (rev tmp).
  split; [exact Hf|]. split.
  - rewrite <- (app_nil_r (rev tmp)), (skip_atoi_digits _ _ _ 0 Hsp) by done. simpl. by rewrite Hv.
  - destruct (Z.ltb_spec x 0).
    + replace (- s32 (Z.abs x)) with (s32 (Z.abs x) * (-1) + 0) by lia. rewrite swrap_mul_add.
      replace (Z.abs x * -1 + 0) with x by lia.
      apply swrap_small; [lia|]. change (2 ^ (32 - 1)) with (2 ^ 31). lia.
    + rewrite swrap_small; [lia|lia|]. change (2 ^ (32 - 1)) with (2 ^ 31). lia.
Qed.

(** ** Where the code falls short *)

Lemma number_digits_octal room digits num :
  number_digits room digits num 8 = number_digits room digits num 16.
Proof.
  revert num. induction room as [|room IH]; intros num; [done|].
  rewrite !number_digits_S. change (divide num 8) with (divide num 16).
  destruct (num =? 0); [done|]. destruct (divide num 16) as [r q]. by rewrite IH.
Qed.

(** [divide] knows the bases 10 and 16 only: [%o] prints in base 16. *)
Theorem octal_prints_hex x : formatted (text "%o") [AInt x] = formatted (text "%x") [AInt x].
Proof.
  unfold formatted. change (length (text "%o")) with 2%nat. change (length (text "%x")) with 2%nat.
  change (format_loop 2 (text "%o") [AInt x] ([] : list Z)) with
    (('(f, a) ← (print_number (s32 (u32 x)) 8 (-1) (-1) 0;; mret ([] : list Z, [] : list arg));
      format_loop 1 f a) ([] : list Z)).
  change (format_loop 2 (text "%x") [AInt x] ([] : list Z)) with
    (('(f, a) ← (print_number (s32 (u32 x)) 16 (-1) (-1) 0;; mret ([] : list Z, [] : list arg));
      format_loop 1 f a) ([] : list Z)).
  rewrite !print_number_flags. cbn zeta. unfold number_chars. rewrite !number_digits_octal. done.
Qed.

(** A precision of 0 drops the digits of every number, not only of 0. *)
Theorem zero_precision_prints_nothing : formatted (text "%.0d") [AInt 5] = Some [].
Proof. vm_compute. reflexivity. Qed.

(** With a console device, [rt_kprintf] sends the text if it is shorter than 255 characters, and
    otherwise its first 254 characters with the NUL behind them. *)
Theorem kprintf_sends log_addr rt_log_buf fmt args out :
  0 <= log_addr -> log_addr + 255 < 2 ^ 32 -> length rt_log_buf = 256%nat ->
  formatted fmt args = Some out -> Z.of_nat (length out) < 2 ^ 31 ->
  exists m, rt_kprintf true log_addr rt_log_buf fmt args =
    Some (if Z.of_nat (length out) <? 255 then out else take 254 out ++ [0], m).
Proof.
  intros Ha Hw Hlen Hf Hl. unfold rt_kprintf. change (RT_CONSOLEBUF_SIZE - 1) with 255.
  rewrite (vsnprintf_of log_addr rt_log_buf 255 fmt args out Ha ltac:(lia) Hw ltac:(lia) Hf Hl). cbn [mbind option_bind].
  rewrite uwrap_small by c_lia. set (m := splice _ _ _).
  assert (length m = 256%nat) as Hm.
  { unfold m. rewrite length_splice; [done|]. rewrite length_app, length_take. cbn [length]. lia. }
  assert (forall k, 0 <= k <= 255 -> buf_read m 0 k = Some (take (Z.to_nat k) m)) as Hread.
  { intros k Hk. rewrite buf_read_Some by lia. by rewrite drop_0. }
  destruct (Z.ltb_spec (Z.of_nat (length out)) 255) as [Hlt|Hge].
  - rewrite (proj2 (Z.ltb_ge _ _)) by lia. rewrite Hread by lia. cbn [mbind option_bind]. eexists. f_equal. f_equal.
    unfold m, splice. rewrite (take_ge out) by lia. rewrite Nat2Z.id, <- app_assoc. simpl. by rewrite take_app_length.
  - destruct (Z.ltb_spec 255 (Z.of_nat (length out))); rewrite Hread by lia; cbn [mbind option_bind]; eexists; f_equal; f_equal.
    all: change (Z.to_nat (255 - 1)) with 254%nat in *.
    all: assert (length (take 254 out ++ [0]) = 255%nat) as H255 by (rewrite length_app, length_take; cbn [length]; lia).
    all: unfold m, splice; rewrite take_0, app_nil_l.
    all: (replace (Z.to_nat _) with 255%nat by lia); rewrite <- H255; apply take_app_length.
Qed.

(** ** Concrete runs *)

Lemma vsnprintf_truncates_witness :
  exists out, formatted (text "v=%03d %s") [AInt 7; AStr (Some (text "ok"))] = Some out /\
    rt_vsnprintf 4096 (replicate 8 255) 6 (text "v=%03d %s") [AInt 7; AStr (Some (text "ok"))] =
    Some (8, text "v=007" ++ [0; 255; 255]).
Proof.
  destruct (vsnprintf_truncates 4096 (replicate 8 255) 6 (text "v=%03d %s") [AInt 7; AStr (Some (text "ok"))])
    as (out & Hf & H); [lia|lia|lia|simpl; lia|reflexivity|].
  exists out. split; [exact Hf|]. vm_compute in Hf. injection Hf as <-. apply H. reflexivity.
Defined.

Lemma decimal_roundtrip_witness :
  exists ds, formatted (text "%d") [AInt (- 2 ^ 31)] = Some (ch "-" :: ds) /\
    s32 (- fst (skip_atoi ds 0)) = - 2 ^ 31.
Proof.
  destruct (decimal_roundtrip (- 2 ^ 31)) as (ds & Hf & Ha & Hx); [lia|].
  exists ds. split; [exact Hf|]. rewrite Ha. exact Hx.
Defined.

End Printf.
