(* ===== verification/KMem.v ===== *)
(** * Memory and string functions

    Model of the functions of [rt-thread/src/kservice.c] that [Object] does
    not have: [rt_memset], [rt_memcpy], [rt_memmove], [rt_memcmp],
    [rt_strstr], [rt_strcasecmp], [rt_strcmp], [rt_strnlen], [rt_strlen].
    Memory is one list of bytes and a pointer is an index into it; reading or
    writing outside it is a fault.  Words are 32 bits, little endian, and are
    accessed at multiples of 4.

    The word-wise fast paths are shown to do what the byte loops do, moving
    is right for every overlap, and the search finds the first occurrence. *)
From stdpp Require Import base list.
From Stdlib Require Import ZArith Lia.
From S2P Require Import Prelude.

Module KMem.

Notation mem := (list Z).

Definition load8 (a : Z) : M mem Z := fun m =>
  match rd m a with Some x => Some (x, m) | None => None end.
Definition store8 (a x : Z) : M mem unit := fun m =>
  match wr m a x with Some m' => Some (tt, m') | None => None end.

(** [*p] and [*p = w] for a pointer to [long]. *)
Definition load32 (a : Z) : M mem Z :=
  b0 ← load8 a; b1 ← load8 (a + 1); b2 ← load8 (a + 2); b3 ← load8 (a + 3);
  mret (Z.lor b0 (Z.lor (Z.shiftl b1 8) (Z.lor (Z.shiftl b2 16) (Z.shiftl b3 24)))).
Definition store32 (a w : Z) : M mem unit :=
  store8 a (Z.land w 0xff);;
  store8 (a + 1) (Z.land (Z.shiftr w 8) 0xff);;
  store8 (a + 2) (Z.land (Z.shiftr w 16) 0xff);;
  store8 (a + 3) (Z.land (Z.shiftr w 24) 0xff).

Definition UNALIGNED (a : Z) : bool := negb (Z.land a 3 =? 0).

(** *** rt_memset *)

Fixpoint memset_bytes (count : nat) (a d : Z) : M mem unit :=
  match count with
  | O => mret tt
  | S count => store8 a d;; memset_bytes count (a + 1) d
  end.

(** [while (count >= 16)], four words a round. *)
Fixpoint memset_blocks (fuel : nat) (a count buffer : Z) : M mem (Z * Z) :=
  match fuel with
  | O => fault
  | S fuel =>
      if 16 <=? count then
        store32 a buffer;; store32 (a + 4) buffer;;
        store32 (a + 8) buffer;; store32 (a + 12) buffer;;
        memset_blocks fuel (a + 16) (count - 16) buffer
      else mret (a, count)
  end.

(** [while (count >= 4)] *)
Fixpoint memset_words (fuel : nat) (a count buffer : Z) : M mem (Z * Z) :=
  match fuel with
  | O => fault
  | S fuel =>
      if 4 <=? count then
        store32 a buffer;; memset_words fuel (a + 4) (count - 4) buffer
      else mret (a, count)
  end.

Definition loop_fuel (count : Z) : nat := S (Z.to_nat count).

Definition rt_memset (s c count : Z) : M mem unit :=
  let d := Z.land c 0xff in
  '(m, count) ←
    (if negb (count <? 4) && negb (UNALIGNED s) then
       let buffer := Z.lor (Z.shiftl d 8) d in
       let buffer := u32 (Z.lor buffer (Z.shiftl buffer 16)) in
       '(a, count) ← memset_blocks (loop_fuel count) s count buffer;
       memset_words (loop_fuel count) a count buffer
     else mret (s, count));
  memset_bytes (Z.to_nat count) m d.

(** *** rt_memcpy *)

Definition copy32 (dst src : Z) : M mem unit := w ← load32 src; store32 dst w.
Definition copy8 (dst src : Z) : M mem unit := x ← load8 src; store8 dst x.

Fixpoint memcpy_bytes (len : nat) (dst src : Z) : M mem unit :=
  match len with
  | O => mret tt
  | S len => copy8 dst src;; memcpy_bytes len (dst + 1) (src + 1)
  end.

(** [len] is an [int], compared with a [size_t]. *)
Fixpoint memcpy_blocks (fuel : nat) (dst src len : Z) : M mem (Z * Z * Z) :=
  match fuel with
  | O => fault
  | S fuel =>
      if 16 <=? u32 len then
        copy32 dst src;; copy32 (dst + 4) (src + 4);;
        copy32 (dst + 8) (src + 8);; copy32 (dst + 12) (src + 12);;
        memcpy_blocks fuel (dst + 16) (src + 16) (s32 (len - 16))
      else mret (dst, src, len)
  end.

Fixpoint memcpy_words (fuel : nat) (dst src len : Z) : M mem (Z * Z * Z) :=
  match fuel with
  | O => fault
  | S fuel =>
      if 4 <=? u32 len then
        copy32 dst src;; memcpy_words fuel (dst + 4) (src + 4) (s32 (len - 4))
      else mret (dst, src, len)
  end.

(** [int len = count]; [while (len--)] runs until [len] is 0, modulo 2^32. *)
Definition rt_memcpy (dst src count : Z) : M mem unit :=
  let len := s32 count in
  '(d, s, len) ←
    (if negb (u32 len <? 16) && negb (UNALIGNED src || UNALIGNED dst) then
       '(d, s, len) ← memcpy_blocks (loop_fuel (u32 len)) dst src len;
       memcpy_words (loop_fuel (u32 len)) d s len
     else mret (dst, src, len));
  memcpy_bytes (Z.to_nat (u32 len)) d s.

(** *** rt_memmove *)

Fixpoint memmove_down (n : nat) (tmp s : Z) : M mem unit :=
  match n with
  | O => mret tt
  | S n => copy8 (tmp - 1) (s - 1);; memmove_down n (tmp - 1) (s - 1)
  end.

Definition rt_memmove (dest src n : Z) : M mem unit :=
  if (src <? dest) && (dest <? src + n) then
    memmove_down (Z.to_nat n) (dest + n) (src + n)
  else memcpy_bytes (Z.to_nat n) dest src.

(** *** Comparison and strings *)

Fixpoint memcmp_loop (count : nat) (su1 su2 : Z) : M mem Z :=
  match count with
  | O => mret 0
  | S count =>
      x ← load8 su1; y ← load8 su2;
      let res := x - y in
      if negb (res =? 0) then mret res else memcmp_loop count (su1 + 1) (su2 + 1)
  end.
Definition rt_memcmp (cs ct count : Z) : M mem Z := memcmp_loop (Z.to_nat count) cs ct.

(** The loops over a string end at the NUL, at the latest at the end of the
    memory. *)
Definition string_fuel (m : mem) : nat := S (length m).

Fixpoint strlen_loop (fuel : nat) (sc : Z) : M mem Z :=
  match fuel with
  | O => fault
  | S fuel => x ← load8 sc; if negb (x =? 0) then strlen_loop fuel (sc + 1) else mret sc
  end.
Definition rt_strlen (s : Z) : M mem Z :=
  fuel ← gets string_fuel; sc ← strlen_loop fuel s; mret (sc - s).

Fixpoint strnlen_loop (fuel : nat) (s sc maxlen : Z) : M mem Z :=
  match fuel with
  | O => fault
  | S fuel =>
      x ← load8 sc;
      if negb (x =? 0) && (sc - s <? maxlen) then strnlen_loop fuel s (sc + 1) maxlen else mret sc
  end.
Definition rt_strnlen (s maxlen : Z) : M mem Z :=
  fuel ← gets string_fuel; sc ← strnlen_loop fuel s s maxlen; mret (sc - s).

Fixpoint strcmp_loop (fuel : nat) (cs ct : Z) : M mem Z :=
  match fuel with
  | O => fault
  | S fuel =>
      x ← load8 cs;
      if negb (x =? 0) then
        y ← load8 ct;
        if x =? y then strcmp_loop fuel (cs + 1) (ct + 1) else mret (x - y)
      else y ← load8 ct; mret (x - y)
  end.
(** [char] is unsigned on the target; the bytes are those of the memory. *)
Definition rt_strcmp (cs ct : Z) : M mem Z :=
  fuel ← gets string_fuel; strcmp_loop fuel cs ct.

Definition lower (c : Z) : Z := if (65 <=? c) && (c <=? 90) then c + 32 else c.

Fixpoint strcasecmp_loop (fuel : nat) (a b : Z) : M mem Z :=
  match fuel with
  | O => fault
  | S fuel =>
      x ← load8 a; y ← load8 b;
      let ca := lower (Z.land x 0xff) in
      let cb := lower (Z.land y 0xff) in
      if (ca =? cb) && negb (ca =? 0) then strcasecmp_loop fuel (a + 1) (b + 1)
      else mret (ca - cb)
  end.
Definition rt_strcasecmp (a b : Z) : M mem Z :=
  fuel ← gets string_fuel; strcasecmp_loop fuel a b.

(** The address of the occurrence, [None] for the null pointer. *)
Fixpoint strstr_loop (fuel : nat) (s1 s2 l1 l2 : Z) : M mem (option Z) :=
  match fuel with
  | O => fault
  | S fuel =>
      if l2 <=? l1 then
        r ← rt_memcmp s1 s2 l2;
        if r =? 0 then mret (Some s1) else strstr_loop fuel (s1 + 1) s2 (l1 - 1) l2
      else mret None
  end.
Definition rt_strstr (s1 s2 : Z) : M mem (option Z) :=
  l2 ← rt_strlen s2;
  if l2 =? 0 then mret (Some s1) else
  l1 ← rt_strlen s1;
  fuel ← gets string_fuel;
  strstr_loop fuel s1 s2 l1 l2.

(** ** Bytes and words *)

Definition byte_ok (x : Z) : Prop := 0 <= x < 256.

Lemma wp_load8 a x m (Q : Z -> mem -> Prop) : rd m a = Some x -> Q x m -> wp (load8 a) m Q.
Proof. intros E H. unfold wp, load8. by rewrite E. Qed.

Lemma wp_store8 a x m (Q : unit -> mem -> Prop) :
  0 <= a < Z.of_nat (length m) -> Q tt (<[Z.to_nat a := x]> m) -> wp (store8 a x) m Q.
Proof. intros Ha H. unfold wp, store8. by rewrite wr_Some. Qed.

Definition word_of (b0 b1 b2 b3 : Z) : Z :=
  Z.lor b0 (Z.lor (Z.shiftl b1 8) (Z.lor (Z.shiftl b2 16) (Z.shiftl b3 24))).
Definition bytes_of (w : Z) : list Z :=
  [Z.land w 0xff; Z.land (Z.shiftr w 8) 0xff; Z.land (Z.shiftr w 16) 0xff; Z.land (Z.shiftr w 24) 0xff].

(** Byte [i] of a number. *)
Lemma byte_testbit w i k : 0 <= i -> 0 <= k ->
  Z.testbit (Z.land (Z.shiftr w k) 0xff) i = Z.testbit w (i + k) && (i <? 8).
Proof.
  intros Hi Hk. rewrite Z.land_spec, Z.shiftr_spec by lia. f_equal.
  change 0xff with (Z.ones 8). rewrite Z.testbit_ones_nonneg by lia. done.
Qed.

Lemma byte_high x i : byte_ok x -> 8 <= i -> Z.testbit x i = false.
Proof.
  intros [H1 H2] Hi. destruct (decide (x = 0)) as [->|]; [apply Z.testbit_0_l|].
  apply Z.bits_above_log2; [lia|]. assert (Z.log2 x < 8); [|lia]. apply Z.log2_lt_pow2; lia.
Qed.

Lemma word_testbit b0 b1 b2 b3 i : 0 <= i ->
  Z.testbit (word_of b0 b1 b2 b3) i =
  Z.testbit b0 i || (Z.testbit b1 (i - 8) || (Z.testbit b2 (i - 16) || Z.testbit b3 (i - 24))).
Proof. intros Hi. unfold word_of. by rewrite !Z.lor_spec, !Z.shiftl_spec by lia. Qed.

Lemma bytes_of_word b0 b1 b2 b3 :
  byte_ok b0 -> byte_ok b1 -> byte_ok b2 -> byte_ok b3 ->
  bytes_of (word_of b0 b1 b2 b3) = [b0; b1; b2; b3].
Proof.
  intros H0 H1 H2 H3. unfold bytes_of.
  rewrite <- (Z.shiftr_0_r (word_of b0 b1 b2 b3)) at 1.
  assert (forall k b, 0 <= k -> byte_ok b ->
    (forall i, 0 <= i < 8 -> Z.testbit (word_of b0 b1 b2 b3) (i + k) = Z.testbit b i) ->
    Z.land (Z.shiftr (word_of b0 b1 b2 b3) k) 0xff = b) as Hbyte.
  { intros k b Hk Hb E. apply Z.bits_inj'. intros i Hi. rewrite byte_testbit by lia.
    destruct (Z.ltb_spec i 8); [rewrite E by lia; apply andb_true_r|].
    rewrite andb_false_r. symmetry. by apply byte_high. }
  f_equal; [|f_equal; [|f_equal; [|f_equal]]]; apply Hbyte; try done; intros i Hi; rewrite word_testbit by lia.
  - rewrite Z.add_0_r, !(Z.testbit_neg_r _ (i - _)) by lia. by rewrite !orb_false_r.
  - replace (i + 8 - 8) with i by lia. rewrite (byte_high b0) by (done || lia).
    rewrite (Z.testbit_neg_r b2), (Z.testbit_neg_r b3) by lia. simpl. by rewrite !orb_false_r.
  - replace (i + 16 - 16) with i by lia. rewrite (byte_high b0), (byte_high b1) by (done || lia).
    rewrite (Z.testbit_neg_r b3) by lia. simpl. by rewrite orb_false_r.
  - replace (i + 24 - 24) with i by lia.
    by rewrite (byte_high b0), (byte_high b1), (byte_high b2) by (done || lia).
Qed.

(** Writes next to each other are one write. *)
Lemma splice_splice (m : mem) o x y :
  (o + length x + length y <= length m)%nat ->
  splice (splice m o x) (o + length x) y = splice m o (x ++ y).
Proof.
  intros H. apply list_eq. intros i.
  rewrite !lookup_splice by (rewrite ?length_splice, ?length_app by lia; lia).
  rewrite length_app, lookup_app_decide.
  repeat case_decide; try lia; try done. f_equal. lia.
Qed.

Lemma insert_splice (m : mem) a x : (a < length m)%nat -> <[a := x]> m = splice m a [x].
Proof.
  intros H. apply list_eq. intros i. rewrite lookup_insert_decide, lookup_splice by (simpl; lia).
  simpl. repeat case_decide; try lia; try done. by replace (i - a)%nat with 0%nat by lia.
Qed.

Lemma wp_store32 a w m (Q : unit -> mem -> Prop) :
  (a + 4 <= length m)%nat -> Q tt (splice m a (bytes_of w)) -> wp (store32 (Z.of_nat a) w) m Q.
Proof.
  intros Ha HQ. unfold store32.
  assert (forall b0 b1 b2 b3, <[(a + 3)%nat := b3]> (<[(a + 2)%nat := b2]> (<[(a + 1)%nat := b1]> (<[a := b0]> m))) =
    splice m a [b0; b1; b2; b3]) as E.
  { intros b0 b1 b2 b3. apply list_eq. intros i.
    rewrite !lookup_insert_decide, lookup_splice by (simpl; lia). rewrite !length_insert. simpl.
    destruct (decide (a <= i < a + 4)%nat) as [Hi|Hi].
    - assert (i = a \/ i = a + 1 \/ i = a + 2 \/ i = a + 3)%nat as Hc by lia.
      destruct Hc as [->|[->|[->| ->]]]; repeat case_decide; try lia;
        [replace (a - a)%nat with 0%nat by lia | replace (a + 1 - a)%nat with 1%nat by lia
        | replace (a + 2 - a)%nat with 2%nat by lia | replace (a + 3 - a)%nat with 3%nat by lia]; done.
    - repeat case_decide; try lia; done. }
  do 3 (apply wp_bind, wp_store8; [rewrite ?length_insert; lia|]). apply wp_store8; [rewrite ?length_insert; lia|].
  replace (Z.to_nat (Z.of_nat a + 3)) with (a + 3)%nat by lia.
  replace (Z.to_nat (Z.of_nat a + 2)) with (a + 2)%nat by lia.
  replace (Z.to_nat (Z.of_nat a + 1)) with (a + 1)%nat by lia.
  rewrite Nat2Z.id, E. exact HQ.
Qed.

Lemma take_4 (l : mem) :
  (4 <= length l)%nat ->
  exists b0 b1 b2 b3, take 4 l = [b0; b1; b2; b3] /\ l !! 0%nat = Some b0 /\ l !! 1%nat = Some b1 /\
    l !! 2%nat = Some b2 /\ l !! 3%nat = Some b3.
Proof. intros H. destruct l as [|b0 [|b1 [|b2 [|b3 l]]]]; simpl in H; try lia. by exists b0, b1, b2, b3. Qed.

(** A word copied is four bytes copied, read before any is written. *)
Lemma wp_copy32 d s m (Q : unit -> mem -> Prop) :
  Forall byte_ok m -> (d + 4 <= length m)%nat -> (s + 4 <= length m)%nat ->
  Q tt (splice m d (take 4 (drop s m))) -> wp (copy32 (Z.of_nat d) (Z.of_nat s)) m Q.
Proof.
  intros Hm Hd Hs HQ. destruct (take_4 (drop s m)) as (b0 & b1 & b2 & b3 & E & E0 & E1 & E2 & E3).
  { rewrite length_drop. lia. }
  rewrite lookup_drop in E0, E1, E2, E3.
  unfold copy32, load32. apply wp_bind.
  assert (forall k b, m !! (s + k)%nat = Some b -> rd m (Z.of_nat s + Z.of_nat k) = Some b) as Hrd.
  { intros k b Hk. unfold rd. rewrite (proj2 (Z.leb_le _ _)) by lia.
    by replace (Z.to_nat (Z.of_nat s + Z.of_nat k)) with (s + k)%nat by lia. }
  apply wp_bind, (wp_load8 _ b0); [rewrite <- (Z.add_0_r (Z.of_nat s)); by apply (Hrd 0%nat)|].
  apply wp_bind, (wp_load8 _ b1); [by apply (Hrd 1%nat)|].
  apply wp_bind, (wp_load8 _ b2); [by apply (Hrd 2%nat)|].
  apply wp_bind, (wp_load8 _ b3); [by apply (Hrd 3%nat)|].
  apply wp_ret, wp_store32; [done|]. change (Z.lor b0 _) with (word_of b0 b1 b2 b3).
  rewrite bytes_of_word by (eapply Forall_lookup_1; eassumption). by rewrite <- E.
Qed.

Lemma wp_copy8 d s m (Q : unit -> mem -> Prop) :
  (d < length m)%nat -> (s < length m)%nat ->
  Q tt (splice m d (take 1 (drop s m))) -> wp (copy8 (Z.of_nat d) (Z.of_nat s)) m Q.
Proof.
  intros Hd Hs HQ. destruct (lookup_lt_is_Some_2 m s Hs) as [x Hx].
  unfold copy8. apply wp_bind, (wp_load8 _ x).
  { unfold rd. rewrite (proj2 (Z.leb_le _ _)) by lia. by rewrite Nat2Z.id. }
  apply wp_store8; [lia|]. rewrite Nat2Z.id, insert_splice by done.
  by rewrite (drop_S _ x _ Hx) in HQ.
Qed.

(** ** Copying *)

(** The first [k] bytes at [s] are also at [d]. *)
Definition copied (m : mem) (d s k : nat) : mem := splice m d (take k (drop s m)).

(** A copy of [n] bytes from low to high addresses reads nothing it has
    overwritten. *)
Definition upward (d s n : nat) : Prop := (d <= s \/ s + n <= d)%nat.

Lemma length_copied m d s k n :
  (k <= n)%nat -> (d + n <= length m)%nat -> length (copied m d s k) = length m.
Proof. intros. unfold copied. apply length_splice. rewrite length_take. lia. Qed.

Lemma copied_0 m d s : copied m d s 0 = m.
Proof. unfold copied, splice. rewrite take_0. simpl. rewrite Nat.add_0_r. apply take_drop. Qed.

Lemma splice_bytes m d x : Forall byte_ok m -> Forall byte_ok x -> Forall byte_ok (splice m d x).
Proof.
  intros Hm Hx. unfold splice. rewrite !Forall_app.
  split_and!; [by apply Forall_take|done|by apply Forall_drop].
Qed.

Lemma copied_bytes m d s k : Forall byte_ok m -> Forall byte_ok (copied m d s k).
Proof. intros Hm. apply splice_bytes; [done|]. by apply Forall_take, Forall_drop. Qed.

Section Copy.
Context (m : mem) (d s n : nat).
Context (Hd : (d + n <= length m)%nat) (Hs : (s + n <= length m)%nat) (Hup : upward d s n).

Lemma copied_step k w :
  (k + w <= n)%nat ->
  splice (copied m d s k) (d + k) (take w (drop (s + k) (copied m d s k))) = copied m d s (k + w).
Proof.
  intros Hk. pose proof (length_copied m d s k n ltac:(lia) Hd) as Hl.
  assert (forall j, length (take j (drop s m)) = Nat.min j (length m - s)) as Ht.
  { intros j. by rewrite length_take, length_drop. }
  apply list_eq. intros i.
  rewrite lookup_splice by (rewrite length_take, length_drop, Hl; lia).
  rewrite length_take, length_drop, Hl, lookup_take_decide, lookup_drop.
  unfold copied. rewrite !lookup_splice by (rewrite Ht; lia). rewrite !Ht, !lookup_take_decide, !lookup_drop.
  unfold upward in Hup. repeat case_decide; try lia; try done. all: f_equal; lia.
Qed.

Lemma memcpy_bytes_wp j k (Q : unit -> mem -> Prop) :
  (k + j <= n)%nat -> Q tt (copied m d s (k + j)) ->
  wp (memcpy_bytes j (Z.of_nat (d + k)) (Z.of_nat (s + k))) (copied m d s k) Q.
Proof.
  revert k. induction j as [|j IH]; intros k Hk HQ; simpl; [by apply wp_ret; rewrite Nat.add_0_r in HQ|].
  apply wp_bind, wp_copy8; [rewrite (length_copied _ _ _ _ n) by lia; lia..|].
  rewrite copied_step by lia. replace (Z.of_nat (d + k) + 1) with (Z.of_nat (d + (k + 1))) by lia.
  replace (Z.of_nat (s + k) + 1) with (Z.of_nat (s + (k + 1))) by lia.
  apply IH; [lia|]. by replace (k + 1 + j)%nat with (k + S j)%nat by lia.
Qed.

Context (Hm : Forall byte_ok m) (Hn : Z.of_nat n < 2 ^ 31).

Lemma wp_copy_word k (Q : unit -> mem -> Prop) :
  (k + 4 <= n)%nat -> Q tt (copied m d s (k + 4)) ->
  wp (copy32 (Z.of_nat (d + k)) (Z.of_nat (s + k))) (copied m d s k) Q.
Proof.
  intros Hk HQ. apply wp_copy32; [by apply copied_bytes|rewrite (length_copied _ _ _ _ n) by lia; lia..|].
  by rewrite copied_step.
Qed.

(** The state between the loops: [k] bytes are copied, [len] are left. *)
Definition copying (r : Z * Z * Z) (m' : mem) : Prop :=
  exists k, (k <= n)%nat /\ r = (Z.of_nat (d + k), Z.of_nat (s + k), Z.of_nat (n - k)) /\ m' = copied m d s k.

Lemma len_left k w : (k + w <= n)%nat -> s32 (Z.of_nat (n - k) - Z.of_nat w) = Z.of_nat (n - (k + w)).
Proof. intros Hk. rewrite swrap_small; [lia|lia|]. change (2 ^ (32 - 1)) with (2 ^ 31). lia. Qed.

Lemma memcpy_words_wp fuel k :
  (k <= n)%nat -> (n - k < fuel)%nat ->
  wp (memcpy_words fuel (Z.of_nat (d + k)) (Z.of_nat (s + k)) (Z.of_nat (n - k))) (copied m d s k) copying.
Proof.
  revert k. induction fuel as [|fuel IH]; intros k Hk Hf; [lia|]. cbn [memcpy_words].
  rewrite uwrap_small by c_lia. destruct (Z.leb_spec 4 (Z.of_nat (n - k))); [|apply wp_ret; by exists k].
  apply wp_bind, wp_copy_word; [lia|].
  pose proof (len_left k 4 ltac:(lia)) as El. change (Z.of_nat 4) with 4 in El. rewrite El.
  replace (Z.of_nat (d + k) + 4) with (Z.of_nat (d + (k + 4))) by lia.
  replace (Z.of_nat (s + k) + 4) with (Z.of_nat (s + (k + 4))) by lia. apply IH; lia.
Qed.

Lemma memcpy_blocks_wp fuel k :
  (k <= n)%nat -> (n - k < fuel)%nat ->
  wp (memcpy_blocks fuel (Z.of_nat (d + k)) (Z.of_nat (s + k)) (Z.of_nat (n - k))) (copied m d s k) copying.
Proof.
  revert k. induction fuel as [|fuel IH]; intros k Hk Hf; [lia|]. cbn [memcpy_blocks].
  rewrite uwrap_small by c_lia. destruct (Z.leb_spec 16 (Z.of_nat (n - k))); [|apply wp_ret; by exists k].
  pose proof (len_left k 16 ltac:(lia)) as El. change (Z.of_nat 16) with 16 in El. rewrite El.
  assert (forall x j, Z.of_nat (x + k) + Z.of_nat j = Z.of_nat (x + (k + j))) as E by lia.
  pose proof (fun x => E x 4%nat) as E4. pose proof (fun x => E x 8%nat) as E8.
  pose proof (fun x => E x 12%nat) as E12. pose proof (fun x => E x 16%nat) as E16.
  change (Z.of_nat 4) with 4 in E4. change (Z.of_nat 8) with 8 in E8.
  change (Z.of_nat 12) with 12 in E12. change (Z.of_nat 16) with 16 in E16.
  rewrite !E4, !E8, !E12, !E16.
  apply wp_bind, wp_copy_word; [lia|]. apply wp_bind, wp_copy_word; [lia|].
  replace (k + 4 + 4)%nat with (k + 8)%nat by lia. apply wp_bind, wp_copy_word; [lia|].
  replace (k + 8 + 4)%nat with (k + 12)%nat by lia. apply wp_bind, wp_copy_word; [lia|].
  replace (k + 12 + 4)%nat with (k + 16)%nat by lia. apply IH; lia.
Qed.

Lemma copy_rest_wp (r : Z * Z * Z) m' (Q : unit -> mem -> Prop) :
  copying r m' -> Q tt (copied m d s n) ->
  wp (let '(d, s, len) := r in memcpy_bytes (Z.to_nat (u32 len)) d s) m' Q.
Proof.
  intros (k & Hk & -> & ->) HQ. rewrite uwrap_small, Nat2Z.id by c_lia.
  apply memcpy_bytes_wp; [lia|]. by replace (k + (n - k))%nat with n by lia.
Qed.

Lemma rt_memcpy_wp :
  wp (rt_memcpy (Z.of_nat d) (Z.of_nat s) (Z.of_nat n)) m (fun _ m' => m' = copied m d s n).
Proof.
  unfold rt_memcpy. rewrite swrap_small by (try change (2 ^ (32 - 1)) with (2 ^ 31); lia).
  rewrite uwrap_small by c_lia. apply wp_bind.
  assert (copying (Z.of_nat d, Z.of_nat s, Z.of_nat n) m) as H0.
  { exists 0%nat. rewrite copied_0, Nat.sub_0_r, !Nat.add_0_r. split_and!; [lia|done..]. }
  eapply (wp_mono _ _ copying); [|intros r m' Hr; by apply copy_rest_wp].
  destruct (_ && _); [|by apply wp_ret]. apply wp_bind.
  assert (forall P : Z * Z * Z -> mem -> Prop, (forall r m', copying r m' -> P r m') ->
    wp (memcpy_blocks (loop_fuel (Z.of_nat n)) (Z.of_nat d) (Z.of_nat s) (Z.of_nat n)) m P) as Hblocks.
  { intros P HP. pose proof (memcpy_blocks_wp (loop_fuel (Z.of_nat n)) 0) as W.
    rewrite copied_0, Nat.sub_0_r, !Nat.add_0_r in W.
    eapply wp_mono; [apply W; unfold loop_fuel; lia|exact HP]. }
  apply Hblocks. intros r m' (k & Hk & -> & ->). rewrite uwrap_small by c_lia.
  apply memcpy_words_wp; unfold loop_fuel; lia.
Qed.

End Copy.

(** ** Moving *)

(** The last [k] of [n] bytes are moved. *)
Definition moved_top (m : mem) (d s n k : nat) : mem :=
  splice m (d + (n - k)) (take k (drop (s + (n - k)) m)).

Lemma moved_top_step m d s n k :
  (s <= d)%nat -> (d + n <= length m)%nat -> (k < n)%nat ->
  let m' := moved_top m d s n k in
  splice m' (d + (n - S k)) (take 1 (drop (s + (n - S k)) m')) = moved_top m d s n (S k).
Proof.
  intros Hds Hd Hk m'.
  assert (forall j, (j <= n)%nat -> length (take j (drop (s + (n - j)) m)) = j) as Ht.
  { intros j Hj. rewrite length_take, length_drop. lia. }
  assert (length m' = length m) as Hl.
  { unfold m', moved_top. apply length_splice. rewrite Ht by lia. lia. }
  apply list_eq. intros i.
  rewrite lookup_splice by (rewrite length_take, length_drop, Hl; lia).
  rewrite length_take, length_drop, Hl, lookup_take_decide, lookup_drop.
  unfold m', moved_top. rewrite !lookup_splice by (rewrite Ht by lia; lia).
  rewrite !Ht, !lookup_take_decide, !lookup_drop by lia.
  repeat case_decide; try lia; try done. all: f_equal; lia.
Qed.

Lemma memmove_down_wp m d s n j k (Q : unit -> mem -> Prop) :
  (s <= d)%nat -> (d + n <= length m)%nat -> (j + k = n)%nat ->
  Q tt (copied m d s n) ->
  wp (memmove_down j (Z.of_nat (d + (n - k))) (Z.of_nat (s + (n - k)))) (moved_top m d s n k) Q.
Proof.
  intros Hds Hd. revert k. induction j as [|j IH]; intros k Hk HQ; simpl.
  - apply wp_ret. unfold moved_top. replace k with n by lia. rewrite Nat.sub_diag, !Nat.add_0_r. exact HQ.
  - assert (length (moved_top m d s n k) = length m) as Hl.
    { unfold moved_top. apply length_splice. rewrite length_take, length_drop. lia. }
    replace (Z.of_nat (d + (n - k)) - 1) with (Z.of_nat (d + (n - S k))) by lia.
    replace (Z.of_nat (s + (n - k)) - 1) with (Z.of_nat (s + (n - S k))) by lia.
    apply wp_bind, wp_copy8; [rewrite Hl; lia..|]. rewrite moved_top_step by lia. apply IH; [lia|done].
Qed.

Lemma rt_memmove_wp m d s n :
  (d + n <= length m)%nat -> (s + n <= length m)%nat ->
  wp (rt_memmove (Z.of_nat d) (Z.of_nat s) (Z.of_nat n)) m (fun _ m' => m' = copied m d s n).
Proof.
  intros Hd Hs. unfold rt_memmove. rewrite Nat2Z.id.
  destruct ((Z.of_nat s <? Z.of_nat d) && (Z.of_nat d <? Z.of_nat s + Z.of_nat n)) eqn:Hover.
  - apply andb_true_iff in Hover as [H1%Z.ltb_lt H2%Z.ltb_lt].
    pose proof (memmove_down_wp m d s n n 0 (fun _ m' => m' = copied m d s n)) as W.
    assert (moved_top m d s n 0 = m) as E.
    { unfold moved_top, splice. rewrite take_0. simpl. rewrite Nat.add_0_r. apply take_drop. }
    rewrite E, Nat.sub_0_r in W. replace (Z.of_nat d + Z.of_nat n) with (Z.of_nat (d + n)) by lia.
    replace (Z.of_nat s + Z.of_nat n) with (Z.of_nat (s + n)) by lia. apply W; [lia|lia|lia|done].
  - assert (upward d s n) as Hup.
    { unfold upward. apply andb_false_iff in Hover as [H1%Z.ltb_ge|H2%Z.ltb_ge]; lia. }
    pose proof (memcpy_bytes_wp m d s n Hd Hs Hup n 0 (fun _ m' => m' = copied m d s n)) as W.
    rewrite copied_0, !Nat.add_0_r in W. apply W; [lia|done].
Qed.

(** ** Filling *)

Definition filled (m : mem) (a k : nat) (x : Z) : mem := splice m a (replicate k x).

Lemma filled_step m a k w x :
  (a + (k + w) <= length m)%nat -> splice (filled m a k x) (a + k) (replicate w x) = filled m a (k + w) x.
Proof.
  intros H. unfold filled. pose proof (splice_splice m a (replicate k x) (replicate w x)) as E.
  rewrite !length_replicate in E. rewrite E by lia. by rewrite replicate_add.
Qed.

Lemma length_filled m a k x : (a + k <= length m)%nat -> length (filled m a k x) = length m.
Proof. intros. unfold filled. apply length_splice. by rewrite length_replicate. Qed.

Lemma filled_0 m a x : filled m a 0 x = m.
Proof. unfold filled, splice. simpl. rewrite Nat.add_0_r. apply take_drop. Qed.

(** The word with the byte in all four places. *)
Definition fill_word (d : Z) : Z :=
  let buffer := Z.lor (Z.shiftl d 8) d in u32 (Z.lor buffer (Z.shiftl buffer 16)).

Lemma fill_word_bytes d : byte_ok d -> bytes_of (fill_word d) = replicate 4 d.
Proof.
  intros Hd.
  assert (forallb (fun i => bool_decide (bytes_of (fill_word (Z.of_nat i)) = replicate 4 (Z.of_nat i)))
            (seq 0 256) = true) as H by (vm_compute; reflexivity).
  rewrite forallb_forall in H. specialize (H (Z.to_nat d)).
  rewrite Z2Nat.id in H by (destruct Hd; lia).
  apply bool_decide_eq_true in H; [done|]. apply in_seq. destruct Hd. lia.
Qed.

Section Fill.
Context (m : mem) (a n : nat) (x : Z) (Ha : (a + n <= length m)%nat) (Hx : byte_ok x).

Lemma wp_fill_word k (Q : unit -> mem -> Prop) :
  (k + 4 <= n)%nat -> Q tt (filled m a (k + 4) x) ->
  wp (store32 (Z.of_nat (a + k)) (fill_word x)) (filled m a k x) Q.
Proof.
  intros Hk HQ. apply wp_store32; [rewrite length_filled by lia; lia|].
  by rewrite fill_word_bytes, filled_step by (done || lia).
Qed.

Definition filling (r : Z * Z) (m' : mem) : Prop :=
  exists k, (k <= n)%nat /\ r = (Z.of_nat (a + k), Z.of_nat (n - k)) /\ m' = filled m a k x.

Lemma memset_words_wp fuel k :
  (k <= n)%nat -> (n - k < fuel)%nat ->
  wp (memset_words fuel (Z.of_nat (a + k)) (Z.of_nat (n - k)) (fill_word x)) (filled m a k x) filling.
Proof.
  revert k. induction fuel as [|fuel IH]; intros k Hk Hf; [lia|]. cbn [memset_words].
  destruct (Z.leb_spec 4 (Z.of_nat (n - k))); [|apply wp_ret; by exists k].
  apply wp_bind, wp_fill_word; [lia|].
  replace (Z.of_nat (a + k) + 4) with (Z.of_nat (a + (k + 4))) by lia.
  replace (Z.of_nat (n - k) - 4) with (Z.of_nat (n - (k + 4))) by lia. apply IH; lia.
Qed.

Lemma memset_blocks_wp fuel k :
  (k <= n)%nat -> (n - k < fuel)%nat ->
  wp (memset_blocks fuel (Z.of_nat (a + k)) (Z.of_nat (n - k)) (fill_word x)) (filled m a k x) filling.
Proof.
  revert k. induction fuel as [|fuel IH]; intros k Hk Hf; [lia|]. cbn [memset_blocks].
  destruct (Z.leb_spec 16 (Z.of_nat (n - k))); [|apply wp_ret; by exists k].
  replace (Z.of_nat (n - k) - 16) with (Z.of_nat (n - (k + 16))) by lia.
  replace (Z.of_nat (a + k) + 4) with (Z.of_nat (a + (k + 4))) by lia.
  replace (Z.of_nat (a + k) + 8) with (Z.of_nat (a + (k + 8))) by lia.
  replace (Z.of_nat (a + k) + 12) with (Z.of_nat (a + (k + 12))) by lia.
  replace (Z.of_nat (a + k) + 16) with (Z.of_nat (a + (k + 16))) by lia.
  apply wp_bind, wp_fill_word; [lia|]. apply wp_bind, wp_fill_word; [lia|].
  replace (k + 4 + 4)%nat with (k + 8)%nat by lia. apply wp_bind, wp_fill_word; [lia|].
  replace (k + 8 + 4)%nat with (k + 12)%nat by lia. apply wp_bind, wp_fill_word; [lia|].
  replace (k + 12 + 4)%nat with (k + 16)%nat by lia. apply IH; lia.
Qed.

Lemma memset_bytes_wp j k (Q : unit -> mem -> Prop) :
  (k + j = n)%nat -> Q tt (filled m a n x) ->
  wp (memset_bytes j (Z.of_nat (a + k)) x) (filled m a k x) Q.
Proof.
  revert k. induction j as [|j IH]; intros k Hk HQ; simpl.
  - apply wp_ret. by replace k with n by lia.
  - apply wp_bind, wp_store8; [rewrite length_filled by lia; lia|].
    rewrite Nat2Z.id, insert_splice by (rewrite length_filled by lia; lia).
    rewrite (filled_step _ _ _ 1) by lia.
    replace (Z.of_nat (a + k) + 1) with (Z.of_nat (a + (k + 1))) by lia. apply IH; [lia|done].
Qed.

End Fill.

Lemma rt_memset_wp m a c n :
  (a + n <= length m)%nat ->
  wp (rt_memset (Z.of_nat a) c (Z.of_nat n)) m (fun _ m' => m' = filled m a n (Z.land c 0xff)).
Proof.
  intros Ha. unfold rt_memset.
  assert (byte_ok (Z.land c 0xff)) as Hx.
  { change 0xff with (Z.ones 8). rewrite Z.land_ones by lia. apply Z.mod_pos_bound. lia. }
  set (x := Z.land c 0xff) in *. cbn zeta.
  change (u32 _) with (fill_word x). apply wp_bind.
  eapply (wp_mono _ _ (filling m a n x)).
  - destruct (_ && _).
    + apply wp_bind. pose proof (memset_blocks_wp m a n x Ha Hx (loop_fuel (Z.of_nat n)) 0) as W.
      rewrite filled_0, Nat.sub_0_r, Nat.add_0_r in W.
      eapply wp_mono; [apply W; unfold loop_fuel; lia|].
      intros r m' (k & Hk & -> & ->). apply memset_words_wp; try done; unfold loop_fuel; lia.
    + apply wp_ret. exists 0%nat. rewrite filled_0, Nat.sub_0_r, Nat.add_0_r. split_and!; [lia|done..].
  - intros r m' (k & Hk & -> & ->). rewrite Nat2Z.id. apply (memset_bytes_wp _ _ n); try done; lia.
Qed.

(** ** Strings *)

(** [l] is at address [a]. *)
Definition at_ (m : mem) (a : nat) (l : list Z) : Prop := take (length l) (drop a m) = l.

(** A C string: characters other than NUL, and a NUL. *)
Definition cstring (m : mem) (a : nat) (str : list Z) : Prop :=
  at_ m a (str ++ [0]) /\ Forall (fun c => c <> 0) str.

Lemma at_cons m a x l : at_ m a (x :: l) <-> m !! a = Some x /\ at_ m (S a) l.
Proof.
  unfold at_. simpl. split.
  - intros H. destruct (drop a m) as [|y t] eqn:E; [done|]. simpl in H. injection H as -> H.
    assert (m !! a = Some x) as Hx by (rewrite <- (Nat.add_0_r a), <- lookup_drop, E; done).
    split; [done|]. rewrite (drop_S _ x _ Hx) in E. injection E as E. by rewrite E.
  - intros [Hx H]. rewrite (drop_S _ x _ Hx). simpl. by rewrite H.
Qed.

Lemma at_app m a l1 l2 : at_ m a (l1 ++ l2) <-> at_ m a l1 /\ at_ m (a + length l1) l2.
Proof.
  revert a. induction l1 as [|x l1 IH]; intros a; simpl.
  - rewrite Nat.add_0_r. unfold at_ at 2. simpl. rewrite take_0. naive_solver.
  - rewrite !at_cons, IH, Nat.add_succ_r. simpl. naive_solver.
Qed.

Lemma at_length m a l : l <> [] -> at_ m a l -> (a + length l <= length m)%nat.
Proof.
  intros Hl H. apply (f_equal length) in H. rewrite length_take, length_drop in H.
  assert (length l <> 0%nat) by (by destruct l). lia.
Qed.

Lemma wp_load_at a x m (Q : Z -> mem -> Prop) :
  m !! a = Some x -> Q x m -> wp (load8 (Z.of_nat a)) m Q.
Proof.
  intros E H. apply (wp_load8 _ x); [|done]. unfold rd.
  rewrite (proj2 (Z.leb_le _ _)) by lia. by rewrite Nat2Z.id.
Qed.

Lemma cstring_cons m a c str : cstring m a (c :: str) <-> m !! a = Some c /\ c <> 0 /\ cstring m (S a) str.
Proof. unfold cstring. simpl. rewrite at_cons, Forall_cons. naive_solver. Qed.

Lemma cstring_nil m a : cstring m a [] <-> m !! a = Some 0.
Proof. unfold cstring. simpl. rewrite at_cons. unfold at_. simpl. rewrite take_0. naive_solver. Qed.

Lemma cstring_length m a str : cstring m a str -> (a + length str < length m)%nat.
Proof.
  intros [H _]. apply at_length in H; [|by destruct str]. rewrite length_app in H. simpl in H. lia.
Qed.

Lemma strlen_loop_wp fuel m a str (Q : Z -> mem -> Prop) :
  cstring m a str -> (length str < fuel)%nat ->
  Q (Z.of_nat (a + length str)) m -> wp (strlen_loop fuel (Z.of_nat a)) m Q.
Proof.
  revert a fuel. induction str as [|c str IH]; intros a [|fuel] Hs Hf HQ; simpl in Hf; try lia.
  - rewrite cstring_nil in Hs. cbn [strlen_loop]. apply wp_bind, (wp_load_at _ 0); [done|]. simpl.
    apply wp_ret. by rewrite Nat.add_0_r in HQ.
  - apply cstring_cons in Hs as (Hc & Hne & Hs). cbn [strlen_loop].
    apply wp_bind, (wp_load_at _ c); [done|]. rewrite (proj2 (Z.eqb_neq _ _)) by done. simpl.
    replace (Z.of_nat a + 1) with (Z.of_nat (S a)) by lia. apply IH; [done|lia|].
    by replace (S a + length str)%nat with (a + length (c :: str))%nat by (simpl; lia).
Qed.

Lemma rt_strlen_wp m a str (Q : Z -> mem -> Prop) :
  cstring m a str -> Q (Z.of_nat (length str)) m -> wp (rt_strlen (Z.of_nat a)) m Q.
Proof.
  intros Hs HQ. unfold rt_strlen. wp_steps. eapply strlen_loop_wp; [exact Hs| |].
  - unfold string_fuel. apply cstring_length in Hs. lia.
  - wp_steps. by replace (Z.of_nat (a + length str) - Z.of_nat a) with (Z.of_nat (length str)) by lia.
Qed.

(** The first difference. *)
Fixpoint first_diff (x y : list Z) : Z :=
  match x, y with
  | a :: x, b :: y => if a - b =? 0 then first_diff x y else a - b
  | _, _ => 0
  end.

Lemma first_diff_zero x y : length x = length y -> (first_diff x y = 0 <-> x = y).
Proof.
  revert y. induction x as [|a x IH]; intros [|b y] Hl; simpl in *; try done.
  injection Hl as Hl. destruct (Z.eqb_spec (a - b) 0) as [E|E].
  - rewrite (IH _ Hl). assert (a = b) as -> by lia. naive_solver.
  - split; [done|]. intros [= -> _]. lia.
Qed.

Lemma memcmp_wp m a b x y (Q : Z -> mem -> Prop) :
  at_ m a x -> at_ m b y -> length x = length y -> Q (first_diff x y) m ->
  wp (rt_memcmp (Z.of_nat a) (Z.of_nat b) (Z.of_nat (length x))) m Q.
Proof.
  unfold rt_memcmp. rewrite Nat2Z.id. revert a b y.
  induction x as [|c x IH]; intros a b [|e y] Hx Hy Hl HQ; simpl in Hl; try done.
  apply at_cons in Hx as [Hc Hx]. apply at_cons in Hy as [He Hy]. injection Hl as Hl. simpl in *.
  apply wp_bind, (wp_load_at _ c); [done|]. apply wp_bind, (wp_load_at _ e); [done|].
  destruct (c - e =? 0); simpl; [|by apply wp_ret].
  replace (Z.of_nat a + 1) with (Z.of_nat (S a)) by lia. replace (Z.of_nat b + 1) with (Z.of_nat (S b)) by lia.
  by eapply IH.
Qed.

(** The first place of [needle] in [hay]. *)
Definition occurs_first (hay needle : list Z) (i : nat) : Prop :=
  (exists post, hay = take i hay ++ needle ++ post) /\ (i <= length hay)%nat /\
  forall pre post, hay = pre ++ needle ++ post -> (i <= length pre)%nat.

Definition found_at (hay needle : list Z) (a : nat) (r : option Z) : Prop :=
  match r with
  | Some p => exists i, p = Z.of_nat (a + i) /\ occurs_first hay needle i
  | None => forall pre post, hay <> pre ++ needle ++ post
  end.

(** Searching on behind a place where the needle is not. *)
Lemma found_at_cons c hay needle a r :
  ~ (exists post, c :: hay = needle ++ post) ->
  found_at hay needle (S a) r -> found_at (c :: hay) needle a r.
Proof.
  intros Hn. destruct r as [p|]; simpl.
  - intros (i & -> & (post & Hp) & Hi & Hmin). exists (S i). split; [f_equal; lia|]. split_and!.
    + exists post. simpl. by rewrite <- Hp.
    + simpl. lia.
    + intros [|c' pre] post' E; [exfalso; apply Hn; by exists post'|]. injection E as _ E.
      apply Hmin in E. simpl. lia.
  - intros H [|c' pre] post E; [apply Hn; by exists post|]. injection E as _ E. by apply (H pre post).
Qed.

Lemma found_at_short hay needle a :
  (length hay < length needle)%nat -> found_at hay needle a None.
Proof. intros H pre post E. apply (f_equal length) in E. rewrite !length_app in E. lia. Qed.

Lemma strstr_loop_wp fuel m a b hay needle :
  needle <> [] -> cstring m a hay -> cstring m b needle -> (length hay < fuel)%nat ->
  wp (strstr_loop fuel (Z.of_nat a) (Z.of_nat b) (Z.of_nat (length hay)) (Z.of_nat (length needle))) m
    (fun r m' => m' = m /\ found_at hay needle a r).
Proof.
  intros Hne Ha Hb. pose proof (proj1 Hb) as Hb'. apply at_app in Hb' as [Hb' _].
  revert fuel a Ha. induction hay as [|c hay IH]; intros [|fuel] a Ha Hf; simpl in Hf; try lia.
  - cbn [strstr_loop]. rewrite (proj2 (Z.leb_gt _ _)) by (destruct needle; [done|simpl; lia]).
    apply wp_ret. split; [done|]. apply found_at_short. destruct needle; [done|simpl; lia].
  - cbn [strstr_loop]. destruct (Z.leb_spec (Z.of_nat (length needle)) (Z.of_nat (length (c :: hay)))) as [Hle|Hgt].
    2: { apply wp_ret. split; [done|]. apply found_at_short. lia. }
    set (x := take (length needle) (c :: hay)).
    assert (length x = length needle) as Hlx by (unfold x; rewrite length_take; lia).
    assert (at_ m a x) as Hx.
    { destruct Ha as [Ha _]. rewrite <- (take_drop (length needle) (c :: hay)), <- app_assoc in Ha.
      apply at_app in Ha as [Ha _]. exact Ha. }
    apply wp_bind. rewrite <- Hlx at 1. apply (memcmp_wp _ _ _ x needle); [done|done|done|].
    destruct (Z.eqb_spec (first_diff x needle) 0) as [E|E].
    + apply first_diff_zero in E; [|done]. apply wp_ret. split; [done|]. exists 0%nat.
      split; [f_equal; lia|]. split_and!; [|lia|lia]. exists (drop (length needle) (c :: hay)).
      rewrite take_0. simpl app at 1. rewrite <- E at 1. symmetry. apply take_drop.
    + replace (Z.of_nat a + 1) with (Z.of_nat (S a)) by lia.
      replace (Z.of_nat (length (c :: hay)) - 1) with (Z.of_nat (length hay)) by (simpl; lia).
      apply cstring_cons in Ha as (_ & _ & Ha). eapply wp_mono; [apply IH; [done|lia]|].
      intros r m' [-> Hr]. split; [done|]. apply found_at_cons; [|done].
      intros (post & Ep). apply E, first_diff_zero; [done|]. unfold x. rewrite Ep. apply take_app_length.
Qed.

(** ** Comparing strings *)

Lemma strcmp_loop_wp fuel m a b x y :
  cstring m a x -> cstring m b y -> (length x < fuel)%nat ->
  wp (strcmp_loop fuel (Z.of_nat a) (Z.of_nat b)) m (fun r m' => m' = m /\ (r = 0 <-> x = y)).
Proof.
  revert fuel a b y. induction x as [|c x IH]; intros [|fuel] a b y Hx Hy Hf; simpl in Hf; try lia.
  - rewrite cstring_nil in Hx. cbn [strcmp_loop]. apply wp_bind, (wp_load_at _ 0); [done|]. cbn [Z.eqb negb].
    destruct y as [|e y].
    + rewrite cstring_nil in Hy. apply wp_bind, (wp_load_at _ 0); [done|]. by apply wp_ret.
    + apply cstring_cons in Hy as (He & Hne & _). apply wp_bind, (wp_load_at _ e); [done|].
      apply wp_ret. split; [done|]. split; [lia|done].
  - apply cstring_cons in Hx as (Hc & Hne & Hx). cbn [strcmp_loop].
    apply wp_bind, (wp_load_at _ c); [done|]. rewrite (proj2 (Z.eqb_neq _ _)) by done. cbn [negb].
    destruct y as [|e y].
    + rewrite cstring_nil in Hy. apply wp_bind, (wp_load_at _ 0); [done|].
      rewrite (proj2 (Z.eqb_neq _ _)) by done. apply wp_ret. split; [done|]. split; [lia|done].
    + apply cstring_cons in Hy as (He & _ & Hy). apply wp_bind, (wp_load_at _ e); [done|].
      destruct (Z.eqb_spec c e) as [->|Hce].
      * replace (Z.of_nat a + 1) with (Z.of_nat (S a)) by lia. replace (Z.of_nat b + 1) with (Z.of_nat (S b)) by lia.
        eapply wp_mono; [apply IH; [done|done|lia]|]. intros r m' [-> Hr]. split; [done|]. rewrite Hr. naive_solver.
      * apply wp_ret. split; [done|]. split; [lia|]. intros [= ->]; done.
Qed.

Lemma rt_strcmp_wp m a b x y :
  cstring m a x -> cstring m b y ->
  wp (rt_strcmp (Z.of_nat a) (Z.of_nat b)) m (fun r m' => m' = m /\ (r = 0 <-> x = y)).
Proof.
  intros Hx Hy. unfold rt_strcmp. wp_steps. apply strcmp_loop_wp; [done|done|].
  unfold string_fuel. apply cstring_length in Hx. lia.
Qed.

(** C30. The word-wise paths of [rt_memcpy] and [rt_memset] return and do what
    their byte loops do, for every alignment and length: the destination holds
    the source (read before the copy) or the byte, nothing else changes.
    Copying is right for disjoint areas and for a destination below its
    source. *)
Theorem fast_paths_exact m (d s n : nat) c :
  Forall byte_ok m -> (d + n <= length m)%nat -> (s + n <= length m)%nat ->
  (d <= s \/ s + n <= d)%nat -> Z.of_nat n < 2 ^ 31 ->
  rt_memcpy (Z.of_nat d) (Z.of_nat s) (Z.of_nat n) m = Some (tt, splice m d (take n (drop s m))) /\
  rt_memcpy (Z.of_nat d) (Z.of_nat s) (Z.of_nat n) m = memcpy_bytes n (Z.of_nat d) (Z.of_nat s) m /\
  rt_memset (Z.of_nat d) c (Z.of_nat n) m = Some (tt, splice m d (replicate n (Z.land c 0xff))) /\
  rt_memset (Z.of_nat d) c (Z.of_nat n) m = memset_bytes n (Z.of_nat d) (Z.land c 0xff) m.
Proof.
  intros Hm Hd Hs Hup Hn.
  pose proof (rt_memcpy_wp m d s n Hd Hs Hup Hm Hn) as W1.
  pose proof (rt_memset_wp m d c n Hd) as W2.
  pose proof (memcpy_bytes_wp m d s n Hd Hs Hup n 0 (fun _ m' => m' = copied m d s n) ltac:(lia) eq_refl) as W3.
  rewrite copied_0, !Nat.add_0_r in W3.
  pose proof (memset_bytes_wp m d n (Z.land c 0xff) Hd n 0 (fun _ m' => m' = filled m d n (Z.land c 0xff))
    ltac:(lia) eq_refl) as W4. rewrite filled_0, Nat.add_0_r in W4.
  apply wp_Some in W1 as ([] & ? & -> & ->). apply wp_Some in W2 as ([] & ? & -> & ->).
  apply wp_Some in W3 as ([] & ? & -> & ->). apply wp_Some in W4 as ([] & ? & -> & ->). done.
Qed.

(** [rt_memmove] is right for every overlap of the areas. *)
Theorem memmove_any_overlap m (d s n : nat) :
  (d + n <= length m)%nat -> (s + n <= length m)%nat ->
  rt_memmove (Z.of_nat d) (Z.of_nat s) (Z.of_nat n) m = Some (tt, splice m d (take n (drop s m))).
Proof.
  intros Hd Hs. pose proof (rt_memmove_wp m d s n Hd Hs) as W. by apply wp_Some in W as ([] & ? & -> & ->).
Qed.

(** [rt_strstr] returns, changes nothing, and finds the first occurrence:
    the pointer to it, or NULL if there is none. *)
Theorem strstr_first m (a b : nat) hay needle :
  cstring m a hay -> cstring m b needle ->
  exists r, rt_strstr (Z.of_nat a) (Z.of_nat b) m = Some (r, m) /\
    match r with
    | Some p => exists pre post, hay = pre ++ needle ++ post /\ p = Z.of_nat (a + length pre) /\
        forall pre' post', hay = pre' ++ needle ++ post' -> (length pre <= length pre')%nat
    | None => forall pre post, hay <> pre ++ needle ++ post
    end.
Proof.
  intros Ha Hb.
  assert (wp (rt_strstr (Z.of_nat a) (Z.of_nat b)) m (fun r m' => m' = m /\ found_at hay needle a r)) as W.
  { unfold rt_strstr. apply wp_bind. eapply rt_strlen_wp; [exact Hb|]. destruct needle as [|c needle].
    - apply wp_ret. split; [done|]. exists 0%nat. rewrite Nat.add_0_r. split; [done|].
      split_and!; [exists hay; by rewrite take_0|lia|lia].
    - rewrite (proj2 (Z.eqb_neq _ _)) by (simpl; lia). apply wp_bind. eapply rt_strlen_wp; [exact Ha|]. wp_steps.
      apply strstr_loop_wp; [done|done|done|]. unfold string_fuel. apply cstring_length in Ha. lia. }
  apply wp_Some in W as (r & m' & E & -> & Hr). exists r. split; [exact E|].
  destruct r as [p|]; [|exact Hr]. destruct Hr as (i & -> & (post & Hp) & Hi & Hmin).
  exists (take i hay), post. rewrite length_take, Nat.min_l by done. by split_and!.
Qed.

(** [rt_strnlen] reads the character behind the first [maxlen]. *)
Theorem strnlen_reads_behind : rt_strnlen 0 2 [97; 97] = None.
Proof. reflexivity. Qed.

(** ** Concrete runs *)

Definition demo_mem : mem := map Z.of_nat (seq 1 40).

Lemma demo_mem_bytes : Forall byte_ok demo_mem.
Proof. unfold byte_ok. repeat constructor; simpl; lia. Qed.

Lemma fast_paths_exact_witness :
  rt_memcpy 0 20 19 demo_mem = memcpy_bytes 19 0 20 demo_mem.
Proof.
  destruct (fast_paths_exact demo_mem 0 20 19 0 demo_mem_bytes) as (_ & E & _ & _);
    [simpl; lia|simpl; lia|lia|lia|]. exact E.
Defined.

Lemma memmove_any_overlap_witness :
  rt_memmove 3 0 5 [1; 2; 3; 4; 5; 6; 7; 8] = Some (tt, [1; 2; 3; 1; 2; 3; 4; 5]).
Proof. apply (memmove_any_overlap [1; 2; 3; 4; 5; 6; 7; 8] 3 0 5); simpl; lia. Defined.

Lemma strstr_first_witness :
  exists r, rt_strstr 0 5 [97; 98; 97; 98; 0; 98; 0] = Some (r, [97; 98; 97; 98; 0; 98; 0]) /\ r <> None.
Proof.
  destruct (strstr_first [97; 98; 97; 98; 0; 98; 0] 0 5 [97; 98; 97; 98] [98]) as (r & E & Hr).
  - split; [reflexivity|]. repeat constructor; lia.
  - split; [reflexivity|]. repeat constructor; lia.
  - exists r. split; [exact E|]. destruct r; [done|]. exfalso. by apply (Hr [97] [97; 98]).
Defined.

End KMem.
