(* ===== verification/Msh.v ===== *)
(** * The command interpreter of the shell

    Model of [components/finsh/msh.c] in the configuration of src/rtconfig.h
    (no modules, no file system): splitting a command line into arguments, the
    search of the command table, the call, and the completion of command
    names.  The line is one list of bytes and a pointer into it is an index,
    as in file KMem; the table the linker collects is [table], the commands
    themselves are application code: a call is recorded with the strings
    behind its [argv] and returns [run].  The functions [strncmp] and [strlen]
    are those of the C library. *)
From stdpp Require Import base list.
From Stdlib Require Import ZArith Lia.
From Stdlib Require String.
From S2P Require Import Prelude Object KMem Printf.

Module Msh.
Import KMem Printf String.StringSyntax.

Definition RT_ERROR : Z := 1.
Definition FINSH_ARG_MAX : nat := 10.

Record finsh_syscall := mk_syscall { sc_name : list Z; sc_desc : list Z }.

Record msh_st := mk_msh {
  buf : mem;                            (* the line *)
  console : list Z;                     (* what has been printed *)
  calls : list (nat * list (list Z))    (* the commands called, with their arguments *)
}.
Definition set_buf (v : mem) (s : msh_st) : msh_st := mk_msh v (console s) (calls s).
Definition put_text (t : list Z) (s : msh_st) : msh_st := mk_msh (buf s) (console s ++ t) (calls s).
Definition add_call (c : nat * list (list Z)) (s : msh_st) : msh_st := mk_msh (buf s) (console s) (calls s ++ [c]).
Definition in_buf {A} (m : M mem A) : M msh_st A := zoom buf set_buf m.

Definition nl : list Z := [10].

(** What [rt_kprintf] gives to the console device (theorem [kprintf_sends] of
    file Printf). *)
Definition sent (t : list Z) : list Z := if Z.of_nat (length t) <? 255 then t else take 254 t ++ [0].
Definition kprintf (fmt : list Z) (args : list arg) : M msh_st unit :=
  t ← deref (formatted fmt args); modify (put_text (sent t)).

(** The string at an address. *)
Fixpoint str_loop (fuel : nat) (a : Z) : M mem (list Z) :=
  match fuel with
  | O => fault
  | S fuel => c ← load8 a; if c =? 0 then mret [] else s ← str_loop fuel (a + 1); mret (c :: s)
  end.
Definition string_at (a : Z) : M mem (list Z) := m ← gets id; str_loop (string_fuel m) a.

(** A string constant with its NUL. *)
Definition cs (s : list Z) : list Z := s ++ [0].

(** [strncmp] on two arrays; reading past the end of one is a fault. *)
Fixpoint strncmp (n : nat) (x y : list Z) : option Z :=
  match n with
  | O => Some 0
  | S n =>
      match x, y with
      | c :: x, d :: y => if c =? d then (if c =? 0 then Some 0 else strncmp n x y) else Some (c - d)
      | _, _ => None
      end
  end.

Definition space : Z := 32.
Definition quote : Z := 34.
Definition is_blank (c : Z) : bool := (c =? space) || (c =? 9).

Definition backslash : Z := 92.

(** ** msh_split

    [ptr] is [cmd + position] throughout. *)
Section Split.
Context (cmd len : Z).

Fixpoint strip_loop (fuel : nat) (position : Z) : M mem Z :=
  match fuel with
  | O => fault
  | S fuel =>
      c ← load8 (cmd + position);
      if is_blank c && (position <? len) then
        store8 (cmd + position) 0;; strip_loop fuel (position + 1)
      else mret position
  end.

Fixpoint string_loop (fuel : nat) (position : Z) : M mem Z :=
  match fuel with
  | O => fault
  | S fuel =>
      c ← load8 (cmd + position);
      if negb (c =? quote) && (position <? len) then
        position ←
          (if c =? backslash then
             d ← load8 (cmd + position + 1);
             if d =? quote then mret (position + 1) else mret position
           else mret position);
        string_loop fuel (position + 1)
      else mret position
  end.

Fixpoint word_loop (fuel : nat) (position : Z) : M mem Z :=
  match fuel with
  | O => fault
  | S fuel =>
      c ← load8 (cmd + position);
      if negb (is_blank c) && (position <? len) then word_loop fuel (position + 1) else mret position
  end.

Fixpoint print_args (argv : list Z) : M msh_st unit :=
  match argv with
  | [] => mret tt
  | a :: argv => s ← in_buf (string_at a); kprintf (text "%s ") [AStr (Some s)];; print_args argv
  end.

Fixpoint split_loop (fuel : nat) (position : Z) (argv : list Z) : M msh_st (list Z) :=
  match fuel with
  | O => fault
  | S fuel =>
      if position <? len then
        size ← gets (fun s => string_fuel (buf s));
        position ← in_buf (strip_loop size position);
        if (FINSH_ARG_MAX <=? length argv)%nat then
          kprintf (text "Too many args ! We only Use:" ++ nl) [];;
          print_args argv;;
          kprintf nl [];;
          mret argv
        else if len <=? position then mret argv
        else
          c ← in_buf (load8 (cmd + position));
          if c =? quote then
            let position := position + 1 in
            let argv := argv ++ [cmd + position] in
            position ← in_buf (string_loop size position);
            if len <=? position then mret argv
            else in_buf (store8 (cmd + position) 0);; split_loop fuel (position + 1) argv
          else
            let argv := argv ++ [cmd + position] in
            position ← in_buf (word_loop size position);
            if len <=? position then mret argv
            else split_loop fuel position argv
      else mret argv
  end.

(** The result is the part of [argv] that is filled. *)
Definition msh_split : M msh_st (list Z) :=
  size ← gets (fun s => string_fuel (buf s)); split_loop size 0 [].

End Split.

(** ** Commands *)

Section Commands.
Context (table : list finsh_syscall) (run : nat -> list (list Z) -> Z).

Definition cmd_prefix : list Z := text "__cmd_".

(** [strncmp(index->name, "__cmd_", 6) != 0] *)
Definition not_command (e : finsh_syscall) : option bool :=
  r ← strncmp 6 (cs (sc_name e)) (cs cmd_prefix); Some (negb (r =? 0)).

Fixpoint help_loop (tab : list finsh_syscall) : M msh_st unit :=
  match tab with
  | [] => mret tt
  | e :: tab =>
      skip ← deref (not_command e);
      (if skip : bool then mret tt
       else kprintf (text "%-16s - %s" ++ nl) [AStr (Some (drop 6 (sc_name e))); AStr (Some (sc_desc e))]);;
      help_loop tab
  end.

Definition msh_help : M msh_st unit :=
  kprintf (text "RT-Thread shell commands:" ++ nl) [];;
  help_loop table;;
  kprintf nl [].

Fixpoint get_cmd_loop (tab : list finsh_syscall) (i : nat) (cmd : Z) (size : nat) : M mem (option nat) :=
  match tab with
  | [] => mret None
  | e :: tab =>
      skip ← deref (not_command e);
      if skip : bool then get_cmd_loop tab (S i) cmd size
      else
        m ← gets id;
        r ← deref (strncmp size (drop 6 (cs (sc_name e))) (drop (Z.to_nat cmd) m));
        same ← (if r =? 0 then c ← deref (rd (cs (sc_name e)) (6 + Z.of_nat size)); mret (c =? 0) else mret false);
        if same : bool then mret (Some i) else get_cmd_loop tab (S i) cmd size
  end.

Definition msh_get_cmd (cmd : Z) (size : nat) : M mem (option nat) := get_cmd_loop table 0 cmd size.

Fixpoint strings_at (argv : list Z) : M mem (list (list Z)) :=
  match argv with
  | [] => mret []
  | a :: argv => s ← string_at a; l ← strings_at argv; mret (s :: l)
  end.

(** [None] is [-RT_ERROR]; [Some r] is 0 with [*retp = r]. *)
Definition _msh_exec_cmd (cmd len : Z) : M msh_st (option Z) :=
  size ← gets (fun s => string_fuel (buf s));
  cmd0_size ← in_buf (word_loop cmd len size 0);
  if cmd0_size =? 0 then mret None
  else
    cmd_func ← in_buf (msh_get_cmd cmd (Z.to_nat cmd0_size));
    match cmd_func with
    | None => mret None
    | Some i =>
        argv ← msh_split cmd len;
        if (length argv =? 0)%nat then mret None
        else
          args ← in_buf (strings_at argv);
          modify (add_call (i, args));;
          mret (Some (run i args))
    end.

Fixpoint skip_blanks (fuel : nat) (cmd len : Z) : M mem (Z * Z) :=
  match fuel with
  | O => fault
  | S fuel =>
      c ← load8 cmd;
      if is_blank c then skip_blanks fuel (cmd + 1) (u32 (len - 1)) else mret (cmd, len)
  end.

Fixpoint first_space (fuel : nat) (tcmd : Z) : M mem Z :=
  match fuel with
  | O => fault
  | S fuel =>
      c ← load8 tcmd;
      if negb (c =? space) && negb (c =? 0) then first_space fuel (tcmd + 1) else mret tcmd
  end.

Definition msh_exec (cmd len : Z) : M msh_st Z :=
  size ← gets (fun s => string_fuel (buf s));
  '(cmd, len) ← in_buf (skip_blanks size cmd len);
  if len =? 0 then mret 0
  else
    r ← _msh_exec_cmd cmd len;
    match r with
    | Some r => mret r
    | None =>
        tcmd ← in_buf (first_space size cmd);
        in_buf (store8 tcmd 0);;
        s ← in_buf (string_at cmd);
        kprintf (text "%s: command not found." ++ nl) [AStr (Some s)];;
        mret (-1)
    end.

(** ** Completion *)

Fixpoint str_common (str str2 : list Z) : nat :=
  match str, str2 with
  | c :: str, d :: str2 => if c =? d then S (str_common str str2) else O
  | _, _ => O
  end.

Fixpoint complete_loop (tab : list finsh_syscall) (prefix : list Z) (min_length : nat) (name_ptr : option (list Z))
    : M msh_st (nat * option (list Z)) :=
  match tab with
  | [] => mret (min_length, name_ptr)
  | e :: tab =>
      skip ← deref (not_command e);
      if skip : bool then complete_loop tab prefix min_length name_ptr
      else
        let cmd_name := drop 6 (sc_name e) in
        r ← deref (strncmp (length prefix) (cs prefix) (cs cmd_name));
        if r =? 0 then
          let '(min_length, name_ptr) :=
            if (min_length =? 0)%nat then (length cmd_name, Some cmd_name) else (min_length, name_ptr) in
          name ← deref name_ptr;
          let common := str_common name cmd_name in
          kprintf (text "%s" ++ nl) [AStr (Some cmd_name)];;
          complete_loop tab prefix (if (common <? min_length)%nat then common else min_length) name_ptr
        else complete_loop tab prefix min_length name_ptr
  end.

(** Nothing in the loop changes the line, which is read once. *)
Definition msh_auto_complete (prefix : Z) : M msh_st unit :=
  c ← in_buf (load8 prefix);
  if c =? 0 then msh_help
  else
    s ← in_buf (string_at prefix);
    '(min_length, name_ptr) ← complete_loop table s 0 None;
    match name_ptr with
    | None => mret tt
    | Some name =>
        bytes ← deref (Obj.rt_strncpy (cs name) min_length);
        m ← gets buf;
        m' ← deref (buf_write m prefix bytes);
        modify (set_buf m')
    end.

End Commands.

(** ** The texts that are printed *)

Lemma format_nil fuel args (out : list Z) : format_loop fuel [] args out = Some (tt, out).
Proof. by destruct fuel. Qed.

Lemma format_char fuel c rest args (out : list Z) :
  c <> 37 -> format_loop (S fuel) (c :: rest) args out = format_loop fuel rest args (out ++ [c]).
Proof. intros Hc. cbn [format_loop]. match goal with |- context [negb (c =? ?x)] => change x with 37 end. by rewrite (proj2 (Z.eqb_neq c 37) Hc). Qed.

Lemma says_print_string s w flags :
  says (print_string (Some s) w (-1) flags) tt
    (let pad := replicate (Z.to_nat (w - Z.of_nat (length s))) 32 in
     if has flags LEFT then s ++ pad else pad ++ s).
Proof.
  unfold print_string. change (0 <? -1) with false. cbn [andb]. cbn iota zeta. rewrite Nat2Z.id, take_ge by lia.
  destruct (has flags LEFT); cbn [negb]; cbn iota.
  - eapply says_eq; [eapply says_bind; [apply says_ret|]; eapply says_bind; [apply says_all|apply says_times]|done].
  - eapply says_eq; [eapply says_bind; [eapply says_bind; [apply says_times|apply says_ret]|];
      eapply says_bind; [apply says_all|apply says_times]|].
    match goal with |- context [if ?b then ?x else ?y] => rewrite (replicate_none ((if b then x else y) - Z.of_nat (length s))) by (bool_cases; lia) end. by rewrite !app_nil_r.
Qed.

Lemma format_string fuel s rest args (out : list Z) :
  format_loop (S fuel) (37 :: 115 :: rest) (AStr (Some s) :: args) out = format_loop fuel rest args (out ++ s).
Proof.
  cbn [format_loop]. match goal with |- context [negb ?b] => change (negb b) with false end. cbn iota.
  change (directive (115 :: rest) (AStr (Some s) :: args)) with
    (print_string (Some s) (-1) (-1) 0;; mret (rest, args) : M (list Z) _).
  unfold mbind, M_bind. rewrite says_print_string. change (has 0 LEFT) with false. cbn iota zeta.
  by rewrite replicate_none by lia.
Qed.

Lemma format_left fuel s rest args (out : list Z) :
  format_loop (S fuel) (37 :: 45 :: 49 :: 54 :: 115 :: rest) (AStr (Some s) :: args) out =
  format_loop fuel rest args (out ++ s ++ replicate (16 - length s) 32).
Proof.
  cbn [format_loop]. match goal with |- context [negb ?b] => change (negb b) with false end. cbn iota.
  change (directive (45 :: 49 :: 54 :: 115 :: rest) (AStr (Some s) :: args)) with
    (print_string (Some s) 16 (-1) LEFT;; mret (rest, args) : M (list Z) _).
  unfold mbind, M_bind. rewrite says_print_string. change (has LEFT LEFT) with true. cbn iota zeta.
  by replace (Z.to_nat (16 - Z.of_nat (length s))) with (16 - length s)%nat by lia.
Qed.

Lemma format_plain fuel l rest args (out : list Z) :
  Forall (fun c => c <> 37) l -> format_loop (length l + fuel) (l ++ rest) args out = format_loop fuel rest args (out ++ l).
Proof.
  intros H. revert out. induction H as [|c l Hc Hl IH]; intros out; [by rewrite app_nil_r|].
  change (format_loop (length (c :: l) + fuel) ((c :: l) ++ rest) args out) with
    (format_loop (S (length l + fuel)) (c :: l ++ rest) args out).
  rewrite format_char by done. rewrite IH. by rewrite <- app_assoc.
Qed.

Lemma formatted_1 l s l2 :
  Forall (fun c => c <> 37) l -> Forall (fun c => c <> 37) l2 ->
  formatted (l ++ [37; 115] ++ l2) [AStr (Some s)] = Some (l ++ s ++ l2).
Proof.
  intros H1 H2. unfold formatted. rewrite !length_app. change (length [37; 115]) with 2%nat.
  replace (length l + (2 + length l2))%nat with (length l + S (length l2 + 1))%nat by lia.
  rewrite format_plain by done. change ([37; 115] ++ l2) with (37 :: 115 :: l2). rewrite format_string.
  rewrite <- (app_nil_r l2) at 2. rewrite format_plain by done. rewrite format_nil. by rewrite app_nil_l, <- app_assoc.
Qed.

Lemma formatted_0 l : Forall (fun c => c <> 37) l -> formatted l [] = Some l.
Proof.
  intros H. unfold formatted. rewrite <- (Nat.add_0_r (length l)). rewrite <- (app_nil_r l) at 2.
  rewrite format_plain by done. by rewrite format_nil.
Qed.

Lemma wp_kprintf fmt args t s (Q : unit -> msh_st -> Prop) :
  formatted fmt args = Some t -> Q tt (put_text (sent t) s) -> wp (kprintf fmt args) s Q.
Proof. intros H HQ. unfold kprintf. wp_step. eapply wp_deref; [exact H|]. by wp_steps. Qed.

(** A text with one string in it, and a text without. *)
Lemma wp_kprintf_1 fmt l s l2 st (Q : unit -> msh_st -> Prop) :
  fmt = l ++ [37; 115] ++ l2 -> Forall (fun c => c <> 37) l -> Forall (fun c => c <> 37) l2 ->
  Q tt (put_text (sent (l ++ s ++ l2)) st) -> wp (kprintf fmt [AStr (Some s)]) st Q.
Proof. intros -> H1 H2 HQ. eapply wp_kprintf; [by apply formatted_1|done]. Qed.

Lemma wp_kprintf_0 l st (Q : unit -> msh_st -> Prop) :
  Forall (fun c => c <> 37) l -> Q tt (put_text (sent l) st) -> wp (kprintf l []) st Q.
Proof. intros H HQ. eapply wp_kprintf; [by apply formatted_0|done]. Qed.

(** ** Arguments: the reference *)

Fixpoint strip (t : list Z) : list Z :=
  match t with c :: r => if is_blank c then strip r else t | [] => [] end.

(** A word and what follows it. *)
Fixpoint word (t : list Z) : list Z * list Z :=
  match t with
  | [] => ([], [])
  | c :: r => if is_blank c then ([], t) else let '(w, r) := word r in (c :: w, r)
  end.

(** The text up to the closing quote and what follows the quote; a quote
    behind a backslash does not close and both stay in the text. *)
Fixpoint quoted (t : list Z) : list Z * list Z :=
  match t with
  | [] => ([], [])
  | c :: r =>
      if c =? quote then ([], r)
      else if c =? backslash then
        match r with
        | d :: r' =>
            if d =? quote then let '(w, x) := quoted r' in (c :: d :: w, x)
            else let '(w, x) := quoted r in (c :: w, x)
        | [] => ([c], [])
        end
      else let '(w, x) := quoted r in (c :: w, x)
  end.

(** At most [n] arguments, and what is left of the text behind them. *)
Fixpoint tokens (n : nat) (t : list Z) : list (list Z) * list Z :=
  match n with
  | O => ([], t)
  | S n =>
      match strip t with
      | [] => ([], [])
      | c :: r =>
          let '(w, r) := if c =? quote then quoted r else word (c :: r) in
          let '(ws, l) := tokens n r in (w :: ws, l)
      end
  end.

Notation nozero := (Forall (fun c => c <> 0)).

Lemma strip_nozero t : nozero t -> nozero (strip t).
Proof. induction 1 as [|c t Hc Ht IH]; simpl; [done|]. destruct (is_blank c); [done|by constructor]. Qed.
Lemma strip_length t : (length (strip t) <= length t)%nat.
Proof. induction t as [|c t IH]; simpl; [done|]. destruct (is_blank c); simpl; lia. Qed.

Lemma word_app t : t = fst (word t) ++ snd (word t).
Proof.
  induction t as [|c t IH]; simpl; [done|]. destruct (is_blank c); [done|].
  destruct (word t) as [w r]. simpl in *. by rewrite IH at 1.
Qed.
Lemma word_rest t b r : snd (word t) = b :: r -> is_blank b = true.
Proof.
  induction t as [|c t IH]; simpl; [done|]. destruct (is_blank c) eqn:E; [by intros [= <- <-]|].
  destruct (word t) as [w x]. simpl in *. exact IH.
Qed.

(** The text is closed by a quote, or ends. *)
Lemma quoted_app n t : (length t <= n)%nat ->
  (exists r, t = fst (quoted t) ++ quote :: r /\ snd (quoted t) = r) \/ (t = fst (quoted t) /\ snd (quoted t) = []).
Proof.
  revert t. induction n as [|n IH]; intros [|c t] Hn; simpl in *; try lia; [by right|by right|].
  destruct (Z.eqb_spec c quote) as [->|Hc]; [left; by exists t|].
  destruct (c =? backslash).
  - destruct t as [|d t]; [by right|]. destruct (Z.eqb_spec d quote) as [->|Hd].
    + destruct (IH t ltac:(simpl in *; lia)) as [(r & E & Er)|[E Er]]; destruct (quoted t) as [w x]; simpl in *.
      * left. exists r. split; [by rewrite E at 1|done].
      * right. split; [by rewrite E at 1|done].
    + destruct (IH (d :: t) ltac:(simpl in *; lia)) as [(r & E & Er)|[E Er]]; destruct (quoted (d :: t)) as [w x]; simpl in E, Er |- *.
      * left. exists r. split; [by rewrite E at 1|done].
      * right. split; [by rewrite E at 1|done].
  - destruct (IH t ltac:(lia)) as [(r & E & Er)|[E Er]]; destruct (quoted t) as [w x]; simpl in *.
    + left. exists r. split; [by rewrite E at 1|done].
    + right. split; [by rewrite E at 1|done].
Qed.

(** ** What the loops do *)

(** Nothing below [lo] has changed. *)
Definition above (lo : nat) (m m' : mem) : Prop := length m' = length m /\ take lo m' = take lo m.

Lemma above_refl lo m : above lo m m.
Proof. done. Qed.
Lemma above_trans lo lo' m m' m'' : above lo m m' -> above lo' m' m'' -> (lo <= lo')%nat -> above lo m m''.
Proof.
  intros [L1 T1] [L2 T2] Hl. split; [congruence|]. rewrite <- T1.
  apply (f_equal (take lo)) in T2. by rewrite !take_take, Nat.min_l in T2 by lia.
Qed.
Lemma above_insert lo a x m : (lo <= a)%nat -> above lo m (<[a := x]> m).
Proof. intros H. split; [apply length_insert|]. by apply take_insert_ge. Qed.

Lemma at_above lo m m' a l : above lo m m' -> (a + length l <= lo)%nat -> at_ m a l -> at_ m' a l.
Proof.
  intros [_ T] Hl H. unfold at_ in *. rewrite <- H at 2. rewrite !take_drop_commute.
  apply (f_equal (take (a + length l))) in T. rewrite !take_take, !Nat.min_l in T by lia. by rewrite T.
Qed.
Lemma cstring_above lo m m' a s : above lo m m' -> (a + length s < lo)%nat -> cstring m a s -> cstring m' a s.
Proof.
  intros Hab Hl [H1 H2]. split; [|done]. eapply at_above; [exact Hab| |exact H1]. rewrite length_app. simpl. lia.
Qed.
Lemma at_insert m a x b l : (b < a)%nat -> at_ m a l -> at_ (<[b := x]> m) a l.
Proof. intros Hb H. unfold at_ in *. by rewrite drop_insert_lt by lia. Qed.

Lemma wp_store_at a x m (Q : unit -> mem -> Prop) :
  (a < length m)%nat -> Q tt (<[a := x]> m) -> wp (store8 (Z.of_nat a) x) m Q.
Proof. intros Ha HQ. eapply wp_store8; [lia|]. by rewrite Nat2Z.id. Qed.

Section Loops.
Context (cmd : nat).

(** [rest] with its NUL is at position [p], which leaves [length rest]
    characters of the line. *)
Definition left_at (m : mem) (p : nat) (rest : list Z) (len : Z) : Prop :=
  at_ m (cmd + p) (rest ++ [0]) /\ nozero rest /\ len = Z.of_nat (p + length rest).

Lemma left_cons m p c r len : left_at m p (c :: r) len -> m !! (cmd + p)%nat = Some c /\ left_at m (S p) r len /\ c <> 0.
Proof.
  intros (H1 & [Hc Hr]%Forall_cons & ->). simpl in H1. apply at_cons in H1 as [Hx H1]. split; [done|].
  split; [|done]. split; [by rewrite Nat.add_succ_r|]. split; [done|]. simpl. lia.
Qed.
Lemma left_nil m p len : left_at m p [] len -> m !! (cmd + p)%nat = Some 0 /\ len = Z.of_nat p.
Proof. intros (H & _ & ->). apply at_cons in H as [H _]. split; [done|]. simpl. lia. Qed.
Lemma left_size m p rest len : left_at m p rest len -> (cmd + p + length rest < length m)%nat.
Proof. intros (H & _ & _). apply at_length in H; [|by destruct rest]. rewrite length_app in H. simpl in H. lia. Qed.

Lemma wp_load_pos p x m (Q : Z -> mem -> Prop) :
  m !! (cmd + p)%nat = Some x -> Q x m -> wp (load8 (Z.of_nat cmd + Z.of_nat p)) m Q.
Proof. intros H HQ. rewrite <- Nat2Z.inj_add. by eapply wp_load_at. Qed.

Lemma strip_wp fuel m p rest len (Q : Z -> mem -> Prop) :
  left_at m p rest len -> (length rest < fuel)%nat ->
  (forall m' p', above (cmd + p) m m' -> left_at m' p' (strip rest) len ->
     (p' = p /\ m' = m /\ strip rest = rest \/ (p < p')%nat /\ m' !! (cmd + p)%nat = Some 0) -> Q (Z.of_nat p') m') ->
  wp (strip_loop (Z.of_nat cmd) len fuel (Z.of_nat p)) m Q.
Proof.
  revert fuel m p Q. induction rest as [|c r IH]; intros [|fuel] m p Q Hl Hf HQ; simpl in Hf; try lia; cbn [strip_loop].
  - destruct (left_nil _ _ _ Hl) as [H0 ->]. wp_step. apply (wp_load_pos p 0); [done|].
    change (is_blank 0) with false. simpl. wp_step. apply HQ; [done|done|by left].
  - destruct (left_cons _ _ _ _ _ Hl) as (Hc & Hr & _). wp_step. apply (wp_load_pos p c); [done|].
    pose proof (left_size _ _ _ _ Hl) as Hsz. simpl in Hsz.
    rewrite (proj2 (Z.ltb_lt _ _)) by (destruct Hl as (_ & _ & ->); simpl; lia). rewrite andb_true_r.
    simpl in HQ. destruct (is_blank c); [|wp_step; apply HQ; [done|done|by left]].
    wp_step. rewrite <- Nat2Z.inj_add. apply wp_store_at; [lia|].
    replace (Z.of_nat p + 1) with (Z.of_nat (S p)) by lia. apply IH; [|lia|].
    + destruct Hr as (H1 & H2 & H3). split; [|done]. apply at_insert; [lia|done].
    + intros m' p' Ha Hl' Hp. apply HQ; [|done|].
      * eapply above_trans; [by apply above_insert|exact Ha|lia].
      * assert (m' !! (cmd + p)%nat = Some 0) as H0.
        { destruct Ha as [_ Ha]. apply (f_equal (lookup (cmd + p)%nat)) in Ha.
          rewrite !lookup_take_decide, !decide_True in Ha by lia. rewrite Ha. by apply list_lookup_insert_eq; lia. }
        right. split; [|done]. destruct Hp as [(-> & _)|[? _]]; lia.
Qed.

Lemma word_wp fuel m p rest len (Q : Z -> mem -> Prop) :
  left_at m p rest len -> (length rest < fuel)%nat ->
  Q (Z.of_nat (p + length (fst (word rest)))) m ->
  wp (word_loop (Z.of_nat cmd) len fuel (Z.of_nat p)) m Q.
Proof.
  revert fuel p Q. induction rest as [|c r IH]; intros [|fuel] p Q Hl Hf HQ; simpl in Hf; try lia; cbn [word_loop].
  - destruct (left_nil _ _ _ Hl) as [H0 ->]. wp_step. apply (wp_load_pos p 0); [done|].
    rewrite Z.ltb_irrefl, andb_false_r. wp_step. by rewrite Nat.add_0_r in HQ.
  - destruct (left_cons _ _ _ _ _ Hl) as (Hc & Hr & _). wp_step. apply (wp_load_pos p c); [done|].
    rewrite (proj2 (Z.ltb_lt _ _)) by (destruct Hl as (_ & _ & ->); simpl; lia). rewrite andb_true_r.
    simpl in HQ. destruct (is_blank c); simpl; [wp_step; by rewrite Nat.add_0_r in HQ|].
    replace (Z.of_nat p + 1) with (Z.of_nat (S p)) by lia. apply IH; [done|lia|].
    destruct (word r) as [w x]. simpl in *. by rewrite Nat.add_succ_r in HQ.
Qed.

Lemma string_wp fuel m p rest len (Q : Z -> mem -> Prop) :
  left_at m p rest len -> (length rest < fuel)%nat ->
  Q (Z.of_nat (p + length (fst (quoted rest)))) m ->
  wp (string_loop (Z.of_nat cmd) len fuel (Z.of_nat p)) m Q.
Proof.
  revert p rest Q. induction fuel as [|fuel IH]; intros p [|c r] Q Hl Hf HQ; simpl in Hf; try lia; cbn [string_loop].
  - destruct (left_nil _ _ _ Hl) as [H0 ->]. wp_step. apply (wp_load_pos p 0); [done|].
    rewrite Z.ltb_irrefl, andb_false_r. wp_step. by rewrite Nat.add_0_r in HQ.
  - destruct (left_cons _ _ _ _ _ Hl) as (Hc & Hr & _). wp_step. apply (wp_load_pos p c); [done|].
    rewrite (proj2 (Z.ltb_lt _ _)) by (destruct Hl as (_ & _ & ->); simpl; lia). rewrite andb_true_r.
    simpl in HQ. destruct (c =? quote); simpl; [wp_step; by rewrite Nat.add_0_r in HQ|].
    assert (forall q, Z.of_nat q + 1 = Z.of_nat (S q)) as E by lia.
    destruct (c =? backslash).
    + wp_step. wp_step. rewrite <- Z.add_assoc, E. destruct r as [|d r].
      * destruct (left_nil _ _ _ Hr) as [H0 _]. apply (wp_load_pos (S p) 0); [done|].
        change (0 =? quote) with false. cbn iota. wp_step. rewrite E. apply (IH (S p) []); [done|simpl; lia|].
        simpl in *. by replace (S (p + 0)) with (p + 1)%nat by lia.
      * destruct (left_cons _ _ _ _ _ Hr) as (Hd & Hr' & _). apply (wp_load_pos (S p) d); [done|].
        destruct (d =? quote) eqn:Ed; wp_step; rewrite !E;
          [apply (IH (S (S p)) r)|apply (IH (S p) (d :: r))]; try done; try (simpl in *; lia).
        -- destruct (quoted r) as [w x]. simpl in *. by replace (S (S (p + length w))) with (p + S (S (length w)))%nat by lia.
        -- destruct (quoted (d :: r)) as [w x]. simpl in HQ |- *. by replace (S (p + length w)) with (p + S (length w))%nat by lia.
    + wp_step. wp_step. rewrite E. apply (IH (S p) r); [done|lia|]. destruct (quoted r) as [w x]. simpl in *. by rewrite Nat.add_succ_r in HQ.
Qed.
End Loops.

(** ** msh_split *)

Lemma str_loop_wp fuel m a s (Q : list Z -> mem -> Prop) :
  cstring m a s -> (length s < fuel)%nat -> Q s m -> wp (str_loop fuel (Z.of_nat a)) m Q.
Proof.
  revert a fuel Q. induction s as [|c s IH]; intros a [|fuel] Q Hs Hf HQ; simpl in Hf; try lia; cbn [str_loop].
  - apply cstring_nil in Hs. wp_step. apply (wp_load_at _ 0); [done|]. change (0 =? 0) with true. by wp_steps.
  - apply cstring_cons in Hs as (Hc & Hne & Hs). wp_step. apply (wp_load_at _ c); [done|].
    rewrite (proj2 (Z.eqb_neq _ _)) by done. wp_step. replace (Z.of_nat a + 1) with (Z.of_nat (S a)) by lia.
    apply IH; [done|lia|]. by wp_steps.
Qed.

Lemma string_at_wp m a s (Q : list Z -> mem -> Prop) :
  cstring m a s -> Q s m -> wp (string_at (Z.of_nat a)) m Q.
Proof.
  intros Hs HQ. unfold string_at. wp_steps. apply (str_loop_wp _ _ _ s); [done| |done].
  apply cstring_length in Hs. unfold string_fuel, id. lia.
Qed.

Lemma wp_in_buf {A} (m : M mem A) s (Q : A -> msh_st -> Prop) :
  wp m (buf s) (fun a b => Q a (set_buf b s)) -> wp (in_buf m) s Q.
Proof. apply wp_zoom. Qed.
Lemma set_buf_id s : set_buf (buf s) s = s.
Proof. by destruct s. Qed.

(** The pointers [argv] point at the strings [ws], all below [lo]. *)
Definition closed (m : mem) (lo : nat) (argv : list Z) (ws : list (list Z)) : Prop :=
  Forall2 (fun a w => exists n, a = Z.of_nat n /\ cstring m n w /\ (n + length w < lo)%nat) argv ws.

Lemma closed_above m m' lo lo' argv ws : closed m lo argv ws -> above lo m m' -> (lo <= lo')%nat -> closed m' lo' argv ws.
Proof.
  intros H Ha Hl. eapply Forall2_impl; [exact H|]. intros a w (n & -> & Hs & Hn). exists n.
  split; [done|]. split; [by eapply cstring_above|lia].
Qed.

Lemma closed_snoc m lo argv ws n w :
  closed m lo argv ws -> cstring m n w -> (n + length w < lo)%nat -> closed m lo (argv ++ [Z.of_nat n]) (ws ++ [w]).
Proof. intros H Hs Hn. apply Forall2_app; [done|]. constructor; [by exists n|constructor]. Qed.

Lemma closed_length m lo argv ws : closed m lo argv ws -> length argv = length ws.
Proof. apply Forall2_length. Qed.

Lemma strings_at_wp m lo argv ws (Q : list (list Z) -> mem -> Prop) :
  closed m lo argv ws -> Q ws m -> wp (strings_at argv) m Q.
Proof.
  intros H. revert Q. induction H as [|a w argv ws (n & -> & Hs & _) _ IH]; intros Q HQ; simpl; [by wp_steps|].
  wp_step. eapply string_at_wp; [exact Hs|]. wp_step. apply IH. by wp_steps.
Qed.

Definition args_text (ws : list (list Z)) : list Z := concat ((fun w => sent (w ++ [32])) <$> ws).

Ltac plain := apply (bool_decide_unpack _); vm_compute; exact I.

Lemma put_text_app t t' s : put_text t' (put_text t s) = put_text (t ++ t') s.
Proof. unfold put_text. simpl. by rewrite app_assoc. Qed.

Lemma print_args_wp lo argv ws s (Q : unit -> msh_st -> Prop) :
  closed (buf s) lo argv ws -> Q tt (put_text (args_text ws) s) -> wp (print_args argv) s Q.
Proof.
  intros H. revert s H Q. revert ws. induction argv as [|a argv IH]; intros ws s H Q HQ; simpl.
  - apply Forall2_nil_inv_l in H as ->. wp_step. unfold args_text, put_text in HQ. simpl in HQ.
    rewrite app_nil_r in HQ. by destruct s.
  - apply Forall2_cons_inv_l in H as (w & ws' & (n & -> & Hs & _) & H & ->). wp_step. apply wp_in_buf.
    eapply string_at_wp; [exact Hs|]. rewrite set_buf_id. wp_step.
    eapply (wp_kprintf_1 _ [] w [32]); [reflexivity|constructor|plain|]. apply (IH ws'); [exact H|].
    rewrite put_text_app. exact HQ.
Qed.

Definition too_many (l : list Z) (ws : list (list Z)) : list Z :=
  match l with
  | [] => []
  | _ => sent (text "Too many args ! We only Use:" ++ nl) ++ args_text ws ++ sent nl
  end.

(** The last argument may still lack its NUL: then a blank follows. *)
Definition ended (m : mem) (e : nat) (rest : list Z) (argv : list Z) (ws : list (list Z)) : Prop :=
  closed m e argv ws \/
  exists argv0 ws0 n w b r, argv = argv0 ++ [Z.of_nat n] /\ ws = ws0 ++ [w] /\ closed m e argv0 ws0 /\
    at_ m n w /\ nozero w /\ (n + length w = e)%nat /\ rest = b :: r /\ is_blank b = true.

Lemma ended_strip cmd m m' p p' rest argv ws :
  ended m (cmd + p) rest argv ws -> above (cmd + p) m m' ->
  (p' = p /\ m' = m /\ strip rest = rest \/ (p < p')%nat /\ m' !! (cmd + p)%nat = Some 0) ->
  closed m' (cmd + p') argv ws.
Proof.
  intros [H|(argv0 & ws0 & n & w & b & r & -> & -> & H & Hw & Hnz & E & -> & Hb)] Ha Hp.
  - destruct Hp as [(-> & -> & _)|[Hlt _]]; [done|]. eapply closed_above; [exact H|exact Ha|lia].
  - destruct Hp as [(_ & _ & Es)|[Hlt H0]].
    { simpl in Es. rewrite Hb in Es. pose proof (strip_length r) as Hl. rewrite Es in Hl. simpl in Hl. lia. }
    apply closed_snoc; [eapply closed_above; [exact H|exact Ha|lia]| |lia].
    split; [|done]. apply at_app. split; [eapply at_above; [exact Ha|lia|exact Hw]|].
    rewrite E. apply at_cons. split; [done|]. unfold at_. simpl. by rewrite take_0.
Qed.

Lemma left_split cmd m p w r len :
  left_at cmd m p (w ++ r) len -> at_ m (cmd + p) w /\ nozero w /\ left_at cmd m (p + length w) r len.
Proof.
  intros (H1 & [H2 H3]%Forall_app & ->). rewrite <- app_assoc in H1. apply at_app in H1 as [H1 H1'].
  split; [done|]. split; [done|]. split; [by rewrite Nat.add_assoc|]. split; [done|]. rewrite length_app. lia.
Qed.

Lemma left_cstring cmd m p w len : left_at cmd m p w len -> cstring m (cmd + p) w.
Proof. intros (H1 & H2 & _). done. Qed.

Definition split_post (cmd : nat) (len : Z) (s : msh_st) (ws : list (list Z)) (l : list Z) (argv : list Z) (s' : msh_st) : Prop :=
  exists m', s' = mk_msh m' (console s ++ too_many l ws) (calls s) /\ above cmd (buf s) m' /\
    closed m' (S (cmd + Z.to_nat len)) argv ws.

Lemma split_post_trans cmd m' len s ws l argv s' :
  above cmd (buf s) m' -> split_post cmd len (set_buf m' s) ws l argv s' -> split_post cmd len s ws l argv s'.
Proof.
  intros Ha (m2 & -> & Ha2 & H). exists m2. split; [done|]. split; [|done]. eapply above_trans; [exact Ha|exact Ha2|lia].
Qed.

(** What the loop does with [fuel] rounds. *)
Definition split_ok (fuel cmd : nat) (len : Z) : Prop := forall s p rest argv ws,
  left_at cmd (buf s) p rest len -> ended (buf s) (cmd + p) rest argv ws ->
  (length rest < fuel)%nat -> (length argv <= FINSH_ARG_MAX)%nat ->
  wp (split_loop (Z.of_nat cmd) len fuel (Z.of_nat p) argv) s
    (split_post cmd len s (ws ++ fst (tokens (FINSH_ARG_MAX - length argv) rest))
       (snd (tokens (FINSH_ARG_MAX - length argv) rest))).

(** After one more argument [w]. *)
Lemma split_next fuel cmd len n s m p rest argv ws a w :
  split_ok fuel cmd len -> above cmd (buf s) m -> (FINSH_ARG_MAX - length argv)%nat = S n ->
  left_at cmd m p rest len -> ended m (cmd + p) rest (argv ++ [a]) (ws ++ [w]) -> (length rest < fuel)%nat ->
  wp (split_loop (Z.of_nat cmd) len fuel (Z.of_nat p) (argv ++ [a])) (set_buf m s)
    (split_post cmd len s (ws ++ w :: fst (tokens n rest)) (snd (tokens n rest))).
Proof.
  intros IH Ha Hn Hl He Hf. eapply wp_mono; [apply (IH (set_buf m s) p rest (argv ++ [a]) (ws ++ [w])); try done|].
  - rewrite length_app. simpl. lia.
  - rewrite length_app. simpl. replace (FINSH_ARG_MAX - (length argv + 1))%nat with n by lia.
    intros r s' H. rewrite <- app_assoc in H. by eapply split_post_trans.
Qed.

(** The line ends with the argument [w]. *)
Lemma split_last cmd len n s m p argv ws w :
  above cmd (buf s) m -> closed m (cmd + p) argv ws -> left_at cmd m p w len ->
  split_post cmd len s (ws ++ w :: fst (tokens n [])) (snd (tokens n [])) (argv ++ [Z.of_nat (cmd + p)]) (set_buf m s).
Proof.
  intros Ha Hc Hl. assert (tokens n [] = ([], [])) as -> by (by destruct n).
  exists m. simpl. rewrite app_nil_r. split; [done|]. split; [done|].
  pose proof (left_cstring _ _ _ _ _ Hl) as Hs. destruct Hl as (_ & _ & ->).
  apply closed_snoc; [eapply closed_above; [exact Hc|done|lia]|done|lia].
Qed.

Lemma split_quoted_wp fuel cmd len n s m p r argv ws size :
  split_ok fuel cmd len -> above cmd (buf s) m -> (FINSH_ARG_MAX - length argv)%nat = S n ->
  left_at cmd m p r len -> closed m (cmd + p) argv ws -> (length r < size)%nat -> (length r <= fuel)%nat ->
  wp (position ← in_buf (string_loop (Z.of_nat cmd) len size (Z.of_nat p));
      if len <=? position then mret (argv ++ [Z.of_nat (cmd + p)])
      else in_buf (store8 (Z.of_nat cmd + position) 0);;
           split_loop (Z.of_nat cmd) len fuel (position + 1) (argv ++ [Z.of_nat (cmd + p)])) (set_buf m s)
    (split_post cmd len s (ws ++ fst (quoted r) :: fst (tokens n (snd (quoted r)))) (snd (tokens n (snd (quoted r))))).
Proof.
  intros IH Ha Hn Hr Hc Hsize Hf. wp_step. apply wp_in_buf. eapply string_wp; [exact Hr|exact Hsize|].
  destruct (quoted_app (length r) r (le_n _)) as [(x & Ex & Ey)|[Ex Ey]]; rewrite Ey.
  - rewrite Ex in Hr. set (w := fst (quoted r)) in *.
    pose proof (left_split _ _ _ _ _ _ Hr) as (Hw & Hwz & Hr2).
    destruct (left_cons _ _ _ _ _ _ Hr2) as (_ & Hr3 & _). pose proof (left_size _ _ _ _ _ Hr2) as Hsz.
    rewrite (proj2 (Z.leb_gt _ _)) by (destruct Hr2 as (_ & _ & ->); simpl; lia).
    wp_step. apply wp_in_buf. cbn [buf set_buf]. rewrite <- Nat2Z.inj_add. apply wp_store_at; [lia|].
    replace (Z.of_nat (p + length w) + 1) with (Z.of_nat (S (p + length w))) by lia.
    set (e := (cmd + (p + length w))%nat). apply (split_next fuel cmd len n s (<[e := 0]> m)); [done| |done| | |].
    + eapply above_trans; [exact Ha|apply (above_insert cmd); lia|lia].
    + destruct Hr3 as (H1 & H2 & H3). split; [|done]. apply at_insert; [lia|done].
    + left. apply closed_snoc; [|split|lia]; [|apply at_app; split|done].
      * eapply closed_above; [exact Hc|apply above_insert; lia|lia].
      * eapply at_above; [apply (above_insert e); lia|lia|exact Hw].
      * apply at_cons. split; [|unfold at_; simpl; by rewrite take_0].
        replace (cmd + p + length w)%nat with e by lia. apply list_lookup_insert_eq. lia.
    + assert (length r = length w + S (length x))%nat by (rewrite Ex, length_app; done). lia.
  - rewrite <- Ex. rewrite (proj2 (Z.leb_le _ _)) by (destruct Hr as (_ & _ & ->); lia). wp_step.
    exact (split_last cmd len n s m p argv ws r Ha Hc Hr).
Qed.

Lemma word_shorter t c r : strip t = c :: r -> (length (snd (word (c :: r))) <= length r)%nat.
Proof.
  intros E. assert (is_blank c = false) as Hb.
  { revert E. induction t as [|z t IH]; simpl; [done|]. destruct (is_blank z) eqn:Ez; [exact IH|by intros [= <- <-]]. }
  pose proof (word_app r) as Ew. apply (f_equal length) in Ew. rewrite length_app in Ew.
  simpl. rewrite Hb. destruct (word r). simpl in *. lia.
Qed.

Lemma split_word_wp fuel cmd len n s m p t argv ws size :
  split_ok fuel cmd len -> above cmd (buf s) m -> (FINSH_ARG_MAX - length argv)%nat = S n ->
  left_at cmd m p t len -> closed m (cmd + p) argv ws -> (length t < size)%nat -> (length (snd (word t)) < fuel)%nat ->
  wp (position ← in_buf (word_loop (Z.of_nat cmd) len size (Z.of_nat p));
      if len <=? position then mret (argv ++ [Z.of_nat (cmd + p)])
      else split_loop (Z.of_nat cmd) len fuel position (argv ++ [Z.of_nat (cmd + p)])) (set_buf m s)
    (split_post cmd len s (ws ++ fst (word t) :: fst (tokens n (snd (word t)))) (snd (tokens n (snd (word t))))).
Proof.
  intros IH Ha Hn Hl Hc Hsize Hf. wp_step. apply wp_in_buf. eapply word_wp; [exact Hl|exact Hsize|].
  pose proof (word_app t) as Ew. pose proof (word_rest t) as Eb. destruct (word t) as [w y]. cbn [fst snd] in *.
  rewrite Ew in Hl. destruct (left_split _ _ _ _ _ _ Hl) as (Hw & Hwz & Hr). destruct y as [|b y].
  - destruct (left_nil _ _ _ _ Hr) as [_ E]. rewrite (proj2 (Z.leb_le _ _)) by lia. wp_step.
    rewrite app_nil_r in Hl. exact (split_last cmd len n s m p argv ws w Ha Hc Hl).
  - rewrite (proj2 (Z.leb_gt _ _)) by (destruct Hr as (_ & _ & ->); simpl; lia).
    apply (split_next fuel cmd len n s m (p + length w) (b :: y)); [done|done|done|exact Hr| |exact Hf]. right. exists argv, ws, (cmd + p)%nat, w, b, y.
    split_and!; try done; [|lia|by eapply Eb]. eapply closed_above; [exact Hc|done|lia].
Qed.

Lemma split_loop_wp fuel cmd len : split_ok fuel cmd len.
Proof.
  induction fuel as [|fuel IH]; intros s p rest argv ws Hl He Hf Hn; [lia|]. cbn [split_loop].
  pose proof Hl as (_ & Hnz & Elen). destruct rest as [|b rest].
  { rewrite Elen, (proj2 (Z.ltb_ge _ _)) by (simpl; lia). wp_step.
    assert (tokens (FINSH_ARG_MAX - length argv) [] = ([], [])) as -> by (by destruct (_ - _)%nat).
    destruct He as [He|(? & ? & ? & ? & ? & ? & _ & _ & _ & _ & _ & _ & [=] & _)].
    exists (buf s). simpl. rewrite !app_nil_r. split; [by destruct s|]. split; [done|].
    eapply closed_above; [exact He|done|simpl; lia]. }
  rewrite (proj2 (Z.ltb_lt _ _)) by (rewrite Elen; simpl; lia). wp_step. wp_step. wp_step. apply wp_in_buf.
  pose proof (left_size _ _ _ _ _ Hl) as Hsize. pose proof (strip_length (b :: rest)) as Hsl.
  eapply strip_wp; [exact Hl|unfold string_fuel; lia|]. intros m p' Ha Hl' Hp.
  pose proof (ended_strip _ _ _ _ _ _ _ _ He Ha Hp) as Hc.
  assert (above cmd (buf s) m) as Ha' by (eapply above_trans; [done|exact Ha|lia]).
  destruct (Nat.leb_spec FINSH_ARG_MAX (length argv)) as [Hmax|Hmax].
  - replace (FINSH_ARG_MAX - length argv)%nat with 0%nat by lia. cbn [tokens fst snd]. rewrite app_nil_r.
    wp_step. apply wp_kprintf_0; [plain|]. wp_step. eapply print_args_wp; [exact Hc|]. rewrite put_text_app.
    wp_step. apply wp_kprintf_0; [plain|]. rewrite put_text_app. wp_step.
    exists m. split; [unfold put_text, too_many; simpl; by rewrite ?app_assoc|]. split; [done|].
    eapply closed_above; [exact Hc|done|]. destruct Hl' as (_ & _ & ->). lia.
  - destruct (FINSH_ARG_MAX - length argv)%nat as [|n] eqn:En; [lia|]. cbn [tokens].
    destruct (strip (b :: rest)) as [|c r] eqn:Es.
    { destruct (left_nil _ _ _ _ Hl') as [_ ->]. rewrite Z.leb_refl. wp_step. exists m. simpl. rewrite !app_nil_r.
      split; [done|]. split; [done|]. eapply closed_above; [exact Hc|done|lia]. }
    destruct (left_cons _ _ _ _ _ _ Hl') as (Hx & Hr & Hcz). simpl in Hsl, Hf, Hsize.
    rewrite (proj2 (Z.leb_gt _ _)) by (destruct Hl' as (_ & _ & ->); simpl; lia).
    wp_step. apply wp_in_buf. apply (wp_load_pos _ _ c); [done|].
    change (set_buf (buf (set_buf m s)) (set_buf m s)) with (set_buf m s). destruct (Z.eqb_spec c quote) as [->|Hq].
    + replace (Z.of_nat p' + 1) with (Z.of_nat (S p')) by lia.
      replace (Z.of_nat cmd + Z.of_nat (S p')) with (Z.of_nat (cmd + S p')) by lia.
      pose proof (split_quoted_wp fuel cmd len n s m (S p') r argv ws (string_fuel (buf s)) IH Ha' En Hr) as W.
      destruct (quoted r) as [w y]. cbn [fst snd] in W. destruct (tokens n y). apply W; [|unfold string_fuel; lia|lia].
      eapply closed_above; [exact Hc|done|lia].
    + rewrite <- Nat2Z.inj_add. pose proof (word_shorter _ _ _ Es) as Hsh.
      pose proof (split_word_wp fuel cmd len n s m p' (c :: r) argv ws (string_fuel (buf s)) IH Ha' En Hl' Hc) as W.
      destruct (word (c :: r)) as [w y]. cbn [fst snd] in W, Hsh. destruct (tokens n y). apply W; simpl; [unfold string_fuel; lia|lia].
Qed.

Lemma msh_split_wp cmd s t :
  cstring (buf s) cmd t ->
  wp (msh_split (Z.of_nat cmd) (Z.of_nat (length t))) s
    (split_post cmd (Z.of_nat (length t)) s (fst (tokens FINSH_ARG_MAX t)) (snd (tokens FINSH_ARG_MAX t))).
Proof.
  intros Hs. pose proof (cstring_length _ _ _ Hs). unfold msh_split. wp_step. wp_step.
  apply (split_loop_wp _ cmd (Z.of_nat (length t)) s 0%nat t [] []); [|left; constructor|unfold string_fuel; lia|simpl; lia].
  destruct Hs as [H1 H2]. split; [by rewrite Nat.add_0_r|done].
Qed.

(** *** Writing a command line *)

(** An argument is written as it is when this reads back, and otherwise
    between quotes. *)
Definition plain_arg (w : list Z) : bool :=
  match w with [] => false | c :: _ => negb (c =? quote) && forallb (fun c => negb (is_blank c)) w end.
Definition write_arg (w : list Z) : list Z := if plain_arg w then w else quote :: w ++ [quote].
Fixpoint write_args (ws : list (list Z)) : list Z :=
  match ws with [] => [] | [w] => write_arg w | w :: ws => write_arg w ++ space :: write_args ws end.

(** A quote, or a backslash at the end, cannot be written between quotes. *)
Definition arg_ok (w : list Z) : Prop := plain_arg w = true \/ quote ∉ w /\ last w <> Some backslash.

Lemma word_plain w b r :
  forallb (fun c => negb (is_blank c)) w = true -> is_blank b = true -> word (w ++ b :: r) = (w, b :: r).
Proof.
  intros H Hb. induction w as [|c w IH]; simpl in *; [by rewrite Hb|].
  apply andb_true_iff in H as [Hc H]. apply negb_true_iff in Hc. by rewrite Hc, IH.
Qed.
Lemma word_all w : forallb (fun c => negb (is_blank c)) w = true -> word w = (w, []).
Proof.
  intros H. induction w as [|c w IH]; simpl in *; [done|].
  apply andb_true_iff in H as [Hc H]. apply negb_true_iff in Hc. by rewrite Hc, IH.
Qed.

Lemma quoted_close w r : quote ∉ w -> last w <> Some backslash -> quoted (w ++ quote :: r) = (w, r).
Proof.
  induction w as [|c w IH]; intros Hq Hl; [done|]. apply not_elem_of_cons in Hq as [Hc Hq].
  change ((c :: w) ++ quote :: r) with (c :: w ++ quote :: r). cbn [quoted].
  rewrite (proj2 (Z.eqb_neq c quote)) by done. destruct w as [|d w].
  - simpl in Hl. rewrite (proj2 (Z.eqb_neq c backslash)) by congruence. done.
  - assert (quoted ((d :: w) ++ quote :: r) = (d :: w, r)) as IH' by (apply IH; [done|exact Hl]).
    rewrite IH'. destruct (c =? backslash); [|done]. cbn [app].
    by rewrite (proj2 (Z.eqb_neq d quote)) by (intros ->; apply Hq; left).
Qed.

(** One written argument, in front of a blank or at the end. *)
Lemma tokens_write n w r :
  arg_ok w -> (forall b x, r = b :: x -> is_blank b = true) ->
  tokens (S n) (write_arg w ++ r) = let '(ws, l) := tokens n r in (w :: ws, l).
Proof.
  intros Hw Hr. unfold write_arg. destruct (plain_arg w) eqn:Ep.
  - destruct w as [|c w]; [done|]. cbn [plain_arg] in Ep. apply andb_true_iff in Ep as [Hq Hb].
    apply negb_true_iff in Hq. pose proof Hb as Hb'. simpl in Hb'. apply andb_true_iff in Hb' as [Hc _].
    apply negb_true_iff in Hc. cbn [app tokens strip]. rewrite Hc, Hq.
    change (c :: w ++ r) with ((c :: w) ++ r). destruct r as [|b r].
    + rewrite app_nil_r. by rewrite (word_all (c :: w) Hb).
    + rewrite (word_plain (c :: w) b r Hb); [done|]. by eapply Hr.
  - destruct Hw as [Hw|[Hq Hl]]; [congruence|]. cbn [app tokens strip]. change (is_blank quote) with false. cbn iota.
    rewrite Z.eqb_refl, <- app_assoc. cbn [app]. by rewrite (quoted_close w r Hq Hl).
Qed.

Lemma tokens_space n r : tokens n (space :: r) = match n with O => ([], space :: r) | S _ => tokens n r end.
Proof. by destruct n. Qed.

Lemma tokens_write_args ws n : Forall arg_ok ws -> (length ws <= n)%nat -> tokens n (write_args ws) = (ws, []).
Proof.
  intros H. revert n. induction H as [|w ws Hw Hws IH]; intros n Hn; [by destruct n|].
  destruct n as [|n]; simpl in Hn; [lia|]. destruct ws as [|v ws].
  - cbn [write_args]. rewrite <- (app_nil_r (write_arg w)). rewrite tokens_write by done. by destruct n.
  - change (write_args (w :: v :: ws)) with (write_arg w ++ space :: write_args (v :: ws)).
    rewrite tokens_write; [|done|by intros b x [= <- _]]. rewrite tokens_space.
    destruct n as [|n]; [simpl in Hn; lia|]. by rewrite IH by lia.
Qed.

(** ** The command table *)

Definition table_ok (table : list finsh_syscall) : Prop := Forall (fun e => nozero (sc_name e)) table.

Lemma strncmp_sym n x y r : strncmp n x y = Some r -> strncmp n y x = Some (- r).
Proof.
  revert x y. induction n as [|n IH]; intros x y; simpl; [by intros [= <-]|].
  destruct x as [|c x], y as [|d y]; try done. rewrite (Z.eqb_sym d c). destruct (Z.eqb_spec c d) as [->|].
  - destruct (d =? 0); [by intros [= <-]|apply IH].
  - intros [= <-]. f_equal. lia.
Qed.

(** Comparing the first [length w] characters: is [w] a prefix? *)
Lemma strncmp_prefix w x z :
  nozero w -> nozero x ->
  exists r, strncmp (length w) (cs x) (w ++ z) = Some r /\ (r =? 0) = bool_decide (w `prefix_of` x).
Proof.
  intros Hw. revert x. induction Hw as [|d w Hd Hw IH]; intros x Hx.
  - exists 0. split; [done|]. symmetry. apply bool_decide_eq_true. apply prefix_nil.
  - destruct x as [|c x]; cbn [length cs app strncmp].
    + rewrite (proj2 (Z.eqb_neq 0 d)) by done. eexists. split; [done|]. rewrite bool_decide_eq_false_2 by (by intros ?%prefix_nil_not).
      apply Z.eqb_neq. lia.
    + apply Forall_cons in Hx as [Hc Hx]. destruct (Z.eqb_spec c d) as [->|Hn].
      * rewrite (proj2 (Z.eqb_neq d 0)) by done. destruct (IH x Hx) as (r & E & Er). exists r. split; [exact E|].
        rewrite Er. apply bool_decide_ext. split; [apply prefix_cons|apply prefix_cons_inv_2].
      * eexists. split; [done|]. rewrite bool_decide_eq_false_2 by (by intros ?%prefix_cons_inv_1).
        apply Z.eqb_neq. lia.
Qed.

Lemma cmd_prefix_nozero : nozero cmd_prefix.
Proof. plain. Qed.

Definition is_command (e : finsh_syscall) : bool := bool_decide (cmd_prefix `prefix_of` sc_name e).

Lemma not_command_eq e : nozero (sc_name e) -> not_command e = Some (negb (is_command e)).
Proof.
  intros He. unfold not_command. change 6%nat with (length cmd_prefix).
  destruct (strncmp_prefix cmd_prefix (sc_name e) [0] cmd_prefix_nozero He) as (r & E & Er).
  change (cs cmd_prefix) with (cmd_prefix ++ [0]). rewrite E. simpl. by rewrite Er.
Qed.

Lemma command_name e : is_command e = true -> sc_name e = cmd_prefix ++ drop 6 (sc_name e).
Proof.
  intros H%bool_decide_eq_true. by destruct H as [x ->].
Qed.

(** The first command with the name [w]. *)
Fixpoint find_cmd (table : list finsh_syscall) (w : list Z) : option nat :=
  match table with
  | [] => None
  | e :: table => if bool_decide (sc_name e = cmd_prefix ++ w) then Some O else S <$> find_cmd table w
  end.

Section Specs.
Context (table : list finsh_syscall) (run : nat -> list (list Z) -> Z) (Htab : table_ok table).

(** [name[6 + size] == 0] behind an equal beginning. *)
Lemma rd_end x y : nozero y ->
  exists c, rd (cs (cmd_prefix ++ x ++ y)) (6 + Z.of_nat (length x)) = Some c /\ (c =? 0) = bool_decide (y = []).
Proof.
  intros Hy. unfold rd, cs. rewrite (proj2 (Z.leb_le _ _)) by lia.
  replace (Z.to_nat (6 + Z.of_nat (length x))) with (length (cmd_prefix ++ x))
    by (rewrite length_app; change (length cmd_prefix) with 6%nat; lia).
  rewrite app_assoc, <- app_assoc, lookup_app_r, Nat.sub_diag by done. destruct y as [|c y]; [by exists 0|]. exists c. split; [done|].
  apply Forall_cons in Hy as [Hc _]. rewrite bool_decide_eq_false_2 by done. by apply Z.eqb_neq.
Qed.

Lemma get_cmd_loop_wp tab i m cmd w z (Q : option nat -> mem -> Prop) :
  table_ok tab -> nozero w -> drop cmd m = w ++ z ->
  Q (Nat.add i <$> find_cmd tab w) m ->
  wp (get_cmd_loop tab i (Z.of_nat cmd) (length w)) m Q.
Proof.
  intros Ht Hw Hm. revert i Q. induction Ht as [|e tab He Ht IH]; intros i Q HQ; cbn [get_cmd_loop].
  - wp_step. exact HQ.
  - wp_step. eapply wp_deref; [by apply not_command_eq|]. destruct (is_command e) eqn:Ec; simpl negb; cbn iota.
    + pose proof (command_name e Ec) as En. set (x := drop 6 (sc_name e)) in *.
      assert (nozero x) as Hx by (rewrite En in He; by apply Forall_app in He as [_ He]).
      wp_step. wp_step. rewrite Nat2Z.id. unfold id. rewrite Hm.
      replace (drop 6 (cs (sc_name e))) with (cs x) by (by rewrite En at 1).
      destruct (strncmp_prefix w x z Hw Hx) as (r & E & Er). wp_step. eapply wp_deref; [exact E|]. rewrite Er.
      cbn [find_cmd] in HQ. case_bool_decide as Hp.
      * destruct Hp as [y Ey]. rewrite Ey in Hx. apply Forall_app in Hx as [_ Hy].
        destruct (rd_end w y Hy) as (c & Ed & Ecz). wp_step. wp_step. eapply wp_deref; [by rewrite En, Ey|]. wp_step. rewrite Ecz.
        replace (bool_decide (sc_name e = cmd_prefix ++ w)) with (bool_decide (y = [])) in HQ.
        2: { apply bool_decide_ext. rewrite En, Ey. split; [intros ->; by rewrite app_nil_r|].
             intros H%(inj (app cmd_prefix)). rewrite <- (app_nil_r w) in H at 2. by apply (inj (app w)) in H. }
        case_bool_decide; [wp_step; simpl in HQ; by rewrite Nat.add_0_r in HQ|].
        apply IH. destruct (find_cmd tab w); simpl in *; [by rewrite <- Nat.add_succ_r|done].
      * wp_step. wp_step. apply IH. rewrite bool_decide_eq_false_2 in HQ.
        2: { rewrite En. intros H%(inj (app cmd_prefix)). apply Hp. by rewrite H. }
        destruct (find_cmd tab w); simpl in *; [by rewrite <- Nat.add_succ_r|done].
    + apply IH. cbn [find_cmd] in HQ. rewrite bool_decide_eq_false_2 in HQ.
      2: { intros E. apply bool_decide_eq_false in Ec. apply Ec. rewrite E. by exists w. }
      destruct (find_cmd tab w); simpl in *; [by rewrite <- Nat.add_succ_r|done].
Qed.

(** ** Executing a line *)

Fixpoint before_space (t : list Z) : list Z :=
  match t with [] => [] | c :: t => if c =? space then [] else c :: before_space t end.

Definition not_found (t : list Z) : list Z := sent (before_space t ++ text ": command not found." ++ nl).

(** What a line does: the result, what is printed, the command called. *)
Definition exec_spec (t : list Z) : Z * list Z * list (nat * list (list Z)) :=
  match strip t with
  | [] => (0, [], [])
  | t =>
      match find_cmd table (fst (word t)) with
      | Some i => let '(ws, l) := tokens FINSH_ARG_MAX t in (run i ws, too_many l ws, [(i, ws)])
      | None => (-1, not_found t, [])
      end
  end.

Definition exec_post (s : msh_st) (t : list Z) (r : Z) (s' : msh_st) : Prop :=
  exists m', length m' = length (buf s) /\
    (r, s') = let '(r, out, cl) := exec_spec t in (r, mk_msh m' (console s ++ out) (calls s ++ cl)).

Lemma skip_blanks_wp fuel m a t len (Q : Z * Z -> mem -> Prop) :
  cstring m a t -> len = Z.of_nat (length t) -> len < 2 ^ 32 -> (length t < fuel)%nat ->
  (forall a', (a <= a')%nat -> cstring m a' (strip t) -> Q (Z.of_nat a', Z.of_nat (length (strip t))) m) ->
  wp (skip_blanks fuel (Z.of_nat a) len) m Q.
Proof.
  revert a fuel len Q. induction t as [|c t IH]; intros a [|fuel] len Q Hs -> Hl Hf HQ; simpl in Hf; try lia; cbn [skip_blanks].
  - pose proof Hs as H0. apply cstring_nil in H0. wp_step. apply (wp_load_at _ 0); [done|].
    change (is_blank 0) with false. cbn iota. wp_step. by apply (HQ a).
  - pose proof Hs as H0. apply cstring_cons in H0 as (Hc & _ & Ht). wp_step. apply (wp_load_at _ c); [done|].
    simpl in HQ. destruct (is_blank c); [|wp_step; by apply (HQ a)].
    assert (u32 (Z.of_nat (length (c :: t)) - 1) = Z.of_nat (length t)) as ->.
    { cbn [length] in *. rewrite uwrap_small by c_lia. lia. }
    replace (Z.of_nat a + 1) with (Z.of_nat (S a)) by lia. apply IH; [done|done|simpl in Hl; lia|lia|].
    intros a' Ha. apply HQ. lia.
Qed.

Lemma first_space_wp fuel m a t (Q : Z -> mem -> Prop) :
  cstring m a t -> (length t < fuel)%nat ->
  Q (Z.of_nat (a + length (before_space t))) m -> wp (first_space fuel (Z.of_nat a)) m Q.
Proof.
  revert a fuel Q. induction t as [|c t IH]; intros a [|fuel] Q Hs Hf HQ; simpl in Hf; try lia; cbn [first_space].
  - apply cstring_nil in Hs. wp_step. apply (wp_load_at _ 0); [done|]. simpl. wp_step. by rewrite Nat.add_0_r in HQ.
  - apply cstring_cons in Hs as (Hc & Hne & Ht). wp_step. apply (wp_load_at _ c); [done|].
    simpl in HQ. destruct (c =? space); simpl; [wp_step; by rewrite Nat.add_0_r in HQ|].
    rewrite (proj2 (Z.eqb_neq c 0)) by done. simpl. replace (Z.of_nat a + 1) with (Z.of_nat (S a)) by lia.
    apply IH; [done|lia|]. simpl in HQ. by rewrite Nat.add_succ_r in HQ.
Qed.

Lemma before_space_app t : exists r, t = before_space t ++ r.
Proof.
  induction t as [|c t [r IH]]; [by exists []|]. simpl. destruct (c =? space); [by eexists|].
  exists r. simpl. by rewrite <- IH.
Qed.

Lemma tokens_nonempty n t c r : strip t = c :: r -> fst (tokens (S n) t) <> [].
Proof.
  intros E. cbn [tokens]. rewrite E. destruct (c =? quote).
  - destruct (quoted r) as [w y]. by destruct (tokens n y).
  - destruct (word (c :: r)) as [w y]. by destruct (tokens n y).
Qed.

Lemma exec_cmd_wp cmd s t (Q : option Z -> msh_st -> Prop) c r :
  cstring (buf s) cmd t -> t = c :: r -> is_blank c = false ->
  match find_cmd table (fst (word t)) with
  | Some i => forall m', length m' = length (buf s) ->
      let '(ws, l) := tokens FINSH_ARG_MAX t in
      Q (Some (run i ws)) (mk_msh m' (console s ++ too_many l ws) (calls s ++ [(i, ws)]))
  | None => Q None s
  end ->
  wp (_msh_exec_cmd table run (Z.of_nat cmd) (Z.of_nat (length t))) s Q.
Proof.
  intros Hs Et Hc HQ. pose proof (cstring_length _ _ _ Hs) as Hlen. unfold _msh_exec_cmd. wp_step. wp_step. wp_step. apply wp_in_buf.
  pose proof Hs as [H1 H2]. apply (word_wp cmd _ _ 0%nat t); [split; [by rewrite Nat.add_0_r|done]|unfold string_fuel; lia|].
  pose proof (word_app t) as Ew. destruct (word t) as [w y] eqn:Eq. cbn [fst snd] in *. rewrite set_buf_id.
  assert (w <> []) as Hw.
  { subst t. simpl in Eq. rewrite Hc in Eq. destruct (word r). by injection Eq as <- <-. }
  rewrite (proj2 (Z.eqb_neq _ 0)) by (destruct w; [done|simpl; lia]). wp_step. apply wp_in_buf.
  unfold msh_get_cmd. rewrite Nat2Z.id. simpl Nat.add.
  assert (exists z, drop cmd (buf s) = w ++ z) as [z Hz].
  { exists (y ++ 0 :: drop (length (t ++ [0])) (drop cmd (buf s))).
    rewrite <- (take_drop (length (t ++ [0])) (drop cmd (buf s))) at 1. unfold at_ in H1. rewrite H1, Ew, <- !app_assoc. done. }
  eapply (get_cmd_loop_wp table 0 _ cmd w z); [exact Htab|rewrite Ew in H2; by apply Forall_app in H2 as [? _]|exact Hz|].
  rewrite set_buf_id. destruct (find_cmd table w) as [i|]; simpl; [|by wp_step].
  wp_step. eapply wp_mono; [by apply msh_split_wp|]. intros argv s' (m' & -> & [Hm _] & Hcl).
  assert (fst (tokens FINSH_ARG_MAX t) <> []) as Hne.
  { eapply (tokens_nonempty 9 t c r). subst t. simpl. by rewrite Hc. }
  specialize (HQ m' Hm). destruct (tokens FINSH_ARG_MAX t) as [ws l]. cbn [fst snd] in *.
  pose proof (closed_length _ _ _ _ Hcl) as El. rewrite (proj2 (Nat.eqb_neq _ _)) by (destruct ws; [done|simpl in El; lia]).
  wp_step. apply wp_in_buf. eapply strings_at_wp; [exact Hcl|]. wp_steps. exact HQ.
Qed.

(** Executing a command line, any string of fewer than [2^32] characters
    in the buffer: the call returns without a fault and does exactly what the
    reference says. A line of blanks does nothing; otherwise the first word is
    looked up among the names behind [__cmd_], the first entry with exactly this name is
    called once with the arguments of the reference split, at most ten, and its
    result returned; if there is none the name is reported and -1 returned.
    The buffer keeps its size. *)
Theorem msh_exec_spec cmd t s :
  cstring (buf s) cmd t -> Z.of_nat (length t) < 2 ^ 32 ->
  wp (msh_exec table run (Z.of_nat cmd) (Z.of_nat (length t))) s (exec_post s t).
Proof.
  intros Hs Hl. pose proof (cstring_length _ _ _ Hs) as Hlen. unfold msh_exec. wp_step. wp_step. wp_step. apply wp_in_buf.
  eapply skip_blanks_wp; [exact Hs|done|done|unfold string_fuel; lia|]. intros a Ha Hs'. rewrite set_buf_id.
  pose proof (cstring_length _ _ _ Hs') as Hlen'. unfold exec_post, exec_spec. destruct (strip t) as [|c r] eqn:Es.
  { simpl. wp_step. exists (buf s). split; [done|]. rewrite !app_nil_r. by destruct s. }
  rewrite (proj2 (Z.eqb_neq _ 0)) by (simpl; lia).
  assert (is_blank c = false) as Hc.
  { clear -Es. induction t as [|z t IH]; simpl in Es; [done|]. destruct (is_blank z) eqn:Ez; [by apply IH|by injection Es as <- <-]. }
  wp_step. eapply exec_cmd_wp; [exact Hs'|done|exact Hc|].
  destruct (find_cmd table (word (c :: r)).1) as [i|].
  - intros m' Hm. destruct (tokens FINSH_ARG_MAX (c :: r)) as [ws l]. wp_step. by exists m'.
  - wp_step. apply wp_in_buf. eapply first_space_wp; [exact Hs'|unfold string_fuel; lia|]. rewrite set_buf_id.
    wp_step. apply wp_in_buf. destruct (before_space_app (c :: r)) as [y Ey].
    pose proof (f_equal length Ey) as Ely. rewrite length_app in Ely.
    apply wp_store_at; [lia|]. wp_step. apply wp_in_buf. eapply (string_at_wp _ a (before_space (c :: r))).
    { destruct Hs' as [H1 H2]. rewrite Ey in H1, H2. apply Forall_app in H2 as [H2 _].
      split; [|rewrite Ey; by rewrite <- Ey]. cbn [buf set_buf]. apply at_app. split.
      - eapply at_above; [apply (above_insert (a + length (before_space (c :: r)))); lia|lia|].
        rewrite <- app_assoc in H1. by apply at_app in H1 as [H1 _].
      - apply at_cons. split; [|unfold at_; simpl; by rewrite take_0]. apply list_lookup_insert_eq. lia. }
    wp_step. eapply (wp_kprintf_1 _ []); [reflexivity|constructor|plain|]. wp_step.
    eexists. split; [|by rewrite app_nil_r]. apply length_insert.
Qed.

End Specs.

(** C32. Arguments arrive as they were written: the line made of a command name and at most nine
    arguments, those with blanks and the empty ones between double quotes, calls
    the command once with exactly these strings; the only arguments that cannot be
    written are those with a double quote or a backslash at the end among the ones that
    need quotes. *)
Theorem msh_arguments table run cmd w args i s :
  table_ok table -> plain_arg w = true -> find_cmd table w = Some i -> Forall arg_ok args -> (length args <= 9)%nat ->
  cstring (buf s) cmd (write_args (w :: args)) -> Z.of_nat (length (write_args (w :: args))) < 2 ^ 32 ->
  wp (msh_exec table run (Z.of_nat cmd) (Z.of_nat (length (write_args (w :: args))))) s (fun r s' =>
    r = run i (w :: args) /\ calls s' = calls s ++ [(i, w :: args)] /\ console s' = console s).
Proof.
  intros Ht Hw Hf Ha Hn Hs Hl. eapply wp_mono; [by apply msh_exec_spec|]. intros r s' (m' & _ & E).
  assert (exec_spec table run (write_args (w :: args)) = (run i (w :: args), [], [(i, w :: args)])) as Es.
  { assert (exists t, write_args (w :: args) = w ++ t /\ (forall b x, t = b :: x -> is_blank b = true)) as (t & Et & Hb).
    { destruct args as [|v args]; simpl; unfold write_arg at 1; rewrite Hw.
      - exists []. by rewrite app_nil_r.
      - eexists. split; [done|]. by intros b x [= <- _]. }
    pose proof (tokens_write_args (w :: args) FINSH_ARG_MAX) as Htok. unfold exec_spec.
    destruct w as [|c w]; [done|]. pose proof Hw as Hp. cbn [plain_arg] in Hp. apply andb_true_iff in Hp as [_ Hall].
    pose proof Hall as Hc. simpl in Hc. apply andb_true_iff in Hc as [Hc _]. apply negb_true_iff in Hc.
    assert (strip (write_args ((c :: w) :: args)) = write_args ((c :: w) :: args)) as ->.
    { rewrite Et. simpl. by rewrite Hc. }
    assert (fst (word (write_args ((c :: w) :: args))) = c :: w) as Ew.
    { rewrite Et. destruct t as [|b t]; [rewrite app_nil_r; by rewrite word_all|].
      rewrite word_plain; [done|done|by eapply Hb]. }
    specialize (Htok ltac:(constructor; [by left|done]) ltac:(cbn [length]; unfold FINSH_ARG_MAX; lia)).
    rewrite Et in Ew, Htok |- *. cbn [app] in Ew, Htok |- *. by rewrite Ew, Hf, Htok. }
  rewrite Es in E. simpl in E. injection E as -> ->. simpl. by rewrite app_nil_r.
Qed.

(** ** Completion *)

Definition commands (table : list finsh_syscall) : list (list Z) :=
  (fun e => drop 6 (sc_name e)) <$> filter (fun e => is_command e = true) table.
Definition matching (p : list Z) (l : list (list Z)) : list (list Z) := filter (fun n => p `prefix_of` n) l.

(** The longest common prefix. *)
Fixpoint common_prefix (x y : list Z) : list Z :=
  match x, y with c :: x, d :: y => if c =? d then c :: common_prefix x y else [] | _, _ => [] end.

Lemma str_common_length x y : str_common x y = length (common_prefix x y).
Proof. revert y. induction x as [|c x IH]; intros [|d y]; simpl; [done..|]. destruct (c =? d); simpl; auto. Qed.
Lemma common_prefix_l x y : common_prefix x y `prefix_of` x.
Proof.
  revert y. induction x as [|c x IH]; intros [|d y]; simpl; try apply prefix_nil.
  destruct (c =? d); [by apply prefix_cons|apply prefix_nil].
Qed.
Lemma common_prefix_r x y : common_prefix x y `prefix_of` y.
Proof.
  revert y. induction x as [|c x IH]; intros [|d y]; simpl; try apply prefix_nil.
  destruct (Z.eqb_spec c d) as [->|]; [by apply prefix_cons|apply prefix_nil].
Qed.
Lemma common_prefix_max p x y : p `prefix_of` x -> p `prefix_of` y -> p `prefix_of` common_prefix x y.
Proof.
  revert p y. induction x as [|c x IH]; intros p y Hx Hy; [by apply prefix_nil_inv in Hx as ->; apply prefix_nil|].
  destruct p as [|e p]; [apply prefix_nil|]. destruct y as [|d y]; [by apply prefix_nil_inv in Hy|].
  pose proof (prefix_cons_inv_1 _ _ _ _ Hx) as ->. pose proof (prefix_cons_inv_1 _ _ _ _ Hy) as ->.
  simpl. rewrite Z.eqb_refl. apply prefix_cons, IH; by eapply prefix_cons_inv_2.
Qed.

(** [L] is what all of [l] begin with, and as long as possible. *)
Definition longest_common (l : list (list Z)) (L : list Z) : Prop :=
  Forall (prefix L) l /\ forall p, Forall (prefix p) l -> p `prefix_of` L.

Lemma longest_snoc l L x : longest_common l L -> l <> [] -> longest_common (l ++ [x]) (common_prefix L x).
Proof.
  intros [H1 H2] _. split.
  - apply Forall_app. split; [|constructor; [apply common_prefix_r|constructor]].
    eapply Forall_impl; [exact H1|]. intros y Hy. etransitivity; [apply common_prefix_l|exact Hy].
  - intros p [Hp [Hx _]%Forall_cons]%Forall_app. apply common_prefix_max; [by apply H2|done].
Qed.

Definition names_text (l : list (list Z)) : list Z := concat ((fun n => sent (n ++ nl)) <$> l).

(** The loop has seen the matching names [l]. *)
Definition seen (p : list Z) (l : list (list Z)) (min : nat) (name : option (list Z)) : Prop :=
  match name with
  | None => l = [] /\ min = 0%nat
  | Some n => longest_common l (take min n) /\ (min <= length n)%nat /\ Forall (prefix p) l /\ n ∈ l
  end.

(** The shorter of two beginnings of [n] is their common beginning. *)
Lemma common_take n min x :
  (min <= length n)%nat -> common_prefix (take min n) x = take (str_common n x `min` min) n.
Proof.
  revert min x. induction n as [|c n IH]; intros [|min] x Hm; simpl in *; try done; [by rewrite Nat.min_0_r|].
  destruct x as [|d x]; [done|]. destruct (c =? d); [|done]. simpl. by rewrite IH by lia.
Qed.

Lemma seen_length p l min n : seen p l min (Some n) -> (length p <= min)%nat.
Proof.
  intros ([_ H] & _ & Hp & _). apply H, prefix_length in Hp. rewrite length_take in Hp. lia.
Qed.

Lemma seen_next p l min name x :
  p <> [] -> seen p l min name -> p `prefix_of` x ->
  exists n, (if (min =? 0)%nat then (length x, Some x) else (min, name)) = ((if (min =? 0)%nat then length x else min), Some n) /\
    let min := if (min =? 0)%nat then length x else min in
    seen p (l ++ [x]) (if (str_common n x <? min)%nat then str_common n x else min) (Some n).
Proof.
  intros Hp Hs Hx. destruct name as [n|].
  - pose proof (seen_length _ _ _ _ Hs) as Hl. destruct Hs as (H1 & H2 & H3 & H4).
    rewrite (proj2 (Nat.eqb_neq min 0)) by (destruct p; [done|simpl in Hl; lia]). exists n. split; [done|]. cbv zeta.
    replace (if (str_common n x <? min)%nat then str_common n x else min) with (str_common n x `min` min)%nat
      by (destruct (Nat.ltb_spec (str_common n x) min); lia).
    split; [rewrite <- common_take by done; apply longest_snoc; [done|by intros ->; apply elem_of_nil in H4]|]. split; [lia|].
    split; [|apply elem_of_app; by left].
    apply Forall_app. by split; [|constructor].
  - destruct Hs as [-> ->]. exists x. split; [done|]. cbv zeta. change (0 =? 0)%nat with true. cbn iota. rewrite str_common_length.
    assert (common_prefix x x = x) as -> by (clear; induction x as [|c x IH]; simpl; [done|by rewrite Z.eqb_refl, IH]).
    rewrite Nat.ltb_irrefl. split; [|split; [lia|split; [by repeat constructor|by left]]].
    rewrite take_ge by done. split; [by repeat constructor|]. by intros q [Hq _]%Forall_cons.
Qed.

Lemma complete_loop_wp tab p l min name s (Q : nat * option (list Z) -> msh_st -> Prop) :
  table_ok tab -> nozero p -> p <> [] -> seen p l min name ->
  (forall min' name', seen p (l ++ matching p (commands tab)) min' name' ->
     Q (min', name') (put_text (names_text (matching p (commands tab))) s)) ->
  wp (complete_loop tab p min name) s Q.
Proof.
  intros Ht Hp Hne. revert l min name s. induction Ht as [|e tab He Ht IH]; intros l min name s Hs HQ; cbn [complete_loop].
  - wp_step. unfold put_text, matching, commands in HQ. simpl in HQ. rewrite !app_nil_r in HQ. destruct s. by apply HQ.
  - wp_step. eapply wp_deref; [by apply not_command_eq|]. unfold commands in HQ. rewrite filter_cons in HQ.
    destruct (is_command e) eqn:Ec; simpl negb; cbn iota.
    2: { rewrite decide_False in HQ by done. by apply (IH l). }
    rewrite decide_True, fmap_cons in HQ by done. fold (commands tab) in HQ. set (x := drop 6 (sc_name e)) in *.
    assert (nozero x) as Hx by (rewrite (command_name e Ec) in He; by apply Forall_app in He as [_ He]).
    destruct (strncmp_prefix p x [0] Hp Hx) as (r & E & Er). apply strncmp_sym in E. wp_step. eapply wp_deref; [exact E|].
    replace (- r =? 0) with (r =? 0) by lia. rewrite Er. unfold matching in HQ. rewrite filter_cons in HQ. fold (matching p (commands tab)) in HQ.
    case_bool_decide as Hpx; [rewrite decide_True in HQ by done|rewrite decide_False in HQ by done; by apply (IH l)].
    destruct (seen_next p l min name x Hne Hs Hpx) as (n & En & Hs'). rewrite En. cbv zeta in Hs'.
    wp_step. eapply wp_deref; [done|]. cbv zeta. wp_step. eapply (wp_kprintf_1 _ []); [reflexivity|constructor|plain|].
    eapply IH; [exact Hs'|]. intros min' name' Hs2. rewrite put_text_app. rewrite <- app_assoc in Hs2. by apply HQ.
Qed.

Lemma commands_nozero table : table_ok table -> forall n, n ∈ commands table -> nozero n.
Proof.
  intros Ht n (e & -> & [He Hin]%list_elem_of_filter)%list_elem_of_fmap. unfold table_ok in Ht; rewrite Forall_forall in Ht.
  pose proof (Ht e Hin) as H. rewrite (command_name e He) in H. by apply Forall_app in H as [_ H].
Qed.

(** Completion, for a non-empty beginning of a command name: every command
    name that begins with it is printed, in the order of the table, and the
    line is extended to the longest beginning that all of them share - the
    whole name if there is only one -, and without a match nothing changes. *)
Theorem msh_auto_complete_spec table a p s :
  table_ok table -> cstring (buf s) a p -> p <> [] ->
  (forall n, n ∈ commands table -> (a + length n < length (buf s))%nat) ->
  wp (msh_auto_complete table (Z.of_nat a)) s (fun _ s' =>
    let l := matching p (commands table) in
    match l with
    | [] => s' = s
    | _ => exists L, longest_common l L /\ p `prefix_of` L /\
        s' = put_text (names_text l) (set_buf (splice (buf s) a L) s)
    end).
Proof.
  intros Ht Hs Hne Hroom. unfold msh_auto_complete. destruct p as [|c p]; [done|]. set (q := c :: p) in *.
  pose proof Hs as Hs'. apply cstring_cons in Hs' as (Hc & Hcz & _). wp_step. apply wp_in_buf.
  apply (wp_load_at _ c); [done|]. rewrite set_buf_id, (proj2 (Z.eqb_neq c 0)) by done. wp_step. apply wp_in_buf.
  eapply string_at_wp; [exact Hs|]. rewrite set_buf_id. wp_step.
  apply (complete_loop_wp _ _ [] 0 None); [done|apply Hs|done|done|]. intros min name Hseen. rewrite app_nil_l in Hseen.
  cbv zeta. destruct name as [n|].
  2: { destruct Hseen as [-> _]. wp_step. unfold put_text. simpl. rewrite app_nil_r. by destruct s. }
  destruct Hseen as (HL & Hmin & Hp & Hl). destruct (matching q (commands table)) as [|x l] eqn:El; [by apply elem_of_nil in Hl|]. rewrite <- El in *.
  assert (n ∈ commands table) as Hn by (by apply list_elem_of_filter in Hl as [_ Hl]).
  assert (Obj.rt_strncpy (cs n) min = Some (take min n)) as Ecpy.
  { pose proof (commands_nozero _ Ht n Hn) as Hz. clear -Hz Hmin. revert min Hmin.
    induction Hz as [|d n Hd Hz IH]; intros [|min] Hm; simpl in *; try done; [lia|].
    rewrite (proj2 (Z.eqb_neq d 0)) by done. change (n ++ [0]) with (cs n). by rewrite IH by lia. }
  specialize (Hroom n Hn). wp_step. eapply wp_deref; [exact Ecpy|]. wp_step. wp_step. wp_step.
  eapply wp_deref; [apply buf_write_Some; [lia|rewrite length_take; simpl; lia]|]. wp_step.
  exists (take min n). split; [done|]. split; [by apply HL|]. by rewrite Nat2Z.id.
Qed.

(** ** Help *)

Definition help_line (e : finsh_syscall) : list Z :=
  drop 6 (sc_name e) ++ replicate (16 - length (drop 6 (sc_name e))) 32 ++ text " - " ++ sc_desc e ++ nl.
Definition help_text (table : list finsh_syscall) : list Z :=
  sent (text "RT-Thread shell commands:" ++ nl) ++
  concat ((fun e => sent (help_line e)) <$> filter (fun e => is_command e = true) table) ++ sent nl.

Lemma formatted_help x d : formatted (text "%-16s - %s" ++ nl) [AStr (Some x); AStr (Some d)] =
  Some (x ++ replicate (16 - length x) 32 ++ text " - " ++ d ++ nl).
Proof.
  unfold formatted. change (text "%-16s - %s" ++ nl) with (37 :: 45 :: 49 :: 54 :: 115 :: text " - " ++ 37 :: 115 :: nl).
  change (length (37 :: 45 :: 49 :: 54 :: 115 :: text " - " ++ 37 :: 115 :: nl)) with (S (length (text " - ") + S (length nl + 5))).
  rewrite format_left, format_plain by plain. rewrite format_string. rewrite <- (app_nil_r nl) at 2.
  rewrite format_plain by plain. rewrite format_nil. by rewrite app_nil_l, <- !app_assoc.
Qed.

Lemma help_wp table s (Q : unit -> msh_st -> Prop) :
  table_ok table -> Q tt (put_text (help_text table) s) -> wp (msh_help table) s Q.
Proof.
  intros Ht HQ. unfold msh_help. wp_step. apply wp_kprintf_0; [plain|]. wp_step.
  assert (forall s (R : unit -> msh_st -> Prop),
    R tt (put_text (concat ((fun e => sent (help_line e)) <$> filter (fun e => is_command e = true) table)) s) ->
    wp (help_loop table) s R) as Hloop.
  { clear HQ. induction Ht as [|e tab He Ht IH]; intros s' R HR; cbn [help_loop].
    - wp_step. unfold put_text in HR. simpl in HR. rewrite app_nil_r in HR. by destruct s'.
    - wp_step. eapply wp_deref; [by apply not_command_eq|]. rewrite filter_cons in HR.
      destruct (is_command e); simpl negb; cbn iota; wp_step.
      + rewrite decide_True in HR by done. eapply wp_kprintf; [apply formatted_help|]. apply IH.
        rewrite put_text_app. exact HR.
      + rewrite decide_False in HR by done. wp_step. by apply IH. }
  apply Hloop. rewrite put_text_app. apply wp_kprintf_0; [plain|]. rewrite put_text_app, <- app_assoc. exact HQ.
Qed.

(** ** Concrete runs *)

Definition demo_table : list finsh_syscall :=
  [mk_syscall (text "list_timer") (text "a function of the other shell");
   mk_syscall (text "__cmd_ps") (text "List threads in the system.");
   mk_syscall (text "__cmd_list_mem") (text "memory"); mk_syscall (text "__cmd_list_mutex") (text "mutexes")].
Definition demo_run (i : nat) (args : list (list Z)) : Z := 100 * Z.of_nat i + Z.of_nat (length args).

Lemma demo_table_ok : table_ok demo_table.
Proof. unfold table_ok. plain. Qed.

(** The line of the shell: [t] and zeros. *)
Definition line_of (t : list Z) : mem := t ++ replicate (81 - length t) 0.

Lemma line_cstring t : nozero t -> (length t <= 80)%nat -> cstring (line_of t) 0 t.
Proof.
  intros Ht Hl. split; [|done]. unfold at_, line_of. rewrite drop_0. replace (81 - length t)%nat with (S (80 - length t)) by lia.
  change (replicate (S (80 - length t)) 0) with ([0] ++ replicate (80 - length t) 0). by rewrite app_assoc, take_app_length.
Qed.

Lemma msh_exec_spec_witness :
  exists s', msh_exec demo_table demo_run 0 7 (mk_msh (line_of (text "lst mem")) [] []) = Some (-1, s') /\
    console s' = text "lst: command not found." ++ nl.
Proof.
  destruct (proj1 (wp_Some _ _ _) (msh_exec_spec demo_table demo_run demo_table_ok 0 (text "lst mem")
    (mk_msh (line_of (text "lst mem")) [] []) ltac:(apply line_cstring; [plain|vm_compute; lia]) ltac:(reflexivity)))
    as (r & s' & E & m' & _ & P).
  injection P as -> ->. eexists. split; [exact E|]. vm_compute. reflexivity.
Defined.

Lemma msh_arguments_witness :
  let line := write_args [text "ps"; text "two words"; []; text "-m"] in
  exists s', msh_exec demo_table demo_run 0 (Z.of_nat (length line)) (mk_msh (line_of line) [] []) = Some (104, s') /\
    calls s' = [(1%nat, [text "ps"; text "two words"; []; text "-m"])].
Proof.
  destruct (proj1 (wp_Some _ _ _) (msh_arguments demo_table demo_run 0 (text "ps") [text "two words"; []; text "-m"] 1
    (mk_msh (line_of (write_args [text "ps"; text "two words"; []; text "-m"])) [] []) demo_table_ok
    ltac:(reflexivity) ltac:(reflexivity)
    ltac:(unfold arg_ok; plain)
    ltac:(simpl; lia) ltac:(apply line_cstring; [plain|vm_compute; lia]) ltac:(reflexivity)))
    as (r & s' & E & -> & H & _).
  exists s'. split; [exact E|exact H].
Defined.

Lemma msh_auto_complete_spec_witness :
  exists s', msh_auto_complete demo_table 0 (mk_msh (line_of (text "li")) [] []) = Some (tt, s') /\
    buf s' = line_of (text "list_m") /\ console s' = text "list_mem" ++ nl ++ text "list_mutex" ++ nl.
Proof.
  destruct (proj1 (wp_Some _ _ _) (msh_auto_complete_spec demo_table 0 (text "li") (mk_msh (line_of (text "li")) [] [])
    demo_table_ok ltac:(apply line_cstring; [plain|vm_compute; lia]) ltac:(done)
    ltac:(apply Forall_forall; plain)))
    as ([] & s' & E & H).
  exists s'. split; [exact E|]. clear H. vm_compute in E. injection E as <-. split; vm_compute; reflexivity.
Defined.

(** Ten arguments and a blank behind them: nothing is missing, but the
    shell reports too many arguments. *)
Example msh_ten_arguments :
  let args := text "ps" :: ((fun i => [48 + i]) <$> [1; 2; 3; 4; 5; 6; 7; 8; 9]) in
  exec_spec demo_table demo_run (text "ps 1 2 3 4 5 6 7 8 9 ") =
    (110, text "Too many args ! We only Use:" ++ nl ++ args_text args ++ nl, [(1%nat, args)]).
Proof. vm_compute. reflexivity. Qed.

End Msh.
