(* ===== verification/Shell.v ===== *)
(** * The line editor of the shell

    Model of [components/finsh/shell.c] in the configuration of src/rtconfig.h
    ([FINSH_USING_MSH_ONLY], history, no authentication): the loop of
    [finsh_thread_entry] with its cursor keys, the history, completion and the
    prompt.  One round of the loop is [shell_key], with the character
    [finsh_getchar] returned; the line is [buf] of [sh_msh], the 81 bytes of
    [shell->line].

    [rt_memmove] is the function of file KMem; [memcpy], [memcmp], [memset]
    and [strlen] are those of the C library. *)
From stdpp Require Import base list.
From Stdlib Require Import ZArith Lia.
From Stdlib Require String.
From S2P Require Import Prelude KMem Printf SmallMem Alloc Msh.

Module Shell.
Import KMem Printf Msh String.StringSyntax.

Definition FINSH_CMD_SIZE : Z := 80.
Definition FINSH_HISTORY_LINES : Z := 5.

Inductive input_stat := WAIT_NORMAL | WAIT_SPEC_KEY | WAIT_FUNC_KEY.

Record finsh_shell := mk_shell {
  sh_msh : msh_st;                      (* line, console, commands called *)
  stat : input_stat;
  echo_mode : bool;
  prompt_mode : bool;
  current_history : Z;                  (* rt_uint16_t *)
  history_count : Z;                    (* rt_uint16_t *)
  cmd_history : list (list Z);
  line_position : Z;                    (* rt_uint16_t *)
  line_curpos : Z;                      (* rt_uint16_t *)
  finsh_prompt_custom : option (Z * list Z)
}.
Definition set_msh v s := mk_shell v (stat s) (echo_mode s) (prompt_mode s) (current_history s) (history_count s)
  (cmd_history s) (line_position s) (line_curpos s) (finsh_prompt_custom s).
Definition set_stat v s := mk_shell (sh_msh s) v (echo_mode s) (prompt_mode s) (current_history s) (history_count s)
  (cmd_history s) (line_position s) (line_curpos s) (finsh_prompt_custom s).
Definition set_echo_mode v s := mk_shell (sh_msh s) (stat s) v (prompt_mode s) (current_history s) (history_count s)
  (cmd_history s) (line_position s) (line_curpos s) (finsh_prompt_custom s).
Definition set_prompt_mode v s := mk_shell (sh_msh s) (stat s) (echo_mode s) v (current_history s) (history_count s)
  (cmd_history s) (line_position s) (line_curpos s) (finsh_prompt_custom s).
Definition set_history cur n rows s := mk_shell (sh_msh s) (stat s) (echo_mode s) (prompt_mode s) cur n
  rows (line_position s) (line_curpos s) (finsh_prompt_custom s).
Definition set_current cur s := set_history cur (history_count s) (cmd_history s) s.
Definition set_pos pos cur s := mk_shell (sh_msh s) (stat s) (echo_mode s) (prompt_mode s) (current_history s) (history_count s)
  (cmd_history s) pos cur (finsh_prompt_custom s).
Definition set_prompt_custom v s := mk_shell (sh_msh s) (stat s) (echo_mode s) (prompt_mode s) (current_history s)
  (history_count s) (cmd_history s) (line_position s) (line_curpos s) v.

Definition in_msh {A} (m : M msh_st A) : M finsh_shell A := zoom sh_msh set_msh m.
Definition in_line {A} (m : M mem A) : M finsh_shell A := in_msh (in_buf m).
Definition print (fmt : list Z) (args : list arg) : M finsh_shell unit := in_msh (kprintf fmt args).

(** [rt_kprintf(fmt)], [n] times. *)
Fixpoint print_times (n : nat) (fmt : list Z) : M finsh_shell unit :=
  match n with O => mret tt | S n => print fmt [];; print_times n fmt end.

Definition finsh_set_echo (echo : Z) : M finsh_shell unit := modify (set_echo_mode (Z.odd (u8 echo))).
Definition finsh_get_echo : M finsh_shell Z := b ← gets echo_mode; mret (Z.b2z b).
Definition finsh_set_prompt_mode (mode : Z) : M finsh_shell unit := modify (set_prompt_mode (Z.odd mode)).
Definition finsh_get_prompt_mode : M finsh_shell Z := b ← gets prompt_mode; mret (Z.b2z b).

(** [finsh_prompt] has 257 bytes, the last of which stays 0. *)
Definition finsh_get_prompt : M finsh_shell (list Z) :=
  mode ← gets prompt_mode;
  if negb mode then mret []
  else
    custom ← gets finsh_prompt_custom;
    match custom with
    | Some (_, p) => mret (take 256 p)
    | None => mret (text "msh " ++ text ">")
    end.

Section Prompt.
Context {A : Type} {AA : Alloc.Allocator A}.

(** The prompt is copied into a block of the heap; its address comes with it. *)
Definition finsh_set_prompt (prompt : option (list Z)) : M (A * finsh_shell) Z :=
  custom ← gets (fun s => finsh_prompt_custom (snd s));
  match custom with
  | Some (p, _) =>
      zoom fst (fun h s => (h, snd s)) (Alloc.rt_free p);;
      modify (fun s => (fst s, set_prompt_custom None (snd s)))
  | None => mret tt
  end;;
  match prompt with
  | Some t =>
      p ← zoom fst (fun h s => (h, snd s)) (Alloc.rt_malloc (u32 (Z.of_nat (length t) + 1)));
      if p =? 0 then mret tt else modify (fun s => (fst s, set_prompt_custom (Some (p, t)) (snd s)))
  | None => mret tt
  end;;
  mret 0.

End Prompt.

(** ** History *)

Definition get_row (i : Z) : M finsh_shell (list Z) := h ← gets cmd_history; deref (if i <? 0 then None else h !! Z.to_nat i).

(** [memcpy(&cmd_history[index][0], &cmd_history[index + 1][0], FINSH_CMD_SIZE)] *)
Fixpoint shift_loop (n index : nat) (h : list (list Z)) : option (list (list Z)) :=
  match n with
  | O => Some h
  | S n => r ← h !! S index; shift_loop n (S index) (<[index := r]> h)
  end.

(** A row with the beginning of the line in it. *)
Definition new_row : M finsh_shell (list Z) :=
  line ← in_line (gets id);
  pos ← gets line_position;
  deref (memcpy (replicate (Z.to_nat FINSH_CMD_SIZE) 0) 0 line 0 pos).

(** [memcmp(&cmd_history[i], line, FINSH_CMD_SIZE) != 0] *)
Definition differs (i : Z) : M finsh_shell bool :=
  row ← get_row i;
  line ← in_line (gets id);
  l ← deref (buf_read line 0 FINSH_CMD_SIZE);
  mret (bool_decide (row <> l)).

Definition shell_push_history : M finsh_shell unit :=
  pos ← gets line_position;
  when (negb (pos =? 0))
    (count ← gets history_count;
     if FINSH_HISTORY_LINES <=? count then
       d ← differs (FINSH_HISTORY_LINES - 1);
       when d
         (h ← gets cmd_history;
          h ← deref (shift_loop 4 0 h);
          row ← new_row;
          cur ← gets current_history;
          modify (set_history cur FINSH_HISTORY_LINES (<[4%nat := row]> h)))
     else
       d ← (if count =? 0 then mret true else differs (count - 1));
       when d
         (row ← new_row;
          h ← gets cmd_history;
          modify (set_history count (u16 (count + 1)) (<[Z.to_nat count := row]> h))));;
  count ← gets history_count;
  modify (set_current count).

(** [rt_kprintf("%s%s", FINSH_PROMPT, line)] *)
Definition print_prompt_line : M finsh_shell unit :=
  p ← finsh_get_prompt;
  line ← in_line (string_at 0);
  print (text "%s%s") [AStr (Some p); AStr (Some line)].

Definition shell_handle_history : M finsh_shell unit :=
  print [27; 91; 50; 75; 13] [];;
  print_prompt_line.

(** [line_curpos = line_position = strlen(line)] *)
Definition line_to_end : M finsh_shell unit :=
  line ← in_line (string_at 0);
  let n := u16 (Z.of_nat (length line)) in modify (set_pos n n).

Definition load_history : M finsh_shell unit :=
  cur ← gets current_history;
  row ← get_row cur;
  line ← in_line (gets id);
  line ← deref (memcpy line 0 row 0 FINSH_CMD_SIZE);
  in_line (modify (fun _ => line));;
  line_to_end;;
  shell_handle_history.

(** ** Keys *)

Section Keys.
Context (table : list finsh_syscall) (run : nat -> list (list Z) -> Z).

Definition shell_auto_complete : M finsh_shell unit :=
  print nl [];;
  in_msh (msh_auto_complete table 0);;
  print_prompt_line.

Definition up_key : M finsh_shell unit :=
  cur ← gets current_history;
  if 0 <? cur then modify (set_current (cur - 1));; load_history
  else modify (set_current 0).

Definition down_key : M finsh_shell unit :=
  cur ← gets current_history;
  count ← gets history_count;
  if cur <? count - 1 then modify (set_current (cur + 1));; load_history
  else if negb (count =? 0) then modify (set_current (count - 1));; load_history
  else mret tt.

Definition left_key : M finsh_shell unit :=
  cur ← gets line_curpos;
  when (negb (cur =? 0))
    (print [8] [];; modify (fun s => set_pos (line_position s) (cur - 1) s)).

Definition right_key : M finsh_shell unit :=
  cur ← gets line_curpos;
  pos ← gets line_position;
  when (cur <? pos)
    (c ← in_line (load8 cur);
     print (text "%c") [AInt c];;
     modify (set_pos pos (u16 (cur + 1)))).

Definition tab_key : M finsh_shell unit :=
  cur ← gets line_curpos;
  print_times (Z.to_nat cur) [8];;
  shell_auto_complete;;
  line_to_end.

Definition backspace_key : M finsh_shell unit :=
  cur ← gets line_curpos;
  pos ← gets line_position;
  if cur =? 0 then mret tt
  else
    let pos := u16 (pos - 1) in
    let cur := u16 (cur - 1) in
    modify (set_pos pos cur);;
    if cur <? pos then
      in_line (rt_memmove cur (cur + 1) (pos - cur));;
      in_line (store8 pos 0);;
      rest ← in_line (string_at cur);
      print ([8] ++ text "%s  " ++ [8]) [AStr (Some rest)];;
      print_times (Z.to_nat (pos - cur + 1)) [8]
    else
      print [8; 32; 8] [];;
      in_line (store8 pos 0).

Definition enter_key : M finsh_shell unit :=
  shell_push_history;;
  echo ← gets echo_mode;
  when echo (print nl []);;
  pos ← gets line_position;
  in_msh (msh_exec table run 0 pos);;
  prompt ← finsh_get_prompt;
  print prompt [];;
  in_line (modify (fun line => replicate (length line) 0));;
  modify (set_pos 0 0).

Definition char_key (ch : Z) : M finsh_shell unit :=
  pos ← gets line_position;
  let pos := if FINSH_CMD_SIZE <=? pos then 0 else pos in
  cur ← gets line_curpos;
  echo ← gets echo_mode;
  (if cur <? pos then
     in_line (rt_memmove (cur + 1) cur (pos - cur));;
     in_line (store8 cur ch);;
     when echo (rest ← in_line (string_at cur); print (text "%s") [AStr (Some rest)]);;
     print_times (Z.to_nat (pos - cur)) [8]
   else
     in_line (store8 pos ch);;
     when echo (print (text "%c") [AInt ch]));;
  let pos := u16 (pos + 1) in
  modify (if FINSH_CMD_SIZE <=? pos then set_pos 0 0 else set_pos pos (u16 (cur + 1))).

(** A character that is not part of a cursor key. *)
Definition plain_key (ch : Z) : M finsh_shell unit :=
  if (ch =? 0) || (ch =? 0xff) then mret tt
  else if ch =? 9 then tab_key
  else if (ch =? 0x7f) || (ch =? 0x08) then backspace_key
  else if (ch =? 13) || (ch =? 10) then enter_key
  else char_key ch.

Definition shell_key (ch : Z) : M finsh_shell unit :=
  if ch <? 0 then mret tt
  else if ch =? 0x1b then modify (set_stat WAIT_SPEC_KEY)
  else
    st ← gets stat;
    match st with
    | WAIT_SPEC_KEY =>
        if ch =? 0x5b then modify (set_stat WAIT_FUNC_KEY)
        else modify (set_stat WAIT_NORMAL);; plain_key ch
    | WAIT_FUNC_KEY =>
        modify (set_stat WAIT_NORMAL);;
        if ch =? 0x41 then up_key
        else if ch =? 0x42 then down_key
        else if ch =? 0x44 then left_key
        else if ch =? 0x43 then right_key
        else plain_key ch
    | WAIT_NORMAL => plain_key ch
    end.

(** What [finsh_thread_entry] does in front of its loop, the device apart. *)
Definition shell_start : M finsh_shell unit :=
  modify (set_echo_mode true);;
  prompt ← finsh_get_prompt;
  print prompt [].

Fixpoint shell_keys (chs : list Z) : M finsh_shell unit :=
  match chs with [] => mret tt | c :: chs => shell_key c;; shell_keys chs end.

End Keys.

(** ** Printing *)

Lemma wp_in_msh {A} (m : M msh_st A) s (Q : A -> finsh_shell -> Prop) :
  wp m (sh_msh s) (fun a t => Q a (set_msh t s)) -> wp (in_msh m) s Q.
Proof. apply wp_zoom. Qed.
Lemma wp_in_line {A} (m : M mem A) s (Q : A -> finsh_shell -> Prop) :
  wp m (buf (sh_msh s)) (fun a b => Q a (set_msh (set_buf b (sh_msh s)) s)) -> wp (in_line m) s Q.
Proof. intros H. apply wp_in_msh, wp_in_buf. exact H. Qed.
Lemma set_msh_id s : set_msh (set_buf (buf (sh_msh s)) (sh_msh s)) s = s.
Proof. by destruct s as [[]]. Qed.

Definition say (t : list Z) (s : finsh_shell) : finsh_shell := set_msh (put_text t (sh_msh s)) s.
Lemma say_app t t' s : say t' (say t s) = say (t ++ t') s.
Proof. unfold say. by rewrite <- put_text_app. Qed.
Lemma say_nil s : say [] s = s.
Proof. destruct s as [[]]. unfold say, put_text. simpl. by rewrite app_nil_r. Qed.

Lemma wp_print fmt args t s (Q : unit -> finsh_shell -> Prop) :
  formatted fmt args = Some t -> Q tt (say (sent t) s) -> wp (print fmt args) s Q.
Proof. intros H HQ. apply wp_in_msh. by eapply wp_kprintf. Qed.

Lemma wp_print_0 l s (Q : unit -> finsh_shell -> Prop) :
  Forall (fun c => c <> 37) l -> Q tt (say (sent l) s) -> wp (print l []) s Q.
Proof. intros H. apply wp_print. by apply formatted_0. Qed.

Lemma formatted_2 x y : formatted (text "%s%s") [AStr (Some x); AStr (Some y)] = Some (x ++ y).
Proof.
  unfold formatted. change (text "%s%s") with (37 :: 115 :: 37 :: 115 :: []).
  change (length [37; 115; 37; 115]) with 4%nat. by rewrite !format_string, format_nil.
Qed.

Lemma formatted_c c : formatted (text "%c") [AInt c] = Some [u8 c].
Proof.
  unfold formatted. change (format_loop (length (text "%c")) (text "%c") [AInt c] ([] : list Z)) with
    ((('(f, a) ← (print_char (u8 c) (-1) 0;; mret ([] : list Z, [] : list arg)); format_loop 1 f a) : M (list Z) unit) []).
  unfold print_char. change (has 0 LEFT) with false. cbn [negb]. cbn iota. done.
Qed.

Lemma sent_short t : (length t < 255)%nat -> sent t = t.
Proof. intros H. unfold sent. by rewrite (proj2 (Z.ltb_lt _ _)) by lia. Qed.

Lemma wp_print_char c s (Q : unit -> finsh_shell -> Prop) :
  0 <= c < 256 -> Q tt (say [c] s) -> wp (print (text "%c") [AInt c]) s Q.
Proof.
  intros Hc HQ. eapply wp_print; [apply formatted_c|]. rewrite uwrap_small by c_lia. exact HQ.
Qed.

Lemma wp_print_times n c s (Q : unit -> finsh_shell -> Prop) :
  c <> 37 -> Q tt (say (replicate n c) s) -> wp (print_times n [c]) s Q.
Proof.
  intros Hc. revert s. induction n as [|n IH]; intros s HQ; cbn [print_times].
  - wp_step. by rewrite say_nil in HQ.
  - wp_step. apply wp_print_0; [by constructor|]. apply IH. rewrite sent_short by (simpl; lia).
    by rewrite say_app.
Qed.

Definition prompt_of (s : finsh_shell) : list Z :=
  if prompt_mode s then
    match finsh_prompt_custom s with Some (_, p) => take 256 p | None => text "msh >" end
  else [].
Lemma get_prompt_wp s (Q : list Z -> finsh_shell -> Prop) : Q (prompt_of s) s -> wp finsh_get_prompt s Q.
Proof.
  intros HQ. unfold finsh_get_prompt, prompt_of in *. wp_step. wp_step. destruct (prompt_mode s); simpl; [|by wp_step].
  wp_step. wp_step. destruct (finsh_prompt_custom s) as [[]|]; by wp_step.
Qed.

(** ** The editor: the reference

    The text in front of the cursor, last character first, and behind it; the
    commands entered before, oldest first, and the one the cursor keys show. *)
Record ed := mk_ed { front : list Z; behind : list Z; hist : list (list Z); shown : nat; keys : input_stat }.
Definition ed_line (e : ed) : list Z := rev (front e) ++ behind e.
Definition set_keys (k : input_stat) (e : ed) : ed := mk_ed (front e) (behind e) (hist e) (shown e) k.
Definition set_text (f b : list Z) (e : ed) : ed := mk_ed f b (hist e) (shown e) (keys e).

Definition remember (h : list (list Z)) (t : list Z) : list (list Z) :=
  if bool_decide (t = []) || bool_decide (last h = Some t) then h
  else (if (5 <=? length h)%nat then tail h else h) ++ [t].

Definition completed (table : list finsh_syscall) (p : list Z) : list Z :=
  match p, matching p (commands table) with
  | [], _ | _, [] => p
  | _, x :: l => foldl common_prefix x l
  end.

Section Reference.
Context (table : list finsh_syscall) (run : nat -> list (list Z) -> Z) (echo : bool) (prompt : list Z).
Abbreviation step := (option (ed * list Z * list (nat * list (list Z)))).

Definition quiet (e : ed) : step := Some (e, [], []).
Definition backs (n : nat) : list Z := replicate n 8.

Definition ed_recall (e : ed) (i : nat) : step :=
  t ← hist e !! i;
  Some (mk_ed (rev t) [] (hist e) i (keys e), [27; 91; 50; 75; 13] ++ sent (prompt ++ t), []).

Definition ed_up (e : ed) : step := match shown e with O => quiet e | S i => ed_recall e i end.
Definition ed_down (e : ed) : step :=
  if (S (shown e) <? length (hist e))%nat then ed_recall e (S (shown e))
  else match length (hist e) with O => quiet e | S n => ed_recall e n end.
Definition ed_left (e : ed) : step :=
  match front e with [] => quiet e | c :: f => Some (set_text f (c :: behind e) e, [8], []) end.
Definition ed_right (e : ed) : step :=
  match behind e with [] => quiet e | c :: b => Some (set_text (c :: front e) b e, [c], []) end.
Definition ed_back (e : ed) : step :=
  match front e with
  | [] => quiet e
  | _ :: f =>
      Some (set_text f (behind e) e,
        match behind e with
        | [] => [8; 32; 8]
        | b => [8] ++ b ++ [32; 32; 8] ++ backs (S (length b))
        end, [])
  end.
Definition ed_tab (e : ed) : step :=
  let t := ed_line e in
  let t' := completed table t in
  Some (set_text (rev t') [] e,
    backs (length (front e)) ++ nl ++
    (match t with [] => help_text table | _ => names_text (matching t (commands table)) end) ++ sent (prompt ++ t'), []).
Definition ed_enter (e : ed) : step :=
  let t := ed_line e in
  let '(_, out, cl) := exec_spec table run t in
  let h := remember (hist e) t in
  Some (mk_ed [] [] h (length h) (keys e), (if echo then nl else []) ++ out ++ sent prompt, cl).

(** There is room for 79 characters; the reference says nothing about what
    comes after the 80th. *)
Definition ed_char (e : ed) (c : Z) : step :=
  if (80 <=? S (length (ed_line e)))%nat then None
  else Some (set_text (c :: front e) (behind e) e, (if echo then c :: behind e else []) ++ backs (length (behind e)), []).

Definition ed_plain (e : ed) (c : Z) : step :=
  if (c =? 0) || (c =? 0xff) then quiet e
  else if c =? 9 then ed_tab e
  else if (c =? 0x7f) || (c =? 0x08) then ed_back e
  else if (c =? 13) || (c =? 10) then ed_enter e
  else ed_char e c.

Definition ed_key (e : ed) (c : Z) : step :=
  if c =? 0x1b then quiet (set_keys WAIT_SPEC_KEY e)
  else
    match keys e with
    | WAIT_SPEC_KEY => if c =? 0x5b then quiet (set_keys WAIT_FUNC_KEY e) else ed_plain (set_keys WAIT_NORMAL e) c
    | WAIT_FUNC_KEY =>
        let e := set_keys WAIT_NORMAL e in
        if c =? 0x41 then ed_up e else if c =? 0x42 then ed_down e
        else if c =? 0x44 then ed_left e else if c =? 0x43 then ed_right e else ed_plain e c
    | WAIT_NORMAL => ed_plain e c
    end.

Fixpoint ed_keys (e : ed) (cs : list Z) : step :=
  match cs with
  | [] => quiet e
  | c :: cs =>
      '(e, out, cl) ← ed_key e c;
      '(e, out', cl') ← ed_keys e cs;
      Some (e, out ++ out', cl ++ cl')
  end.

End Reference.

(** ** The editor and the shell *)

Definition short (t : list Z) : Prop := Forall (fun c => 0 < c < 256) t /\ (length t < 80)%nat.
Definition row_of (t : list Z) : list Z := t ++ replicate (80 - length t) 0.

Record shell_rep (echo : bool) (prompt : list Z) (e : ed) (s : finsh_shell) : Prop := {
  sr_line : buf (sh_msh s) = line_of (ed_line e);
  sr_short : short (ed_line e);
  sr_pos : line_position s = Z.of_nat (length (ed_line e));
  sr_cur : line_curpos s = Z.of_nat (length (front e));
  sr_count : history_count s = Z.of_nat (length (hist e)) /\ (length (hist e) <= 5)%nat;
  sr_rows : length (cmd_history s) = 5%nat /\ forall i t, hist e !! i = Some t -> cmd_history s !! i = Some (row_of t);
  sr_hist : Forall short (hist e);
  sr_shown : current_history s = Z.of_nat (shown e) /\ (shown e <= length (hist e))%nat;
  sr_keys : stat s = keys e;
  sr_echo : echo_mode s = echo;
  sr_prompt : prompt_of s = prompt
}.

(** From [s] to [s'] this has been printed and called. *)
Definition wrote (s : finsh_shell) (out : list Z) (cl : list (nat * list (list Z))) (s' : finsh_shell) : Prop :=
  console (sh_msh s') = console (sh_msh s) ++ out /\ calls (sh_msh s') = calls (sh_msh s) ++ cl.

Lemma line_length t : (length t <= 81)%nat -> length (line_of t) = 81%nat.
Proof. intros H. unfold line_of. rewrite length_app, length_replicate. lia. Qed.
Lemma row_length t : (length t <= 80)%nat -> length (row_of t) = 80%nat.
Proof. intros H. unfold row_of. rewrite length_app, length_replicate. lia. Qed.

Lemma line_of_row t : (length t <= 80)%nat -> line_of t = row_of t ++ [0].
Proof.
  intros H. unfold line_of, row_of. rewrite <- app_assoc, <- replicate_cons_app. by replace (81 - length t)%nat with (S (80 - length t)) by lia.
Qed.

Lemma line_load x t : (length x <= 80)%nat -> (length t <= 80)%nat -> splice (line_of x) 0 (row_of t) = line_of t.
Proof.
  intros Hx Ht. rewrite (line_of_row x), (line_of_row t) by done. unfold splice. rewrite take_0, app_nil_l, row_length by done.
  rewrite Nat.add_0_l, <- (row_length x Hx) at 1. by rewrite drop_app_length.
Qed.

Lemma short_cstring t : short t -> cstring (line_of t) 0 t.
Proof. intros [H1 H2]. apply line_cstring; [|lia]. eapply Forall_impl; [exact H1|]. simpl. lia. Qed.

Section Steps.
Context (echo : bool) (prompt : list Z).

Definition implements (s : finsh_shell) (m : M finsh_shell unit) (r : option (ed * list Z * list (nat * list (list Z)))) : Prop :=
  match r with
  | Some (e', out, cl) => wp m s (fun _ s' => shell_rep echo prompt e' s' /\ wrote s out cl s')
  | None => True
  end.

Lemma wp_line_string t s (Q : list Z -> finsh_shell -> Prop) :
  buf (sh_msh s) = line_of t -> short t -> Q t s -> wp (in_line (string_at 0)) s Q.
Proof.
  intros Hb Ht HQ. apply wp_in_line. rewrite Hb. apply (string_at_wp _ 0 t); [by apply short_cstring|].
  rewrite <- Hb, set_msh_id. exact HQ.
Qed.

Lemma print_prompt_line_wp t s (Q : unit -> finsh_shell -> Prop) :
  buf (sh_msh s) = line_of t -> short t -> prompt_of s = prompt -> Q tt (say (sent (prompt ++ t)) s) ->
  wp print_prompt_line s Q.
Proof.
  intros Hb Ht Hp HQ. unfold print_prompt_line. wp_step. apply get_prompt_wp. wp_step.
  eapply wp_line_string; [exact Hb|exact Ht|]. eapply wp_print; [apply formatted_2|]. by rewrite Hp.
Qed.

Lemma line_to_end_wp t s (Q : unit -> finsh_shell -> Prop) :
  buf (sh_msh s) = line_of t -> short t ->
  Q tt (set_pos (Z.of_nat (length t)) (Z.of_nat (length t)) s) -> wp line_to_end s Q.
Proof.
  intros Hb Ht HQ. unfold line_to_end. wp_step. eapply wp_line_string; [exact Hb|exact Ht|].
  destruct Ht as [_ Ht]. cbv zeta. wp_step. by rewrite uwrap_small by c_lia.
Qed.

Lemma recall_implements e s i :
  shell_rep echo prompt e s -> (i < length (hist e))%nat ->
  implements s (modify (set_current (Z.of_nat i));; load_history) (ed_recall prompt e i).
Proof.
  intros [H1 H2 H3 H4 H5 [H6 H6'] H7 H8 H9 H10 H11] Hi. unfold ed_recall.
  destruct (lookup_lt_is_Some_2 (hist e) i Hi) as [t Ht]. rewrite Ht. simpl.
  assert (short t) as Hst by (eapply Forall_lookup_1; [exact H7|exact Ht]). pose proof Hst as [_ Hlen]. pose proof H2 as [_ Hlen2].
  wp_step. wp_step. unfold load_history. wp_step. wp_step. wp_step. unfold get_row. wp_step. wp_step.
  simpl. rewrite (proj2 (Z.ltb_ge _ 0)), Nat2Z.id by lia. eapply wp_deref; [by apply H6'|].
  wp_step. apply wp_in_line. wp_step. unfold id. simpl. rewrite H1. wp_step.
  eapply wp_deref.
  { apply memcpy_Some; unfold FINSH_CMD_SIZE; rewrite ?line_length, ?row_length by lia; lia. }
  change (Z.to_nat 0) with 0%nat. rewrite drop_0. rewrite take_ge by (rewrite row_length; unfold FINSH_CMD_SIZE; lia).
  rewrite (line_load (ed_line e) t) by lia.
  wp_step. apply wp_in_line. wp_step. simpl. wp_step. eapply line_to_end_wp; [done|exact Hst|].
  unfold shell_handle_history. wp_step. apply wp_print_0; [plain|]. apply (print_prompt_line_wp t); [done|done|exact H11|].
  split.
  - split; simpl; rewrite ?length_rev; try done; unfold ed_line; simpl; rewrite ?rev_involutive, ?app_nil_r; try done.
    split; [done|lia].
  - split; simpl; [by rewrite <- app_assoc|by rewrite app_nil_r].
Qed.

Lemma quiet_implements e s m :
  wp m s (fun _ s' => s' = s) -> shell_rep echo prompt e s -> implements s m (quiet e).
Proof.
  intros Hm He. unfold quiet, implements. eapply wp_mono; [exact Hm|]. intros [] s' ->.
  split; [done|]. by split; rewrite app_nil_r.
Qed.

Lemma implements_wp s m m' r :
  (forall Q, wp m' s Q -> wp m s Q) -> implements s m' r -> implements s m r.
Proof. intros H. unfold implements. destruct r as [[[e out] cl]|]; [apply H|done]. Qed.

Lemma up_implements e s : shell_rep echo prompt e s -> implements s up_key (ed_up prompt e).
Proof.
  intros Hr. pose proof (sr_shown _ _ _ _ Hr) as [Hs Hl]. unfold ed_up. destruct (shown e) as [|i] eqn:E.
  - apply quiet_implements; [|done]. unfold up_key. wp_steps. rewrite Hs. simpl. wp_step. unfold set_current, set_history.
    change 0 with (Z.of_nat 0). rewrite <- Hs. by destruct s.
  - eapply implements_wp; [|by apply recall_implements; [exact Hr|lia]]. intros Q H. unfold up_key. wp_steps.
    rewrite Hs, (proj2 (Z.ltb_lt _ _)) by lia. by replace (Z.of_nat (S i) - 1) with (Z.of_nat i) by lia.
Qed.

Lemma down_implements e s : shell_rep echo prompt e s -> implements s down_key (ed_down prompt e).
Proof.
  intros Hr. pose proof (sr_shown _ _ _ _ Hr) as [Hs Hl]. pose proof (sr_count _ _ _ _ Hr) as [Hc _]. unfold ed_down.
  destruct (Nat.ltb_spec (S (shown e)) (length (hist e))) as [Hlt|Hge].
  - eapply implements_wp; [|by apply recall_implements; [exact Hr|exact Hlt]]. intros Q H. unfold down_key. wp_steps.
    rewrite Hs, Hc, (proj2 (Z.ltb_lt _ _)) by lia. by replace (Z.of_nat (shown e) + 1) with (Z.of_nat (S (shown e))) by lia.
  - destruct (length (hist e)) as [|n] eqn:En.
    + apply quiet_implements; [|done]. unfold down_key. wp_steps. rewrite Hs, Hc, (proj2 (Z.ltb_ge _ _)) by lia. simpl. by wp_step.
    + eapply implements_wp; [|apply (recall_implements e s n); [exact Hr|lia]]. intros Q H. unfold down_key. wp_steps.
      rewrite Hs, Hc, (proj2 (Z.ltb_ge _ _)), (proj2 (Z.eqb_neq _ 0)) by lia.
      by replace (Z.of_nat (S n) - 1) with (Z.of_nat n) by lia.
Qed.

(** The same state with other positions. *)
Lemma rep_move e s f b :
  shell_rep echo prompt e s -> rev f ++ b = ed_line e ->
  shell_rep echo prompt (set_text f b e) (set_pos (Z.of_nat (length (ed_line e))) (Z.of_nat (length f)) s).
Proof.
  intros [H1 H2 H3 H4 H5 H6 H7 H8 H9 H10 H11] E. unfold ed_line in *. split; simpl; try done; unfold ed_line; simpl; by rewrite E.
Qed.

Lemma rep_say e s t : shell_rep echo prompt e s -> shell_rep echo prompt e (say t s).
Proof. by intros []. Qed.

Lemma left_implements e s : shell_rep echo prompt e s -> implements s left_key (ed_left e).
Proof.
  intros Hr. pose proof (sr_cur _ _ _ _ Hr) as Hc. pose proof (sr_pos _ _ _ _ Hr) as Hp. unfold ed_left. destruct (front e) as [|c f] eqn:Ef.
  - apply quiet_implements; [|done]. unfold left_key. wp_steps. rewrite Hc. simpl. by wp_steps.
  - unfold implements, left_key. wp_steps. rewrite Hc. apply wp_when; [|by rewrite (proj2 (Z.eqb_neq _ _)) by (simpl; lia)].
    intros _. wp_step. apply wp_print_0; [plain|]. wp_step. split; [|by split; simpl; rewrite ?app_nil_r].
    change (line_position (say (sent [8]) s)) with (line_position s). rewrite Hp.
    replace (Z.of_nat (length (c :: f)) - 1) with (Z.of_nat (length f)) by (simpl; lia).
    apply rep_move; [by apply rep_say|]. unfold ed_line. rewrite Ef. simpl. by rewrite <- app_assoc.
Qed.

Lemma line_lookup t i : (i < length t)%nat -> line_of t !! i = t !! i.
Proof. intros H. unfold line_of. by rewrite lookup_app_l. Qed.

Lemma right_implements e s : shell_rep echo prompt e s -> implements s right_key (ed_right e).
Proof.
  intros Hr. pose proof (sr_short _ _ _ _ Hr) as [Hby _]. pose proof (sr_cur _ _ _ _ Hr) as Hc. pose proof (sr_pos _ _ _ _ Hr) as Hp. unfold ed_right.
  pose proof Hp as Hp'. unfold ed_line in Hp'. rewrite length_app, length_rev in Hp'. destruct (behind e) as [|c b] eqn:Eb.
  - apply quiet_implements; [|done]. unfold right_key. wp_steps. rewrite Hc, Hp'. simpl.
    rewrite (proj2 (Z.ltb_ge _ _)) by lia. by wp_steps.
  - unfold implements, right_key. wp_steps. rewrite Hc. apply wp_when; [|by rewrite Hp', (proj2 (Z.ltb_lt _ _)) by (simpl; lia)].
    intros _. wp_step. apply wp_in_line. rewrite (sr_line _ _ _ _ Hr).
    assert (ed_line e !! length (front e) = Some c) as Hl.
    { unfold ed_line. rewrite Eb, lookup_app_r, length_rev, Nat.sub_diag by (rewrite length_rev; lia). done. }
    pose proof (lookup_lt_Some _ _ _ Hl) as Hlt.
    apply (wp_load_at _ c); [by rewrite line_lookup|]. rewrite <- (sr_line _ _ _ _ Hr), set_msh_id.
    wp_step. apply wp_print_char; [eapply Forall_lookup_1 in Hl; [|exact Hby]; simpl in Hl; lia|]. wp_step.
    split; [|by split; simpl; rewrite ?app_nil_r]. rewrite Hp. destruct (sr_short _ _ _ _ Hr) as [_ Hsh].
    rewrite uwrap_small by c_lia. replace (Z.of_nat (length (front e)) + 1) with (Z.of_nat (length (c :: front e))) by (simpl; lia).
    apply rep_move; [by apply rep_say|]. unfold ed_line. rewrite Eb. simpl. by rewrite <- app_assoc.
Qed.

Lemma insert_middle {A} (l r : list A) x z : <[length l := x]> (l ++ z :: r) = l ++ x :: r.
Proof. by rewrite insert_app_r_alt, Nat.sub_diag by done. Qed.

Lemma line_delete l c b :
  (length (l ++ c :: b) <= 80)%nat ->
  <[(length l + length b)%nat := 0]> (copied (line_of (l ++ c :: b)) (length l) (S (length l)) (length b)) = line_of (l ++ b).
Proof.
  rewrite length_app. simpl. intros H. unfold copied, line_of. set (z := replicate (81 - length (l ++ c :: b)) 0).
  assert (drop (S (length l)) ((l ++ c :: b) ++ z) = b ++ z) as ->.
  { rewrite <- app_assoc. change (S (length l)) with (1 + length l)%nat. rewrite Nat.add_comm, <- drop_drop, drop_app_length. done. }
  rewrite take_app_length. unfold splice. rewrite <- app_assoc, take_app_length.
  rewrite <- drop_drop, drop_app_length. simpl.
  destruct (drop (length b) (c :: b)) as [|y [|y' r]] eqn:Ed;
    [apply (f_equal length) in Ed; rewrite length_drop in Ed; simpl in Ed; lia| |
     apply (f_equal length) in Ed; rewrite length_drop in Ed; simpl in Ed; lia].
  change (c :: b ++ z) with ((c :: b) ++ z). rewrite drop_app_le, Ed by (simpl; lia).
  rewrite app_assoc, <- (length_app l b). simpl. rewrite insert_middle. f_equal. unfold z.
  rewrite !length_app. simpl. by replace (81 - (length l + length b))%nat with (S (81 - (length l + S (length b)))) by lia.
Qed.

Lemma line_chop l c : (length l < 80)%nat -> <[length l := 0]> (line_of (l ++ [c])) = line_of l.
Proof.
  intros H. unfold line_of. rewrite <- app_assoc. simpl. rewrite insert_middle, length_app. f_equal. simpl.
  by replace (81 - length l)%nat with (S (81 - (length l + 1))) by lia.
Qed.

Lemma line_insert l c b :
  (length (l ++ b) <= 79)%nat ->
  <[length l := c]> (copied (line_of (l ++ b)) (S (length l)) (length l) (length b)) = line_of (l ++ c :: b).
Proof.
  rewrite length_app. intros H. unfold copied, line_of. set (z := replicate (81 - length (l ++ b)) 0).
  rewrite <- app_assoc, drop_app_length, take_app_length. unfold splice.
  assert (exists y r, b ++ z = y :: r) as (y & r & E).
  { destruct b; [|by eexists _, _]. unfold z. rewrite app_nil_r. destruct (81 - length l)%nat eqn:E; [simpl in H; lia|]. by eexists _, _. }
  assert (take (S (length l)) (l ++ b ++ z) = l ++ [y]) as ->.
  { rewrite E. replace (S (length l)) with (length l + 1)%nat by lia. by rewrite take_app_add. }
  assert (drop (S (length l) + length b) (l ++ b ++ z) = replicate (81 - length (l ++ c :: b)) 0) as ->.
  { replace (S (length l) + length b)%nat with (length l + (length b + 1))%nat by lia.
    rewrite <- drop_drop, drop_app_length, <- drop_drop, drop_app_length. unfold z. rewrite drop_replicate, !length_app. f_equal. simpl. lia. }
  rewrite <- app_assoc. cbn [app]. rewrite insert_middle. by rewrite <- app_assoc.
Qed.

(** The positions of a text that may shrink to nothing. *)
Lemma rep_edit e s f b out :
  shell_rep echo prompt e s -> short (rev f ++ b) ->
  shell_rep echo prompt (set_text f b e)
    (set_pos (Z.of_nat (length (rev f ++ b))) (Z.of_nat (length f)) (set_msh (mk_msh (line_of (rev f ++ b)) out (calls (sh_msh s))) s)).
Proof. intros [H1 H2 H3 H4 H5 H6 H7 H8 H9 H10 H11] E. by split. Qed.

Lemma short_sub l c b : short (l ++ c :: b) -> short (l ++ b).
Proof.
  intros [H1 H2]. rewrite Forall_app, Forall_cons in H1. rewrite length_app in H2. simpl in H2. split; [|rewrite length_app; lia].
  apply Forall_app. tauto.
Qed.

Lemma wp_print_1 l x l2 s (Q : unit -> finsh_shell -> Prop) :
  Forall (fun c => c <> 37) l -> Forall (fun c => c <> 37) l2 ->
  Q tt (say (sent (l ++ x ++ l2)) s) -> wp (print (l ++ [37; 115] ++ l2) [AStr (Some x)]) s Q.
Proof. intros H1 H2. apply wp_print. by apply formatted_1. Qed.

Lemma rest_cstring l b : short (l ++ b) -> cstring (line_of (l ++ b)) (length l) b.
Proof.
  intros Hs. destruct (short_cstring _ Hs) as [H1 H2]. apply Forall_app in H2 as [_ H2]. split; [|done].
  rewrite <- app_assoc in H1. by apply at_app in H1 as [_ H1].
Qed.

Lemma delete_wp l c b k s (Q : unit -> finsh_shell -> Prop) :
  buf (sh_msh s) = line_of (l ++ c :: b) -> (length (l ++ c :: b) <= 80)%nat ->
  wp k (set_msh (set_buf (line_of (l ++ b)) (sh_msh s)) s) Q ->
  wp (in_line (rt_memmove (Z.of_nat (length l)) (Z.of_nat (S (length l))) (Z.of_nat (length b)));;
      in_line (store8 (Z.of_nat (length l + length b)) 0);; k) s Q.
Proof.
  intros Hb Hl HQ. wp_step. apply wp_in_line. pose proof (line_length (l ++ c :: b) ltac:(lia)) as H81.
  pose proof (line_delete l c b Hl) as Hdel. rewrite length_app in Hl. simpl in Hl.
  rewrite Hb. eapply wp_mono; [apply rt_memmove_wp; rewrite H81; lia|]. intros [] m ->. wp_step.
  apply wp_in_line. simpl. apply wp_store_at; [rewrite (length_copied _ _ _ _ (length b)); rewrite ?H81; lia|].
  by rewrite Hdel.
Qed.

Lemma back_implements e s : shell_rep echo prompt e s -> implements s backspace_key (ed_back e).
Proof.
  intros Hr. pose proof (sr_cur _ _ _ _ Hr) as Hc. pose proof (sr_pos _ _ _ _ Hr) as Hp. unfold ed_back.
  pose proof (sr_short _ _ _ _ Hr) as Hsh. pose proof (sr_line _ _ _ _ Hr) as Hln. destruct (front e) as [|c f] eqn:Ef.
  { apply quiet_implements; [|done]. unfold backspace_key. wp_steps. rewrite Hc. simpl. by wp_step. }
  set (b := behind e) in *.
  assert (ed_line e = rev f ++ c :: b) as El by (unfold ed_line; rewrite Ef; simpl; by rewrite <- app_assoc).
  rewrite El in Hsh, Hln, Hp. pose proof (short_sub _ _ _ Hsh) as Hsh'. pose proof Hsh as [_ Hlen].
  pose proof (delete_wp (rev f) c b) as Hdel. pose proof (rep_edit e s f b) as Hrep. pose proof (rest_cstring _ _ Hsh') as Hcs.
  rewrite !length_app, length_rev in *. simpl in Hp, Hlen, Hdel.
  unfold implements, backspace_key. wp_steps. rewrite Hc, (proj2 (Z.eqb_neq _ 0)) by (simpl; lia). cbv zeta. wp_steps.
  rewrite Hp. replace (u16 (Z.of_nat (length f + S (length b)) - 1)) with (Z.of_nat (length f + length b)) by (rewrite uwrap_small by c_lia; lia).
  replace (u16 (Z.of_nat (length (c :: f)) - 1)) with (Z.of_nat (length f)) by (simpl length; rewrite uwrap_small by c_lia; lia).
  destruct b as [|d b'] eqn:Eb.
  - rewrite (proj2 (Z.ltb_ge _ _)) by (simpl; lia). wp_step. apply wp_print_0; [plain|].
    apply wp_in_line. simpl. rewrite Hln. apply wp_store_at; [rewrite line_length; rewrite ?length_app, ?length_rev; simpl; lia|].
    rewrite Nat.add_0_r. rewrite <- (length_rev f), line_chop by (rewrite length_rev; lia).
    rewrite length_rev. rewrite !app_nil_r, Nat.add_0_r in Hrep. rewrite app_nil_r in Hsh'. split; [by apply Hrep|]. by split; simpl; rewrite ?app_nil_r.
  - rewrite <- Eb in *. rewrite (proj2 (Z.ltb_lt _ _)) by (rewrite Eb; simpl; lia).
    replace (Z.of_nat (length f) + 1) with (Z.of_nat (S (length f))) by lia.
    replace (Z.of_nat (length f + length b) - Z.of_nat (length f)) with (Z.of_nat (length b)) by lia.
    apply Hdel; [exact Hln|lia|].
    wp_step. apply wp_in_line. eapply string_at_wp; [exact Hcs|]. simpl. wp_step.
    eapply (wp_print_1 [8] b [32; 32; 8]); [plain|plain|]. apply wp_print_times; [done|]. rewrite say_app.
    split; [by apply Hrep|]. split; simpl; [|by rewrite app_nil_r]. f_equal.
    rewrite sent_short by (simpl; rewrite length_app; simpl; lia). simpl. rewrite <- app_assoc. simpl. unfold backs. do 6 f_equal. lia.
Qed.

Lemma insert_wp l c b k s (Q : unit -> finsh_shell -> Prop) :
  buf (sh_msh s) = line_of (l ++ b) -> (length (l ++ b) <= 79)%nat ->
  wp k (set_msh (set_buf (line_of (l ++ c :: b)) (sh_msh s)) s) Q ->
  wp (in_line (rt_memmove (Z.of_nat (S (length l))) (Z.of_nat (length l)) (Z.of_nat (length b)));;
      in_line (store8 (Z.of_nat (length l)) c);; k) s Q.
Proof.
  intros Hb Hl HQ. wp_step. apply wp_in_line. pose proof (line_length (l ++ b) ltac:(lia)) as H81.
  pose proof (line_insert l c b Hl) as Hins. rewrite length_app in Hl.
  rewrite Hb. eapply wp_mono; [apply rt_memmove_wp; rewrite H81; lia|]. intros [] m ->. wp_step.
  apply wp_in_line. simpl. apply wp_store_at; [rewrite (length_copied _ _ _ _ (length b)); rewrite ?H81; lia|].
  by rewrite Hins.
Qed.

Lemma short_insert l c b : short (l ++ b) -> 0 < c < 256 -> (S (length (l ++ b)) < 80)%nat -> short (l ++ c :: b).
Proof.
  intros [H1 H2] Hc Hl. rewrite Forall_app in H1. rewrite length_app in Hl. split; [|rewrite length_app; simpl; lia].
  apply Forall_app. rewrite Forall_cons. tauto.
Qed.

Lemma line_push l c : (length l < 80)%nat -> <[length l := c]> (line_of l) = line_of (l ++ [c]).
Proof.
  intros H. unfold line_of. replace (81 - length l)%nat with (S (81 - length (l ++ [c]))) by (rewrite length_app; simpl; lia).
  cbn [replicate]. rewrite insert_middle. by rewrite <- app_assoc.
Qed.

(** The positions after a character. *)
Lemma rep_char e s f b n out :
  shell_rep echo prompt e s -> short (rev f ++ b) -> n = length (rev f ++ b) ->
  shell_rep echo prompt (set_text f b e)
    ((if FINSH_CMD_SIZE <=? Z.of_nat n then set_pos 0 0 else set_pos (Z.of_nat n) (Z.of_nat (length f)))
      (set_msh (mk_msh (line_of (rev f ++ b)) out (calls (sh_msh s))) s)).
Proof.
  intros Hr Hs ->. pose proof Hs as [_ Hl]. rewrite (proj2 (Z.leb_gt _ _)) by (unfold FINSH_CMD_SIZE; lia). by apply rep_edit.
Qed.

Lemma char_implements e s c :
  0 < c < 256 -> shell_rep echo prompt e s -> implements s (char_key c) (ed_char echo e c).
Proof.
  intros Hc Hr. pose proof (sr_cur _ _ _ _ Hr) as Hcur. pose proof (sr_pos _ _ _ _ Hr) as Hp. unfold ed_char.
  pose proof (sr_short _ _ _ _ Hr) as Hsh. pose proof (sr_line _ _ _ _ Hr) as Hln. pose proof (sr_echo _ _ _ _ Hr) as Hech.
  destruct (Nat.leb_spec 80 (S (length (ed_line e)))) as [|Hroom]; [done|].
  set (f := front e) in *. set (b := behind e) in *. change (ed_line e) with (rev f ++ b) in *.
  pose proof (short_insert _ _ _ Hsh Hc Hroom) as Hsh'. pose proof (insert_wp (rev f) c b) as Hins.
  pose proof (rep_char e s (c :: f) b (S (length f + length b))) as Hrep. pose proof (rest_cstring _ _ Hsh') as Hcs.
  cbn [rev] in Hrep. rewrite <- (app_assoc (rev f) [c] b) in Hrep. cbn [app] in Hrep.
  rewrite !length_app, length_rev in *. cbn [length] in *.
  unfold implements, char_key. wp_steps. rewrite Hp, Hcur. rewrite (proj2 (Z.leb_gt FINSH_CMD_SIZE _)) by (unfold FINSH_CMD_SIZE; lia).
  wp_steps. rewrite Hech.
  replace (u16 (Z.of_nat (length f + length b) + 1)) with (Z.of_nat (S (length f + length b))) by (rewrite uwrap_small by c_lia; lia).
  replace (u16 (Z.of_nat (length f) + 1)) with (Z.of_nat (S (length f))) by (rewrite uwrap_small by c_lia; lia).
  replace (Z.of_nat (length f) + 1) with (Z.of_nat (S (length f))) by lia.
  replace (Z.of_nat (length f + length b) - Z.of_nat (length f)) with (Z.of_nat (length b)) by lia.
  destruct (Z.ltb_spec (Z.of_nat (length f)) (Z.of_nat (length f + length b))) as [Hlt|Hge].
  - apply Hins; [exact Hln|lia|]. wp_step. apply (wp_mono _ _ (fun _ s' => s' =
      set_msh (mk_msh (line_of (rev f ++ c :: b)) (console (sh_msh s) ++ if echo then c :: b else []) (calls (sh_msh s))) s)).
    { apply wp_when; intros ->; [|by rewrite app_nil_r]. wp_step. apply wp_in_line. eapply string_at_wp; [exact Hcs|]. simpl.
      eapply (wp_print_1 [] (c :: b) []); [plain|plain|]. rewrite !app_nil_l, app_nil_r.
      rewrite sent_short by (simpl; lia). done. }
    intros [] s1 ->. apply wp_print_times; [done|]. wp_step. rewrite Nat2Z.id. split; [by apply Hrep|].
    split; [|by destruct (_ <=? _); simpl; rewrite app_nil_r]. destruct (_ <=? _); simpl; by rewrite <- app_assoc.
  - assert (b = []) as Eb by (destruct b; [done|simpl in Hge; lia]). rewrite Eb in *. rewrite app_nil_r in *.
    wp_step. apply wp_in_line. simpl. rewrite Hln. rewrite Nat.add_0_r in *.
    apply wp_store_at; [rewrite line_length; rewrite ?length_rev; lia|].
    rewrite <- (length_rev f), line_push by (rewrite length_rev; lia).
    apply (wp_mono _ _ (fun _ s' => s' =
      set_msh (mk_msh (line_of (rev f ++ [c])) (console (sh_msh s) ++ if echo then [c] else []) (calls (sh_msh s))) s)).
    { apply wp_when; intros ->; [|by rewrite app_nil_r]. by apply wp_print_char; [lia|]. }
    intros [] s1 ->. wp_step. rewrite length_rev. split; [by apply Hrep; [done|done|simpl; lia]|].
    split; [|by destruct (_ <=? _); simpl; rewrite app_nil_r]. destruct (_ <=? _); simpl; by rewrite ?app_nil_r.
Qed.

(** ** Completion *)

Lemma longest_fold x l : longest_common (x :: l) (foldl common_prefix x l).
Proof.
  induction l as [|y l IH] using rev_ind.
  - split; [by constructor|]. intros p Hp. by apply Forall_cons in Hp as [].
  - rewrite foldl_app. by apply (longest_snoc (x :: l)).
Qed.

Lemma longest_unique l L L' : longest_common l L -> longest_common l L' -> L = L'.
Proof. intros [H1 H2] [H3 H4]. apply (anti_symm prefix); auto. Qed.

Lemma line_extend p r : (length (p ++ r) <= 80)%nat -> splice (line_of p) 0 (p ++ r) = line_of (p ++ r).
Proof.
  intros H. unfold splice. rewrite take_0. cbn [app]. unfold line_of. f_equal. rewrite Nat.add_0_l, length_app in *.
  rewrite <- drop_drop, drop_app_length, drop_replicate. f_equal. lia.
Qed.

Section Commands.
Context (table : list finsh_syscall) (run : nat -> list (list Z) -> Z).
Hypothesis (Htable : table_ok table) (Hnames : forall n, n ∈ commands table -> short n).

Lemma completed_short t : short t -> short (completed table t).
Proof.
  intros Ht. unfold completed. destruct t as [|c t]; [done|]. destruct (matching (c :: t) (commands table)) as [|x l] eqn:E; [done|].
  assert (x ∈ commands table) as Hx.
  { eapply list_elem_of_filter. unfold matching in E. rewrite E. by left. }
  destruct (longest_fold x l) as [[[r Hr] _]%Forall_cons _]. destruct (Hnames x Hx) as [H1 H2]. rewrite Hr in H1, H2.
  apply Forall_app in H1 as [H1 _]. rewrite length_app in H2. split; [done|lia].
Qed.

Lemma auto_complete_wp t s (Q : unit -> msh_st -> Prop) :
  buf s = line_of t -> short t ->
  Q tt (put_text (match t with [] => help_text table | _ => names_text (matching t (commands table)) end)
    (set_buf (line_of (completed table t)) s)) ->
  wp (msh_auto_complete table 0) s Q.
Proof.
  intros Hb Ht HQ. pose proof Ht as [Hby Hlen]. destruct t as [|c t].
  - unfold msh_auto_complete. wp_step. apply wp_in_buf. rewrite Hb. apply (wp_load_at 0 0); [done|]. rewrite <- Hb, set_buf_id.
    simpl. apply help_wp; [done|]. simpl in HQ. by rewrite <- Hb, set_buf_id in HQ.
  - eapply wp_mono; [apply (msh_auto_complete_spec table 0 (c :: t)); [done|rewrite Hb; by apply short_cstring|done|]|].
    + intros n Hn. destruct (Hnames n Hn). rewrite Hb, line_length; lia.
    + intros [] s' H. cbv zeta in H. pose proof (completed_short _ Ht) as [_ Hcl]. unfold completed in *.
      destruct (matching (c :: t) (commands table)) as [|x l] eqn:E.
      * subst s'. unfold put_text, names_text in HQ. simpl in HQ. by rewrite app_nil_r, <- Hb in HQ; destruct s.
      * destruct H as (L & HL & [r ->] & ->). rewrite (longest_unique _ _ _ (longest_fold x l) HL) in HQ, Hcl.
        rewrite Hb, line_extend by lia. exact HQ.
Qed.

Lemma tab_implements e s : shell_rep echo prompt e s -> implements s (tab_key table) (ed_tab table prompt e).
Proof.
  intros Hr. pose proof Hr as [H1 H2 H3 H4 H5 [H6 H6'] H7 H8 H9 H10 H11]. unfold implements, ed_tab. cbv zeta.
  pose proof (completed_short _ H2) as Hst. set (t := ed_line e) in *. set (t' := completed table t) in *.
  unfold tab_key, shell_auto_complete. wp_steps. rewrite H4, Nat2Z.id. apply wp_print_times; [done|]. wp_steps.
  apply wp_print_0; [plain|]. wp_steps. apply wp_in_msh. apply (auto_complete_wp t); [done|done|].
  apply (print_prompt_line_wp t'); [done|done|done|]. apply (line_to_end_wp t'); [done|done|].
  split.
  - split; simpl; rewrite ?length_rev; try done; unfold ed_line; simpl; by rewrite ?rev_involutive, ?app_nil_r.
  - split; simpl; [|by rewrite app_nil_r]. by rewrite <- !app_assoc.
Qed.


(** ** The history *)

Lemma zero_ended t t' x y : Forall (fun c => 0 < c < 256) t -> Forall (fun c => 0 < c < 256) t' ->
  t ++ 0 :: x = t' ++ 0 :: y -> t = t'.
Proof.
  intros Ht. revert t'. induction Ht as [|c t Hc Ht IH]; intros [|c' t'] Ht' E; simpl in E; try done.
  - injection E as <- _. apply Forall_cons in Ht' as [? _]. lia.
  - injection E as -> _. lia.
  - injection E as -> E. apply Forall_cons in Ht' as [_ Ht']. f_equal. by apply IH.
Qed.

Lemma row_inj t t' : short t -> short t' -> row_of t = row_of t' -> t = t'.
Proof.
  intros [H1 H2] [H3 H4]. unfold row_of. replace (80 - length t)%nat with (S (79 - length t)) by lia.
  replace (80 - length t')%nat with (S (79 - length t')) by lia. cbn [replicate]. by apply zero_ended.
Qed.

Lemma differs_wp i t u s (Q : bool -> finsh_shell -> Prop) :
  buf (sh_msh s) = line_of t -> cmd_history s !! i = Some (row_of u) -> short t -> short u ->
  Q (bool_decide (u <> t)) s -> wp (differs (Z.of_nat i)) s Q.
Proof.
  intros Hb Hi Ht Hu HQ. pose proof Ht as [_ Hl]. unfold differs, get_row. wp_steps. rewrite (proj2 (Z.ltb_ge _ 0)), Nat2Z.id by lia.
  eapply wp_deref; [exact Hi|]. wp_steps. apply wp_in_line. wp_steps. unfold id. rewrite set_msh_id, Hb.
  assert (buf_read (line_of t) 0 FINSH_CMD_SIZE = Some (row_of t)) as Hrd.
  { rewrite line_of_row by lia. rewrite buf_read_Some by (rewrite ?length_app, ?row_length; simpl; unfold FINSH_CMD_SIZE; lia).
    rewrite drop_0. change (Z.to_nat FINSH_CMD_SIZE) with 80%nat. by rewrite take_app_le, take_ge by (rewrite row_length; lia). }
  eapply wp_deref; [exact Hrd|]. wp_steps.
  rewrite (bool_decide_ext (row_of u <> row_of t) (u <> t)); [done|]. split; intros H E; apply H; [by f_equal|by apply row_inj].
Qed.

Lemma new_row_wp t s (Q : list Z -> finsh_shell -> Prop) :
  buf (sh_msh s) = line_of t -> line_position s = Z.of_nat (length t) -> short t -> Q (row_of t) s -> wp new_row s Q.
Proof.
  intros Hb Hp [_ Hl] HQ. unfold new_row. wp_steps. apply wp_in_line. wp_steps. rewrite set_msh_id. wp_steps. unfold id. rewrite Hb, Hp.
  eapply wp_deref; [|exact HQ]. rewrite memcpy_Some by (rewrite ?line_length, ?length_replicate; unfold FINSH_CMD_SIZE; lia).
  f_equal. change (Z.to_nat FINSH_CMD_SIZE) with 80%nat. change (Z.to_nat 0) with 0%nat. rewrite Nat2Z.id, drop_0.
  unfold line_of. rewrite take_app_length. unfold splice, row_of. by rewrite take_0, Nat.add_0_l, drop_replicate.
Qed.

(** The state with another history. *)
Definition holds (h : list (list Z)) (rows : list (list Z)) : Prop :=
  length rows = 5%nat /\ forall i t, h !! i = Some t -> rows !! i = Some (row_of t).

Lemma holds_more h rows t :
  holds h rows -> (length h < 5)%nat -> holds (h ++ [t]) (<[length h := row_of t]> rows).
Proof.
  intros [H1 H2] Hl. split; [by rewrite length_insert|]. intros i u [Hi|[Hi Hu]]%lookup_app_Some.
  - pose proof (lookup_lt_Some _ _ _ Hi). rewrite list_lookup_insert_ne by lia. by apply H2.
  - apply list_lookup_singleton_Some in Hu as [Hu <-]. replace i with (length h) by lia. rewrite list_lookup_insert_eq by lia. done.
Qed.

Lemma holds_shift h rows t :
  holds h rows -> length h = 5%nat ->
  exists rows', shift_loop 4 0 rows = Some rows' /\ holds (tail h ++ [t]) (<[4%nat := row_of t]> rows').
Proof.
  intros [H1 H2] Hl. destruct rows as [|a [|b [|c [|d [|e [|]]]]]]; try done. eexists. split; [done|]. simpl.
  destruct h as [|a' [|b' [|c' [|d' [|e' [|]]]]]]; try done. split; [done|].
  pose proof (H2 1%nat b' eq_refl) as Hb. pose proof (H2 2%nat c' eq_refl) as Hc. pose proof (H2 3%nat d' eq_refl) as Hd.
  pose proof (H2 4%nat e' eq_refl) as He. simpl in *.
  intros [|[|[|[|[|i]]]]] u Hu; simpl in *; by simplify_eq.
Qed.

Lemma differs_last h t i s (Q : bool -> finsh_shell -> Prop) :
  buf (sh_msh s) = line_of t -> short t -> Forall short h -> holds h (cmd_history s) -> length h = S i ->
  Q (bool_decide (last h <> Some t)) s -> wp (differs (Z.of_nat i)) s Q.
Proof.
  intros Hb Ht Hh [_ Hr] Hl HQ. destruct (lookup_lt_is_Some_2 h i) as [u Hu]; [lia|].
  assert (last h = Some u) as Hlast by (by rewrite last_lookup, Hl). rewrite Hlast in HQ.
  eapply differs_wp; [exact Hb|by apply Hr|done|by eapply Forall_lookup_1|].
  rewrite (bool_decide_ext (u <> t) (Some u <> Some t)); [done|]. split; intros H E; apply H; congruence.
Qed.

Lemma push_history_wp h t s (Q : unit -> finsh_shell -> Prop) :
  buf (sh_msh s) = line_of t -> line_position s = Z.of_nat (length t) -> short t -> Forall short h ->
  history_count s = Z.of_nat (length h) -> (length h <= 5)%nat -> holds h (cmd_history s) ->
  (forall rows, holds (remember h t) rows ->
    Q tt (set_history (Z.of_nat (length (remember h t))) (Z.of_nat (length (remember h t))) rows s)) ->
  wp shell_push_history s Q.
Proof.
  intros Hb Hp Ht Hh Hc Hl Hr HQ.
  assert (remember h t = h -> Q tt (set_current (history_count s) s)) as Hsame.
  { intros E. rewrite E in HQ. specialize (HQ _ Hr). by rewrite <- Hc in HQ. }
  unfold shell_push_history. wp_steps. rewrite Hp. unfold remember in HQ, Hsame.
  destruct (decide (t = [])) as [->|Hne]; [simpl; wp_steps; by apply Hsame|].
  rewrite (bool_decide_eq_false_2 (t = [])) in HQ, Hsame by done. cbn [orb] in HQ, Hsame.
  rewrite (proj2 (Z.eqb_neq _ 0)) by (destruct t; [done|simpl; lia]). cbn [negb when]. wp_steps. rewrite Hc.
  destruct (Nat.leb_spec 5 (length h)) as [Hfull|Hroom]; unfold FINSH_HISTORY_LINES.
  - assert (length h = 5%nat) as H5 by lia. rewrite H5.
    change (5 <=? Z.of_nat 5) with true. change (5 - 1) with (Z.of_nat 4). cbn iota. wp_steps. apply (differs_last h t 4); [done..|].
    rewrite bool_decide_not. destruct (bool_decide (last h = Some t)); cbn [negb when]; [wp_steps; by apply Hsame|].
    wp_steps. destruct (holds_shift h _ t Hr H5) as (rows & E & Hrows). eapply wp_deref; [exact E|]. wp_steps.
    apply (new_row_wp t); [done..|]. wp_steps. cbn [history_count set_history].
    assert (length (tail h ++ [t]) = 5%nat) as Htl by (rewrite length_app; destruct h; simpl in *; lia).
    specialize (HQ _ Hrows). by rewrite Htl in HQ.
  - rewrite (proj2 (Z.leb_gt _ _)) by lia. wp_steps.
    apply (wp_mono _ _ (fun d s' => d = bool_decide (last h <> Some t) /\ s' = s)).
    { destruct (decide (h = [])) as [->|Hh0]; [by simpl; wp_steps|].
      assert (0 < length h)%nat as Hpos by (destruct h; [done|simpl; lia]). rewrite (proj2 (Z.eqb_neq _ 0)) by lia. replace (Z.of_nat (length h) - 1) with (Z.of_nat (length h - 1)) by lia.
      apply (differs_last h t); [done..|lia|done]. }
    intros d s' [-> ->]. rewrite bool_decide_not. destruct (bool_decide (last h = Some t)); cbn [negb when]; [wp_steps; by apply Hsame|].
    wp_steps. apply (new_row_wp t); [done..|]. wp_steps. cbn [history_count set_history]. unfold set_current.
    specialize (HQ _ (holds_more h _ t Hr Hroom)). rewrite length_app in HQ. simpl in HQ. simpl.
    rewrite Nat2Z.id, uwrap_small by c_lia. by replace (Z.of_nat (length h + 1)) with (Z.of_nat (length h) + 1) in HQ by lia.
Qed.

Lemma remember_bounds h t : (length h <= 5)%nat -> Forall short h -> short t ->
  (length (remember h t) <= 5)%nat /\ Forall short (remember h t).
Proof.
  intros Hl Hh Ht. unfold remember. destruct (bool_decide (t = []) || bool_decide (last h = Some t)); [done|].
  assert (Forall short (tail h)) as Htl by (destruct Hh; done).
  destruct (Nat.leb_spec 5 (length h)); (split; [rewrite length_app; destruct h; simpl in *; lia|]);
    apply Forall_app; split; try done; by constructor.
Qed.

Hypothesis (Hprompt : Forall (fun c => c <> 37) prompt).

Lemma enter_implements e s : shell_rep echo prompt e s -> implements s (enter_key table run) (ed_enter table run echo prompt e).
Proof.
  intros Hr. pose proof Hr as [H1 H2 H3 H4 [H5 H5'] H6 H7 H8 H9 H10 H11]. unfold ed_enter. set (t := ed_line e) in *. pose proof H2 as [_ Hl].
  pose proof (remember_bounds (hist e) t H5' H7 H2) as [Hrl Hrs]. set (h := remember (hist e) t) in *.
  destruct (exec_spec table run t) as [[r out] cl] eqn:Ex. unfold implements, enter_key. wp_steps.
  apply (push_history_wp (hist e) t); [done..|]. intros rows Hrows. fold h in Hrows |- *. wp_steps. simpl. rewrite H10.
  set (s1 := set_history (Z.of_nat (length h)) (Z.of_nat (length h)) rows s).
  apply (wp_mono _ _ (fun _ s' => s' = say (if echo then nl else []) s1)).
  { apply wp_when; intros ->; [|by rewrite say_nil]. by apply wp_print_0; [plain|]. }
  intros [] s2 ->. wp_steps. cbn [line_position say set_msh]. simpl line_position. rewrite H3. apply wp_in_msh.
  eapply wp_mono; [apply (msh_exec_spec table run Htable 0 t); [simpl; rewrite H1; by apply short_cstring|lia]|].
  intros r' s3 (m & Hm & E). rewrite Ex in E. injection E as -> ->. simpl in Hm. rewrite H1, line_length in Hm by lia.
  wp_steps. apply get_prompt_wp. change (prompt_of _) with (prompt_of s). rewrite H11. wp_steps.
  apply wp_print_0; [done|]. wp_steps. apply wp_in_line. wp_steps. simpl. rewrite Hm.
  split; [split; simpl; try done; by split; [constructor|simpl; lia]|]. split; simpl; [|done]. by rewrite <- !app_assoc.
Qed.

Lemma plain_implements e s c :
  0 <= c < 256 -> shell_rep echo prompt e s -> implements s (plain_key table run c) (ed_plain table run echo prompt e c).
Proof.
  intros Hc Hr. unfold plain_key, ed_plain. destruct ((c =? 0) || (c =? 255)) eqn:E0; [apply quiet_implements; [by wp_step|done]|].
  apply orb_false_iff in E0 as [E0%Z.eqb_neq _].
  destruct (c =? 9); [by apply tab_implements|]. destruct ((c =? 127) || (c =? 8)); [by apply back_implements|].
  destruct ((c =? 13) || (c =? 10)); [by apply enter_implements|]. apply char_implements; [lia|done].
Qed.

Lemma rep_keys k e s : shell_rep echo prompt e s -> shell_rep echo prompt (set_keys k e) (set_stat k s).
Proof. by intros []. Qed.

(** A key after the state of the escape sequence has changed. *)
Lemma keys_implements k e s m r :
  (forall s, shell_rep echo prompt (set_keys k e) s -> implements s m r) -> shell_rep echo prompt e s ->
  implements s (modify (set_stat k);; m) r.
Proof.
  intros Hm Hr. specialize (Hm _ (rep_keys k _ _ Hr)). unfold implements in *. destruct r as [[[e' out] cl]|]; [|done].
  by wp_steps.
Qed.

Lemma key_implements e s c :
  0 <= c < 256 -> shell_rep echo prompt e s -> implements s (shell_key table run c) (ed_key table run echo prompt e c).
Proof.
  intros Hc Hr. unfold shell_key, ed_key. rewrite (proj2 (Z.ltb_ge _ _)) by lia.
  destruct (c =? 27).
  { unfold implements, quiet. wp_step. split; [by apply rep_keys|]. by split; simpl; rewrite app_nil_r. }
  destruct (keys e) eqn:Ek;
    (eapply implements_wp; [intros Q H; wp_step; wp_step; rewrite (sr_keys _ _ _ _ Hr), Ek; cbn iota; exact H|]).
  - by apply plain_implements.
  - destruct (c =? 91).
    + unfold implements, quiet. wp_step. split; [by apply rep_keys|]. by split; simpl; rewrite app_nil_r.
    + apply keys_implements with e; [|done]. intros s1 H1. by apply plain_implements.
  - apply keys_implements with e; [|done]. intros s1 H1. cbv zeta.
    destruct (c =? 65); [by apply up_implements|]. destruct (c =? 66); [by apply down_implements|].
    destruct (c =? 68); [by apply left_implements|]. destruct (c =? 67); [by apply right_implements|].
    by apply plain_implements.
Qed.

(** C18. The line editor, the history, completion and the interpreter together:
    from any state that represents an edited line, and for any sequence of
    characters for which the reference editor stays within 79 characters, the shell
    never faults, ends in a state that represents the reference's - the line in front
    of and behind the cursor, the last five different commands, the cursor
    keys begun -, has printed exactly the reference's text and called exactly
    its commands with their arguments, in this order. *)
Theorem shell_refines cs e s e' out cl :
  Forall (fun c => 0 <= c < 256) cs -> shell_rep echo prompt e s -> ed_keys table run echo prompt e cs = Some (e', out, cl) ->
  wp (shell_keys table run cs) s (fun _ s' => shell_rep echo prompt e' s' /\ wrote s out cl s').
Proof.
  intros Hcs. revert e s e' out cl. induction Hcs as [|c cs Hc Hcs IH]; intros e s e' out cl Hr; cbn [ed_keys shell_keys].
  - intros [= <- <- <-]. wp_step. split; [done|]. by split; rewrite app_nil_r.
  - intros H. pose proof (key_implements e s c Hc Hr) as Hk.
    destruct (ed_key table run echo prompt e c) as [[[e1 out1] cl1]|]; [|done]. simpl in H.
    destruct (ed_keys table run echo prompt e1 cs) as [[[e2 out2] cl2]|] eqn:E2; [|done]. injection H as <- <- <-.
    wp_step. eapply wp_mono; [exact Hk|]. intros [] s1 [Hr1 [Hw1 Hw2]].
    eapply wp_mono; [by apply (IH e1 s1)|]. intros [] s2 [Hr2 [Hw3 Hw4]]. split; [done|].
    split; [by rewrite Hw3, Hw1, app_assoc|by rewrite Hw4, Hw2, app_assoc].
Qed.

End Commands.
End Steps.

(** ** The start *)

(** The block [finsh_system_init] allocates with [rt_calloc]. *)
Definition shell0 : finsh_shell :=
  mk_shell (mk_msh (line_of []) [] []) WAIT_NORMAL false false 0 0 (replicate 5 (replicate 80 0)) 0 0 None.
Definition ed0 : ed := mk_ed [] [] [] 0 WAIT_NORMAL.

(** [finsh_system_init], and [finsh_thread_entry] up to the loop. *)
Lemma shell_starts :
  wp (finsh_set_prompt_mode 1;; shell_start) shell0 (fun _ s =>
    shell_rep true (text "msh >") ed0 s /\ wrote shell0 (text "msh >") [] s).
Proof. unfold finsh_set_prompt_mode, shell_start. wp_steps. apply get_prompt_wp. wp_steps. apply wp_print_0; [plain|]. split; [|done].
  split; simpl; try done; by split; [constructor|simpl; lia].
Qed.

Definition demo_keys : list Z :=
  text "ps" ++ [13] ++ text "li" ++ [9] ++ text "em" ++ [8; 27; 91; 68; 8; 9] ++ text "mem 'x" ++ [13] ++ [27; 91; 65; 27; 91; 65; 10].
Definition end_of (cs : list Z) : option finsh_shell :=
  '(_, s) ← (finsh_set_prompt_mode 1;; shell_start;; shell_keys demo_table demo_run cs) shell0; Some s.

(** The state in front of the loop. *)
Definition ready : finsh_shell := say (text "msh >") (set_echo_mode true (set_prompt_mode true shell0)).

Lemma ready_rep : shell_rep true (text "msh >") ed0 ready.
Proof. split; simpl; try done; by split; [constructor|simpl; lia]. Qed.

Lemma demo_names n : n ∈ commands demo_table -> short n.
Proof.
  intros H. assert (Forall short (commands demo_table)) as Hf; [|by rewrite Forall_forall in Hf; apply Hf].
  vm_compute. repeat constructor.
Qed.

Lemma shell_refines_witness :
  exists s', shell_keys demo_table demo_run demo_keys ready = Some (tt, s') /\
    calls (sh_msh s') = [(1%nat, [text "ps"]); (1%nat, [text "ps"])] /\ history_count s' = 3 /\ line_position s' = 0.
Proof.
  destruct (proj1 (wp_Some _ _ _) (shell_refines true (text "msh >") demo_table demo_run demo_table_ok demo_names ltac:(plain)
    demo_keys ed0 ready _ _ _ ltac:(plain) ready_rep ltac:(vm_compute; reflexivity))) as ([] & s' & E & Hr & _ & Hc).
  exists s'. split; [exact E|]. split; [exact Hc|]. split; [apply (proj1 (sr_count _ _ _ _ Hr))|apply (sr_pos _ _ _ _ Hr)].
Defined.

(** ** Lines of 80 characters

    The loop resets the positions after the 80th character ("clear command
    line") and leaves the characters in [line]. *)

(** The next command is called with the old characters at the end of its
    last argument. *)
Example shell_stale_line :
  exists s, end_of (replicate 80 97 ++ text "ps" ++ [13]) = Some s /\ calls (sh_msh s) = [(1%nat, [text "ps" ++ replicate 78 97])].
Proof. eexists. split; [vm_compute; reflexivity|]. vm_compute. reflexivity. Qed.

(** Tab finds the 80 characters again, the next character resets one position
    and not the other, and two backspaces later [line_position] is 65535 and
    [rt_memmove] writes behind the line. *)
Example shell_position_underflow :
  (exists s, end_of (replicate 80 97 ++ [9; 97; 8]) = Some s /\ line_position s = 0 /\ line_curpos s = 80) /\
  end_of (replicate 80 97 ++ [9; 97; 8; 8]) = None.
Proof. split; [eexists; split; [vm_compute; reflexivity|]; done|vm_compute; reflexivity]. Qed.

(** 80 blanks and Enter: [msh_exec] gets the length 0, counts it down below
    0 and reads behind the line. *)
Example shell_blank_line : end_of (replicate 80 32 ++ [13]) = None.
Proof. vm_compute. reflexivity. Qed.

(** The prompt is used as a format. *)
Example shell_prompt_format :
  enter_key demo_table demo_run (set_prompt_custom (Some (1, text "%s>")) ready) = None.
Proof. vm_compute. reflexivity. Qed.

End Shell.
